(* ===== verification/_CoqProject ===== *)
-Q . S2P
Prelude.v
PyText.v
PyVal.v
Roles.v
Hashing.v
Json.v
Paths.v
SandboxPolicy.v
WriteLease.v
NetworkLease.v
LeaseMonitor.v
Regex.v
Guard.v
Conclusions.v
AgentScope.v
MultiAgent.v
FailurePolicy.v
Compaction.v
ConnectRequest.v
IpAddress.v
Destination.v
Connector.v
ConnectorSpec.v
ProxyScope.v
ProxyScopeSpec.v
Relay.v
ProxyRead.v
Autonomy.v
Contracts.v
Chain.v
Utf8.v
ChainArtifacts.v
Tools.v
Operations.v
Budget.v
ReadCoverage.v
ToolGate.v
AgentLoop.v
AgentLoopSpec.v
JsonParse.v
StrictJson.v
PrettyJson.v
Problems.v
EventSchema.v
Checkpoint.v
Recovery.v
Sequential.v
AgentMirror.v
TicketMirror.v
BindingMirror.v
ExecutionMirror.v
EventChain.v
Receipts.v
Sha512.v
ModArith.v
Edwards.v
Ed25519.v
PackTree.v
PackSignature.v
Pack.v
PackSigning.v
PackSigned.v
PackAnchor.v
