(* ===== verification/Prelude.v ===== *)
(** * ICODE agent runtime: verification library

    ICODE (src/src/icode) drives a language model through the steps of a ticket
    with tools, under policies that say what each agent may read, write, run
    and connect to.  This library models the decision-making core of that
    runtime as Rocq functions and step relations and proves what it promises.
    All file names below are under src/src/icode.

    ** How the program fits together, and where each part is

    - Text and values.  [Prelude] (strings, exceptions, results), [PyText]
      ([str] methods, [int()], decimal printing), [PyVal] (dynamic objects),
      [Utf8], [Hashing] (SHA-256 and HMAC, computed), [Json] ([json.dumps]),
      [Paths] ([PurePosixPath]), [Regex] (patterns, with their meaning as a
      relation).  They model the parts of Python's standard library the source
      uses.
    - Identities and contexts.  [Roles] (roles.py: registry, [spawn],
      [require]), [SandboxPolicy] (sandbox_policy.py: record, normalisation,
      wire form, [tighten_policy]), [AgentScope] (agent_scope.py: policies by
      role, narrowing to a region), [Conclusions] (agent_conclusion.py).
    - Leases.  [WriteLease] (write_lease.py: regions, board, lock files
      shared by several boards), [NetworkLease] (network_lease.py: issue, approve,
      verify, revoke, close), [LeaseMonitor] (its expiry thread),
      [ConnectRequest] (connect_request.py: the proxy's only request form).
    - Orchestration.  [MultiAgent] (multi_agent.py) spawns agents with
      [Roles], derives their contexts with [AgentScope], runs work under
      [WriteLease] and records [Conclusions]; its threads and their
      shared cursor are a step function.
    - The loop.  [Guard] (guard.py) decides on reads, writes and commands;
      [Tools] (tools/base.py) holds the registry; [Operations] (approvals.py,
      operations.py, control.py) the human decision and the operation
      receipts; [Budget] the usage; [Compaction] (compaction.py) shortens the
      history; [ToolGate] puts them in front of one tool call
      ([AgentLoop._invoke]); [AgentLoop] is the run around it; [ReadCoverage]
      the two checks that a reviewer read everything; [AgentLoopSpec] the
      properties of whole runs.
    - Tickets.  [Contracts] (contracts.py) reads the step contracts; [Chain]
      and [ChainArtifacts] (chain.py) derive the order of the steps, run them
      and assemble the review manifest; [FailurePolicy] (failure_policy.py)
      decides what follows a failure; [Autonomy] (autonomy.py) is the manager
      of background runs: intents, workers, safe points and recovery.
    - Evidence.  pack_verify.py checks an exported pack without trusting its
      producer.  [JsonParse] is [json.loads] with its hooks, [StrictJson] the
      bounds and the interoperability rules, [Problems] the bounded reports,
      [EventSchema] one event and its canonical hash; [AgentMirror],
      [TicketMirror], [BindingMirror] and [ExecutionMirror] replay the chain
      against the metadata and the contracts; [EventChain] is
      [_verify_event_chain], which runs them over the lines of the file;
      [Receipts] validates engineering receipts; [Sha512], [ModArith] (primes by
      Pocklington's criterion), [Edwards] (the curve as an abstract group over a
      field) and [Ed25519] are the signatures; [PackTree] the files of a pack,
      their walk, readers and digests; [PackSignature] signature.json and
      anchors.json; [Pack] is [verify_pack] and [main].
    - Producing evidence.  [PackSigning] (pack_signing.py: key files, signing) and
      [PackAnchor] (pack_anchor.py: the four kinds of anchor record and their
      file) meet the verifier in [PackSigned] and [PackAnchor]; [PrettyJson] is
      the indented form of [json.dumps].
    - Interruption and deliberation.  [Checkpoint] (checkpoint.py: the record, its
      atomic file and a crash at any moment of a save), [Recovery] (recovery.py:
      what may be resumed), [Sequential] (sequential.py: structured thinking).
    - The way out.  [IpAddress] is the [ipaddress] module of the standard library,
      [Destination] (network_destination.py) turns a host name into pinned
      numeric addresses, [Connector] (network_connector.py, leased_connect.py)
      dials them under a lease of [NetworkLease] for a request of
      [ConnectRequest]; [ConnectorSpec] has its properties.  [ProxyScope]
      (network_proxy_scope.py) owns clients and tunnels for one lease, with
      [LeaseMonitor] behind it ([ProxyScopeSpec] has its properties); [Relay] and
      [ProxyRead] (network_proxy_server.py) move the bytes of a tunnel and read
      the requests of untrusted clients.

    ** How state and operations are modelled

    A Python object with mutable fields is a Record; a method that changes it
    returns the changed record next to its result, because a method that raises
    may have changed the object already.  [result] carries values and
    exceptions ([exn], one type, since [except] clauses cross components).
    Code under a lock is one function; between such blocks threads interleave,
    so concurrent components are step relations ([NetworkLease.auth_step] and
    [closing_step], [MultiAgent.pool_step], [WriteLease]'s system of boards,
    [Autonomy]'s operations on a world of managers); [ProxyScope.step] is the threads around a scope; [Connector.dial] is the code of
    one thread, before each of whose atomic actions the other threads take any
    steps.  Integers are Python's
    unbounded ones; the 32-bit words of SHA-256 and the 64-bit words of
    SHA-512 wrap.  Untrusted JSON is a
    dynamic [PyVal.pyval], tested for its class where the source tests it, and
    raising where the source does not.

    What is not under src/ is a parameter: the file system's [resolve]
    ([Paths.FileSystem], with laws and an instance), the control plane, the
    model, approver and tool handlers ([ToolGate.LoopHost]), [repr] of floats
    and containers (a float counts as JSON that is read back when the decoder
    rounds its [repr] to it, [JsonParse.float_reads], as it does in CPython), what
    reading a file delivers ([PackTree.node]; what a text reader delivers of bytes
    that are not UTF-8 before it fails), Unicode's word and digit classes, clocks,
    random bytes, sockets and the scheduler ([Connector.DialHost]), the networks
    that later versions of Python classify ([IpAddress.IanaAdded]).  Calls of the
    guard whose path [resolve] refuses with anything but an [OSError] (a NUL
    character) raise in the source and are not modelled.

    ** What is proved

    - Authority only shrinks: [tighten_policy] is a preorder below the base;
      derived and narrowed contexts stay within theirs; read-only roles write
      and connect nowhere.
    - Exclusion: live write leases granted by one board are disjoint, and
      no two leases of any boards share a lock file; a job at work in parallel
      holds the region it declared, apart from the others', and all is released in
      the end; one worker per ticket; lease callbacks run once at a time.
    - Revocation is final and complete: a revoked generation never verifies
      again, and blocks its policy while a connection is open.
    - Every execution in a run of the loop was allowed by the guard, on the file
      system of the moment it was asked, or granted by a human for that request,
      with a receipt that admits it; runs are bounded; every tool call is answered
      in place; a step that must deliver ends well only after a delivery.
    - Accept exactly what is documented: the command and write guard, the
      CONNECT grammar, [verify_request], the step gate, the reading check, the
      contract alignment, each as an equivalence.
    - Failure handling: retry decisions, the bounded fingerprint history as the
      unbounded one, stored terminal records, stop requests obeyed at every
      safe point, repeated intents without effect.
    - Evidence: an empty report means exactly a well-formed, hash-linked chain
      that is a run of the ticket's state machine, agrees with the metadata and
      pairs every end with its start; the last hash commits to the whole chain;
      the chain verifier raises on one kind of record only.
    - Packs: exit code 0 means a pack whose files are exactly the ones listed,
      intact, with its chain, artifacts, ticket and signature; the digest of a
      pack commits to the files it covers (an unlisted manifest.json in any
      directory is not one).  Ed25519 as coded is correct: signing verifies,
      verification is the group equation on canonical encodings, and signatures
      are not malleable; a receipt passes exactly when its run is clear.
    - Signing and anchoring a pack and then verifying it succeeds; a checkpoint is
      the old or the new one after a crash at any moment of a save; a run is
      resumed only where the ticket, the checkpoint and the operations agree.
    - Network: a resolution gives numeric addresses that pass the test of
      globally routable ones (which lets fec0::/10 through) or nothing; in every
      interleaving an open dialed socket has its entry in the authority, so that a
      revocation closes it, and a connection is handed out only when its
      promotion found the lease in force; a dial ends; a scope whose close was
      confirmed stays empty, and the expiry monitor outlives the scopes; a relay
      delivers what it received, and a SOCKS5 request names one host to the byte.
    - Round trips and normal forms: policies, agent ids, UTF-8, regions, JSON.

    Examples named in the findings show where code and documentation differ.

    ** Fuel and bounds

    [PyText.dec_aux] gets the bit length of its number, at least its count of
    digits; [Regex.ends] the length of the text for a star, enough since an
    iteration that consumes nothing adds no end ([ends_iff]); [Chain.walk_loop]
    the source's own counter (256); [AgentLoop.run_turns] the source's
    [max_turns]; [AgentLoop.glob_regex] the length of the pattern, of which
    each step takes a character; the roots behind SHA-256's constants the
    bits of their result; [JsonParse.scan_value] twice the length of the text
    and two, since every step of the decoder that recurses takes a character
    ([loads_dumps] runs it); [PackTree.hash_loop] and [bounded_loop] one turn for
    every byte, since a chunk has at least one ([sha256_file_spec]).  [Connector.POLLS] bounds the poll loop of a dial
    by its deadline ([ConnectorSpec.dial_returns]); running out is no result.
    The loops of [Relay] and [ProxyRead] run over the turns they are given: no
    turns left means that they are still waiting.
    [NetworkLease.closing_terminates] bounds the closing loop by a measure.

    ** Not modelled

    Process isolation, native helpers and Windows or Linux system interfaces
    (calls through ctypes and subprocesses, whose behaviour is the operating
    system's); model backends and the tools' handlers (HTTP, subprocess and
    file work); user interfaces (presentation); the export of evidence,
    workspaces and work trees, the proxy's listeners and their hand-off, and the prompt assembly of runner.py (left for
    later).
    Event hooks of the loop are recorded and taken not to raise. *)

From stdpp Require Export base list strings gmap sorting.
From Stdlib Require Export ZArith NArith Lia.
From Stdlib Require Import Ascii.

#[global] Set Default Goal Selector "!".

(** ** Python text

    A Python [str] is a sequence of Unicode code points (surrogates included);
    a [bytes] value is a sequence of numbers below 256.  Both are lists of [N],
    so [len], slicing and comparison are those of lists. *)
Abbreviation pystr := (list N).

(** [u "..."] is the [str] a source literal denotes: the UTF-8 text of the Rocq
    string, decoded to code points. *)
Fixpoint u (s : string) : pystr :=
  let low a := (N_of_ascii a - 128)%N in
  match s with
  | EmptyString => []
  | String a s1 =>
    let b := N_of_ascii a in
    if (b <? 128)%N then b :: u s1
    else match s1 with
    | EmptyString => []
    | String a2 s2 =>
      if (b <? 224)%N then ((b - 192) * 64 + low a2)%N :: u s2
      else match s2 with
      | EmptyString => []
      | String a3 s3 =>
        if (b <? 240)%N then ((b - 224) * 4096 + low a2 * 64 + low a3)%N :: u s3
        else match s3 with
        | EmptyString => []
        | String a4 s4 =>
          ((b - 240) * 262144 + low a2 * 4096 + low a3 * 64 + low a4)%N :: u s4
        end
      end
    end
  end.
Arguments u _%_string.
#[global] Arguments u : simpl never.

(** ** Exceptions and results

    One type for every exception the modelled code raises or catches, because
    [except] clauses cross components.  A coded exception carries its stable
    [code]; the others carry the message the source gives them. *)
Inductive exn : Type :=
  | RoleError (code : string)
  | LeaseError (code : string)
  | LeaseBusy (region : list pystr) (holder : pystr)
  | ConclusionError (code : string)
  | PolicyValidationError (msg : string)
  | NetworkLeaseValidationError (msg : string)
  | NetworkLeaseApprovalDenied (msg : string)
  | NetworkLeaseConnectionCloseError (failure_count : nat)
  | ConnectRequestError
  | AutonomyError (code : string)
  | TicketError
  | RunStopped
  | ValueError (msg : string)
  | OverflowError (msg : string)
  | TypeError (msg : string)
  | AttributeError (name : string)
  | KeyError
  | OSError
  | ContractError
  | ControlError
  | JSONDecodeError (doc : list N) (msg : string)
  | FileSizeLimitExceeded
  | PackageEntryLimitExceeded
  | HashReadBudgetExceeded
  | RuntimeError (msg : string)
  | NetworkDestinationError (msg : string)
  | NetworkConnectError
  | PendingConnectCancelled
  | HostConnectScopeError
  | HostConnectProxyError.

Inductive result (A : Type) : Type :=
  | Ok (a : A)
  | Err (e : exn).
Arguments Ok {A} a.
Arguments Err {A} e.

#[export] Instance result_ret : MRet result := λ A a, Ok a.
#[export] Instance result_bind : MBind result :=
  λ A B f r, match r with Ok a => f a | Err e => Err e end.
#[export] Instance result_fmap : FMap result :=
  λ A B f r, match r with Ok a => Ok (f a) | Err e => Err e end.

(** [if cond: raise e] as a statement. *)
Definition raise_if (cond : bool) (e : exn) : result unit :=
  if cond then Err e else Ok tt.

Definition is_ok {A} (r : result A) : bool :=
  match r with Ok _ => true | Err _ => false end.

#[export] Instance exn_eq_dec : EqDecision exn.
Proof. solve_decision. Defined.
#[export] Instance result_eq_dec {A} `{EqDecision A} : EqDecision (result A).
Proof. solve_decision. Defined.

Lemma Ok_inj {A} (a b : A) : Ok a = Ok b → a = b.
Proof. congruence. Qed.
Lemma bind_ok {A B} (f : A → result B) (r : result A) b :
  (r ≫= f) = Ok b ↔ ∃ a, r = Ok a ∧ f a = Ok b.
Proof. destruct r as [a|e]; cbn; split; naive_solver. Qed.

Lemma bind_err {A B} (f : A → result B) (r : result A) e :
  (r ≫= f) = Err e ↔ r = Err e ∨ ∃ a, r = Ok a ∧ f a = Err e.
Proof. destruct r as [a|e']; cbn; split; naive_solver. Qed.

Lemma raise_if_ok c e t : raise_if c e = Ok t ↔ c = false.
Proof. destruct c, t; naive_solver. Qed.

Lemma raise_if_err c e e' : raise_if c e = Err e' ↔ c = true ∧ e' = e.
Proof. destruct c; naive_solver. Qed.

Lemma fmap_ok {A B} (f : A → B) (r : result A) b :
  (f <$> r) = Ok b ↔ ∃ a, r = Ok a ∧ b = f a.
Proof. destruct r as [a|e]; cbn; split; naive_solver. Qed.

Lemma is_ok_iff {A} (r : result A) : is_ok r = true ↔ ∃ a, r = Ok a.
Proof. destruct r; naive_solver. Qed.

Create HintDb py.
Create Rewrite HintDb py.
#[export] Hint Rewrite @bind_ok @raise_if_ok @raise_if_err @fmap_ok
  bool_decide_eq_true bool_decide_eq_false
  andb_true_iff andb_false_iff orb_true_iff orb_false_iff
  negb_true_iff negb_false_iff
  N.leb_le N.ltb_lt N.eqb_eq N.leb_gt N.ltb_ge N.eqb_neq
  Z.leb_le Z.ltb_lt Z.eqb_eq Z.leb_gt Z.ltb_ge Z.eqb_neq
  Nat.leb_le Nat.ltb_lt Nat.eqb_eq Nat.leb_gt Nat.ltb_ge Nat.eqb_neq : py.

(** [res H] takes a successful run of a sequence of statements apart: every
    statement of it succeeded. *)
Ltac res H :=
  repeat first
    [ progress (autorewrite with py in H)
    | match type of H with
      | ∃ _, _ => let x := fresh "r" in destruct H as [x H]
      | _ ∧ _ => let H1 := fresh H in destruct H as [H1 H]; try res H1
      | (if ?b then Err _ else _) = Ok _ => let E := fresh "E" in destruct b eqn:E; [discriminate H|]
      | Ok _ = Ok _ => injection H as H
      end ].

(** Decide the tests of a goal or hypothesis one by one. *)
Ltac split_tests :=
  repeat (case_match || case_bool_decide || case_decide); simplify_eq/=.

(** Prove a decidable closed statement by evaluating its decision. *)
Ltac by_compute := apply (bool_decide_unpack _); vm_compute; exact I.

(** ** Tests, membership and dictionaries *)
Declare Scope py_scope.
Delimit Scope py_scope with py.
Notation "a =s b" := (bool_decide (a = b)) (at level 70, no associativity) : py_scope.
Notation "a ≠s b" := (negb (bool_decide (a = b))) (at level 70, no associativity) : py_scope.
Notation "x ∈s l" := (bool_decide (x ∈ l)) (at level 70, no associativity) : py_scope.
#[global] Open Scope py_scope.

(** A Python [dict]: its items in insertion order, keys distinct. *)
Section dict.
Context {K V : Type} `{EqDecision K}.
Implicit Types d : list (K * V).

Fixpoint dget (k : K) d : option V :=
  match d with
  | [] => None
  | (k', v) :: d' => if decide (k = k') then Some v else dget k d'
  end.

(** [d[k] = v]: replaces in place, or appends a new item. *)
Fixpoint dset (k : K) (v : V) d : list (K * V) :=
  match d with
  | [] => [(k, v)]
  | (k', v') :: d' => if decide (k = k') then (k', v) :: d' else (k', v') :: dset k v d'
  end.

Fixpoint ddel (k : K) d : list (K * V) :=
  match d with
  | [] => []
  | (k', v') :: d' => if decide (k = k') then ddel k d' else (k', v') :: ddel k d'
  end.

Definition dhas (k : K) d : bool := match dget k d with Some _ => true | None => false end.
Definition dkeys d : list K := d.*1.

Lemma dget_dset_eq k v d : dget k (dset k v d) = Some v.
Proof. induction d as [|[k' v'] d IH]; cbn; repeat (case_decide; cbn); naive_solver. Qed.

Lemma dget_dset_ne k k' v d : k ≠ k' → dget k (dset k' v d) = dget k d.
Proof. intros ?. induction d as [|[k'' v'] d IH]; cbn; repeat (case_decide; cbn); naive_solver. Qed.

Lemma dget_ddel_eq k d : dget k (ddel k d) = None.
Proof. induction d as [|[k' v'] d IH]; cbn; repeat (case_decide; cbn); naive_solver. Qed.

Lemma dget_ddel_ne k k' d : k ≠ k' → dget k (ddel k' d) = dget k d.
Proof. intros ?. induction d as [|[k'' v'] d IH]; cbn; repeat (case_decide; cbn); naive_solver. Qed.

Lemma dset_fresh k v d : dget k d = None → dset k v d = d ++ [(k, v)].
Proof.
  induction d as [|[k' v'] d IH]; cbn; [done|].
  case_decide; intros; [done|]. cbn. by rewrite IH.
Qed.

Lemma dget_None k d : dget k d = None ↔ k ∉ dkeys d.
Proof.
  induction d as [|[k' v'] d IH]; cbn; [set_solver|].
  case_decide; set_solver.
Qed.

Lemma dget_Some_elem k v d : dget k d = Some v → (k, v) ∈ d.
Proof. induction d as [|[k' v'] d IH]; cbn; repeat (case_decide; cbn); set_solver. Qed.

Lemma elem_dget k v d : NoDup (dkeys d) → (k, v) ∈ d → dget k d = Some v.
Proof.
  induction d as [|[k' v'] d IH]; cbn; [set_solver|].
  intros [Hni Hnd]%NoDup_cons [?|Hin]%elem_of_cons; simplify_eq.
  { by rewrite decide_True. }
  case_decide as E; [|auto]. subst. destruct Hni.
  apply list_elem_of_fmap. by exists (k', v).
Qed.

Lemma elem_dkeys_ddel k k' d : k' ∈ dkeys (ddel k d) ↔ k' ∈ dkeys d ∧ k' ≠ k.
Proof.
  unfold dkeys. induction d as [|[k2 v2] d IH]; cbn; [set_solver|].
  case_decide as E; [subst|]; cbn; rewrite ?elem_of_cons, IH; naive_solver.
Qed.

Lemma ddel_NoDup k d : NoDup (dkeys d) → NoDup (dkeys (ddel k d)).
Proof.
  induction d as [|[k2 v2] d IH]; cbn; [done|].
  intros [Hni Hnd]%NoDup_cons. case_decide; [auto|].
  constructor; [|auto]. intros [? _]%elem_dkeys_ddel. done.
Qed.

Lemma dset_NoDup k v d : NoDup (dkeys d) → NoDup (dkeys (dset k v d)).
Proof.
  induction d as [|[k' v'] d IH]; cbn; [intros; apply NoDup_singleton|].
  intros [Hni Hnd]%NoDup_cons. destruct (decide (k = k')) as [E|E]; cbn.
  - by constructor.
  - constructor; [|auto]. unfold dkeys in *.
    assert (Hk : ∀ x, x ∈ (dset k v d).*1 → x = k ∨ x ∈ d.*1).
    { clear. induction d as [|[k2 v2] d IH]; cbn; [set_solver|].
      case_decide; cbn; set_solver. }
    intros [->|?]%Hk; done.
Qed.

Lemma ddel_dset k v d : dget k d = None → ddel k (dset k v d) = d.
Proof.
  induction d as [|[k' v'] d IH]; cbn.
  - by rewrite decide_True.
  - case_decide; [done|]. intros. cbn. rewrite decide_False by done. by rewrite IH.
Qed.

Lemma elem_dset k v d p : p ∈ dset k v d → p = (k, v) ∨ p ∈ d.
Proof.
  induction d as [|[k' v'] d IH]; cbn; [set_solver|].
  case_decide as E; [subst|]; rewrite !elem_of_cons; naive_solver.
Qed.
Lemma elem_dkeys_dset k v d k' : k' ∈ dkeys (dset k v d) → k' = k ∨ k' ∈ dkeys d.
Proof.
  intros (p & -> & Hp)%list_elem_of_fmap. apply elem_dset in Hp as [-> |Hp]; [by left|right].
  by apply list_elem_of_fmap_2.
Qed.

Lemma elem_ddel k p d : p ∈ ddel k d → p ∈ d ∧ p.1 ≠ k.
Proof.
  induction d as [|[k' v'] d IH]; cbn; [set_solver|].
  case_decide; [set_solver|]. intros [->|?]%elem_of_cons; set_solver.
Qed.

Lemma elem_ddel_iff k p d : p ∈ ddel k d ↔ p ∈ d ∧ p.1 ≠ k.
Proof.
  split; [apply elem_ddel|]. intros [Hin Hne].
  induction d as [|[k' v'] d IH]; cbn; [set_solver|].
  case_decide; set_solver.
Qed.
End dict.
#[export] Hint Rewrite @dget_dset_eq @dget_ddel_eq : py.

(** Python slices: [l[:n]] is [take n l]; [l[-n:]] keeps the last [n] items, and
    with [n <= 0] it drops the first [-n] instead ([l[-0:]] is all of [l]). *)
Definition slice_last {A} (n : Z) (l : list A) : list A :=
  if (0 <? n)%Z then drop (length l - Z.to_nat n) l else drop (Z.to_nat (- n)) l.

Lemma slice_last_length {A} n (l : list A) :
  (0 < n)%Z → (Z.of_nat (length (slice_last n l)) ≤ n)%Z.
Proof.
  intros Hn. unfold slice_last. destruct (Z.ltb_spec 0 n); [|lia].
  rewrite length_drop. lia.
Qed.

Lemma slice_last_suffix {A} n (l : list A) : slice_last n l `suffix_of` l.
Proof.
  unfold slice_last.
  case_match; [exists (take (length l - Z.to_nat n) l)|exists (take (Z.to_nat (- n)) l)];
    by rewrite take_drop.
Qed.

Lemma slice_last_all {A} n (l : list A) :
  (0 < n)%Z → (Z.of_nat (length l) ≤ n)%Z → slice_last n l = l.
Proof.
  intros ? ?. unfold slice_last. destruct (Z.ltb_spec 0 n); [|lia].
  replace (length l - Z.to_nat n) with 0 by lia. done.
Qed.

(** Quantified tests over lists, reflected. *)
Lemma forallb_Forall {A} (f : A → bool) l : forallb f l = true ↔ Forall (λ x, f x = true) l.
Proof. rewrite forallb_forall, Forall_forall. setoid_rewrite list_elem_of_In. done. Qed.

Lemma existsb_Exists {A} (f : A → bool) l : existsb f l = true ↔ ∃ x, x ∈ l ∧ f x = true.
Proof. rewrite existsb_exists. setoid_rewrite list_elem_of_In. done. Qed.

Lemma existsb_none {A} (f : A → bool) l : existsb f l = false ↔ Forall (λ x, f x = false) l.
Proof.
  induction l as [|x l IH]; cbn.
  - split; [constructor|done].
  - rewrite orb_false_iff, Forall_cons, IH. done.
Qed.

Lemma fmap_fixed {A} (f : A → A) l : Forall (λ x, f x = x) l → f <$> l = l.
Proof. induction 1 as [|x l Hx _ IH]; [done|]. cbn. by rewrite Hx, IH. Qed.
