(* ===== verification/PyText.v ===== *)
(** * Python text operations

    The [str] methods the modelled code calls, on code-point lists: [strip],
    [split], [join], [lower], prefix and substring tests, decimal printing and
    [int()], the order of [sorted] on strings, and the simple regular
    expressions of the source (one character class, repeated). *)

From S2P Require Import Prelude.

(** [lia] with the equations of division and remainder. *)
#[local] Ltac Zify.zify_post_hook ::= Z.to_euclidean_division_equations.

(** ** Characters *)
Definition in_range (lo hi c : N) : bool := (lo <=? c)%N && (c <=? hi)%N.
Definition is_digit : N → bool := in_range 48 57.
Definition is_lower_az : N → bool := in_range 97 122.
Definition is_upper_az : N → bool := in_range 65 90.
Definition is_alnum_ascii (c : N) : bool := is_digit c || is_lower_az c || is_upper_az c.
Definition is_hex_lower (c : N) : bool := is_digit c || in_range 97 102 c.
Definition is_hex (c : N) : bool := is_hex_lower c || in_range 65 70 c.
Definition is_ascii (c : N) : bool := (c <? 128)%N.
(** [ord(c) < 32 or ord(c) == 127] *)
Definition is_control (c : N) : bool := (c <? 32)%N || (c =? 127)%N.
Definition is_surrogate : N → bool := in_range 55296 57343.

(** [str.isspace], the characters [strip()] and [split()] remove. *)
Definition is_space (c : N) : bool :=
  in_range 9 13 c || in_range 28 32 c || (c =? 133)%N || (c =? 160)%N || (c =? 5760)%N
  || in_range 8192 8202 c || (c =? 8232)%N || (c =? 8233)%N || (c =? 8239)%N
  || (c =? 8287)%N || (c =? 12288)%N.

(** [str.lower]: exact on ASCII and on the two non-ASCII characters whose lower
    case contains an ASCII letter; any other character maps to itself, which no
    comparison with ASCII text can tell from its real lower case. *)
Definition lower_char (c : N) : pystr :=
  if is_upper_az c then [(c + 32)%N]
  else if (c =? 304)%N then [105%N; 775%N]
  else if (c =? 8490)%N then [107%N]
  else [c].
Definition lower (s : pystr) : pystr := concat (lower_char <$> s).

(** ** Stripping, prefixes and substrings *)
Fixpoint lstrip_by (f : N → bool) (s : pystr) : pystr :=
  match s with
  | [] => []
  | c :: s' => if f c then lstrip_by f s' else s
  end.
Definition rstrip_by (f : N → bool) (s : pystr) : pystr := reverse (lstrip_by f (reverse s)).
Definition strip_by (f : N → bool) (s : pystr) : pystr := rstrip_by f (lstrip_by f s).
Definition strip : pystr → pystr := strip_by is_space.
Definition lstrip : pystr → pystr := lstrip_by is_space.

Fixpoint startswith (p s : pystr) : bool :=
  match p, s with
  | [], _ => true
  | a :: p', b :: s' => (a =? b)%N && startswith p' s'
  | _, [] => false
  end.
Definition endswith (p s : pystr) : bool := startswith (reverse p) (reverse s).

Fixpoint contains (p s : pystr) : bool :=
  startswith p s || match s with [] => false | _ :: s' => contains p s' end.

(** [s.find(p)]: the first index [p] occurs at. *)
Fixpoint find_from (i : nat) (p s : pystr) : option nat :=
  if startswith p s then Some i
  else match s with [] => None | _ :: s' => find_from (S i) p s' end.
Definition find_sub (p s : pystr) : option nat := find_from 0 p s.

Definition count_char (c : N) (s : pystr) : nat := length (filter (λ d, d = c) s).
Definition replace_char (a b : N) (s : pystr) : pystr := (λ c, if (c =? a)%N then b else c) <$> s.
Definition has_char (c : N) (s : pystr) : bool := existsb (N.eqb c) s.

(** [s.split(c)] for a one-character separator: never empty. *)
Fixpoint split_on (c : N) (s : pystr) : list pystr :=
  match s with
  | [] => [[]]
  | d :: s' =>
    if (d =? c)%N then [] :: split_on c s'
    else match split_on c s' with
         | [] => [[d]]
         | w :: ws => (d :: w) :: ws
         end
  end.

(** [sep.join(words)] *)
Fixpoint join (sep : pystr) (ws : list pystr) : pystr :=
  match ws with
  | [] => []
  | [w] => w
  | w :: ws' => w ++ sep ++ join sep ws'
  end.

(** [s.split()]: the maximal runs of non-space characters. *)
Definition split_ws (s : pystr) : list pystr :=
  let flush (w : pystr) (ws : list pystr) := match w with [] => ws | _ => w :: ws end in
  let '(w, ws) := foldr (λ c '(w, ws), if is_space c then ([], flush w ws) else (c :: w, ws))
                        ([], []) s in
  flush w ws.

(** ** Decimal numbers *)
Fixpoint dec_aux (fuel : nat) (n : N) (acc : pystr) : pystr :=
  match fuel with
  | O => acc
  | S f =>
    let acc' := (48 + n mod 10)%N :: acc in
    if (n / 10 =? 0)%N then acc' else dec_aux f (n / 10) acc'
  end.
(** [str(n)] for [n >= 0]; a number has at most as many decimal as binary digits. *)
Definition dec (n : N) : pystr := dec_aux (S (N.size_nat n)) n [].
Definition dec_z (z : Z) : pystr :=
  if (z <? 0)%Z then 45%N :: dec (Z.to_N (- z)) else dec (Z.to_N z).

Definition digits_value (s : pystr) : N := foldl (λ acc c, acc * 10 + (c - 48))%N 0%N s.

(** ** The regular expressions of one repeated class

    [full_cls f lo hi s]: [re.fullmatch("[f]{lo,hi}", s)].  [dollar m s]: a
    pattern [^...$] run by [re.match], whose [$] also matches just before a
    final newline. *)
Definition full_cls (f : N → bool) (lo : nat) (hi : option nat) (s : pystr) : bool :=
  (lo <=? length s) && match hi with Some h => length s <=? h | None => true end && forallb f s.

Definition newline : N := 10%N.
Definition dollar (m : pystr → bool) (s : pystr) : bool :=
  m s || match reverse s with
         | c :: t => (c =? newline)%N && m (reverse t)
         | [] => false
         end.

(** ** String order and [sorted(set(...))] *)
Fixpoint str_compare (a b : pystr) : comparison :=
  match a, b with
  | [], [] => Eq
  | [], _ => Lt
  | _, [] => Gt
  | x :: a', y :: b' => match (x ?= y)%N with Eq => str_compare a' b' | c => c end
  end.

Section sorted_set.
Context {A : Type} `{EqDecision A} (key : A → pystr).

Fixpoint sset_insert (x : A) (l : list A) : list A :=
  match l with
  | [] => [x]
  | y :: l' =>
    match str_compare (key x) (key y) with
    | Lt => x :: l
    | Eq => if decide (x = y) then l else y :: sset_insert x l'
    | Gt => y :: sset_insert x l'
    end
  end.
(** [sorted(set(l), key=key)] *)
Definition sorted_set (l : list A) : list A := foldr sset_insert [] l.

Definition key_lt (x y : A) : Prop := str_compare (key x) (key y) = Lt.
End sorted_set.

(** [sorted(l)] of strings, duplicates kept. *)
Fixpoint str_insert (x : pystr) (l : list pystr) : list pystr :=
  match l with
  | [] => [x]
  | y :: l' => match str_compare x y with Gt => y :: str_insert x l' | _ => x :: l end
  end.
Definition sorted_strs (l : list pystr) : list pystr := foldr str_insert [] l.

(** ** Lemmas *)
Lemma str_compare_eq a b : str_compare a b = Eq ↔ a = b.
Proof.
  revert b. induction a as [|x a IH]; intros [|y b]; cbn; try done.
  destruct (N.compare_spec x y); split; intros; simplify_eq; try lia; try done.
  - f_equal. by apply IH.
  - by apply IH.
Qed.

Lemma str_compare_antisym a b : str_compare b a = CompOpp (str_compare a b).
Proof.
  revert b. induction a as [|x a IH]; intros [|y b]; cbn; try done.
  rewrite N.compare_antisym. destruct (x ?= y)%N; cbn; auto.
Qed.

Lemma str_compare_lt_trans a b c :
  str_compare a b = Lt → str_compare b c = Lt → str_compare a c = Lt.
Proof.
  revert b c. induction a as [|x a IH]; intros [|y b] [|z c]; cbn; try done.
  destruct (N.compare_spec x y) as [E1|H1|H1], (N.compare_spec y z) as [E2|H2|H2];
    subst; try done; intros.
  - rewrite N.compare_refl in *. eauto.
  - by rewrite (proj2 (N.compare_lt_iff y z) H2).
  - by rewrite (proj2 (N.compare_lt_iff x z) H1).
  - assert (Hxz : (x < z)%N) by lia. by rewrite (proj2 (N.compare_lt_iff x z) Hxz).
Qed.

Section sorted_set_lemmas.
Context {A : Type} `{EqDecision A} (key : A → pystr).

Lemma sorted_set_cons x l : sorted_set key (x :: l) = sset_insert key x (sorted_set key l).
Proof. done. Qed.

Lemma elem_sset_insert x y l : y ∈ sset_insert key x l ↔ y = x ∨ y ∈ l.
Proof.
  induction l as [|z l IH]; cbn; [set_solver|].
  repeat case_match; rewrite ?elem_of_cons, ?IH; naive_solver.
Qed.

Lemma elem_sorted_set y l : y ∈ sorted_set key l ↔ y ∈ l.
Proof.
  induction l as [|z l IH]; [done|].
  by rewrite sorted_set_cons, elem_sset_insert, elem_of_cons, IH.
Qed.

Lemma sset_insert_below x l : Forall (key_lt key x) l → sset_insert key x l = x :: l.
Proof. intros H. destruct H as [|y l Hy Hl]; cbn; [done|]. by rewrite Hy. Qed.

(** A strictly sorted list is its own sorted set. *)
Lemma sorted_set_id l : StronglySorted (key_lt key) l → sorted_set key l = l.
Proof.
  induction 1 as [|x l Hs IH Hx]; [done|].
  rewrite sorted_set_cons, IH. by apply sset_insert_below.
Qed.

Lemma sset_insert_sorted x l :
  (∀ y, y ∈ l → key x = key y → x = y) →
  StronglySorted (key_lt key) l → StronglySorted (key_lt key) (sset_insert key x l).
Proof.
  intros Hinj. induction 1 as [|y l Hs IH Hy]; cbn; [repeat constructor|].
  destruct (str_compare (key x) (key y)) eqn:E.
  - apply str_compare_eq, Hinj in E; [|set_solver]. subst.
    rewrite decide_True by done. by constructor.
  - constructor; [by constructor|]. constructor; [done|].
    eapply Forall_impl; [exact Hy|]. intros z Hz. by eapply str_compare_lt_trans.
  - constructor; [apply IH; set_solver|].
    apply Forall_forall. intros z [->|Hz]%elem_sset_insert.
    + unfold key_lt. rewrite str_compare_antisym, E. done.
    + by eapply Forall_forall in Hy.
Qed.

Lemma sorted_set_sorted l :
  (∀ x y, x ∈ l → y ∈ l → key x = key y → x = y) →
  StronglySorted (key_lt key) (sorted_set key l).
Proof.
  induction l as [|x l IH]; intros Hinj; [constructor|].
  rewrite sorted_set_cons. apply sset_insert_sorted.
  - intros y Hy. rewrite elem_sorted_set in Hy. by apply Hinj; rewrite ?elem_of_cons; auto.
  - apply IH. intros; by apply Hinj; rewrite ?elem_of_cons; auto.
Qed.

Lemma sorted_set_idem l :
  (∀ x y, x ∈ l → y ∈ l → key x = key y → x = y) →
  sorted_set key (sorted_set key l) = sorted_set key l.
Proof. intros. by apply sorted_set_id, sorted_set_sorted. Qed.

Lemma sorted_set_nil l : sorted_set key l = [] ↔ l = [].
Proof.
  split; [|by intros ->]. destruct l as [|x l]; [done|].
  intros H. assert (Hin : x ∈ sorted_set key (x :: l)) by (apply elem_sorted_set; constructor).
  rewrite H in Hin. by apply elem_of_nil in Hin.
Qed.
End sorted_set_lemmas.
#[export] Hint Rewrite @elem_sorted_set @sorted_set_nil : py.

Lemma startswith_prefix p s : startswith p s = true ↔ p `prefix_of` s.
Proof.
  revert s. induction p as [|a p IH]; intros s; cbn.
  - split; [intros _; apply prefix_nil|done].
  - destruct s as [|b s].
    + split; [done|]. intros [k Hk]. done.
    + rewrite andb_true_iff, N.eqb_eq, IH. split.
      * intros [-> [k ->]]. by exists k.
      * intros [k Hk]. simplify_eq/=. split; [done|]. by exists k.
Qed.

Lemma split_on_nonempty c s : split_on c s ≠ [].
Proof. destruct s as [|d s]; cbn; [done|]. case_match; [done|]. by case_match. Qed.

Lemma split_on_none c s : c ∉ s → split_on c s = [s].
Proof.
  induction s as [|d s IH]; cbn; [done|]. intros Hni.
  destruct (N.eqb_spec d c); [set_solver|]. rewrite IH by set_solver. done.
Qed.

Lemma split_on_app c a b : c ∉ a → split_on c (a ++ c :: b) = a :: split_on c b.
Proof.
  induction a as [|d a IH]; cbn; intros Hni.
  - by rewrite N.eqb_refl.
  - destruct (N.eqb_spec d c); [set_solver|]. by rewrite IH by set_solver.
Qed.

Lemma join_split c s : join [c] (split_on c s) = s.
Proof.
  induction s as [|d s IH]; cbn; [done|].
  pose proof (split_on_nonempty c s).
  destruct (N.eqb_spec d c) as [->|Hne].
  - destruct (split_on c s); cbn in *; [done|]. by rewrite IH.
  - destruct (split_on c s) as [|w [|w' ws]]; cbn in *; [done|by subst|by rewrite <-IH].
Qed.
Lemma Forall_join (P : N → Prop) c ws : P c → Forall (Forall P) ws → Forall P (join [c] ws).
Proof.
  intros Hc. induction 1 as [|w ws Hw Hws IH]; [constructor|].
  destruct ws as [|w' ws]; [done|].
  change (join [c] (w :: w' :: ws)) with (w ++ [c] ++ join [c] (w' :: ws)).
  rewrite !Forall_app. split_and!; [done|by constructor|done].
Qed.

(** *** Decimal printing is inverted by [digits_value] *)
Lemma digits_value_app a b :
  digits_value (a ++ b) = (digits_value a * 10 ^ N.of_nat (length b) + digits_value b)%N.
Proof.
  unfold digits_value. rewrite foldl_app. generalize (foldl (λ acc c, acc * 10 + (c - 48)) 0 a)%N.
  induction b as [|c b IH] using rev_ind; intros n; cbn; [lia|].
  rewrite !foldl_app, length_app. cbn [foldl length]. rewrite IH.
  replace (N.of_nat (length b + 1)) with (N.succ (N.of_nat (length b))) by lia.
  rewrite N.pow_succ_r'. lia.
Qed.

Lemma dec_aux_spec fuel n acc :
  (n < 10 ^ N.of_nat fuel)%N → (fuel ≠ 0) →
  digits_value (dec_aux fuel n acc) = (n * 10 ^ N.of_nat (length acc) + digits_value acc)%N.
Proof.
  revert n acc. induction fuel as [|f IH]; intros n acc Hn Hf; [done|]. cbn [dec_aux].
  assert (Hd : ∀ m, (m < 10)%N →
    digits_value ((48 + m)%N :: acc) = (m * 10 ^ N.of_nat (length acc) + digits_value acc)%N).
  { intros m Hm. change ((48 + m)%N :: acc) with ([(48 + m)%N] ++ acc).
    rewrite digits_value_app. f_equal. f_equal. unfold digits_value. cbn [foldl]. lia. }
  pose proof (N.div_mod n 10 ltac:(lia)) as Hdm.
  pose proof (N.mod_lt n 10 ltac:(lia)) as Hml.
  destruct (N.eqb_spec (n / 10) 0) as [Hz|Hz].
  - rewrite Hd by done. f_equal. f_equal. lia.
  - rewrite IH.
    + cbn [length]. rewrite Hd by done. rewrite Nat2N.inj_succ, N.pow_succ_r'. nia.
    + rewrite Nat2N.inj_succ, N.pow_succ_r' in Hn. apply N.Div0.div_lt_upper_bound; lia.
    + intros ->. cbn in Hn. assert (n / 10 = 0)%N; [|done].
      apply N.div_small. lia.
Qed.

Lemma size_nat_bound n : (n < 10 ^ N.of_nat (S (N.size_nat n)))%N.
Proof.
  assert (H : (n < 2 ^ N.of_nat (N.size_nat n))%N).
  { replace (N.of_nat (N.size_nat n)) with (N.size n).
    - apply N.size_gt.
    - destruct n as [|p]; cbn; [done|].
      induction p as [p IH|p IH|]; cbn [Pos.size Pos.size_nat] in *;
        rewrite ?Nat2N.inj_succ, <-?IH; done. }
  eapply N.lt_le_trans; [exact H|].
  etransitivity; [apply (N.pow_le_mono_l 2 10); lia|].
  apply N.pow_le_mono_r; lia.
Qed.

Lemma digits_value_dec n : digits_value (dec n) = n.
Proof.
  unfold dec. rewrite dec_aux_spec; [cbn; lia|apply size_nat_bound|lia].
Qed.

Lemma dec_aux_digits fuel n acc :
  Forall (λ c, is_digit c = true) acc → Forall (λ c, is_digit c = true) (dec_aux fuel n acc).
Proof.
  revert n acc. induction fuel as [|f IH]; intros n acc Hacc; cbn [dec_aux]; [done|].
  assert (Hd : is_digit (48 + n mod 10) = true).
  { pose proof (N.mod_lt n 10 ltac:(lia)). unfold is_digit, in_range.
    autorewrite with py. lia. }
  case_match; [by constructor|]. apply IH. by constructor.
Qed.

Lemma dec_digits n : Forall (λ c, is_digit c = true) (dec n).
Proof. apply dec_aux_digits. constructor. Qed.

Lemma dec_aux_length fuel n acc k :
  (n < 10 ^ N.of_nat k)%N → k ≠ 0 → length (dec_aux fuel n acc) ≤ k + length acc.
Proof.
  revert n acc k. induction fuel as [|f IH]; intros n acc k Hn Hk; cbn [dec_aux]; [lia|].
  destruct (N.eqb_spec (n / 10) 0) as [Hz|Hz]; [cbn; lia|].
  destruct k as [|[|k]]; [done| |].
  - cbn in Hn. exfalso. apply Hz, N.div_small. lia.
  - etransitivity; [apply (IH _ _ (S k))|cbn; lia].
    + rewrite Nat2N.inj_succ, N.pow_succ_r' in Hn. apply N.Div0.div_lt_upper_bound; lia.
    + lia.
Qed.

Lemma dec_length n k : (n < 10 ^ N.of_nat k)%N → k ≠ 0 → length (dec n) ≤ k.
Proof. intros. unfold dec. etransitivity; [by eapply dec_aux_length|cbn; lia]. Qed.

Lemma dec_nonempty n : dec n ≠ [].
Proof.
  assert (H : ∀ fuel m acc, acc ≠ [] → dec_aux fuel m acc ≠ []).
  { induction fuel as [|f IH]; intros m acc ?; cbn [dec_aux]; [done|].
    case_match; [done|]. by apply IH. }
  unfold dec. cbn [dec_aux]. case_match; [done|]. by apply H.
Qed.

Lemma dec_inj n m : dec n = dec m → n = m.
Proof. intros H. by rewrite <-(digits_value_dec n), H, digits_value_dec. Qed.

(** *** [strip] *)
Lemma strip_by_clean f s : Forall (λ c, f c = false) s → strip_by f s = s.
Proof.
  assert (Hl : ∀ t, Forall (λ c, f c = false) t → lstrip_by f t = t).
  { intros t Ht. destruct Ht as [|c t Hc Ht]; cbn in *; [done|by rewrite Hc]. }
  intros Hs. unfold strip_by, rstrip_by. rewrite (Hl s) by done.
  rewrite Hl; [by rewrite reverse_involutive|].
  by apply Forall_reverse.
Qed.

Lemma elem_lstrip_by f s c : c ∈ lstrip_by f s → c ∈ s.
Proof. induction s as [|d s IH]; cbn; [done|]. case_match; set_solver. Qed.

Lemma elem_strip_by f s c : c ∈ strip_by f s → c ∈ s.
Proof.
  unfold strip_by, rstrip_by. rewrite elem_of_reverse.
  intros H%elem_lstrip_by. rewrite elem_of_reverse in H. by eapply elem_lstrip_by.
Qed.

Lemma strip_by_nonempty f s : strip_by f s ≠ [] → ∃ c, c ∈ s ∧ f c = false.
Proof.
  intros H. destruct (existsb (λ c, negb (f c)) s) eqn:E.
  - apply existsb_Exists in E as (c & ? & Hc). exists c. by rewrite negb_true_iff in Hc.
  - apply existsb_none in E. destruct H. unfold strip_by.
    assert (Hl : lstrip_by f s = []); [|by rewrite Hl].
    clear -E. induction E as [|c s Hc Hs IH]; cbn in *; [done|].
    rewrite negb_false_iff in Hc. by rewrite Hc.
Qed.

(** *** [lower] *)
Definition is_lowered (c : N) : Prop := lower_char c = [c].

Lemma lower_id s : Forall is_lowered s → lower s = s.
Proof. induction 1 as [|c s Hc Hs IH]; cbn; [done|]. unfold lower in IH. by rewrite Hc, IH. Qed.

Lemma lower_char_lowered c : Forall is_lowered (lower_char c).
Proof.
  unfold lower_char. destruct (is_upper_az c) eqn:E.
  - repeat constructor. unfold is_lowered, lower_char, is_upper_az, in_range in *.
    autorewrite with py in E.
    destruct (N.leb_spec 65 (c + 32)), (N.leb_spec (c + 32) 90); cbn; try lia;
      destruct (N.eqb_spec (c + 32) 304), (N.eqb_spec (c + 32) 8490); try lia; done.
  - destruct (N.eqb_spec c 304); [repeat constructor|].
    destruct (N.eqb_spec c 8490); [repeat constructor|].
    repeat constructor. unfold is_lowered, lower_char. rewrite E.
    destruct (N.eqb_spec c 304), (N.eqb_spec c 8490); done.
Qed.

Lemma lower_lowered s : Forall is_lowered (lower s).
Proof.
  induction s as [|c s IH]; [constructor|].
  change (lower (c :: s)) with (lower_char c ++ lower s).
  apply Forall_app; split; [apply lower_char_lowered|done].
Qed.

Lemma lower_idem s : lower (lower s) = lower s.
Proof. apply lower_id, lower_lowered. Qed.

Lemma lower_ascii s : forallb is_ascii s = true → forallb is_ascii (lower s) = true.
Proof.
  induction s as [|c s IH]; [done|]. cbn [forallb].
  rewrite andb_true_iff. intros [Hc Hs].
  change (lower (c :: s)) with (lower_char c ++ lower s).
  rewrite forallb_app, IH by done. rewrite andb_true_r.
  unfold lower_char, is_upper_az, in_range, is_ascii in *. autorewrite with py in Hc.
  destruct (N.leb_spec 65 c), (N.leb_spec c 90); cbn [andb];
    repeat case_match; cbn; rewrite ?andb_true_r; autorewrite with py in *; lia.
Qed.
#[export] Hint Rewrite lower_idem digits_value_dec : py.

(** *** Class runs *)
Lemma full_cls_spec f lo hi s :
  full_cls f lo hi s = true ↔
  lo ≤ length s ∧ (∀ h, hi = Some h → length s ≤ h) ∧ Forall (λ c, f c = true) s.
Proof.
  unfold full_cls. rewrite !andb_true_iff, Nat.leb_le, forallb_Forall.
  destruct hi as [h|]; [rewrite Nat.leb_le|]; naive_solver.
Qed.

Lemma dollar_intro m s : m s = true → dollar m s = true.
Proof. unfold dollar. by intros ->. Qed.

Lemma dollar_spec m s :
  dollar m s = true ↔ m s = true ∨ ∃ t, s = t ++ [newline] ∧ m t = true.
Proof.
  unfold dollar. rewrite orb_true_iff.
  destruct (reverse s) as [|c t] eqn:E.
  - apply (f_equal reverse) in E. rewrite reverse_involutive in E. subst s.
    split; [naive_solver|]. intros [?|(t & Ht & _)]; [auto|]. by destruct t.
  - apply (f_equal reverse) in E. rewrite reverse_involutive, reverse_cons in E. subst s.
    rewrite andb_true_iff, N.eqb_eq. split.
    + intros [?|[-> ?]]; [auto|]. right. by exists (reverse t).
    + intros [?|(t' & Ht & ?)]; [auto|]. apply app_inj_tail in Ht as [<- <-]. auto.
Qed.
