(* ===== verification/PyVal.v ===== *)
(** * Dynamic Python values

    Untrusted input (JSON, tool arguments, callback results) reaches the code as
    Python objects; the modelled functions test their class before they use
    them.  [pyval] is the type of such objects, with [==], truth value, and the
    [dict.get] of objects with [str] keys. *)

From Stdlib Require Import SpecFloat.
From S2P Require Import Prelude PyText.

Inductive pyval : Type :=
  | PyNone
  | PyBool (b : bool)
  | PyInt (z : Z)
  | PyFloat (f : spec_float)
  | PyStr (s : pystr)
  | PyList (l : list pyval)
  | PyTuple (l : list pyval)
  | PyDict (d : list (pystr * pyval))
  | PyObj (id : N).  (** an object of any other class, by identity *)

(** Induction with a hypothesis for every item of a list and every value of a
    dictionary. *)
Lemma pyval_nested_ind (P : pyval → Prop) :
  P PyNone → (∀ b, P (PyBool b)) → (∀ z, P (PyInt z)) → (∀ f, P (PyFloat f)) → (∀ s, P (PyStr s)) →
  (∀ l, Forall P l → P (PyList l)) → (∀ l, Forall P l → P (PyTuple l)) →
  (∀ d, Forall (λ p, P p.2) d → P (PyDict d)) → (∀ i, P (PyObj i)) → ∀ v, P v.
Proof.
  intros Hn Hb Hz Hf Hs Hl Ht Hd Ho. fix IH 1.
  intros [|b|z|f|s|l|l|d|i]; [done|apply Hb|apply Hz|apply Hf|apply Hs|apply Hl|apply Ht|apply Hd|apply Ho].
  - induction l; constructor; auto.
  - induction l; constructor; auto.
  - induction d as [|[k v] d IHd]; constructor; [apply IH|apply IHd].
Qed.

(** [isinstance(v, str)] and the like; [bool] is a subclass of [int]. *)
Definition is_str (v : pyval) : bool := match v with PyStr _ => true | _ => false end.
Definition is_bool (v : pyval) : bool := match v with PyBool _ => true | _ => false end.
Definition is_dict (v : pyval) : bool := match v with PyDict _ => true | _ => false end.
Definition is_list (v : pyval) : bool := match v with PyList _ => true | _ => false end.
(** [isinstance(v, int)], with the value the arithmetic sees. *)
Definition as_int (v : pyval) : option Z :=
  match v with PyInt z => Some z | PyBool b => Some (if b then 1 else 0)%Z | _ => None end.
(** [type(v) is int] *)
Definition as_exact_int (v : pyval) : option Z := match v with PyInt z => Some z | _ => None end.
Definition as_str (v : pyval) : option pystr := match v with PyStr s => Some s | _ => None end.
Definition as_dict (v : pyval) : option (list (pystr * pyval)) :=
  match v with PyDict d => Some d | _ => None end.
Definition as_list (v : pyval) : option (list pyval) :=
  match v with PyList l => Some l | _ => None end.

(** [bool(v)] *)
Definition py_truth (v : pyval) : bool :=
  match v with
  | PyNone => false
  | PyBool b => b
  | PyInt z => negb (z =? 0)%Z
  | PyFloat (S754_zero _) => false
  | PyFloat _ => true
  | PyStr s => negb (s =s [])
  | PyList l | PyTuple l => match l with [] => false | _ => true end
  | PyDict d => match d with [] => false | _ => true end
  | PyObj _ => true
  end.

(** [d.get(k)] *)
Definition pget (k : pystr) (d : list (pystr * pyval)) : pyval :=
  match dget k d with Some v => v | None => PyNone end.

(** [z == f] for an [int] and a [float]: exact, never rounded. *)
Definition int_eq_float (z : Z) (f : spec_float) : bool :=
  match f with
  | S754_zero _ => (z =? 0)%Z
  | S754_finite s m e =>
    let sm := if s then Z.neg m else Z.pos m in
    if (0 <=? e)%Z then (z =? Z.shiftl sm e)%Z else (Z.shiftl z (- e) =? sm)%Z
  | S754_infinity _ | S754_nan => false
  end.

(** [0 <= f] *)
Definition float_nonneg (f : spec_float) : bool := SFleb (S754_zero false) f.

(** [a == b]: numbers of any class compare by value, so [True == 1 == 1.0];
    dictionaries compare as finite maps. *)
Fixpoint py_eq (a b : pyval) {struct a} : bool :=
  match a, b with
  | PyNone, PyNone => true
  | PyStr s, PyStr t => s =s t
  | PyList l, PyList m | PyTuple l, PyTuple m =>
    (fix go (l m : list pyval) : bool :=
       match l, m with
       | [], [] => true
       | x :: l', y :: m' => py_eq x y && go l' m'
       | _, _ => false
       end) l m
  | PyDict d, PyDict e =>
    (length d =? length e) &&
    (fix go (d : list (pystr * pyval)) : bool :=
       match d with
       | [] => true
       | (k, v) :: d' => match dget k e with Some w => py_eq v w | None => false end && go d'
       end) d
  | PyObj i, PyObj j => (i =? j)%N
  | PyFloat f, PyFloat g => SFeqb f g
  | PyFloat f, _ => match as_int b with Some z => int_eq_float z f | None => false end
  | _, PyFloat g => match as_int a with Some z => int_eq_float z g | None => false end
  | _, _ => match as_int a, as_int b with Some x, Some y => (x =? y)%Z | _, _ => false end
  end.

(** [v == "literal"] *)
Definition is_lit (v : pyval) (s : pystr) : bool := match v with PyStr t => t =s s | _ => false end.
(** [isinstance(v, str) and v in names] *)
Definition str_in (v : pyval) (names : list pystr) : bool :=
  match v with PyStr s => s ∈s names | _ => false end.

(** A list of [str] values, when every item is one. *)
Fixpoint all_strs (l : list pyval) : option (list pystr) :=
  match l with
  | [] => Some []
  | PyStr s :: l' => match all_strs l' with Some ss => Some (s :: ss) | None => None end
  | _ => None
  end.

(** ** [str(v)], truth defaults and iteration

    The text of a float or a container ([repr]) is the operation of the class
    [PyRepr]. *)
Class PyRepr := py_repr : pyval → pystr.

(** [str(v)] *)
Definition py_str `{PyRepr} (v : pyval) : pystr :=
  match v with
  | PyStr s => s
  | PyInt z => dec_z z
  | PyBool b => if b then u "True" else u "False"
  | PyNone => u "None"
  | _ => py_repr v
  end.

(** [str(v or d)] *)
Definition str_or `{PyRepr} (d : pystr) (v : pyval) : pystr := if py_truth v then py_str v else d.

(** [for x in v or []] *)
Definition iter_or_nil (v : pyval) : result (list pyval) :=
  if py_truth v then
    match v with
    | PyList l | PyTuple l => Ok l
    | PyDict d => Ok ((λ p, PyStr p.1) <$> d)
    | PyStr s => Ok ((λ c, PyStr [c]) <$> s)
    | _ => Err (TypeError "object is not iterable")
    end
  else Ok [].

(** [v in names] for a set of strings: an unhashable [v] raises. *)
Fixpoint unhashable (v : pyval) : bool :=
  match v with
  | PyList _ | PyDict _ => true
  | PyTuple l => existsb unhashable l
  | _ => false
  end.
Definition in_set (v : pyval) (names : list pystr) : result bool :=
  if unhashable v then Err (TypeError "unhashable type") else Ok (str_in v names).

Abbreviation dict := (list (pystr * pyval)).

(** [d.update({...})] *)
Definition dupdate (d kvs : dict) : dict := foldl (λ d p, dset p.1 p.2 d) d kvs.

(** [v.get(k)] on a value that should be a dictionary. *)
Definition attr_get (v : pyval) (k : pystr) : result pyval :=
  match v with PyDict d => Ok (pget k d) | _ => Err (AttributeError "get") end.
(** [d.get(k, default)] *)
Definition pget_or (k : pystr) (default : pyval) (d : dict) : pyval :=
  match dget k d with Some v => v | None => default end.

(** A loop that fails with its first failing step. *)
Fixpoint mapM_res {A B} (f : A → result B) (l : list A) : result (list B) :=
  match l with
  | [] => Ok []
  | x :: l' => y ← f x; ys ← mapM_res f l'; Ok (y :: ys)
  end.
Fixpoint foldM_res {A S} (f : S → A → result S) (s : S) (l : list A) : result S :=
  match l with
  | [] => Ok s
  | x :: l' => s' ← f s x; foldM_res f s' l'
  end.

Lemma foldM_res_app {A S} (f : S → A → result S) s l1 l2 :
  foldM_res f s (l1 ++ l2) = (s' ← foldM_res f s l1; foldM_res f s' l2).
Proof.
  revert s. induction l1 as [|x l1 IH]; intros s; cbn; [done|].
  destruct (f s x); cbn; [apply IH|done].
Qed.

Lemma pget_dset_eq k v (d : dict) : pget k (dset k v d) = v.
Proof. unfold pget. by rewrite dget_dset_eq. Qed.
Lemma pget_dset_ne k k' v (d : dict) : k ≠ k' → pget k (dset k' v d) = pget k d.
Proof. intros. unfold pget. by rewrite dget_dset_ne. Qed.
Lemma pget_ddel_ne k k' (d : dict) : k ≠ k' → pget k (ddel k' d) = pget k d.
Proof. intros. unfold pget. by rewrite dget_ddel_ne. Qed.

Lemma all_strs_fmap (ss : list pystr) : all_strs (PyStr <$> ss) = Some ss.
Proof. induction ss as [|s ss IH]; [done|]. cbn. by rewrite IH. Qed.

Lemma all_strs_inv l ss : all_strs l = Some ss → l = PyStr <$> ss.
Proof.
  revert ss. induction l as [|v l IH]; intros ss; cbn; [by intros [= <-]|].
  destruct v; try done. destruct (all_strs l); [|done]. intros [= <-]. cbn. by rewrite (IH _ eq_refl).
Qed.

Lemma py_eq_str v s : py_eq v (PyStr s) = is_lit v s.
Proof. by destruct v as [| | | | | | | |]. Qed.

Lemma is_lit_iff v s : is_lit v s = true ↔ v = PyStr s.
Proof. destruct v; cbn; try naive_solver. rewrite bool_decide_eq_true. naive_solver. Qed.

Lemma str_in_iff v names : str_in v names = true ↔ ∃ s, v = PyStr s ∧ s ∈ names.
Proof. destruct v; cbn; try naive_solver. rewrite bool_decide_eq_true. naive_solver. Qed.

Lemma as_exact_int_iff v z : as_exact_int v = Some z ↔ v = PyInt z.
Proof. destruct v; cbn; naive_solver. Qed.
#[export] Hint Rewrite is_lit_iff str_in_iff as_exact_int_iff py_eq_str : py.
