(* ===== verification/Roles.v ===== *)
(** * Agent roles and identities ([src/src/icode/roles.py])

    The closed role table, the form of ticket and agent identifiers, and the
    registry that issues identities.  A registry operation that raises may
    already have changed the registry, so every such operation returns the
    state next to its result. *)

From S2P Require Import Prelude PyText PyVal.

(** ** The role table *)
Definition ROLE_PLANNER := u "planner".
Definition ROLE_EXECUTOR := u "executor".
Definition ROLE_REVIEWER := u "reviewer".
Definition ROLE_VERIFIER := u "verifier".
Definition ROLE_AUDITOR := u "auditor".

Record AgentRole := mkAgentRole {
  ar_name : pystr;
  ar_may_write : bool;
  ar_conclusions_kind : pystr
}.

Definition may_delegate (r : AgentRole) : bool := false.

Definition ROLE_CONCLUSION_KIND : list (pystr * pystr) :=
  [ (ROLE_PLANNER, u "plan"); (ROLE_EXECUTOR, u "execution"); (ROLE_REVIEWER, u "review");
    (ROLE_VERIFIER, u "verification"); (ROLE_AUDITOR, u "audit") ].

Definition _ROLES : list (pystr * AgentRole) :=
  [ (ROLE_PLANNER, mkAgentRole ROLE_PLANNER false (u "plan"));
    (ROLE_EXECUTOR, mkAgentRole ROLE_EXECUTOR true (u "execution"));
    (ROLE_REVIEWER, mkAgentRole ROLE_REVIEWER false (u "review"));
    (ROLE_VERIFIER, mkAgentRole ROLE_VERIFIER false (u "verification"));
    (ROLE_AUDITOR, mkAgentRole ROLE_AUDITOR false (u "audit")) ].

#[global] Arguments _ROLES : simpl never.

Definition role (name : pyval) : result AgentRole :=
  match name with
  | PyStr s => match dget s _ROLES with
               | Some r => Ok r
               | None => Err (RoleError "unknown_role")
               end
  | _ => Err (RoleError "unknown_role")
  end.

Definition read_only_roles : list pystr :=
  sorted_set (λ s, s) (dkeys (filter (λ p, ar_may_write p.2 = false) _ROLES)).

(** ** Identifier forms *)
(** [[A-Za-z0-9._-]] *)
Definition ticket_char (c : N) : bool :=
  is_alnum_ascii c || (c =? 46)%N || (c =? 95)%N || (c =? 45)%N.
Definition ticket_core (s : pystr) : bool := full_cls ticket_char 1 (Some 64) s.
(** [_TICKET_RE.match], the pattern [^[A-Za-z0-9._-]{1,64}$]. *)
Definition ticket_re (s : pystr) : bool := dollar ticket_core s.

Definition hash_char : N := 35%N.
(** [_AGENT_ID_RE] between [^] and [$]: a role name, a ticket and 1 to 6 digits,
    joined by ["#"], which none of the three contains. *)
Definition agent_id_core (s : pystr) : bool :=
  match split_on hash_char s with
  | [r; t; o] => dhas r _ROLES && ticket_core t && full_cls is_digit 1 (Some 6) o
  | _ => false
  end.
Definition agent_id_re (s : pystr) : bool := dollar agent_id_core s.

Definition is_valid_ticket_id (ticket_id : pyval) : bool :=
  match ticket_id with PyStr s => ticket_re s | _ => false end.

(** [int(text)] on a text of ASCII digits, after Python removed the blanks
    around it. *)
Definition py_int (s : pystr) : Z := Z.of_N (digits_value (strip s)).

Definition parse_agent_id (agent_id : pyval) : result (pystr * pystr * Z) :=
  match agent_id with
  | PyStr s =>
    if agent_id_re s then
      match split_on hash_char s with
      | [prefix; ticket; ordinal] => Ok (prefix, ticket, py_int ordinal)
      | _ => Err (ValueError "unpack")
      end
    else Err (RoleError "invalid_agent_id")
  | _ => Err (RoleError "invalid_agent_id")
  end.

(** ** Identities *)
Record AgentIdentity := mkAgentIdentity {
  ai_agent_id : pystr;
  ai_role : pystr;
  ai_ticket_id : pystr;
  ai_ordinal : Z
}.

#[export] Instance AgentRole_eq_dec : EqDecision AgentRole.
Proof. solve_decision. Defined.
#[export] Instance AgentIdentity_eq_dec : EqDecision AgentIdentity.
Proof. solve_decision. Defined.

(** The constructor with its [__post_init__]. *)
Definition AgentIdentity_new (agent_id role_name ticket_id : pystr) (ordinal : Z)
  : result AgentIdentity :=
  '(prefix, ticket, ord) ← parse_agent_id (PyStr agent_id);
  _ ← role (PyStr role_name);
  _ ← raise_if (negb (ticket_re ticket_id)) (RoleError "invalid_ticket");
  _ ← raise_if (negb ((1 <=? ordinal)%Z && (ordinal <=? 999999)%Z)) (RoleError "invalid_ordinal");
  _ ← raise_if ((prefix ≠s role_name) || (ticket ≠s ticket_id) || negb (ord =? ordinal)%Z)
        (RoleError "agent_id_mismatch");
  Ok (mkAgentIdentity agent_id role_name ticket_id ordinal).

Definition identity_may_write (i : AgentIdentity) : result bool :=
  r ← role (PyStr (ai_role i)); Ok (ar_may_write r).

(** ** The registry *)
Record RoleRegistry := mkRoleRegistry {
  rr_identities : list (pystr * AgentIdentity);
  rr_ordinals : list ((pystr * pystr) * Z)
}.
Definition RoleRegistry_init : RoleRegistry := mkRoleRegistry [] [].

(** [f"{role}#{ticket}#{ordinal}"] *)
Definition format_agent_id (r t : pystr) (n : Z) : pystr :=
  r ++ [hash_char] ++ t ++ [hash_char] ++ dec_z n.

Definition spawn (role_name ticket_id : pyval) (reg : RoleRegistry)
  : result AgentIdentity * RoleRegistry :=
  match role role_name with
  | Err e => (Err e, reg)
  | Ok role_obj =>
    match ticket_id with
    | PyStr ticket =>
      if ticket_re ticket then
        let key := (ar_name role_obj, ticket) in
        let ordinal := (match dget key (rr_ordinals reg) with Some n => n | None => 0 end + 1)%Z in
        let reg1 := mkRoleRegistry (rr_identities reg) (dset key ordinal (rr_ordinals reg)) in
        match AgentIdentity_new (format_agent_id (ar_name role_obj) ticket ordinal)
                (ar_name role_obj) ticket ordinal with
        | Err e => (Err e, reg1)
        | Ok ident =>
          (Ok ident,
           mkRoleRegistry (dset (ai_agent_id ident) ident (rr_identities reg1))
                          (rr_ordinals reg1))
        end
      else (Err (RoleError "invalid_ticket"), reg)
    | _ => (Err (RoleError "invalid_ticket"), reg)
    end
  end.

Definition identity (agent_id : pyval) (reg : RoleRegistry) : option AgentIdentity :=
  match agent_id with PyStr s => dget s (rr_identities reg) | _ => None end.

Definition require (agent_id : pyval) (reg : RoleRegistry) : result AgentIdentity :=
  match identity agent_id reg with
  | Some i => Ok i
  | None => Err (RoleError "unknown_agent")
  end.

(** The check both [assert_] methods start with: the registry issued exactly
    this identity. *)
Definition known_identity (i : AgentIdentity) (reg : RoleRegistry) : result AgentIdentity :=
  match identity (PyStr (ai_agent_id i)) reg with
  | Some known => if bool_decide (known = i) then Ok known else Err (RoleError "unknown_agent")
  | None => Err (RoleError "unknown_agent")
  end.

Definition assert_may_write (i : AgentIdentity) (reg : RoleRegistry) : result unit :=
  known ← known_identity i reg;
  w ← identity_may_write known;
  raise_if (negb w) (RoleError "role_write_denied").

Definition assert_conclusion_kind (i : AgentIdentity) (kind : pyval) (reg : RoleRegistry)
  : result pystr :=
  known ← known_identity i reg;
  r ← role (PyStr (ai_role known));
  _ ← raise_if (negb (is_lit kind (ar_conclusions_kind r))) (RoleError "conclusion_out_of_role");
  Ok (ar_conclusions_kind r).

(** ** Well-formed registries

    Every issued identity is stored under its own [agent_id], satisfies the
    constructor's checks, and carries an ordinal its counter has reached. *)
Definition ordinal_of (reg : RoleRegistry) (r t : pystr) : Z :=
  match dget (r, t) (rr_ordinals reg) with Some n => n | None => 0%Z end.

Record registry_wf (reg : RoleRegistry) : Prop := {
  wf_keys : NoDup (dkeys (rr_identities reg));
  wf_counters : ∀ r t, (0 ≤ ordinal_of reg r t)%Z;
  wf_entries : ∀ k i, (k, i) ∈ rr_identities reg →
    k = ai_agent_id i ∧
    AgentIdentity_new (ai_agent_id i) (ai_role i) (ai_ticket_id i) (ai_ordinal i) = Ok i ∧
    (ai_ordinal i ≤ ordinal_of reg (ai_role i) (ai_ticket_id i))%Z
}.

(** ** Lemmas *)
Lemma role_ok v r : role v = Ok r ↔ ∃ s, v = PyStr s ∧ dget s _ROLES = Some r.
Proof.
  destruct v as [| | | |s| | | |]; cbn [role]; try naive_solver.
  destruct (dget s _ROLES) eqn:E; naive_solver.
Qed.

(** The facts about the five roles, checked once for each of them. *)
Lemma role_table s r :
  dget s _ROLES = Some r →
  ar_name r = s ∧ hash_char ∉ s ∧ dhas s _ROLES = true ∧
  (ar_may_write r = true ↔ s = ROLE_EXECUTOR) ∧
  dget s ROLE_CONCLUSION_KIND = Some (ar_conclusions_kind r).
Proof.
  intros H%dget_Some_elem. unfold _ROLES in H. rewrite !elem_of_cons, elem_of_nil in H.
  destruct_or!; simplify_eq/=; try done; split_and!; by_compute.
Qed.

Lemma conclusion_kind_inj s1 s2 r1 r2 :
  dget s1 _ROLES = Some r1 → dget s2 _ROLES = Some r2 →
  ar_conclusions_kind r1 = ar_conclusions_kind r2 → s1 = s2.
Proof.
  intros H1%dget_Some_elem H2%dget_Some_elem.
  unfold _ROLES in *. rewrite !elem_of_cons, elem_of_nil in H1, H2.
  destruct_or!; simplify_eq/=; done.
Qed.

Lemma ticket_char_not c : ticket_char c = true → c ≠ hash_char ∧ c ≠ newline.
Proof.
  intros H. split; intros ->; vm_compute in H; done.
Qed.

Lemma ticket_core_clean t : ticket_core t = true → hash_char ∉ t ∧ newline ∉ t.
Proof.
  unfold ticket_core. rewrite full_cls_spec, Forall_forall. intros (_ & _ & H).
  split; intros Hin; apply H, ticket_char_not in Hin; naive_solver.
Qed.

Lemma digit_clean c : is_digit c = true → c ≠ hash_char ∧ c ≠ newline ∧ is_space c = false.
Proof.
  intros H. unfold is_digit, in_range in H. autorewrite with py in H.
  split_and!; [unfold hash_char|unfold newline|]; [lia|lia|].
  unfold is_space, in_range. autorewrite with py. lia.
Qed.

Lemma dec_clean n : hash_char ∉ dec n ∧ newline ∉ dec n ∧ Forall (λ c, is_space c = false) (dec n).
Proof.
  pose proof (dec_digits n) as Hd. rewrite !Forall_forall in *.
  split_and!; [intros H|intros H|intros c H]; apply Hd, digit_clean in H; naive_solver.
Qed.

Lemma dec_z_clean z : hash_char ∉ dec_z z ∧ newline ∉ dec_z z ∧ dec_z z ≠ [].
Proof.
  unfold dec_z. destruct (dec_clean (Z.to_N z)) as (H1 & H2 & _).
  destruct (dec_clean (Z.to_N (- z))) as (H3 & H4 & _).
  case_match; split_and!; try done; [..|apply dec_nonempty];
    rewrite not_elem_of_cons; done.
Qed.

Lemma split_format r t n :
  hash_char ∉ r → hash_char ∉ t → (0 ≤ n)%Z →
  split_on hash_char (format_agent_id r t n) = [r; t; dec (Z.to_N n)].
Proof.
  intros Hr Ht Hn. unfold format_agent_id. cbn [app].
  rewrite split_on_app by done. cbn [app].
  rewrite split_on_app by done. unfold dec_z.
  destruct (Z.ltb_spec n 0); [lia|].
  by rewrite split_on_none by apply dec_clean.
Qed.

Lemma py_int_dec n : (0 ≤ n)%Z → py_int (dec (Z.to_N n)) = n.
Proof.
  intros. unfold py_int, strip. rewrite strip_by_clean by apply dec_clean.
  rewrite digits_value_dec. lia.
Qed.

Lemma agent_id_core_format s r t n :
  dget s _ROLES = Some r → ticket_core t = true → (0 ≤ n ≤ 999999)%Z →
  agent_id_core (format_agent_id s t n) = true.
Proof.
  intros Hr Ht Hn. unfold agent_id_core.
  destruct (role_table s r Hr) as (_ & Hs & Hhas & _).
  rewrite split_format; [|done|by apply ticket_core_clean|lia].
  rewrite Hhas, Ht. cbn [andb]. apply full_cls_spec. split_and!.
  - pose proof (dec_nonempty (Z.to_N n)). destruct (dec (Z.to_N n)); cbn; [done|lia].
  - intros h [= <-]. apply dec_length; lia.
  - apply dec_digits.
Qed.

Lemma parse_format s r t n :
  dget s _ROLES = Some r → ticket_core t = true → (0 ≤ n ≤ 999999)%Z →
  parse_agent_id (PyStr (format_agent_id s t n)) = Ok (s, t, n).
Proof.
  intros Hr Ht Hn. cbn [parse_agent_id]. unfold agent_id_re.
  rewrite dollar_intro by eauto using agent_id_core_format.
  destruct (role_table s r Hr) as (_ & Hs & _).
  rewrite split_format; [|done|by apply ticket_core_clean|lia].
  by rewrite py_int_dec by lia.
Qed.

Lemma AgentIdentity_new_ok a r t n i :
  AgentIdentity_new a r t n = Ok i ↔
  i = mkAgentIdentity a r t n ∧ parse_agent_id (PyStr a) = Ok (r, t, n) ∧
  (∃ ro, dget r _ROLES = Some ro) ∧ ticket_re t = true ∧ (1 ≤ n ≤ 999999)%Z.
Proof.
  unfold AgentIdentity_new. split.
  - intros H. apply bind_ok in H as ([[p t'] n'] & Hp & H). res H. subst.
    rewrite role_ok in *. destruct_and?. subst. naive_solver.
  - intros (-> & Hp & [ro Hr] & Ht & Hn).
    rewrite Hp. cbn. rewrite Hr. cbn. rewrite Ht. cbn.
    rewrite !bool_decide_true by done. rewrite Z.eqb_refl.
    destruct (Z.leb_spec 1 n), (Z.leb_spec n 999999); try lia. done.
Qed.

Lemma identity_new_unique a r1 t1 n1 r2 t2 n2 i1 i2 :
  AgentIdentity_new a r1 t1 n1 = Ok i1 → AgentIdentity_new a r2 t2 n2 = Ok i2 → i1 = i2.
Proof. rewrite !AgentIdentity_new_ok. intros (-> & H1 & _) (-> & H2 & _). congruence. Qed.

Lemma ordinal_of_dset reg k n r t :
  ordinal_of (mkRoleRegistry (rr_identities reg) (dset k n (rr_ordinals reg))) r t =
  if decide (k = (r, t)) then n else ordinal_of reg r t.
Proof.
  unfold ordinal_of; cbn. case_decide as E.
  - subst. by rewrite dget_dset_eq.
  - by rewrite dget_dset_ne by done.
Qed.

Lemma registry_wf_init : registry_wf RoleRegistry_init.
Proof. split; cbn; [constructor|done|set_solver]. Qed.

Lemma registry_wf_counter reg k n :
  registry_wf reg → (ordinal_of reg k.1 k.2 < n)%Z →
  registry_wf (mkRoleRegistry (rr_identities reg) (dset k n (rr_ordinals reg))).
Proof.
  intros [Hk Hc He] Hn. split; cbn; [done| |].
  - intros r t. rewrite ordinal_of_dset. specialize (Hc r t).
    case_decide; [subst; cbn in *; lia|done].
  - intros k' i Hi. destruct (He k' i Hi) as (? & ? & ?). split_and!; [done..|].
    rewrite ordinal_of_dset. case_decide; [subst; cbn in *; lia|done].
Qed.

(** A successful [spawn] from a well-formed registry: the identity is new, it
    is appended, and nothing issued before changes. *)
Lemma spawn_ok_inv rn tid reg i reg' :
  registry_wf reg → spawn rn tid reg = (Ok i, reg') →
  ∃ s r t, rn = PyStr s ∧ tid = PyStr t ∧ dget s _ROLES = Some r ∧ ticket_re t = true ∧
    let n := (ordinal_of reg s t + 1)%Z in
    i = mkAgentIdentity (format_agent_id s t n) s t n ∧
    AgentIdentity_new (ai_agent_id i) s t n = Ok i ∧
    dget (ai_agent_id i) (rr_identities reg) = None ∧
    rr_identities reg' = rr_identities reg ++ [(ai_agent_id i, i)] ∧
    rr_ordinals reg' = dset (s, t) n (rr_ordinals reg).
Proof.
  intros Hwf. unfold spawn. destruct (role rn) as [r|e] eqn:Hrole; [|done].
  apply role_ok in Hrole as (s & -> & Hr).
  destruct (role_table s r Hr) as (Hname & _). rewrite Hname.
  destruct tid as [| | | |t| | | |]; try done.
  destruct (ticket_re t) eqn:Ht; [|done].
  change (match dget (s, t) (rr_ordinals reg) with Some n => n | None => 0%Z end)
    with (ordinal_of reg s t).
  set (n := (ordinal_of reg s t + 1)%Z).
  destruct (AgentIdentity_new _ _ _ _) as [i'|e] eqn:Hnew; [|done].
  intros [= <- <-]. exists s, r, t. cbn zeta. fold n. do 4 (split; [done|]).
  assert (Hi : i' = mkAgentIdentity (format_agent_id s t n) s t n)
    by by apply AgentIdentity_new_ok in Hnew as [-> _].
  assert (Hfresh : dget (ai_agent_id i') (rr_identities reg) = None).
  { destruct (dget (ai_agent_id i') (rr_identities reg)) as [j|] eqn:Hj; [|done].
    apply dget_Some_elem in Hj. destruct (wf_entries _ Hwf _ _ Hj) as (Ha & Hjn & Hle).
    subst i'; cbn in *. rewrite <-Ha in Hjn.
    assert (j = mkAgentIdentity (format_agent_id s t n) s t n) as -> by
      (eapply identity_new_unique; [exact Hjn|exact Hnew]).
    cbn in *. unfold n in *. lia. }
  split_and!; [done|by subst i'|done| |done].
  cbn. by apply dset_fresh.
Qed.

Lemma spawn_wf rn tid reg : registry_wf reg → registry_wf (spawn rn tid reg).2.
Proof.
  intros Hwf. destruct (spawn rn tid reg) as [[i|e] reg'] eqn:Hsp; cbn.
  - destruct (spawn_ok_inv _ _ _ _ _ Hwf Hsp) as (s & r & t & -> & -> & Hr & Ht & Hi & Hnew & Hf & Happ & Hord).
    destruct reg' as [ids ords]; cbn in *. subst ids ords.
    destruct (registry_wf_counter reg (s, t) (ordinal_of reg s t + 1) Hwf) as [Hk Hc He]; [cbn; lia|].
    split; cbn in *.
    + unfold dkeys. rewrite fmap_app. apply NoDup_app. split_and!; [done| |apply NoDup_singleton].
      intros k Hk1 Hk2. rewrite dget_None in Hf. set_solver.
    + exact Hc.
    + intros k j [Hj|Hj%list_elem_of_singleton]%elem_of_app; [by apply He|]. simplify_eq/=.
      split_and!; [done|done|]. unfold ordinal_of; cbn. rewrite dget_dset_eq. lia.
  - revert Hsp. unfold spawn. destruct (role rn) as [r|?]; [|naive_solver].
    destruct tid as [| | | |t| | | |]; try naive_solver.
    case_match; [|naive_solver].
    destruct (AgentIdentity_new _ _ _ _); intros [= _ <-]. cbn.
    apply registry_wf_counter; [done|]. unfold ordinal_of; cbn. lia.
Qed.

(** ** Properties *)

(** Every agent id the registry formats parses back to the role, ticket and
    ordinal it was made from, for all five roles, every ticket of the documented
    form and every ordinal the six-digit field can hold. *)
Theorem agent_id_roundtrip s r t n :
  dget s _ROLES = Some r → ticket_core t = true → (1 ≤ n ≤ 999999)%Z →
  parse_agent_id (PyStr (format_agent_id s t n)) = Ok (s, t, n).
Proof. intros. eapply parse_format; [done|done|lia]. Qed.

Lemma agent_id_roundtrip_witness :
  parse_agent_id (PyStr (u "reviewer#T-1.a#42")) = Ok (ROLE_REVIEWER, u "T-1.a", 42%Z).
Proof.
  refine (agent_id_roundtrip ROLE_REVIEWER _ (u "T-1.a") 42 _ _ _); [reflexivity|reflexivity|lia].
Defined.

(** [spawn] keeps the registry well formed whatever its arguments and
    outcome; when it issues an identity, that identity is new, it is the only
    change to the table of identities, and it is bound to the requested role
    and ticket. *)
Theorem spawn_issues_fresh rn tid reg :
  registry_wf reg →
  registry_wf (spawn rn tid reg).2 ∧
  match (spawn rn tid reg).1 with
  | Ok i =>
    dget (ai_agent_id i) (rr_identities reg) = None ∧
    rr_identities (spawn rn tid reg).2 = rr_identities reg ++ [(ai_agent_id i, i)] ∧
    rn = PyStr (ai_role i) ∧ tid = PyStr (ai_ticket_id i) ∧
    ai_ordinal i = (ordinal_of reg (ai_role i) (ai_ticket_id i) + 1)%Z
  | Err _ => rr_identities (spawn rn tid reg).2 = rr_identities reg
  end.
Proof.
  intros Hwf. split; [by apply spawn_wf|].
  destruct (spawn rn tid reg) as [[i|e] reg'] eqn:Hsp; cbn.
  - destruct (spawn_ok_inv _ _ _ _ _ Hwf Hsp) as (s & r & t & -> & -> & Hr & Ht & Hi & Hnew & Hf & Happ & Hord).
    by subst i.
  - revert Hsp. unfold spawn. destruct (role rn) as [r|?]; [|naive_solver].
    destruct tid as [| | | |t| | | |]; try naive_solver.
    case_match; [|naive_solver].
    by destruct (AgentIdentity_new _ _ _ _); intros [= _ <-].
Qed.

Lemma spawn_issues_fresh_witness :
  registry_wf RoleRegistry_init ∧
  (spawn (PyStr ROLE_EXECUTOR) (PyStr (u "T1")) RoleRegistry_init).1
    = Ok (mkAgentIdentity (u "executor#T1#1") ROLE_EXECUTOR (u "T1") 1) ∧
  registry_wf (spawn (PyStr ROLE_EXECUTOR) (PyStr (u "T1")) RoleRegistry_init).2.
Proof.
  split; [exact registry_wf_init|]. split; [vm_compute; reflexivity|].
  exact (proj1 (spawn_issues_fresh (PyStr ROLE_EXECUTOR) (PyStr (u "T1")) _ registry_wf_init)).
Defined.

(** The write check succeeds exactly for identities this registry issued
    whose role is the executor; a forged or read-only identity is refused. *)
Theorem assert_may_write_iff i reg :
  registry_wf reg →
  assert_may_write i reg = Ok tt ↔
  dget (ai_agent_id i) (rr_identities reg) = Some i ∧ ai_role i = ROLE_EXECUTOR.
Proof.
  intros Hwf. unfold assert_may_write, known_identity, identity.
  destruct (dget (ai_agent_id i) (rr_identities reg)) as [k|] eqn:Hk; cbn; [|naive_solver].
  case_bool_decide as Heq; cbn; [|naive_solver]. subst k.
  apply dget_Some_elem in Hk. destruct (wf_entries _ Hwf _ _ Hk) as (_ & Hnew & _).
  apply AgentIdentity_new_ok in Hnew as (_ & _ & [ro Hro] & _).
  unfold identity_may_write; cbn. rewrite Hro. cbn.
  destruct (role_table _ _ Hro) as (_ & _ & _ & Hw & _).
  rewrite raise_if_ok, negb_false_iff. naive_solver.
Qed.

Definition executor_registry : RoleRegistry :=
  (spawn (PyStr ROLE_REVIEWER) (PyStr (u "T1"))
    (spawn (PyStr ROLE_EXECUTOR) (PyStr (u "T1")) RoleRegistry_init).2).2.

Lemma executor_registry_wf : registry_wf executor_registry.
Proof. apply spawn_issues_fresh, spawn_issues_fresh, registry_wf_init. Qed.

Lemma assert_may_write_iff_witness :
  assert_may_write (mkAgentIdentity (u "executor#T1#1") ROLE_EXECUTOR (u "T1") 1)
    executor_registry = Ok tt.
Proof.
  apply (proj2 (assert_may_write_iff _ _ executor_registry_wf)).
  split; vm_compute; reflexivity.
Defined.

(** The [$] of the ticket pattern also matches before a final newline, so a
    ticket id with one is accepted as valid; but no agent can be spawned for it,
    and the failed attempt still consumes an ordinal. *)
Theorem newline_ticket_unspawnable s r t reg :
  dget s _ROLES = Some r → ticket_core t = true →
  is_valid_ticket_id (PyStr (t ++ [newline])) = true ∧
  (spawn (PyStr s) (PyStr (t ++ [newline])) reg).1 = Err (RoleError "invalid_agent_id") ∧
  ordinal_of (spawn (PyStr s) (PyStr (t ++ [newline])) reg).2 s (t ++ [newline])
    = (ordinal_of reg s (t ++ [newline]) + 1)%Z.
Proof.
  intros Hr Ht.
  assert (Hv : ticket_re (t ++ [newline]) = true) by (apply dollar_spec; eauto).
  split; [done|]. unfold spawn. cbn [role]. rewrite Hr.
  destruct (role_table s r Hr) as (-> & Hs & _). rewrite Hv.
  set (n := (_ + 1)%Z).
  assert (Hp : parse_agent_id (PyStr (format_agent_id s (t ++ [newline]) n))
               = Err (RoleError "invalid_agent_id")).
  { cbn [parse_agent_id]. destruct (agent_id_re _) eqn:E; [|done]. exfalso.
    destruct (ticket_core_clean t Ht) as [Hh Hn].
    assert (Hsplit : split_on hash_char (format_agent_id s (t ++ [newline]) n)
                     = [s; t ++ [newline]; dec_z n]).
    { unfold format_agent_id. cbn [app]. rewrite split_on_app by done. cbn [app].
      rewrite split_on_app by (rewrite elem_of_app; unfold newline, hash_char in *; set_solver).
      by rewrite split_on_none by apply dec_z_clean. }
    assert (Htc : ticket_core (t ++ [newline]) = false).
    { destruct (ticket_core (t ++ [newline])) eqn:Ec; [|done].
      apply ticket_core_clean in Ec as [_ Ec]. set_solver. }
    unfold agent_id_re in E. apply dollar_spec in E as [E|(w & Hw & E)].
    - unfold agent_id_core in E. rewrite Hsplit, Htc, andb_false_r in E. done.
    - assert (Hin : last (format_agent_id s (t ++ [newline]) n) = Some newline)
        by (rewrite Hw; by rewrite last_snoc).
      unfold format_agent_id in Hin. rewrite !last_app in Hin.
      destruct (last (dec_z n)) as [c|] eqn:El.
      + injection Hin as ->. apply last_Some_elem_of in El. by apply (proj1 (proj2 (dec_z_clean n))) in El.
      + apply last_None in El. by apply (proj2 (proj2 (dec_z_clean n))) in El. }
  unfold AgentIdentity_new. rewrite Hp. cbn. split; [done|].
  unfold ordinal_of; cbn. by rewrite dget_dset_eq.
Qed.

Lemma newline_ticket_unspawnable_witness :
  is_valid_ticket_id (PyStr (u "T1" ++ [newline])) = true ∧
  (spawn (PyStr ROLE_PLANNER) (PyStr (u "T1" ++ [newline])) RoleRegistry_init).1
    = Err (RoleError "invalid_agent_id").
Proof.
  destruct (newline_ticket_unspawnable ROLE_PLANNER (mkAgentRole ROLE_PLANNER false (u "plan"))
              (u "T1") RoleRegistry_init eq_refl eq_refl) as (H1 & H2 & _).
  exact (conj H1 H2).
Defined.
