(* ===== verification/Hashing.v ===== *)
(** * UTF-8, SHA-256 and HMAC

    [str.encode("utf-8")], [hashlib.sha256(...).hexdigest()] and
    [hmac.new(key, data, sha256).hexdigest()], executable, so digests the code
    computes are computed here too. *)

From S2P Require Import Prelude PyText.

(** ** UTF-8 ([errors="surrogatepass"]) *)
Definition utf8_char (c : N) : list N :=
  if (c <? 128)%N then [c]
  else if (c <? 2048)%N then [192 + c / 64; 128 + c mod 64]%N
  else if (c <? 65536)%N then [224 + c / 4096; 128 + (c / 64) mod 64; 128 + c mod 64]%N
  else [240 + c / 262144; 128 + (c / 4096) mod 64; 128 + (c / 64) mod 64; 128 + c mod 64]%N.
Definition utf8_bytes (s : pystr) : list N := concat (utf8_char <$> s).

(** [s.encode("utf-8")] raises on a surrogate. *)
Definition utf8_encodable (s : pystr) : bool := negb (existsb is_surrogate s).
Definition encode_utf8 (s : pystr) : result (list N) :=
  if utf8_encodable s then Ok (utf8_bytes s) else Err (ValueError "surrogates not allowed").

(** ** SHA-256 on 32-bit words *)
Definition mask32 (x : N) : N := N.land x 4294967295.
Definition add32 (a b : N) : N := mask32 (a + b).
Definition rotr (n x : N) : N := N.lor (N.shiftr x n) (mask32 (N.shiftl x (32 - n))).
Definition not32 (x : N) : N := N.lxor x 4294967295.

(** The constants are the first 32 bits of the fractional parts of the cube
    roots, and of the square roots, of the first primes. *)
Definition is_prime (n : nat) : bool := forallb (λ d, negb (Nat.modulo n d =? 0)) (seq 2 (n - 2)).
Definition primes_below (n : nat) : list N := N.of_nat <$> filter (λ k, is_prime k) (seq 2 (n - 2)).
(** The cube root of [x] rounded down, bit by bit below [acc + 2^n]. *)
Fixpoint cbrt_bits (n : nat) (acc x : N) : N :=
  match n with
  | O => acc
  | S n' => let t := (acc + 2 ^ N.of_nat n')%N in cbrt_bits n' (if (t * t * t <=? x)%N then t else acc) x
  end.
Definition cbrt_frac (p : N) : N := mask32 (cbrt_bits 36 0 (p * 2 ^ 96)).
Definition sqrt_frac (p : N) : N := mask32 (N.sqrt (p * 2 ^ 64)).
Definition sha_k : list N := Eval vm_compute in cbrt_frac <$> primes_below 312.

Record sha_state := mkSha { sha_a : N; sha_b : N; sha_c : N; sha_d : N;
                            sha_e : N; sha_f : N; sha_g : N; sha_h : N }.
Definition sha_of_words (ws : list N) : sha_state :=
  mkSha (nth 0 ws 0%N) (nth 1 ws 0%N) (nth 2 ws 0%N) (nth 3 ws 0%N)
        (nth 4 ws 0%N) (nth 5 ws 0%N) (nth 6 ws 0%N) (nth 7 ws 0%N).
Definition sha_init : sha_state := Eval vm_compute in sha_of_words (sqrt_frac <$> primes_below 20).

Definition sha_round (st : sha_state) (kw : N * N) : sha_state :=
  let '(mkSha a b c d e f g h) := st in
  let s1 := N.lxor (N.lxor (rotr 6 e) (rotr 11 e)) (rotr 25 e) in
  let ch := N.lxor (N.land e f) (N.land (not32 e) g) in
  let t1 := mask32 (h + s1 + ch + kw.1 + kw.2) in
  let s0 := N.lxor (N.lxor (rotr 2 a) (rotr 13 a)) (rotr 22 a) in
  let maj := N.lxor (N.lxor (N.land a b) (N.land a c)) (N.land b c) in
  mkSha (add32 t1 (add32 s0 maj)) a b c (add32 d t1) e f g.

(** The message schedule, newest word first. *)
Fixpoint sha_schedule (n : nat) (ws : list N) : list N :=
  match n with
  | O => ws
  | S n' =>
    let w2 := nth 1 ws 0%N in let w7 := nth 6 ws 0%N in
    let w15 := nth 14 ws 0%N in let w16 := nth 15 ws 0%N in
    let s0 := N.lxor (N.lxor (rotr 7 w15) (rotr 18 w15)) (N.shiftr w15 3) in
    let s1 := N.lxor (N.lxor (rotr 17 w2) (rotr 19 w2)) (N.shiftr w2 10) in
    sha_schedule n' (mask32 (w16 + s0 + w7 + s1) :: ws)
  end.

Fixpoint words_be (bs : list N) : list N :=
  match bs with
  | a :: b :: c :: d :: bs' => (a * 16777216 + b * 65536 + c * 256 + d)%N :: words_be bs'
  | _ => []
  end.

Definition sha_block (st : sha_state) (block : list N) : sha_state :=
  let ws := reverse (sha_schedule 48 (reverse (words_be block))) in
  let r := foldl sha_round st (zip sha_k ws) in
  mkSha (add32 (sha_a st) (sha_a r)) (add32 (sha_b st) (sha_b r))
        (add32 (sha_c st) (sha_c r)) (add32 (sha_d st) (sha_d r))
        (add32 (sha_e st) (sha_e r)) (add32 (sha_f st) (sha_f r))
        (add32 (sha_g st) (sha_g r)) (add32 (sha_h st) (sha_h r)).

Definition bytes_be (n : nat) (x : N) : list N :=
  (λ i, N.land (N.shiftr x (8 * N.of_nat (n - 1 - i))) 255) <$> seq 0 n.

Definition sha_pad (m : list N) : list N :=
  let l := length m in
  let z := Nat.modulo (119 - Nat.modulo l 64) 64 in
  m ++ [128%N] ++ replicate z 0%N ++ bytes_be 8 (8 * N.of_nat l).

Fixpoint sha_blocks (n : nat) (st : sha_state) (m : list N) : sha_state :=
  match n with
  | O => st
  | S n' => sha_blocks n' (sha_block st (take 64 m)) (drop 64 m)
  end.

Definition sha256_state (m : list N) : sha_state :=
  let p := sha_pad m in sha_blocks (Nat.div (length p) 64) sha_init p.

Definition sha_words (st : sha_state) : list N :=
  [sha_a st; sha_b st; sha_c st; sha_d st; sha_e st; sha_f st; sha_g st; sha_h st].

Definition sha256_digest (m : list N) : list N := concat (bytes_be 4 <$> sha_words (sha256_state m)).

Definition hex_char (d : N) : N := if (d <? 10)%N then (48 + d)%N else (87 + d)%N.
Definition hex_of_bytes (bs : list N) : pystr :=
  concat ((λ b, [hex_char (N.land (N.shiftr b 4) 15); hex_char (N.land b 15)]) <$> bs).
Definition sha256_hex (m : list N) : pystr := hex_of_bytes (sha256_digest m).

(** ** HMAC-SHA-256 *)
Definition hmac_hex (key data : list N) : pystr :=
  let k := if 64 <? length key then sha256_digest key else key in
  let k := k ++ replicate (64 - length k) 0%N in
  sha256_hex ((N.lxor 92 <$> k) ++ sha256_digest ((N.lxor 54 <$> k) ++ data)).

(** [re.fullmatch("[0-9a-f]{64}", s)] and the 32-digit form. *)
Definition is_hex64 (s : pystr) : bool := full_cls is_hex_lower 64 (Some 64) s.
Definition is_hex32 (s : pystr) : bool := full_cls is_hex_lower 32 (Some 32) s.

(** ** Digests have the digest form *)
Lemma hex_char_hex d : (d < 16)%N → is_hex_lower (hex_char d) = true.
Proof.
  intros. unfold hex_char, is_hex_lower, is_digit, in_range.
  destruct (N.ltb_spec d 10); autorewrite with py; lia.
Qed.

Lemma hex_of_bytes_spec bs :
  length (hex_of_bytes bs) = 2 * length bs ∧
  Forall (λ c, is_hex_lower c = true) (hex_of_bytes bs).
Proof.
  unfold hex_of_bytes. induction bs as [|b bs [IH1 IH2]]; cbn; [done|]. split; [lia|].
  assert (H : ∀ x, (N.land x 15 < 16)%N).
  { intros x. change 15%N with (N.ones 4). rewrite N.land_ones. by apply N.mod_lt. }
  repeat (constructor; [apply hex_char_hex, H|]). done.
Qed.

Lemma sha256_hex_form m : is_hex64 (sha256_hex m) = true.
Proof.
  unfold is_hex64, sha256_hex. apply full_cls_spec.
  destruct (hex_of_bytes_spec (sha256_digest m)) as [-> Hx].
  unfold sha256_digest. rewrite length_concat. cbn.
  split_and!; [lia|naive_solver lia|done].
Qed.

Lemma hmac_hex_form k d : is_hex64 (hmac_hex k d) = true.
Proof. apply sha256_hex_form. Qed.

(** Test vectors: SHA-256 of "abc", and RFC 4231 test case 2. *)
Example sha256_abc : sha256_hex (u "abc")
  = u "ba7816bf8f01cfea414140de5dae2223b00361a396177a9cb410ff61f20015ad".
Proof. vm_compute. reflexivity. Qed.

Example hmac_jefe : hmac_hex (u "Jefe") (u "what do ya want for nothing?")
  = u "5bdcc146bf60754e6a042426089575c75a003f089d2739839dec58b964ec3843".
Proof. vm_compute. reflexivity. Qed.
