(* ===== verification/Json.v ===== *)
(** * [json.dumps]

    The serializer with the options the code uses: sorted keys or insertion
    order, compact or default separators, ASCII escapes or raw text.  The
    shortest decimal text of a float ([repr]) is the one part that is not
    computed: it is the operation of the class [FloatRepr]. *)

From Stdlib Require Import SpecFloat.
From S2P Require Import Prelude PyText PyVal Hashing.

Class FloatRepr := float_repr : spec_float → pystr.

Record json_opts := mkJsonOpts { jo_ascii : bool; jo_compact : bool; jo_sort : bool }.

Definition hex4 (c : N) : pystr :=
  (λ i, hex_char (N.land (N.shiftr c (4 * i)) 15)) <$> [3; 2; 1; 0]%N.

Definition json_char (ascii : bool) (c : N) : pystr :=
  if (c =? 34)%N then u "\" ++ [34%N]
  else if (c =? 92)%N then u "\\"
  else if (c =? 10)%N then u "\n"
  else if (c =? 13)%N then u "\r"
  else if (c =? 9)%N then u "\t"
  else if (c =? 12)%N then u "\f"
  else if (c =? 8)%N then u "\b"
  else if (c <? 32)%N then u "\u" ++ hex4 c
  else if ascii && negb (c <? 127)%N then
    if (c <? 65536)%N then u "\u" ++ hex4 c
    else let v := (c - 65536)%N in
         u "\u" ++ hex4 (55296 + N.shiftr v 10) ++ u "\u" ++ hex4 (56320 + N.land v 1023)
  else [c].

Definition json_str (ascii : bool) (s : pystr) : pystr :=
  [34%N] ++ concat (json_char ascii <$> s) ++ [34%N].

Section dumps.
Context `{FloatRepr} (o : json_opts).
Definition item_sep : pystr := if jo_compact o then u "," else u ", ".
Definition key_sep : pystr := if jo_compact o then u ":" else u ": ".

(** Insert an item by key, keys being distinct. *)
Fixpoint item_insert {V} (p : pystr * V) (d : list (pystr * V)) : list (pystr * V) :=
  match d with
  | [] => [p]
  | q :: d' => match str_compare p.1 q.1 with Gt => q :: item_insert p d' | _ => p :: d end
  end.
Definition sort_items {V} (d : list (pystr * V)) : list (pystr * V) :=
  if jo_sort o then foldr item_insert [] d else d.

(** [json.dumps(v)]; [None] when a value is not serializable ([TypeError]). *)
Fixpoint dumps (v : pyval) : option pystr :=
  match v with
  | PyNone => Some (u "null")
  | PyBool b => Some (if b then u "true" else u "false")
  | PyInt z => Some (dec_z z)
  | PyFloat f =>
    Some match f with
         | S754_nan => u "NaN"
         | S754_infinity s => if s then u "-Infinity" else u "Infinity"
         | _ => float_repr f
         end
  | PyStr s => Some (json_str (jo_ascii o) s)
  | PyList l | PyTuple l =>
    ws ← (fix go (l : list pyval) : option (list pystr) :=
            match l with
            | [] => Some []
            | x :: l' => w ← dumps x; ws ← go l'; Some (w :: ws)
            end) l;
    Some (u "[" ++ join item_sep ws ++ u "]")
  | PyDict d =>
    ws ← (fix go (d : list (pystr * pyval)) : option (list (pystr * pystr)) :=
            match d with
            | [] => Some []
            | (k, x) :: d' => w ← dumps x; ws ← go d'; Some ((k, w) :: ws)
            end) d;
    Some (u "{" ++ join item_sep ((λ p, json_str (jo_ascii o) p.1 ++ key_sep ++ p.2) <$> sort_items ws)
          ++ u "}")
  | PyObj _ => None
  end.
End dumps.

(** The two option sets of the source. *)
Definition canonical_opts : json_opts := mkJsonOpts false true true.
Definition sorted_opts : json_opts := mkJsonOpts false false true.
Definition ascii_canonical_opts : json_opts := mkJsonOpts true true true.

Example dumps_example `{FloatRepr} :
  dumps ascii_canonical_opts
    (PyDict [(u "b", PyInt (-3)); (u "a", PyList [PyStr (u "é" ++ [128512%N]); PyBool true; PyNone])])
  = Some (u "{" ++ [34%N] ++ u "a" ++ [34%N] ++ u ":[" ++ [34%N] ++ u "\u00e9\ud83d\ude00" ++ [34%N]
          ++ u ",true,null]," ++ [34%N] ++ u "b" ++ [34%N] ++ u ":-3}").
Proof. vm_compute. reflexivity. Qed.
