(* ===== verification/Paths.v ===== *)
(** * POSIX paths

    [pathlib.PurePosixPath]: parsing, [str()], [/] and [relative_to].  What only
    the file system knows ([expanduser().resolve(strict=False)]) is the
    operation of the class [FileSystem]; [FileSystemLaws] states what the code
    relies on, and [lexical_fs] is an instance. *)

From S2P Require Import Prelude PyText.

Record Path := mkPath { root : pystr; parts : list pystr }.

#[export] Instance Path_eq_dec : EqDecision Path.
Proof. solve_decision. Defined.

Definition slash : N := 47%N.
Definition dot : N := 46%N.

(** [Path(text)] *)
Definition Path_of_str (s : pystr) : Path :=
  mkPath
    (if startswith (u "///") s then u "/"
     else if startswith (u "//") s then u "//"
     else if startswith (u "/") s then u "/" else [])
    (filter (λ w, w ≠ [] ∧ w ≠ [dot]) (split_on slash s)).

(** [str(path)] *)
Definition path_str (p : Path) : pystr :=
  match root p, parts p with
  | [], [] => [dot]
  | r, ps => r ++ join [slash] ps
  end.

Definition is_absolute (p : Path) : bool := match root p with [] => false | _ => true end.

(** [path.joinpath( *parts )] for parts without separators. *)
Definition joinpath (p : Path) (ps : list pystr) : Path := mkPath (root p) (parts p ++ ps).

(** [path.name]: the last part. *)
Definition path_name (p : Path) : pystr := match last (parts p) with Some w => w | None => [] end.

Fixpoint is_prefix (a b : list pystr) : bool :=
  match a, b with
  | [], _ => true
  | x :: a', y :: b' => (x =s y) && is_prefix a' b'
  | _, [] => false
  end.

(** [_is_within(path, root)]: [path.relative_to(root)] does not raise. *)
Definition _is_within (p r : Path) : bool := (root p =s root r) && is_prefix (parts r) (parts p).

(** [root in path.parents] *)
Definition in_parents (r p : Path) : bool := _is_within p r && (p ≠s r).

(** ** The file system *)
Class FileSystem := fs_resolve : Path → option Path.

(** The paths [resolve] returns: absolute, parts nonempty, no part [.] and no
    separator inside a part. *)
Definition clean_part (w : pystr) : Prop := w ≠ [] ∧ w ≠ [dot] ∧ slash ∉ w.
Definition clean_path (p : Path) : Prop := root p = u "/" ∧ Forall clean_part (parts p).

Class FileSystemLaws `{FileSystem} : Prop := {
  fs_resolve_clean : ∀ p q, fs_resolve p = Some q → clean_path q;
  fs_resolve_idem : ∀ p q, fs_resolve p = Some q → fs_resolve q = Some q
}.

(** A file system without symbolic links, current directory [/]: [..] is
    removed lexically. *)
Fixpoint drop_dotdot (acc : list pystr) (ps : list pystr) : list pystr :=
  match ps with
  | [] => reverse acc
  | w :: ps' => if decide (w = [dot; dot]) then drop_dotdot (tail acc) ps' else drop_dotdot (w :: acc) ps'
  end.
Definition lexical_resolve (p : Path) : option Path :=
  if decide (Forall clean_part (parts p)) then Some (mkPath (u "/") (drop_dotdot [] (parts p)))
  else None.
Definition lexical_fs : FileSystem := lexical_resolve.

(** ** Lemmas *)
Lemma is_prefix_iff a b : is_prefix a b = true ↔ a `prefix_of` b.
Proof.
  revert b. induction a as [|x a IH]; intros b; cbn.
  - split; [intros _; apply prefix_nil|done].
  - destruct b as [|y b].
    + split; [done|]. by intros [k Hk].
    + rewrite andb_true_iff, bool_decide_eq_true, IH. split.
      * intros [-> [k ->]]. by exists k.
      * intros [k Hk]. simplify_eq/=. split; [done|]. by exists k.
Qed.

Lemma is_within_iff p r : _is_within p r = true ↔ root p = root r ∧ parts r `prefix_of` parts p.
Proof. unfold _is_within. by rewrite andb_true_iff, bool_decide_eq_true, is_prefix_iff. Qed.
#[export] Hint Rewrite is_within_iff : py.

Lemma is_within_refl p : _is_within p p = true.
Proof. by apply is_within_iff. Qed.

Lemma is_within_trans p q r :
  _is_within p q = true → _is_within q r = true → _is_within p r = true.
Proof.
  rewrite !is_within_iff. intros [-> H1] [-> H2]. split; [done|]. by etrans.
Qed.
#[export] Hint Resolve is_within_refl is_within_trans : py.

(** Two roots that cover the same path are nested. *)
Lemma is_within_linear p q r :
  _is_within p q = true → _is_within p r = true →
  _is_within q r = true ∨ _is_within r q = true.
Proof.
  rewrite !is_within_iff. intros [H1 H2] [H3 H4].
  destruct (prefix_weak_total _ _ _ H2 H4); [right|left]; split; congruence.
Qed.

Lemma joinpath_within p ps : _is_within (joinpath p ps) p = true.
Proof. apply is_within_iff. split; [done|]. by exists ps. Qed.

Lemma filter_clean (ps : list pystr) :
  Forall clean_part ps → filter (λ w : pystr, w ≠ [] ∧ w ≠ [dot]) ps = ps.
Proof.
  induction 1 as [|w ps (? & ? & ?) _ IH]; [done|].
  rewrite filter_cons_True by done. by rewrite IH.
Qed.

Lemma split_join ps :
  ps ≠ [] → Forall clean_part ps → split_on slash (join [slash] ps) = ps.
Proof.
  intros Hne Hc. induction Hc as [|w ps (? & ? & Hw) Hc IH]; [done|].
  destruct ps as [|w2 ps].
  - by apply split_on_none.
  - change (join [slash] (w :: w2 :: ps)) with (w ++ slash :: join [slash] (w2 :: ps)).
    rewrite split_on_app by done. by rewrite IH.
Qed.

(** A clean path is recovered from its text. *)
Lemma path_of_str_str p : clean_path p → Path_of_str (path_str p) = p.
Proof.
  destruct p as [r ps]. intros [Hr Hc]; cbn in *. subst r.
  change (path_str (mkPath (u "/") ps)) with (slash :: join [slash] ps).
  assert (Hhd : ∀ c t, join [slash] ps = c :: t → c ≠ slash).
  { intros c t Ht ->. destruct Hc as [|w ps (Hw & _ & Hs) Hc]; [done|].
    destruct w as [|c w]; [done|]. destruct ps; cbn in Ht; simplify_eq/=; set_solver. }
  assert (Hsplit : filter (λ w : pystr, w ≠ [] ∧ w ≠ [dot])
                     (split_on slash (slash :: join [slash] ps)) = ps).
  { cbn [split_on]. rewrite N.eqb_refl. rewrite filter_cons_False by naive_solver.
    destruct ps as [|w ps]; [by vm_compute|].
    rewrite split_join by done. by apply filter_clean. }
  unfold Path_of_str. rewrite Hsplit. f_equal.
  destruct (join [slash] ps) as [|c t] eqn:Et; [done|].
  assert (Hc2 : c ≠ slash) by eauto.
  change (u "///") with [slash; slash; slash]. change (u "//") with [slash; slash].
  change (u "/") with [slash]. cbn [startswith]. rewrite N.eqb_refl.
  destruct (N.eqb_spec slash c); [congruence|]. done.
Qed.

Lemma path_str_inj p q : clean_path p → clean_path q → path_str p = path_str q → p = q.
Proof. intros Hp Hq H. by rewrite <-(path_of_str_str p), H, path_of_str_str. Qed.

Lemma clean_absolute p : clean_path p → is_absolute p = true.
Proof. intros [H _]. unfold is_absolute. by rewrite H. Qed.

Lemma drop_dotdot_clean acc ps :
  Forall (λ w, clean_part w ∧ w ≠ [dot; dot]) acc → Forall clean_part ps →
  Forall (λ w, clean_part w ∧ w ≠ [dot; dot]) (drop_dotdot acc ps).
Proof.
  intros Ha Hc. revert acc Ha. induction Hc as [|w ps Hw Hc IH]; intros acc Ha; cbn.
  - by apply Forall_reverse.
  - case_decide; apply IH; [|by constructor]. destruct Ha; [constructor|done].
Qed.

Lemma drop_dotdot_id acc ps :
  Forall (λ w, w ≠ [dot; dot]) ps → drop_dotdot acc ps = reverse acc ++ ps.
Proof.
  intros H. revert acc. induction H as [|w ps Hw _ IH]; intros acc; cbn.
  - by rewrite app_nil_r.
  - rewrite decide_False by done. rewrite IH, reverse_cons, <-app_assoc. done.
Qed.

#[export] Instance lexical_fs_laws : @FileSystemLaws lexical_fs.
Proof.
  assert (H : ∀ p q, lexical_resolve p = Some q →
    root q = u "/" ∧ Forall (λ w, clean_part w ∧ w ≠ [dot; dot]) (parts q)).
  { intros p q. unfold lexical_resolve. case_decide; [|done]. intros [= <-]; cbn.
    split; [done|]. by apply drop_dotdot_clean. }
  split; intros p q Hq; destruct (H p q Hq) as [Hr Hp].
  - split; [done|]. eapply Forall_impl; [exact Hp|]. naive_solver.
  - destruct q as [r ps]; cbn in *. subst. unfold fs_resolve, lexical_fs, lexical_resolve; cbn.
    rewrite decide_True; [|eapply Forall_impl; [exact Hp|]; naive_solver].
    rewrite drop_dotdot_id; [done|]. eapply Forall_impl; [exact Hp|]. naive_solver.
Qed.
