(* ===== verification/SandboxPolicy.v ===== *)
(** * Sandbox policies ([src/src/icode/sandbox_policy.py])

    The policy record with its normalizing constructor, its wire form, and the
    order "only tighter" ([tighten_policy]) every derived policy must pass. *)

From S2P Require Import Prelude PyText PyVal Hashing Json Paths.

(** ** Host names *)
Definition is_label_char (c : N) : bool := is_digit c || is_lower_az c || (c =? 45)%N.
Definition is_label_edge (c : N) : bool := is_digit c || is_lower_az c.
(** [_DNS_LABEL_PATTERN.fullmatch] *)
Definition dns_label (l : pystr) : bool :=
  match l with
  | [] => false
  | c :: _ =>
    is_label_edge c && forallb is_label_char l && (length l <=? 63)
    && match last l with Some d => is_label_edge d | None => false end
  end.

Definition is_hex_literal (s : pystr) : bool :=
  match s with
  | a :: b :: _ :: _ => (a =? 48)%N && ((b =? 120)%N || (b =? 88)%N) && forallb is_hex (drop 2 s)
  | _ => false
  end.

Definition _is_legacy_ipv4_text (domain : pystr) : bool :=
  let ps := split_on 46%N domain in
  (1 <=? length ps) && (length ps <=? 4)
  && forallb (λ p, full_cls is_digit 1 None p || is_hex_literal p) ps.

(** [ipaddress.ip_address] of the standard library, as an acceptance test. *)
Definition ipv4_octet (s : pystr) : bool :=
  full_cls is_digit 1 (Some 3) s && (match s with c :: _ :: _ => negb (c =? 48)%N | _ => true end)
  && (digits_value s <=? 255)%N.
Definition ipv4_text (s : pystr) : bool :=
  let ps := split_on 46%N s in (length ps =? 4) && forallb ipv4_octet ps.

Definition hextet (s : pystr) : bool := full_cls is_hex 1 (Some 4) s.
Definition is_empty_str (s : pystr) : bool := s =s [].
Definition count_empty (ps : list pystr) : nat := length (filter (λ p : pystr, p = []) ps).
Fixpoint first_empty (ps : list pystr) : nat :=
  match ps with
  | [] => 0
  | p :: ps' => if is_empty_str p then 0 else S (first_empty ps')
  end.

(** The colon-separated parts of an IPv6 text, [::] being the one empty part
    strictly inside. *)
Definition ipv6_parts (ps : list pystr) : bool :=
  let n := length ps in
  let hd_empty := match ps with p :: _ => is_empty_str p | [] => false end in
  let tl_empty := match last ps with Some p => is_empty_str p | None => false end in
  let inner := take (n - 2) (drop 1 ps) in
  let words := forallb (λ p, is_empty_str p || hextet p) ps in
  (3 <=? n) && (n <=? 9) && words &&
  match count_empty inner with
  | O => (n =? 8) && negb hd_empty && negb tl_empty
  | S O =>
    let skip := S (first_empty inner) in
    let hi := if hd_empty then skip - 1 else skip in
    let lo := if tl_empty then n - skip - 2 else n - skip - 1 in
    (if hd_empty then hi =? 0 else true) && (if tl_empty then lo =? 0 else true)
    && (hi + lo <=? 7)
  | _ => false
  end.

Definition ipv6_text (s : pystr) : bool :=
  let ps := split_on 58%N s in
  match last ps with
  | Some p =>
    if has_char 46 p then
      (3 <=? length ps) && ipv4_text p && ipv6_parts (removelast ps ++ [u "0"; u "0"])
    else ipv6_parts ps
  | None => false
  end.

Definition ip_address_ok (s : pystr) : bool :=
  negb (has_char 47 s) &&
  (ipv4_text s ||
   match split_on 37%N s with
   | [addr] => ipv6_text addr
   | [addr; scope] => negb (is_empty_str scope) && ipv6_text addr
   | _ => false
   end).

Definition _is_exact_dns_hostname (domain : pystr) : bool :=
  negb (is_empty_str domain) && (length domain <=? 253) && forallb is_ascii domain
  && negb (_is_legacy_ipv4_text domain) && negb (ip_address_ok domain)
  && (let labels := split_on 46%N domain in
      (2 <=? length labels) && forallb dns_label labels).

(** On a [str]; the caller's [type(domain) is str] test is the type here. *)
Definition is_exact_dns_hostname (domain : pystr) : bool :=
  forallb is_ascii domain && _is_exact_dns_hostname (lower domain).

(** ** The policy *)
Inductive NetworkMode := DENY | PROXY_ALLOWLIST.
#[export] Instance NetworkMode_eq_dec : EqDecision NetworkMode.
Proof. solve_decision. Defined.
Definition network_mode_value (m : NetworkMode) : pystr :=
  match m with DENY => u "deny" | PROXY_ALLOWLIST => u "proxy_allowlist" end.

Definition POLICY_SCHEMA_VERSION : Z := 1.

Record SandboxPolicy := mkPolicy {
  schema_version : Z;
  run_id : pystr;
  ticket_id : pystr;
  step : pystr;
  workspace_root : Path;
  read_roots : list Path;
  write_roots : list Path;
  deny_read_roots : list Path;
  deny_write_roots : list Path;
  network_mode : NetworkMode;
  allowed_domains : list pystr;
  process_limit : Z;
  wall_timeout_seconds : Z;
  output_limit_bytes : Z;
  protected_paths : list Path
}.

#[export] Instance SandboxPolicy_eq_dec : EqDecision SandboxPolicy.
Proof. solve_decision. Defined.

Definition _require_utf8_scalar (s : pystr) : bool := utf8_encodable s.

Definition blank_or_control (s : pystr) : bool :=
  is_empty_str (strip s) || existsb is_control s.

Definition _roots_are_no_broader (candidate base : list Path) : bool :=
  forallb (λ c, existsb (λ b, _is_within c b) base) candidate.

Definition _denies_preserved (candidate base : list Path) : bool :=
  forallb (λ b, existsb (λ c, _is_within b c) candidate) base.

(** The tests of [validate], with the message each failure raises (values
    interpolated into a message are left out).  The declared types are those of
    the record. *)
Definition policy_scalars_ok (p : SandboxPolicy) : bool :=
  forallb _require_utf8_scalar
    ([run_id p; ticket_id p; step p; path_str (workspace_root p)]
     ++ (path_str <$> read_roots p ++ write_roots p ++ deny_read_roots p ++ deny_write_roots p
                      ++ protected_paths p)
     ++ allowed_domains p).

Definition PVE (msg : string) : exn := PolicyValidationError msg.

Definition root_denied (allow deny : list Path) : bool :=
  existsb (λ a, existsb (λ d, _is_within a d) deny) allow.

Definition validate (p : SandboxPolicy) : result unit :=
  _ ← raise_if (negb (policy_scalars_ok p)) (PVE "must contain only UTF-8 encodable Unicode scalars");
  _ ← raise_if (negb (schema_version p =? POLICY_SCHEMA_VERSION)%Z)
        (PVE "unsupported sandbox policy schema_version");
  _ ← raise_if (existsb blank_or_control [run_id p; ticket_id p; step p])
        (PVE "must be non-blank and contain no ASCII control characters");
  _ ← raise_if (existsb (λ n, n <=? 0)%Z
                  [process_limit p; wall_timeout_seconds p; output_limit_bytes p])
        (PVE "must be a strictly positive integer");
  _ ← raise_if (bool_decide (network_mode p = DENY) && bool_decide (allowed_domains p ≠ []))
        (PVE "deny network mode cannot include allowed domains");
  _ ← raise_if (bool_decide (network_mode p = PROXY_ALLOWLIST) && bool_decide (allowed_domains p = []))
        (PVE "proxy allowlist network mode requires at least one domain");
  _ ← raise_if (negb (forallb _is_exact_dns_hostname (allowed_domains p)))
        (PVE "allowed domain must be an exact ASCII DNS hostname");
  _ ← raise_if (negb (forallb (λ w, _is_within w (workspace_root p)) (write_roots p)))
        (PVE "write root must be within workspace_root");
  _ ← raise_if (root_denied (read_roots p) (deny_read_roots p))
        (PVE "read root is fully covered by a deny root");
  _ ← raise_if (root_denied (write_roots p) (deny_write_roots p))
        (PVE "write root is fully covered by a deny root");
  raise_if (negb (forallb (λ q, existsb (λ d, _is_within q d) (deny_write_roots p)) (protected_paths p)))
    (PVE "protected path is not covered by a deny-write root").

(** ** Construction *)
Section construction.
Context `{FileSystem}.

Definition _normalize_path (p : Path) : result Path :=
  if _require_utf8_scalar (path_str p) then
    match fs_resolve p with
    | Some q => Ok q
    | None => Err (PVE "unable to normalize")
    end
  else Err (PVE "must contain only UTF-8 encodable Unicode scalars").

Fixpoint mapM_path (ps : list Path) : result (list Path) :=
  match ps with
  | [] => Ok []
  | p :: ps' => q ← _normalize_path p; qs ← mapM_path ps'; Ok (q :: qs)
  end.

Definition _normalize_paths (ps : list Path) : result (list Path) :=
  qs ← mapM_path ps; Ok (sorted_set path_str qs).

Definition normalize_domains (ds : list pystr) : list pystr :=
  sorted_set (λ d, d) ((λ d, if is_exact_dns_hostname d then lower d else d) <$> ds).

(** [SandboxPolicy(...)]: [__post_init__] normalizes, then validates. *)
Definition SandboxPolicy_new (raw : SandboxPolicy) : result SandboxPolicy :=
  _ ← raise_if (negb (policy_scalars_ok raw)) (PVE "must contain only UTF-8 encodable Unicode scalars");
  ws ← _normalize_path (workspace_root raw);
  rr ← _normalize_paths (read_roots raw);
  wr ← _normalize_paths (write_roots raw);
  dr ← _normalize_paths (deny_read_roots raw);
  dw ← _normalize_paths (deny_write_roots raw);
  pp ← _normalize_paths (protected_paths raw);
  let p := mkPolicy (schema_version raw) (run_id raw) (ticket_id raw) (step raw) ws rr wr dr dw
             (network_mode raw) (normalize_domains (allowed_domains raw))
             (process_limit raw) (wall_timeout_seconds raw) (output_limit_bytes raw) pp in
  _ ← validate p;
  Ok p.
End construction.

(** ** Wire form *)
Definition policy_fields : list pystr :=
  [ u "schema_version"; u "run_id"; u "ticket_id"; u "step"; u "workspace_root"; u "read_roots";
    u "write_roots"; u "deny_read_roots"; u "deny_write_roots"; u "network_mode";
    u "allowed_domains"; u "process_limit"; u "wall_timeout_seconds"; u "output_limit_bytes";
    u "protected_paths" ].

Definition py_paths (ps : list Path) : pyval := PyList ((λ p, PyStr (path_str p)) <$> ps).

Definition to_dict (p : SandboxPolicy) : list (pystr * pyval) :=
  [ (u "schema_version", PyInt (schema_version p));
    (u "run_id", PyStr (run_id p));
    (u "ticket_id", PyStr (ticket_id p));
    (u "step", PyStr (step p));
    (u "workspace_root", PyStr (path_str (workspace_root p)));
    (u "read_roots", py_paths (read_roots p));
    (u "write_roots", py_paths (write_roots p));
    (u "deny_read_roots", py_paths (deny_read_roots p));
    (u "deny_write_roots", py_paths (deny_write_roots p));
    (u "network_mode", PyStr (network_mode_value (network_mode p)));
    (u "allowed_domains", PyList (PyStr <$> allowed_domains p));
    (u "process_limit", PyInt (process_limit p));
    (u "wall_timeout_seconds", PyInt (wall_timeout_seconds p));
    (u "output_limit_bytes", PyInt (output_limit_bytes p));
    (u "protected_paths", py_paths (protected_paths p)) ].

Definition str_field (k : pystr) (d : list (pystr * pyval)) : result pystr :=
  match pget k d with PyStr s => Ok s | _ => Err (PVE "must be a string") end.
Definition strs_field (k : pystr) (d : list (pystr * pyval)) : result (list pystr) :=
  match pget k d with
  | PyList l => match all_strs l with Some ss => Ok ss | None => Err (PVE "items must be strings") end
  | _ => Err (PVE "must be a list")
  end.
Definition int_field (k : pystr) (d : list (pystr * pyval)) : result Z :=
  match pget k d with PyInt z => Ok z | _ => Err (PVE "must be an integer") end.

Definition network_mode_of (s : pystr) : option NetworkMode :=
  if s =s u "deny" then Some DENY
  else if s =s u "proxy_allowlist" then Some PROXY_ALLOWLIST else None.

Definition absolute_paths (ss : list pystr) : bool := forallb (λ s, is_absolute (Path_of_str s)) ss.

Section wire.
Context `{FileSystem}.

Definition from_dict (data : pyval) : result SandboxPolicy :=
  match data with
  | PyDict d =>
    _ ← raise_if (negb (forallb (λ k, dhas k d) policy_fields
                        && forallb (λ k, k ∈s policy_fields) (dkeys d)))
          (PVE "missing fields or unknown");
    _ ← raise_if (match pget (u "schema_version") d with
                  | PyInt z => negb (z =? POLICY_SCHEMA_VERSION)%Z | _ => true end)
          (PVE "schema_version must be integer 1");
    rid ← str_field (u "run_id") d;
    tid ← str_field (u "ticket_id") d;
    st ← str_field (u "step") d;
    ws ← str_field (u "workspace_root") d;
    rr ← strs_field (u "read_roots") d;
    wr ← strs_field (u "write_roots") d;
    dr ← strs_field (u "deny_read_roots") d;
    dw ← strs_field (u "deny_write_roots") d;
    pp ← strs_field (u "protected_paths") d;
    ds ← strs_field (u "allowed_domains") d;
    pl ← int_field (u "process_limit") d;
    wt ← int_field (u "wall_timeout_seconds") d;
    ol ← int_field (u "output_limit_bytes") d;
    nm ← str_field (u "network_mode") d;
    match network_mode_of nm with
    | None => Err (PVE "unsupported network_mode")
    | Some mode =>
      _ ← raise_if (negb (is_absolute (Path_of_str ws)))
            (PVE "workspace_root must be an absolute path");
      _ ← raise_if (negb (forallb absolute_paths [rr; wr; dr; dw; pp]))
            (PVE "items must be absolute paths");
      SandboxPolicy_new
        (mkPolicy POLICY_SCHEMA_VERSION rid tid st (Path_of_str ws) (Path_of_str <$> rr)
           (Path_of_str <$> wr) (Path_of_str <$> dr) (Path_of_str <$> dw) mode ds pl wt ol
           (Path_of_str <$> pp))
    end
  | _ => Err (PVE "sandbox policy wire must be a mapping")
  end.

(** [canonical_json] and [policy_hash]: no value of the wire form is a float
    or an opaque object, so [dumps] is defined. *)
Definition canonical_json `{FloatRepr} (p : SandboxPolicy) : pystr :=
  match dumps canonical_opts (PyDict (to_dict p)) with Some s => s | None => [] end.
Definition policy_hash `{FloatRepr} (p : SandboxPolicy) : pystr :=
  sha256_hex (utf8_bytes (canonical_json p)).

(** ** Tightening *)
Definition same_identity (c b : SandboxPolicy) : bool :=
  (schema_version c =? schema_version b)%Z && (run_id c =s run_id b)
  && (ticket_id c =s ticket_id b) && (step c =s step b)
  && (workspace_root c =s workspace_root b).

Definition subset_of {A} `{EqDecision A} (l m : list A) : bool := forallb (λ x, x ∈s m) l.

Definition tighten_policy (base candidate : SandboxPolicy) : result SandboxPolicy :=
  _ ← (if validate base is Err _ then Err (PVE "base invalid") else Ok tt);
  _ ← (if validate candidate is Err _ then Err (PVE "candidate invalid") else Ok tt);
  _ ← raise_if (negb (same_identity candidate base))
        (PVE "candidate policy broadens by changing its identity");
  _ ← raise_if (negb (_roots_are_no_broader (read_roots candidate) (read_roots base)))
        (PVE "candidate policy broadens read_roots");
  _ ← raise_if (negb (_roots_are_no_broader (write_roots candidate) (write_roots base)))
        (PVE "candidate policy broadens write_roots");
  _ ← raise_if (negb (_denies_preserved (deny_read_roots candidate) (deny_read_roots base)))
        (PVE "candidate policy broadens by weakening deny_read_roots");
  _ ← raise_if (negb (_denies_preserved (deny_write_roots candidate) (deny_write_roots base)))
        (PVE "candidate policy broadens by weakening deny_write_roots");
  _ ← raise_if (negb (subset_of (protected_paths base) (protected_paths candidate)))
        (PVE "candidate policy broadens by removing a protected path");
  _ ← raise_if (process_limit base <? process_limit candidate)%Z
        (PVE "candidate policy broadens process_limit");
  _ ← raise_if (wall_timeout_seconds base <? wall_timeout_seconds candidate)%Z
        (PVE "candidate policy broadens wall_timeout_seconds");
  _ ← raise_if (output_limit_bytes base <? output_limit_bytes candidate)%Z
        (PVE "candidate policy broadens output_limit_bytes");
  _ ← match network_mode base with
      | DENY => raise_if (bool_decide (network_mode candidate ≠ DENY))
                  (PVE "candidate policy broadens network access")
      | PROXY_ALLOWLIST =>
        match network_mode candidate with
        | PROXY_ALLOWLIST =>
          raise_if (negb (subset_of (allowed_domains candidate) (allowed_domains base)))
            (PVE "candidate policy broadens allowed domains")
        | DENY => Ok tt
        end
      end;
  Ok candidate.

(** The [dataclasses.replace] of the derived read-only policies. *)
Definition read_only_copy (base : SandboxPolicy) (deny : list Path) : SandboxPolicy :=
  mkPolicy (schema_version base) (run_id base) (ticket_id base) (step base)
    (workspace_root base) (read_roots base) [] (deny_read_roots base ++ deny)
    (deny_write_roots base) DENY [] (process_limit base) (wall_timeout_seconds base)
    (output_limit_bytes base) (protected_paths base).

(** [resolved] is [Path(workspace_root).expanduser().resolve(strict=True)]
    ([None] when it raises) and [is_dir] whether that is a directory. *)
Definition derive_read_only_reviewer_policy (base : SandboxPolicy)
    (resolved : option Path) (is_dir : bool) (deny_read : list Path) : result SandboxPolicy :=
  _ ← raise_if (step base ≠s u "review") (PVE "Reviewer policy must belong to the review step");
  match resolved with
  | None => Err (PVE "Reviewer workspace root is unavailable")
  | Some workspace =>
    _ ← raise_if (negb is_dir || (workspace_root base ≠s workspace))
          (PVE "Reviewer workspace root does not match policy");
    _ ← raise_if (existsb (λ r, negb (_is_within r workspace)) (read_roots base))
          (PVE "Reviewer policy contains a read root outside the workspace");
    candidate ← SandboxPolicy_new (read_only_copy base deny_read);
    tighten_policy base candidate
  end.
End wire.

(** ** Specification: the authority a policy grants *)
Definition covered (roots : list Path) (x : Path) : bool := existsb (_is_within x) roots.
Definition may_read (p : SandboxPolicy) (x : Path) : bool :=
  covered (read_roots p) x && negb (covered (deny_read_roots p) x).
Definition may_write (p : SandboxPolicy) (x : Path) : bool :=
  covered (write_roots p) x && negb (covered (deny_write_roots p) x).
Definition may_reach (p : SandboxPolicy) (host : pystr) : bool :=
  bool_decide (network_mode p = PROXY_ALLOWLIST) && (host ∈s allowed_domains p).

(** [c] grants at most what [b] grants, for the same run. *)
Record tighter (c b : SandboxPolicy) : Prop := {
  ti_same : same_identity c b = true;
  ti_read : ∀ x, may_read c x = true → may_read b x = true;
  ti_write : ∀ x, may_write c x = true → may_write b x = true;
  ti_reach : ∀ h, may_reach c h = true → may_reach b h = true;
  ti_protected : ∀ x, x ∈ protected_paths b → x ∈ protected_paths c;
  ti_limits : (process_limit c ≤ process_limit b)%Z ∧
    (wall_timeout_seconds c ≤ wall_timeout_seconds b)%Z ∧
    (output_limit_bytes c ≤ output_limit_bytes b)%Z
}.

(** ** Lemmas *)
Lemma covered_iff roots x : covered roots x = true ↔ ∃ r, r ∈ roots ∧ _is_within x r = true.
Proof. apply existsb_Exists. Qed.

Lemma no_broader_iff c b :
  _roots_are_no_broader c b = true ↔ ∀ x, x ∈ c → covered b x = true.
Proof. unfold _roots_are_no_broader. rewrite forallb_Forall, Forall_forall. done. Qed.

Lemma denies_preserved_iff c b :
  _denies_preserved c b = true ↔ ∀ x, x ∈ b → covered c x = true.
Proof. unfold _denies_preserved. rewrite forallb_Forall, Forall_forall. done. Qed.

Lemma covered_mono roots roots' x :
  (∀ r, r ∈ roots → covered roots' r = true) → covered roots x = true → covered roots' x = true.
Proof.
  intros Hr. rewrite !covered_iff. intros (r & Hin & Hx).
  apply Hr, covered_iff in Hin as (r' & ? & ?). eauto with py.
Qed.

Lemma subset_of_iff {A} `{EqDecision A} (l m : list A) :
  subset_of l m = true ↔ ∀ x, x ∈ l → x ∈ m.
Proof.
  unfold subset_of. rewrite forallb_Forall, Forall_forall.
  setoid_rewrite bool_decide_eq_true. done.
Qed.

Lemma same_identity_iff c b :
  same_identity c b = true ↔
  schema_version c = schema_version b ∧ run_id c = run_id b ∧ ticket_id c = ticket_id b ∧
  step c = step b ∧ workspace_root c = workspace_root b.
Proof. unfold same_identity. rewrite !andb_true_iff, !bool_decide_eq_true, Z.eqb_eq. tauto. Qed.

(** What [tighten_policy] accepts, as one condition. *)
Definition network_tighter (c b : SandboxPolicy) : Prop :=
  (network_mode b = DENY → network_mode c = DENY) ∧
  (network_mode b = PROXY_ALLOWLIST → network_mode c = PROXY_ALLOWLIST →
   ∀ d, d ∈ allowed_domains c → d ∈ allowed_domains b).

Record tightens (c b : SandboxPolicy) : Prop := {
  tg_base : validate b = Ok tt;
  tg_cand : validate c = Ok tt;
  tg_same : same_identity c b = true;
  tg_read : ∀ x, x ∈ read_roots c → covered (read_roots b) x = true;
  tg_write : ∀ x, x ∈ write_roots c → covered (write_roots b) x = true;
  tg_deny_read : ∀ x, x ∈ deny_read_roots b → covered (deny_read_roots c) x = true;
  tg_deny_write : ∀ x, x ∈ deny_write_roots b → covered (deny_write_roots c) x = true;
  tg_protected : ∀ x, x ∈ protected_paths b → x ∈ protected_paths c;
  tg_process : (process_limit c ≤ process_limit b)%Z;
  tg_wall : (wall_timeout_seconds c ≤ wall_timeout_seconds b)%Z;
  tg_output : (output_limit_bytes c ≤ output_limit_bytes b)%Z;
  tg_network : network_tighter c b
}.

Lemma validate_ok_tt p t : (if validate p is Err _ then Err (PVE t) else Ok tt) = Ok tt ↔ validate p = Ok tt.
Proof. destruct (validate p) as [[]|]; done. Qed.

Lemma tighten_policy_ok base cand p :
  tighten_policy base cand = Ok p ↔ p = cand ∧ tightens cand base.
Proof.
  unfold tighten_policy. split.
  - intros Ht. repeat (apply bind_ok in Ht as ([] & ? & Ht)). injection Ht as <-.
    split; [done|].
    rewrite !raise_if_ok, !negb_false_iff, ?Z.ltb_ge in *.
    rewrite ->no_broader_iff, ->denies_preserved_iff, ->subset_of_iff, ->validate_ok_tt in *.
    split; try done. unfold network_tighter.
    destruct (network_mode base), (network_mode cand); cbn in *; try done; split; try done.
    intros _ _. apply subset_of_iff. by rewrite ->raise_if_ok, negb_false_iff in *.
  - intros [-> [H1 H2 H3 H4 H5 H6 H7 H8 H9 H10 H11 [H12 H13]]].
    rewrite H1, H2, H3. cbn.
    rewrite (proj2 (no_broader_iff _ _) H4), (proj2 (no_broader_iff _ _) H5),
      (proj2 (denies_preserved_iff _ _) H6), (proj2 (denies_preserved_iff _ _) H7),
      (proj2 (subset_of_iff _ _) H8). cbn.
    rewrite !(proj2 (Z.ltb_ge _ _)) by lia. cbn.
    destruct (network_mode base), (network_mode cand); cbn; try done.
    + by specialize (H12 eq_refl).
    + by rewrite (proj2 (subset_of_iff _ _) (H13 eq_refl eq_refl)).
Qed.

Lemma tightens_tighter c b : tightens c b → tighter c b.
Proof.
  intros [_ _ Hs Hr Hw Hdr Hdw Hp ? ? ? [Hn1 Hn2]]. split; try done.
  - intros x. unfold may_read. rewrite !andb_true_iff, !negb_true_iff. intros [Hc Hd].
    split; [by eapply covered_mono|].
    destruct (covered (deny_read_roots b) x) eqn:E; [|done].
    by rewrite (covered_mono _ _ _ Hdr E) in Hd.
  - intros x. unfold may_write. rewrite !andb_true_iff, !negb_true_iff. intros [Hc Hd].
    split; [by eapply covered_mono|].
    destruct (covered (deny_write_roots b) x) eqn:E; [|done].
    by rewrite (covered_mono _ _ _ Hdw E) in Hd.
  - intros h. unfold may_reach. rewrite !andb_true_iff, !bool_decide_eq_true.
    destruct (network_mode b); [by intros [? _]; rewrite Hn1 in *|]. intros [? ?]. auto.
Qed.

Lemma tightens_trans a b c : tightens b a → tightens c b → tightens c a.
Proof.
  intros [Va _ I1 R1 W1 DR1 DW1 P1 ? ? ? [N1 M1]] [_ Vc I2 R2 W2 DR2 DW2 P2 ? ? ? [N2 M2]].
  split; try done; try lia.
  - rewrite ->same_identity_iff in *. naive_solver congruence.
  - intros x Hx. eapply covered_mono; eauto.
  - intros x Hx. eapply covered_mono; eauto.
  - intros x Hx. eapply covered_mono; [exact DR2|]. auto.
  - intros x Hx. eapply covered_mono; [exact DW2|]. auto.
  - auto.
  - unfold network_tighter. split; [auto|].
    intros Ha Hc. destruct (network_mode b); [by rewrite N2 in Hc|auto].
Qed.

Lemma covered_self roots x : x ∈ roots → covered roots x = true.
Proof. intros. apply covered_iff. eauto with py. Qed.
#[export] Hint Resolve covered_self tightens_tighter tightens_trans : py.

Lemma tightens_refl p : validate p = Ok tt → tightens p p.
Proof.
  intros Hv. split; eauto with py; try lia.
  - by apply same_identity_iff.
  - split; auto.
Qed.

(** *** Normal form of a constructed policy *)
Section normal.
Context `{FileSystem}.

Definition normal_paths (ps : list Path) : Prop :=
  StronglySorted (key_lt path_str) ps ∧ ∀ q, q ∈ ps → fs_resolve q = Some q.

Record policy_normal (p : SandboxPolicy) : Prop := {
  pn_root : fs_resolve (workspace_root p) = Some (workspace_root p);
  pn_read : normal_paths (read_roots p);
  pn_write : normal_paths (write_roots p);
  pn_deny_read : normal_paths (deny_read_roots p);
  pn_deny_write : normal_paths (deny_write_roots p);
  pn_protected : normal_paths (protected_paths p);
  pn_domains : normalize_domains (allowed_domains p) = allowed_domains p
}.

Lemma normalize_path_ok p q :
  _normalize_path p = Ok q ↔ _require_utf8_scalar (path_str p) = true ∧ fs_resolve p = Some q.
Proof.
  unfold _normalize_path. destruct (_require_utf8_scalar _); [|naive_solver].
  destruct (fs_resolve p); naive_solver.
Qed.

Lemma mapM_path_ok ps qs :
  mapM_path ps = Ok qs → ∀ q, q ∈ qs → ∃ p, p ∈ ps ∧ fs_resolve p = Some q.
Proof.
  revert qs. induction ps as [|p ps IH]; cbn; intros qs Hm.
  - injection Hm as <-. by intros q ?%elem_of_nil.
  - apply bind_ok in Hm as (q & Hq & Hm). apply bind_ok in Hm as (qs' & Hqs & Hm).
    injection Hm as <-. apply normalize_path_ok in Hq as [_ Hq].
    intros q' [->|Hq']%elem_of_cons; [exists p; by rewrite elem_of_cons; auto|].
    destruct (IH _ Hqs _ Hq') as (p' & ? & ?). exists p'. by rewrite elem_of_cons; auto.
Qed.

Lemma mapM_path_in ps qs p q :
  mapM_path ps = Ok qs → p ∈ ps → fs_resolve p = Some q → q ∈ qs.
Proof.
  revert qs. induction ps as [|p' ps IH]; cbn; intros qs Hm Hin Hq; [by apply elem_of_nil in Hin|].
  apply bind_ok in Hm as (q' & Hq' & Hm). apply bind_ok in Hm as (qs' & Hqs & Hm).
  injection Hm as <-. apply normalize_path_ok in Hq' as [_ Hq'].
  apply elem_of_cons in Hin as [->|Hin]; apply elem_of_cons; [left; congruence|right; eauto].
Qed.

Lemma mapM_path_fix ps :
  (∀ q, q ∈ ps → fs_resolve q = Some q) →
  (∀ q, q ∈ ps → _require_utf8_scalar (path_str q) = true) → mapM_path ps = Ok ps.
Proof.
  induction ps as [|p ps IH]; cbn; intros Hr Hs; [done|].
  unfold _normalize_path. rewrite Hs, Hr by (by constructor). cbn.
  rewrite IH; [done|intros; apply Hr; by constructor|intros; apply Hs; by constructor].
Qed.

Lemma normalize_paths_normal `{!FileSystemLaws} ps qs : _normalize_paths ps = Ok qs → normal_paths qs.
Proof.
  unfold _normalize_paths. intros Hn. apply bind_ok in Hn as (rs & Hm & Hn). injection Hn as <-.
  pose proof (mapM_path_ok _ _ Hm) as Hin.
  assert (Hfix : ∀ q, q ∈ rs → fs_resolve q = Some q ∧ clean_path q).
  { intros q Hq. destruct (Hin q Hq) as (p & _ & Hp).
    eauto using fs_resolve_idem, fs_resolve_clean. }
  split.
  - apply sorted_set_sorted. intros x y Hx Hy. by apply path_str_inj; apply Hfix.
  - intros q Hq. rewrite elem_sorted_set in Hq. by apply Hfix.
Qed.

Lemma normalize_paths_fix ps :
  normal_paths ps → (∀ q, q ∈ ps → _require_utf8_scalar (path_str q) = true) →
  _normalize_paths ps = Ok ps.
Proof.
  intros [Hs Hr] Hu. unfold _normalize_paths. rewrite mapM_path_fix by done. cbn.
  by rewrite sorted_set_id.
Qed.

Lemma normalize_domains_idem ds : normalize_domains (normalize_domains ds) = normalize_domains ds.
Proof.
  unfold normalize_domains at 1. rewrite fmap_fixed.
  - apply sorted_set_id. unfold normalize_domains. apply sorted_set_sorted. done.
  - apply Forall_forall. intros d Hd. unfold normalize_domains in Hd.
    rewrite elem_sorted_set, list_elem_of_fmap in Hd. destruct Hd as (d' & -> & _).
    destruct (is_exact_dns_hostname d') eqn:E; [|by rewrite E].
    rewrite lower_idem. by case_match.
Qed.

Lemma SandboxPolicy_new_normal `{!FileSystemLaws} raw p :
  SandboxPolicy_new raw = Ok p → policy_normal p ∧ validate p = Ok tt.
Proof.
  unfold SandboxPolicy_new. intros Hn.
  apply bind_ok in Hn as ([] & _ & Hn).
  apply bind_ok in Hn as (ws & Hws & Hn). apply bind_ok in Hn as (rr & Hrr & Hn).
  apply bind_ok in Hn as (wr & Hwr & Hn). apply bind_ok in Hn as (dr & Hdr & Hn).
  apply bind_ok in Hn as (dw & Hdw & Hn). apply bind_ok in Hn as (pp & Hpp & Hn).
  cbn zeta in Hn. apply bind_ok in Hn as ([] & Hv & Hn). injection Hn as <-.
  split; [|done]. apply normalize_path_ok in Hws as [_ Hws].
  split; cbn; eauto using fs_resolve_idem, normalize_paths_normal, normalize_domains_idem.
Qed.

Lemma SandboxPolicy_new_fix p :
  policy_normal p → validate p = Ok tt → SandboxPolicy_new p = Ok p.
Proof.
  intros [Hw Hr Hwr Hdr Hdw Hp Hd] Hv.
  assert (Hs : policy_scalars_ok p = true).
  { unfold validate in Hv. apply bind_ok in Hv as ([] & Hs & _).
    by rewrite raise_if_ok, negb_false_iff in Hs. }
  assert (Hu : ∀ q, q ∈ [workspace_root p] ++ read_roots p ++ write_roots p ++ deny_read_roots p
      ++ deny_write_roots p ++ protected_paths p → _require_utf8_scalar (path_str q) = true).
  { intros q Hq. unfold policy_scalars_ok in Hs. rewrite forallb_Forall, Forall_forall in Hs.
    apply Hs. rewrite !elem_of_app, !elem_of_cons in *.
    destruct Hq as [[->|Hq]|Hq]; [tauto|by apply elem_of_nil in Hq|].
    right; left. apply list_elem_of_fmap. exists q. split; [done|].
    rewrite !elem_of_app. tauto. }
  unfold SandboxPolicy_new. rewrite Hs. cbn [raise_if negb mbind result_bind].
  unfold _normalize_path. rewrite Hu by (rewrite !elem_of_app, elem_of_cons; tauto).
  rewrite Hw. cbn [mbind result_bind].
  rewrite !normalize_paths_fix; cbn [mbind result_bind]; try done;
    try (intros q Hq; apply Hu; rewrite !elem_of_app; tauto).
  rewrite Hd. destruct p; cbn in *. by rewrite Hv.
Qed.
End normal.

(** *** The wire form *)
Lemma paths_roundtrip ps : Forall clean_path ps → Path_of_str <$> (path_str <$> ps) = ps.
Proof.
  induction 1 as [|p ps Hp _ IH]; [done|]. cbn. by rewrite path_of_str_str, IH.
Qed.

Lemma absolute_paths_str ps : Forall clean_path ps → absolute_paths (path_str <$> ps) = true.
Proof.
  intros Hc. apply forallb_Forall, Forall_fmap. eapply Forall_impl; [exact Hc|].
  intros p Hp. cbn. rewrite path_of_str_str by done. by apply clean_absolute.
Qed.

Lemma py_paths_field k d ps : pget k d = py_paths ps → strs_field k d = Ok (path_str <$> ps).
Proof.
  intros Hp. unfold strs_field. rewrite Hp. cbn.
  change ((λ p, PyStr (path_str p)) <$> ps) with ((PyStr ∘ path_str) <$> ps).
  by rewrite list_fmap_compose, all_strs_fmap.
Qed.

Lemma to_dict_keys p :
  forallb (λ k, dhas k (to_dict p)) policy_fields
  && forallb (λ k, k ∈s policy_fields) (dkeys (to_dict p)) = true.
Proof. vm_compute. reflexivity. Qed.

Lemma from_dict_to_dict `{FileSystem} p :
  schema_version p = POLICY_SCHEMA_VERSION → clean_path (workspace_root p) →
  Forall clean_path (read_roots p) → Forall clean_path (write_roots p) →
  Forall clean_path (deny_read_roots p) → Forall clean_path (deny_write_roots p) →
  Forall clean_path (protected_paths p) →
  from_dict (PyDict (to_dict p)) = SandboxPolicy_new p.
Proof.
  intros Hv Hw Hr Hwr Hdr Hdw Hp. unfold from_dict.
  rewrite to_dict_keys.
  cbn [raise_if negb mbind result_bind].
  rewrite (eq_refl : pget (u "schema_version") (to_dict p) = PyInt (schema_version p)).
  rewrite Hv. cbn [Z.eqb negb raise_if mbind result_bind].
  unfold str_field, int_field.
  rewrite (eq_refl : pget (u "run_id") (to_dict p) = PyStr (run_id p)),
    (eq_refl : pget (u "ticket_id") (to_dict p) = PyStr (ticket_id p)),
    (eq_refl : pget (u "step") (to_dict p) = PyStr (step p)),
    (eq_refl : pget (u "workspace_root") (to_dict p) = PyStr (path_str (workspace_root p))),
    (eq_refl : pget (u "process_limit") (to_dict p) = PyInt (process_limit p)),
    (eq_refl : pget (u "wall_timeout_seconds") (to_dict p) = PyInt (wall_timeout_seconds p)),
    (eq_refl : pget (u "output_limit_bytes") (to_dict p) = PyInt (output_limit_bytes p)),
    (eq_refl : pget (u "network_mode") (to_dict p) = PyStr (network_mode_value (network_mode p))).
  cbn [mbind result_bind].
  rewrite (py_paths_field (u "read_roots") (to_dict p) (read_roots p) eq_refl),
    (py_paths_field (u "write_roots") (to_dict p) (write_roots p) eq_refl),
    (py_paths_field (u "deny_read_roots") (to_dict p) (deny_read_roots p) eq_refl),
    (py_paths_field (u "deny_write_roots") (to_dict p) (deny_write_roots p) eq_refl),
    (py_paths_field (u "protected_paths") (to_dict p) (protected_paths p) eq_refl).
  unfold strs_field.
  rewrite (eq_refl : pget (u "allowed_domains") (to_dict p) = PyList (PyStr <$> allowed_domains p)).
  rewrite all_strs_fmap. cbn [mbind result_bind].
  assert (Hnm : network_mode_of (network_mode_value (network_mode p)) = Some (network_mode p))
    by by destruct (network_mode p).
  rewrite Hnm, path_of_str_str, clean_absolute by done.
  cbn [forallb]. rewrite !absolute_paths_str by done.
  cbn [andb negb raise_if mbind result_bind].
  rewrite !paths_roundtrip by done. destruct p; cbn in *. by rewrite Hv.
Qed.

(** What a read-only copy cannot do, whatever it was copied from. *)
Lemma read_only_copy_authority `{FileSystem} base deny c :
  SandboxPolicy_new (read_only_copy base deny) = Ok c →
  (∀ x, may_write c x = false) ∧ (∀ h, may_reach c h = false) ∧
  (∀ d q, d ∈ deny → fs_resolve d = Some q → ∀ x, _is_within x q = true → may_read c x = false).
Proof.
  unfold SandboxPolicy_new. intros Hc. cbn [read_only_copy run_id] in Hc.
  apply bind_ok in Hc as ([] & _ & Hc). apply bind_ok in Hc as (ws & _ & Hc).
  apply bind_ok in Hc as (rr & _ & Hc). apply bind_ok in Hc as (wr & Hwr & Hc).
  apply bind_ok in Hc as (dr & Hdr & Hc). apply bind_ok in Hc as (dw & _ & Hc).
  apply bind_ok in Hc as (pp & _ & Hc). cbn zeta in Hc. apply bind_ok in Hc as ([] & _ & Hc).
  injection Hc as <-. cbn in Hwr. injection Hwr as <-.
  split_and!; [done|done|].
  intros d q Hin Hq x Hx. unfold may_read; cbn. apply andb_false_iff. right.
  apply negb_false_iff, covered_iff. exists q. split; [|done].
  unfold _normalize_paths in Hdr. apply bind_ok in Hdr as (rs & Hm & Hdr). injection Hdr as <-.
  apply elem_sorted_set. cbn [read_only_copy deny_read_roots] in Hm.
  eapply mapM_path_in; [exact Hm| |exact Hq]. rewrite elem_of_app; auto.
Qed.

(** ** A concrete policy, for the witnesses *)
Definition sample_raw : SandboxPolicy :=
  mkPolicy 1 (u "run-1") (u "T-1") (u "review") (Path_of_str (u "/work"))
    [Path_of_str (u "/work/src"); Path_of_str (u "/work/docs/../docs")] [Path_of_str (u "/work/src")]
    [Path_of_str (u "/work/src/secret")] [Path_of_str (u "/work/src/.git")]
    PROXY_ALLOWLIST [u "PyPI.org"; u "example.com"; u "pypi.org"] 8 60 4096
    [Path_of_str (u "/work/src/.git/config")].

Definition sample_policy : SandboxPolicy :=
  match SandboxPolicy_new (H := lexical_fs) sample_raw with Ok p => p | Err _ => sample_raw end.

Example sample_policy_ok :
  SandboxPolicy_new (H := lexical_fs) sample_raw = Ok sample_policy ∧
  allowed_domains sample_policy = [u "example.com"; u "pypi.org"] ∧
  (path_str <$> read_roots sample_policy) = [u "/work/docs"; u "/work/src"].
Proof. by_compute. Qed.

(** Host names: legacy and dotted IPv4, IPv6, single labels and bad labels are
    refused; case is not significant. *)
Example hostname_examples :
  (is_exact_dns_hostname <$>
     [u "Example.COM"; u "a-b.c9"; u "10.1"; u "0x7f.1"; u "127.0.0.1"; u "::1"; u "localhost";
      u "-a.com"; u "a..b"; u "a.b."; u "exämple.com"; [8490%N; 46%N; 97%N]])
  = [true; true; false; false; false; false; false; false; false; false; false; false].
Proof. by_compute. Qed.

Example ip_address_examples :
  (ip_address_ok <$> [u "1.2.3.4"; u "01.2.3.4"; u "::"; u "::1"; u "1::"; u "1:2:3:4:5:6:7:8";
     u "1::2::3"; u ":1:2:3:4:5:6:7"; u "::ffff:1.2.3.4"; u "fe80::1%eth0"; u "1:2:3:4:5:6:7::"])
  = [true; false; true; true; true; true; false; false; true; true; true].
Proof. by_compute. Qed.

(** ** Properties *)

(** C19: a candidate that [tighten_policy] lets through is returned unchanged and
    has no authority the base lacks: every path it may read or write, every
    host it may reach, and every limit is within the base, the protected paths
    only grow, and the run identity is the same. *)
Theorem tighten_policy_sound base candidate p :
  tighten_policy base candidate = Ok p → p = candidate ∧ tighter candidate base.
Proof. rewrite tighten_policy_ok. intros [-> Ht]. auto with py. Qed.

Definition sample_tight : SandboxPolicy :=
  match SandboxPolicy_new (H := lexical_fs) (read_only_copy sample_policy []) with
  | Ok p => p | Err _ => sample_raw
  end.

Lemma tighten_policy_sound_witness :
  tighten_policy sample_policy sample_tight = Ok sample_tight ∧ tighter sample_tight sample_policy.
Proof.
  assert (H : tighten_policy sample_policy sample_tight = Ok sample_tight) by by_compute.
  split; [exact H|]. exact (proj2 (tighten_policy_sound _ _ _ H)).
Defined.

(** Tightening is a preorder on valid policies: a valid policy tightens
    itself, and a policy accepted against an accepted policy is accepted
    against the original, so a chain of derivations needs one check per link. *)
Theorem tighten_policy_preorder :
  (∀ p, validate p = Ok tt → tighten_policy p p = Ok p) ∧
  (∀ a b c p q, tighten_policy a b = Ok p → tighten_policy b c = Ok q → tighten_policy a c = Ok c).
Proof.
  split.
  - intros p Hv. apply tighten_policy_ok. split; [done|]. by apply tightens_refl.
  - intros a b c p q. rewrite !tighten_policy_ok. intros [-> ?] [-> ?].
    split; [done|]. eauto with py.
Qed.

(** The wire form is faithful: a policy that the constructor produced is read
    back from its [to_dict] unchanged, under any file system whose [resolve]
    returns clean absolute paths and fixes them. *)
Theorem policy_wire_roundtrip `{FileSystem, !FileSystemLaws} raw p :
  SandboxPolicy_new raw = Ok p → from_dict (PyDict (to_dict p)) = Ok p.
Proof.
  intros Hn. destruct (SandboxPolicy_new_normal _ _ Hn) as [Hp Hv].
  assert (Hclean : ∀ ps, normal_paths ps → Forall clean_path ps).
  { intros ps [_ Hr]. apply Forall_forall. intros q Hq. eauto using fs_resolve_clean. }
  rewrite from_dict_to_dict; [by apply SandboxPolicy_new_fix| | |destruct Hp; auto..].
  - unfold validate in Hv. apply bind_ok in Hv as ([] & _ & Hv).
    apply bind_ok in Hv as ([] & Hv & _). rewrite raise_if_ok, negb_false_iff in Hv.
    by apply Z.eqb_eq.
  - destruct Hp. eauto using fs_resolve_clean.
Qed.

Lemma policy_wire_roundtrip_witness :
  from_dict (H := lexical_fs) (PyDict (to_dict sample_policy)) = Ok sample_policy.
Proof.
  refine (policy_wire_roundtrip (H := lexical_fs) sample_raw sample_policy _).
  vm_compute. reflexivity.
Defined.

(** C39: construction is idempotent and its result always satisfies [validate]:
    the normalizing constructor cannot produce a policy it would refuse or
    change. *)
Theorem policy_construction_normal `{FileSystem, !FileSystemLaws} raw p :
  SandboxPolicy_new raw = Ok p → validate p = Ok tt ∧ SandboxPolicy_new p = Ok p.
Proof.
  intros Hn. destruct (SandboxPolicy_new_normal _ _ Hn) as [Hp Hv].
  split; [done|]. by apply SandboxPolicy_new_fix.
Qed.

Lemma policy_construction_normal_witness :
  SandboxPolicy_new (H := lexical_fs) sample_policy = Ok sample_policy.
Proof.
  refine (proj2 (policy_construction_normal (H := lexical_fs) sample_raw sample_policy _)).
  vm_compute. reflexivity.
Defined.

(** A policy derived for the read-only reviewer can write nothing, reach no
    host, reads only what the step policy reads, and keeps every denial the
    caller asked for. *)
Theorem reviewer_policy_read_only `{FileSystem, !FileSystemLaws} base ws dir deny p :
  derive_read_only_reviewer_policy base ws dir deny = Ok p →
  (∀ x, may_write p x = false) ∧ (∀ h, may_reach p h = false) ∧
  (∀ x, may_read p x = true → may_read base x = true) ∧
  (∀ d q, d ∈ deny → fs_resolve d = Some q → ∀ x, _is_within x q = true → may_read p x = false).
Proof.
  unfold derive_read_only_reviewer_policy. intros Hd.
  apply bind_ok in Hd as ([] & _ & Hd). destruct ws as [w|]; [|done].
  apply bind_ok in Hd as ([] & _ & Hd). apply bind_ok in Hd as ([] & _ & Hd).
  apply bind_ok in Hd as (c & Hc & Hd). apply tighten_policy_ok in Hd as [-> Ht].
  destruct (read_only_copy_authority _ _ _ Hc) as (? & ? & ?).
  apply tightens_tighter in Ht as []. done.
Qed.

Lemma reviewer_policy_read_only_witness :
  ∃ p, derive_read_only_reviewer_policy (H := lexical_fs) sample_policy
         (Some (Path_of_str (u "/work"))) true [Path_of_str (u "/work/docs/private")] = Ok p ∧
       may_read p (Path_of_str (u "/work/docs/private/x")) = false.
Proof.
  destruct (derive_read_only_reviewer_policy (H := lexical_fs) sample_policy
         (Some (Path_of_str (u "/work"))) true [Path_of_str (u "/work/docs/private")]) as [p|e] eqn:E.
  2: { vm_compute in E. discriminate E. }
  exists p. split; [reflexivity|].
  destruct (reviewer_policy_read_only (H := lexical_fs) _ _ _ _ _ E) as (_ & _ & _ & Hd).
  apply (Hd (Path_of_str (u "/work/docs/private")) (Path_of_str (u "/work/docs/private")));
    [constructor|vm_compute; reflexivity|vm_compute; reflexivity].
Defined.
