(* ===== verification/WriteLease.v ===== *)
(** * Region write leases ([src/src/icode/write_lease.py])

    Region normalisation and overlap, the board (an in-process table of held
    regions plus one lock file per region), and a system of several boards that
    share the lock files of a directory.  An operation changes the
    board, the lease object and the shared lock files, so it takes and returns
    all three. *)

From S2P Require Import Prelude PyText PyVal Hashing Paths.

#[global] Arguments sha256_hex : simpl never.

(** ** Regions *)
Definition _CONTROL_PLANE_MARKERS : list pystr :=
  [ u ".ico_events.jsonl"; u ".ico_metadata.json"; u ".icode_output_";
    u ".git/AI-HANDOFF"; u "gates.json" ].

(** [[A-Za-z0-9._-]] and [_SEGMENT_RE.match], the pattern [^[A-Za-z0-9._-]+$]. *)
Definition segment_char (c : N) : bool :=
  is_alnum_ascii c || (c =? 46)%N || (c =? 95)%N || (c =? 45)%N.
Definition _SEGMENT_RE (s : pystr) : bool := dollar (full_cls segment_char 1 None) s.

Abbreviation region := (list pystr).

Definition invalid_region : exn := LeaseError "invalid_region".

Definition region_part_ok (v : pyval) : bool :=
  match v with
  | PyStr p => negb (p ∈s [[]; u "."; u ".."]) && _SEGMENT_RE p
  | _ => false
  end.

Definition drive_prefix (s : pystr) : bool :=
  match s with
  | a :: b :: _ => (is_lower_az a || is_upper_az a) && (b =? 58)%N
  | _ => false
  end.

Definition region_parts (v : pyval) : result (list pyval) :=
  match v with
  | PyTuple l | PyList l => Ok l
  | PyStr s =>
    if strip s =s [] then Err invalid_region
    else
      raise_if (startswith (u "/") (lstrip s) || startswith (u "~") (lstrip s)
                || drive_prefix (strip s)) invalid_region;;
      let text := strip_by (N.eqb slash) (strip (replace_char 92 slash s)) in
      Ok (match text with [] => [] | _ => PyStr <$> split_on slash text end)
  | _ => Err invalid_region
  end.

Definition normalize_region (v : pyval) : result region :=
  l ← region_parts v;
  raise_if (l =s []) invalid_region;;
  raise_if (negb (forallb region_part_ok l)) invalid_region;;
  let ps := omap as_str l in
  raise_if (existsb (λ m, contains m (join [slash] ps)) _CONTROL_PLANE_MARKERS) invalid_region;;
  Ok ps.

Definition regions_overlap (l r : region) : bool :=
  let shorter := length l `min` length r in
  take shorter l =s take shorter r.

Definition _digest (r : region) : pystr := sha256_hex (utf8_bytes (join [slash] r)).
#[global] Arguments _digest : simpl never.

(** ** Lock files

    The directory entry of a lock file, the files that exist with their bytes,
    and the entries whose lock some open stream holds.  An exclusive [flock] is
    granted exactly when no other stream holds it. *)
Definition lock_path : Type := Path * pystr.

Record lock_files := mkLockFiles {
  lf_files : list (lock_path * list N);
  lf_locked : list lock_path
}.

(** What the operating system answers to one [acquire]: whether the directory
    can be prepared, the file opened or created, the lock call serviced, and the
    holder written ([Some bs]: the write fails and leaves [bs] in the file). *)
Record os_outcome := mkOs {
  os_prepare : bool;
  os_open : bool;
  os_lock : bool;
  os_write_fails : option (list N)
}.
Definition os_ok : os_outcome := mkOs true true true None.

Definition unlock (p : lock_path) (w : lock_files) : lock_files :=
  mkLockFiles (lf_files w) (filter (λ q, q ≠ p) (lf_locked w)).

Definition _prepare_lease_directory (os : os_outcome) : result unit :=
  raise_if (negb (os_prepare os)) (LeaseError "invalid_lease_dir").

Definition _open_lock_file (os : os_outcome) (p : lock_path) (w : lock_files) : result lock_files :=
  raise_if (negb (os_open os)) (LeaseError "lock_failed");;
  Ok (match dget p (lf_files w) with
      | Some _ => w
      | None => mkLockFiles (dset p [] (lf_files w)) (lf_locked w)
      end).

Definition _acquire_file_lock (os : os_outcome) (p : lock_path) (w : lock_files) : result lock_files :=
  raise_if (p ∈s lf_locked w) (LeaseBusy [] []);;
  raise_if (negb (os_lock os)) (LeaseError "lock_failed");;
  Ok (mkLockFiles (lf_files w) (p :: lf_locked w)).

(** The holder's bytes are written into an empty file only.  A holder with a
    lone surrogate cannot be encoded: that error propagates, and the stream,
    then unreachable, is closed. *)
Definition write_holder (os : os_outcome) (p : lock_path) (holder : pystr) (w : lock_files)
  : result unit * lock_files :=
  match dget p (lf_files w) with
  | Some [] =>
    if negb (utf8_encodable holder) then (Err (ValueError "surrogates not allowed"), unlock p w)
    else match os_write_fails os with
         | Some bs => (Err (LeaseError "lock_failed"),
                       unlock p (mkLockFiles (dset p bs (lf_files w)) (lf_locked w)))
         | None => (Ok tt, mkLockFiles (dset p (utf8_bytes holder) (lf_files w)) (lf_locked w))
         end
  | _ => (Ok tt, w)
  end.

(** ** Leases and the board *)
Record WriteLease := mkLease {
  l_region : region;
  l_holder : pystr;
  l_path : lock_path;
  l_board : bool;       (** [_board] is still set *)
  l_stream : bool;      (** [_stream] is still set: the lock of [l_path] is held *)
  l_released : bool
}.

Record WriteLeaseBoard := mkBoard {
  lease_dir : Path;
  held : list (region * pystr)
}.

Definition WriteLeaseBoard_init (dir : pyval) : result WriteLeaseBoard :=
  match dir with
  | PyStr s => if s =s [] then Err (LeaseError "invalid_lease_dir") else Ok (mkBoard (Path_of_str s) [])
  | _ => Err (LeaseError "invalid_lease_dir")
  end.

Definition check_holder (v : pyval) : result pystr :=
  match v with
  | PyStr s =>
    if strip s =s [] then Err (LeaseError "invalid_holder")
    else if 128 <? length (strip s) then Err (LeaseError "invalid_holder")
    else Ok (strip s)
  | _ => Err (LeaseError "invalid_holder")
  end.

Definition first_overlap (ps : region) (h : list (region * pystr)) : option (region * pystr) :=
  find (λ p, regions_overlap p.1 ps) h.

(** The part of [acquire] under the guard. *)
Definition acquire_locked (os : os_outcome) (b : WriteLeaseBoard) (w : lock_files)
    (ps : region) (holder : pystr) : result WriteLease * WriteLeaseBoard * lock_files :=
  match first_overlap ps (held b) with
  | Some (existing, owner) => (Err (LeaseBusy existing owner), b, w)
  | None =>
    let path := (lease_dir b, _digest ps) in
    match _prepare_lease_directory os ;; _open_lock_file os path w with
    | Err e => (Err e, b, w)
    | Ok w1 =>
      match _acquire_file_lock os path w1 with
      | Err (LeaseBusy _ _) => (Err (LeaseBusy ps (u "unknown-cross-process")), b, w1)
      | Err e => (Err e, b, w1)
      | Ok w2 =>
        match write_holder os path holder w2 with
        | (Err e, w3) => (Err e, b, w3)
        | (Ok _, w3) =>
          (Ok (mkLease ps holder path true true false),
           mkBoard (lease_dir b) (dset ps holder (held b)), w3)
        end
      end
    end
  end.

Definition acquire (os : os_outcome) (b : WriteLeaseBoard) (w : lock_files) (reg holder : pyval)
  : result WriteLease * WriteLeaseBoard * lock_files :=
  match ps ← normalize_region reg; h ← check_holder holder; Ok (ps, h) with
  | Err e => (Err e, b, w)
  | Ok (ps, h) => acquire_locked os b w ps h
  end.

Definition _discard (r : region) (holder : pystr) (b : WriteLeaseBoard) : WriteLeaseBoard :=
  match dget r (held b) with
  | Some h => if h =s holder then mkBoard (lease_dir b) (ddel r (held b)) else b
  | None => b
  end.

(** [WriteLease.release], also run by [__exit__] and [WriteLeaseBoard.release]. *)
Definition release (l : WriteLease) (b : WriteLeaseBoard) (w : lock_files)
  : WriteLease * WriteLeaseBoard * lock_files :=
  if l_released l then (l, b, w)
  else
    let w' := if l_stream l then unlock (l_path l) w else w in
    let b' := if l_board l then _discard (l_region l) (l_holder l) b else b in
    (mkLease (l_region l) (l_holder l) (l_path l) false false true, b', w').

(** Tuples of strings compare lexicographically. *)
Fixpoint region_compare (a b : region) : comparison :=
  match a, b with
  | [], [] => Eq
  | [], _ => Lt
  | _, [] => Gt
  | x :: a', y :: b' => match str_compare x y with Eq => region_compare a' b' | c => c end
  end.
Fixpoint held_insert (x : region * pystr) (l : list (region * pystr)) : list (region * pystr) :=
  match l with
  | [] => [x]
  | y :: l' => match region_compare x.1 y.1 with Gt => y :: held_insert x l' | _ => x :: l end
  end.
Definition sort_held : list (region * pystr) → list (region * pystr) := foldr held_insert [].

Definition holders (b : WriteLeaseBoard) : list (pystr * list pystr) :=
  foldl (λ d p, dset (join [slash] p.1) [p.2] d) [] (sort_held (held b)).

(** ** A system of boards

    An [AgentTeam] makes one board (multi_agent.py), so a process may have
    several, and several processes have theirs: a [board_use] is one board, of
    whatever process, with the leases it granted.  All share the lock files,
    which [flock] keeps exclusive between any two open files, of one process or
    of two.  [sys_step] runs one operation on one board, in any order. *)
Record board_use := mkBoardUse { p_board : WriteLeaseBoard; p_leases : list WriteLease }.
Record system := mkSystem { sys_files : lock_files; sys_boards : list board_use }.

Inductive lease_op :=
  | OpAcquire (i : nat) (os : os_outcome) (reg holder : pyval)
  | OpRelease (i k : nat).

Definition sys_step (s : system) (op : lease_op) : system :=
  match op with
  | OpAcquire i os reg holder =>
    match sys_boards s !! i with
    | None => s
    | Some p =>
      let '(r, b, w) := acquire os (p_board p) (sys_files s) reg holder in
      let ls := match r with Ok l => l :: p_leases p | Err _ => p_leases p end in
      mkSystem w (<[i := mkBoardUse b ls]> (sys_boards s))
    end
  | OpRelease i k =>
    match sys_boards s !! i with
    | None => s
    | Some p =>
      match p_leases p !! k with
      | None => s
      | Some l =>
        let '(l', b, w) := release l (p_board p) (sys_files s) in
        mkSystem w (<[i := mkBoardUse b (<[k := l']> (p_leases p))]> (sys_boards s))
      end
    end
  end.

Definition sys_init (files : list (lock_path * list N)) (dirs : list Path) : system :=
  mkSystem (mkLockFiles files []) ((λ d, mkBoardUse (mkBoard d []) []) <$> dirs).
Definition sys_run (s : system) (ops : list lease_op) : system := foldl sys_step s ops.

Definition live (l : WriteLease) : Prop := l_released l = false.
#[export] Instance live_dec l : Decision (live l).
Proof. unfold live. apply _. Defined.

Definition live_paths (p : board_use) : list lock_path := l_path <$> filter live (p_leases p).

(** The invariant of one board: its table is exactly its live leases, whose
    regions do not overlap. *)
Definition held_disjoint (h : list (region * pystr)) : Prop :=
  NoDup (dkeys h) ∧ ∀ a b, a ∈ dkeys h → b ∈ dkeys h → regions_overlap a b = true → a = b.

Definition live_wf (d : Path) (l : WriteLease) : Prop :=
  l_board l = true ∧ l_stream l = true ∧ l_path l = (d, _digest (l_region l)).

Record use_ok (p : board_use) : Prop := {
  po_held : held (p_board p) ≡ₚ (λ l, (l_region l, l_holder l)) <$> filter live (p_leases p);
  po_disjoint : held_disjoint (held (p_board p));
  po_live : Forall (live_wf (lease_dir (p_board p))) (filter live (p_leases p))
}.

(** The invariant of the system: the locks held are those of the live leases,
    each once. *)
Record sys_ok (s : system) : Prop := {
  so_boards : Forall use_ok (sys_boards s);
  so_locks : lf_locked (sys_files s) ≡ₚ concat (live_paths <$> sys_boards s);
  so_nodup : NoDup (lf_locked (sys_files s))
}.

(** ** Lemmas *)
Lemma regions_overlap_iff a b :
  regions_overlap a b = true ↔ a `prefix_of` b ∨ b `prefix_of` a.
Proof.
  unfold regions_overlap. rewrite bool_decide_eq_true.
  destruct (Nat.le_ge_cases (length a) (length b)) as [H|H].
  - rewrite Nat.min_l, (firstn_all a) by done. split.
    + intros ->. left. exists (drop (length a) b). by rewrite take_drop.
    + intros [[k ->]|[k ->]]; [by rewrite take_app_length|].
      rewrite length_app in H. destruct k; [|cbn in *; lia].
      by rewrite app_nil_r, take_ge by (cbn; lia).
  - rewrite Nat.min_r, (firstn_all b) by done. split.
    + intros <-. right. exists (drop (length b) a). by rewrite take_drop.
    + intros [[k ->]|[k ->]]; [|by rewrite take_app_length].
      rewrite length_app in H. destruct k; [|cbn in *; lia].
      by rewrite app_nil_r, take_ge by (cbn; lia).
Qed.

Lemma regions_overlap_sym a b : regions_overlap a b = regions_overlap b a.
Proof. apply eq_true_iff_eq. rewrite !regions_overlap_iff. naive_solver. Qed.

Lemma first_overlap_none ps h :
  first_overlap ps h = None ↔ ∀ r, r ∈ dkeys h → regions_overlap r ps = false.
Proof.
  unfold first_overlap, dkeys. induction h as [|[r0 o] h IH]; cbn.
  - split; [|done]. intros _ r H. by apply elem_of_nil in H.
  - case_match eqn:E.
    + split; [done|]. intros H. specialize (H r0 ltac:(constructor)). congruence.
    + rewrite IH. split.
      * intros H r [->|?]%elem_of_cons; auto.
      * intros H r ?. apply H. rewrite elem_of_cons. auto.
Qed.

Lemma first_overlap_some ps h r o :
  first_overlap ps h = Some (r, o) → (r, o) ∈ h ∧ regions_overlap r ps = true.
Proof. intros [? ?]%find_some. split; [by apply list_elem_of_In|done]. Qed.

(** What a granted acquisition did. *)
Definition granted (os : os_outcome) (b : WriteLeaseBoard) (w : lock_files) (ps : region)
    (holder : pystr) (l : WriteLease) (b' : WriteLeaseBoard) (w' : lock_files) : Prop :=
  let path := (lease_dir b, _digest ps) in
  l = mkLease ps holder path true true false ∧
  b' = mkBoard (lease_dir b) (dset ps holder (held b)) ∧
  lf_locked w' = path :: lf_locked w ∧ path ∉ lf_locked w ∧
  (∀ r, r ∈ dkeys (held b) → regions_overlap r ps = false).

Lemma write_holder_locked os p h w r w' :
  write_holder os p h w = (r, w') →
  lf_locked w' = match r with Ok _ => lf_locked w | Err _ => lf_locked (unlock p w) end.
Proof. unfold write_holder. intros. by repeat (case_match; simplify_eq/=). Qed.

Lemma unlock_fresh p w : p ∉ lf_locked w → filter (λ q, q ≠ p) (p :: lf_locked w) = lf_locked w.
Proof.
  intros H. rewrite filter_cons_False by naive_solver.
  assert (Hf : Forall (λ q, q ≠ p) (lf_locked w)) by (apply Forall_forall; naive_solver).
  clear H. induction Hf as [|q l Hq _ IH]; [done|]. rewrite filter_cons_True by done. by rewrite IH.
Qed.

Lemma acquire_locked_spec os b w ps h r b' w' :
  acquire_locked os b w ps h = (r, b', w') →
  match r with
  | Ok l => granted os b w ps h l b' w'
  | Err _ => b' = b ∧ lf_locked w' = lf_locked w
  end.
Proof.
  unfold acquire_locked. destruct (first_overlap ps (held b)) as [[e o]|] eqn:Ef.
  { intros; by simplify_eq. }
  set (path := (lease_dir b, _digest ps)).
  destruct (_prepare_lease_directory os;; _open_lock_file os path w) as [w1|e] eqn:Hopen;
    [|intros; by simplify_eq].
  assert (H1 : lf_locked w1 = lf_locked w).
  { unfold _open_lock_file in Hopen. res Hopen. subst. by case_match. }
  destruct (_acquire_file_lock os path w1) as [w2|e] eqn:Hlock.
  2: { destruct e; intros; by simplify_eq. }
  unfold _acquire_file_lock in Hlock.
  apply bind_ok in Hlock as ([] & Hni & Hlock). apply bind_ok in Hlock as ([] & _ & Hlock).
  injection Hlock as <-. rewrite raise_if_ok, bool_decide_eq_false in Hni.
  destruct (write_holder os path h _) as [r0 w3] eqn:Hw.
  pose proof (write_holder_locked _ _ _ _ _ _ Hw) as H3. cbn in H3.
  rewrite H1 in *. destruct r0 as [t|e]; intros; simplify_eq.
  - split_and!; try done. by apply first_overlap_none.
  - split; [done|]. rewrite H3. by apply unlock_fresh.
Qed.

Lemma acquire_spec os b w reg h r b' w' :
  acquire os b w reg h = (r, b', w') →
  match r with
  | Ok l => ∃ ps holder, normalize_region reg = Ok ps ∧ check_holder h = Ok holder ∧
                         granted os b w ps holder l b' w'
  | Err _ => b' = b ∧ lf_locked w' = lf_locked w
  end.
Proof.
  unfold acquire. destruct (normalize_region reg) as [ps|e] eqn:Ep; cbn;
    [|intros; by simplify_eq].
  destruct (check_holder h) as [hd|e] eqn:Eh; cbn; [|intros; by simplify_eq].
  intros H%acquire_locked_spec. destruct r; [|done]. by exists ps, hd.
Qed.

Lemma granted_fresh b ps :
  (∀ r, r ∈ dkeys (held b) → regions_overlap r ps = false) → dget ps (held b) = None.
Proof.
  intros H. apply dget_None. intros Hin%H.
  assert (regions_overlap ps ps = true) by (apply regions_overlap_iff; by left). congruence.
Qed.

Lemma held_disjoint_app h ps o :
  held_disjoint h → (∀ r, r ∈ dkeys h → regions_overlap r ps = false) →
  dget ps h = None → held_disjoint (h ++ [(ps, o)]).
Proof.
  intros [Hnd Hd] Hfree Hnone. apply dget_None in Hnone.
  unfold held_disjoint, dkeys in *. rewrite fmap_app. cbn. split.
  - apply NoDup_app. split_and!; [done| |apply NoDup_singleton].
    intros x Hx ->%list_elem_of_singleton. done.
  - intros a b. rewrite !elem_of_app, !list_elem_of_singleton.
    intros [Ha| ->] [Hb| ->] Ho; [auto| | |done].
    + apply Hfree in Ha. congruence.
    + rewrite regions_overlap_sym in Ho. apply Hfree in Hb. congruence.
Qed.

Lemma granted_proc p os w ps h l b' w' :
  use_ok p → granted os (p_board p) w ps h l b' w' →
  use_ok (mkBoardUse b' (l :: p_leases p)) ∧
  live_paths (mkBoardUse b' (l :: p_leases p)) = (lease_dir (p_board p), _digest ps) :: live_paths p.
Proof.
  intros [Hh Hd Hl] (-> & -> & _ & _ & Hfree).
  pose proof (granted_fresh _ _ Hfree) as Hnone.
  unfold live_paths. cbn. rewrite dset_fresh by done.
  split; [|done].
  constructor; cbn.
  - rewrite Permutation_app_comm. cbn. by rewrite Hh.
  - by apply held_disjoint_app.
  - by constructor.
Qed.

(** Replacing a live element of a list by a dead one removes it from the live
    elements. *)
Lemma filter_kill {A} (P : A → Prop) `{∀ x, Decision (P x)} (ls : list A) k l l' :
  ls !! k = Some l → P l → ¬ P l' → filter P ls ≡ₚ l :: filter P (<[k := l']> ls).
Proof.
  revert k. induction ls as [|x ls IH]; intros [|k] Hk Hp Hn; simplify_eq/=.
  - rewrite !filter_cons, decide_True, decide_False by done. done.
  - change (<[S k := l']> (x :: ls)) with (x :: <[k := l']> ls).
    rewrite !filter_cons. destruct (decide (P x)).
    + rewrite (IH k) by done. constructor.
    + by apply IH.
Qed.

Lemma ddel_perm {K V} `{EqDecision K} (k : K) (v : V) d rest :
  NoDup (dkeys d) → d ≡ₚ (k, v) :: rest → ddel k d ≡ₚ rest.
Proof.
  intros Hnd Hp.
  assert (Hnd' : NoDup (k :: rest.*1)).
  { change (NoDup (((k, v) :: rest).*1)). by rewrite <-Hp. }
  apply NoDup_cons in Hnd' as [Hni Hnd'].
  assert (Hf : ∀ e : list (K * V), ddel k e = filter (λ p : K * V, p.1 ≠ k) e).
  { clear. induction e as [|[k' v'] e IH]; [done|]. rewrite filter_cons. cbn [ddel fst].
    rewrite IH. repeat case_decide; naive_solver. }
  rewrite Hf, Hp, filter_cons_False by naive_solver.
  clear -Hni. induction rest as [|[k' v'] rest IH]; [done|]. cbn in Hni.
  rewrite filter_cons_True by (cbn; set_solver). rewrite IH by set_solver. done.
Qed.

Lemma released_proc p k l l' b' w w' :
  use_ok p → p_leases p !! k = Some l → live l → release l (p_board p) w = (l', b', w') →
  use_ok (mkBoardUse b' (<[k := l']> (p_leases p))) ∧
  live_paths p ≡ₚ l_path l :: live_paths (mkBoardUse b' (<[k := l']> (p_leases p))) ∧
  w' = unlock (l_path l) w ∧ ddel (l_region l) (held (p_board p)) = held b' ∧
  lease_dir b' = lease_dir (p_board p).
Proof.
  intros [Hh Hd Hl] Hk Hlive. unfold release. rewrite Hlive.
  assert (Hin : l ∈ filter live (p_leases p)).
  { apply list_elem_of_filter. split; [done|]. by eapply list_elem_of_lookup_2. }
  destruct (proj1 (Forall_forall _ _) Hl l Hin) as (-> & -> & Hpath).
  intros [= <- <- <-].
  set (l' := mkLease _ _ _ _ _ _).
  assert (Hkill := filter_kill live (p_leases p) k l l' Hk Hlive (Bool.eq_true_false_abs _ eq_refl)).
  rewrite Hkill in Hh. cbn in Hh.
  assert (Hget : dget (l_region l) (held (p_board p)) = Some (l_holder l)).
  { apply elem_dget; [by destruct Hd|]. rewrite Hh. constructor. }
  unfold _discard. rewrite Hget, bool_decide_eq_true_2 by done. cbn.
  assert (Hdel := ddel_perm _ _ _ _ (proj1 Hd) Hh).
  split_and!; try done; [|by unfold live_paths; rewrite Hkill].
  constructor; cbn.
  - done.
  - destruct Hd as [Hnd Hov]. split; [by apply ddel_NoDup|].
    intros a b [? _]%elem_dkeys_ddel [? _]%elem_dkeys_ddel. auto.
  - rewrite Hkill in Hl. by apply Forall_cons in Hl as [_ Hl].
Qed.

Lemma concat_insert {A B} (f : A → list B) (ls : list A) i x y :
  ls !! i = Some x →
  ∃ rest, concat (f <$> ls) ≡ₚ f x ++ rest ∧ concat (f <$> <[i := y]> ls) ≡ₚ f y ++ rest.
Proof.
  revert i. induction ls as [|z ls IH]; intros [|i] Hi; simplify_eq/=.
  - by eexists.
  - destruct (IH i Hi) as (rest & H1 & H2). exists (f z ++ rest).
    rewrite H1, H2. split; apply Permutation_app_swap_app.
Qed.

Lemma unlock_head p w rest :
  NoDup (lf_locked w) → lf_locked w ≡ₚ p :: rest →
  lf_locked (unlock p w) ≡ₚ rest ∧ NoDup (lf_locked (unlock p w)).
Proof.
  intros Hnd Hp. split; [|by apply NoDup_filter].
  rewrite Hp in Hnd. apply NoDup_cons in Hnd as [Hni Hnd]. cbn. rewrite Hp.
  rewrite filter_cons_False by naive_solver.
  clear -Hni. induction rest as [|q rest IH]; [done|].
  rewrite filter_cons_True by set_solver. rewrite IH by set_solver. done.
Qed.

Lemma sys_step_ok s op : sys_ok s → sys_ok (sys_step s op).
Proof.
  intros [Hp Hl Hn]. destruct op as [i os reg h|i k]; cbn;
    (destruct (sys_boards s !! i) as [p|] eqn:Ei; [|done]);
    assert (Hpi := proj1 (Forall_lookup _ _) Hp i p Ei).
  - destruct (acquire os (p_board p) (sys_files s) reg h) as [[r b'] w'] eqn:Ea.
    apply acquire_spec in Ea. destruct r as [l|e].
    + destruct Ea as (ps & hd & _ & _ & Hg). destruct (granted_proc _ _ _ _ _ _ _ _ Hpi Hg) as [Hok Hpaths].
      destruct Hg as (_ & _ & Hlock & Hfresh & _).
      destruct (concat_insert live_paths _ _ _ (mkBoardUse b' (l :: p_leases p)) Ei) as (rest & H1 & H2).
      constructor; cbn.
      * by apply Forall_insert.
      * rewrite H2, Hpaths, Hlock, Hl, H1. done.
      * rewrite Hlock. by constructor.
    + destruct Ea as [-> Hlock].
      replace (mkBoardUse (p_board p) (p_leases p)) with p by (by destruct p).
      rewrite list_insert_id by done. constructor; cbn; rewrite ?Hlock; done.
  - destruct (p_leases p !! k) as [l|] eqn:Ek; [|done].
    destruct (release l (p_board p) (sys_files s)) as [[l' b'] w'] eqn:Er.
    destruct (decide (live l)) as [Hlive|Hdead].
    + destruct (released_proc _ _ _ _ _ _ _ Hpi Ek Hlive Er) as (Hok & Hpaths & -> & _ & _).
      destruct (concat_insert live_paths _ _ _ (mkBoardUse b' (<[k:=l']> (p_leases p))) Ei) as (rest & H1 & H2).
      rewrite H1, Hpaths in Hl. cbn in Hl.
      destruct (unlock_head _ _ _ Hn Hl) as [Hl' Hn'].
      constructor; cbn; [by apply Forall_insert|by rewrite Hl', H2|done].
    + unfold live in Hdead. apply not_false_is_true in Hdead.
      unfold release in Er. rewrite Hdead in Er. injection Er as <- <- <-.
      rewrite (list_insert_id (p_leases p)) by done.
      replace (mkBoardUse (p_board p) (p_leases p)) with p by (by destruct p).
      by rewrite list_insert_id by done.
Qed.

Lemma sys_init_ok files dirs : sys_ok (sys_init files dirs).
Proof.
  constructor; cbn.
  - apply Forall_fmap, Forall_true. intros d. constructor; cbn.
    + done.
    + split; [constructor|]. intros a b Ha. by apply elem_of_nil in Ha.
    + constructor.
  - induction dirs; done.
  - constructor.
Qed.

Lemma sys_run_ok s ops : sys_ok s → sys_ok (sys_run s ops).
Proof. revert s. induction ops as [|op ops IH]; intros s Hs; [done|]. by apply IH, sys_step_ok. Qed.

Lemma elem_concat_fmap {A B} (f : A → list B) (ls : list A) i x v :
  ls !! i = Some x → v ∈ f x → v ∈ concat (f <$> ls).
Proof.
  intros Hi Hv. apply list_elem_of_In, in_concat. exists (f x).
  split; [|by apply list_elem_of_In].
  apply list_elem_of_In, list_elem_of_fmap. exists x. split; [done|].
  by eapply list_elem_of_lookup_2.
Qed.

Lemma concat_index {A B} (f : A → list B) (ls : list A) i j x y v :
  NoDup (concat (f <$> ls)) → ls !! i = Some x → ls !! j = Some y → v ∈ f x → v ∈ f y → i = j.
Proof.
  revert i j. induction ls as [|z ls IH]; intros [|i] [|j] Hnd Hi Hj Hx Hy; simplify_eq/=; [done| | |].
  1,2: apply NoDup_app in Hnd as (_ & Hd & _); exfalso; eapply Hd; [eassumption|];
       by eapply elem_concat_fmap.
  apply NoDup_app in Hnd as (_ & _ & Hnd). f_equal. by eapply IH.
Qed.

Lemma filter_index {A B} (g : A → B) (P : A → Prop) `{∀ x, Decision (P x)} (ls : list A) k m a b :
  NoDup (g <$> filter P ls) → ls !! k = Some a → ls !! m = Some b → P a → P b → g a = g b → k = m.
Proof.
  revert k m. induction ls as [|z ls IH]; intros [|k] [|m] Hnd Hk Hm Ha Hb Hg; simplify_eq/=; [done| | |].
  1,2: rewrite filter_cons_True in Hnd by done; cbn in Hnd; apply NoDup_cons in Hnd as [Hni _].
  1,2: exfalso; apply Hni, list_elem_of_fmap.
  1: exists b. 2: exists a.
  1,2: split; [by rewrite ?Hg|]; apply list_elem_of_filter; split; [done|];
       by eapply list_elem_of_lookup_2.
  - f_equal. eapply IH; try done. rewrite filter_cons in Hnd.
    destruct (decide (P z)); [|done]. by apply NoDup_cons in Hnd as [_ ?].
Qed.

Lemma live_lease_held p k l :
  use_ok p → p_leases p !! k = Some l → live l →
  l_path l ∈ live_paths p ∧ l_region l ∈ dkeys (held (p_board p)) ∧
  l_path l = (lease_dir (p_board p), _digest (l_region l)).
Proof.
  intros [Hh _ Hl] Hk Hlive.
  assert (Hin : l ∈ filter live (p_leases p)).
  { apply list_elem_of_filter. split; [done|]. by eapply list_elem_of_lookup_2. }
  split_and!.
  - apply list_elem_of_fmap. by exists l.
  - unfold dkeys. rewrite Hh. apply list_elem_of_fmap. exists (l_region l, l_holder l).
    split; [done|]. apply list_elem_of_fmap. by exists l.
  - by apply (proj1 (Forall_forall _ _) Hl l Hin).
Qed.

(** ** Properties *)

(** C18: in every run of any number of boards, whether of one process or of
    several, in any interleaving of acquisitions and releases and whatever the
    operating system answers, two distinct live leases never share a lock file;
    the regions of two leases granted by one board do not overlap, and two
    boards on the same directory never grant the same region.  (Two boards may
    grant overlapping regions: [cross_board_overlap_granted].) *)
Theorem leases_exclusive files dirs ops i j k m p q a b :
  sys_boards (sys_run (sys_init files dirs) ops) !! i = Some p →
  sys_boards (sys_run (sys_init files dirs) ops) !! j = Some q →
  p_leases p !! k = Some a → p_leases q !! m = Some b → live a → live b → (i, k) ≠ (j, m) →
  l_path a ≠ l_path b ∧
  (i = j → regions_overlap (l_region a) (l_region b) = false) ∧
  (lease_dir (p_board p) = lease_dir (p_board q) → l_region a ≠ l_region b).
Proof.
  destruct (sys_run_ok _ ops (sys_init_ok files dirs)) as [Hp Hl Hn].
  intros Hi Hj Hk Hm Ha Hb Hne.
  assert (Hpi := proj1 (Forall_lookup _ _) Hp i p Hi).
  assert (Hqj := proj1 (Forall_lookup _ _) Hp j q Hj).
  destruct (live_lease_held p k a Hpi Hk Ha) as (Hia & Hra & Hpa).
  destruct (live_lease_held q m b Hqj Hm Hb) as (Hib & Hrb & Hpb).
  rewrite Hl in Hn.
  assert (Hpath : l_path a ≠ l_path b).
  { intros E. rewrite E in Hia.
    assert (i = j) as <- by by eapply (concat_index live_paths).
    rewrite Hi in Hj. injection Hj as <-. apply Hne. f_equal.
    eapply (filter_index l_path live (p_leases p)); try done.
    destruct (concat_insert live_paths _ _ _ p Hi) as (rest & Hc & _).
    rewrite Hc in Hn. by apply NoDup_app in Hn as (? & _). }
  split_and!; [done| |congruence].
  intros <-. rewrite Hi in Hj. injection Hj as <-.
  destruct (regions_overlap (l_region a) (l_region b)) eqn:E; [|done].
  destruct Hpi as [_ [_ Hd] _]. apply Hd in E; [congruence|done|done].
Qed.

(** A release undoes its acquisition: the table and the locks are again what
    they were, and releasing a second time changes nothing. *)
Theorem release_restores os b w reg h l b' w' :
  acquire os b w reg h = (Ok l, b', w') →
  ∃ l' w'', release l b' w' = (l', b, w'') ∧ lf_locked w'' = lf_locked w ∧ l_released l' = true ∧
            ∀ b2 w2, release l' b2 w2 = (l', b2, w2).
Proof.
  intros H%acquire_spec. destruct H as (ps & hd & _ & _ & -> & -> & Hlock & Hfresh & Hfree).
  pose proof (granted_fresh _ _ Hfree) as Hnone.
  eexists _, _. unfold release, _discard. cbn. rewrite dget_dset_eq, bool_decide_eq_true_2 by done.
  rewrite ddel_dset by done. split_and!; [by destruct b| |done|done].
  cbn. rewrite Hlock. by apply unlock_fresh.
Qed.

(** [acquire] on a well-formed region and holder: an overlapping region in
    the table refuses it and names a region and holder it overlaps; else a lock
    held elsewhere refuses it; else, when the system calls succeed, it is
    granted. A refusal leaves the table and the locks as they were. *)
Theorem acquire_decides os b w reg h ps holder :
  normalize_region reg = Ok ps → check_holder h = Ok holder →
  let path := (lease_dir b, _digest ps) in
  match acquire os b w reg h with
  | (Err (LeaseBusy r o), b', w') =>
      b' = b ∧ lf_locked w' = lf_locked w ∧
      (((r, o) ∈ held b ∧ regions_overlap r ps = true) ∨ (r = ps ∧ path ∈ lf_locked w))
  | (Err _, b', w') => b' = b ∧ lf_locked w' = lf_locked w ∧
      (os ≠ os_ok ∨ utf8_encodable holder = false)
  | (Ok l, b', w') =>
      l_region l = ps ∧ l_holder l = holder ∧ (ps, holder) ∈ held b' ∧ path ∈ lf_locked w' ∧
      path ∉ lf_locked w ∧ ∀ r, r ∈ dkeys (held b) → regions_overlap r ps = false
  end.
Proof.
  intros Hp Hh path. destruct (acquire os b w reg h) as [[r b'] w'] eqn:Ea.
  pose proof (acquire_spec _ _ _ _ _ _ _ _ Ea) as Hs.
  unfold acquire in Ea. rewrite Hp, Hh in Ea. cbn in Ea.
  destruct r as [l|e].
  - destruct Hs as (ps' & hd' & Hp' & Hh' & -> & -> & Hlock & Hfresh & Hfree).
    rewrite Hp in Hp'. rewrite Hh in Hh'. simplify_eq.
    rewrite Hlock. cbn. split_and!; try done; [|constructor].
    apply dget_Some_elem, dget_dset_eq.
  - destruct Hs as [-> Hlock]. unfold acquire_locked in Ea. fold path in Ea.
    destruct (first_overlap ps (held b)) as [[r0 o0]|] eqn:Ef.
    { simplify_eq. apply first_overlap_some in Ef. auto. }
    clear Ef. unfold _prepare_lease_directory, _open_lock_file, _acquire_file_lock, raise_if in Ea.
    destruct (os_prepare os) eqn:E1; cbn in Ea; [|simplify_eq; split_and!; [done|done|left; by intros ->]].
    destruct (os_open os) eqn:E2; cbn in Ea; [|simplify_eq; split_and!; [done|done|left; by intros ->]].
    case_bool_decide as Hin; cbn in Ea.
    { simplify_eq. split_and!; try done. right. split; [done|]. by case_match. }
    destruct (os_lock os) eqn:E3; cbn in Ea; [|simplify_eq; split_and!; [done|done|left; by intros ->]].
    unfold write_holder in Ea.
    repeat (case_match; simplify_eq/=).
    all: split_and!; [done|done|].
    all: first [left; by intros ->|right; by apply negb_true_iff].
Qed.

Lemma segment_char_clean c : segment_char c = true → c ≠ slash ∧ c ≠ newline.
Proof.
  intros H. split; intros ->; discriminate H.
Qed.

Lemma segment_no_slash p : _SEGMENT_RE p = true → slash ∉ p.
Proof.
  assert (Hc : ∀ t, full_cls segment_char 1 None t = true → slash ∉ t).
  { intros t (_ & _ & Ht)%full_cls_spec Hin. rewrite Forall_forall in Ht. by apply Ht in Hin. }
  intros [?|(t & -> & ?)]%dollar_spec; [auto|].
  rewrite elem_of_app. intros [?|Hn%list_elem_of_singleton]; [by eapply Hc|discriminate Hn].
Qed.

Lemma omap_as_str (l : list pyval) : Forall (λ v, ∃ s, v = PyStr s) l → PyStr <$> omap as_str l = l.
Proof. induction 1 as [|v l [s ->] _ IH]; [done|]. cbn. by f_equal. Qed.

Lemma omap_PyStr (ps : list pystr) : omap as_str (PyStr <$> ps) = ps.
Proof. induction ps as [|p ps IH]; [done|]. cbn. by f_equal. Qed.

(** A normalised region is non-empty; no segment is empty, a dot segment or
    contains a separator, so appended to a directory it cannot leave it; it
    touches no control-plane name; and normalising it again gives it back. *)
Theorem normalize_region_sound v ps :
  normalize_region v = Ok ps →
  ps ≠ [] ∧
  Forall (λ p, p ≠ [] ∧ p ≠ u "." ∧ p ≠ u ".." ∧ slash ∉ p ∧ _SEGMENT_RE p = true) ps ∧
  Forall (λ m, contains m (join [slash] ps) = false) _CONTROL_PLANE_MARKERS ∧
  split_on slash (join [slash] ps) = ps ∧
  normalize_region (PyTuple (PyStr <$> ps)) = Ok ps.
Proof.
  unfold normalize_region. rewrite bind_ok. intros (l & _ & H).
  apply bind_ok in H as ([] & Hne%raise_if_ok & H).
  apply bind_ok in H as ([] & Hok%raise_if_ok & H).
  apply bind_ok in H as ([] & Hm%raise_if_ok & [= <-]).
  rewrite bool_decide_eq_false in Hne. rewrite negb_false_iff, forallb_Forall in Hok.
  assert (Hl : PyStr <$> omap as_str l = l).
  { apply omap_as_str. eapply Forall_impl; [exact Hok|]. intros []; naive_solver. }
  set (ps := omap as_str l) in *. rewrite <-Hl in Hok, Hne.
  assert (Hsegs : Forall (λ p, p ≠ [] ∧ p ≠ u "." ∧ p ≠ u ".." ∧ slash ∉ p ∧ _SEGMENT_RE p = true) ps).
  { apply Forall_fmap in Hok. eapply Forall_impl; [exact Hok|]. cbn. intros p.
    rewrite andb_true_iff, negb_true_iff, bool_decide_eq_false. intros [Hin Hre].
    rewrite !elem_of_cons in Hin. split_and!; try done; [naive_solver..|by apply segment_no_slash]. }
  split_and!.
  - intros E. by rewrite E in Hne.
  - done.
  - by apply existsb_none.
  - apply split_join; [intros E; by rewrite E in Hne|].
    eapply Forall_impl; [exact Hsegs|]. intros p (? & ? & _ & ? & _). by repeat split.
  - apply bind_ok. exists (PyStr <$> ps). split; [done|].
    apply bind_ok. exists tt. rewrite raise_if_ok, bool_decide_eq_false. split; [done|].
    apply bind_ok. exists tt. rewrite raise_if_ok, negb_false_iff, forallb_Forall. split; [done|].
    apply bind_ok. exists tt. rewrite omap_PyStr, raise_if_ok. done.
Qed.

Definition lease_root : Path := Path_of_str (u "/tmp/leases").

(** The lock file of a region is named by that exact region, so two boards on
    one directory, of two processes or of two teams of one process, do grant
    overlapping regions ([src] and [src/api]) at the same time, while one board
    refuses the second. *)
Theorem cross_board_overlap_granted :
  let ops i := [ OpAcquire 0 os_ok (PyStr (u "src")) (PyStr (u "executor#t#1"));
                 OpAcquire i os_ok (PyStr (u "src/api")) (PyStr (u "executor#t#2")) ] in
  let held_by s i := (λ p, dkeys (held (p_board p))) <$> sys_boards s !! i in
  let two := sys_run (sys_init [] [lease_root; lease_root]) (ops 1) in
  let one := sys_run (sys_init [] [lease_root; lease_root]) (ops 0) in
  regions_overlap [u "src"] [u "src"; u "api"] = true ∧
  held_by two 0 = Some [[u "src"]] ∧ held_by two 1 = Some [[u "src"; u "api"]] ∧
  held_by one 0 = Some [[u "src"]].
Proof. cbv zeta. split_and!; vm_compute; reflexivity. Qed.

(** A segment may end in a newline: [_SEGMENT_RE.match] with [$]. *)
Example newline_segment_accepted :
  normalize_region (PyStr (u "a" ++ [newline] ++ u "/b")) = Ok [u "a" ++ [newline]; u "b"].
Proof. vm_compute. reflexivity. Qed.

(** ** Witnesses *)
Definition three_acquires : list lease_op :=
  [ OpAcquire 0 os_ok (PyStr (u "src")) (PyStr (u "a"));
    OpAcquire 1 os_ok (PyStr (u "doc")) (PyStr (u "b"));
    OpAcquire 0 os_ok (PyStr (u "lib")) (PyStr (u "c")) ].
Definition three_leases : system := sys_run (sys_init [] [lease_root; lease_root]) three_acquires.

Definition lease_of (i k : nat) : WriteLease :=
  default (mkLease [] [] (lease_root, []) false false true)
    (sys_boards three_leases !! i ≫= λ p, p_leases p !! k).
Definition use_of (i : nat) : board_use := default (mkBoardUse (mkBoard lease_root []) []) (sys_boards three_leases !! i).

Lemma leases_exclusive_witness :
  l_path (lease_of 0 0) ≠ l_path (lease_of 0 1) ∧
  (0 = 0 → regions_overlap (l_region (lease_of 0 0)) (l_region (lease_of 0 1)) = false) ∧
  (lease_dir (p_board (use_of 0)) = lease_dir (p_board (use_of 0)) →
   l_region (lease_of 0 0) ≠ l_region (lease_of 0 1)).
Proof.
  apply (leases_exclusive [] [lease_root; lease_root] three_acquires 0 0 0 1
           (use_of 0) (use_of 0) (lease_of 0 0) (lease_of 0 1));
    [vm_compute; reflexivity..|done].
Defined.

Definition empty_board : WriteLeaseBoard := mkBoard lease_root [].
Definition no_files : lock_files := mkLockFiles [] [].
Definition src_lease : WriteLease :=
  mkLease [u "src"] (u "a") (lease_root, _digest [u "src"]) true true false.

Lemma release_restores_witness :
  ∃ l' w'', release src_lease (mkBoard lease_root [([u "src"], u "a")])
              (mkLockFiles [((lease_root, _digest [u "src"]), u "a")] [(lease_root, _digest [u "src"])])
            = (l', empty_board, w'') ∧ lf_locked w'' = [] ∧ l_released l' = true ∧
            ∀ b2 w2, release l' b2 w2 = (l', b2, w2).
Proof.
  apply (release_restores os_ok empty_board no_files (PyStr (u "src")) (PyStr (u "a"))).
  vm_compute. reflexivity.
Defined.

Lemma acquire_decides_witness :
  match acquire os_ok empty_board no_files (PyStr (u "src")) (PyStr (u "a")) with
  | (Ok l, b', w') => l_region l = [u "src"] ∧ l_holder l = u "a"
  | _ => False
  end.
Proof.
  pose proof (acquire_decides os_ok empty_board no_files (PyStr (u "src")) (PyStr (u "a")) [u "src"] (u "a")
                eq_refl eq_refl) as H.
  cbv zeta in H.
  destruct (acquire os_ok empty_board no_files (PyStr (u "src")) (PyStr (u "a"))) as [[[l|e] b'] w'] eqn:E.
  - clear E. destruct H as (? & ? & _). split; assumption.
  - vm_compute in E. discriminate E.
Defined.

Lemma normalize_region_sound_witness :
  normalize_region (PyTuple (PyStr <$> [u "src"; u "api.py"])) = Ok [u "src"; u "api.py"].
Proof.
  apply (normalize_region_sound (PyStr (u " src\api.py/")) [u "src"; u "api.py"]).
  vm_compute. reflexivity.
Defined.
