(* ===== verification/NetworkLease.v ===== *)
(** * Temporary network leases ([src/src/icode/network_lease.py])

    The signed lease with its validation, the authority that asks for approval,
    signs, verifies and revokes, and the closing of active connections.  Every
    block the source runs under the authority's lock is one definition on the
    authority's state; the calls between the blocks (approval, close and release
    callbacks, waits) are events, and [auth_step] interleaves any number of
    threads at that granularity. *)

From S2P Require Import Prelude PyText PyVal Hashing Json Paths SandboxPolicy.

#[global] Arguments hmac_hex : simpl never.
#[global] Arguments dumps : simpl never.

Definition NLE (msg : string) : exn := NetworkLeaseValidationError msg.

Definition NETWORK_LEASE_SCHEMA_VERSION : Z := 2.
Definition NANOSECONDS_PER_SECOND : Z := 1000000000.
Definition MAX_NETWORK_LEASE_TTL_SECONDS : Z := 15 * 60.
Definition MAX_NETWORK_LEASE_TTL_NS : Z := MAX_NETWORK_LEASE_TTL_SECONDS * NANOSECONDS_PER_SECOND.
Definition MAX_NETWORK_LEASE_DOMAINS : nat := 32.
Definition HTTPS_PORT : Z := 443.

Inductive NetworkPurpose := PACKAGE_INSTALL | WEB_READ.
#[export] Instance NetworkPurpose_eq_dec : EqDecision NetworkPurpose.
Proof. solve_decision. Defined.
Definition purpose_value (p : NetworkPurpose) : pystr :=
  match p with PACKAGE_INSTALL => u "package_install" | WEB_READ => u "web_read" end.

(** ** The lease *)
Record NetworkLease := mkNetworkLease {
  nl_schema_version : Z;
  nl_lease_id : pystr;
  nl_approval_id : pystr;
  nl_run_id : pystr;
  nl_ticket_id : pystr;
  nl_step : pystr;
  nl_policy_hash : pystr;
  nl_purpose : NetworkPurpose;
  nl_allowed_domains : list pystr;
  nl_port : Z;
  nl_issued_at : Z;
  nl_expires_at : Z;
  nl_generation : Z
}.
#[export] Instance NetworkLease_eq_dec : EqDecision NetworkLease.
Proof. solve_decision. Defined.

(** The constructor's arguments, of any class; [None] is an object that is not
    a [NetworkPurpose]. *)
Record lease_fields := mkLeaseFields {
  lf_schema_version : pyval; lf_lease_id : pyval; lf_approval_id : pyval; lf_run_id : pyval;
  lf_ticket_id : pyval; lf_step : pyval; lf_policy_hash : pyval;
  lf_purpose : option NetworkPurpose; lf_allowed_domains : pyval; lf_port : pyval;
  lf_issued_at : pyval; lf_expires_at : pyval; lf_generation : pyval
}.

Definition need_int (v : pyval) : result Z :=
  match v with PyInt z => Ok z | _ => Err (NLE "must be an integer") end.
Definition need_str (v : pyval) : result pystr :=
  match v with PyStr s => Ok s | _ => Err (NLE "must be a string") end.
Definition need_str_tuple (v : pyval) : result (list pystr) :=
  match v with
  | PyTuple l => match all_strs l with
                 | Some ss => Ok ss
                 | None => Err (NLE "allowed_domains must be a tuple of strings")
                 end
  | _ => Err (NLE "allowed_domains must be a tuple of strings")
  end.

(** On the arguments; a built [NetworkLease] has these types. *)
Definition _validate_declared_types (f : lease_fields) : result NetworkLease :=
  v ← need_int (lf_schema_version f);
  lid ← need_str (lf_lease_id f);
  aid ← need_str (lf_approval_id f);
  rid ← need_str (lf_run_id f);
  tid ← need_str (lf_ticket_id f);
  st ← need_str (lf_step f);
  ph ← need_str (lf_policy_hash f);
  p ← match lf_purpose f with
      | Some p => Ok p
      | None => Err (NLE "purpose must be a NetworkPurpose")
      end;
  ds ← need_str_tuple (lf_allowed_domains f);
  port ← need_int (lf_port f);
  ia ← need_int (lf_issued_at f);
  ea ← need_int (lf_expires_at f);
  g ← need_int (lf_generation f);
  Ok (mkNetworkLease v lid aid rid tid st ph p ds port ia ea g).

Definition scope_text_ok (s : pystr) : bool := utf8_encodable s && negb (blank_or_control s).

Definition lease_validate (l : NetworkLease) : result unit :=
  raise_if (negb (nl_schema_version l =? NETWORK_LEASE_SCHEMA_VERSION)%Z)
    (NLE "unsupported network lease schema_version");;
  raise_if (negb (is_hex32 (nl_lease_id l))) (NLE "lease_id must be 32 lowercase hex characters");;
  raise_if (is_empty_str (nl_approval_id l) || (256 <? length (nl_approval_id l)))
    (NLE "approval_id must be non-blank and bounded");;
  raise_if (negb (forallb scope_text_ok [nl_approval_id l; nl_run_id l; nl_ticket_id l; nl_step l]))
    (NLE "must be non-blank UTF-8 text without ASCII control characters");;
  raise_if (negb (is_hex64 (nl_policy_hash l)))
    (NLE "policy_hash must be a lowercase SHA-256 hex digest");;
  raise_if (bool_decide (nl_allowed_domains l = [])
            || negb (forallb is_exact_dns_hostname (nl_allowed_domains l)))
    (NLE "allowed_domains must contain exact ASCII DNS hostnames");;
  raise_if (MAX_NETWORK_LEASE_DOMAINS <? length (nl_allowed_domains l))
    (NLE "a network lease may contain at most 32 domains");;
  raise_if (negb (nl_port l =? HTTPS_PORT)%Z)
    (NLE "temporary network leases currently require HTTPS port 443");;
  raise_if (nl_issued_at l <=? 0)%Z (NLE "issued_at_monotonic_ns must be positive");;
  raise_if (nl_expires_at l <=? nl_issued_at l)%Z (NLE "lease expiry must follow its issue time");;
  raise_if (MAX_NETWORK_LEASE_TTL_NS <? nl_expires_at l - nl_issued_at l)%Z
    (NLE "network lease lifetime exceeds 15 minutes");;
  raise_if (nl_generation l <=? 0)%Z (NLE "generation must be a positive integer").

(** [NetworkLease(...)]: types, [__post_init__]'s domain normal form, validation. *)
Definition NetworkLease_new (f : lease_fields) : result NetworkLease :=
  t ← _validate_declared_types f;
  let l := mkNetworkLease (nl_schema_version t) (nl_lease_id t) (nl_approval_id t) (nl_run_id t)
             (nl_ticket_id t) (nl_step t) (nl_policy_hash t) (nl_purpose t)
             (normalize_domains (nl_allowed_domains t)) (nl_port t) (nl_issued_at t)
             (nl_expires_at t) (nl_generation t) in
  lease_validate l;;
  Ok l.

Definition lease_payload (l : NetworkLease) : pyval :=
  PyDict [ (u "schema_version", PyInt (nl_schema_version l));
           (u "lease_id", PyStr (nl_lease_id l));
           (u "approval_id", PyStr (nl_approval_id l));
           (u "run_id", PyStr (nl_run_id l));
           (u "ticket_id", PyStr (nl_ticket_id l));
           (u "step", PyStr (nl_step l));
           (u "policy_hash", PyStr (nl_policy_hash l));
           (u "purpose", PyStr (purpose_value (nl_purpose l)));
           (u "allowed_domains", PyList (PyStr <$> nl_allowed_domains l));
           (u "port", PyInt (nl_port l));
           (u "issued_at_monotonic_ns", PyInt (nl_issued_at l));
           (u "expires_at_monotonic_ns", PyInt (nl_expires_at l));
           (u "generation", PyInt (nl_generation l)) ].

Record IssuedNetworkLease := mkIssued { lease : NetworkLease; signature : pystr }.
#[export] Instance IssuedNetworkLease_eq_dec : EqDecision IssuedNetworkLease.
Proof. solve_decision. Defined.

(** [IssuedNetworkLease(lease, signature)] *)
Definition IssuedNetworkLease_new (l : NetworkLease) (sig : pyval) : result IssuedNetworkLease :=
  match sig with
  | PyStr s => raise_if (negb (is_hex64 s)) (NLE "lease signature must be a SHA-256 HMAC hex digest");;
               Ok (mkIssued l s)
  | _ => Err (NLE "lease signature must be a SHA-256 HMAC hex digest")
  end.

(** The key a policy's run, ticket, step and digest give. *)
Definition policy_key : Type := pystr * pystr * pystr * pystr.

(** ** Approval requests ([approvals.ApprovalRequest]) *)
Record ApprovalRequest := mkApprovalRequest {
  apr_tool : pystr;
  apr_arguments : list (pystr * pyval);
  apr_reason : pystr;
  apr_opclass : pystr;
  apr_workspace : pystr
}.

(** ** Active connections

    A handle and the entry it names are objects with an identity; [h_obj] is
    that identity, so [is] is equality of handles. *)
Record handle := mkHandle { connection_id : pystr; h_obj : N }.
#[export] Instance handle_eq_dec : EqDecision handle.
Proof. solve_decision. Defined.

Record connection := mkConnection {
  c_handle : handle;
  c_key : policy_key;
  c_lease : NetworkLease;
  c_close : N;              (** the close callback, by identity *)
  c_release : option N;     (** the release callback *)
  c_pending : bool;
  c_closing : bool;
  c_complete : bool         (** [close_complete.is_set()] *)
}.
#[export] Instance connection_eq_dec : EqDecision connection.
Proof. solve_decision. Defined.

Definition set_closing (b : bool) (complete : bool) (e : connection) : connection :=
  mkConnection (c_handle e) (c_key e) (c_lease e) (c_close e) (c_release e) (c_pending e) b complete.

Record Authority := mkAuthority {
  au_key : list N;
  au_generations : list (policy_key * Z);
  au_revoking : gset policy_key;
  au_active : list (pystr * connection);
  au_next : N               (** the next object identity *)
}.

Definition Authority_init (key : list N) : Authority := mkAuthority key [] ∅ [] 0.

(** [self._generations.get(key, 1)] *)
Definition generation_of (a : Authority) (k : policy_key) : Z := default 1%Z (dget k (au_generations a)).

Definition set_active (a : Authority) (d : list (pystr * connection)) : Authority :=
  mkAuthority (au_key a) (au_generations a) (au_revoking a) d (au_next a).
Definition set_revoking (a : Authority) (r : gset policy_key) : Authority :=
  mkAuthority (au_key a) (au_generations a) r (au_active a) (au_next a).

(** The entry of a handle: the one stored under its id, if it is that object. *)
Definition entry_of (a : Authority) (h : handle) : option connection :=
  match dget (connection_id h) (au_active a) with
  | Some e => if decide (c_handle e = h) then Some e else None
  | None => None
  end.
Definition put_entry (e : connection) (a : Authority) : Authority :=
  set_active a (dset (connection_id (c_handle e)) e (au_active a)).
Definition del_entry (h : handle) (a : Authority) : Authority :=
  set_active a (ddel (connection_id h) (au_active a)).

(** ** Validation against a policy *)
Section policies.
Context `{FloatRepr}.

Definition deny_only (p : SandboxPolicy) : bool :=
  bool_decide (network_mode p = DENY) && bool_decide (allowed_domains p = []).

Definition validate_scope (l : NetworkLease) (p : SandboxPolicy) (purpose : option NetworkPurpose)
    (now current_generation : pyval) : result unit :=
  lease_validate l;;
  (if validate p is Err _ then Err (NLE "sandbox policy is invalid") else Ok tt);;
  raise_if (negb (deny_only p)) (NLE "network lease must overlay a deny-only sandbox policy");;
  raise_if (negb ((nl_run_id l =s run_id p) && (nl_ticket_id l =s ticket_id p)
                  && (nl_step l =s step p) && (nl_policy_hash l =s policy_hash p)))
    (NLE "network lease is bound to a different policy");;
  raise_if (negb (purpose =s Some (nl_purpose l))) (NLE "request purpose differs from the lease");;
  match as_exact_int now with
  | None => Err (NLE "now_monotonic_ns must be a non-negative integer")
  | Some t =>
    raise_if (t <? 0)%Z (NLE "now_monotonic_ns must be a non-negative integer");;
    raise_if (negb ((nl_issued_at l <=? t) && (t <? nl_expires_at l))%Z)
      (NLE "network lease is not currently active")
  end;;
  raise_if (negb (as_exact_int current_generation =s Some (nl_generation l)))
    (NLE "network lease generation was revoked or replaced").

Definition validate_request (l : NetworkLease) (p : SandboxPolicy) (purpose : option NetworkPurpose)
    (hostname port now current_generation : pyval) : result unit :=
  validate_scope l p purpose now current_generation;;
  match hostname with
  | PyStr h =>
    raise_if (negb (is_exact_dns_hostname h)) (NLE "request hostname must be an exact DNS hostname");;
    raise_if (negb (lower h ∈s nl_allowed_domains l))
      (NLE "request hostname is not authorized by the lease")
  | _ => Err (NLE "request hostname must be an exact DNS hostname")
  end;;
  raise_if (negb (as_exact_int port =s Some (nl_port l)))
    (NLE "request port is not authorized by the lease").

Definition canonical_payload (l : NetworkLease) : result pystr :=
  lease_validate l;;
  Ok (default [] (dumps ascii_canonical_opts (lease_payload l))).

Definition _policy_key (p : SandboxPolicy) : result policy_key :=
  (if validate p is Err _ then Err (NLE "sandbox policy is invalid") else Ok tt);;
  raise_if (negb (deny_only p)) (NLE "network leases require a deny-only sandbox policy");;
  Ok (run_id p, ticket_id p, step p, policy_hash p).

(** ** Asking for a lease

    The arguments are checked, the generation is read under the lock, the
    approver is asked, and the lease is built and signed under the lock. *)
Definition requested_domains (v : pyval) : result (list pystr) :=
  ds ← need_str_tuple v;
  raise_if (bool_decide (ds = []) || negb (forallb is_exact_dns_hostname ds))
    (NLE "requested domains must be exact ASCII DNS hostnames");;
  let normalized := sorted_set (λ d, d) (lower <$> ds) in
  raise_if (MAX_NETWORK_LEASE_DOMAINS <? length normalized)
    (NLE "a network lease may contain at most 32 domains");;
  Ok normalized.

Definition requested_ttl (v : pyval) : result Z :=
  match as_exact_int v with
  | Some t => raise_if (negb ((1 <=? t) && (t <=? MAX_NETWORK_LEASE_TTL_SECONDS))%Z)
                (NLE "ttl_seconds must be from 1 through 900");;
              Ok t
  | None => Err (NLE "ttl_seconds must be from 1 through 900")
  end.

(** The request as the second locked block needs it. *)
Record pending_request := mkPending {
  pr_policy : SandboxPolicy;
  pr_key : policy_key;
  pr_purpose : NetworkPurpose;
  pr_domains : list pystr;
  pr_ttl : Z;
  pr_generation : Z;
  pr_approval_id : pystr
}.

(** [token12] is [secrets.token_hex(12)]; [has_ask] whether the approver has a
    callable [ask]. *)
Definition request_begin (a : Authority) (p : SandboxPolicy) (has_ask : bool)
    (purpose : option NetworkPurpose) (domains ttl : pyval) (token12 : pystr)
  : result pending_request :=
  k ← _policy_key p;
  match purpose with
  | None => Err (NLE "purpose must be a NetworkPurpose")
  | Some pu =>
    ds ← requested_domains domains;
    t ← requested_ttl ttl;
    raise_if (negb has_ask)
      (NetworkLeaseApprovalDenied "network approval service is unavailable");;
    raise_if (bool_decide (k ∈ au_revoking a))
      (NLE "network scope revocation cleanup is incomplete");;
    Ok (mkPending p k pu ds t (generation_of a k) (u "ap-net-" ++ token12))
  end.

Definition approval_request (r : pending_request) : ApprovalRequest :=
  mkApprovalRequest (u "temporary_network_access")
    [ (u "lease_request_id", PyStr (pr_approval_id r));
      (u "run_id", PyStr (run_id (pr_policy r)));
      (u "ticket_id", PyStr (ticket_id (pr_policy r)));
      (u "step", PyStr (step (pr_policy r)));
      (u "purpose", PyStr (purpose_value (pr_purpose r)));
      (u "domains", PyList (PyStr <$> pr_domains r));
      (u "port", PyInt HTTPS_PORT);
      (u "ttl_seconds", PyInt (pr_ttl r)) ]
    (u "当前工单需要通过受控代理访问指定域名；仅开放 HTTPS 443，期限 " ++ dec_z (pr_ttl r)
     ++ u " 秒，到期或撤销后失效。")
    (u "network_authorization") (path_str (workspace_root (pr_policy r))).

(** The approver's answer, [None] when it raised. *)
Definition check_answer (answer : option pyval) : result unit :=
  match answer with
  | None => Err (NetworkLeaseApprovalDenied "network approval failed closed")
  | Some (PyBool true) => Ok tt
  | Some _ => Err (NetworkLeaseApprovalDenied "network lease request was denied or timed out")
  end.

Definition requested_lease (r : pending_request) (issued_at : Z) (token16 : pystr) : lease_fields :=
  mkLeaseFields (PyInt NETWORK_LEASE_SCHEMA_VERSION) (PyStr token16) (PyStr (pr_approval_id r))
    (PyStr (run_id (pr_policy r))) (PyStr (ticket_id (pr_policy r))) (PyStr (step (pr_policy r)))
    (PyStr (policy_hash (pr_policy r))) (Some (pr_purpose r)) (PyTuple (PyStr <$> pr_domains r))
    (PyInt HTTPS_PORT) (PyInt issued_at) (PyInt (issued_at + pr_ttl r * NANOSECONDS_PER_SECOND))
    (PyInt (pr_generation r)).

(** [issued_at] is the given time, or the clock's. *)
Definition request_finish (a : Authority) (r : pending_request) (issued_at : Z) (token16 : pystr)
  : result IssuedNetworkLease :=
  raise_if (bool_decide (pr_key r ∈ au_revoking a)
            || negb (generation_of a (pr_key r) =? pr_generation r)%Z)
    (NLE "network scope was revoked while approval was pending");;
  l ← NetworkLease_new (requested_lease r issued_at token16);
  payload ← canonical_payload l;
  IssuedNetworkLease_new l (PyStr (hmac_hex (au_key a) payload)).

(** A whole request; the authority may have changed from [a] to [a'] while the
    approver was asked. *)
Definition request_lease (a a' : Authority) (p : SandboxPolicy) (has_ask : bool)
    (purpose : option NetworkPurpose) (domains ttl : pyval) (token12 : pystr)
    (ask : ApprovalRequest → option pyval) (issued_at : Z) (token16 : pystr)
  : result IssuedNetworkLease :=
  r ← request_begin a p has_ask purpose domains ttl token12;
  check_answer (ask (approval_request r));;
  request_finish a' r issued_at token16.

(** ** Verification *)
Definition check_signature (a : Authority) (k : policy_key) (i : IssuedNetworkLease) : result unit :=
  raise_if (bool_decide (k ∈ au_revoking a)) (NLE "network scope revocation cleanup is incomplete");;
  payload ← canonical_payload (lease i);
  raise_if (hmac_hex (au_key a) payload ≠s signature i) (NLE "network lease signature is invalid").

Definition _verify_scope_locked (a : Authority) (p : SandboxPolicy) (k : policy_key)
    (i : IssuedNetworkLease) (purpose : option NetworkPurpose) (now : pyval) : result unit :=
  check_signature a k i;;
  validate_scope (lease i) p purpose now (PyInt (generation_of a k)).

Definition _verify_request_locked (a : Authority) (p : SandboxPolicy) (k : policy_key)
    (i : IssuedNetworkLease) (purpose : option NetworkPurpose) (hostname port now : pyval)
  : result unit :=
  check_signature a k i;;
  validate_request (lease i) p purpose hostname port now (PyInt (generation_of a k)).

Definition verify_scope (a : Authority) (i : IssuedNetworkLease) (p : SandboxPolicy)
    (purpose : option NetworkPurpose) (now : pyval) : result unit :=
  k ← _policy_key p;
  _verify_scope_locked a p k i purpose now.

Definition verify_request (a : Authority) (i : IssuedNetworkLease) (p : SandboxPolicy)
    (purpose : option NetworkPurpose) (hostname port now : pyval) : result unit :=
  k ← _policy_key p;
  _verify_request_locked a p k i purpose hostname port now.

(** A clock callback's answer, [None] when it raised. *)
Definition read_clock (answer : option pyval) : result Z :=
  match answer with
  | None => Err (NLE "monotonic clock callback failed")
  | Some v => match as_exact_int v with
              | Some t => raise_if (t <? 0)%Z (NLE "monotonic clock callback returned an invalid value");;
                          Ok t
              | None => Err (NLE "monotonic clock callback returned an invalid value")
              end
  end.

(** [scope_guard]: the body may run exactly when this succeeds. *)
Definition scope_guard (a : Authority) (i : IssuedNetworkLease) (p : SandboxPolicy)
    (purpose : option NetworkPurpose) (clock : option pyval) : result unit :=
  k ← _policy_key p;
  now ← read_clock clock;
  _verify_scope_locked a p k i purpose (PyInt now).

(** ** Registering a connection

    The arguments of [register_active_connection]: callbacks are [None] when
    they are not callable; [ra_release] and [ra_clock] are also optional. *)
Record register_args := mkRegisterArgs {
  ra_issued : IssuedNetworkLease;
  ra_policy : SandboxPolicy;
  ra_purpose : option NetworkPurpose;
  ra_hostname : pyval;
  ra_port : pyval;
  ra_now : pyval;
  ra_close : option N;
  ra_pending : pyval;
  ra_clock : option bool;            (** given, and whether callable *)
  ra_release : option (option N)
}.

Definition register_check (r : register_args) : result unit :=
  raise_if (bool_decide (ra_close r = None)) (NLE "connection close callback is required");;
  raise_if (bool_decide (ra_release r = Some None)) (NLE "connection release callback is invalid");;
  raise_if (negb (is_bool (ra_pending r))) (NLE "pending must be a boolean");;
  raise_if (py_truth (ra_pending r) && bool_decide (ra_clock r = None))
    (NLE "pending connection requires a monotonic clock callback");;
  raise_if (bool_decide (ra_clock r = Some false)) (NLE "monotonic clock callback is invalid").

(** The locked block, after the synchronous sweep.  [clock] is the answer of the
    clock callback when there is one, [token32] is [secrets.token_hex(32)]. *)
Definition register_locked (a : Authority) (r : register_args) (clock : option pyval)
    (token32 : pystr) : result (Authority * handle) :=
  k ← _policy_key (ra_policy r);
  now ← match ra_clock r with
        | Some _ => t ← read_clock clock; Ok (PyInt t)
        | None => Ok (ra_now r)
        end;
  _verify_request_locked a (ra_policy r) k (ra_issued r) (ra_purpose r) (ra_hostname r) (ra_port r) now;;
  let h := mkHandle token32 (au_next a) in
  let e := mkConnection h k (lease (ra_issued r)) (default 0%N (ra_close r))
             (default None (ra_release r)) (py_truth (ra_pending r)) false false in
  Ok (mkAuthority (au_key a) (au_generations a) (au_revoking a)
        (dset token32 e (au_active a)) (au_next a + 1), h).
End policies.

(** ** Promotion and release *)
Definition promote (a : Authority) (h : handle) (now : pyval) (close : option N)
  : result (Authority * bool) :=
  match as_exact_int now with
  | None => Err (NLE "now_monotonic_ns must be a non-negative integer")
  | Some t =>
    raise_if (t <? 0)%Z (NLE "now_monotonic_ns must be a non-negative integer");;
    match close with
    | None => Err (NLE "connected socket close callback is required")
    | Some cb =>
      match entry_of a h with
      | None => Ok (a, false)
      | Some e =>
        if c_closing e || negb (c_pending e) || bool_decide (c_key e ∈ au_revoking a)
           || (t <? nl_issued_at (c_lease e))%Z || (nl_expires_at (c_lease e) <=? t)%Z
           || negb (nl_generation (c_lease e) =? generation_of a (c_key e))%Z
        then Ok (a, false)
        else Ok (put_entry (mkConnection (c_handle e) (c_key e) (c_lease e) cb (c_release e) false
                              (c_closing e) (c_complete e)) a, true)
      end
    end
  end.

(** [release_active_connection], up to the release callback ([None]: the
    callback is to be called) and after it. *)
Definition release_start (a : Authority) (h : handle) : Authority * option bool :=
  match entry_of a h with
  | None => (a, Some false)
  | Some e =>
    if c_closing e then (a, Some false)
    else match c_release e with
         | None => (del_entry h a, Some true)
         | Some _ => (put_entry (set_closing true false e) a, None)
         end
  end.

(** [callback() is True]; [None]: it raised. *)
Definition is_true (answer : option pyval) : bool :=
  match answer with Some (PyBool true) => true | _ => false end.

Definition release_finish (a : Authority) (h : handle) (answer : option pyval) : Authority * bool :=
  let released := is_true answer in
  match entry_of a h with
  | None => (a, released)
  | Some e => (if released then del_entry h a else put_entry (set_closing false true e) a, released)
  end.

(** ** [_close_active_connections]

    The loop over the entries, as a state: between entries, in a close callback,
    waiting for another thread's close, or woken by it. *)
Inductive phase := AtNext | AtCall (h : handle) | AtWait (h : handle) | AtCheck (h : handle).

Record closing := mkClosing { cl_todo : list handle; cl_at : phase; cl_closed : nat; cl_failed : nat }.

Definition closing_start (todo : list handle) : closing := mkClosing todo AtNext 0 0.

Inductive event :=
  | EvRun                                     (** run the next locked block *)
  | EvAnswer (answer : option pyval)          (** a callback answers *)
  | EvWake                                    (** [wait] returns true *)
  | EvTimeout                                 (** [wait] returns false *)
  | EvClock (clock : option pyval) (token32 : pystr).  (** clock answer and fresh token *)

Definition complete_set (a : Authority) (h : handle) : bool :=
  match entry_of a h with Some e => c_complete e | None => true end.

(** [del self._active_connections[id]] if the entry is still the stored one. *)
Definition del_known (a : Authority) (h : handle) : Authority :=
  match entry_of a h with Some _ => del_entry h a | None => a end.

Definition closing_step (a : Authority) (c : closing) (ev : event) : option (Authority * closing) :=
  let '(mkClosing todo at_ closed failed) := c in
  match at_, todo, ev with
  | AtNext, h :: todo', EvRun =>
    match entry_of a h with
    | None => Some (a, mkClosing todo' AtNext closed failed)
    | Some e =>
      if c_closing e then Some (a, mkClosing todo' (AtWait h) closed failed)
      else Some (put_entry (set_closing true false e) a, mkClosing todo' (AtCall h) closed failed)
    end
  | AtWait h, _, EvTimeout => Some (a, mkClosing todo AtNext closed (S failed))
  | AtWait h, _, EvWake =>
    if complete_set a h then Some (a, mkClosing todo (AtCheck h) closed failed) else None
  | AtCheck h, _, EvRun =>
    Some (a, mkClosing todo AtNext closed
               (match entry_of a h with Some _ => S failed | None => failed end))
  | AtCall h, _, EvAnswer answer =>
    if is_true answer then Some (del_known a h, mkClosing todo AtNext (S closed) failed)
    else Some (match entry_of a h with
               | Some e => put_entry (set_closing false true e) a
               | None => a
               end, mkClosing todo AtNext closed (S failed))
  | _, _, _ => None
  end.

(** The loop is over; its count, or the error. *)
Definition closing_done (c : closing) : option (result nat) :=
  match cl_at c, cl_todo c with
  | AtNext, [] => Some (if cl_failed c =? 0 then Ok (cl_closed c)
                        else Err (NetworkLeaseConnectionCloseError (cl_failed c)))
  | _, _ => None
  end.

(** ** Sweeping expired connections and revocation *)
Definition entry_expired (now : Z) (e : connection) : bool := (nl_expires_at (c_lease e) <=? now)%Z.
Definition entry_stale (a : Authority) (e : connection) : bool :=
  negb (nl_generation (c_lease e) =? generation_of a (c_key e))%Z.
Definition to_sweep (a : Authority) (now : Z) (e : connection) : bool :=
  entry_expired now e || entry_stale a e.

Definition entries (a : Authority) : list connection := (au_active a).*2.

Definition sweep_start (a : Authority) (now : pyval)
  : result (Authority * (Z * list policy_key * list handle)) :=
  match as_exact_int now with
  | None => Err (NLE "now_monotonic_ns must be a non-negative integer")
  | Some t =>
    raise_if (t <? 0)%Z (NLE "now_monotonic_ns must be a non-negative integer");;
    let expired := c_key <$> filter (λ e, entry_expired t e = true) (entries a) in
    let a' := set_revoking a (au_revoking a ∪ list_to_set expired) in
    let es := filter (λ e, to_sweep a t e = true) (entries a) in
    Ok (a', (t, elements (au_revoking a'), c_handle <$> es))
  end.

Definition sweep_finish (a : Authority) (now : Z) (keys : list policy_key) : Authority :=
  set_revoking a
    (filter (λ k, ¬ (k ∈ keys ∧
       existsb (λ e, (c_key e =s k) && to_sweep a now e) (entries a) = false)) (au_revoking a)).

Definition revoke_start `{FloatRepr} (a : Authority) (p : SandboxPolicy)
  : result (Authority * (policy_key * Z * list handle)) :=
  k ← _policy_key p;
  let g := (generation_of a k + 1)%Z in
  Ok (mkAuthority (au_key a) (dset k g (au_generations a)) ({[k]} ∪ au_revoking a)
        (au_active a) (au_next a),
      (k, g, c_handle <$> filter (λ e, c_key e = k) (entries a))).

Definition revoke_finish (a : Authority) (k : policy_key) : Authority :=
  if existsb (λ e, c_key e =s k) (entries a) then a
  else set_revoking a (au_revoking a ∖ {[k]}).

(** ** Threads *)
Inductive outcome :=
  | RInt (r : result Z)
  | RHandle (r : result handle)
  | RBool (b : bool).

Inductive thread :=
  | TSweep (now : Z) (keys : list policy_key) (c : closing) (next : option register_args)
  | TRevoke (k : policy_key) (g : Z) (c : closing)
  | TRegister (r : register_args)
  | TRelease (h : handle)
  | TDone (o : outcome).

Definition thread_step `{FloatRepr} (a : Authority) (t : thread) (ev : event)
  : option (Authority * thread) :=
  match t with
  | TSweep now keys c next =>
    match closing_done c with
    | None => '(a', c') ← closing_step a c ev; Some (a', TSweep now keys c' next)
    | Some (Err e) => Some (a, TDone (match next with
                                      | None => RInt (Err e) | Some _ => RHandle (Err e) end))
    | Some (Ok n) =>
      let a' := sweep_finish a now keys in
      Some (a', match next with None => TDone (RInt (Ok (Z.of_nat n))) | Some r => TRegister r end)
    end
  | TRevoke k g c =>
    match closing_done c with
    | None => '(a', c') ← closing_step a c ev; Some (a', TRevoke k g c')
    | Some (Err e) => Some (a, TDone (RInt (Err e)))
    | Some (Ok _) => Some (revoke_finish a k, TDone (RInt (Ok g)))
    end
  | TRegister r =>
    match ev with
    | EvClock clock token32 =>
      match dget token32 (au_active a), register_locked a r clock token32 with
      | Some _, _ => None
      | None, Ok (a', h) => Some (a', TDone (RHandle (Ok h)))
      | None, Err e => Some (a, TDone (RHandle (Err e)))
      end
    | _ => None
    end
  | TRelease h =>
    match ev with
    | EvAnswer answer => let '(a', b) := release_finish a h answer in Some (a', TDone (RBool b))
    | _ => None
    end
  | TDone _ => None
  end.

(** The calls a thread can make, up to their first block. *)
Inductive call :=
  | CallSweep (now : pyval)
  | CallRevoke (p : SandboxPolicy)
  | CallRegister (r : register_args)
  | CallRelease (h : handle)
  | CallPromote (h : handle) (now : pyval) (close : option N).

Definition call_start `{FloatRepr} (a : Authority) (c : call) : Authority * thread :=
  match c with
  | CallSweep now =>
    match sweep_start a now with
    | Ok (a', (t, keys, hs)) => (a', TSweep t keys (closing_start hs) None)
    | Err e => (a, TDone (RInt (Err e)))
    end
  | CallRevoke p =>
    match revoke_start a p with
    | Ok (a', (k, g, hs)) => (a', TRevoke k g (closing_start hs))
    | Err e => (a, TDone (RInt (Err e)))
    end
  | CallRegister r =>
    match register_check r;; sweep_start a (ra_now r) with
    | Ok (a', (t, keys, hs)) => (a', TSweep t keys (closing_start hs) (Some r))
    | Err e => (a, TDone (RHandle (Err e)))
    end
  | CallRelease h =>
    match release_start a h with
    | (a', Some b) => (a', TDone (RBool b))
    | (a', None) => (a', TRelease h)
    end
  | CallPromote h now close =>
    match promote a h now close with
    | Ok (a', b) => (a', TDone (RBool b))
    | Err e => (a, TDone (RInt (Err e)))
    end
  end.

(** A host process: the authority and its threads, run in any order. *)
Record net := mkNet { net_auth : Authority; net_threads : list thread }.

Inductive net_op :=
  | OpCall (c : call)
  | OpStep (i : nat) (ev : event).

Definition net_step `{FloatRepr} (n : net) (op : net_op) : option net :=
  match op with
  | OpCall c =>
    let '(a, t) := call_start (net_auth n) c in Some (mkNet a (net_threads n ++ [t]))
  | OpStep i ev =>
    t ← net_threads n !! i;
    '(a, t') ← thread_step (net_auth n) t ev;
    Some (mkNet a (<[i := t']> (net_threads n)))
  end.

Fixpoint net_run `{FloatRepr} (n : net) (ops : list net_op) : option net :=
  match ops with
  | [] => Some n
  | op :: ops' => n' ← net_step n op; net_run n' ops'
  end.

Definition net_init (key : list N) : net := mkNet (Authority_init key) [].
Definition net_reachable `{FloatRepr} (key : list N) (n : net) : Prop :=
  ∃ ops, net_run (net_init key) ops = Some n.

(** ** Lemmas *)

(** *** Entries *)
Definition ids_ok (a : Authority) : Prop :=
  NoDup (dkeys (au_active a)) ∧
  ∀ id e, (id, e) ∈ au_active a → connection_id (c_handle e) = id.

Lemma elem_entries a e : e ∈ entries a ↔ ∃ id, (id, e) ∈ au_active a.
Proof.
  unfold entries. rewrite list_elem_of_fmap. split.
  - intros ([id e'] & -> & ?). by exists id.
  - intros [id ?]. by exists (id, e).
Qed.

Lemma entry_of_spec a h e :
  ids_ok a → entry_of a h = Some e ↔ e ∈ entries a ∧ c_handle e = h.
Proof.
  intros [Hnd Hid]. unfold entry_of. rewrite elem_entries. split.
  - destruct (dget _ _) as [e'|] eqn:E; [|done]. case_decide; [|done]. intros [= <-].
    split; [|done]. eexists. by apply dget_Some_elem.
  - intros [[id Hin] <-]. rewrite (Hid _ _ Hin), (elem_dget _ _ _ Hnd Hin).
    by rewrite decide_True.
Qed.

Lemma entries_entry_of a e : ids_ok a → e ∈ entries a → entry_of a (c_handle e) = Some e.
Proof. intros. by apply entry_of_spec. Qed.

Lemma entry_of_handle a h e : entry_of a h = Some e → c_handle e = h.
Proof. unfold entry_of. destruct (dget _ _); [|done]. case_decide; [|done]. by intros [= <-]. Qed.

Lemma entry_of_put a e h :
  entry_of (put_entry e a) h =
  if decide (connection_id h = connection_id (c_handle e))
  then if decide (c_handle e = h) then Some e else None
  else entry_of a h.
Proof.
  unfold entry_of, put_entry, set_active. cbn. case_decide as E.
  - by rewrite E, dget_dset_eq.
  - by rewrite dget_dset_ne by done.
Qed.

Lemma entry_of_del a h h' :
  entry_of (del_entry h a) h' =
  if decide (connection_id h' = connection_id h) then None else entry_of a h'.
Proof.
  unfold entry_of, del_entry, set_active. cbn. case_decide as E.
  - by rewrite E, dget_ddel_eq.
  - by rewrite dget_ddel_ne by done.
Qed.

Lemma ids_ok_put a e : ids_ok a → ids_ok (put_entry e a).
Proof.
  intros [Hnd Hid]. split; cbn; [by apply dset_NoDup|].
  intros id e' [[= -> ->]|?]%elem_dset; [done|by apply Hid].
Qed.

Lemma ids_ok_del a h : ids_ok a → ids_ok (del_entry h a).
Proof.
  intros [Hnd Hid]. split; cbn; [by apply ddel_NoDup|].
  intros id e [? _]%elem_ddel. by apply Hid.
Qed.

Lemma entries_put a e e' : e' ∈ entries (put_entry e a) → e' = e ∨ e' ∈ entries a.
Proof.
  rewrite !elem_entries. cbn. intros [id [[= -> ->]|?]%elem_dset]; [by left|right; by exists id].
Qed.

Lemma entries_del a h e :
  ids_ok a → e ∈ entries (del_entry h a) ↔ e ∈ entries a ∧ connection_id (c_handle e) ≠ connection_id h.
Proof.
  intros [_ Hid]. rewrite !elem_entries. cbn. setoid_rewrite elem_ddel_iff. cbn. split.
  - intros (id & Hin & Hne). rewrite (Hid _ _ Hin). eauto.
  - intros [(id & Hin) Hne]. rewrite (Hid _ _ Hin) in Hne. eauto.
Qed.

(** *** The effect of a block on the authority

    Every locked block does one of these to the table, the generations and the
    revocation marks. *)
Inductive effect (a : Authority) : Authority → Prop :=
  | eff_none : effect a a
  | eff_flag h e e' :
      entry_of a h = Some e → c_handle e' = c_handle e → c_key e' = c_key e →
      c_lease e' = c_lease e → effect a (put_entry e' a)
  | eff_del h e : entry_of a h = Some e → effect a (del_entry h a)
  | eff_new e :
      dget (connection_id (c_handle e)) (au_active a) = None →
      nl_generation (c_lease e) = generation_of a (c_key e) →
      c_key e ∉ au_revoking a → c_closing e = false →
      effect a (mkAuthority (au_key a) (au_generations a) (au_revoking a)
                  (dset (connection_id (c_handle e)) e (au_active a)) (au_next a + 1))
  | eff_marks r :
      (∀ e, e ∈ entries a → entry_stale a e = true → c_key e ∈ au_revoking a → c_key e ∈ r) →
      effect a (set_revoking a r)
  | eff_bump k :
      effect a (mkAuthority (au_key a) (dset k (generation_of a k + 1)%Z (au_generations a))
                  ({[k]} ∪ au_revoking a) (au_active a) (au_next a)).

Lemma generation_bump a k k' r act n :
  generation_of (mkAuthority (au_key a) (dset k (generation_of a k + 1)%Z (au_generations a)) r act n) k' =
  if decide (k' = k) then (generation_of a k + 1)%Z else generation_of a k'.
Proof.
  unfold generation_of at 1. cbn. case_decide; subst.
  - by rewrite dget_dset_eq.
  - by rewrite dget_dset_ne by done.
Qed.

(** The invariant of the authority: a connection's lease is never of a later
    generation than the current one, and of an earlier one only while the
    policy is marked as being revoked. *)
Record auth_ok (a : Authority) : Prop := {
  ao_ids : ids_ok a;
  ao_gen : ∀ e, e ∈ entries a → (nl_generation (c_lease e) ≤ generation_of a (c_key e))%Z;
  ao_stale : ∀ e, e ∈ entries a → entry_stale a e = true → c_key e ∈ au_revoking a
}.

Lemma entry_stale_iff a e :
  entry_stale a e = true ↔ nl_generation (c_lease e) ≠ generation_of a (c_key e).
Proof. unfold entry_stale. by rewrite negb_true_iff, Z.eqb_neq. Qed.

Lemma effect_ok a a' : auth_ok a → effect a a' → auth_ok a'.
Proof.
  intros [Hids Hgen Hst] He.
  destruct He as [|h e e' Hf Hh Hk Hl|h e Hf|e Hfresh Hg Hr Hc|r Hr|k].
  - done.
  - apply (entry_of_spec _ _ _ Hids) in Hf as [Hin Hhe].
    split; [by apply ids_ok_put| |]; intros e2 [->|He2]%entries_put; auto.
    + rewrite Hk, Hl. by apply Hgen.
    + unfold entry_stale. rewrite Hk, Hl. by apply Hst.
  - split; [by apply ids_ok_del| |]; intros e2 [He2 _]%entries_del; auto.
  - assert (Hent : ∀ e2, e2 ∈ entries (put_entry e a) → e2 = e ∨ e2 ∈ entries a) by apply entries_put.
    split.
    + by apply ids_ok_put.
    + intros e2 [->|?]%Hent; [|by apply Hgen]. cbn. rewrite Hg. done.
    + intros e2 [->|?]%Hent; [|by apply Hst]. intros ?%entry_stale_iff. done.
  - split; [done|done|]. intros e He Hs. apply Hr; auto.
  - split; [done| |].
    + intros e He. rewrite generation_bump. specialize (Hgen e He).
      case_decide as E; [rewrite <-E; lia|done].
    + intros e He. rewrite entry_stale_iff, generation_bump. cbn.
      case_decide; [set_solver|]. intros Hs. apply elem_of_union_r, Hst; [done|].
      by apply entry_stale_iff.
Qed.

(** Generations only grow. *)
Lemma effect_generation a a' k : effect a a' → (generation_of a k ≤ generation_of a' k)%Z.
Proof.
  intros []; try done. rewrite generation_bump. case_decide; subst; lia.
Qed.

(** Once every connection of a policy is of generation [g] or later, and the
    policy itself too, no block brings an earlier one back. *)
Definition cleared (k : policy_key) (g : Z) (a : Authority) : Prop :=
  (g ≤ generation_of a k)%Z ∧
  ∀ e, e ∈ entries a → c_key e = k → (g ≤ nl_generation (c_lease e))%Z.

Lemma effect_cleared a a' k g : ids_ok a → effect a a' → cleared k g a → cleared k g a'.
Proof.
  intros Hids He [Hg Hc]. split; [etransitivity; [exact Hg|by apply effect_generation]|].
  destruct He as [|h e e' Hf Hh Hk Hl|h e Hf|e Hfresh Hge Hr Hcl|r Hr|k']; try done.
  - apply (entry_of_spec _ _ _ Hids) in Hf as [Hin _].
    intros e2 [->|?]%entries_put; [|auto]. rewrite Hk, Hl. auto.
  - intros e2 [? _]%entries_del; auto.
  - intros e2 [->|?]%(entries_put a e); [|auto]. intros <-. by rewrite Hge.
Qed.

(** *** What verification accepts *)
Section verification.
Context `{FloatRepr}.

Lemma validate_then {A} p e (k : result A) x :
  (((if validate p is Err _ then Err e else Ok tt) : result unit) ;; k) = Ok x ↔
  validate p = Ok tt ∧ k = Ok x.
Proof. destruct (validate p) as [[]|]; naive_solver. Qed.

Lemma raise_then {A} c e (k : result A) x : (raise_if c e ;; k) = Ok x ↔ c = false ∧ k = Ok x.
Proof. destruct c; naive_solver. Qed.

Lemma policy_key_ok p k :
  _policy_key p = Ok k ↔ validate p = Ok tt ∧ deny_only p = true ∧
                         k = (run_id p, ticket_id p, step p, policy_hash p).
Proof.
  unfold _policy_key. rewrite validate_then, raise_then, negb_false_iff. naive_solver.
Qed.

Definition bound_to (l : NetworkLease) (p : SandboxPolicy) : Prop :=
  nl_run_id l = run_id p ∧ nl_ticket_id l = ticket_id p ∧ nl_step l = step p ∧
  nl_policy_hash l = policy_hash p.

(** The lease holds for the policy, purpose, time and generation. *)
Record scope_holds (l : NetworkLease) (p : SandboxPolicy) (pu : option NetworkPurpose)
    (now g : pyval) : Prop := {
  sh_valid : lease_validate l = Ok tt;
  sh_policy : validate p = Ok tt;
  sh_deny : deny_only p = true;
  sh_bound : bound_to l p;
  sh_purpose : pu = Some (nl_purpose l);
  sh_now : ∃ t, now = PyInt t ∧ (nl_issued_at l ≤ t < nl_expires_at l)%Z;
  sh_generation : g = PyInt (nl_generation l)
}.

Lemma exact_int_is v z : as_exact_int v =s Some z = true ↔ v = PyInt z.
Proof. rewrite bool_decide_eq_true. apply as_exact_int_iff. Qed.

Lemma validate_issued_pos l : lease_validate l = Ok tt → (0 < nl_issued_at l)%Z.
Proof.
  unfold lease_validate. rewrite !raise_then. intros (_ & _ & _ & _ & _ & _ & _ & _ & Hi & _).
  by apply Z.leb_gt in Hi.
Qed.

Lemma then_ok {A} (r : result unit) (k : result A) x : (r ;; k) = Ok x ↔ r = Ok tt ∧ k = Ok x.
Proof. destruct r as [[]|]; naive_solver. Qed.

Lemma validate_scope_ok l p pu now g :
  validate_scope l p pu now g = Ok tt ↔ scope_holds l p pu now g.
Proof.
  unfold validate_scope. rewrite then_ok, validate_then, !raise_then, then_ok, !negb_false_iff.
  rewrite raise_if_ok, negb_false_iff, !andb_true_iff, exact_int_is, !bool_decide_eq_true. split.
  - intros (Hl & Hp & Hd & Hb & Hpu & Ht & Hg).
    destruct (as_exact_int now) as [t|] eqn:Et; [|done].
    rewrite raise_then, raise_if_ok, negb_false_iff, andb_true_iff in Ht.
    destruct Ht as [_ [H1 H2]]. apply as_exact_int_iff in Et.
    split; try done; [unfold bound_to; tauto|]. exists t. split; [done|lia].
  - intros [Hl Hp Hd Hb Hpu (t & -> & Ht) ->].
    split_and!; try done; try apply Hb. cbn [as_exact_int].
    rewrite raise_then, raise_if_ok, negb_false_iff, andb_true_iff, Z.ltb_ge, Z.leb_le, Z.ltb_lt.
    pose proof (validate_issued_pos l Hl). lia.
Qed.

Record request_holds (l : NetworkLease) (hostname port : pyval) : Prop := {
  rh_host : ∃ h, hostname = PyStr h ∧ is_exact_dns_hostname h = true ∧ lower h ∈ nl_allowed_domains l;
  rh_port : port = PyInt (nl_port l)
}.

Lemma validate_request_ok l p pu h port now g :
  validate_request l p pu h port now g = Ok tt ↔ scope_holds l p pu now g ∧ request_holds l h port.
Proof.
  unfold validate_request. rewrite !then_ok, validate_scope_ok, raise_if_ok, negb_false_iff, exact_int_is.
  split.
  - intros (Hs & Hh & Hp). split; [done|]. destruct h as [| | | |h| | | |]; try done.
    rewrite raise_then, raise_if_ok, !negb_false_iff, bool_decide_eq_true in Hh.
    split; [|done]. exists h. tauto.
  - intros [Hs [(hs & -> & Hh & Hin) ->]]. split_and!; [done| |done].
    by rewrite raise_then, !raise_if_ok, !negb_false_iff, bool_decide_eq_true.
Qed.

Definition signed (a : Authority) (i : IssuedNetworkLease) : Prop :=
  canonical_payload (lease i) ≫= (λ m, Ok (hmac_hex (au_key a) m)) = Ok (signature i).

Lemma check_signature_ok a k i :
  check_signature a k i = Ok tt ↔ k ∉ au_revoking a ∧ signed a i.
Proof.
  unfold check_signature, signed. rewrite raise_then, bool_decide_eq_false.
  destruct (canonical_payload (lease i)) as [m|]; cbn; [|split; intros [_ ?]; discriminate].
  rewrite raise_if_ok, negb_false_iff, bool_decide_eq_true.
  split; intros [? ?]; (split; [done|congruence]).
Qed.

Lemma verify_locked_ok a p k i pu h port now :
  _verify_request_locked a p k i pu h port now = Ok tt ↔
  k ∉ au_revoking a ∧ signed a i ∧ scope_holds (lease i) p pu now (PyInt (generation_of a k)) ∧
  request_holds (lease i) h port.
Proof.
  unfold _verify_request_locked. rewrite then_ok, validate_request_ok, check_signature_ok. tauto.
Qed.

(** *** Effects of the blocks *)
Lemma closing_step_effect a c ev a' c' : closing_step a c ev = Some (a', c') → effect a a'.
Proof.
  destruct c as [todo at_ cl fl]. cbn.
  assert (Hput : ∀ h e b d, entry_of a h = Some e → effect a (put_entry (set_closing b d e) a))
    by (intros; by eapply eff_flag).
  destruct at_ as [|h|h|h].
  - destruct todo as [|h todo]; [done|]. destruct ev; try done.
    destruct (entry_of a h) as [e|] eqn:E; [|intros; simplify_eq; constructor].
    destruct (c_closing e); intros; simplify_eq; [constructor|eauto].
  - destruct todo, ev; try done; destruct (is_true _); intros; simplify_eq; unfold del_known;
      destruct (entry_of a h) as [e|] eqn:E; eauto using effect.
  - destruct todo, ev; try done; try case_match; intros; simplify_eq; constructor.
  - destruct todo, ev; try done; intros; simplify_eq; constructor.
Qed.

Lemma sweep_start_effect a now a' x : sweep_start a now = Ok (a', x) → effect a a'.
Proof.
  unfold sweep_start. destruct (as_exact_int now); [|done].
  rewrite raise_then. intros [_ [= <- _]]. apply eff_marks. set_solver.
Qed.

Lemma sweep_finish_effect a now keys : effect a (sweep_finish a now keys).
Proof.
  apply eff_marks. intros e He Hst Hin. apply elem_of_filter. split; [|done].
  intros [_ Hno]. rewrite existsb_none, Forall_forall in Hno. specialize (Hno e He).
  unfold to_sweep in Hno. rewrite Hst, orb_true_r, bool_decide_eq_true_2 in Hno by done. done.
Qed.

Lemma revoke_start_effect a p a' x : revoke_start a p = Ok (a', x) → effect a a'.
Proof. unfold revoke_start. rewrite bind_ok. intros (k & _ & [= <- _]). apply eff_bump. Qed.

Lemma revoke_finish_effect a k : effect a (revoke_finish a k).
Proof.
  unfold revoke_finish. destruct (existsb _ _) eqn:E; [constructor|].
  apply eff_marks. intros e He _ Hin. rewrite existsb_none, Forall_forall in E.
  specialize (E e He). rewrite bool_decide_eq_false in E. set_solver.
Qed.

Lemma release_start_effect a h : effect a (release_start a h).1.
Proof.
  unfold release_start. destruct (entry_of a h) as [e|] eqn:E; [|constructor].
  destruct (c_closing e); [constructor|].
  destruct (c_release e); cbn; [by eapply eff_flag|by eapply eff_del].
Qed.

Lemma release_finish_effect a h r : effect a (release_finish a h r).1.
Proof.
  unfold release_finish. destruct (entry_of a h) as [e|] eqn:E; [|constructor].
  destruct (is_true r); cbn; [by eapply eff_del|by eapply eff_flag].
Qed.

Lemma promote_effect a h now cb a' b : promote a h now cb = Ok (a', b) → effect a a'.
Proof.
  unfold promote. destruct (as_exact_int now); [|done]. rewrite raise_then. intros [_ Hp].
  destruct cb; [|done]. destruct (entry_of a h) as [e|] eqn:E; [|simplify_eq; constructor].
  case_match; simplify_eq; [constructor|by eapply eff_flag].
Qed.

Lemma register_locked_ok a r clock tok a' h :
  register_locked a r clock tok = Ok (a', h) →
  ∃ k now e, _policy_key (ra_policy r) = Ok k ∧
    _verify_request_locked a (ra_policy r) k (ra_issued r) (ra_purpose r) (ra_hostname r) (ra_port r) now
      = Ok tt ∧
    h = mkHandle tok (au_next a) ∧ c_handle e = h ∧ c_key e = k ∧ c_lease e = lease (ra_issued r) ∧
    c_closing e = false ∧
    a' = mkAuthority (au_key a) (au_generations a) (au_revoking a) (dset tok e (au_active a)) (au_next a + 1).
Proof.
  unfold register_locked. rewrite bind_ok. intros (k & Hk & Hr).
  apply bind_ok in Hr as (now & _ & Hr). apply bind_ok in Hr as ([] & Hv & [= <- <-]).
  eexists k, now, _. split_and!; [done|exact Hv|done|..]; [| | | |reflexivity]; done.
Qed.

Lemma register_effect a r clock tok a' h :
  dget tok (au_active a) = None → register_locked a r clock tok = Ok (a', h) → effect a a'.
Proof.
  intros Hf (k & now & e & Hk & Hv & Hh & He & Hek & Hel & Hc & ->)%register_locked_ok.
  apply verify_locked_ok in Hv as (Hr & _ & Hs & _).
  assert (Htok : tok = connection_id (c_handle e)) by by rewrite He, Hh.
  rewrite Htok. apply eff_new; [by rewrite <-Htok| |by rewrite Hek|done].
  destruct Hs as [_ _ _ _ _ _ Hg]. rewrite Hel, Hek. congruence.
Qed.

Lemma call_start_effect a c : effect a (call_start a c).1.
Proof.
  destruct c as [now|p|r|h|h now cb]; cbn.
  - destruct (sweep_start a now) as [[a' [[t ks] hs]]|] eqn:E; [|constructor].
    by eapply sweep_start_effect.
  - destruct (revoke_start a p) as [[a' [[t ks] hs]]|] eqn:E; [|constructor].
    by eapply revoke_start_effect.
  - destruct (register_check r;; sweep_start a (ra_now r)) as [[a' [[t ks] hs]]|] eqn:E; [|constructor].
    apply bind_ok in E as ([] & _ & E). by eapply sweep_start_effect.
  - pose proof (release_start_effect a h). by destruct (release_start a h) as [a' [|]].
  - destruct (promote a h now cb) as [[a' b]|] eqn:E; [|constructor]. by eapply promote_effect.
Qed.

Lemma thread_step_effect a t ev a' t' : thread_step a t ev = Some (a', t') → effect a a'.
Proof.
  destruct t as [now ks c nx|k g c|r|h|o]; cbn.
  - destruct (closing_done c) as [[n|e]|].
    + intros; simplify_eq. apply sweep_finish_effect.
    + intros; simplify_eq. constructor.
    + destruct (closing_step a c ev) as [[a2 c2]|] eqn:E; [|done]. cbn. intros; simplify_eq.
      by eapply closing_step_effect.
  - destruct (closing_done c) as [[n|e]|].
    + intros; simplify_eq. apply revoke_finish_effect.
    + intros; simplify_eq. constructor.
    + destruct (closing_step a c ev) as [[a2 c2]|] eqn:E; [|done]. cbn. intros; simplify_eq.
      by eapply closing_step_effect.
  - destruct ev as [| | | |clock tok]; try done.
    destruct (dget tok (au_active a)) eqn:Ef; [done|].
    destruct (register_locked a r clock tok) as [[a2 h]|] eqn:E; intros; simplify_eq.
    + by eapply register_effect.
    + constructor.
  - destruct ev; try done. pose proof (release_finish_effect a h answer).
    destruct (release_finish a h answer) as [a2 b]. intros; by simplify_eq.
  - done.
Qed.

Lemma net_step_effect n op n' : net_step n op = Some n' → effect (net_auth n) (net_auth n').
Proof.
  destruct op as [c|i ev]; cbn.
  - pose proof (call_start_effect (net_auth n) c). destruct (call_start _ c). intros; by simplify_eq.
  - destruct (net_threads n !! i) as [t|]; [|done]. cbn.
    destruct (thread_step (net_auth n) t ev) as [[a t']|] eqn:E; [|done]. cbn. intros; simplify_eq.
    by eapply thread_step_effect.
Qed.

Lemma net_run_ind (P : net → Prop) n ops n' :
  (∀ m op m', P m → net_step m op = Some m' → P m') → P n → net_run n ops = Some n' → P n'.
Proof.
  intros Hstep. revert n. induction ops as [|op ops IH]; intros n Hn; cbn; [by intros [= <-]|].
  destruct (net_step n op) as [m|] eqn:E; [|done]. cbn. apply IH. by eapply Hstep.
Qed.

Lemma auth_init_ok key : auth_ok (Authority_init key).
Proof.
  split; [split; [constructor|]|..].
  1: intros id e Hin; by apply elem_of_nil in Hin.
  all: intros e He; by apply elem_of_nil in He.
Qed.

Lemma reachable_auth_ok key n : net_reachable key n → auth_ok (net_auth n).
Proof.
  intros [ops Hr]. revert Hr. apply (net_run_ind (λ n, auth_ok (net_auth n))); [|apply auth_init_ok].
  intros m op m' Hm Hs. eapply effect_ok; [exact Hm|]. by eapply net_step_effect.
Qed.

Lemma run_auth_ok n ops n' : auth_ok (net_auth n) → net_run n ops = Some n' → auth_ok (net_auth n').
Proof.
  intros Hok. apply (net_run_ind (λ n, auth_ok (net_auth n))); [|done].
  intros m op m' Hm Hs. eapply effect_ok; [exact Hm|]. by eapply net_step_effect.
Qed.

Lemma run_generation n ops n' k :
  net_run n ops = Some n' → (generation_of (net_auth n) k ≤ generation_of (net_auth n') k)%Z.
Proof.
  apply (net_run_ind (λ m, (generation_of (net_auth n) k ≤ generation_of (net_auth m) k)%Z)); [|done].
  intros m op m' Hm Hs. etransitivity; [exact Hm|]. by eapply effect_generation, net_step_effect.
Qed.

Lemma run_cleared n ops n' k g :
  auth_ok (net_auth n) → cleared k g (net_auth n) → net_run n ops = Some n' → cleared k g (net_auth n').
Proof.
  intros Hok Hc. intros Hr.
  apply (net_run_ind (λ m, auth_ok (net_auth m) ∧ cleared k g (net_auth m)) n ops n'); [|done|done].
  intros m op m' [Hm1 Hm2] Hs. pose proof (net_step_effect _ _ _ Hs) as He. split.
  - by eapply effect_ok.
  - eapply effect_cleared; [apply Hm1|done|done].
Qed.
End verification.

(** *** Callbacks in flight *)
Section callbacks.
Context `{FloatRepr}.

(** The connection whose close or release callback a thread is running. *)
Definition in_call_closing (c : closing) : option handle :=
  match cl_at c with AtCall h => Some h | _ => None end.
Definition in_call (t : thread) : option handle :=
  match t with
  | TSweep _ _ c _ | TRevoke _ _ c => in_call_closing c
  | TRelease h => Some h
  | _ => None
  end.

Definition closing_at (a : Authority) (h : handle) : bool :=
  match entry_of a h with Some e => c_closing e | None => false end.

Definition one (o : option handle) (h : handle) : nat := if decide (o = Some h) then 1 else 0.
Definition callers (ts : list thread) (h : handle) : nat := length (filter (λ t, in_call t = Some h) ts).
#[local] Arguments callers : simpl never.
#[local] Arguments one : simpl never.

(** A block moves the closing flags exactly as it moves the callbacks. *)
Definition handover (a : Authority) (o : option handle) (a' : Authority) (o' : option handle) : Prop :=
  ∀ h, Nat.b2n (closing_at a' h) + one o h = Nat.b2n (closing_at a h) + one o' h.

Lemma handover_same a a' o : (∀ h, closing_at a' h = closing_at a h) → handover a o a' o.
Proof. intros Hs h. by rewrite Hs. Qed.

Lemma closing_at_put a e0 e h h' :
  entry_of a h = Some e0 → c_handle e = h →
  closing_at (put_entry e a) h' = if decide (h' = h) then c_closing e else closing_at a h'.
Proof.
  intros H0 He. unfold closing_at. rewrite entry_of_put, He.
  destruct (decide (h' = h)) as [->|Hne]; [by rewrite !decide_True|].
  case_decide as Hid; [|done]. rewrite decide_False by done.
  unfold entry_of in *. rewrite Hid. destruct (dget _ _) as [e1|]; [|done].
  case_decide; [|done]. rewrite decide_False by congruence. done.
Qed.

Lemma closing_at_del a e h h' :
  entry_of a h = Some e →
  closing_at (del_entry h a) h' = if decide (h' = h) then false else closing_at a h'.
Proof.
  intros H0. unfold closing_at. rewrite entry_of_del.
  destruct (decide (h' = h)) as [->|Hne]; [by rewrite decide_True|].
  case_decide as Hid; [|done].
  unfold entry_of in *. rewrite Hid. destruct (dget _ _) as [e1|]; [|done].
  case_decide; [|done]. rewrite decide_False by congruence. done.
Qed.

Lemma handover_begin a h e d :
  entry_of a h = Some e → c_closing e = false →
  handover a None (put_entry (set_closing true d e) a) (Some h).
Proof.
  intros He Hc h'. pose proof (entry_of_handle _ _ _ He) as Hh. unfold one.
  rewrite (closing_at_put _ e _ h) by done. cbn.
  rewrite (decide_False (P := None = Some h')) by done.
  destruct (decide (h' = h)) as [->|Hne].
  - rewrite decide_True by done. unfold closing_at. rewrite He, Hc. done.
  - rewrite decide_False by congruence. done.
Qed.

Lemma handover_end a h e a' :
  entry_of a h = Some e → c_closing e = true →
  (a' = del_entry h a ∨ ∃ d, a' = put_entry (set_closing false d e) a) →
  handover a (Some h) a' None.
Proof.
  intros He Hc Ha h'. pose proof (entry_of_handle _ _ _ He) as Hh. unfold one.
  rewrite (decide_False (P := None = Some h')) by done.
  assert (Hcl : closing_at a' h' = if decide (h' = h) then false else closing_at a h').
  { destruct Ha as [->|[d ->]]; [by eapply closing_at_del|by rewrite (closing_at_put _ e _ h)]. }
  rewrite Hcl. destruct (decide (h' = h)) as [->|Hne].
  - rewrite decide_True by done. unfold closing_at. rewrite He, Hc. done.
  - rewrite decide_False by congruence. done.
Qed.

(** The entries keep their flags when only marks or generations change. *)
Lemma handover_entries a a' o : au_active a' = au_active a → handover a o a' o.
Proof. intros E. apply handover_same. intros h. unfold closing_at, entry_of. by rewrite E. Qed.

Definition callback_ok (a : Authority) (o : option handle) : Prop :=
  ∀ h, o = Some h → ∃ e, entry_of a h = Some e ∧ c_closing e = true.

Lemma closing_step_handover a c ev a' c' :
  callback_ok a (in_call_closing c) → closing_step a c ev = Some (a', c') →
  handover a (in_call_closing c) a' (in_call_closing c').
Proof.
  destruct c as [todo at_ cl fl]. unfold in_call_closing. cbn. intros Hok.
  destruct at_ as [|h|h|h].
  - destruct todo as [|h todo]; [done|]. destruct ev; try done.
    destruct (entry_of a h) as [e|] eqn:E; [|intros; by simplify_eq; apply handover_same].
    destruct (c_closing e) eqn:Ec; intros; simplify_eq; cbn; [by apply handover_same|].
    by apply handover_begin.
  - destruct (Hok h eq_refl) as (e & He & Hc).
    destruct todo, ev; try done; destruct (is_true _); intros; simplify_eq; unfold del_known;
      rewrite He; eapply handover_end; eauto.
  - destruct todo, ev; try done; try case_match; intros; simplify_eq; by apply handover_same.
  - destruct todo, ev; try done; intros; simplify_eq; by apply handover_same.
Qed.

Lemma closing_done_idle c r : closing_done c = Some r → in_call_closing c = None.
Proof. unfold closing_done, in_call_closing. by destruct (cl_at c). Qed.

Lemma register_handover a r clock tok a' h :
  dget tok (au_active a) = None → register_locked a r clock tok = Ok (a', h) → handover a None a' None.
Proof.
  intros Hf (k & now & e & _ & _ & Hh & He & _ & _ & Hc & ->)%register_locked_ok.
  apply handover_same. intros h'. unfold closing_at, entry_of. cbn.
  destruct (decide (connection_id h' = tok)) as [->|Hne].
  - rewrite dget_dset_eq, Hf. case_decide; done.
  - by rewrite dget_dset_ne.
Qed.

Lemma release_start_handover a h :
  let '(a', r) := release_start a h in
  handover a None a' (match r with None => Some h | Some _ => None end).
Proof.
  unfold release_start. destruct (entry_of a h) as [e|] eqn:E; [|by apply handover_same].
  destruct (c_closing e) eqn:Ec; [by apply handover_same|].
  destruct (c_release e); [by apply handover_begin|].
  apply handover_same. intros h'. rewrite (closing_at_del _ e) by done.
  case_decide; [|done]. subst. unfold closing_at. by rewrite E.
Qed.

Lemma promote_handover a h now cb a' b : promote a h now cb = Ok (a', b) → handover a None a' None.
Proof.
  unfold promote. destruct (as_exact_int now); [|done]. rewrite raise_then. intros [_ Hp].
  destruct cb; [|done]. destruct (entry_of a h) as [e|] eqn:E; [|simplify_eq; by apply handover_same].
  case_match; simplify_eq; apply handover_same; [done|]. intros h'.
  pose proof (entry_of_handle _ _ _ E). rewrite (closing_at_put _ e _ h) by done. cbn.
  destruct (decide (h' = h)) as [->|]; [|done]. unfold closing_at. by rewrite E.
Qed.

Lemma sweep_start_active a now a' x : sweep_start a now = Ok (a', x) → au_active a' = au_active a.
Proof.
  unfold sweep_start. destruct (as_exact_int now); [|done].
  rewrite raise_then. by intros [_ [= <- _]].
Qed.

Lemma call_start_handover a c : handover a None (call_start a c).1 (in_call (call_start a c).2).
Proof.
  destruct c as [now|p|r|h|h now cb]; cbn.
  - destruct (sweep_start a now) as [[a' [[t ks] hs]]|] eqn:E; [|by apply handover_same].
    by eapply handover_entries, sweep_start_active.
  - destruct (revoke_start a p) as [[a' [[t ks] hs]]|] eqn:E; [|by apply handover_same].
    apply handover_entries. unfold revoke_start in E. apply bind_ok in E as (k & _ & [= <- _]). done.
  - destruct (register_check r;; sweep_start a (ra_now r)) as [[a' [[t ks] hs]]|] eqn:E;
      [|by apply handover_same].
    apply bind_ok in E as ([] & _ & E). by eapply handover_entries, sweep_start_active.
  - pose proof (release_start_handover a h). by destruct (release_start a h) as [a' [|]].
  - destruct (promote a h now cb) as [[a' b]|] eqn:E; [by eapply promote_handover|by apply handover_same].
Qed.

Lemma revoke_finish_active a k : au_active (revoke_finish a k) = au_active a.
Proof. unfold revoke_finish. by case_match. Qed.

Lemma thread_step_handover a t ev a' t' :
  callback_ok a (in_call t) → thread_step a t ev = Some (a', t') →
  handover a (in_call t) a' (in_call t').
Proof.
  destruct t as [now ks c nx|k g c|r|h|o]; cbn; intros Hok.
  - destruct (closing_done c) as [[n|e]|] eqn:Ed; [apply closing_done_idle in Ed as ->..|].
    + intros; simplify_eq. destruct nx; by apply handover_entries.
    + intros; simplify_eq. by apply handover_same.
    + destruct (closing_step a c ev) as [[a2 c2]|] eqn:E; [|done]. cbn. intros; simplify_eq.
      by eapply closing_step_handover.
  - destruct (closing_done c) as [[n|e]|] eqn:Ed; [apply closing_done_idle in Ed as ->..|].
    + intros; simplify_eq. apply handover_entries, revoke_finish_active.
    + intros; simplify_eq. by apply handover_same.
    + destruct (closing_step a c ev) as [[a2 c2]|] eqn:E; [|done]. cbn. intros; simplify_eq.
      by eapply closing_step_handover.
  - destruct ev as [| | | |clock tok]; try done.
    destruct (dget tok (au_active a)) eqn:Ef; [done|].
    destruct (register_locked a r clock tok) as [[a2 h]|] eqn:E; intros; simplify_eq.
    + by eapply register_handover.
    + by apply handover_same.
  - destruct ev; try done. destruct (Hok h eq_refl) as (e & He & Hc).
    unfold release_finish. rewrite He. destruct (is_true answer); intros; simplify_eq;
      eapply handover_end; eauto.
  - done.
Qed.

Lemma callers_app ts t h : callers (ts ++ [t]) h = callers ts h + one (in_call t) h.
Proof.
  unfold callers, one. rewrite filter_app, length_app. f_equal.
  rewrite filter_cons. by case_decide.
Qed.

Lemma callers_insert ts i t t' h :
  ts !! i = Some t → callers (<[i := t']> ts) h + one (in_call t) h = callers ts h + one (in_call t') h.
Proof.
  unfold callers, one. revert i. induction ts as [|t0 ts IH]; intros [|i] Hi; simplify_eq/=.
  - rewrite !filter_cons. repeat case_decide; cbn; lia.
  - specialize (IH i Hi). change (<[S i := t']> (t0 :: ts)) with (t0 :: <[i := t']> ts).
    rewrite !filter_cons. repeat case_decide; cbn; lia.
Qed.

Definition callbacks_ok (n : net) : Prop :=
  ∀ h, callers (net_threads n) h = Nat.b2n (closing_at (net_auth n) h).

Lemma callbacks_ok_step n op n' : callbacks_ok n → net_step n op = Some n' → callbacks_ok n'.
Proof.
  intros Hok. destruct op as [c|i ev]; cbn.
  - pose proof (call_start_handover (net_auth n) c) as Hh.
    destruct (call_start (net_auth n) c) as [a t]. intros; simplify_eq. intros h. cbn.
    specialize (Hh h). cbn in Hh. unfold one at 1 in Hh. rewrite decide_False in Hh by done.
    rewrite callers_app, Hok. lia.
  - destruct (net_threads n !! i) as [t|] eqn:Ei; [|done]. cbn.
    destruct (thread_step (net_auth n) t ev) as [[a t']|] eqn:E; [|done]. cbn. intros; simplify_eq.
    intros h. cbn.
    assert (Hcb : callback_ok (net_auth n) (in_call t)).
    { intros h0 Hc. pose proof (callers_insert _ _ _ (TDone (RBool true)) h0 Ei) as Hi.
      rewrite Hok in Hi. unfold one in Hi. rewrite Hc, decide_True, decide_False in Hi by done.
      unfold closing_at in Hi. destruct (entry_of (net_auth n) h0) as [e|]; [|cbn in Hi; lia].
      exists e. split; [done|]. destruct (c_closing e); [done|cbn in Hi; lia]. }
    pose proof (thread_step_handover _ _ _ _ _ Hcb E h) as Hh.
    pose proof (callers_insert _ _ _ t' h Ei) as Hi. rewrite Hok in Hi. lia.
Qed.

Lemma reachable_callbacks key n : net_reachable key n → callbacks_ok n.
Proof.
  intros [ops Hr]. revert Hr. apply (net_run_ind callbacks_ok); [|done].
  intros m op m' Hm Hs. by eapply callbacks_ok_step.
Qed.

(** *** A revocation in progress

    Every connection of an earlier generation is still to be handled, unless a
    close has already failed. *)
Definition pending (c : closing) : list handle :=
  match cl_at c with AtNext => [] | AtCall h | AtWait h | AtCheck h => [h] end ++ cl_todo c.

Definition revoking_ok (a : Authority) (k : policy_key) (g : Z) (c : closing) : Prop :=
  (g ≤ generation_of a k)%Z ∧
  (cl_failed c = 0 → ∀ e, e ∈ entries a → c_key e = k → (nl_generation (c_lease e) < g)%Z →
   c_handle e ∈ pending c).

Definition thread_ok (a : Authority) (t : thread) : Prop :=
  match t with TRevoke k g c => revoking_ok a k g c | _ => True end.

(** Blocks of other threads keep it: they only remove connections, or add ones
    of the current generation. *)
Lemma effect_old_entries a a' k g e :
  ids_ok a → effect a a' → (g ≤ generation_of a k)%Z →
  e ∈ entries a' → c_key e = k → (nl_generation (c_lease e) < g)%Z →
  ∃ e0, e0 ∈ entries a ∧ c_handle e0 = c_handle e ∧ c_key e0 = k ∧ (nl_generation (c_lease e0) < g)%Z.
Proof.
  intros Hids He Hg Hin Hk Hlt.
  destruct He as [|h e1 e' Hf Hh Hk' Hl|h e1 Hf|e1 Hfresh Hge Hr Hcl|r Hr|k']; eauto.
  - apply (entry_of_spec _ _ _ Hids) in Hf as [Hin1 _].
    apply entries_put in Hin as [->|?]; [|eauto]. exists e1. rewrite <-Hh, <-Hl. split_and!; congruence.
  - apply entries_del in Hin as [? _]; eauto.
  - apply (entries_put a e1) in Hin as [->|?]; [|eauto]. subst. lia.
Qed.

Lemma revoking_ok_effect a a' k g c :
  ids_ok a → effect a a' → revoking_ok a k g c → revoking_ok a' k g c.
Proof.
  intros Hids He [Hg Hp]. split; [etransitivity; [exact Hg|by apply effect_generation]|].
  intros Hf e Hin Hk Hlt.
  destruct (effect_old_entries _ _ _ _ _ Hids He Hg Hin Hk Hlt) as (e0 & ? & <- & ? & ?). auto.
Qed.

Lemma revoking_ok_closing a c ev a' c' k g :
  ids_ok a → revoking_ok a k g c → closing_step a c ev = Some (a', c') → revoking_ok a' k g c'.
Proof.
  intros Hids Hrev Hs. pose proof (closing_step_effect _ _ _ _ _ Hs) as He.
  destruct (revoking_ok_effect _ _ _ _ _ Hids He Hrev) as [Hg' Hp']. split; [done|].
  assert (Hids' : ids_ok a').
  { clear -Hids Hs. unfold closing_step, del_known in Hs. destruct c as [todo at_ cl fl].
    repeat (case_match; simplify_eq); auto using ids_ok_put, ids_ok_del. }
  (* a handle that is dropped from the pending ones has no entry left *)
  assert (Hdrop : ∀ h, h ∈ pending c → h ∈ pending c' ∨ cl_failed c' ≠ 0 ∨ entry_of a' h = None).
  { clear -Hs. intros h. unfold pending. destruct c as [todo at_ cl fl].
    unfold closing_step, del_known in Hs. cbn.
    destruct at_; repeat (case_match; simplify_eq/=); rewrite ?elem_of_cons; try naive_solver.
    - intros [->|?]; [|by left]. right; right. rewrite entry_of_del. by rewrite decide_True. }
  assert (Hfl : cl_failed c' = 0 → cl_failed c = 0).
  { clear -Hs. destruct c as [todo at_ cl fl]. unfold closing_step in Hs.
    repeat (case_match; simplify_eq/=); lia. }
  intros Hf e Hin Hk Hlt. specialize (Hp' (Hfl Hf) e Hin Hk Hlt).
  destruct (Hdrop _ Hp') as [?|[?|Hno]]; [done|done|].
  by rewrite (entries_entry_of _ _ Hids' Hin) in Hno.
Qed.

Definition net_ok (n : net) : Prop :=
  auth_ok (net_auth n) ∧ Forall (thread_ok (net_auth n)) (net_threads n).

Lemma thread_ok_effect a a' t : ids_ok a → effect a a' → thread_ok a t → thread_ok a' t.
Proof. intros Hids He. destruct t; cbn; eauto using revoking_ok_effect. Qed.

Lemma thread_step_ok a t ev a' t' :
  ids_ok a → thread_ok a t → thread_step a t ev = Some (a', t') → thread_ok a' t'.
Proof.
  intros Hids Hok. destruct t as [now ks c nx|k g c|r|h|o]; cbn; intros Hs;
    try (repeat (case_match; simplify_eq/=); done).
  - destruct (closing_done c) as [[n|e]|]; simplify_eq; [by destruct nx|done|].
    destruct (closing_step a c ev) as [[a2 c2]|] eqn:E; by simplify_eq/=.
  - destruct (closing_done c) as [[n|e]|]; simplify_eq; [done|done|].
    destruct (closing_step a c ev) as [[a2 c2]|] eqn:E; simplify_eq/=.
    by eapply revoking_ok_closing.
Qed.

Lemma call_start_ok a c : auth_ok a → thread_ok (call_start a c).1 (call_start a c).2.
Proof.
  intros Hok. destruct c as [now|p|r|h|h now cb]; cbn; try (repeat case_match; done).
  destruct (revoke_start a p) as [[a' [[k g] hs]]|] eqn:E; [|done]. cbn.
  unfold revoke_start in E. apply bind_ok in E as (k' & _ & [= <- <- <- <-]). split.
  - rewrite generation_bump, decide_True by done. done.
  - intros _ e He Hk _. cbn. apply list_elem_of_fmap. exists e. split; [done|].
    by apply list_elem_of_filter.
Qed.

Lemma net_ok_step n op n' : net_ok n → net_step n op = Some n' → net_ok n'.
Proof.
  intros [Ha Ht] Hs. pose proof (net_step_effect _ _ _ Hs) as He.
  split; [by eapply effect_ok|].
  assert (Hts : Forall (thread_ok (net_auth n')) (net_threads n)).
  { eapply Forall_impl; [exact Ht|]. intros t. apply thread_ok_effect; [apply Ha|done]. }
  destruct op as [c|i ev]; cbn in Hs.
  - pose proof (call_start_ok (net_auth n) c Ha) as Hc. destruct (call_start (net_auth n) c).
    simplify_eq/=. apply Forall_app. by repeat constructor.
  - destruct (net_threads n !! i) as [t|] eqn:Ei; [|done]. cbn in Hs.
    destruct (thread_step (net_auth n) t ev) as [[a t']|] eqn:E; [|done]. simplify_eq/=.
    apply Forall_insert; [done|]. eapply thread_step_ok; [apply Ha| |exact E].
    by apply (proj1 (Forall_lookup _ _) Ht i).
Qed.

Lemma reachable_net_ok key n : net_reachable key n → net_ok n.
Proof.
  intros [ops Hr]. revert Hr. apply (net_run_ind net_ok).
  - intros m op m' Hm Hs. by eapply net_ok_step.
  - split; [apply auth_init_ok|constructor].
Qed.
End callbacks.

(** ** Properties *)
Section properties.
Context `{FloatRepr}.

(** C11: a revocation that returns has closed every connection of an earlier
    generation, whatever other threads did meanwhile, and none comes back in
    any continuation of the run. *)
Theorem revocation_complete key n i k g c ev n' g' ops n'' :
  net_reachable key n → net_threads n !! i = Some (TRevoke k g c) →
  net_step n (OpStep i ev) = Some n' → net_threads n' !! i = Some (TDone (RInt (Ok g'))) →
  net_run n' ops = Some n'' →
  g' = g ∧ ∀ e, e ∈ entries (net_auth n'') → c_key e = k → (g ≤ nl_generation (c_lease e))%Z.
Proof.
  intros Hr Hi Hs Hd Hrun. destruct (reachable_net_ok key n Hr) as [Ha Ht].
  assert (Hrev : revoking_ok (net_auth n) k g c) by exact (proj1 (Forall_lookup _ _) Ht i _ Hi).
  pose proof (net_step_effect _ _ _ Hs) as He. pose proof (effect_ok _ _ Ha He) as Ha'.
  destruct (revoking_ok_effect _ _ _ _ _ (ao_ids _ Ha) He Hrev) as [Hg Hp].
  cbn in Hs. rewrite Hi in Hs. cbn in Hs.
  assert (Hlen := lookup_lt_Some _ _ _ Hi).
  destruct (closing_done c) as [[m|e]|] eqn:Ed.
  - simplify_eq/=. rewrite list_lookup_insert_eq in Hd by done. injection Hd as <-.
    split; [done|].
    assert (Hc : cleared k g (revoke_finish (net_auth n) k)).
    { split; [done|]. intros e Hin Hk. destruct (Z.le_gt_cases g (nl_generation (c_lease e))) as [|Hlt]; [done|].
      exfalso. unfold closing_done in Ed. destruct c as [todo at_ cl fl]; cbn in *.
      destruct at_; try done. destruct todo; [|done].
      destruct (Nat.eqb_spec fl 0); [|done]. specialize (Hp e0 e Hin Hk ltac:(lia)).
      unfold pending in Hp; cbn in Hp. by apply elem_of_nil in Hp. }
    exact (proj2 (run_cleared (mkNet _ _) ops n'' k g Ha' Hc Hrun)).
  - simplify_eq/=. by rewrite list_lookup_insert_eq in Hd by done.
  - destruct (closing_step _ _ _) as [[a2 c2]|]; simplify_eq/=.
    by rewrite list_lookup_insert_eq in Hd by done.
Qed.

(** C10: once a policy's revocation has started, no lease issued before it
    verifies again and no request whose approval was pending is granted, in
    every continuation of the run. *)
Theorem revocation_final n p k ops n' i r pu h port now at_ tok :
  _policy_key p = Ok k → net_run n (OpCall (CallRevoke p) :: ops) = Some n' →
  (nl_generation (lease i) ≤ generation_of (net_auth n) k)%Z →
  pr_key r = k → (pr_generation r ≤ generation_of (net_auth n) k)%Z →
  verify_request (net_auth n') i p pu h port now ≠ Ok tt ∧
  request_finish (net_auth n') r at_ tok = Err (NLE "network scope was revoked while approval was pending").
Proof.
  intros Hk Hrun Hgi <- Hgr. cbn in Hrun. unfold revoke_start in Hrun. rewrite Hk in Hrun. cbn in Hrun.
  apply run_generation with (k := pr_key r) in Hrun. cbn [net_auth] in Hrun.
  rewrite generation_bump, decide_True in Hrun by done. split.
  - unfold verify_request. rewrite Hk. cbn. intros Hv.
    apply verify_locked_ok in Hv as (_ & _ & [_ _ _ _ _ _ [= Hg]] & _). lia.
  - unfold request_finish. destruct (bool_decide (pr_key r ∈ au_revoking (net_auth n'))); cbn; [done|].
    destruct (Z.eqb_spec (generation_of (net_auth n') (pr_key r)) (pr_generation r)); [lia|done].
Qed.

(** In every reachable state a connection has a callback in flight in exactly
    one thread when its [closing] flag is set, and in none otherwise: a close
    and a release, or two closes, never run together. *)
Theorem callbacks_exclusive key n h :
  net_reachable key n →
  length (filter (λ t, in_call t = Some h) (net_threads n)) =
  (if closing_at (net_auth n) h then 1 else 0).
Proof. intros Hr. by apply (reachable_callbacks key n Hr). Qed.

(** While a connection of a revoked generation is still open, its policy is
    blocked: no lease is requested or granted, none verifies, and no connection
    is registered for it. *)
Theorem stale_connection_blocks key n e p :
  net_reachable key n → e ∈ entries (net_auth n) → _policy_key p = Ok (c_key e) →
  nl_generation (c_lease e) ≠ generation_of (net_auth n) (c_key e) →
  (∀ ask pu ds ttl tok r, request_begin (net_auth n) p ask pu ds ttl tok ≠ Ok r) ∧
  (∀ r at_ tok i, pr_key r = c_key e → request_finish (net_auth n) r at_ tok ≠ Ok i) ∧
  (∀ i pu h port now, verify_request (net_auth n) i p pu h port now ≠ Ok tt) ∧
  (∀ r clock tok x, ra_policy r = p → register_locked (net_auth n) r clock tok ≠ Ok x).
Proof.
  intros Hr He Hk Hg. destruct (reachable_auth_ok key n Hr) as [_ _ Hst].
  specialize (Hst e He (proj2 (entry_stale_iff _ _) Hg)).
  split_and!.
  - intros ask pu ds ttl tok r. unfold request_begin. rewrite Hk. cbn. destruct pu; [|done].
    intros Hb. apply bind_ok in Hb as (? & _ & Hb). apply bind_ok in Hb as (? & _ & Hb).
    rewrite !raise_then, bool_decide_eq_false in Hb. tauto.
  - intros r at_ tok i Hkr. unfold request_finish. rewrite Hkr, raise_then.
    rewrite bool_decide_eq_true_2 by done. by intros [? _].
  - intros i pu h port now. unfold verify_request. rewrite Hk. cbn.
    intros Hv%verify_locked_ok. tauto.
  - intros r clock tok [a' h] <- (k & now & e' & Hk' & Hv & _)%register_locked_ok.
    apply verify_locked_ok in Hv. rewrite Hk in Hk'. injection Hk' as <-. tauto.
Qed.

(** C34: [verify_request] accepts exactly an unrevoked policy with an authentic
    lease bound to it, of the current generation, at a time within the lease,
    for the lease's purpose, port and one of its hosts. *)
Theorem verify_request_iff a i p pu h port now :
  verify_request a i p pu h port now = Ok tt ↔
  ∃ hs t, h = PyStr hs ∧ now = PyInt t ∧ port = PyInt (nl_port (lease i)) ∧
    pu = Some (nl_purpose (lease i)) ∧
    lease_validate (lease i) = Ok tt ∧ validate p = Ok tt ∧ deny_only p = true ∧
    bound_to (lease i) p ∧
    (run_id p, ticket_id p, step p, policy_hash p) ∉ au_revoking a ∧
    generation_of a (run_id p, ticket_id p, step p, policy_hash p) = nl_generation (lease i) ∧
    (nl_issued_at (lease i) ≤ t < nl_expires_at (lease i))%Z ∧
    is_exact_dns_hostname hs = true ∧ lower hs ∈ nl_allowed_domains (lease i) ∧
    signature i = hmac_hex (au_key a) (default [] (dumps ascii_canonical_opts (lease_payload (lease i)))).
Proof.
  unfold verify_request. rewrite bind_ok. setoid_rewrite policy_key_ok.
  setoid_rewrite verify_locked_ok. split.
  - intros (k & (Hp & Hd & ->) & Hr & Hs & [Hl _ _ Hb -> (t & -> & Ht) [= Hg]] & [(hs & -> & Hh & Hin) ->]).
    exists hs, t. unfold signed, canonical_payload in Hs. rewrite Hl in Hs. cbn in Hs.
    injection Hs as Hs. split_and!; try done; lia.
  - intros (hs & t & -> & -> & -> & -> & Hl & Hp & Hd & Hb & Hr & Hg & Ht & Hh & Hin & Hs).
    eexists. split; [split; [done|split; [done|reflexivity]]|]. split_and!; [done| | |].
    + unfold signed, canonical_payload. rewrite Hl. cbn. by rewrite Hs.
    + split; try done; [by exists t|by rewrite Hg].
    + split; [by exists hs|done].
Qed.

Lemma requested_domains_ok ds ns :
  requested_domains (PyTuple (PyStr <$> ds)) = Ok ns → ns = sorted_set (λ d, d) (lower <$> ds).
Proof.
  unfold requested_domains, need_str_tuple. rewrite all_strs_fmap.
  rewrite bind_ok. intros (ds' & [= <-] & Hd). rewrite !raise_then in Hd.
  destruct Hd as (_ & _ & [= <-]). done.
Qed.

Lemma normalize_requested ds :
  normalize_domains (sorted_set (λ d, d) (lower <$> ds)) = sorted_set (λ d, d) (lower <$> ds).
Proof.
  unfold normalize_domains. rewrite fmap_fixed.
  - by apply sorted_set_idem.
  - apply Forall_forall. intros d Hd. rewrite elem_sorted_set, list_elem_of_fmap in Hd.
    destruct Hd as (d' & -> & _). rewrite lower_idem. by case_match.
Qed.

Lemma requested_types r at_ tok :
  _validate_declared_types (requested_lease r at_ tok) =
  Ok (mkNetworkLease NETWORK_LEASE_SCHEMA_VERSION tok (pr_approval_id r) (run_id (pr_policy r))
    (ticket_id (pr_policy r)) (step (pr_policy r)) (policy_hash (pr_policy r)) (pr_purpose r)
    (pr_domains r) HTTPS_PORT at_ (at_ + pr_ttl r * NANOSECONDS_PER_SECOND) (pr_generation r)).
Proof.
  unfold _validate_declared_types, requested_lease, need_str_tuple. cbn [lf_allowed_domains].
  rewrite all_strs_fmap. reflexivity.
Qed.

(** The lease a granted request carries. *)
Lemma request_finish_ok a r ds at_ tok i :
  pr_domains r = sorted_set (λ d, d) (lower <$> ds) →
  request_finish a r at_ tok = Ok i →
  generation_of a (pr_key r) = pr_generation r ∧ pr_key r ∉ au_revoking a ∧
  lease_validate (lease i) = Ok tt ∧ signed a i ∧
  lease i = mkNetworkLease NETWORK_LEASE_SCHEMA_VERSION tok (pr_approval_id r) (run_id (pr_policy r))
    (ticket_id (pr_policy r)) (step (pr_policy r)) (policy_hash (pr_policy r)) (pr_purpose r)
    (pr_domains r) HTTPS_PORT at_ (at_ + pr_ttl r * NANOSECONDS_PER_SECOND) (pr_generation r).
Proof.
  intros Hds. unfold request_finish. rewrite raise_then, orb_false_iff, bool_decide_eq_false,
    negb_false_iff, Z.eqb_eq. intros ([Hr Hg] & Hf).
  apply bind_ok in Hf as (l & Hl & Hf). apply bind_ok in Hf as (m & Hm & Hf).
  unfold IssuedNetworkLease_new in Hf. rewrite raise_then in Hf. destruct Hf as (_ & [= <-]). cbn [lease].
  unfold NetworkLease_new in Hl. rewrite requested_types in Hl.
  apply bind_ok in Hl as (? & [= <-] & Hl). cbn zeta in Hl.
  cbn [nl_schema_version nl_lease_id nl_approval_id nl_run_id nl_ticket_id nl_step nl_policy_hash
       nl_purpose nl_allowed_domains nl_port nl_issued_at nl_expires_at nl_generation] in Hl.
  rewrite Hds, normalize_requested in Hl.
  rewrite then_ok in Hl. destruct Hl as (Hv & [= Hl]). subst l.
  split_and!; try done.
  - unfold signed. cbn [lease signature]. rewrite Hm. done.
  - by rewrite Hds.
Qed.

(** A granted request was approved with exactly the domains and lifetime it
    grants, and the lease then verifies for exactly the requested hosts, port
    443 and the lifetime, as long as nothing is revoked. *)
Theorem issued_lease_authorises a a' p has_ask pu ds ttl t12 ask at_ t16 i host port t :
  request_lease a a' p has_ask pu (PyTuple (PyStr <$> ds)) (PyInt ttl) t12 ask at_ t16 = Ok i →
  (∃ req, ask req = Some (PyBool true) ∧
     pget (u "domains") (apr_arguments req) = PyList (PyStr <$> nl_allowed_domains (lease i)) ∧
     pget (u "ttl_seconds") (apr_arguments req) = PyInt ttl) ∧
  (verify_request a' i p pu (PyStr host) (PyInt port) (PyInt t) = Ok tt ↔
   is_exact_dns_hostname host = true ∧ lower host ∈ lower <$> ds ∧ port = HTTPS_PORT ∧
   (at_ ≤ t < at_ + ttl * NANOSECONDS_PER_SECOND)%Z).
Proof.
  unfold request_lease. rewrite bind_ok. intros (r & Hb & Hf). rewrite then_ok in Hf.
  destruct Hf as [Hask Hf]. unfold request_begin in Hb.
  apply bind_ok in Hb as (k & Hk & Hb). destruct pu as [pu|]; [|done].
  apply bind_ok in Hb as (ns & Hns%requested_domains_ok & Hb).
  apply bind_ok in Hb as (tt' & Httl & Hb). rewrite !raise_then in Hb.
  destruct Hb as (_ & _ & [= Hr]).
  unfold requested_ttl in Httl. cbn in Httl. rewrite raise_then in Httl. destruct Httl as (_ & [= <-]).
  assert (Hdom : pr_domains r = sorted_set (λ d, d) (lower <$> ds)) by by rewrite <-Hr.
  destruct (request_finish_ok _ _ _ _ _ _ Hdom Hf) as (Hg & Hnr & Hv & Hs & Hl).
  apply policy_key_ok in Hk as (Hp & Hd & ->).
  split.
  - exists (approval_request r). split_and!.
    + unfold check_answer in Hask. repeat case_match; done.
    + rewrite Hl. by vm_compute.
    + rewrite <-Hr. by vm_compute.
  - unfold verify_request. rewrite (proj2 (policy_key_ok p _)) by done. cbn [mbind result_bind].
    rewrite verify_locked_ok. rewrite <-Hr in *. cbn in *. split.
    + intros (_ & _ & [_ _ _ _ _ (t' & [= <-] & Ht) _] & [(h & [= <-] & Hh & Hin) [= ->]]).
      rewrite Hl in *. cbn in *. rewrite Hns, elem_sorted_set in Hin. done.
    + intros (Hh & Hin & -> & Ht). split_and!; try done.
      * split; try done; rewrite Hl; cbn; [by repeat split|done|by exists t|by rewrite Hg].
      * rewrite Hl. split; [|done]. exists host. cbn. rewrite Hns, elem_sorted_set. done.
Qed.

(** The steps a closing loop has left. *)
Definition closing_measure (c : closing) : nat :=
  4 * length (cl_todo c) + match cl_at c with AtNext => 0 | AtCall _ | AtCheck _ => 1 | AtWait _ => 2 end.

(** The closing loop terminates: in every state it can take a step unless it
    is done, and every step brings it nearer to the end. *)
Theorem closing_terminates :
  (∀ a c, closing_done c = None → ∃ ev a' c', closing_step a c ev = Some (a', c')) ∧
  (∀ a c ev a' c', closing_step a c ev = Some (a', c') → closing_measure c' < closing_measure c).
Proof.
  split.
  - intros a [todo at_ cl fl]. unfold closing_done, closing_step. cbn. destruct at_ as [|h|h|h]; intros Hd.
    + destruct todo as [|h todo]; [done|]. exists EvRun. repeat case_match; eauto.
    + exists (EvAnswer None). destruct todo; cbn; eauto.
    + exists EvTimeout. destruct todo; eauto.
    + exists EvRun. destruct todo; eauto.
  - intros a [todo at_ cl fl] ev a' c'. unfold closing_step, closing_measure.
    intros Hs. destruct at_; repeat (case_match; simplify_eq/=); lia.
Qed.
End properties.

(** ** A concrete run *)
Definition no_floats : FloatRepr := λ _, [].
#[local] Existing Instance no_floats.

Definition demo_key : list N := replicate 32 7%N.
Definition demo_token : pystr := replicate 32 97%N.
Definition approve : ApprovalRequest → option pyval := λ _, Some (PyBool true).

Definition demo_request (a : Authority) : result IssuedNetworkLease :=
  request_lease a a sample_tight true (Some WEB_READ) (PyTuple (PyStr <$> [u "Example.com"])) (PyInt 1)
    (u "000000000000000000000001") approve 1000 demo_token.

Definition demo_lease : IssuedNetworkLease :=
  Eval vm_compute in
  match demo_request (Authority_init demo_key) with
  | Ok i => i
  | Err _ => mkIssued (mkNetworkLease 0 [] [] [] [] [] [] WEB_READ [] 0 0 0 0) []
  end.

Definition demo_register : register_args :=
  mkRegisterArgs demo_lease sample_tight (Some WEB_READ) (PyStr (u "example.com")) (PyInt 443)
    (PyInt 1000) (Some 1%N) (PyBool false) None None.

(** One connection is registered (its sweep finds nothing). *)
Definition register_ops : list net_op :=
  [OpCall (CallRegister demo_register); OpStep 0 EvRun; OpStep 0 (EvClock None demo_token)].
(** Its policy is revoked and its close callback confirms. *)
Definition revoke_ops : list net_op :=
  [OpCall (CallRevoke sample_tight); OpStep 1 EvRun; OpStep 1 (EvAnswer (Some (PyBool true)))].
(** The lease expires, a sweep at 2 s finds it, and the close callback fails. *)
Definition failed_sweep_ops : list net_op :=
  [OpCall (CallSweep (PyInt 2000000000)); OpStep 1 EvRun; OpStep 1 (EvAnswer (Some (PyBool false)));
   OpStep 1 EvRun].
(** A sweep with an earlier reading of the clock. *)
Definition stale_sweep_ops : list net_op :=
  [OpCall (CallSweep (PyInt 1000000)); OpStep 2 EvRun].

Definition net_after (ops : list net_op) : net := default (mkNet (Authority_init []) []) (net_run (net_init demo_key) ops).

Example demo_run_states :
  length (entries (net_auth (net_after register_ops))) = 1 ∧
  length (entries (net_auth (net_after (register_ops ++ revoke_ops)))) = 0 ∧
  net_threads (net_after (register_ops ++ failed_sweep_ops)) !! 1
    = Some (TDone (RInt (Err (NetworkLeaseConnectionCloseError 1)))).
Proof. vm_compute. split_and!; reflexivity. Qed.

(** An expired connection whose close fails blocks its policy, but a later
    sweep called with an earlier clock reading lifts the block while that
    connection is still open: a new lease is then granted next to it. *)
Theorem stale_clock_lifts_block :
  let blocked := net_after (register_ops ++ failed_sweep_ops) in
  let lifted := net_after (register_ops ++ failed_sweep_ops ++ stale_sweep_ops) in
  is_ok (demo_request (net_auth blocked)) = false ∧
  (entry_expired 2000000000 <$> entries (net_auth lifted)) = [true] ∧
  is_ok (demo_request (net_auth lifted)) = true.
Proof. vm_compute. split_and!; reflexivity. Qed.

(** ** Witnesses *)
Definition demo_policy_key : policy_key :=
  Eval vm_compute in
  (run_id sample_tight, ticket_id sample_tight, step sample_tight, policy_hash sample_tight).

(** A run is evaluated only as far as asking whether it gets stuck. *)
Definition runs (ops : list net_op) : bool := bool_decide (is_Some (net_run (net_init demo_key) ops)).

Lemma runs_after ops : runs ops = true → net_run (net_init demo_key) ops = Some (net_after ops).
Proof. unfold runs, net_after. rewrite bool_decide_eq_true. by intros [n ->]. Qed.

Lemma demo_reachable ops : runs ops = true → net_reachable demo_key (net_after ops).
Proof. intros. exists ops. by apply runs_after. Qed.

Lemma net_run_app n ops ops' : net_run n (ops ++ ops') = net_run n ops ≫= λ m, net_run m ops'.
Proof.
  revert n. induction ops as [|op ops IH]; intros n; [done|]. cbn.
  destruct (net_step n op); [|done]. cbn. apply IH.
Qed.

Lemma demo_continues ops ops' :
  runs (ops ++ ops') = true → net_run (net_after ops) ops' = Some (net_after (ops ++ ops')).
Proof.
  intros Hr. pose proof (runs_after _ Hr) as Ha. rewrite net_run_app in Ha.
  unfold net_after at 1. by destruct (net_run (net_init demo_key) ops).
Qed.

Lemma demo_step ops op : runs (ops ++ [op]) = true → net_step (net_after ops) op = Some (net_after (ops ++ [op])).
Proof. intros Hr%demo_continues. cbn in Hr. by destruct (net_step _ _). Qed.

Definition revoke_thread : closing := mkClosing [] AtNext 1 0.

Lemma revocation_complete_witness :
  let n' := net_after (register_ops ++ revoke_ops ++ [OpStep 1 EvRun]) in
  2%Z = 2%Z ∧ ∀ e, e ∈ entries (net_auth n') → c_key e = demo_policy_key → (2 ≤ nl_generation (c_lease e))%Z.
Proof.
  apply (revocation_complete demo_key (net_after (register_ops ++ revoke_ops)) 1 demo_policy_key 2
           revoke_thread EvRun (net_after (register_ops ++ revoke_ops ++ [OpStep 1 EvRun])) 2 []).
  - apply demo_reachable. vm_compute. reflexivity.
  - vm_compute. reflexivity.
  - apply (demo_step (register_ops ++ revoke_ops)). vm_compute. reflexivity.
  - vm_compute. reflexivity.
  - reflexivity.
Defined.

Definition demo_pending : pending_request :=
  mkPending sample_tight demo_policy_key WEB_READ [u "example.com"] 1 1 (u "ap-net-1").

Lemma revocation_final_witness :
  let n' := net_after (register_ops ++ [OpCall (CallRevoke sample_tight)]) in
  verify_request (net_auth n') demo_lease sample_tight (Some WEB_READ) (PyStr (u "example.com")) (PyInt 443)
    (PyInt 2000) ≠ Ok tt ∧
  request_finish (net_auth n') demo_pending 5 demo_token
    = Err (NLE "network scope was revoked while approval was pending").
Proof.
  apply (revocation_final (net_after register_ops) sample_tight demo_policy_key []
           (net_after (register_ops ++ [OpCall (CallRevoke sample_tight)])));
    [vm_compute; reflexivity|apply demo_continues; vm_compute; reflexivity|vm_compute; discriminate
    |reflexivity|vm_compute; discriminate].
Defined.

Lemma callbacks_exclusive_witness :
  length (filter (λ t, in_call t = Some (mkHandle demo_token 0))
            (net_threads (net_after (register_ops ++ take 2 revoke_ops)))) = 1.
Proof.
  assert (Hr : net_reachable demo_key (net_after (register_ops ++ take 2 revoke_ops))).
  { apply demo_reachable. vm_compute. reflexivity. }
  rewrite (callbacks_exclusive demo_key _ (mkHandle demo_token 0) Hr). vm_compute. reflexivity.
Defined.

Definition demo_connection : connection :=
  mkConnection (mkHandle demo_token 0) demo_policy_key (lease demo_lease) 1 None false true false.

Lemma stale_connection_blocks_witness :
  verify_request (net_auth (net_after (register_ops ++ take 2 revoke_ops))) demo_lease sample_tight
    (Some WEB_READ) (PyStr (u "example.com")) (PyInt 443) (PyInt 2000) ≠ Ok tt.
Proof.
  apply (stale_connection_blocks demo_key (net_after (register_ops ++ take 2 revoke_ops)) demo_connection
           sample_tight).
  - apply demo_reachable. vm_compute. reflexivity.
  - by_compute.
  - vm_compute. reflexivity.
  - vm_compute. discriminate.
Defined.

Lemma issued_lease_authorises_witness :
  verify_request (Authority_init demo_key) demo_lease sample_tight (Some WEB_READ) (PyStr (u "EXAMPLE.com"))
    (PyInt 443) (PyInt 2000) = Ok tt.
Proof.
  refine (proj2 (proj2 (issued_lease_authorises (Authority_init demo_key) (Authority_init demo_key)
    sample_tight true (Some WEB_READ) [u "Example.com"] 1 (u "000000000000000000000001") approve 1000
    demo_token demo_lease (u "EXAMPLE.com") 443 2000 _)) _).
  - vm_compute. reflexivity.
  - split_and!; [vm_compute; reflexivity| |reflexivity|vm_compute; discriminate|vm_compute; reflexivity].
    vm_compute. constructor.
Defined.
