(* ===== verification/LeaseMonitor.v ===== *)
(** * The lease expiry monitor ([NetworkLeaseExpiryMonitor])

    The single-use sweep thread: its construction, [start], [stop], one turn of
    the thread's loop, and the health test that guards a publication. *)

From Stdlib Require Import SpecFloat.
From S2P Require Import Prelude PyText PyVal SandboxPolicy NetworkLease.

(** [0.01] and [1.0], the bounds of the interval. *)
Definition MIN_NETWORK_LEASE_SWEEP_INTERVAL_SECONDS : spec_float := S754_finite false 5764607523034235 (-59).
Definition MAX_NETWORK_LEASE_SWEEP_INTERVAL_SECONDS : spec_float := S754_finite false 4503599627370496 (-52).

Record monitor := mkMonitor {
  mo_started : bool;
  mo_stopped : bool;
  mo_stop_event : bool;
  mo_thread : option bool;        (** the thread, and whether it is alive *)
  mo_failure_count : nat;
  mo_last_error : option pystr
}.

Definition interval_ok (v : pyval) : bool :=
  match v with
  | PyInt z => (z =? 1)%Z
  | PyFloat f => SFleb MIN_NETWORK_LEASE_SWEEP_INTERVAL_SECONDS f
                 && SFleb f MAX_NETWORK_LEASE_SWEEP_INTERVAL_SECONDS
  | _ => false
  end.

Definition NetworkLeaseExpiryMonitor_new (interval : pyval) : result monitor :=
  raise_if (negb (interval_ok interval)) (NLE "sweep interval must be between 0.01 and 1.0 seconds");;
  Ok (mkMonitor false false false None 0 None).

Definition alive (m : monitor) : bool := default false (mo_thread m).

(** [healthy_guard]: the body runs exactly when this succeeds. *)
Definition healthy_guard (m : monitor) : result unit :=
  raise_if (negb (mo_started m) || mo_stopped m || negb (alive m) || negb (mo_failure_count m =? 0))
    (NLE "network lease expiry monitor is unhealthy").

(** [launched]: [thread.start()] does not raise. *)
Definition start (m : monitor) (launched : bool) : result unit * monitor :=
  if mo_started m || mo_stopped m then
    (Err (RuntimeError "network lease expiry monitor is single-use"), m)
  else if launched then
    (Ok tt, mkMonitor true (mo_stopped m) (mo_stop_event m) (Some true) (mo_failure_count m) (mo_last_error m))
  else
    (Err (RuntimeError "can't start new thread"),
     mkMonitor false (mo_stopped m) (mo_stop_event m) None (mo_failure_count m) (mo_last_error m)).

(** [stop], up to its bounded wait: [joined] is whether the thread has ended by
    then (it may be the caller itself). *)
Definition stop (m : monitor) (joined : bool) : bool * monitor :=
  let still := match mo_thread m with Some b => Some (b && negb joined) | None => None end in
  (match mo_thread m with None => true | Some b => negb (b && negb joined) end,
   mkMonitor (mo_started m) true true still (mo_failure_count m) (mo_last_error m)).

(** One turn of [_run] with the result of its sweep; [None]: the loop ends. *)
Definition run_turn (m : monitor) (sweep : result Z) : monitor :=
  if negb (alive m) then m
  else if mo_stop_event m then
    mkMonitor (mo_started m) (mo_stopped m) true (Some false) (mo_failure_count m) (mo_last_error m)
  else match sweep with
       | Err _ => mkMonitor (mo_started m) (mo_stopped m) false (mo_thread m) (S (mo_failure_count m))
                    (Some (u "connection_cleanup_failed"))
       | Ok _ => mkMonitor (mo_started m) (mo_stopped m) false (mo_thread m) (mo_failure_count m) None
       end.

Inductive monitor_op :=
  | MStart (launched : bool)
  | MStop (joined : bool)
  | MTurn (sweep : result Z).

Definition monitor_step (m : monitor) (op : monitor_op) : monitor :=
  match op with
  | MStart launched => (start m launched).2
  | MStop joined => (stop m joined).2
  | MTurn sweep => run_turn m sweep
  end.

Definition monitor_run (m : monitor) (ops : list monitor_op) : monitor := foldl monitor_step m ops.

Definition is_stop (op : monitor_op) : bool := match op with MStop _ => true | _ => false end.
Definition is_launch (op : monitor_op) : bool := match op with MStart b => b | _ => false end.
(** The sweeps made after the thread was started failed nowhere. *)
Definition failed_turn (op : monitor_op) : bool := match op with MTurn (Err _) => true | _ => false end.

(** What a monitor in use looks like after some operations. *)
Definition monitor_trace (ops : list monitor_op) (m : monitor) : Prop :=
  mo_stopped m = existsb is_stop ops ∧ mo_stop_event m = existsb is_stop ops ∧
  (mo_started m = true → ∃ pre post, ops = pre ++ MStart true :: post ∧
     existsb is_stop pre = false ∧
     (mo_stopped m = false → mo_thread m = Some true ∧
        (mo_failure_count m = 0 ↔ existsb failed_turn post = false))) ∧
  (mo_started m = false → mo_thread m = None ∧ mo_failure_count m = 0 ∧
     (existsb is_stop ops = false → existsb is_launch ops = false)).

Lemma monitor_trace_step ops m op :
  monitor_trace ops m → monitor_trace (ops ++ [op]) (monitor_step m op).
Proof.
  intros (Hst & Hev & Hon & Hoff). unfold monitor_trace.
  rewrite !existsb_app. cbn [existsb]. rewrite !orb_false_r.
  destruct op as [l|j|s]; cbn [monitor_step is_stop is_launch].
  - rewrite !orb_false_r. unfold start.
    destruct (mo_started m) eqn:Es; cbn [orb snd].
    { rewrite ?Es. split_and!; try done. intros _.
      destruct (Hon eq_refl) as (pre & post & -> & Hpre & Hrest).
      exists pre, (post ++ [MStart l]). rewrite <-app_assoc. split_and!; try done.
      rewrite existsb_app. cbn. by rewrite orb_false_r. }
    destruct (Hoff eq_refl) as (Ht & Hf & Hl).
    destruct (mo_stopped m) eqn:Estop; cbn [orb snd].
    { rewrite ?Es, ?Estop. split_and!; try done. intros _. split_and!; try done. by rewrite <-Hst. }
    destruct l; cbn.
    + split_and!; try done. intros _. exists ops, []. split_and!; try done.
    + rewrite Hf. split_and!; try done. intros _. split_and!; try done. intros _. rewrite Hl; [done|].
      by rewrite <-Hst.
  - rewrite !orb_true_r. cbn. split_and!; try done.
    + intros Hs. destruct (Hon Hs) as (pre & post & -> & Hpre & _).
      exists pre, (post ++ [MStop j]). by rewrite <-app_assoc.
    + intros Hs. destruct (Hoff Hs) as (-> & ? & _). done.
  - rewrite !orb_false_r. unfold run_turn, alive.
    destruct (mo_started m) eqn:Es.
    2: { destruct (Hoff eq_refl) as (Ht & Hf & Hl). rewrite Ht. cbn. rewrite ?Es. split_and!; done. }
    destruct (Hon eq_refl) as (pre & post & -> & Hpre & Hrest).
    destruct (mo_stopped m) eqn:Estop.
    { rewrite Hev, <-Hst. destruct (default false (mo_thread m)); cbn; rewrite ?Es, ?Estop, ?Hev, <-?Hst;
        (split_and!; try done); intros _; exists pre, (post ++ [MTurn s]); by rewrite <-app_assoc. }
    destruct (Hrest eq_refl) as [Ht Hf]. rewrite Ht, Hev, <-Hst. cbn.
    destruct s as [z|e]; cbn; split_and!; try done; intros _.
    + exists pre, (post ++ [MTurn (Ok z)]). rewrite <-app_assoc, existsb_app. cbn. by rewrite orb_false_r.
    + exists pre, (post ++ [MTurn (Err e)]). rewrite <-app_assoc, existsb_app. cbn. by rewrite orb_true_r.
Qed.

Lemma monitor_trace_run m0 ops : 
  monitor_trace [] m0 → monitor_trace ops (monitor_run m0 ops).
Proof.
  intros H0. induction ops as [|op ops IH] using rev_ind; [done|].
  unfold monitor_run. rewrite foldl_app. cbn. by apply monitor_trace_step.
Qed.

(** The guard lets a publication through only while the one sweep thread
    that was started is running, was never stopped, and no sweep of it has ever
    failed: a failure is never forgotten, whatever succeeds later. *)
Theorem healthy_guard_sound interval m0 ops :
  NetworkLeaseExpiryMonitor_new interval = Ok m0 →
  healthy_guard (monitor_run m0 ops) = Ok tt →
  existsb is_stop ops = false ∧
  ∃ pre post, ops = pre ++ MStart true :: post ∧ existsb failed_turn post = false.
Proof.
  intros Hn Hg. unfold NetworkLeaseExpiryMonitor_new in Hn. rewrite raise_then in Hn.
  destruct Hn as [_ [= <-]].
  destruct (monitor_trace_run (mkMonitor false false false None 0 None) ops) as (Hst & _ & Hon & _); [done|].
  unfold healthy_guard in Hg. rewrite raise_if_ok, !orb_false_iff, !negb_false_iff, Nat.eqb_eq in Hg.
  destruct Hg as [[[Hs Hns] _] Hf]. split; [by rewrite <-Hst|].
  destruct (Hon Hs) as (pre & post & -> & _ & Hrest). exists pre, post. split; [done|].
  by apply Hrest.
Qed.

Lemma healthy_guard_sound_witness :
  ∃ pre post, [MTurn (Err ConnectRequestError); MStart true; MTurn (Ok 0%Z)] = pre ++ MStart true :: post ∧
              existsb failed_turn post = false.
Proof.
  apply (healthy_guard_sound (PyFloat (S754_finite false 7205759403792794 (-56)))
           (mkMonitor false false false None 0 None)); vm_compute; reflexivity.
Defined.
