(* ===== verification/Regex.v ===== *)
(** * Regular expressions

    The patterns of the source that are more than one repeated class: classes,
    sequence, alternatives, repetition and the word boundary.  [ends] computes
    every position a match can end at; [rmatch] is the meaning of a pattern as a
    relation, and [ends_iff] shows that the two agree. *)

From S2P Require Import Prelude PyText.

(** Which characters outside ASCII are word characters is Unicode data. *)
Class UnicodeWord := uni_word : N → bool.

(** A position in a text: the character before it, and the rest. *)
Definition pos : Type := option N * pystr.
#[export] Instance pos_eq_dec : EqDecision pos.
Proof. solve_decision. Defined.

Inductive regex :=
  | RChar (f : N → bool)
  | REps
  | RSeq (r1 r2 : regex)
  | RAlt (r1 r2 : regex)
  | RStar (r : regex)
  | RBound.          (** [\b] *)

Section regex.
Context `{UnicodeWord}.

Definition is_word (c : N) : bool :=
  if is_ascii c then is_alnum_ascii c || (c =? 95)%N else uni_word c.
Definition word_before (p : pos) : bool := match p.1 with Some c => is_word c | None => false end.
Definition word_after (p : pos) : bool := match p.2 with c :: _ => is_word c | [] => false end.
Definition at_boundary (p : pos) : bool := xorb (word_before p) (word_after p).

(** Meaning. *)
Inductive rmatch : regex → pos → pos → Prop :=
  | m_char f q c s : f c = true → rmatch (RChar f) (q, c :: s) (Some c, s)
  | m_eps p : rmatch REps p p
  | m_seq r1 r2 p1 p2 p3 : rmatch r1 p1 p2 → rmatch r2 p2 p3 → rmatch (RSeq r1 r2) p1 p3
  | m_alt_l r1 r2 p q : rmatch r1 p q → rmatch (RAlt r1 r2) p q
  | m_alt_r r1 r2 p q : rmatch r2 p q → rmatch (RAlt r1 r2) p q
  | m_star_nil r p : rmatch (RStar r) p p
  | m_star_cons r p1 p2 p3 : rmatch r p1 p2 → rmatch (RStar r) p2 p3 → rmatch (RStar r) p1 p3
  | m_bound p : at_boundary p = true → rmatch RBound p p.

(** Repetition, following only the iterations that consume something; [n]
    bounds their number. *)
Fixpoint star_ends (step : pos → list pos) (n : nat) (p : pos) : list pos :=
  p :: match n with
       | O => []
       | S n' => concat ((λ q, if length q.2 <? length p.2 then star_ends step n' q else []) <$> step p)
       end.

Fixpoint ends (r : regex) (p : pos) : list pos :=
  match r with
  | RChar f => match p.2 with
               | c :: s => if f c then [(Some c, s)] else []
               | [] => []
               end
  | REps => [p]
  | RSeq r1 r2 => concat (ends r2 <$> ends r1 p)
  | RAlt r1 r2 => ends r1 p ++ ends r2 p
  | RStar r => star_ends (ends r) (length p.2) p
  | RBound => if at_boundary p then [p] else []
  end.

(** [re.match], [re.fullmatch] and [re.search], as tests. *)
Definition re_match (r : regex) (s : pystr) : bool := match ends r (None, s) with [] => false | _ => true end.
Definition re_fullmatch (r : regex) (s : pystr) : bool := existsb (λ p, bool_decide (p.2 = [])) (ends r (None, s)).
Fixpoint search_from (r : regex) (q : option N) (s : pystr) : bool :=
  match ends r (q, s) with
  | _ :: _ => true
  | [] => match s with [] => false | c :: s' => search_from r (Some c) s' end
  end.
Definition re_search (r : regex) (s : pystr) : bool := search_from r None s.

(** ** The two agree *)
Lemma elem_concat_map {A B} (f : A → list B) (l : list A) y :
  y ∈ concat (f <$> l) ↔ ∃ x, x ∈ l ∧ y ∈ f x.
Proof.
  induction l as [|z l IH]; cbn.
  - split; [intros Hy; by apply elem_of_nil in Hy|]. intros (x & Hx & _). by apply elem_of_nil in Hx.
  - rewrite elem_of_app, IH. setoid_rewrite elem_of_cons. naive_solver.
Qed.

(** A match moves forward; an empty one does not move. *)
Lemma rmatch_forward r p q : rmatch r p q → q = p ∨ length q.2 < length p.2.
Proof. induction 1; cbn; naive_solver lia. Qed.

Lemma star_ends_iff r n p q :
  (∀ p q, q ∈ ends r p ↔ rmatch r p q) → length p.2 ≤ n →
  q ∈ star_ends (ends r) n p ↔ rmatch (RStar r) p q.
Proof.
  intros Hr. revert p. induction n as [|n IH]; intros p Hn; cbn [star_ends].
  - rewrite list_elem_of_singleton. split; [intros ->; constructor|].
    intros [->|?]%rmatch_forward; [done|lia].
  - rewrite elem_of_cons, elem_concat_map. split.
    + intros [->|(x & Hx%Hr & Hq)]; [constructor|].
      destruct (Nat.ltb_spec (length x.2) (length p.2)); [|by apply elem_of_nil in Hq].
      apply IH in Hq; [|lia]. by econstructor.
    + intros Hs. remember (RStar r) as rs eqn:Ers. induction Hs as [| | | | | |r' p1 p2 p3 H1 _ H2 IH2|]; try done.
      { by left. }
      injection Ers as ->. destruct (rmatch_forward _ _ _ H1) as [->|Hlt]; [by apply IH2|].
      right. exists p2. split; [by apply Hr|].
      destruct (Nat.ltb_spec (length p2.2) (length p1.2)); [|lia]. apply IH; [lia|done].
Qed.

Lemma ends_iff r p q : q ∈ ends r p ↔ rmatch r p q.
Proof.
  revert p q. induction r as [f| |r1 IH1 r2 IH2|r1 IH1 r2 IH2|r IH|]; intros p q; cbn [ends].
  - destruct p as [q0 [|c s]]; cbn.
    + split; [intros Hq; by apply elem_of_nil in Hq|]. intros Hm. by inversion Hm.
    + destruct (f c) eqn:E.
      * rewrite list_elem_of_singleton. split; [intros ->; by constructor|]. intros Hm. by inversion Hm.
      * split; [intros Hq; by apply elem_of_nil in Hq|]. intros Hm. inversion Hm; congruence.
  - rewrite list_elem_of_singleton. split; [intros ->; constructor|]. intros Hm. by inversion Hm.
  - rewrite elem_concat_map. setoid_rewrite IH1. setoid_rewrite IH2. split.
    + intros (x & ? & ?). by econstructor.
    + intros Hm. inversion Hm; subst. eauto.
  - rewrite elem_of_app, IH1, IH2. split.
    + intros [?|?]; [by apply m_alt_l|by apply m_alt_r].
    + intros Hm. inversion Hm; subst; auto.
  - by apply star_ends_iff.
  - destruct (at_boundary p) eqn:E.
    + rewrite list_elem_of_singleton. split; [intros ->; by constructor|]. intros Hm. by inversion Hm.
    + split; [intros Hq; by apply elem_of_nil in Hq|]. intros Hm. inversion Hm; congruence.
Qed.

(** A search finds exactly the texts with a match at some position. *)
Lemma search_from_iff r q s :
  search_from r q s = true ↔
  ∃ a b p, s = a ++ b ∧ rmatch r (match last a with Some c => Some c | None => q end, b) p.
Proof.
  revert q. induction s as [|c s IH]; intros q; cbn [search_from];
    pose proof (ends_iff r) as He; destruct (ends r (q, _)) as [|p ps] eqn:E.
  - split; [done|]. intros (a & b & p & Hs & Hm). symmetry in Hs. apply app_nil in Hs as [-> ->].
    apply He in Hm. cbn in Hm. rewrite E in Hm. by apply elem_of_nil in Hm.
  - split; [|done]. intros _. exists [], [], p. split; [done|]. apply He. cbn. rewrite E. constructor.
  - rewrite IH. split.
    + intros (a & b & p & -> & Hm). exists (c :: a), b, p. split; [done|].
      rewrite last_cons. by destruct (last a).
    + intros (a & b & p & Hs & Hm). destruct a as [|d a].
      * cbn in Hs, Hm. subst b. apply He in Hm. rewrite E in Hm. by apply elem_of_nil in Hm.
      * injection Hs as <- ->. exists a, b, p. split; [done|].
        rewrite last_cons in Hm. by destruct (last a).
  - split; [|done]. intros _. exists [], (c :: s), p. split; [done|]. apply He. cbn. rewrite E. constructor.
Qed.

Lemma re_search_iff r s :
  re_search r s = true ↔ ∃ a b p, s = a ++ b ∧ rmatch r (last a, b) p.
Proof.
  unfold re_search. rewrite search_from_iff.
  split; intros (a & b & p & ? & Hm); exists a, b, p; (split; [done|]); by destruct (last a).
Qed.

Lemma re_fullmatch_iff r s : re_fullmatch r s = true ↔ ∃ q, rmatch r (None, s) (q, []).
Proof.
  unfold re_fullmatch. rewrite existsb_Exists. split.
  - intros ([q t] & Hin & Ht). destruct t; [|done]. exists q. by apply ends_iff.
  - intros [q Hm]. exists (q, []). split; [by apply ends_iff|done].
Qed.
End regex.

(** ** Pattern notation *)
Definition rlit (s : string) : regex := foldr (λ c r, RSeq (RChar (N.eqb c)) r) REps (u s).
Definition rplus (f : N → bool) : regex := RSeq (RChar f) (RStar (RChar f)).
Definition rstar (f : N → bool) : regex := RStar (RChar f).
Fixpoint rseqs (rs : list regex) : regex :=
  match rs with [] => REps | [r] => r | r :: rs' => RSeq r (rseqs rs') end.
Fixpoint ralts (rs : list regex) : regex :=
  match rs with [] => RChar (λ _, false) | [r] => r | r :: rs' => RAlt r (ralts rs') end.

(** [flags=re.IGNORECASE]: a character stands for every character with the same
    lower case; besides ASCII, four others fold onto an ASCII letter. *)
Definition fold_case (c : N) : N :=
  if is_upper_az c then (c + 32)%N
  else if (c =? 8490)%N then 107%N
  else if (c =? 383)%N then 115%N
  else if (c =? 304)%N || (c =? 305)%N then 105%N
  else c.
Definition rlit_i (s : string) : regex :=
  foldr (λ c r, RSeq (RChar (λ d, (fold_case d =? fold_case c)%N)) r) REps (u s).
Definition any_char (c : N) : bool := negb (c =? newline)%N.
