(* ===== verification/Guard.v ===== *)
(** * The tool guard ([src/src/icode/guard.py])

    The application-level decision on a read, a write or a command, made before
    every tool call: allow, ask a human, or deny. *)

From S2P Require Import Prelude PyText PyVal Paths Regex.

Inductive Decision := ALLOW | REQUIRE_APPROVAL | DENY.
#[export] Instance Decision_eq_dec : EqDecision Decision.
Proof. solve_decision. Defined.

Record Verdict := mkVerdict { decision : Decision; reason : pystr }.
#[export] Instance Verdict_eq_dec : EqDecision Verdict.
Proof. solve_decision. Defined.

Definition allowed (v : Verdict) : bool := bool_decide (decision v = ALLOW).

(** ** Command tables *)
Definition _SHELL_METACHARS : list pystr :=
  [u "&&"; u "||"; u "|"; u ";"; u ">"; u "<"; u "$("; u "`"; [newline]; u "&"].

Definition az_i (c : N) : bool := is_lower_az (fold_case c).
Definition spaces1 : regex := rplus is_space.
Definition anything : regex := rstar any_char.

Definition _DANGEROUS_PATTERNS : list (regex * pystr) :=
  [ (ralts [rseqs [RBound; rlit_i "rm"; spaces1; rlit_i "-"; rstar az_i; rlit_i "r"; rstar az_i; rlit_i "f"];
            rseqs [RBound; rlit_i "rm"; spaces1; rlit_i "-"; rstar az_i; rlit_i "f"; rstar az_i; rlit_i "r"]],
     u "递归强制删除");
    (rseqs [RBound; rlit_i "rm"; spaces1; rlit_i "-rf"; RBound], u "递归强制删除");
    (ralts [rseqs [RBound; rlit_i "mkfs"; RBound]; rseqs [RBound; rlit_i "format"; RBound];
            rseqs [RBound; rlit_i "fdisk"; RBound]], u "磁盘格式化");
    (rseqs [RBound; rlit_i "dd"; spaces1; rlit_i "if="], u "裸设备写入");
    (rseqs [rlit_i ":()"; rstar is_space; rlit_i "{"; anything; rlit_i "}"; rstar is_space; rlit_i ";"],
     u "fork 炸弹");
    (ralts [rseqs [RBound; rlit_i "shutdown"; RBound]; rseqs [RBound; rlit_i "reboot"; RBound];
            rseqs [RBound; rlit_i "halt"; RBound]], u "电源操作");
    (ralts [rseqs [RBound; rlit_i "git"; spaces1; rlit_i "push"; RBound; anything; rlit_i "--force"];
            rseqs [RBound; rlit_i "git"; spaces1; rlit_i "push"; RBound; anything; rlit_i "-f"; RBound]],
     u "强制推送");
    (rseqs [RBound; rlit_i "git"; spaces1; rlit_i "reset"; spaces1; rlit_i "--hard"; RBound], u "丢弃本地改动");
    (rseqs [RBound; rlit_i "chmod"; spaces1; rlit_i "-R"; spaces1; rlit_i "777"; RBound], u "危险权限变更");
    (rseqs [RBound; ralts [rlit_i "curl"; rlit_i "wget"]; RBound; rstar (λ c, negb (c =? 124)%N);
            rlit_i "|"; rstar is_space; ralts [rlit_i "sh"; rlit_i "bash"; rlit_i "zsh"]; RBound],
     u "管道执行远端脚本");
    (ralts [rseqs [RBound; rlit_i "reg"; spaces1; rlit_i "delete"; RBound];
            rseqs [RBound; rlit_i "regedit"; RBound]], u "注册表删除");
    (rseqs [RBound; rlit_i "Remove-Item"; RBound; anything; rlit_i "-Recurse"], u "递归删除");
    (rseqs [RBound; rlit_i "del"; spaces1; rlit_i "/";
            RChar (λ c, ((fold_case c =? 115) || (fold_case c =? 113))%N); RBound], u "递归删除") ].
#[global] Arguments _DANGEROUS_PATTERNS : simpl never.

Definition _DESTRUCTIVE_FIND_ARGUMENTS : list pystr :=
  [u "-delete"; u "-exec"; u "-execdir"; u "-ok"; u "-okdir"].

Definition _DEFAULT_COMMAND_ALLOWLIST : list pystr :=
  [u "python"; u "python3"; u "py"; u "git"; u "ls"; u "dir"; u "cat"; u "type"; u "echo"; u "pwd"; u "cd";
   u "grep"; u "rg"; u "find"; u "which"; u "where"; u "make"; u "gcc"; u "cc"; u "clang";
   u "diff"; u "head"; u "tail"; u "wc"; u "sort"; u "uniq"].

Section guard.
Context `{UnicodeWord}.

(** [re.fullmatch("-[a-z]*x[a-z]*", token)] *)
Definition short_flag (x : string) (token : pystr) : bool :=
  re_fullmatch (rseqs [rlit "-"; rstar is_lower_az; rlit x; rstar is_lower_az]) token.

Definition _argument_verdict (head : pystr) (ps : list pystr) : option Verdict :=
  let lowered := lower <$> ps in
  let args := drop 1 lowered in
  if head =s u "find" then
    if existsb (λ t, t ∈s _DESTRUCTIVE_FIND_ARGUMENTS) args
    then Some (mkVerdict DENY (u "find 破坏型动作：-delete/-exec 系列")) else None
  else if head =s u "git" then
    match args with
    | sub :: rest =>
      if sub =s u "clean" then
        let flags := filter (λ t, startswith (u "-") t = true) rest in
        let forced := existsb (λ t, (t ∈s [u "--force"; u "-f"])
                                    || (negb (startswith (u "--") t) && has_char 102 (drop 1 t))) flags in
        if forced then Some (mkVerdict REQUIRE_APPROVAL (u "git clean 强制删除工作区内容：按破坏型动作交人工确认"))
        else None
      else None
    | [] => None
    end
  else if head ∈s [u "python"; u "python3"; u "py"] then
    if existsb (λ t, (t =s u "-c") || (negb (startswith (u "--") t) && startswith (u "-c") t)) args
    then Some (mkVerdict REQUIRE_APPROVAL (u "python -c 任意代码执行：交人工确认")) else None
  else if head =s u "rm" then
    let short := filter (λ t, startswith (u "-") t = true ∧ startswith (u "--") t = false) args in
    if ((u "--recursive" ∈s args) || existsb (short_flag "r") short)
       && ((u "--force" ∈s args) || existsb (short_flag "f") short)
    then Some (mkVerdict DENY (u "递归强制删除")) else None
  else None.

(** ** The scope *)
Record Scope := mkScope {
  workspace_root : Path;
  readable_roots : list Path;
  allowed_read_roots : option (list Path);
  allowed_read_files : option (list Path);
  allowed_write_roots : option (list Path);
  deny_read_roots : list Path;
  deny_write_roots : list Path;
  command_allowlist : list pystr
}.

Context `{FileSystem}.

(** [path.resolve()] in [__post_init__]: an error propagates. *)
Fixpoint resolve_all (ps : list Path) : result (list Path) :=
  match ps with
  | [] => Ok []
  | p :: ps' =>
    match fs_resolve p with
    | None => Err (RuntimeError "resolve")
    | Some q => qs ← resolve_all ps'; Ok (q :: qs)
    end
  end.
Definition resolve_opt (o : option (list Path)) : result (option (list Path)) :=
  match o with None => Ok None | Some ps => qs ← resolve_all ps; Ok (Some qs) end.

(** [Scope(...)]: [__post_init__] resolves every path. *)
Definition Scope_new (s : Scope) : result Scope :=
  match fs_resolve (workspace_root s) with
  | None => Err (RuntimeError "resolve")
  | Some ws =>
    rr ← resolve_all (readable_roots s);
    ar ← resolve_opt (allowed_read_roots s);
    af ← resolve_opt (allowed_read_files s);
    aw ← resolve_opt (allowed_write_roots s);
    dr ← resolve_all (deny_read_roots s);
    dw ← resolve_all (deny_write_roots s);
    Ok (mkScope ws rr ar af aw dr dw (command_allowlist s))
  end.

(** [_normalize] keeps the path when [resolve] raises an [OSError].  Any other
    exception, as the [ValueError] for a NUL character in the path, leaves
    [check_read] and [check_write]: no verdict is given, and the calls modelled
    here are the others. *)
Definition _normalize (p : Path) : Path := match fs_resolve p with Some q => q | None => p end.

Definition _resolve (s : Scope) (p : Path) : Path :=
  _normalize (if is_absolute p then p else joinpath (workspace_root s) (parts p)).

Definition within_any (roots : list Path) (p : Path) : bool := existsb (_is_within p) roots.

Definition check_read (s : Scope) (path : Path) : Verdict :=
  let target := _resolve s path in
  if within_any (deny_read_roots s) target then mkVerdict DENY (u "受保护路径禁止读取")
  else match allowed_read_files s with
  | Some files => if target ∈s files then mkVerdict ALLOW (u "精确文件白名单允许读取")
                  else mkVerdict DENY (u "策略未授权读取该文件")
  | None =>
    match allowed_read_roots s with
    | Some roots => if within_any roots target then mkVerdict ALLOW (u "策略允许读取")
                    else mkVerdict DENY (u "策略未授权读取")
    | None =>
      if _is_within target (workspace_root s) then mkVerdict ALLOW (u "工作区内读取")
      else match find (_is_within target) (readable_roots s) with
           | Some root => mkVerdict ALLOW (u "只读根内读取：" ++ path_str root)
           | None => mkVerdict REQUIRE_APPROVAL (u "工作区外读取，需人工确认")
           end
    end
  end.

Definition check_write (s : Scope) (path : Path) : Verdict :=
  let target := _resolve s path in
  if within_any (deny_write_roots s) target then mkVerdict DENY (u "受保护路径禁止写入")
  else match allowed_write_roots s with
  | Some roots => if within_any roots target then mkVerdict ALLOW (u "策略允许写入")
                  else mkVerdict DENY (u "策略未授权写入")
  | None => if _is_within target (workspace_root s) then mkVerdict ALLOW (u "工作区内写入")
            else mkVerdict DENY (u "工作区外写入：默认拒绝")
  end.

(** ** Commands *)
Inductive command := CmdText (s : pystr) | CmdArgs (ps : list pystr).

(** A string, or a non-empty list or tuple of strings. *)
Definition as_command (argv : pyval) : option command :=
  match argv with
  | PyStr s => Some (CmdText s)
  | PyList (v :: l) | PyTuple (v :: l) => ps ← all_strs (v :: l); Some (CmdArgs ps)
  | _ => None
  end.

Definition cmd_parts (c : command) : list pystr := match c with CmdText s => [s] | CmdArgs ps => ps end.
Definition cmd_text (c : command) : pystr := match c with CmdText s => s | CmdArgs ps => join [32%N] ps end.

(** Whether [_shell_shape_problem] reports a problem. *)
Definition _shell_shape_problem (c : command) : bool :=
  existsb (λ p, existsb (λ m, contains m p) _SHELL_METACHARS) (cmd_parts c).

Definition first_part (l : list pystr) : pystr := match l with w :: _ => w | [] => [] end.

(** The program a command runs: the last component of its first word, without
    [.exe]. *)
Definition cmd_head (c : command) : pystr :=
  let head := strip (match c with CmdText s => first_part (split_ws s) | CmdArgs ps => first_part ps end) in
  let head := path_name (Path_of_str head) in
  if endswith (u ".exe") (lower head) then take (length head - 4) head else head.

Definition dangerous (text : pystr) : option pystr :=
  snd <$> find (λ p, re_search p.1 text) _DANGEROUS_PATTERNS.

Definition check_command (s : Scope) (argv : pyval) : Verdict :=
  match as_command argv with
  | None => mkVerdict DENY (u "命令参数必须是字符串或字符串列表")
  | Some c =>
    if match c with CmdArgs (p :: _) => bool_decide (strip p = []) | _ => false end
    then mkVerdict DENY (u "命令参数缺少可执行程序")
    else if existsb (has_char 0) (cmd_parts c) then mkVerdict DENY (u "命令参数含非法字符")
    else
      let stripped := strip (cmd_text c) in
      if stripped =s [] then mkVerdict DENY (u "空命令")
      else if _shell_shape_problem c then mkVerdict DENY (u "检测到 shell 语法")
      else match dangerous stripped with
      | Some label => mkVerdict DENY (u "命中危险模式：" ++ label)
      | None =>
        let head := cmd_head c in
        let ps := match c with CmdText _ => split_ws stripped | CmdArgs ps => ps end in
        match _argument_verdict head ps with
        | Some v => v
        | None =>
          if head ∈s command_allowlist s then mkVerdict ALLOW (u "命令白名单：" ++ head)
          else mkVerdict REQUIRE_APPROVAL (u "不在白名单：" ++ head)
        end
      end
  end.

(** ** Lemmas *)
Lemma argument_verdict_not_allow head ps v : _argument_verdict head ps = Some v → decision v ≠ ALLOW.
Proof. unfold _argument_verdict. intros Hv. repeat (case_match; simplify_eq/=); done. Qed.

Lemma dangerous_none text :
  dangerous text = None ↔ ∀ r l, (r, l) ∈ _DANGEROUS_PATTERNS → re_search r text = false.
Proof.
  unfold dangerous. generalize _DANGEROUS_PATTERNS. intros ps. induction ps as [|[r l] ps IH]; cbn.
  - split; [|done]. intros _ r l Hin. by apply elem_of_nil in Hin.
  - destruct (re_search r text) eqn:E; cbn.
    + split; [done|]. intros Ha. rewrite (Ha r l) in E by constructor. done.
    + rewrite IH. split.
      * intros Ha r' l' [[= -> ->]|Hin]%elem_of_cons; [done|eauto].
      * intros Ha r' l' Hin. apply (Ha r' l'). by constructor.
Qed.

Lemma within_any_iff roots p : within_any roots p = true ↔ ∃ r, r ∈ roots ∧ _is_within p r = true.
Proof. apply existsb_Exists. Qed.

Lemma find_none_iff {A} (f : A → bool) l : find f l = None ↔ existsb f l = false.
Proof.
  induction l as [|x l IH]; cbn; [done|]. destruct (f x); cbn; [done|done].
Qed.

(** ** Properties *)

(** A write is allowed exactly when its resolved target is under an allowed
    write root (the workspace, when no policy names roots) and under no denied
    root; otherwise it is denied, never left to approval. *)
Theorem check_write_iff s p :
  let target := _resolve s p in
  (decision (check_write s p) = ALLOW ↔
   (∀ r, r ∈ deny_write_roots s → _is_within target r = false) ∧
   ∃ r, r ∈ default [workspace_root s] (allowed_write_roots s) ∧ _is_within target r = true) ∧
  decision (check_write s p) ≠ REQUIRE_APPROVAL.
Proof.
  intros target. unfold check_write. fold target.
  assert (Hdeny : within_any (deny_write_roots s) target = false ↔
                  ∀ r, r ∈ deny_write_roots s → _is_within target r = false).
  { unfold within_any. rewrite existsb_none, Forall_forall. done. }
  destruct (within_any (deny_write_roots s) target) eqn:Ed.
  { split; [|done]. split; [done|]. intros [Hd _]. by apply Hdeny in Hd. }
  assert (Hall : ∀ roots, within_any roots target = true ↔ ∃ r, r ∈ roots ∧ _is_within target r = true)
    by (intros; apply within_any_iff).
  destruct (allowed_write_roots s) as [roots|]; cbn [default].
  - specialize (Hall roots). destruct (within_any roots target); (split; [|done]);
      (split; [intros; split; [by apply Hdeny|by apply Hall]|]); [done|].
    intros [_ Hr]. by apply Hall in Hr.
  - specialize (Hall [workspace_root s]). unfold within_any in Hall. cbn [existsb] in Hall.
    rewrite orb_false_r in Hall.
    destruct (_is_within target (workspace_root s)); (split; [|done]);
      (split; [intros; split; [by apply Hdeny|by apply Hall]|]); [done|].
    intros [_ Hr]. by apply Hall in Hr.
Qed.

(** C33: a command is allowed exactly when its program is on the allowlist, no
    argument has a shell metacharacter or a null, no dangerous pattern matches
    its text, and the program's own arguments are not destructive. *)
Theorem check_command_allow_iff s argv :
  decision (check_command s argv) = ALLOW ↔
  ∃ c, as_command argv = Some c ∧ cmd_head c ∈ command_allowlist s ∧
    strip (match c with CmdArgs ps => first_part ps | CmdText t => t end) ≠ [] ∧
    strip (cmd_text c) ≠ [] ∧
    (∀ p, p ∈ cmd_parts c → has_char 0 p = false ∧ ∀ m, m ∈ _SHELL_METACHARS → contains m p = false) ∧
    (∀ r l, (r, l) ∈ _DANGEROUS_PATTERNS → re_search r (strip (cmd_text c)) = false) ∧
    _argument_verdict (cmd_head c)
      (match c with CmdText _ => split_ws (strip (cmd_text c)) | CmdArgs ps => ps end) = None.
Proof.
  unfold check_command. destruct (as_command argv) as [c|] eqn:Ec; [|naive_solver].
  assert (Hempty : match c with CmdArgs (p :: _) => bool_decide (strip p = []) | _ => false end = false
                   ∧ strip (cmd_text c) ≠ [] →
                   strip (match c with CmdArgs ps => first_part ps | CmdText t => t end) ≠ []).
  { destruct c as [t|[|p ps]]; cbn; [naive_solver| |rewrite bool_decide_eq_false; naive_solver].
    destruct argv as [| | | | |[|? ?]|[|? ?]| |]; cbn in Ec; try done;
      repeat (case_match; simplify_eq/=); destruct (all_strs _); by simplify_eq/=. }
  assert (Hparts : existsb (has_char 0) (cmd_parts c) = false ∧ _shell_shape_problem c = false ↔
     ∀ p, p ∈ cmd_parts c → has_char 0 p = false ∧ ∀ m, m ∈ _SHELL_METACHARS → contains m p = false).
  { unfold _shell_shape_problem. rewrite !existsb_none, !Forall_forall. split.
    - intros [H1 H2] p Hp. split; [auto|]. specialize (H2 p Hp).
      by rewrite existsb_none, Forall_forall in H2.
    - intros Ha. split; [intros p Hp; by apply Ha|]. intros p Hp.
      rewrite existsb_none, Forall_forall. by apply Ha. }
  destruct (match c with CmdArgs (p :: _) => bool_decide (strip p = []) | _ => false end) eqn:E1.
  { split; [done|]. intros (c' & [= <-] & _ & Hn & _). destruct c as [|[|p ps]]; [done|done|].
    by rewrite bool_decide_eq_true in E1. }
  destruct (existsb (has_char 0) (cmd_parts c)) eqn:E2.
  { split; [done|]. intros (c' & [= <-] & _ & _ & _ & Hp & _). by apply Hparts in Hp as [? _]. }
  case_bool_decide as E3.
  { split; [done|]. intros (c' & [= <-] & _ & _ & Hn & _). done. }
  destruct (_shell_shape_problem c) eqn:E4.
  { split; [done|]. intros (c' & [= <-] & _ & _ & _ & Hp & _). by apply Hparts in Hp as [_ ?]. }
  destruct (dangerous (strip (cmd_text c))) as [lbl|] eqn:E5.
  { split; [done|]. intros (c' & [= <-] & _ & _ & _ & _ & Hp & _).
    rewrite <-dangerous_none in Hp. congruence. }
  destruct (_argument_verdict _ _) as [v|] eqn:E6.
  { split; [intros Hv; by apply argument_verdict_not_allow in E6|].
    intros (c' & [= <-] & _ & _ & _ & _ & _ & Hp). congruence. }
  case_bool_decide as E7; cbn.
  - split; [|done]. intros _. exists c. split_and!; try done; [by apply Hempty|by apply Hparts|].
    by apply dangerous_none.
  - split; [done|]. intros (c' & [= <-] & Hp & _). done.
Qed.

Lemma rlit_i_match w q s : rmatch (rlit_i w) (q, u w ++ s) (match last (u w) with Some c => Some c | None => q end, s).
Proof.
  unfold rlit_i. generalize (u w). intros cs. revert q. induction cs as [|c cs IH]; intros q; cbn [foldr app].
  - constructor.
  - eapply m_seq; [constructor; apply N.eqb_refl|]. rewrite last_cons.
    specialize (IH (Some c)). by destruct (last cs).
Qed.

Lemma rstar_match f q s t :
  Forall (λ c, f c = true) s → rmatch (rstar f) (q, s ++ t) (match last s with Some c => Some c | None => q end, t).
Proof.
  intros Hs. revert q. induction Hs as [|c s Hc _ IH]; intros q; cbn [app]; [constructor|].
  eapply m_star_cons; [by constructor|]. rewrite last_cons. specialize (IH (Some c)). by destruct (last s).
Qed.

(** [rm] with a recursive and a force flag in one short option is refused
    wherever it stands as a word in the command line, whatever the other flags
    and the white space: a pattern of the deny list matches. *)
Theorem rm_rf_refused s c a ws fl1 fl2 rest :
  strip (cmd_text c) = a ++ u "rm" ++ ws ++ u "-" ++ fl1 ++ u "r" ++ fl2 ++ u "f" ++ rest →
  (match last a with Some d => is_word d | None => false end) = false →
  ws ≠ [] → Forall (λ d, is_space d = true) ws →
  Forall (λ d, az_i d = true) fl1 → Forall (λ d, az_i d = true) fl2 →
  ∀ argv, as_command argv = Some c → decision (check_command s argv) ≠ ALLOW.
Proof.
  intros Htext Hb Hne Hws Hf1 Hf2 argv Hc Hallow.
  apply check_command_allow_iff in Hallow as (c' & Hc' & _ & _ & _ & _ & Hd & _).
  rewrite Hc in Hc'. injection Hc' as <-.
  set (r := ralts [rseqs [RBound; rlit_i "rm"; spaces1; rlit_i "-"; rstar az_i; rlit_i "r"; rstar az_i; rlit_i "f"];
            rseqs [RBound; rlit_i "rm"; spaces1; rlit_i "-"; rstar az_i; rlit_i "f"; rstar az_i; rlit_i "r"]]).
  assert (Hno : re_search r (strip (cmd_text c)) = false).
  { apply (Hd r (u "递归强制删除")). unfold _DANGEROUS_PATTERNS. constructor. }
  apply not_true_iff_false in Hno. apply Hno, re_search_iff.
  destruct ws as [|w ws]; [done|]. apply Forall_cons in Hws as [Hw Hws].
  exists a, (u "rm" ++ (w :: ws) ++ u "-" ++ fl1 ++ u "r" ++ fl2 ++ u "f" ++ rest). eexists.
  split; [done|]. apply m_alt_l. cbn [rseqs].
  eapply m_seq; [apply m_bound|].
  { unfold at_boundary, word_before. cbn [fst]. rewrite Hb. reflexivity. }
  eapply m_seq; [apply rlit_i_match|].
  eapply m_seq; [eapply m_seq; [by constructor|by apply rstar_match]|].
  eapply m_seq; [apply rlit_i_match|].
  eapply m_seq; [by apply rstar_match|].
  eapply m_seq; [apply rlit_i_match|].
  eapply m_seq; [by apply rstar_match|].
  apply rlit_i_match.
Qed.
End guard.

(** ** Witnesses and examples *)
#[local] Instance ascii_words : UnicodeWord := λ _, false.
#[local] Existing Instance lexical_fs.

Definition plain_scope : Scope :=
  mkScope (Path_of_str (u "/work")) [] None None None [] [] _DEFAULT_COMMAND_ALLOWLIST.

Definition args (ws : list string) : pyval := PyList ((λ w, PyStr (u w)) <$> ws).

Example guard_examples :
  (λ ws, decision (check_command plain_scope (args ws))) <$>
    [["ls"; "-la"]; ["find"; "."; "-Delete"]; ["git"; "clean"; "-xdf"]; ["python"; "-c"; "x"];
     ["rm"; "-r"; "--force"; "x"]; ["echo"; "RM  -Rf"]; ["a|b"]; ["git"; "push"; "--force"]; ["cargo"]]%string
  = [ALLOW; DENY; REQUIRE_APPROVAL; REQUIRE_APPROVAL; DENY; DENY; DENY; DENY; REQUIRE_APPROVAL].
Proof. vm_compute. reflexivity. Qed.

Lemma rm_rf_refused_witness :
  decision (check_command plain_scope (args ["sudo"; "rm"; "-vrf"; "/"])) ≠ ALLOW.
Proof.
  apply (rm_rf_refused plain_scope (CmdArgs [u "sudo"; u "rm"; u "-vrf"; u "/"]) (u "sudo ") (u " ")
           (u "v") [] (u " /")); first [discriminate|vm_compute; reflexivity|vm_compute; repeat constructor].
Defined.

(** The destructive-argument test looks at fixed positions: code passed to
    Python in a combined option and a forced [git clean] behind a global option
    are allowed, and so is any program named like an allowed one. *)
Theorem argument_test_bypassed :
  (λ ws, decision (check_command plain_scope (args ws))) <$>
    [["python"; "-c"; "code"]; ["python"; "-Ic"; "code"]; ["git"; "clean"; "-f"]; ["git"; "-C"; "d"; "clean"; "-f"];
     ["/tmp/x/python"; "a.py"]]%string
  = [REQUIRE_APPROVAL; ALLOW; REQUIRE_APPROVAL; ALLOW; ALLOW].
Proof. vm_compute. reflexivity. Qed.
