(* ===== verification/Conclusions.v ===== *)
(** * Agent conclusions and their ledger ([src/src/icode/agent_conclusion.py])

    A conclusion binds an agent's identity, the digest of its context and either
    evidence or a failure code; the ledger only grows, up to its limit. *)

From S2P Require Import Prelude PyText PyVal Roles Hashing Json.

#[global] Arguments sha256_hex : simpl never.
#[global] Arguments dumps : simpl never.

Definition CE (code : string) : exn := ConclusionError code.

Definition _OUTCOMES : list pystr := [u "completed"; u "failed"; u "refused"].
Definition _MAX_STEP : nat := 64.
Definition _MAX_KIND : nat := 64.
Definition _MAX_DETAIL : nat := 200.
Definition _MAX_EVIDENCE_JSON : nat := 4096.
Definition _DEFAULT_LIMIT : Z := 256.

Definition is_scalar (v : pyval) : bool :=
  match v with PyNone | PyBool _ | PyInt _ | PyFloat _ | PyStr _ => true | _ => false end.

(** A context digest: 64 lowercase hexadecimal characters. *)
Definition context_digest_ok (v : pyval) : bool :=
  match v with PyStr s => (length s =? 64) && forallb is_hex_lower s | _ => false end.

(** [1..bound] characters. *)
Definition bounded_str (bound : nat) (v : pyval) : bool :=
  match v with PyStr s => (s ≠s []) && (length s <=? bound) | _ => false end.

(** [len(v)] *)
Definition py_len (v : pyval) : result nat :=
  match v with
  | PyStr s => Ok (length s)
  | PyList l | PyTuple l => Ok (length l)
  | PyDict d => Ok (length d)
  | _ => Err (TypeError "object has no len()")
  end.

Record AgentConclusion := mkConclusion {
  ac_agent_id : pystr;
  ac_role : pystr;
  ac_ticket_id : pystr;
  ac_step : pystr;
  ac_kind : pystr;
  ac_context_digest : pystr;
  ac_outcome : pystr;
  ac_evidence : list (pystr * pyval);
  ac_detail : pyval;
  ac_digest : pystr
}.

Section conclusions.
Context `{FloatRepr}.

Definition _bounded_evidence (evidence : pyval) : result (list (pystr * pyval)) :=
  match evidence with
  | PyDict ((_ :: _) as d) =>
    raise_if (existsb (λ p, bool_decide (p.1 = []) || (32 <? length p.1)) d) (CE "evidence_invalid");;
    raise_if (negb (forallb (λ p, is_scalar p.2) d)) (CE "evidence_invalid");;
    match dumps sorted_opts (PyDict d) with
    | None => Err (TypeError "not serializable")
    | Some text => raise_if (_MAX_EVIDENCE_JSON <? length text) (CE "evidence_invalid");; Ok d
    end
  | _ => Err (CE "evidence_missing")
  end.

(** [json.dumps(fields, default=str)] never meets a value it needs [default]
    for, the fields being strings, scalars and at most containers of them. *)
Definition _conclusion_digest (fields : list (pystr * pyval)) : result pystr :=
  match dumps sorted_opts (PyDict fields) with
  | None => Err (TypeError "not serializable")
  | Some text =>
    raise_if (negb (utf8_encodable text)) (ValueError "surrogates not allowed");;
    Ok (sha256_hex (utf8_bytes text))
  end.

Definition conclusion_fields (agent_id role ticket step kind context outcome : pystr)
    (evidence : list (pystr * pyval)) (detail : pyval) : list (pystr * pyval) :=
  [ (u "agent_id", PyStr agent_id); (u "role", PyStr role); (u "ticket_id", PyStr ticket);
    (u "step", PyStr step); (u "kind", PyStr kind); (u "context_digest", PyStr context);
    (u "outcome", PyStr outcome); (u "evidence", PyDict evidence); (u "detail", detail) ].

(** The evidence kept, and the test on the failure code. *)
Definition conclusion_evidence (outcome : pystr) (evidence detail : pyval)
  : result (list (pystr * pyval)) :=
  if outcome =s u "completed" then _bounded_evidence evidence
  else raise_if (negb (is_str detail) || negb (py_truth detail)) (CE "detail_missing");; Ok [].

(** [AgentConclusion(...)]: [__post_init__] on arguments of any class. *)
Definition AgentConclusion_new (agent_id role_name ticket step kind context outcome evidence detail : pyval)
  : result AgentConclusion :=
  '(prefix, tk, _) ← parse_agent_id agent_id;
  role_obj ← role role_name;
  raise_if (negb (is_lit role_name prefix) || negb (is_lit ticket tk)) (CE "agent_id_mismatch");;
  raise_if (negb (is_str ticket) || negb (py_truth ticket)) (CE "invalid_ticket");;
  raise_if (negb (bounded_str _MAX_STEP step)) (CE "invalid_step");;
  raise_if (negb (bounded_str _MAX_KIND kind)) (CE "invalid_kind");;
  raise_if (negb (is_lit kind (ar_conclusions_kind role_obj))) (CE "conclusion_out_of_role");;
  raise_if (negb (context_digest_ok context)) (CE "invalid_context_digest");;
  raise_if (is_list outcome || is_dict outcome) (TypeError "unhashable type");;
  raise_if (negb (str_in outcome _OUTCOMES)) (CE "invalid_outcome");;
  let str v := default [] (as_str v) in
  ev ← conclusion_evidence (str outcome) evidence detail;
  n ← py_len detail;
  raise_if (_MAX_DETAIL <? n) (CE "detail_oversize");;
  digest ← _conclusion_digest (conclusion_fields (str agent_id) (str role_name) (str ticket) (str step)
                                 (str kind) (str context) (str outcome) ev detail);
  Ok (mkConclusion (str agent_id) (str role_name) (str ticket) (str step) (str kind) (str context)
        (str outcome) ev detail digest).

(** [project] *)
Definition project (c : AgentConclusion) : list (pystr * pyval) :=
  conclusion_fields (ac_agent_id c) (ac_role c) (ac_ticket_id c) (ac_step c) (ac_kind c)
    (ac_context_digest c) (ac_outcome c) (ac_evidence c) (ac_detail c)
  ++ [(u "digest", PyStr (ac_digest c))].
End conclusions.

(** ** The ledger *)
Record ConclusionLedger := mkLedger {
  lg_limit : Z;
  lg_conclusions : list AgentConclusion;
  lg_digests : gset pystr
}.

Definition ConclusionLedger_init (limit : pyval) : result ConclusionLedger :=
  match as_exact_int limit with
  | Some n => raise_if (negb ((1 <=? n) && (n <=? 4096))%Z) (CE "invalid_limit");; Ok (mkLedger n [] ∅)
  | None => Err (CE "invalid_limit")
  end.

Definition record (c : AgentConclusion) (l : ConclusionLedger) : result pystr * ConclusionLedger :=
  if bool_decide (ac_digest c ∈ lg_digests l) then (Ok (ac_digest c), l)
  else if (lg_limit l <=? Z.of_nat (length (lg_conclusions l)))%Z then (Err (CE "ledger_full"), l)
  else (Ok (ac_digest c),
        mkLedger (lg_limit l) (lg_conclusions l ++ [c]) ({[ac_digest c]} ∪ lg_digests l)).

Definition conclusion_is (role_name kind step : pystr) (c : AgentConclusion) : bool :=
  (ac_role c =s role_name) && (ac_kind c =s kind) && (ac_step c =s step)
  && (ac_outcome c =s u "completed").

Definition has_completed (l : ConclusionLedger) (role_name kind step : pyval) : bool :=
  match role_name, kind, step with
  | PyStr r, PyStr k, PyStr s => existsb (conclusion_is r k s) (lg_conclusions l)
  | _, _, _ => false
  end.

(** The invariant: within the limit, digests as recorded, no digest twice. *)
Record ledger_ok (l : ConclusionLedger) : Prop := {
  lo_limit : (Z.of_nat (length (lg_conclusions l)) ≤ lg_limit l)%Z;
  lo_digests : ∀ d, d ∈ lg_digests l ↔ d ∈ ac_digest <$> lg_conclusions l;
  lo_nodup : NoDup (ac_digest <$> lg_conclusions l)
}.

(** ** Lemmas *)
Lemma record_ok c l : ledger_ok l → ledger_ok (record c l).2.
Proof.
  intros [Hl Hd Hn]. unfold record. case_bool_decide as E; [done|].
  destruct (Z.leb_spec (lg_limit l) (Z.of_nat (length (lg_conclusions l)))); [done|].
  split; cbn.
  - rewrite length_app. cbn. lia.
  - intros d. rewrite elem_of_union, elem_of_singleton, fmap_app, elem_of_app, Hd.
    cbn. rewrite list_elem_of_singleton. tauto.
  - rewrite fmap_app. apply NoDup_app. split_and!; [done| |apply NoDup_singleton].
    cbn. intros d Hin ->%list_elem_of_singleton. by apply E, Hd.
Qed.

Lemma record_grows c l : lg_conclusions l `prefix_of` lg_conclusions (record c l).2.
Proof. unfold record. repeat case_match; cbn; try done. by apply prefix_app_r. Qed.

Lemma bounded_str_iff n v : bounded_str n v = true ↔ ∃ s, v = PyStr s ∧ s ≠ [] ∧ length s ≤ n.
Proof.
  destruct v; cbn; try naive_solver.
  rewrite andb_true_iff, negb_true_iff, bool_decide_eq_false, Nat.leb_le. naive_solver.
Qed.

Lemma context_digest_iff v : context_digest_ok v = true ↔ ∃ s, v = PyStr s ∧ is_hex64 s = true.
Proof.
  destruct v as [| | | |s| | | |]; cbn [context_digest_ok]; try naive_solver.
  rewrite andb_true_iff, Nat.eqb_eq, forallb_Forall. split.
  - intros [? ?]. exists s. split; [done|]. apply full_cls_spec.
    split_and!; [lia|intros ? [= <-]; lia|done].
  - intros (? & [= <-] & (? & Hh & ?)%full_cls_spec). specialize (Hh _ eq_refl). split; [lia|done].
Qed.

(** Every statement of a constructor that succeeded held. *)
Section constructor.
Context `{FloatRepr}.

Record conclusion_wf (c : AgentConclusion) (prefix_role : AgentRole) : Prop := {
  cw_identity : ∃ n, parse_agent_id (PyStr (ac_agent_id c)) = Ok (ac_role c, ac_ticket_id c, n);
  cw_role : role (PyStr (ac_role c)) = Ok prefix_role;
  cw_kind : ac_kind c = ar_conclusions_kind prefix_role;
  cw_step : ac_step c ≠ [] ∧ length (ac_step c) ≤ _MAX_STEP;
  cw_context : is_hex64 (ac_context_digest c) = true;
  cw_outcome : ac_outcome c ∈ _OUTCOMES;
  cw_evidence : ac_outcome c = u "completed" → ac_evidence c ≠ [];
  cw_detail : ac_outcome c ≠ u "completed" → ac_evidence c = [] ∧ ∃ s, ac_detail c = PyStr s ∧ s ≠ [];
  cw_digest : _conclusion_digest (conclusion_fields (ac_agent_id c) (ac_role c) (ac_ticket_id c) (ac_step c)
     (ac_kind c) (ac_context_digest c) (ac_outcome c) (ac_evidence c) (ac_detail c)) = Ok (ac_digest c)
}.

Lemma bounded_evidence_ok v d : _bounded_evidence v = Ok d → v = PyDict d ∧ d ≠ [].
Proof.
  unfold _bounded_evidence. destruct v as [| | | | | | |[|p d']|]; try done.
  rewrite bind_ok. intros ([] & _ & Hv). apply bind_ok in Hv as ([] & _ & Hv).
  destruct (dumps _ _); [|done]. apply bind_ok in Hv as ([] & _ & [= <-]). by split.
Qed.

Lemma lit_of v s : negb (is_lit v s) = false → v = PyStr s.
Proof. rewrite negb_false_iff. by intros ->%is_lit_iff. Qed.

Lemma conclusion_new_wf aid rn tk st kd cx oc ev dt c :
  AgentConclusion_new aid rn tk st kd cx oc ev dt = Ok c →
  ∃ r, conclusion_wf c r ∧ aid = PyStr (ac_agent_id c) ∧ rn = PyStr (ac_role c) ∧
       st = PyStr (ac_step c) ∧ kd = PyStr (ac_kind c) ∧ cx = PyStr (ac_context_digest c) ∧
       oc = PyStr (ac_outcome c) ∧ tk = PyStr (ac_ticket_id c) ∧ ac_detail c = dt ∧
       (ac_outcome c = u "completed" → ev = PyDict (ac_evidence c)).
Proof.
  unfold AgentConclusion_new. intros Hc.
  apply bind_ok in Hc as ([[prefix t] n] & Hp & Hc). apply bind_ok in Hc as (r & Hr & Hc).
  apply bind_ok in Hc as ([] & Hm & Hc). rewrite raise_if_ok, orb_false_iff in Hm.
  destruct Hm as [->%lit_of ->%lit_of].
  apply bind_ok in Hc as ([] & _ & Hc). apply bind_ok in Hc as ([] & Hst & Hc).
  rewrite raise_if_ok, negb_false_iff, bounded_str_iff in Hst. destruct Hst as (s & -> & Hs1 & Hs2).
  apply bind_ok in Hc as ([] & _ & Hc). apply bind_ok in Hc as ([] & ->%raise_if_ok%lit_of & Hc).
  apply bind_ok in Hc as ([] & Hcx & Hc).
  rewrite raise_if_ok, negb_false_iff, context_digest_iff in Hcx. destruct Hcx as (x & -> & Hx).
  apply bind_ok in Hc as ([] & _ & Hc). apply bind_ok in Hc as ([] & Ho & Hc).
  rewrite raise_if_ok, negb_false_iff, str_in_iff in Ho. destruct Ho as (o & -> & Ho).
  cbn zeta in Hc. apply bind_ok in Hc as (e & He & Hc). apply bind_ok in Hc as (m & _ & Hc).
  apply bind_ok in Hc as ([] & _ & Hc). apply bind_ok in Hc as (d & Hd & [= <-]).
  destruct aid as [| | | |a| | | |]; try done. cbn in He, Hd.
  exists r. unfold conclusion_evidence in He.
  assert (Hev : (o = u "completed" → ev = PyDict e ∧ e ≠ []) ∧
                (o ≠ u "completed" → e = [] ∧ ∃ s', dt = PyStr s' ∧ s' ≠ [])).
  { case_bool_decide as E.
    - split; [intros _; by apply bounded_evidence_ok|done].
    - split; [done|]. intros _. apply bind_ok in He as ([] & Hdt & [= <-]). split; [done|].
      rewrite raise_if_ok, orb_false_iff, !negb_false_iff in Hdt. destruct Hdt as [H1 H2].
      destruct dt as [| | | |s'| | | |]; try done. exists s'. split; [done|]. by intros ->. }
  destruct Hev as [Hev1 Hev2].
  split_and!; try done; [|by intros [? _]%Hev1].
  split; cbn; try done; [by exists n|by intros [_ ?]%Hev1].
Qed.
End constructor.

Definition record_all (l : ConclusionLedger) (cs : list AgentConclusion) : ConclusionLedger :=
  foldl (λ l c, (record c l).2) l cs.

Lemma record_all_ok l cs : ledger_ok l → ledger_ok (record_all l cs).
Proof. revert l. induction cs as [|c cs IH]; intros l Hl; [done|]. cbn. by apply IH, record_ok. Qed.

Lemma record_all_grows l cs : lg_conclusions l `prefix_of` lg_conclusions (record_all l cs).
Proof.
  revert l. induction cs as [|c cs IH]; intros l; [done|]. cbn.
  etransitivity; [apply (record_grows c)|apply IH].
Qed.

Lemma ledger_init_ok limit l : ConclusionLedger_init limit = Ok l → ledger_ok l.
Proof.
  unfold ConclusionLedger_init. destruct (as_exact_int limit) as [n|]; [|done].
  rewrite bind_ok. intros ([] & Hn & [= <-]). rewrite raise_if_ok, negb_false_iff, andb_true_iff in Hn.
  split; cbn; [lia| |constructor]. set_solver.
Qed.

(** ** Properties *)

(** A ledger never exceeds its limit, never holds two conclusions with one
    digest, and only grows: in every sequence of records the conclusions so far
    stay in place, and recording one again changes nothing. *)
Theorem ledger_bounded_append_only limit l0 cs cs' c :
  ConclusionLedger_init limit = Ok l0 →
  let l := record_all l0 cs in
  (Z.of_nat (length (lg_conclusions l)) ≤ lg_limit l)%Z ∧
  NoDup (ac_digest <$> lg_conclusions l) ∧
  lg_conclusions l `prefix_of` lg_conclusions (record_all l cs') ∧
  (c ∈ lg_conclusions l → record c l = (Ok (ac_digest c), l)) ∧
  (is_ok (record c l).1 = false →
   Z.of_nat (length (lg_conclusions l)) = lg_limit l ∧ (record c l).2 = l).
Proof.
  intros Hi l. destruct (record_all_ok l0 cs (ledger_init_ok _ _ Hi)) as [Hl Hd Hn]. fold l in Hl, Hd, Hn.
  split_and!; [done|done|apply record_all_grows| |].
  - intros Hc. unfold record. rewrite bool_decide_eq_true_2; [done|].
    apply Hd, list_elem_of_fmap. eauto.
  - unfold record. case_bool_decide; [done|].
    destruct (Z.leb_spec (lg_limit l) (Z.of_nat (length (lg_conclusions l)))); [|done].
    intros _. split; [lia|done].
Qed.

Definition sample_conclusion (evidence : pyval) : result AgentConclusion :=
  AgentConclusion_new (H := λ _, []) (PyStr (u "executor#T-1#1")) (PyStr (u "executor")) (PyStr (u "T-1"))
    (PyStr (u "build")) (PyStr (u "execution")) (PyStr (replicate 64 97%N)) (PyStr (u "completed")) evidence
    (PyStr []).

Definition sample_done : AgentConclusion :=
  Eval vm_compute in
  match sample_conclusion (PyDict [(u "tests", PyInt 3)]) with
  | Ok c => c
  | Err _ => mkConclusion [] [] [] [] [] [] [] [] PyNone []
  end.

Lemma ledger_bounded_append_only_witness :
  record sample_done (record_all (mkLedger 2 [] ∅) [sample_done])
  = (Ok (ac_digest sample_done), record_all (mkLedger 2 [] ∅) [sample_done]).
Proof.
  apply (ledger_bounded_append_only (PyInt 2) (mkLedger 2 [] ∅) [sample_done] []).
  - reflexivity.
  - vm_compute. constructor.
Defined.

(** A conclusion that was built is consistent: its agent id parses to its own
    role and ticket, its kind is the one its role may produce, its context is a
    SHA-256 digest, a completed one has evidence and any other has a failure
    code and no evidence, and its digest is computed from exactly these fields. *)
Theorem conclusion_sound `{FloatRepr} aid rn tk st kd cx oc ev dt c :
  AgentConclusion_new aid rn tk st kd cx oc ev dt = Ok c → ∃ r, conclusion_wf c r.
Proof. intros (r & Hr & _)%conclusion_new_wf. by exists r. Qed.

Lemma conclusion_sound_witness :
  ∃ r, conclusion_wf (H := λ _, []) sample_done r.
Proof.
  apply (conclusion_sound (H := λ _, []) (PyStr (u "executor#T-1#1")) (PyStr (u "executor")) (PyStr (u "T-1"))
    (PyStr (u "build")) (PyStr (u "execution")) (PyStr (replicate 64 97%N)) (PyStr (u "completed"))
    (PyDict [(u "tests", PyInt 3)]) (PyStr [])).
  vm_compute. reflexivity.
Defined.

(** Evidence with a lone surrogate passes the bound and the digest's [encode]
    raises an exception that is not a [ConclusionError]. *)
Example surrogate_evidence_raises :
  sample_conclusion (PyDict [(u "note", PyStr [55296%N])]) = Err (ValueError "surrogates not allowed").
Proof. vm_compute. reflexivity. Qed.
