(* ===== verification/AgentScope.v ===== *)
(** * Contexts derived by role ([src/src/icode/agent_scope.py])

    The sandbox policy and the guard scope an agent gets from its role, the
    narrowing of an executor's policy to its declared region, and the digest of
    a scope. *)

From S2P Require Import Prelude PyText PyVal Roles Hashing Json Paths SandboxPolicy WriteLease Regex Guard.

#[global] Arguments dumps : simpl never.

Section scope.
Context `{FileSystem, FloatRepr}.

(** [replace(scope, allowed_write_roots=())], which runs [__post_init__] again. *)
Definition without_writes (s : Scope) : Scope :=
  mkScope (Guard.workspace_root s) (readable_roots s) (allowed_read_roots s) (allowed_read_files s)
    (Some []) (Guard.deny_read_roots s) (Guard.deny_write_roots s) (command_allowlist s).

Definition derive_agent_policy (base : SandboxPolicy) (role_name : pyval) (deny_read : list Path)
  : result SandboxPolicy :=
  role_obj ← role role_name;
  if ar_may_write role_obj then Ok base
  else candidate ← SandboxPolicy_new (read_only_copy base deny_read); tighten_policy base candidate.

Definition derive_agent_guard_scope (base : Scope) (role_name : pyval) : result Scope :=
  role_obj ← role role_name;
  if ar_may_write role_obj then Ok base else Scope_new (without_writes base).

Definition with_write_roots (p : SandboxPolicy) (ws : list Path) : SandboxPolicy :=
  mkPolicy (schema_version p) (run_id p) (ticket_id p) (step p) (SandboxPolicy.workspace_root p)
    (read_roots p) ws (SandboxPolicy.deny_read_roots p) (SandboxPolicy.deny_write_roots p)
    (network_mode p) (allowed_domains p) (process_limit p) (wall_timeout_seconds p)
    (output_limit_bytes p) (protected_paths p).

(** One copy of the region per write root it lies in. *)
Definition narrowed_roots (region_path : Path) (roots : list Path) : list Path :=
  (λ _, region_path) <$> filter (λ r, (region_path =s r) || in_parents r region_path = true) roots.

Definition converge_policy_to_region (base : SandboxPolicy) (reg : pyval) : result SandboxPolicy :=
  ps ← normalize_region reg;
  let region_path := joinpath (SandboxPolicy.workspace_root base) ps in
  let narrowed := narrowed_roots region_path (write_roots base) in
  raise_if (bool_decide (narrowed = [])) (RoleError "region_outside_write_scope");;
  candidate ← SandboxPolicy_new (with_write_roots base narrowed);
  tighten_policy base candidate.

Definition fingerprint_roots (v : option (list Path)) : pyval :=
  match v with None => PyNone | Some ps => PyList (PyStr <$> sorted_strs (path_str <$> ps)) end.

Definition scope_payload (s : Scope) : list (pystr * pyval) :=
  [ (u "workspace_root", PyStr (path_str (Guard.workspace_root s)));
    (u "readable_roots", fingerprint_roots (Some (readable_roots s)));
    (u "allowed_read_roots", fingerprint_roots (allowed_read_roots s));
    (u "allowed_read_files", fingerprint_roots (allowed_read_files s));
    (u "allowed_write_roots", fingerprint_roots (allowed_write_roots s));
    (u "deny_read_roots", fingerprint_roots (Some (Guard.deny_read_roots s)));
    (u "deny_write_roots", fingerprint_roots (Some (Guard.deny_write_roots s)));
    (u "command_allowlist", PyList (PyStr <$> sorted_strs (command_allowlist s))) ].

Definition scope_fingerprint (s : Scope) : result pystr :=
  let text := default [] (dumps sorted_opts (PyDict (scope_payload s))) in
  raise_if (negb (utf8_encodable text)) (ValueError "surrogates not allowed");;
  Ok (sha256_hex (utf8_bytes text)).

(** ** Lemmas *)
Lemma narrowed_roots_in rp roots x : x ∈ narrowed_roots rp roots → x = rp.
Proof. unfold narrowed_roots. rewrite list_elem_of_fmap. by intros (? & -> & _). Qed.

Lemma Scope_new_write_roots s s' :
  Scope_new (without_writes s) = Ok s' → allowed_write_roots s' = Some [].
Proof.
  unfold Scope_new. destruct (fs_resolve _); [|done]. intros Hs.
  apply bind_ok in Hs as (? & _ & Hs). apply bind_ok in Hs as (? & _ & Hs).
  apply bind_ok in Hs as (? & _ & Hs). apply bind_ok in Hs as (aw & Haw & Hs).
  apply bind_ok in Hs as (? & _ & Hs). apply bind_ok in Hs as (? & _ & [= <-]).
  cbn in *. by injection Haw as <-.
Qed.

(** ** Properties *)

(** The policy and the scope of every role that may not write allow no
    write at all and no host, and reads only within the base policy; the role
    that may write gets the base unchanged. *)
Theorem derived_context_by_role base bs rn deny p s :
  derive_agent_policy base rn deny = Ok p → derive_agent_guard_scope bs rn = Ok s →
  ∃ r, role rn = Ok r ∧
  if ar_may_write r then p = base ∧ s = bs
  else (∀ x, SandboxPolicy.may_write p x = false) ∧ (∀ h, may_reach p h = false) ∧
       (∀ x, may_read p x = true → may_read base x = true) ∧
       (∀ x, decision (check_write s x) = DENY).
Proof.
  unfold derive_agent_policy, derive_agent_guard_scope. rewrite !bind_ok.
  intros (r & Hr & Hp) (r' & Hr' & Hs). rewrite Hr in Hr'. injection Hr' as <-.
  exists r. split; [done|]. destruct (ar_may_write r); [naive_solver|].
  apply bind_ok in Hp as (c & Hc & Hp). apply tighten_policy_ok in Hp as [-> Ht].
  destruct (read_only_copy_authority _ _ _ Hc) as (? & ? & _).
  apply tightens_tighter in Ht as []. split_and!; try done.
  intros x. apply Scope_new_write_roots in Hs. unfold check_write. rewrite Hs. cbn.
  by destruct (within_any _ _).
Qed.

(** Narrowing a policy to a declared region never widens it, and leaves
    nothing writable outside what the file system resolves the region to. *)
Theorem converge_narrows `{!FileSystemLaws} base reg p :
  converge_policy_to_region base reg = Ok p →
  tighter p base ∧
  ∃ ps q, normalize_region reg = Ok ps ∧
    fs_resolve (joinpath (SandboxPolicy.workspace_root base) ps) = Some q ∧
    ∀ x, SandboxPolicy.may_write p x = true → _is_within x q = true.
Proof.
  unfold converge_policy_to_region. intros Hp.
  apply bind_ok in Hp as (ps & Hps & Hp). cbn zeta in Hp.
  apply bind_ok in Hp as ([] & Hne & Hp). rewrite raise_if_ok, bool_decide_eq_false in Hne.
  apply bind_ok in Hp as (c & Hc & Hp). apply tighten_policy_ok in Hp as [-> Ht].
  split; [by apply tightens_tighter|]. exists ps.
  unfold SandboxPolicy_new in Hc. cbn [with_write_roots run_id] in Hc.
  apply bind_ok in Hc as ([] & _ & Hc). apply bind_ok in Hc as (ws & _ & Hc).
  apply bind_ok in Hc as (rr & _ & Hc). apply bind_ok in Hc as (wr & Hwr & Hc).
  apply bind_ok in Hc as (dr & _ & Hc). apply bind_ok in Hc as (dw & _ & Hc).
  apply bind_ok in Hc as (pp & _ & Hc). cbn zeta in Hc. apply bind_ok in Hc as ([] & _ & [= <-]).
  cbn [with_write_roots write_roots] in Hwr. unfold _normalize_paths in Hwr.
  apply bind_ok in Hwr as (qs & Hm & [= <-]). pose proof (mapM_path_ok _ _ Hm) as Hin.
  set (rp := joinpath (SandboxPolicy.workspace_root base) ps) in *.
  destruct (narrowed_roots rp (write_roots base)) as [|r0 rs] eqn:En; [done|].
  assert (r0 = rp) as -> by (apply (narrowed_roots_in _ (write_roots base)); rewrite En; constructor).
  cbn [mapM_path] in Hm. apply bind_ok in Hm as (q & Hq & _). apply normalize_path_ok in Hq as [_ Hq].
  exists q. split_and!; [done|done|]. intros x. unfold SandboxPolicy.may_write. cbn.
  rewrite andb_true_iff. intros [Hc _]. apply covered_iff in Hc as (r & Hr & Hx).
  rewrite elem_sorted_set in Hr. destruct (Hin r Hr) as (r' & Hr' & Hres).
  rewrite <-En in Hr'. apply narrowed_roots_in in Hr' as ->. congruence.
Qed.
End scope.

(** ** Witnesses *)
#[local] Existing Instance lexical_fs.
#[local] Instance ascii_words : UnicodeWord := λ _, false.

Definition writer_policy : SandboxPolicy :=
  Eval vm_compute in sample_policy.

Definition base_scope : Scope :=
  mkScope (Path_of_str (u "/work")) [] None None None [] [] _DEFAULT_COMMAND_ALLOWLIST.

Definition planner_policy : SandboxPolicy :=
  Eval vm_compute in
  match derive_agent_policy writer_policy (PyStr ROLE_PLANNER) [] with Ok p => p | Err _ => writer_policy end.

Lemma derived_context_by_role_witness :
  decision (check_write (without_writes base_scope) (Path_of_str (u "a.py"))) = DENY ∧
  SandboxPolicy.may_write planner_policy (Path_of_str (u "/work/src/a.py")) = false.
Proof.
  destruct (derived_context_by_role writer_policy base_scope (PyStr ROLE_PLANNER) [] planner_policy
              (without_writes base_scope)) as (r & Hr & Hw).
  - vm_compute. reflexivity.
  - vm_compute. reflexivity.
  - assert (Hrw : ar_may_write r = false) by (vm_compute in Hr; injection Hr as <-; reflexivity).
    rewrite Hrw in Hw. destruct Hw as (Hp & _ & _ & Hs). split; [apply Hs|apply Hp].
Defined.

Definition converged_policy : SandboxPolicy :=
  Eval vm_compute in
  match converge_policy_to_region writer_policy (PyStr (u "src/api")) with
  | Ok p => p | Err _ => writer_policy
  end.

Lemma converge_narrows_witness : tighter converged_policy writer_policy.
Proof. apply (converge_narrows writer_policy (PyStr (u "src/api"))). vm_compute. reflexivity. Defined.

Example converged_writes :
  (SandboxPolicy.may_write converged_policy <$> (Path_of_str <$> [u "/work/src/api/x"; u "/work/src/y"]))
  = [true; false] ∧
  converge_policy_to_region writer_policy (PyStr (u "docs")) = Err (RoleError "region_outside_write_scope").
Proof. vm_compute. split; reflexivity. Qed.
