(* ===== verification/MultiAgent.v ===== *)
(** * Controlled orchestration ([src/src/icode/multi_agent.py])

    A team spawns agents with derived contexts, runs injected work under a
    region lease and records a conclusion for every run, and gates a step on the
    conclusions recorded.  A run is two blocks around the work: everything up to
    it, and everything after it.  [run_parallel] is a system of worker threads
    that take jobs, begin them under their regions and record what they give. *)

From S2P Require Import Prelude PyText PyVal Roles Hashing Json Paths SandboxPolicy WriteLease Regex Guard.
From S2P Require Import Conclusions AgentScope.

#[global] Arguments policy_hash : simpl never.

Definition _MAX_PARALLEL_CEILING : Z := 8.

Record AgentHandle := mkAgentHandle {
  ah_identity : AgentIdentity;
  ah_policy : option SandboxPolicy;
  ah_scope : option Scope;
  ah_context : pystr
}.

Record GateReceipt := mkReceipt {
  gr_ok : bool;
  gr_required : list pystr;
  gr_satisfied : list pystr;
  gr_missing : list pystr
}.

Record AgentTeam := mkTeam {
  tm_ticket : pyval;
  tm_policy : option SandboxPolicy;
  tm_scope : option Scope;
  tm_max_parallel : Z;
  tm_registry : RoleRegistry;
  tm_ledger : ConclusionLedger;
  tm_leases : option WriteLeaseBoard;
  tm_handles : list (pystr * AgentHandle)
}.

Definition with_registry (t : AgentTeam) (r : RoleRegistry) : AgentTeam :=
  mkTeam (tm_ticket t) (tm_policy t) (tm_scope t) (tm_max_parallel t) r (tm_ledger t) (tm_leases t) (tm_handles t).
Definition with_ledger (t : AgentTeam) (l : ConclusionLedger) : AgentTeam :=
  mkTeam (tm_ticket t) (tm_policy t) (tm_scope t) (tm_max_parallel t) (tm_registry t) l (tm_leases t) (tm_handles t).
Definition with_board (t : AgentTeam) (b : WriteLeaseBoard) : AgentTeam :=
  mkTeam (tm_ticket t) (tm_policy t) (tm_scope t) (tm_max_parallel t) (tm_registry t) (tm_ledger t) (Some b)
    (tm_handles t).
Definition with_handle (t : AgentTeam) (h : AgentHandle) : AgentTeam :=
  mkTeam (tm_ticket t) (tm_policy t) (tm_scope t) (tm_max_parallel t) (tm_registry t) (tm_ledger t) (tm_leases t)
    (dset (ai_agent_id (ah_identity h)) h (tm_handles t)).

(** [is_valid_ticket_id] *)
Definition ticket_ok (v : pyval) : bool := match v with PyStr s => ticket_re s | _ => false end.

Section team.
Context `{FileSystem, FloatRepr}.

(** ** Construction *)
Definition lease_dir_outside (dir : pystr) (root : option Path) : result unit :=
  match root with
  | None => Ok tt
  | Some r =>
    match fs_resolve (Path_of_str dir), fs_resolve r with
    | Some lease_path, Some root_path =>
      raise_if ((lease_path =s root_path) || in_parents root_path lease_path) (LeaseError "invalid_lease_dir")
    | _, _ => Err (RuntimeError "resolve")
    end
  end.

Definition team_root (policy : option SandboxPolicy) (scope : option Scope) : option Path :=
  match policy, scope with
  | Some p, _ => Some (SandboxPolicy.workspace_root p)
  | None, Some s => Some (Guard.workspace_root s)
  | None, None => None
  end.

Definition AgentTeam_init (ticket_id lease_dir : pyval) (policy : option SandboxPolicy)
    (scope : option Scope) (max_parallel ledger_limit : pyval) : result AgentTeam :=
  raise_if (negb (ticket_ok ticket_id)) (RoleError "invalid_ticket");;
  n ← match as_exact_int max_parallel with
      | Some n => raise_if (negb ((1 <=? n) && (n <=? _MAX_PARALLEL_CEILING))%Z) (RoleError "invalid_parallel");;
                  Ok n
      | None => Err (RoleError "invalid_parallel")
      end;
  ledger ← ConclusionLedger_init ledger_limit;
  board ← match lease_dir with
          | PyNone => Ok None
          | PyStr dir => lease_dir_outside dir (team_root policy scope);;
                         b ← WriteLeaseBoard_init lease_dir; Ok (Some b)
          | _ => Err (TypeError "expected str or PathLike")
          end;
  Ok (mkTeam ticket_id policy scope n RoleRegistry_init ledger board []).

(** ** Spawning *)
Definition derive_opt {A} (f : A → result A) (o : option A) : result (option A) :=
  match o with None => Ok None | Some x => y ← f x; Ok (Some y) end.

(** The digest of a context: of the policy, the scope, or both. *)
Definition context_digest (policy : option SandboxPolicy) (scope : option Scope) : result pystr :=
  match policy, scope with
  | Some p, Some s => f ← scope_fingerprint s; Ok (sha256_hex (utf8_bytes (policy_hash p ++ f)))
  | Some p, None => Ok (policy_hash p)
  | None, Some s => scope_fingerprint s
  | None, None => Err (RoleError "context_boundary_missing")
  end.

Definition team_spawn (t : AgentTeam) (role_name : pyval) : result AgentHandle * AgentTeam :=
  match Roles.spawn role_name (tm_ticket t) (tm_registry t) with
  | (Err e, reg) => (Err e, with_registry t reg)
  | (Ok ident, reg) =>
    let t1 := with_registry t reg in
    match policy ← derive_opt (λ p, derive_agent_policy p role_name []) (tm_policy t);
          scope ← derive_opt (λ s, derive_agent_guard_scope s role_name) (tm_scope t);
          digest ← context_digest policy scope;
          Ok (mkAgentHandle ident policy scope digest) with
    | Err e => (Err e, t1)
    | Ok h => (Ok h, with_handle t1 h)
    end
  end.

Definition team_handle (t : AgentTeam) (agent_id : pyval) : result AgentHandle :=
  match agent_id with
  | PyStr s => match dget s (tm_handles t) with Some h => Ok h | None => Err (RoleError "unknown_agent") end
  | _ => Err (RoleError "unknown_agent")
  end.

(** ** Running *)
Definition _validate_step (v : pyval) : result pystr :=
  match v with
  | PyStr s => raise_if ((strip s =s []) || (64 <? length s)) (RoleError "invalid_step");; Ok (strip s)
  | _ => Err (RoleError "invalid_step")
  end.

Definition _require_handle (t : AgentTeam) (h : AgentHandle) : result AgentIdentity :=
  Roles.require (PyStr (ai_agent_id (ah_identity h))) (tm_registry t).

Definition _record (t : AgentTeam) (h : AgentHandle) (st kind : pystr) (outcome : string)
    (evidence : list (pystr * pyval)) (detail : string) : result AgentConclusion * AgentTeam :=
  let i := ah_identity h in
  match AgentConclusion_new (PyStr (ai_agent_id i)) (PyStr (ai_role i)) (PyStr (ai_ticket_id i)) (PyStr st)
          (PyStr kind) (PyStr (ah_context h)) (PyStr (u outcome)) (PyDict evidence) (PyStr (u detail)) with
  | Err e => (Err e, t)
  | Ok c => let '(r, l) := record c (tm_ledger t) in
            (match r with Ok _ => Ok c | Err e => Err e end, with_ledger t l)
  end.

(** What a run needs after its work. *)
Record running := mkRunning {
  rn_handle : AgentHandle;
  rn_identity : AgentIdentity;
  rn_step : pystr;
  rn_kind : pystr;
  rn_lease : option WriteLease
}.

Inductive run_state := RunDone (r : result AgentConclusion) | RunWorking (x : running).

(** The statements before the [try]. *)
Definition run_checks (t : AgentTeam) (h : AgentHandle) (st : pyval)
  : result (AgentIdentity * pystr * pystr * bool) :=
  ident ← _require_handle t h;
  step_name ← _validate_step st;
  r ← role (PyStr (ai_role ident));
  _ ← assert_conclusion_kind ident (PyStr (ar_conclusions_kind r)) (tm_registry t);
  may ← identity_may_write ident;
  Ok (ident, step_name, ar_conclusions_kind r, may).

(** The handle a run with a region works under. *)
Definition narrowed_handle (t : AgentTeam) (h : AgentHandle) (ident : AgentIdentity) (may : bool)
    (reg : pyval) : result (AgentHandle * WriteLeaseBoard) :=
  (if may then Ok tt else assert_may_write ident (tm_registry t));;
  match tm_leases t with
  | None => Err (LeaseError "lease_unavailable")
  | Some board =>
    match ah_policy h, may with
    | Some p, true =>
      narrowed ← converge_policy_to_region p reg;
      Ok (mkAgentHandle ident (Some narrowed) (ah_scope h) (policy_hash narrowed), board)
    | _, _ => Ok (h, board)
    end
  end.

(** [run] with a declared region, up to [work(run_handle)]. *)
Definition run_region (os : os_outcome) (t : AgentTeam) (w : lock_files) (h : AgentHandle)
    (ident : AgentIdentity) (step_name kind : pystr) (may : bool) (reg : pyval)
  : run_state * AgentTeam * lock_files :=
  match narrowed_handle t h ident may reg with
  | Err e => (RunDone (Err e), t, w)
  | Ok (run_handle, board) =>
    match acquire os board w reg (PyStr (ai_agent_id ident)) with
    | (Err (LeaseBusy _ _), b, w') =>
      let '(r, t') := _record (with_board t b) run_handle step_name kind "refused" [] "lease_busy" in
      (RunDone r, t', w')
    | (Err e, b, w') => (RunDone (Err e), with_board t b, w')
    | (Ok lease, b, w') =>
      (RunWorking (mkRunning run_handle ident step_name kind (Some lease)), with_board t b, w')
    end
  end.

(** [run] up to [work(run_handle)]. *)
Definition run_begin (os : os_outcome) (t : AgentTeam) (w : lock_files) (h : AgentHandle)
    (st reg : pyval) : run_state * AgentTeam * lock_files :=
  match run_checks t h st with
  | Err e => (RunDone (Err e), t, w)
  | Ok (ident, step_name, kind, may) =>
    match reg with
    | PyNone =>
      if may then (RunDone (Err (RoleError "write_region_required")), t, w)
      else (RunWorking (mkRunning h ident step_name kind None), t, w)
    | _ => run_region os t w h ident step_name kind may reg
    end
  end.

(** [except ConclusionError]: the run is recorded as failed instead. *)
Definition or_failed (x : running) (res : result AgentConclusion * AgentTeam)
  : result AgentConclusion * AgentTeam :=
  match res with
  | (Err (ConclusionError _), t) => _record t (rn_handle x) (rn_step x) (rn_kind x) "failed" [] "evidence_invalid"
  | _ => res
  end.

(** The evidence of a completed run: identity and context are written over
    whatever the work returned for them. *)
Definition merged_evidence (x : running) (d : list (pystr * pyval)) : list (pystr * pyval) :=
  dset (u "context_digest") (PyStr (ah_context (rn_handle x)))
    (dset (u "agent_id") (PyStr (ai_agent_id (rn_identity x))) d).

(** Recording what the work returned; [None]: it raised. *)
Definition record_work (t : AgentTeam) (x : running) (produced : option pyval)
  : result AgentConclusion * AgentTeam :=
  let rec_ := _record t (rn_handle x) (rn_step x) (rn_kind x) in
  if ah_context (rn_handle x) =s [] then rec_ "refused" [] "context_boundary_missing"
  else match produced with
       | None => rec_ "failed" [] "agent_work_failed"
       | Some (PyNone | PyDict []) => or_failed x (rec_ "refused" [] "evidence_missing")
       | Some (PyDict d) => or_failed x (rec_ "completed" (merged_evidence x d) "")
       | Some _ => or_failed x (rec_ "failed" [] "evidence_invalid")
       end.

(** The [finally] clause. *)
Definition release_run (t : AgentTeam) (w : lock_files) (x : running) : AgentTeam * lock_files :=
  match rn_lease x, tm_leases t with
  | Some l, Some b => let '(_, b', w') := release l b w in (with_board t b', w')
  | _, _ => (t, w)
  end.

Definition run_end (t : AgentTeam) (w : lock_files) (x : running) (produced : option pyval)
  : result AgentConclusion * AgentTeam * lock_files :=
  let '(r, t') := record_work t x produced in
  let '(t'', w') := release_run t' w x in (r, t'', w').

Definition run (os : os_outcome) (t : AgentTeam) (w : lock_files) (h : AgentHandle) (st reg : pyval)
    (work : AgentHandle → option pyval) : result AgentConclusion * AgentTeam * lock_files :=
  match run_begin os t w h st reg with
  | (RunDone r, t', w') => (r, t', w')
  | (RunWorking x, t', w') => run_end t' w' x (work (rn_handle x))
  end.

(** ** Running jobs in parallel

    [run_parallel] starts [min(max_parallel, len(jobs))] threads.  Each takes the
    next index of a shared cursor, under a lock, until there is none left, and
    runs that job; a job whose run raises is recorded as failed, as far as that
    can be recorded.  A step of the pool is one thread's next action, which
    thread moves next is open: taking an index, the beginning of the run up to
    the work (it changes what the threads share in one place, the board under
    its lock, or when that refuses the ledger), recording what the work gave,
    and giving up the lease. *)
Record job := mkJob { jb_handle : AgentHandle; jb_region : pyval; jb_step : pyval }.

Inductive worker :=
  | WIdle
  | WTaken (i : nat)
  | WBusy (i : nat) (x : running)
  | WRecorded (i : nat) (x : running) (r : result AgentConclusion)
  | WExit.

(** [results] and [errors] by index in one list. *)
Record pool := mkPool {
  pl_team : AgentTeam;
  pl_files : lock_files;
  pl_jobs : list job;
  pl_cursor : nat;
  pl_results : list (option (result AgentConclusion));
  pl_workers : list worker
}.
Definition with_worker (k : nat) (wk : worker) (p : pool) : pool :=
  mkPool (pl_team p) (pl_files p) (pl_jobs p) (pl_cursor p) (pl_results p) (<[k := wk]> (pl_workers p)).
Definition with_shared (t : AgentTeam) (w : lock_files) (p : pool) : pool :=
  mkPool t w (pl_jobs p) (pl_cursor p) (pl_results p) (pl_workers p).

(** The [except Exception] of a worker. *)
Definition record_escaped (t : AgentTeam) (j : job) : AgentTeam :=
  match st ← _validate_step (jb_step j); r ← role (PyStr (ai_role (ah_identity (jb_handle j))));
        Ok (st, ar_conclusions_kind r) with
  | Err _ => t
  | Ok (st, kind) => (_record t (jb_handle j) st kind "failed" [] "agent_work_failed").2
  end.

Definition job_done (t : AgentTeam) (j : job) (r : result AgentConclusion) : AgentTeam :=
  match r with Ok _ => t | Err _ => record_escaped t j end.
(** The job of index [i] is over; its worker looks for the next. *)
Definition job_over (k i : nat) (j : job) (r : result AgentConclusion) (t : AgentTeam) (w : lock_files) (p : pool) : pool :=
  mkPool (job_done t j r) w (pl_jobs p) (pl_cursor p) (<[i := Some r]> (pl_results p)) (<[k := WIdle]> (pl_workers p)).

Inductive pool_op :=
  | PoolTake (k : nat)
  | PoolBegin (k : nat) (os : os_outcome)
  | PoolRecord (k : nat) (produced : option pyval)
  | PoolRelease (k : nat).

Definition pool_step (p : pool) (op : pool_op) : option pool :=
  match op with
  | PoolTake k =>
    match pl_workers p !! k with
    | Some WIdle =>
      let i := pl_cursor p in
      Some (mkPool (pl_team p) (pl_files p) (pl_jobs p) (S i) (pl_results p)
              (<[k := if i <? length (pl_jobs p) then WTaken i else WExit]> (pl_workers p)))
    | _ => None
    end
  | PoolBegin k os =>
    match pl_workers p !! k with
    | Some (WTaken i) =>
      j ← pl_jobs p !! i;
      let '(s, t, w) := run_begin os (pl_team p) (pl_files p) (jb_handle j) (jb_step j) (jb_region j) in
      Some match s with
           | RunDone r => job_over k i j r t w p
           | RunWorking x => with_worker k (WBusy i x) (with_shared t w p)
           end
    | _ => None
    end
  | PoolRecord k produced =>
    match pl_workers p !! k with
    | Some (WBusy i x) =>
      let '(r, t) := record_work (pl_team p) x produced in
      Some (with_worker k (WRecorded i x r) (with_shared t (pl_files p) p))
    | _ => None
    end
  | PoolRelease k =>
    match pl_workers p !! k with
    | Some (WRecorded i x r) =>
      j ← pl_jobs p !! i;
      let '(t, w) := release_run (pl_team p) (pl_files p) x in
      Some (job_over k i j r t w p)
    | _ => None
    end
  end.

Fixpoint pool_run (p : pool) (ops : list pool_op) : option pool :=
  match ops with
  | [] => Some p
  | op :: ops' => p' ← pool_step p op; pool_run p' ops'
  end.

Definition pool_init (t : AgentTeam) (w : lock_files) (jobs : list job) : result pool :=
  raise_if (tm_max_parallel t <? Z.of_nat (length jobs))%Z (RoleError "too_many_jobs");;
  Ok (mkPool t w jobs 0 (replicate (length jobs) None)
        (replicate (Nat.min (Z.to_nat (tm_max_parallel t)) (length jobs)) WIdle)).

(** What [run_parallel] returns once its threads are joined: the first error, or
    the conclusions in job order. *)
Fixpoint pool_result (results : list (option (result AgentConclusion))) : result (list AgentConclusion) :=
  match results with
  | [] => Ok []
  | Some (Err e) :: _ => Err e
  | Some (Ok c) :: rest => cs ← pool_result rest; Ok (c :: cs)
  | None :: rest => pool_result rest
  end.

(** ** The step gate *)
Fixpoint gate_pairs (l : ConclusionLedger) (step_name : pystr) (required : list (pystr * pyval))
  : result (list (pystr * bool)) :=
  match required with
  | [] => Ok []
  | (role_name, kind) :: rest =>
    r ← role (PyStr role_name);
    raise_if (negb (is_lit kind (ar_conclusions_kind r))) (RoleError "conclusion_out_of_role");;
    ps ← gate_pairs l step_name rest;
    Ok ((role_name ++ u ":" ++ ar_conclusions_kind r,
         has_completed l (PyStr role_name) kind (PyStr step_name)) :: ps)
  end.

Definition step_gate (t : AgentTeam) (st required : pyval) : result GateReceipt :=
  step_name ← _validate_step st;
  match required with
  | PyDict ((_ :: _) as req) =>
    ps ← gate_pairs (tm_ledger t) step_name req;
    let missing := (filter (λ p, p.2 = false) ps).*1 in
    Ok (mkReceipt (bool_decide (missing = [])) (ps.*1) (filter (λ p, p.2 = true) ps).*1 missing)
  | _ => Err (RoleError "invalid_gate")
  end.
End team.

(** ** Lemmas *)
Section lemmas.
Context `{FileSystem, FloatRepr}.

Lemma record_leases t h st kind oc ev dt : tm_leases (_record t h st kind oc ev dt).2 = tm_leases t.
Proof.
  unfold _record. destruct (AgentConclusion_new _ _ _ _ _ _ _ _ _) as [c|e]; [|done].
  by destruct (record c (tm_ledger t)).
Qed.

Lemma or_failed_leases x res : tm_leases (or_failed x res).2 = tm_leases res.2.
Proof. destruct res as [[c|[]] t]; cbn; try done. apply record_leases. Qed.

Lemma record_work_leases t x produced : tm_leases (record_work t x produced).2 = tm_leases t.
Proof.
  unfold record_work. case_bool_decide; [apply record_leases|].
  destruct produced as [[| | | | | | |[|]|]|]; rewrite ?or_failed_leases; apply record_leases.
Qed.

(** A run that got to its work holds the lease it was given, and nothing else
    has changed. *)
Definition lease_taken (b b' : WriteLeaseBoard) (w w' : lock_files) (l : WriteLease) : Prop :=
  ∃ os ps holder, granted os b w ps holder l b' w'.

Definition leases_after (t : AgentTeam) (w : lock_files) (out : run_state * AgentTeam * lock_files) : Prop :=
  match out with
  | (RunWorking (mkRunning _ _ _ _ (Some l)), t', w') =>
    ∃ b b', tm_leases t = Some b ∧ tm_leases t' = Some b' ∧ lease_taken b b' w w' l
  | (_, t', w') => tm_leases t' = tm_leases t ∧ lf_locked w' = lf_locked w
  end.

Lemma run_region_leases os t w h ident sn kind may reg :
  leases_after t w (run_region os t w h ident sn kind may reg).
Proof.
  unfold run_region. destruct (narrowed_handle t h ident may reg) as [[rh board]|e] eqn:En; [|done].
  assert (Hb : tm_leases t = Some board).
  { unfold narrowed_handle in En. apply bind_ok in En as ([] & _ & En).
    destruct (tm_leases t) as [b|]; [|done]. destruct (ah_policy h), may; try by injection En as _ <-.
    apply bind_ok in En as (? & _ & [= _ <-]). done. }
  destruct (acquire os board w reg (PyStr (ai_agent_id ident))) as [[r b] w'] eqn:Ea.
  apply acquire_spec in Ea. destruct r as [l|e].
  - destruct Ea as (ps & hd & _ & _ & Hg). exists board, b. split_and!; try done. by exists os, ps, hd.
  - destruct Ea as [-> Hl]. destruct e; try (cbn; by rewrite Hb).
    pose proof (record_leases (with_board t board) rh sn kind "refused" [] "lease_busy") as Hr.
    destruct (_record _ _ _ _ _ _ _) as [r t']. cbn in *. by rewrite Hr, Hb.
Qed.

Lemma run_begin_leases os t w h st reg : leases_after t w (run_begin os t w h st reg).
Proof.
  unfold run_begin. destruct (run_checks t h st) as [[[[ident sn] kind] may]|e]; [|done].
  destruct reg; try apply run_region_leases. by destruct may.
Qed.

(** Releasing the lease a board granted gives the board back. *)
Lemma release_taken b b' w w' l w2 :
  lease_taken b b' w w' l →
  ∃ l' w3, release l b' w2 = (l', b, w3) ∧ lf_locked w3 = filter (λ q, q ≠ l_path l) (lf_locked w2).
Proof.
  intros (os & ps & hd & -> & -> & _ & _ & Hfree).
  pose proof (granted_fresh _ _ Hfree) as Hnone.
  eexists _, _. unfold release, _discard. cbn. rewrite dget_dset_eq, bool_decide_eq_true_2 by done.
  rewrite ddel_dset by done. split; [by destruct b|done].
Qed.

Lemma record_digest c l r l' : record c l = (r, l') → is_ok r = true → ac_digest c ∈ lg_digests l'.
Proof.
  unfold record. intros Hr Hok. repeat case_match; simplify_eq/=; [|set_solver].
  by eapply bool_decide_eq_true_1.
Qed.

(** A conclusion [_record] returned. *)
Record recorded (t' : AgentTeam) (h : AgentHandle) (st : pystr) (oc : string)
    (ev : list (pystr * pyval)) (c : AgentConclusion) : Prop := {
  re_agent : ac_agent_id c = ai_agent_id (ah_identity h);
  re_step : ac_step c = st;
  re_context : ac_context_digest c = ah_context h;
  re_outcome : ac_outcome c = u oc;
  re_evidence : u oc = u "completed" → ac_evidence c = ev;
  re_ledger : ac_digest c ∈ lg_digests (tm_ledger t')
}.

Lemma record_recorded t h st kind oc ev dt c t' :
  _record t h st kind oc ev dt = (Ok c, t') → recorded t' h st oc ev c.
Proof.
  unfold _record. destruct (AgentConclusion_new _ _ _ _ _ _ _ _ _) as [c'|e] eqn:Ec; [|done].
  destruct (record c' (tm_ledger t)) as [r l] eqn:Er. destruct r as [d|]; [|done].
  intros [= <- <-]. apply conclusion_new_wf in Ec as (r & _ & [= Ha] & _ & [= Hs] & _ & [= Hx] & [= Ho] & _ & _ & He).
  split; try done; [|by eapply record_digest].
  rewrite Ho. by intros [= ->]%He.
Qed.

(** Every conclusion of the team's ledger was built by the constructor. *)
Definition ledger_wf (t : AgentTeam) : Prop :=
  ledger_ok (tm_ledger t) ∧ Forall (λ c, ∃ r, conclusion_wf c r) (lg_conclusions (tm_ledger t)).

Lemma record_wf t h st kind oc ev dt : ledger_wf t → ledger_wf (_record t h st kind oc ev dt).2.
Proof.
  intros [Hok Hwf]. unfold _record.
  destruct (AgentConclusion_new _ _ _ _ _ _ _ _ _) as [c|e] eqn:Ec; [|done].
  pose proof (record_ok c _ Hok) as Hok'. apply conclusion_new_wf in Ec as (r & Hc & _).
  unfold record in *. repeat case_match; simplify_eq/=; split; cbn; try done.
  apply Forall_app. split; [done|]. constructor; [by exists r|constructor].
Qed.

Lemma or_failed_wf x res : ledger_wf res.2 → ledger_wf (or_failed x res).2.
Proof. destruct res as [[c|[]] t]; cbn; try done. apply record_wf. Qed.

Lemma record_work_wf t x produced : ledger_wf t → ledger_wf (record_work t x produced).2.
Proof.
  intros Ht. unfold record_work. case_bool_decide; [by apply record_wf|].
  destruct produced as [[| | | | | | |[|]|]|]; try apply or_failed_wf; by apply record_wf.
Qed.

Lemma run_region_wf os t w h ident sn kind may reg :
  ledger_wf t → ledger_wf (run_region os t w h ident sn kind may reg).1.2.
Proof.
  intros Ht. unfold run_region. destruct (narrowed_handle t h ident may reg) as [[rh board]|e]; [|done].
  destruct (acquire os board w reg _) as [[[l|e] b] w']; [done|]. destruct e; try done.
  pose proof (record_wf (with_board t b) rh sn kind "refused" [] "lease_busy" Ht).
  by destruct (_record _ _ _ _ _ _ _).
Qed.

Lemma run_begin_wf os t w h st reg : ledger_wf t → ledger_wf (run_begin os t w h st reg).1.2.
Proof.
  intros Ht. unfold run_begin. destruct (run_checks t h st) as [[[[ident sn] kind] may]|e]; [|done].
  destruct reg; try by apply run_region_wf. by destruct may.
Qed.

Lemma run_end_wf t w x produced : ledger_wf t → ledger_wf (run_end t w x produced).1.2.
Proof.
  intros Ht. unfold run_end. pose proof (record_work_wf t x produced Ht) as Hr.
  destruct (record_work t x produced) as [r t2]. unfold release_run.
  destruct (rn_lease x) as [l|]; [|done]. destruct (tm_leases t2) as [b|]; [|done].
  by destruct (release l b w) as [[l' b'] w'].
Qed.

Lemma run_wf os t w h st reg work : ledger_wf t → ledger_wf (run os t w h st reg work).1.2.
Proof.
  intros Ht. unfold run. pose proof (run_begin_wf os t w h st reg Ht) as Hb.
  destruct (run_begin os t w h st reg) as [[[r|x] t1] w1]; [done|]. by apply run_end_wf.
Qed.

(** The identity a run works and records under. *)
Definition acts_as (h : AgentHandle) (ident : AgentIdentity) (rh : AgentHandle) : Prop :=
  rh = h ∨ ah_identity rh = ident.

Lemma narrowed_acts_as t h ident may reg rh board :
  narrowed_handle t h ident may reg = Ok (rh, board) → acts_as h ident rh.
Proof.
  unfold narrowed_handle, acts_as. intros En. apply bind_ok in En as ([] & _ & En).
  destruct (tm_leases t); [|done]. destruct (ah_policy h), may; simplify_eq; auto.
  apply bind_ok in En as (? & _ & [= <- <-]). by right.
Qed.

Lemma run_region_acts os t w h ident sn kind may reg :
  match run_region os t w h ident sn kind may reg with
  | (RunWorking x, _, _) => rn_identity x = ident ∧ rn_step x = sn ∧ acts_as h ident (rn_handle x)
  | (RunDone (Ok c), t1, _) => ∃ rh, acts_as h ident rh ∧ recorded t1 rh sn "refused" [] c
  | _ => True
  end.
Proof.
  unfold run_region. destruct (narrowed_handle t h ident may reg) as [[rh board]|e] eqn:En; [|done].
  apply narrowed_acts_as in En.
  destruct (acquire os board w reg _) as [[[l|e] b] w']; [done|]. destruct e; try done.
  destruct (_record _ _ _ _ _ _ _) as [[c|e] t'] eqn:Er; [|done]. exists rh.
  split; [done|]. by eapply record_recorded.
Qed.

(** What the work's outcome leads to. *)
Lemma or_failed_recorded x oc ev dt t c t' :
  or_failed x (_record t (rn_handle x) (rn_step x) (rn_kind x) oc ev dt) = (Ok c, t') →
  recorded t' (rn_handle x) (rn_step x) oc ev c ∨ recorded t' (rn_handle x) (rn_step x) "failed" [] c.
Proof.
  destruct (_record t _ _ _ _ _ _) as [[c0|e] t0] eqn:Er; cbn.
  - intros [= -> ->]. left. by eapply record_recorded.
  - destruct e; try done. intros Hr. right. by eapply record_recorded.
Qed.

Lemma record_work_recorded t x produced c t' :
  record_work t x produced = (Ok c, t') →
  recorded t' (rn_handle x) (rn_step x) "refused" [] c ∨ recorded t' (rn_handle x) (rn_step x) "failed" [] c ∨
  ∃ d, produced = Some (PyDict d) ∧ recorded t' (rn_handle x) (rn_step x) "completed" (merged_evidence x d) c.
Proof.
  unfold record_work. case_bool_decide; [intros ?%record_recorded; auto|].
  destruct produced as [[| | | | | | |[|p d]|]|];
    try (intros [Hr|Hr]%or_failed_recorded; eauto 6; fail); intros ?%record_recorded; auto.
Qed.

Lemma merged_evidence_get x d :
  pget (u "agent_id") (merged_evidence x d) = PyStr (ai_agent_id (rn_identity x)) ∧
  pget (u "context_digest") (merged_evidence x d) = PyStr (ah_context (rn_handle x)) ∧
  ∀ k, k ≠ u "agent_id" → k ≠ u "context_digest" → pget k (merged_evidence x d) = pget k d.
Proof.
  unfold merged_evidence, pget. split_and!.
  - rewrite dget_dset_ne by (vm_compute; congruence). by rewrite dget_dset_eq.
  - by rewrite dget_dset_eq.
  - intros k H1 H2. by rewrite !dget_dset_ne.
Qed.

Lemma require_id t h ident :
  registry_wf (tm_registry t) → _require_handle t h = Ok ident → ai_agent_id ident = ai_agent_id (ah_identity h).
Proof.
  intros Hwf. unfold _require_handle, require, identity. destruct (dget _ _) as [i'|] eqn:E; [|done].
  intros [= <-]. apply dget_Some_elem in E. by apply (wf_entries _ Hwf) in E as [-> _].
Qed.

(** A conclusion recorded for agent [aid]; if completed, from work that
    returned the rest of its evidence. *)
Definition bound_conclusion (aid : pystr) (work : AgentHandle → option pyval) (t' : AgentTeam)
    (c : AgentConclusion) : Prop :=
  ac_agent_id c = aid ∧ ac_digest c ∈ lg_digests (tm_ledger t') ∧
  (ac_outcome c = u "completed" →
   pget (u "agent_id") (ac_evidence c) = PyStr aid ∧
   pget (u "context_digest") (ac_evidence c) = PyStr (ac_context_digest c) ∧
   ∃ rh d, work rh = Some (PyDict d) ∧
     ∀ k, k ≠ u "agent_id" → k ≠ u "context_digest" → pget k (ac_evidence c) = pget k d).

Lemma release_run_ledger t w x : tm_ledger (release_run t w x).1 = tm_ledger t.
Proof.
  unfold release_run. destruct (rn_lease x), (tm_leases t); try done.
  by destruct (release _ _ _) as [[? ?] ?].
Qed.

Lemma run_end_bound aid t w x work c t' w' :
  ai_agent_id (rn_identity x) = aid → ai_agent_id (ah_identity (rn_handle x)) = aid →
  run_end t w x (work (rn_handle x)) = (Ok c, t', w') → bound_conclusion aid work t' c.
Proof.
  intros Hi Hh. unfold run_end. destruct (record_work t x _) as [r t2] eqn:Er.
  pose proof (release_run_ledger t2 w x) as Hl. destruct (release_run t2 w x) as [t3 w3].
  intros [= -> <- <-]. cbn in Hl. unfold bound_conclusion. rewrite Hl.
  destruct (record_work_recorded _ _ _ _ _ Er) as [[Ha _ _ Ho _ Hd]|[[Ha _ _ Ho _ Hd]|(d & Hw & [Ha _ Hx Ho He Hd])]].
  1,2: split_and!; [congruence|done|]; intros Hc; rewrite Ho in Hc; discriminate Hc.
  split_and!; [congruence|done|]. intros _. rewrite He, Hx by done.
  destruct (merged_evidence_get x d) as (-> & -> & Hk). split_and!; [congruence|done|].
  by exists (rn_handle x), d.
Qed.

Lemma job_done_leases t j r : tm_leases (job_done t j r) = tm_leases t.
Proof.
  unfold job_done, record_escaped. destruct r; [done|].
  destruct (_ ≫= _) as [[s k]|]; [apply record_leases|done].
Qed.

(** *** The pool *)
(** The run a worker is in, with the index of its job. *)
Definition at_work (wk : worker) : option (nat * running) :=
  match wk with WBusy i x | WRecorded i x _ => Some (i, x) | _ => None end.
Definition worker_leases (wk : worker) : list WriteLease :=
  match at_work wk with Some (_, x) => match rn_lease x with Some l => [l] | None => [] end | None => [] end.
Definition pool_leases (p : pool) : list WriteLease := concat (worker_leases <$> pl_workers p).
Definition running_count (p : pool) : nat := length (omap at_work (pl_workers p)).

(** The regions and locks held are those held before and those of the running
    jobs, and they do not overlap. *)
Record board_ok (b0 b : WriteLeaseBoard) (locked0 locked : list lock_path) (ls : list WriteLease) : Prop := {
  bo_dir : lease_dir b = lease_dir b0;
  bo_held : held b ≡ₚ ((λ l, (l_region l, l_holder l)) <$> ls) ++ held b0;
  bo_disjoint : held_disjoint (held b);
  bo_locked : locked ≡ₚ (l_path <$> ls) ++ locked0;
  bo_nodup : NoDup locked;
  bo_live : Forall (λ l, live l ∧ live_wf (lease_dir b0) l) ls
}.

(** What a run under way owes to its beginning: the lease of the region its job
    declared, or no region because its role may not write. *)
Definition declared (reg : pyval) (x : running) : Prop :=
  match rn_lease x with
  | Some l => normalize_region reg = Ok (l_region l)
  | None => reg = PyNone ∧ identity_may_write (rn_identity x) = Ok false
  end.
Definition worker_ok (p : pool) (wk : worker) : Prop :=
  match wk with
  | WIdle => True
  | WTaken i => ∃ j, pl_jobs p !! i = Some j
  | WBusy i x | WRecorded i x _ => ∃ j, pl_jobs p !! i = Some j ∧ declared (jb_region j) x
  | WExit => length (pl_jobs p) ≤ pl_cursor p
  end.
Definition handles_job (i : nat) (wk : worker) : Prop := wk = WTaken i ∨ ∃ x, at_work wk = Some (i, x).

Definition shared_ok (t0 : AgentTeam) (w0 : lock_files) (t : AgentTeam) (w : lock_files) (ls : list WriteLease) : Prop :=
  match tm_leases t0 with
  | None => tm_leases t = None ∧ ls = [] ∧ lf_locked w = lf_locked w0
  | Some b0 => ∃ b, tm_leases t = Some b ∧ board_ok b0 b (lf_locked w0) (lf_locked w) ls
  end.
Record pool_ok (t0 : AgentTeam) (w0 : lock_files) (jobs : list job) (n : nat) (p : pool) : Prop := {
  po_jobs : pl_jobs p = jobs;
  po_workers : length (pl_workers p) = n;
  po_results : length (pl_results p) = length jobs;
  po_each : Forall (worker_ok p) (pl_workers p);
  po_cover : ∀ i, i < pl_cursor p → i < length jobs →
    (∃ r, pl_results p !! i = Some (Some r)) ∨ ∃ wk, wk ∈ pl_workers p ∧ handles_job i wk;
  po_shared : shared_ok t0 w0 (pl_team p) (pl_files p) (pool_leases p)
}.

Lemma board_ok_perm b0 b l0 l ls ls' : ls ≡ₚ ls' → board_ok b0 b l0 l ls → board_ok b0 b l0 l ls'.
Proof. intros Hp [? ? ? ? ? ?]. split; try done; by rewrite <-Hp. Qed.

Lemma board_ok_granted b0 b b' l0 w w' ls l os ps holder :
  board_ok b0 b l0 (lf_locked w) ls → granted os b w ps holder l b' w' →
  board_ok b0 b' l0 (lf_locked w') (l :: ls).
Proof.
  intros [Hd Hh Hdis Hl Hn Hlive] (-> & -> & Hlock & Hfresh & Hfree).
  pose proof (granted_fresh _ _ Hfree) as Hnone.
  split; cbn; rewrite ?dset_fresh by done.
  - done.
  - rewrite Hh. apply Permutation_app_comm.
  - by apply held_disjoint_app.
  - by rewrite Hlock, Hl.
  - rewrite Hlock. by constructor.
  - constructor; [|done]. by rewrite <-Hd.
Qed.

Lemma board_ok_released b0 b l0 w ls l :
  board_ok b0 b l0 (lf_locked w) (l :: ls) →
  ∃ l' b' w', release l b w = (l', b', w') ∧ board_ok b0 b' l0 (lf_locked w') ls.
Proof.
  intros [Hd Hh Hdis Hl Hn Hlive]. apply Forall_cons in Hlive as [[Hlv (Hb & Hs & Hp)] Hlive].
  cbn in Hh, Hl. unfold release. rewrite Hlv, Hb, Hs.
  assert (Hget : dget (l_region l) (held b) = Some (l_holder l)).
  { apply elem_dget; [by destruct Hdis|]. rewrite Hh. constructor. }
  unfold _discard. rewrite Hget, bool_decide_eq_true_2 by done.
  eexists _, _, _. split; [done|]. destruct (unlock_head _ _ _ Hn Hl) as [Hl' Hn'].
  split; cbn; try done.
  - by apply (ddel_perm _ (l_holder l) _ _ (proj1 Hdis)).
  - destruct Hdis as [Hnd Hov]. split; [by apply ddel_NoDup|].
    intros x y [? _]%elem_dkeys_ddel [? _]%elem_dkeys_ddel. auto.
Qed.

(** *** What a step does to the team, the locks and the leases *)
Lemma shared_perm t0 w0 t w ls ls' : ls ≡ₚ ls' → shared_ok t0 w0 t w ls → shared_ok t0 w0 t w ls'.
Proof.
  intros Hp. unfold shared_ok. destruct (tm_leases t0); [|intros (? & -> & ?); by apply Permutation_nil_l in Hp as <-].
  intros (b & ? & ?). exists b. split; [done|]. by eapply board_ok_perm.
Qed.
Lemma shared_same t0 w0 t w t' w' ls :
  tm_leases t' = tm_leases t → lf_locked w' = lf_locked w → shared_ok t0 w0 t w ls → shared_ok t0 w0 t' w' ls.
Proof. intros E1 E2. unfold shared_ok. by rewrite E1, E2. Qed.

Lemma shared_begin t0 w0 t w h st reg os x t' w' ls :
  run_begin os t w h st reg = (RunWorking x, t', w') → shared_ok t0 w0 t w ls →
  shared_ok t0 w0 t' w' (worker_leases (WBusy 0 x) ++ ls).
Proof.
  intros E Hs. pose proof (run_begin_leases os t w h st reg) as Hl. rewrite E in Hl. cbn in Hl |- *.
  destruct x as [rh id sn kd [l|]]; cbn in *.
  - destruct Hl as (b & b' & Hb1 & Hb2 & os' & ps & hd & Hg). revert Hs. unfold shared_ok.
    destruct (tm_leases t0) as [b0|]; [|intros (? & _); congruence].
    intros (b1 & Hb & Hok). assert (b1 = b) as -> by congruence. exists b'. split; [done|]. by eapply board_ok_granted.
  - destruct Hl as [Hl1 Hl2]. exact (shared_same _ _ _ _ _ _ _ Hl1 Hl2 Hs).
Qed.
Lemma shared_release t0 w0 t w i x t' w' ls :
  release_run t w x = (t', w') → shared_ok t0 w0 t w (worker_leases (WBusy i x) ++ ls) → shared_ok t0 w0 t' w' ls.
Proof.
  unfold release_run, worker_leases. cbn. destruct (rn_lease x) as [l|]; cbn; [|by intros [= <- <-]].
  unfold shared_ok. destruct (tm_leases t0) as [b0|]; [|by intros _ (_ & ? & _)].
  intros E (b & Hb & Hok). rewrite Hb in E. destruct (board_ok_released _ _ _ _ _ _ Hok) as (l' & b' & w1 & Hrel & Hok').
  rewrite Hrel in E. injection E as <- <-. by exists b'.
Qed.

(** A run that begins has what its job declared. *)
Lemma run_begin_declared os t w h st reg x t' w' :
  run_begin os t w h st reg = (RunWorking x, t', w') → declared reg x.
Proof.
  unfold run_begin. destruct (run_checks t h st) as [[[[ident sn] kind] may]|e] eqn:Ec; [|done].
  assert (Hmay : identity_may_write ident = Ok may).
  { unfold run_checks in Ec. apply bind_ok in Ec as (i & _ & Ec). do 3 (apply bind_ok in Ec as (? & _ & Ec)).
    apply bind_ok in Ec as (m & Hm & Ec). by injection Ec as <- _ _ <-. }
  assert (Hreg : ∀ reg', run_region os t w h ident sn kind may reg' = (RunWorking x, t', w') → declared reg' x).
  { intros reg'. unfold run_region. destruct (narrowed_handle t h ident may reg') as [[rh board]|e]; [|done].
    destruct (acquire os board w reg' _) as [[r b] w1] eqn:Ea. apply acquire_spec in Ea. destruct r as [l|e].
    - intros [= <- _ _]. destruct Ea as (ps & hd & Hps & _ & -> & _). exact Hps.
    - destruct e; try done. by destruct (_record _ _ _ _ _ _ _). }
  destruct reg; try apply Hreg. destruct may; [done|]. by intros [= <- _ _].
Qed.

Lemma workers_insert (ws : list worker) k wk wk' :
  ws !! k = Some wk → ∃ rest, concat (worker_leases <$> ws) ≡ₚ worker_leases wk ++ rest ∧
                              concat (worker_leases <$> <[k := wk']> ws) ≡ₚ worker_leases wk' ++ rest.
Proof. apply concat_insert. Qed.

(** A step of worker [k] keeps the invariant when its new state does. *)
Lemma pool_ok_move t0 w0 jobs n p p' k wk wk' :
  pool_ok t0 w0 jobs n p → pl_workers p !! k = Some wk → pl_workers p' = <[k := wk']> (pl_workers p) →
  pl_jobs p' = pl_jobs p → pl_cursor p ≤ pl_cursor p' → length (pl_results p') = length (pl_results p) →
  worker_ok p' wk' →
  (∀ i r, pl_results p !! i = Some (Some r) → ∃ r', pl_results p' !! i = Some (Some r')) →
  (∀ i, handles_job i wk → handles_job i wk' ∨ ∃ r, pl_results p' !! i = Some (Some r)) →
  (∀ i, pl_cursor p ≤ i < pl_cursor p' → i < length jobs → handles_job i wk') →
  (∀ rest, pool_leases p ≡ₚ worker_leases wk ++ rest → shared_ok t0 w0 (pl_team p') (pl_files p') (worker_leases wk' ++ rest)) →
  pool_ok t0 w0 jobs n p'.
Proof.
  intros [Hj Hw Hr He Hc Hs] Hk Ews Ejobs Hcur Hlen Hok Hres Hh Hnew Hsh.
  assert (Hlt : k < length (pl_workers p)) by by eapply lookup_lt_Some.
  destruct (workers_insert _ _ _ wk' Hk) as (rest & P1 & P2).
  split; rewrite ?Ews, ?Ejobs, ?length_insert; try done.
  - congruence.
  - apply Forall_insert; [|done]. eapply Forall_impl; [exact He|]. intros [| | | |]; cbn; rewrite ?Ejobs; try done. lia.
  - intros i Hi Hil. destruct (decide (i < pl_cursor p)) as [Hlow|].
    + destruct (Hc i Hlow Hil) as [(r & Hri)|(wk1 & Hin & Hwk)]; [left; by eapply Hres|].
      apply list_elem_of_lookup in Hin as [k1 Hk1]. destruct (decide (k1 = k)) as [->|Hne].
      * assert (wk1 = wk) as -> by congruence. destruct (Hh i Hwk) as [?|?]; [|by left]. right. exists wk'. split; [|done].
        eapply list_elem_of_lookup_2. by apply list_lookup_insert_eq.
      * right. exists wk1. split; [|done]. apply (list_elem_of_lookup_2 _ k1). by rewrite list_lookup_insert_ne.
    + right. exists wk'. split; [eapply list_elem_of_lookup_2; by apply list_lookup_insert_eq|]. apply Hnew; [lia|done].
  - unfold pool_leases in *. rewrite Ews. eapply shared_perm; [symmetry; exact P2|]. by apply Hsh.
Qed.
Lemma handles_taken i i0 : handles_job i (WTaken i0) → i = i0.
Proof. unfold handles_job. intros [[= <-]|(x & [=])]. done. Qed.
Lemma handles_at i i0 x wk : at_work wk = Some (i0, x) → handles_job i wk → i = i0.
Proof. intros Hw [->|(x' & Hx)]; [discriminate|]. congruence. Qed.
Lemma not_handles_idle i : ¬ handles_job i WIdle.
Proof. intros [[=]|(x & [=])]. Qed.

(** The job of a worker is over. *)
Lemma job_over_ok t0 w0 jobs n p k i j r t w wk :
  pool_ok t0 w0 jobs n p → pl_workers p !! k = Some wk → (∀ i', handles_job i' wk → i' = i) → pl_jobs p !! i = Some j →
  (∀ rest, pool_leases p ≡ₚ worker_leases wk ++ rest → shared_ok t0 w0 t w rest) →
  pool_ok t0 w0 jobs n (job_over k i j r t w p).
Proof.
  intros Hok Hk Hh Hj Hs. assert (Hi : i < length (pl_results p)).
  { rewrite (po_results _ _ _ _ _ Hok), <-(po_jobs _ _ _ _ _ Hok). by eapply lookup_lt_Some. }
  assert (Hri : <[i := Some r]> (pl_results p) !! i = Some (Some r)) by by apply list_lookup_insert_eq.
  eapply (pool_ok_move _ _ _ _ p _ k wk WIdle Hok Hk); cbn; try done.
  - by rewrite length_insert.
  - intros i' r' Hr'. destruct (decide (i' = i)) as [->|Hne]; [by eexists|]. exists r'. by rewrite list_lookup_insert_ne.
  - intros i' ->%Hh. right. by eexists.
  - intros i' Hx. lia.
  - intros rest Hp. eapply shared_same; [apply job_done_leases|done|]. by apply Hs.
Qed.

Lemma pool_step_ok t0 w0 jobs n p op p' : pool_ok t0 w0 jobs n p → pool_step p op = Some p' → pool_ok t0 w0 jobs n p'.
Proof.
  intros Hok. destruct op as [k|k os|k produced|k]; cbn [pool_step];
    (destruct (pl_workers p !! k) as [wk|] eqn:Hk; [|done]);
    pose proof (proj1 (Forall_lookup _ _) (po_each _ _ _ _ _ Hok) k wk Hk) as Hwk;
    destruct wk as [|i|i x|i x r|]; try done.
  - intros [= <-]. pose proof (po_jobs _ _ _ _ _ Hok) as Hjobs.
    eapply (pool_ok_move _ _ _ _ p _ k WIdle _ Hok Hk); cbn [pl_workers pl_jobs pl_cursor pl_results pl_team pl_files]; try done.
    + lia.
    + destruct (Nat.ltb_spec (pl_cursor p) (length (pl_jobs p))) as [Hlt|Hge]; cbn; [by apply lookup_lt_is_Some|lia].
    + intros i r ?. by exists r.
    + intros i Hi. by destruct (not_handles_idle i).
    + intros i Hi Hil. assert (i = pl_cursor p) as -> by lia. rewrite <-Hjobs in Hil.
      destruct (Nat.ltb_spec (pl_cursor p) (length (pl_jobs p))); [by left|lia].
    + intros rest Hp. eapply shared_perm; [|exact (po_shared _ _ _ _ _ Hok)]. rewrite Hp. by destruct (_ <? _).
  - destruct Hwk as [j Hj]. rewrite Hj. cbn [mbind option_bind].
    pose proof (run_begin_leases os (pl_team p) (pl_files p) (jb_handle j) (jb_step j) (jb_region j)) as Hl.
    destruct (run_begin _ _ _ _ _ _) as [[s t] w] eqn:Eb. destruct s as [r|x]; intros [= <-].
    + eapply job_over_ok; [exact Hok|exact Hk|intros i'; apply handles_taken|exact Hj|]. intros rest Hp.
      destruct Hl as [Hl1 Hl2]. eapply shared_same; [exact Hl1|exact Hl2|]. eapply shared_perm; [exact Hp|apply Hok].
    + eapply (pool_ok_move _ _ _ _ p _ k (WTaken i) (WBusy i x) Hok Hk); cbn; try done.
      * exists j. split; [exact Hj|]. by eapply run_begin_declared.
      * intros i' r' ?. by exists r'.
      * intros i' ->%handles_taken. left. right. by exists x.
      * intros i' Hx. lia.
      * intros rest Hp. eapply (shared_begin _ _ _ _ _ _ _ _ x _ _ rest Eb). eapply shared_perm; [exact Hp|apply Hok].
  - pose proof (record_work_leases (pl_team p) x produced) as Hl. destruct (record_work _ _ _) as [r t]. intros [= <-]. cbn in Hl.
    eapply (pool_ok_move _ _ _ _ p _ k (WBusy i x) (WRecorded i x r) Hok Hk); cbn; try done.
    + intros i' r' ?. by exists r'.
    + intros i' Hx. left. rewrite (handles_at _ i x (WBusy i x) eq_refl Hx). right. by exists x.
    + intros i' Hx. lia.
    + intros rest Hp. eapply shared_same; [exact Hl|done|]. eapply shared_perm; [exact Hp|apply Hok].
  - destruct Hwk as (j & Hj & _). rewrite Hj. cbn [mbind option_bind].
    destruct (release_run _ _ _) as [t w] eqn:Er. intros [= <-].
    eapply job_over_ok; [exact Hok|exact Hk|intros i'; by eapply handles_at|exact Hj|]. intros rest Hp.
    eapply (shared_release _ _ _ _ i); [exact Er|]. eapply shared_perm; [exact Hp|apply Hok].
Qed.

Lemma pool_init_ok t w jobs p :
  pool_init t w jobs = Ok p → NoDup (lf_locked w) → (∀ b, tm_leases t = Some b → held_disjoint (held b)) →
  pool_ok t w jobs (Nat.min (Z.to_nat (tm_max_parallel t)) (length jobs)) p ∧ pl_cursor p = 0 ∧
  pl_workers p = replicate (Nat.min (Z.to_nat (tm_max_parallel t)) (length jobs)) WIdle.
Proof.
  unfold pool_init. intros Hi Hn Hdis. apply bind_ok in Hi as ([] & _ & [= <-]). split; [|done].
  split; cbn; rewrite ?length_replicate; try done.
  - apply Forall_forall. by intros wk [-> _]%elem_of_replicate.
  - lia.
  - unfold pool_leases. cbn. rewrite fmap_replicate. generalize (Nat.min (Z.to_nat (tm_max_parallel t)) (length jobs)) as m. intros m.
    assert (concat (replicate m (worker_leases WIdle)) = []) as ->.
    { induction m as [|m IH]; cbn; [done|exact IH]. }
    unfold shared_ok. destruct (tm_leases t) as [b|]; [|done]. exists b. split; [done|]. split; cbn; auto.
Qed.

Lemma pool_run_ok t0 w0 jobs n ops : ∀ p p', pool_ok t0 w0 jobs n p → pool_run p ops = Some p' → pool_ok t0 w0 jobs n p'.
Proof.
  induction ops as [|op ops IH]; intros p p' Hp; cbn [pool_run]; [by intros [= <-]|].
  destruct (pool_step p op) as [p1|] eqn:E; [|done]. apply IH. by eapply pool_step_ok.
Qed.

(** The steps that are left. *)
Definition worker_work (wk : worker) : nat :=
  match wk with WIdle => 1 | WTaken _ => 4 | WBusy _ _ => 3 | WRecorded _ _ _ => 2 | WExit => 0 end.
Definition pool_work (p : pool) : nat :=
  4 * (length (pl_jobs p) - pl_cursor p) + sum_list (worker_work <$> pl_workers p).

Lemma sum_insert (ws : list worker) k wk wk' :
  ws !! k = Some wk →
  sum_list (worker_work <$> <[k := wk']> ws) + worker_work wk = sum_list (worker_work <$> ws) + worker_work wk'.
Proof.
  revert k. induction ws as [|w1 ws IH]; intros [|k] Hk; simplify_eq/=; [lia|]. specialize (IH k Hk). lia.
Qed.

Lemma pool_step_work p op p' : pool_step p op = Some p' → pool_work p' < pool_work p.
Proof.
  unfold pool_work. destruct op as [k|k os|k produced|k]; cbn [pool_step];
    (destruct (pl_workers p !! k) as [wk|] eqn:Hk; [|done]); destruct wk as [|i|i x|i x r|]; try done.
  - intros [= <-]. cbn [pl_jobs pl_cursor pl_workers].
    pose proof (sum_insert _ _ _ (if pl_cursor p <? length (pl_jobs p) then WTaken (pl_cursor p) else WExit) Hk) as Hs.
    destruct (Nat.ltb_spec (pl_cursor p) (length (pl_jobs p))); cbn [worker_work] in Hs; lia.
  - destruct (pl_jobs p !! i) as [j|]; [|done]. cbn [mbind option_bind].
    destruct (run_begin _ _ _ _ _ _) as [[[r|x] t] w]; intros [= <-]; cbn.
    + pose proof (sum_insert _ _ _ WIdle Hk) as Hs. cbn [worker_work] in Hs. lia.
    + pose proof (sum_insert _ _ _ (WBusy i x) Hk) as Hs. cbn [worker_work] in Hs. lia.
  - destruct (record_work _ _ _) as [r t]. intros [= <-]. cbn.
    pose proof (sum_insert _ _ _ (WRecorded i x r) Hk) as Hs. cbn [worker_work] in Hs. lia.
  - destruct (pl_jobs p !! i) as [j|]; [|done]. cbn [mbind option_bind]. destruct (release_run _ _ _) as [t w]. intros [= <-]. cbn.
    pose proof (sum_insert _ _ _ WIdle Hk) as Hs. cbn [worker_work] in Hs. lia.
Qed.
Lemma pool_run_work ops : ∀ p p', pool_run p ops = Some p' → pool_work p' + length ops ≤ pool_work p.
Proof.
  induction ops as [|op ops IH]; intros p p'; cbn [pool_run length]; [intros [= <-]; lia|].
  destruct (pool_step p op) as [p1|] eqn:E; [|done]. intros Hr%IH. pose proof (pool_step_work _ _ _ E). lia.
Qed.

(** A worker that has not left can always make its next step. *)
Lemma pool_progress p k wk :
  pl_workers p !! k = Some wk → worker_ok p wk → wk ≠ WExit → ∃ op p', pool_step p op = Some p'.
Proof.
  intros Hk Hok Hne. destruct wk as [|i|i x|i x r|]; cbn in Hok; try done.
  - exists (PoolTake k). cbn. rewrite Hk. by eexists.
  - destruct Hok as [j Hj]. exists (PoolBegin k os_ok). cbn. rewrite Hk, Hj. cbn.
    destruct (run_begin _ _ _ _ _ _) as [[[r|x] t] w]; by eexists.
  - exists (PoolRecord k None). cbn. rewrite Hk. destruct (record_work _ _ _). by eexists.
  - destruct Hok as (j & Hj & _). exists (PoolRelease k). cbn. rewrite Hk, Hj. cbn. destruct (release_run _ _ _). by eexists.
Qed.

Lemma all_left (ws : list worker) : Forall (λ wk, wk = WExit) ws ∨ ∃ k wk, ws !! k = Some wk ∧ wk ≠ WExit.
Proof.
  induction ws as [|wk ws [IH|(k & wk' & Hk & Hne)]]; [by left| |right; by exists (S k), wk'].
  destruct wk; try (right; by exists 0; eexists). left. by constructor.
Qed.
Lemma running_bound ws : length (omap at_work ws) ≤ length ws.
Proof. induction ws as [|wk ws IH]; cbn; [lia|]. destruct (at_work wk); cbn; lia. Qed.

(** Two workers at work have regions of their own. *)
Lemma pool_held t0 w0 jobs n p k wk i x l :
  pool_ok t0 w0 jobs n p → pl_workers p !! k = Some wk → at_work wk = Some (i, x) → rn_lease x = Some l →
  ∃ b, tm_leases (pl_team p) = Some b ∧ (l_region l, l_holder l) ∈ held b ∧ l_path l ∈ lf_locked (pl_files p).
Proof.
  intros Hok Hk Hw Hl. pose proof (po_shared _ _ _ _ _ Hok) as Hs.
  assert (Hin : l ∈ pool_leases p).
  { eapply elem_concat_fmap; [exact Hk|]. unfold worker_leases. rewrite Hw, Hl. constructor. }
  revert Hs. unfold shared_ok. destruct (tm_leases t0) as [b0|]; [|intros (_ & E & _); rewrite E in Hin; by apply elem_of_nil in Hin].
  intros (b & Hb & [_ Hh _ Hlk _ _]). exists b. split; [exact Hb|]. rewrite Hh, Hlk, !elem_of_app. split; left; apply list_elem_of_fmap; by exists l.
Qed.
Lemma two_leases ws k k' wk wk' i i' x x' l l' :
  k ≠ k' → ws !! k = Some wk → ws !! k' = Some wk' → at_work wk = Some (i, x) → at_work wk' = Some (i', x') →
  rn_lease x = Some l → rn_lease x' = Some l' → ∃ rest, concat (worker_leases <$> ws) ≡ₚ l :: l' :: rest.
Proof.
  intros Hne Hk Hk' Hw Hw' Hl Hl'.
  assert (E : worker_leases wk = [l]) by (unfold worker_leases; by rewrite Hw, Hl).
  assert (E' : worker_leases wk' = [l']) by (unfold worker_leases; by rewrite Hw', Hl').
  destruct (workers_insert _ _ _ WIdle Hk) as (rest & P1 & P2). rewrite E in P1. cbn in P1, P2.
  assert (Hk2 : <[k := WIdle]> ws !! k' = Some wk') by by rewrite list_lookup_insert_ne.
  destruct (workers_insert _ _ _ WIdle Hk2) as (rest' & P3 & _). rewrite E' in P3. cbn in P3.
  exists rest'. rewrite P1, <-P3, P2. done.
Qed.
Lemma pool_disjoint t0 w0 jobs n p k k' wk wk' i i' x x' l l' :
  pool_ok t0 w0 jobs n p → k ≠ k' → pl_workers p !! k = Some wk → pl_workers p !! k' = Some wk' →
  at_work wk = Some (i, x) → at_work wk' = Some (i', x') → rn_lease x = Some l → rn_lease x' = Some l' →
  regions_overlap (l_region l) (l_region l') = false.
Proof.
  intros Hok Hne Hk Hk' Hw Hw' Hl Hl'. destruct (two_leases _ _ _ _ _ _ _ _ _ _ _ Hne Hk Hk' Hw Hw' Hl Hl') as [rest Hp].
  pose proof (po_shared _ _ _ _ _ Hok) as Hs. eapply shared_perm in Hs; [|exact Hp]. revert Hs. unfold shared_ok.
  destruct (tm_leases t0) as [b0|]; [|by intros (_ & ? & _)]. intros (b & _ & [_ Hh [Hnd Hd] _ _ _]).
  destruct (regions_overlap (l_region l) (l_region l')) eqn:E; [|done]. exfalso.
  unfold dkeys in Hnd. rewrite Hh in Hnd. cbn in Hnd. apply NoDup_cons in Hnd as [Hni _]. apply Hni.
  assert (l_region l = l_region l') as ->; [|constructor].
  apply Hd; [..|exact E]; unfold dkeys; rewrite Hh; cbn; [constructor|apply elem_of_cons; right; constructor].
Qed.

(** Which pairs of a gate are missing. *)
Lemma gate_missing l sn req ps :
  gate_pairs l sn req = Ok ps →
  (filter (λ p, p.2 = false) ps).*1 = [] ↔
  ∀ rn kd, (rn, kd) ∈ req → has_completed l (PyStr rn) kd (PyStr sn) = true.
Proof.
  revert ps. induction req as [|[rn kd] req IH]; intros ps; cbn [gate_pairs].
  - intros [= <-]. split; [|done]. intros _ rn kd Hin. by apply elem_of_nil in Hin.
  - intros Hg. apply bind_ok in Hg as (r & _ & Hg). apply bind_ok in Hg as ([] & _ & Hg).
    apply bind_ok in Hg as (ps' & Hps & [= <-]). rewrite filter_cons.
    specialize (IH ps' Hps). cbn [snd]. case_decide as E; cbn.
    + split; [done|]. intros Ha. rewrite (Ha rn kd) in E by constructor. done.
    + rewrite IH. split.
      * intros Ha rn' kd' Hin. apply elem_of_cons in Hin as [Heq|Hin]; [|by apply Ha].
        injection Heq as -> ->. by apply not_false_is_true.
      * intros Ha rn' kd' Hin. apply Ha. by constructor.
Qed.
End lemmas.

(** ** Properties *)
Section properties.
Context `{FileSystem, FloatRepr}.

(** Whatever the work of a run does, whether the run completes, is refused,
    fails or raises, the regions held and the file locks are afterwards what
    they were before it. *)
Theorem run_restores_leases os t w h st reg work :
  let '(_, t', w') := run os t w h st reg work in
  tm_leases t' = tm_leases t ∧ lf_locked w' = lf_locked w.
Proof.
  unfold run. pose proof (run_begin_leases os t w h st reg) as Hb.
  destruct (run_begin os t w h st reg) as [[[r|x] t1] w1]; [done|].
  unfold run_end. pose proof (record_work_leases t1 x (work (rn_handle x))) as Hr.
  destruct (record_work t1 x (work (rn_handle x))) as [r t2]. cbn in Hr.
  unfold release_run. rewrite Hr. destruct x as [rh id sn kd [l|]]; cbn in *.
  - destruct Hb as (b & b' & Hb1 & -> & Ht). destruct (release_taken _ _ _ _ _ w1 Ht) as (l' & w3 & -> & Hl).
    rewrite Hl. cbn. split; [by rewrite Hb1|].
    destruct Ht as (os' & ps & hd & -> & _ & -> & Hf & _). by apply unlock_fresh.
  - destruct Hb as [H1 H2]. by rewrite Hr, H1, H2.
Qed.

(** A run that returns a conclusion has it in the ledger under the handle's
    own agent id; a completed one carries evidence the work returned, in which
    the agent id and the context digest are the orchestrator's, not the
    work's. *)
Theorem run_conclusion_bound os t w h st reg work c t' w' :
  registry_wf (tm_registry t) → run os t w h st reg work = (Ok c, t', w') →
  bound_conclusion (ai_agent_id (ah_identity h)) work t' c.
Proof.
  intros Hwf. unfold run, run_begin.
  destruct (run_checks t h st) as [[[[ident sn] kind] may]|e] eqn:Ec; [|done].
  assert (Hid : ai_agent_id ident = ai_agent_id (ah_identity h)).
  { unfold run_checks in Ec. apply bind_ok in Ec as (i & Hi & Ec). apply require_id in Hi; [|done].
    do 4 (apply bind_ok in Ec as (? & _ & Ec)). by injection Ec as <- _ _ _. }
  assert (Hact : ∀ rh, acts_as h ident rh → ai_agent_id (ah_identity rh) = ai_agent_id (ah_identity h))
    by (by intros rh [->| ->]).
  assert (Hreg : ∀ reg',
    match run_region os t w h ident sn kind may reg' with
    | (RunDone r, t2, w2) => (r, t2, w2)
    | (RunWorking x, t2, w2) => run_end t2 w2 x (work (rn_handle x))
    end = (Ok c, t', w') → bound_conclusion (ai_agent_id (ah_identity h)) work t' c).
  { intros reg'. pose proof (run_region_acts os t w h ident sn kind may reg') as Ha.
    destruct (run_region os t w h ident sn kind may reg') as [[[r|x] t2] w2].
    - intros [= -> <- <-]. destruct Ha as (rh & Hrh & [Hag _ _ Ho _ Hd]).
      split_and!; [by rewrite Hag, Hact|done|]. intros Hc; rewrite Ho in Hc; discriminate Hc.
    - destruct Ha as (Hx & _ & Ha). apply run_end_bound; [congruence|auto]. }
  destruct reg; try apply Hreg. destruct may; [done|].
  by apply (run_end_bound _ t w (mkRunning h ident sn kind None)).
Qed.

(** C25: in a parallel run, whatever order its threads move in and whatever the
    operating system and the work answer: at most [max_parallel] jobs are at work
    at once, there being no more threads; a job at work that declared a region
    holds a lease on that very region, in the board's table and with its file
    lock, one that declared none has a role that may not write, and the regions
    of two jobs at work never overlap; when every thread has left, every job has
    its result, and the held regions and the locks are those held before; and
    the threads can always move on until they have left, in at most five steps
    per job. *)
Theorem parallel_safe t w jobs p0 ops p :
  pool_init t w jobs = Ok p0 → (1 ≤ tm_max_parallel t)%Z → NoDup (lf_locked w) →
  (∀ b, tm_leases t = Some b → held_disjoint (held b)) → pool_run p0 ops = Some p →
  (Z.of_nat (running_count p) ≤ tm_max_parallel t)%Z ∧
  (∀ k wk i x, pl_workers p !! k = Some wk → at_work wk = Some (i, x) → ∃ j, jobs !! i = Some j ∧
     match rn_lease x with
     | Some l => normalize_region (jb_region j) = Ok (l_region l) ∧
                 ∃ b, tm_leases (pl_team p) = Some b ∧ (l_region l, l_holder l) ∈ held b ∧ l_path l ∈ lf_locked (pl_files p)
     | None => jb_region j = PyNone ∧ identity_may_write (rn_identity x) = Ok false
     end) ∧
  (∀ k k' wk wk' i i' x x' l l', k ≠ k' → pl_workers p !! k = Some wk → pl_workers p !! k' = Some wk' →
     at_work wk = Some (i, x) → at_work wk' = Some (i', x') → rn_lease x = Some l → rn_lease x' = Some l' →
     regions_overlap (l_region l) (l_region l') = false) ∧
  (Forall (λ wk, wk = WExit) (pl_workers p) →
   (∀ i, i < length jobs → ∃ r, pl_results p !! i = Some (Some r)) ∧ lf_locked (pl_files p) ≡ₚ lf_locked w ∧
   ∀ b0 b, tm_leases t = Some b0 → tm_leases (pl_team p) = Some b → held b ≡ₚ held b0) ∧
  length ops ≤ 5 * length jobs ∧
  (Forall (λ wk, wk = WExit) (pl_workers p) ∨ ∃ op p', pool_step p op = Some p').
Proof.
  intros Hi Hmax Hn Hdis Hrun. destruct (pool_init_ok _ _ _ _ Hi Hn Hdis) as (Hp0 & Hc0 & Hw0).
  pose proof (pool_run_ok _ _ _ _ _ _ _ Hp0 Hrun) as Hok. pose proof (pool_run_work _ _ _ Hrun) as Hwork.
  set (n := Nat.min _ _) in *. pose proof (po_workers _ _ _ _ _ Hok) as Hlen.
  pose proof (po_jobs _ _ _ _ _ Hok) as Hj. split; [|split; [|split; [|split; [|split]]]].
  - pose proof (running_bound (pl_workers p)). unfold running_count. lia.
  - intros k wk i x Hk Hw. pose proof (proj1 (Forall_lookup _ _) (po_each _ _ _ _ _ Hok) k wk Hk) as Hwk.
    assert (Hd : ∃ j, pl_jobs p !! i = Some j ∧ declared (jb_region j) x) by (destruct wk; try discriminate; by injection Hw as -> ->).
    destruct Hd as (j & Hj' & Hd). exists j. split; [congruence|]. unfold declared in Hd.
    destruct (rn_lease x) as [l|] eqn:El; [|exact Hd]. split; [exact Hd|]. by eapply pool_held.
  - intros *. by apply (pool_disjoint t w jobs n p).
  - intros Hexit. assert (Hleases : pool_leases p = []).
    { unfold pool_leases. clear -Hexit. induction Hexit as [|wk ws -> _ IH]; [done|exact IH]. }
    split.
    + intros i Hil. assert (Hcur : length jobs ≤ pl_cursor p).
      { destruct (pl_workers p) as [|wk ws] eqn:Ew; [cbn in Hlen; lia|].
        apply Forall_cons in Hexit as [-> _]. pose proof (po_each _ _ _ _ _ Hok) as He. rewrite Ew in He.
        apply Forall_cons in He as [He _]. cbn in He. by rewrite Hj in He. }
      destruct (po_cover _ _ _ _ _ Hok i ltac:(lia) Hil) as [?|(wk & Hin & Hh)]; [done|].
      rewrite Forall_forall in Hexit. rewrite (Hexit wk Hin) in Hh. by destruct Hh as [[=]|(x & [=])].
    + pose proof (po_shared _ _ _ _ _ Hok) as Hs. rewrite Hleases in Hs. unfold shared_ok in Hs. destruct (tm_leases t) as [b0|].
      * destruct Hs as (b & Hb' & [_ Hh _ Hlk _ _]). split; [exact Hlk|]. intros ? ? [= <-] ?. by simplify_eq.
      * destruct Hs as (_ & _ & ->). done.
  - assert (Hw : pool_work p0 = 4 * length jobs + n); [|lia].
    unfold pool_work. rewrite Hw0, Hc0, (po_jobs _ _ _ _ _ Hp0), Nat.sub_0_r. f_equal. clear.
    induction n as [|m IH]; [done|]. cbn [replicate fmap list_fmap sum_list worker_work]. by rewrite IH.
  - destruct (all_left (pl_workers p)) as [Hall|(k & wk & Hk & Hne)]; [by left|right].
    eapply pool_progress; [exact Hk| |exact Hne]. exact (proj1 (Forall_lookup _ _) (po_each _ _ _ _ _ Hok) k wk Hk).
Qed.

(** A step gate opens exactly when, for every required role, the ledger has a
    completed conclusion of that role's own kind for the step, recorded by an
    agent whose id names that role: no role can stand in for another. *)
Theorem step_gate_iff t st required rc :
  ledger_wf t → step_gate t st (PyDict required) = Ok rc →
  ∃ sn, _validate_step st = Ok sn ∧
  (gr_ok rc = true ↔
   ∀ rn kd, (rn, kd) ∈ required → ∃ c tk n, c ∈ lg_conclusions (tm_ledger t) ∧
     parse_agent_id (PyStr (ac_agent_id c)) = Ok (rn, tk, n) ∧ kd = PyStr (ac_kind c) ∧
     ac_step c = sn ∧ ac_outcome c = u "completed").
Proof.
  intros [_ Hwf]. unfold step_gate. intros Hg. apply bind_ok in Hg as (sn & Hsn & Hg).
  exists sn. split; [done|]. destruct required as [|q req]; [done|].
  apply bind_ok in Hg as (ps & Hps & [= <-]). cbn [gr_ok]. rewrite bool_decide_eq_true.
  rewrite (gate_missing _ _ _ _ Hps).
  assert (Hhas : ∀ rn kd, has_completed (tm_ledger t) (PyStr rn) kd (PyStr sn) = true ↔
     ∃ c tk n, c ∈ lg_conclusions (tm_ledger t) ∧ parse_agent_id (PyStr (ac_agent_id c)) = Ok (rn, tk, n) ∧
       kd = PyStr (ac_kind c) ∧ ac_step c = sn ∧ ac_outcome c = u "completed").
  { intros rn kd. unfold has_completed. split.
    - destruct kd as [| | | |k| | | |]; try done. rewrite existsb_Exists.
      intros (c & Hin & Hc). unfold conclusion_is in Hc. rewrite !andb_true_iff, !bool_decide_eq_true in Hc.
      destruct Hc as [[[Hr Hk] Hs] Ho]. rewrite Forall_forall in Hwf.
      destruct (Hwf c Hin) as (r & [(n & Hp) _ _ _ _ _ _ _ _]).
      exists c, (ac_ticket_id c), n. split_and!; congruence.
    - intros (c & tk & n & Hin & Hp & -> & Hs & Ho). apply existsb_Exists. exists c. split; [done|].
      rewrite Forall_forall in Hwf. destruct (Hwf c Hin) as (r & [(n' & Hp') _ _ _ _ _ _ _ _]).
      unfold conclusion_is. rewrite !andb_true_iff, !bool_decide_eq_true.
      rewrite Hp in Hp'. injection Hp' as -> _ _. done. }
  setoid_rewrite <-Hhas. done.
Qed.

(** An agent whose role may not write never gets a region, and one whose role
    may write never runs without declaring one: both are refused before any
    lease, lock or work. *)
Theorem region_discipline os t w h st reg work ident sn kind may :
  registry_wf (tm_registry t) → run_checks t h st = Ok (ident, sn, kind, may) →
  (may = false → reg ≠ PyNone → run os t w h st reg work = (Err (RoleError "role_write_denied"), t, w)) ∧
  (may = true → run os t w h st PyNone work = (Err (RoleError "write_region_required"), t, w)).
Proof.
  intros Hwf Hc. unfold run, run_begin. rewrite Hc. split; [|by intros ->].
  intros -> Hreg. unfold run_checks in Hc. apply bind_ok in Hc as (i & Hi & Hc).
  apply bind_ok in Hc as (s & _ & Hc). apply bind_ok in Hc as (r & _ & Hc).
  apply bind_ok in Hc as (? & _ & Hc). apply bind_ok in Hc as (m & Hm & [= <- _ _ ->]).
  assert (Hdeny : assert_may_write i (tm_registry t) = Err (RoleError "role_write_denied")).
  { pose proof (require_id _ _ _ Hwf Hi) as Hid.
    unfold _require_handle, require in Hi. unfold assert_may_write, known_identity. rewrite Hid.
    destruct (identity _ _) as [i'|]; [|done]. injection Hi as ->.
    rewrite bool_decide_eq_true_2 by done. cbn [mbind result_bind]. by rewrite Hm. }
  unfold run_region, narrowed_handle. rewrite Hdeny. by destruct reg.
Qed.
End properties.

(** ** A concrete team *)
#[local] Existing Instance lexical_fs.
#[local] Instance no_floats : FloatRepr := λ _, [].

Definition demo_board : WriteLeaseBoard := mkBoard lease_root [].
Definition demo_files : lock_files := mkLockFiles [] [].

Definition bare_team : AgentTeam :=
  mkTeam (PyStr (u "T-1")) None (Some base_scope) 2 RoleRegistry_init (mkLedger 8 [] ∅) (Some demo_board) [].

Definition spawned (role : pystr) (t : AgentTeam) : AgentTeam := (team_spawn t (PyStr role)).2.
Definition demo_team : AgentTeam := Eval vm_compute in spawned ROLE_REVIEWER (spawned ROLE_EXECUTOR bare_team).

Definition handle_of (id : string) : AgentHandle :=
  match dget (u id) (tm_handles demo_team) with
  | Some h => h
  | None => mkAgentHandle (mkAgentIdentity [] [] [] 0) None None []
  end.
Definition executor : AgentHandle := Eval vm_compute in handle_of "executor#T-1#1".
Definition reviewer : AgentHandle := Eval vm_compute in handle_of "reviewer#T-1#1".

Definition good_work : AgentHandle → option pyval :=
  λ _, Some (PyDict [(u "tests", PyInt 3); (u "agent_id", PyStr (u "reviewer#T-1#1"))]).
Definition bad_work : AgentHandle → option pyval := λ _, None.

Definition demo_run (t : AgentTeam) (h : AgentHandle) (region : pyval) (work : AgentHandle → option pyval)
  : result AgentConclusion * AgentTeam * lock_files :=
  run os_ok t demo_files h (PyStr (u "build")) region work.

(** A run that completes, then one of the same role that fails. *)
Definition team_1 : AgentTeam := Eval vm_compute in (demo_run demo_team executor (PyStr (u "src")) good_work).1.2.
Definition team_2 : AgentTeam := Eval vm_compute in (demo_run team_1 executor (PyStr (u "src")) bad_work).1.2.

Definition demo_conclusion : AgentConclusion :=
  Eval vm_compute in
  match (demo_run demo_team executor (PyStr (u "src")) good_work).1.1 with
  | Ok c => c | Err _ => sample_done
  end.

Definition gate_of (t : AgentTeam) (role kind : pystr) : result bool :=
  gr_ok <$> step_gate t (PyStr (u "build")) (PyDict [(role, PyStr kind)]).

(** The gate opens for a role with one completed conclusion even when another
    conclusion of the same role for the same step has failed. *)
Theorem gate_opens_despite_failure :
  (ac_outcome <$> lg_conclusions (tm_ledger team_2)) = [u "completed"; u "failed"] ∧
  gate_of team_2 ROLE_EXECUTOR (u "execution") = Ok true ∧
  gate_of team_2 ROLE_REVIEWER (u "review") = Ok false.
Proof. vm_compute. split_and!; reflexivity. Qed.

(** Work that returns text with a lone surrogate makes the run raise, instead
    of recording a conclusion; the lease is still released. *)
Theorem surrogate_evidence_escapes_run :
  let '(r, t, w) := demo_run demo_team executor (PyStr (u "src"))
                      (λ _, Some (PyDict [(u "note", PyStr [55296%N])])) in
  r = Err (ValueError "surrogates not allowed") ∧ lg_conclusions (tm_ledger t) = [] ∧ lf_locked w = [].
Proof. vm_compute. split_and!; reflexivity. Qed.

(** ** Witnesses *)
Lemma demo_registry_wf : registry_wf (tm_registry demo_team).
Proof.
  assert (H0 : registry_wf RoleRegistry_init) by apply registry_wf_init.
  pose proof (spawn_wf (PyStr ROLE_EXECUTOR) (PyStr (u "T-1")) _ H0) as H1.
  exact (spawn_wf (PyStr ROLE_REVIEWER) (PyStr (u "T-1")) _ H1).
Qed.

Lemma run_conclusion_bound_witness :
  bound_conclusion (u "executor#T-1#1") good_work team_1 demo_conclusion.
Proof.
  apply (run_conclusion_bound os_ok demo_team demo_files executor (PyStr (u "build")) (PyStr (u "src")) good_work
           demo_conclusion team_1 (demo_run demo_team executor (PyStr (u "src")) good_work).2).
  - exact demo_registry_wf.
  - vm_compute. reflexivity.
Defined.

Lemma team_1_wf : ledger_wf team_1.
Proof.
  assert (E : team_1 = (demo_run demo_team executor (PyStr (u "src")) good_work).1.2)
    by (vm_compute; reflexivity).
  rewrite E. unfold demo_run.
  refine (run_wf os_ok demo_team demo_files executor (PyStr (u "build")) (PyStr (u "src")) good_work _).
  split; [|constructor].
  apply (ledger_init_ok (PyInt 8)). vm_compute. reflexivity.
Qed.

Lemma step_gate_iff_witness :
  ∃ sn, _validate_step (PyStr (u "build")) = Ok sn ∧
  (true = true ↔
   ∀ rn kd, (rn, kd) ∈ [(ROLE_EXECUTOR, PyStr (u "execution"))] →
     ∃ c tk n, c ∈ lg_conclusions (tm_ledger team_1) ∧
       parse_agent_id (PyStr (ac_agent_id c)) = Ok (rn, tk, n) ∧ kd = PyStr (ac_kind c) ∧
       ac_step c = sn ∧ ac_outcome c = u "completed").
Proof.
  apply (step_gate_iff team_1 (PyStr (u "build")) [(ROLE_EXECUTOR, PyStr (u "execution"))]
           (mkReceipt true [u "executor:execution"] [u "executor:execution"] [])).
  - exact team_1_wf.
  - vm_compute. reflexivity.
Defined.

Lemma region_discipline_witness :
  run os_ok demo_team demo_files reviewer (PyStr (u "build")) (PyStr (u "src")) good_work
  = (Err (RoleError "role_write_denied"), demo_team, demo_files).
Proof.
  refine (proj1 (region_discipline os_ok demo_team demo_files reviewer (PyStr (u "build")) (PyStr (u "src"))
                   good_work (ah_identity reviewer) (u "build") (u "review") false demo_registry_wf _) _ _).
  - vm_compute. reflexivity.
  - reflexivity.
  - discriminate.
Defined.

Definition two_jobs : list job :=
  [mkJob executor (PyStr (u "src")) (PyStr (u "build")); mkJob executor (PyStr (u "doc")) (PyStr (u "build"))].
Definition new_pool (jobs : list job) : pool :=
  match pool_init demo_team demo_files jobs with Ok p => p | Err _ => mkPool demo_team demo_files [] 0 [] [] end.
(** Two threads, both at work, on regions of their own. *)
Definition two_ops : list pool_op := [PoolTake 0; PoolTake 1; PoolBegin 1 os_ok; PoolBegin 0 os_ok; PoolRecord 1 (good_work executor)].
Definition pool_mid : pool := default (new_pool two_jobs) (pool_run (new_pool two_jobs) two_ops).

(** A job that asks for an overlapping region while the first one runs, and the
    rest of the run. *)
Definition overlapping_jobs : list job :=
  [mkJob executor (PyStr (u "src")) (PyStr (u "build")); mkJob executor (PyStr (u "src/api")) (PyStr (u "build"))].
Definition all_ops : list pool_op :=
  [PoolTake 0; PoolBegin 0 os_ok; PoolTake 1; PoolBegin 1 os_ok; PoolRecord 0 (good_work executor); PoolTake 1; PoolRelease 0; PoolTake 0].
Definition pool_end : pool := default (new_pool overlapping_jobs) (pool_run (new_pool overlapping_jobs) all_ops).

Example pool_end_results :
  (λ cs : list AgentConclusion, ac_outcome <$> cs) <$> pool_result (pl_results pool_end) = Ok [u "completed"; u "refused"] ∧
  lf_locked (pl_files pool_end) = [] ∧ Forall (λ wk, wk = WExit) (pl_workers pool_end).
Proof. vm_compute. split_and!; try reflexivity. by repeat constructor. Qed.

Definition lease_at (k : nat) : option WriteLease := wk ← pl_workers pool_mid !! k; '(_, x) ← at_work wk; rn_lease x.
Lemma parallel_safe_witness :
  running_count pool_mid = 2 ∧ (l_region <$> lease_at 0) = Some [u "src"] ∧ (l_region <$> lease_at 1) = Some [u "doc"] ∧
  ∀ k k' wk wk' i i' x x' l l', k ≠ k' → pl_workers pool_mid !! k = Some wk → pl_workers pool_mid !! k' = Some wk' →
     at_work wk = Some (i, x) → at_work wk' = Some (i', x') → rn_lease x = Some l → rn_lease x' = Some l' →
     regions_overlap (l_region l) (l_region l') = false.
Proof.
  split; [vm_compute; reflexivity|]. split; [vm_compute; reflexivity|]. split; [vm_compute; reflexivity|].
  refine (proj1 (proj2 (proj2 (parallel_safe demo_team demo_files two_jobs (new_pool two_jobs) two_ops pool_mid _ _ _ _ _)))).
  - vm_compute. reflexivity.
  - vm_compute. discriminate.
  - constructor.
  - intros b [= <-]. split; [constructor|]. intros x y Hx. by apply elem_of_nil in Hx.
  - vm_compute. reflexivity.
Defined.
