(* ===== verification/FailurePolicy.v ===== *)
(** * Failure classes, decisions and the no-progress stop ([src/src/icode/failure_policy.py])

    What a run does after a failure: the class of its error code, the decision
    the machine policy allows, and the fingerprint history that stops a failure
    repeated without new evidence. *)

From Stdlib Require Import SpecFloat.
From S2P Require Import Prelude PyText PyVal.

#[local] Open Scope Z_scope.

Definition FAILURE_CLASSES : list pystr :=
  [ u "retryable_transport"; u "capability_unavailable"; u "deterministic_failure";
    u "policy_schema_security"; u "ambiguous_side_effect"; u "destructive_risk" ].

Definition ACTIONS : list pystr := [ u "retry"; u "fallback"; u "manual"; u "stop" ].

Definition _RAW_ACTIONS : list pystr :=
  [ u "retry"; u "fallback"; u "repair_then_retry"; u "verify_receipt"; u "human_decision"; u "block" ].

Definition _CLASS_BY_ERROR : list (pystr * pystr) :=
  [ (u "isolation_unavailable", u "capability_unavailable");
    (u "execution_unavailable", u "capability_unavailable");
    (u "verification_plan_provider_failed", u "capability_unavailable");
    (u "backend_error", u "capability_unavailable");
    (u "status_unavailable", u "capability_unavailable");
    (u "invalid_ticket", u "policy_schema_security");
    (u "invalid_status", u "policy_schema_security");
    (u "verification_plan_invalid", u "policy_schema_security");
    (u "verification_plan_identity_mismatch", u "policy_schema_security");
    (u "verification_plan_required", u "policy_schema_security");
    (u "chain_failed", u "deterministic_failure");
    (u "step_blocked", u "deterministic_failure");
    (u "gate_blocked", u "deterministic_failure");
    (u "executor_failed", u "deterministic_failure");
    (u "chain_error", u "ambiguous_side_effect");
    (u "executor_error", u "ambiguous_side_effect");
    (u "no_progress_stuck", u "ambiguous_side_effect") ].

Definition STUCK_THRESHOLD : Z := 2.
Definition HISTORY_LIMIT : Z := 8.

(** ** Decisions *)
Record FailureDecision := mkFailureDecision {
  fd_failure_class : pystr;
  fd_action : pystr;
  fd_auto_retry : bool;
  fd_max_attempts : Z;
  fd_backoff_seconds : spec_float;
  fd_conclusion_ceiling : pystr;
  fd_reason : pystr
}.

(** The constructor with its [__post_init__]. *)
Definition FailureDecision_new (cls action : pystr) (auto_retry : bool) (max_attempts : Z)
    (backoff : spec_float) (ceiling reason : pystr) : result FailureDecision :=
  _ ← raise_if (negb (cls ∈s FAILURE_CLASSES)) (ValueError "unknown failure class");
  _ ← raise_if (negb (action ∈s ACTIONS)) (ValueError "unknown failure action");
  Ok (mkFailureDecision cls action auto_retry max_attempts backoff ceiling reason).

Definition to_public (d : FailureDecision) : list (pystr * pyval) :=
  [ (u "class", PyStr (fd_failure_class d)); (u "action", PyStr (fd_action d));
    (u "auto_retry", PyBool (fd_auto_retry d)); (u "max_attempts", PyInt (fd_max_attempts d));
    (u "conclusion_ceiling", PyStr (fd_conclusion_ceiling d)); (u "reason", PyStr (fd_reason d)) ].

(** [isinstance(v, str) and v] *)
Definition nonempty_str (v : pyval) : option pystr :=
  match v with PyStr ((_ :: _) as s) => Some s | _ => None end.

Definition classify_failure (error_code : pyval) : pystr :=
  match nonempty_str error_code with
  | None => u "ambiguous_side_effect"
  | Some code => default (u "ambiguous_side_effect") (dget code _CLASS_BY_ERROR)
  end.

Definition failure_fingerprint (error_code step : pyval) : pystr :=
  default (u "-") (nonempty_str step) ++ u ":" ++ default (u "-") (nonempty_str error_code).

(** ** The history of fingerprints *)
Definition is_stuck (history : list pystr) (fingerprint : pystr) (threshold : Z) : bool :=
  if (threshold <? 2) || (fingerprint =s []) then false
  else let recent := slice_last (threshold - 1) history in
       (Z.of_nat (length recent) =? threshold - 1)
       && forallb (λ item, item =s fingerprint) recent.

Definition record_failure (history : list pystr) (fingerprint : pystr) (limit : Z) : list pystr :=
  let kept := slice_last limit history in
  slice_last limit (kept ++ [fingerprint]).

(** ** The machine policy *)
(** [float(z)]: rounded to the nearest double, an error beyond the largest. *)
Definition float_of_int (z : Z) : result spec_float :=
  match binary_normalize 53 1024 z 0 false with
  | S754_infinity _ => Err (OverflowError "int too large to convert to float")
  | f => Ok f
  end.

Record parsed_policy := mkParsedPolicy {
  pp_action : pystr;
  pp_conclusion_ceiling : pystr;
  pp_auto_retry : bool;
  pp_max_attempts : Z;
  pp_backoff_seconds : spec_float
}.

(** The value of [backoff_seconds]: absent, a number that is not negative, or
    malformed ([None]).  A NaN is not [>= 0]. *)
Definition parse_backoff (v : pyval) : result (option spec_float) :=
  match v with
  | PyNone => Ok (Some (S754_zero false))
  | PyInt z => if 0 <=? z then Some <$> float_of_int z else Ok None
  | PyFloat f => Ok (if float_nonneg f then Some f else None)
  | _ => Ok None
  end.

Definition _parse_policy (policy : pyval) : result (option parsed_policy) :=
  match policy with
  | PyDict d =>
    match pget (u "action") d, nonempty_str (pget (u "conclusion_ceiling") d),
          pget (u "auto_retry") d, pget (u "max_attempts") d with
    | PyStr action, Some ceiling, PyBool auto_retry, PyInt max_attempts =>
      if (action ∈s _RAW_ACTIONS) && (0 <=? max_attempts) then
        match parse_backoff (pget (u "backoff_seconds") d) with
        | Ok (Some b) => Ok (Some (mkParsedPolicy action ceiling auto_retry max_attempts b))
        | Ok None => Ok None
        | Err e => Err e
        end
      else Ok None
    | _, _, _, _ => Ok None
    end
  | _ => Ok None
  end.

(** [attempts] as the decision counts it: 0 unless it is a non-negative [int]. *)
Definition attempts_of (v : pyval) : Z :=
  match v with PyInt z => if z <? 0 then 0 else z | _ => 0 end.

(** The decision a parsed policy leads to. *)
Definition decide_parsed (cls : pystr) (attempts : Z) (p : parsed_policy) (allow_retry : bool)
  : result FailureDecision :=
  let action := pp_action p in
  let make a auto backoff reason :=
    FailureDecision_new cls a auto (pp_max_attempts p) backoff (pp_conclusion_ceiling p) reason in
  let zero := S754_zero false in
  if action =s u "block" then make (u "stop") false zero (u "机器策略要求阻断")
  else if action =s u "fallback" then
    if negb allow_retry then make (u "manual") false zero (u "降级路径被禁用：交人工决定")
    else make (u "fallback") false zero (u "机器策略允许降级")
  else if action =s u "retry" then
    if negb (pp_auto_retry p && allow_retry && (attempts <? pp_max_attempts p)) then
      make (u "manual") (pp_auto_retry p) zero
        (if pp_max_attempts p <=? attempts then u "重试预算已用尽"
         else u "策略或调用方不允许自动重试")
    else make (u "retry") true (pp_backoff_seconds p) (u "机器策略允许有界重试")
  else make (u "manual") false zero
         (if action =s u "repair_then_retry" then u "先修复并产生新证据，再决定是否重试"
          else if action =s u "verify_receipt" then u "先核对真实状态，禁止盲目重放"
          else u "交人工决定").

Definition decide_failure (failure_class : pystr) (attempts policy : pyval) (allow_retry : bool)
  : result FailureDecision :=
  let cls := if failure_class ∈s FAILURE_CLASSES then failure_class else u "ambiguous_side_effect" in
  let plain a reason := FailureDecision_new cls a false 0 (S754_zero false) [] reason in
  if cls =s u "policy_schema_security" then plain (u "stop") (u "策略/schema/安全门禁：立即阻断")
  else if cls =s u "destructive_risk" then plain (u "manual") (u "破坏型动作：交人工决定")
  else
    parsed ← _parse_policy policy;
    match parsed with
    | None => plain (u "manual") (u "缺少可信机器策略：不自行重试，交人工或修复流程")
    | Some p => decide_parsed cls (attempts_of attempts) p allow_retry
    end.

Definition stop_for_no_progress (d : FailureDecision) : result FailureDecision :=
  if fd_action d =s u "stop" then Ok d
  else FailureDecision_new (fd_failure_class d) (u "stop") false (fd_max_attempts d)
         (fd_backoff_seconds d) (fd_conclusion_ceiling d)
         (u "相同失败证据重复出现：无进展，停止并交人工").

(** The caller's view of a history ([AutonomyManager._failure_history]): how
    often the fingerprint occurred, this time included. *)
Definition failure_attempts (history : list pystr) (fingerprint : pystr) : Z :=
  Z.of_nat (length (filter (λ item, item = fingerprint) history)) + 1.

(** The history after the failures [fs], each recorded as it happens. *)
Definition history_of (limit : Z) (fs : list pystr) : list pystr :=
  foldl (λ h f, record_failure h f limit) [] fs.

(** ** Lemmas *)
Lemma fd_new_ok cls a auto m b ceiling reason :
  cls ∈ FAILURE_CLASSES → a ∈ ACTIONS →
  FailureDecision_new cls a auto m b ceiling reason
  = Ok (mkFailureDecision cls a auto m b ceiling reason).
Proof.
  intros Hc Ha. unfold FailureDecision_new.
  by rewrite !bool_decide_true by done.
Qed.

Lemma class_known (cls : pystr) :
  (if cls ∈s FAILURE_CLASSES then cls else u "ambiguous_side_effect") ∈ FAILURE_CLASSES.
Proof. case_bool_decide; [done|]. by_compute. Qed.

Lemma classify_known error_code : classify_failure error_code ∈ FAILURE_CLASSES.
Proof.
  unfold classify_failure. destruct (nonempty_str error_code) as [code|]; [|by_compute].
  destruct (dget code _CLASS_BY_ERROR) as [cls|] eqn:E; cbn [default]; [|by_compute].
  apply dget_Some_elem in E.
  assert (H : Forall (λ p, p.2 ∈ FAILURE_CLASSES) _CLASS_BY_ERROR) by by_compute.
  rewrite Forall_forall in H. by apply (H (code, cls)).
Qed.

(** Keeping the last [n] of a list that was already cut to its last [n]. *)
Lemma slice_last_app {A} n (l : list A) x :
  0 < n → slice_last n (slice_last n l ++ [x]) = slice_last n (l ++ [x]).
Proof.
  intros Hn. unfold slice_last. destruct (Z.ltb_spec 0 n); [|lia].
  rewrite <- drop_app_le by (rewrite ?length_drop; lia).
  rewrite drop_drop, !length_app, length_drop, length_app. cbn. f_equal. lia.
Qed.

Lemma slice_last_narrow {A} n m (l : list A) :
  0 < n ≤ m → slice_last n (slice_last m l) = slice_last n l.
Proof.
  intros Hn. unfold slice_last. destruct (Z.ltb_spec 0 n), (Z.ltb_spec 0 m); try lia.
  rewrite drop_drop, length_drop. f_equal. lia.
Qed.

Lemma history_of_spec limit fs : 0 < limit → history_of limit fs = slice_last limit fs.
Proof.
  intros Hl. induction fs as [|f fs IH] using rev_ind.
  { unfold slice_last. cbn. by destruct (0 <? limit), (Z.to_nat (- limit)). }
  unfold history_of in *. rewrite foldl_app. cbn [foldl]. rewrite IH.
  unfold record_failure. rewrite slice_last_narrow by lia. by apply slice_last_app.
Qed.

Lemma is_stuck_iff history f t :
  2 ≤ t →
  is_stuck history f t = true ↔
  f ≠ [] ∧ replicate (Z.to_nat (t - 1)) f `suffix_of` history.
Proof.
  intros Ht. unfold is_stuck. destruct (Z.ltb_spec t 2); [lia|]. cbn [orb].
  case_bool_decide as Hf; [naive_solver|].
  rewrite andb_true_iff, Z.eqb_eq, forallb_Forall.
  assert (Hall : ∀ l : list pystr, Forall (λ x, (x =s f) = true) l ↔ l = replicate (length l) f).
  { intros l. transitivity (replicate (length l) f = l); [|naive_solver].
    rewrite replicate_as_elem_of, Forall_forall.
    setoid_rewrite bool_decide_eq_true. naive_solver. }
  rewrite Hall. split.
  - intros [Hlen Heq]. split; [done|].
    replace (Z.to_nat (t - 1)) with (length (slice_last (t - 1) history)) by lia.
    rewrite <- Heq. apply slice_last_suffix.
  - intros [_ [l ->]].
    assert (slice_last (t - 1) (l ++ replicate (Z.to_nat (t - 1)) f)
                = replicate (Z.to_nat (t - 1)) f) as ->.
    { unfold slice_last. destruct (Z.ltb_spec 0 (t - 1)); [|lia].
      rewrite length_app, length_replicate.
      replace (length l + Z.to_nat (t - 1) - Z.to_nat (t - 1))%nat with (length l) by lia.
      by rewrite drop_app_length. }
    rewrite length_replicate. split; [lia|done].
Qed.

(** The machine policy the decision uses, as a relation on the raw payload. *)
Lemma parse_policy_err policy e :
  _parse_policy policy = Err e →
  ∃ d z, policy = PyDict d ∧ pget (u "backoff_seconds") d = PyInt z ∧ 0 <= z ∧ float_of_int z = Err e.
Proof.
  unfold _parse_policy, parse_backoff. intros H.
  destruct policy as [| | | | | | |d|]; try done. exists d.
  repeat (case_match; try done); simplify_eq.
  all: match goal with E : (0 <=? ?z) = true |- _ => apply Z.leb_le in E; exists z end.
  all: unfold fmap, result_fmap in *; case_match; naive_solver.
Qed.

Lemma decide_parsed_total cls attempts p allow :
  cls ∈ FAILURE_CLASSES →
  ∃ d, decide_parsed cls attempts p allow = Ok d ∧
    (fd_action d = u "retry" ↔
     pp_action p = u "retry" ∧ pp_auto_retry p = true ∧ allow = true ∧ attempts < pp_max_attempts p).
Proof.
  intros Hc. unfold decide_parsed. destruct (decide (pp_action p = u "retry")) as [->|E].
  - replace (u "retry" =s u "block") with false by reflexivity.
    replace (u "retry" =s u "fallback") with false by reflexivity.
    rewrite bool_decide_true by done.
    destruct (pp_auto_retry p && allow && (attempts <? pp_max_attempts p)) eqn:Eb; cbn [negb];
      rewrite fd_new_ok by (done || by_compute); eexists; (split; [reflexivity|]);
      cbn [fd_action].
    + autorewrite with py in Eb. naive_solver.
    + split; [discriminate|]. intros (_ & Ha & -> & Hlt%Z.ltb_lt).
      by rewrite Ha, Hlt in Eb.
  - rewrite (bool_decide_false (_ = u "retry")) by done.
    destruct (pp_action p =s u "block"), (pp_action p =s u "fallback"), allow; cbn [negb];
      rewrite fd_new_ok by (done || by_compute); eexists; (split; [reflexivity|]);
      cbn [fd_action]; (split; [discriminate|naive_solver]).
Qed.

(** ** Properties *)

(** [decide_failure] answers for every class, attempt count and policy
    payload, unless the payload's [backoff_seconds] is an integer no float can
    hold.  It answers [retry] exactly when the class may be retried, the payload
    is a well-formed policy whose action is [retry] with [auto_retry] set, the
    caller allows it and the attempt count is below the policy's bound: a
    security failure always stops, and without a well-formed policy the answer
    is never a retry or a fallback. *)
Theorem decide_failure_spec cls attempts policy allow :
  match decide_failure cls attempts policy allow with
  | Ok d =>
      (fd_action d = u "retry" ↔
       cls ≠ u "policy_schema_security" ∧ cls ≠ u "destructive_risk" ∧
       ∃ p, _parse_policy policy = Ok (Some p) ∧ pp_action p = u "retry" ∧
            pp_auto_retry p = true ∧ allow = true ∧ attempts_of attempts < pp_max_attempts p) ∧
      (cls = u "policy_schema_security" → fd_action d = u "stop") ∧
      (cls = u "destructive_risk" → fd_action d = u "manual") ∧
      (_parse_policy policy = Ok None → fd_action d ∈ [u "manual"; u "stop"])
  | Err e =>
      ∃ d z, policy = PyDict d ∧ pget (u "backoff_seconds") d = PyInt z ∧ 0 <= z ∧
             float_of_int z = Err e
  end.
Proof.
  unfold decide_failure. set (c := if cls ∈s FAILURE_CLASSES then cls else _).
  assert (Hc : c ∈ FAILURE_CLASSES) by apply class_known.
  assert (Hcls : ∀ x, x ∈ FAILURE_CLASSES → x ≠ u "ambiguous_side_effect" → c = x ↔ cls = x).
  { intros x Hx Hne. subst c. case_bool_decide as Hin; naive_solver. }
  assert (Hs := Hcls (u "policy_schema_security") ltac:(by_compute) ltac:(by_compute)).
  assert (Hd := Hcls (u "destructive_risk") ltac:(by_compute) ltac:(by_compute)).
  assert (Hne : u "manual" ≠ u "retry" ∧ u "stop" ≠ u "retry") by (split; by_compute).
  destruct Hne as [Hm Hst].
  destruct (decide (c = u "policy_schema_security")) as [E1|E1].
  { rewrite bool_decide_true by done. rewrite fd_new_ok by (done || by_compute). cbn [fd_action].
    split_and!; [|done| |intros; by_compute].
    - split; [done|]. intros (H & _). destruct H. by apply Hs.
    - intros Hd'%Hd. exfalso. revert Hd'. rewrite E1. by_compute. }
  rewrite (bool_decide_false (c = u "policy_schema_security")) by done.
  destruct (decide (c = u "destructive_risk")) as [E2|E2].
  { rewrite bool_decide_true by done. rewrite fd_new_ok by (done || by_compute). cbn [fd_action].
    split_and!; [| |done|intros; by_compute].
    - split; [done|]. intros (_ & H & _). destruct H. by apply Hd.
    - by intros ?%Hs. }
  rewrite (bool_decide_false (c = u "destructive_risk")) by done.
  assert (Hs' : cls ≠ u "policy_schema_security") by by intros ?%Hs.
  assert (Hd' : cls ≠ u "destructive_risk") by by intros ?%Hd.
  clearbody c. clear Hs Hd Hcls.
  destruct (_parse_policy policy) as [[p|]|e] eqn:Ep; cbn [mbind result_bind].
  - destruct (decide_parsed_total c (attempts_of attempts) p allow Hc) as (d & -> & Ha).
    split_and!; [|done|done|done]. rewrite Ha. split.
    + intros (H1 & H2). split_and!; [done|done|]. by exists p.
    + intros (_ & _ & p' & [= <-] & Hp). exact Hp.
  - rewrite fd_new_ok by (done || by_compute). cbn [fd_action].
    split_and!; [|done|done|intros; by_compute]. split; [done|].
    by intros (_ & _ & p & Hp & _).
  - by apply parse_policy_err.
Qed.

(** The failure history is the last [limit] fingerprints of the run, however
    long the run is, and a failure is found stuck exactly when each of the last
    [threshold - 1] failures had its fingerprint: cutting the history to a
    limit of at least [threshold - 1] hides no repetition. *)
Theorem no_progress_detected limit threshold fs f :
  2 ≤ threshold → threshold - 1 ≤ limit →
  history_of limit fs = slice_last limit fs ∧
  Z.of_nat (length (history_of limit fs)) ≤ limit ∧
  (is_stuck (history_of limit fs) f threshold = true ↔
   f ≠ [] ∧ replicate (Z.to_nat (threshold - 1)) f `suffix_of` fs).
Proof.
  intros Ht Hl. rewrite history_of_spec by lia. split_and!; [done| |].
  { apply slice_last_length. lia. }
  rewrite <- (is_stuck_iff fs) by done. unfold is_stuck.
  by rewrite slice_last_narrow by lia.
Qed.

Lemma no_progress_detected_witness :
  2 ≤ STUCK_THRESHOLD ∧ STUCK_THRESHOLD - 1 ≤ HISTORY_LIMIT ∧
  is_stuck (history_of HISTORY_LIMIT [u "s:a"; u "s:b"; u "s:b"]) (u "s:b") STUCK_THRESHOLD = true.
Proof.
  split; [done|]. split; [done|].
  destruct (no_progress_detected HISTORY_LIMIT STUCK_THRESHOLD [u "s:a"; u "s:b"; u "s:b"] (u "s:b"))
    as (_ & _ & Hiff); [done|done|].
  apply Hiff. split; [by_compute|]. by exists [u "s:a"; u "s:b"].
Defined.

(** Two failures that take turns. *)
Definition turn (a b : pystr) (i : nat) : pystr := if Nat.even i then a else b.

Lemma turn_next a b n : a ≠ b → turn a b n ≠ turn a b (S n).
Proof. intros Hab. unfold turn. rewrite Nat.even_succ, <- Nat.negb_even. by destruct (Nat.even n). Qed.

Lemma turn_count a b n k x :
  a ≠ b → k ≤ 8 →
  Z.of_nat (length (filter (λ i, i = x) (turn a b <$> seq n (Z.to_nat k)))) ≤ 4.
Proof.
  intros Hab Hk.
  assert (Hpair : ∀ m i, Z.of_nat (length (filter (λ i, i = x) (turn a b <$> seq i (2 * m)))) ≤ Z.of_nat m).
  { induction m as [|m IH]; intros i; [done|].
    replace (2 * S m)%nat with (S (S (2 * m))) by lia. cbn [seq fmap list_fmap].
    specialize (IH (S (S i))). pose proof (turn_next a b i Hab).
    rewrite !filter_cons. repeat case_decide; cbn [length]; try lia. congruence. }
  pose proof (Hpair 4%nat n) as H8.
  assert (Hsplit : seq n (2 * 4) = seq n (Z.to_nat k) ++ seq (n + Z.to_nat k) (8 - Z.to_nat k)).
  { rewrite <- seq_app. f_equal. lia. }
  rewrite Hsplit, fmap_app, filter_app, length_app in H8. lia.
Qed.

(** Two failures that take turns are never found stuck, and the attempt count
    given to the policy never exceeds 5, because only the last 8 fingerprints
    are counted: under a policy with [max_attempts] of 6 or more the retry
    budget is never used up, however long the run repeats the two. *)
Theorem alternating_failures_undetected a b n :
  a ≠ b →
  let history := history_of HISTORY_LIMIT (turn a b <$> seq 0 n) in
  is_stuck history (turn a b n) STUCK_THRESHOLD = false ∧
  failure_attempts history (turn a b n) ≤ 5.
Proof.
  intros Hab history. subst history. rewrite history_of_spec by done. split.
  - apply not_true_is_false. rewrite is_stuck_iff by done. intros [_ Hsuf].
    assert (Hs : [turn a b n] `suffix_of` (turn a b <$> seq 0 n)).
    { etrans; [apply Hsuf|apply slice_last_suffix]. }
    destruct n as [|n]; [by apply suffix_nil_inv in Hs|].
    rewrite seq_S, fmap_app in Hs. destruct Hs as [l Hl].
    apply app_inj_tail in Hl as [_ Hl]. by eapply (turn_next a b n).
  - unfold failure_attempts, slice_last. cbn [HISTORY_LIMIT Z.ltb Z.compare].
    rewrite <- fmap_drop, length_fmap, length_seq.
    pose proof (turn_count a b (n - 8) (Z.of_nat (Nat.min n 8)) (turn a b n) Hab ltac:(lia)) as Hc.
    rewrite Nat2Z.id in Hc. change (Z.to_nat HISTORY_LIMIT) with 8%nat.
    replace (drop (n - 8) (seq 0 n)) with (seq (n - 8) (Nat.min n 8)); [lia|].
    rewrite drop_seq. f_equal; lia.
Qed.

Lemma alternating_failures_undetected_witness :
  u "s:a" ≠ u "s:b" ∧
  is_stuck (history_of HISTORY_LIMIT (turn (u "s:a") (u "s:b") <$> seq 0 100)) (u "s:a") STUCK_THRESHOLD
  = false.
Proof.
  assert (H : u "s:a" ≠ u "s:b") by by_compute. split; [exact H|].
  apply (alternating_failures_undetected (u "s:a") (u "s:b") 100 H).
Defined.

(** A policy payload with an integer no float can hold makes the decision raise,
    although a malformed payload is meant to give a manual decision. *)
Example huge_backoff_raises :
  decide_failure (u "capability_unavailable") (PyInt 1)
    (PyDict [ (u "action", PyStr (u "retry")); (u "conclusion_ceiling", PyStr (u "none"));
              (u "auto_retry", PyBool true); (u "max_attempts", PyInt 3);
              (u "backoff_seconds", PyInt (2 ^ 1024)) ]) true
  = Err (OverflowError "int too large to convert to float").
Proof. vm_compute. reflexivity. Qed.
