(* ===== verification/Compaction.v ===== *)
(** * History compaction ([src/src/icode/compaction.py])

    [compact_history] replaces the middle of a conversation by a bounded
    summary.  The messages are dictionaries of dynamic values; a message whose
    [tool_calls] cannot be iterated makes the code raise, so sizes and summaries
    are results.  *)

From S2P Require Import Prelude PyText PyVal.

Definition COMPACT_MARKER : pystr := u "【历史压缩】".
Definition UNCLOSED_MARKER : pystr := u "【未闭合副作用】".
Definition _SUMMARY_MAX_CHARS : nat := 120.
Definition _UNCLOSED_MAX_CHARS : nat := 200.

Abbreviation message := (list (pystr * pyval)).

Section compaction.
Context `{PyRepr}.

Definition _content (m : message) : pystr :=
  match pget (u "content") m with PyStr s => s | _ => [] end.

(** [call.get("function")] when it is a dictionary, else an empty one. *)
Definition call_function (call : list (pystr * pyval)) : list (pystr * pyval) :=
  match pget (u "function") call with PyDict fn => fn | _ => [] end.

Definition call_chars (call : pyval) : nat :=
  match call with
  | PyDict c => length (str_or [] (pget (u "name") (call_function c)))
                + length (str_or [] (pget (u "arguments") (call_function c)))
  | _ => 0
  end.

Definition message_chars (m : message) : result nat :=
  calls ← iter_or_nil (pget (u "tool_calls") m);
  Ok (length (_content m) + 24 + foldr Nat.add 0 (call_chars <$> calls)).

Fixpoint history_chars (messages : list message) : result nat :=
  match messages with
  | [] => Ok 0
  | m :: ms => n ← message_chars m; rest ← history_chars ms; Ok (n + rest)
  end.

Record digest := mkDigest {
  dg_compacted : bool;
  dg_system : nat;
  dg_constraints : nat;
  dg_tail : nat;
  dg_dropped : nat;
  dg_unclosed : nat;
  dg_chars_before : nat;
  dg_chars_after : nat
}.

Record CompactionResult := mkCompactionResult {
  cr_messages : list message;
  cr_digest : digest;
  cr_dropped : nat;
  cr_chars_before : nat;
  cr_chars_after : nat;
  cr_compacted : bool
}.

(** The names of the functions a message calls. *)
Definition call_name (call : pyval) : list pystr :=
  match call with
  | PyDict c => let name := pget (u "name") (call_function c) in
                if py_truth name then [py_str name] else []
  | _ => []
  end.

Definition _summary_line (m : message) : result pystr :=
  calls ← iter_or_nil (pget (u "tool_calls") m);
  let role := str_or (u "?") (pget (u "role") m) in
  let text := join (u " ") (split_ws (_content m)) in
  let names := concat (call_name <$> calls) in
  let text := match names with
              | [] => text
              | _ => (if text =s [] then [] else text ++ u " ") ++ u "调用:" ++ join (u ",") names
              end in
  Ok (u "- " ++ role ++ u ": " ++ take _SUMMARY_MAX_CHARS text).

Fixpoint summary_lines (ms : list message) : result (list pystr) :=
  match ms with
  | [] => Ok []
  | m :: ms' => line ← _summary_line m; rest ← summary_lines ms'; Ok (line :: rest)
  end.

Definition system_message (content : pystr) : message :=
  [(u "role", PyStr (u "system")); (u "content", PyStr content)].

(** [str(item).strip()] *)
Definition open_item (item : pyval) : bool := negb (strip (py_str item) =s []).

Definition bullet_lines (items : list pystr) : pystr :=
  join [newline] ((λ i, u "- " ++ i) <$> items).

Definition _unclosed_message (open_operations : list pyval) : message :=
  let items := (λ i, take _UNCLOSED_MAX_CHARS (py_str i)) <$> filter (λ i, open_item i = true) open_operations in
  system_message (UNCLOSED_MARKER ++ u "以下动作可能已生效但回执未知；继续前必须先核对真实状态，禁止直接重放。"
                  ++ [newline] ++ bullet_lines (take 8 items)).

Definition role_is (r : pystr) (m : message) : bool := is_lit (pget (u "role") m) r.

(** The leading system messages and the rest. *)
Fixpoint split_system (ms : list message) : list message * list message :=
  match ms with
  | m :: ms' => if role_is (u "system") m then let '(s, r) := split_system ms' in (m :: s, r)
                else ([], ms)
  | [] => ([], [])
  end.

(** The user message that follows them, and the rest. *)
Definition split_requirement (ms : list message) : list message * list message :=
  match ms with
  | m :: ms' => if role_is (u "user") m then ([m], ms') else ([], ms)
  | [] => ([], [])
  end.

(** Middle and tail of what follows the head. *)
Definition split_tail (keep_tail : Z) (rest : list message) : list message * list message :=
  let k := Z.to_nat keep_tail in
  if (keep_tail <? Z.of_nat (length rest))%Z
  then (take (length rest - k) rest, drop (length rest - k) rest)
  else (rest, []).

(** A receipt or summary an earlier compaction left. *)
Definition is_receipt (m : message) : bool :=
  role_is (u "system") m
  && (contains COMPACT_MARKER (_content m) || contains UNCLOSED_MARKER (_content m)).

(** [m in receipts], by identity or by [==], for a message of the list the
    receipts were selected from: it is one of them, or equals one. *)
Definition in_receipts (receipts : list message) (m : message) : bool :=
  is_receipt m || existsb (λ r, py_eq (PyDict m) (PyDict r)) receipts.

Definition summary_text (n : nat) (lines : list pystr) : pystr :=
  COMPACT_MARKER ++ u "已省略 " ++ dec (N.of_nat n)
  ++ u " 条中间消息（原始内容不注入）；中段事件摘要如下，仅用于定位，不作为门禁证据："
  ++ [newline] ++ join [newline] lines.

(** The result when nothing is dropped. *)
Definition unchanged (source : list message) (system constraints tail before : nat) : CompactionResult :=
  mkCompactionResult source (mkDigest false system constraints tail 0 0 before before)
    0 before before false.

Definition message_of (v : pyval) : option message := match v with PyDict d => Some d | _ => None end.

(** [isinstance(v, int) and v > 0], or the [ValueError] of the message. *)
Definition positive_int (v : pyval) (msg : string) : result Z :=
  match as_int v with
  | Some z => if (z <=? 0)%Z then Err (ValueError msg) else Ok z
  | None => Err (ValueError msg)
  end.

Definition compact_history (messages : list pyval) (budget_chars keep_tail : pyval)
    (open_operations : list pyval) : result CompactionResult :=
  budget ← positive_int budget_chars "budget_chars 必须为正整数";
  keep ← positive_int keep_tail "keep_tail 必须为正整数";
  let source := omap message_of messages in
  before ← history_chars source;
  let '(protected_system, rest) := split_system source in
  let '(requirement, rest) := split_requirement rest in
  let '(middle, tail) := split_tail keep rest in
  let same := unchanged source (length protected_system) (length requirement) (length tail) before in
  if (Z.of_nat before <=? budget)%Z || (length middle =? 0) then Ok same
  else
    let extra := filter (λ m, is_receipt m = true) middle in
    let dropped := filter (λ m, in_receipts extra m = false) middle in
    if length dropped =? 0 then Ok same
    else
      lines ← summary_lines dropped;
      let summary := system_message (summary_text (length dropped) (slice_last 8 lines)) in
      let unclosed := filter (λ i, open_item i = true) open_operations in
      let rebuilt := protected_system ++ requirement ++ extra ++ [summary]
        ++ (if length unclosed =? 0 then [] else [_unclosed_message unclosed]) ++ tail in
      after ← history_chars rebuilt;
      Ok (mkCompactionResult rebuilt
            (mkDigest true (length protected_system) (length requirement) (length tail)
               (length dropped) (length unclosed) before after)
            (length dropped) before after true).

Definition rehydrate (r : CompactionResult) : result (list message) :=
  if existsb (role_is (u "system")) (cr_messages r) then Ok (cr_messages r)
  else Err (ValueError "压缩结果缺少受保护的 system 消息").

(** ** Lemmas *)
Lemma split_system_spec ms s r :
  split_system ms = (s, r) →
  ms = s ++ r ∧ Forall (λ m, role_is (u "system") m = true) s.
Proof.
  revert s r. induction ms as [|m ms IH]; intros s r; cbn; [intros [= <- <-]; by split|].
  destruct (role_is (u "system") m) eqn:E; [|intros [= <- <-]; by split].
  destruct (split_system ms) as [s' r'] eqn:E'. intros [= <- <-].
  destruct (IH s' r' eq_refl) as [-> Hs]. split; [done|by constructor].
Qed.

Lemma split_requirement_spec ms q r :
  split_requirement ms = (q, r) →
  ms = q ++ r ∧ (∀ m ms', ms = m :: ms' → role_is (u "user") m = true → q = [m]).
Proof.
  destruct ms as [|m ms]; cbn; [intros [= <- <-]; naive_solver|].
  destruct (role_is (u "user") m) eqn:E; intros [= <- <-]; (split; [done|]);
    intros ? ? [= <- <-]; [done|]. by rewrite E.
Qed.

Lemma split_tail_spec keep rest mid tail :
  (0 < keep)%Z → split_tail keep rest = (mid, tail) →
  rest = mid ++ tail ∧
  length tail = (if (keep <? Z.of_nat (length rest))%Z then Z.to_nat keep else 0).
Proof.
  intros Hk. unfold split_tail. destruct (Z.ltb_spec keep (Z.of_nat (length rest))); intros [= <- <-].
  - rewrite take_drop, length_drop. split; [done|lia].
  - by rewrite app_nil_r.
Qed.

Lemma contains_prefix p s : contains p (p ++ s) = true.
Proof.
  assert (H' : startswith p (p ++ s) = true) by (apply startswith_prefix; by exists s).
  unfold contains. destruct (p ++ s); by rewrite H'.
Qed.

Lemma summary_is_receipt n lines : is_receipt (system_message (summary_text n lines)) = true.
Proof.
  unfold is_receipt, summary_text. change (_content (system_message ?t)) with t.
  by rewrite contains_prefix.
Qed.

Lemma unclosed_is_receipt ops : is_receipt (_unclosed_message ops) = true.
Proof.
  unfold is_receipt, _unclosed_message. change (_content (system_message ?t)) with t.
  rewrite contains_prefix. by rewrite orb_true_r.
Qed.
End compaction.

(** Equal dictionaries have equal [str] values. *)
Lemma py_eq_dict_str (d e : message) k s :
  NoDup (dkeys d) → py_eq (PyDict d) (PyDict e) = true → pget k e = PyStr s → pget k d = PyStr s.
Proof.
  intros Hnd Heq. cbn [py_eq] in Heq. apply andb_true_iff in Heq as [Hlen%Nat.eqb_eq Hgo].
  assert (Hall : ∀ k v, (k, v) ∈ d → ∃ w, dget k e = Some w ∧ py_eq v w = true).
  { clear Hlen Hnd. induction d as [|[k1 v1] d IH]; [set_solver|].
    apply andb_true_iff in Hgo as [H1 H2].
    intros k' v' [[= -> ->]|Hin]%elem_of_cons; [|by apply IH].
    destruct (dget k1 e); [by eexists|done]. }
  unfold pget. intros Hs. destruct (dget k e) as [w|] eqn:Ee; [|done]. subst w.
  assert (Hsub : dkeys d ≡ₚ dkeys e).
  { apply submseteq_length_Permutation.
    - apply NoDup_submseteq; [done|]. intros x Hx.
      apply list_elem_of_fmap in Hx as ([x' v] & -> & Hin).
      destruct (Hall _ _ Hin) as (w & Hw & _). apply dget_Some_elem in Hw.
      apply list_elem_of_fmap. by exists (x', w).
    - unfold dkeys. rewrite !length_fmap. lia. }
  assert (Hk : k ∈ dkeys d).
  { rewrite Hsub. apply list_elem_of_fmap. exists (k, PyStr s). split; [done|]. by apply dget_Some_elem. }
  apply list_elem_of_fmap in Hk as ([k' v] & -> & Hin). cbn in *.
  rewrite (elem_dget k' v d) by done. destruct (Hall _ _ Hin) as (w & Hw & Hvw).
  rewrite Ee in Hw. injection Hw as <-. rewrite py_eq_str in Hvw. by apply is_lit_iff.
Qed.

Lemma receipt_eq (m r : message) :
  NoDup (dkeys m) → py_eq (PyDict m) (PyDict r) = true → is_receipt r = true → is_receipt m = true.
Proof.
  intros Hnd Heq. unfold is_receipt, role_is. rewrite !andb_true_iff, !is_lit_iff.
  intros [Hr Hc]. split; [by apply (py_eq_dict_str m r)|].
  destruct (pget (u "content") r) as [| | | |t| | | |] eqn:Et; unfold _content in *; rewrite Et in Hc;
    try (vm_compute in Hc; discriminate).
  by rewrite (py_eq_dict_str m r _ _ Hnd Heq Et).
Qed.

Lemma filter_iff_in {A} (P Q : A → Prop) `{∀ x, Decision (P x), ∀ x, Decision (Q x)} l :
  Forall (λ x, P x ↔ Q x) l → filter P l = filter Q l.
Proof.
  induction 1 as [|x l Hx _ IH]; [done|]. rewrite !filter_cons, IH.
  repeat case_decide; naive_solver.
Qed.

(** What is not dropped is a receipt, and no receipt is dropped. *)
Lemma dropped_spec (ms : list message) :
  Forall (λ m, NoDup (dkeys m)) ms →
  let extra := filter (λ m, is_receipt m = true) ms in
  filter (λ m, in_receipts extra m = false) ms = filter (λ m, is_receipt m = false) ms.
Proof.
  intros Hnd extra. apply filter_iff_in. apply Forall_forall. intros m Hm.
  rewrite Forall_forall in Hnd. unfold in_receipts. rewrite orb_false_iff.
  split; [by intros [? _]|]. intros Hr. split; [done|].
  apply existsb_none, Forall_forall. intros r [Hrec _]%list_elem_of_filter.
  apply not_true_is_false. intros Heq.
  by rewrite (receipt_eq m r (Hnd m Hm) Heq Hrec) in Hr.
Qed.

Lemma receipts_complement (ms : list message) :
  filter (λ m, is_receipt m = true) ms ++ filter (λ m, is_receipt m = false) ms ≡ₚ ms.
Proof.
  rewrite <- (filter_app_complement (λ m, is_receipt m = true) ms) at 3.
  f_equiv. erewrite filter_iff_in; [done|]. apply Forall_forall. intros m _.
  by rewrite not_true_iff_false.
Qed.

(** A compaction of [source]: the head, the earlier receipts and the tail are
    kept, a summary stands for [dropped], and a receipt lists what is open. *)
Definition compaction_of `{PyRepr} (source : list message) (keep : Z) (ops : list pyval)
    (r : CompactionResult) : Prop :=
  ∃ system requirement middle tail,
    source = system ++ requirement ++ middle ++ tail ∧
    Forall (λ m, role_is (u "system") m = true) system ∧
    (∀ m ms, requirement ++ middle ++ tail = m :: ms → role_is (u "user") m = true →
             requirement = [m]) ∧
    length tail = (if (keep <? Z.of_nat (length (middle ++ tail)))%Z then Z.to_nat keep else 0) ∧
    ∃ receipts dropped summary unclosed,
      middle ≡ₚ receipts ++ dropped ∧
      Forall (λ m, is_receipt m = true) (receipts ++ summary :: unclosed) ∧
      Forall (λ m, ∃ content, m = system_message content) (summary :: unclosed) ∧
      Forall (λ m, is_receipt m = false) dropped ∧
      cr_messages r = system ++ requirement ++ receipts ++ summary :: unclosed ++ tail ∧
      cr_dropped r = length dropped ∧ dropped ≠ [] ∧
      (unclosed = [] ↔ Forall (λ i, open_item i = false) ops).

Lemma positive_int_ok v msg z : positive_int v msg = Ok z → as_int v = Some z ∧ (0 < z)%Z.
Proof.
  unfold positive_int. destruct (as_int v) as [y|]; [|done].
  destruct (Z.leb_spec y 0); [done|]. intros [= <-]. by split.
Qed.

Lemma filter_true_nil {A} (f : A → bool) l :
  filter (λ x, f x = true) l = [] ↔ Forall (λ x, f x = false) l.
Proof.
  induction l as [|x l IH]; [by split|]. rewrite filter_cons, Forall_cons.
  destruct (f x); case_decide; naive_solver.
Qed.

(** The messages are Python dictionaries: their keys are distinct. *)
Definition messages_wf (messages : list pyval) : Prop :=
  Forall (λ m, NoDup (dkeys m)) (omap message_of messages).

Section theorems.
Context `{PyRepr}.

Lemma compact_history_cases messages b k ops r :
  messages_wf messages →
  compact_history messages b k ops = Ok r →
  ∃ budget keep, as_int b = Some budget ∧ as_int k = Some keep ∧
    (cr_compacted r = false ∧ cr_messages r = omap message_of messages ∧ cr_dropped r = 0 ∨
     cr_compacted r = true ∧ (budget < Z.of_nat (cr_chars_before r))%Z ∧
     compaction_of (omap message_of messages) keep ops r).
Proof.
  intros Hwf Hc. unfold compact_history in Hc.
  apply bind_ok in Hc as (budget & [Hb _]%positive_int_ok & Hc).
  apply bind_ok in Hc as (keep & [Hk Hkp]%positive_int_ok & Hc).
  exists budget, keep. split; [done|]. split; [done|].
  set (source := omap message_of messages) in *. unfold messages_wf in Hwf. fold source in Hwf.
  apply bind_ok in Hc as (before & _ & Hc).
  destruct (split_system source) as [sys rest] eqn:Es.
  destruct (split_requirement rest) as [req rest'] eqn:Er.
  destruct (split_tail keep rest') as [mid tail] eqn:Et.
  destruct (split_system_spec _ _ _ Es) as [Hsrc Hsys].
  destruct (split_requirement_spec _ _ _ Er) as [Hrest Hreq].
  destruct (split_tail_spec _ _ _ _ Hkp Et) as [Hrest' Htail].
  clear Es Er Et. clearbody source. subst rest' rest source.
  assert (Hmid : Forall (λ m, NoDup (dkeys m)) mid).
  { rewrite !Forall_app in Hwf. naive_solver. }
  destruct ((Z.of_nat before <=? budget)%Z || (length mid =? 0)) eqn:Eb.
  { injection Hc as <-. by left. }
  apply orb_false_iff in Eb as [Eb%Z.leb_gt _].
  rewrite (dropped_spec mid Hmid) in Hc.
  destruct (length (filter _ mid) =? 0) eqn:El; [injection Hc as <-; by left|].
  right. apply bind_ok in Hc as (lines & _ & Hc). apply bind_ok in Hc as (after & _ & Hc).
  injection Hc as <-. cbn [cr_compacted cr_chars_before]. split; [done|]. split; [done|].
  exists sys, req, mid, tail. do 4 (split; [done|]).
  exists (filter (λ m, is_receipt m = true) mid), (filter (λ m, is_receipt m = false) mid).
  eexists _, (if length (filter (λ i, open_item i = true) ops) =? 0 then []
              else [_unclosed_message (filter (λ i, open_item i = true) ops)]).
  split_and!.
  - by rewrite receipts_complement.
  - apply Forall_app. split; [apply Forall_forall; by intros ? []%list_elem_of_filter|].
    constructor; [apply summary_is_receipt|].
    destruct (length (filter _ ops) =? 0); [constructor|].
    constructor; [apply unclosed_is_receipt|constructor].
  - constructor; [by eexists|]. destruct (length (filter _ ops) =? 0); [constructor|].
    constructor; [by eexists|constructor].
  - apply Forall_forall. by intros ? []%list_elem_of_filter.
  - done.
  - done.
  - intros E. by rewrite E in El.
  - rewrite <- filter_true_nil. by destruct (filter _ ops).
Qed.

(** A conversation compacted turn by turn. *)
Fixpoint compact_turns (messages : list message) (turns : list (list message)) (b k : pyval)
    (ops : list pyval) : result (list message) :=
  match turns with
  | [] => Ok messages
  | new :: turns' =>
    r ← compact_history (PyDict <$> messages ++ new) b k ops;
    compact_turns (cr_messages r) turns' b k ops
  end.

Lemma omap_message_of (ms : list message) : omap message_of (PyDict <$> ms) = ms.
Proof. induction ms as [|m ms IH]; [done|]. cbn. f_equal. exact IH. Qed.

Lemma compaction_of_messages source keep ops r :
  Forall (λ m, NoDup (dkeys m)) source → compaction_of source keep ops r →
  Forall (λ m, NoDup (dkeys m)) (cr_messages r) ∧
  (∀ m, m ∈ source → is_receipt m = true → m ∈ cr_messages r).
Proof.
  intros Hwf (sys & req & mid & tail & -> & _ & _ & _ & rec & drop & sum & unc &
              Hmid & _ & Hnew & Hdrop & -> & _).
  split.
  - rewrite Hmid, !Forall_app in Hwf. destruct Hwf as (? & ? & [? _] & ?).
    assert (Hnew' : Forall (λ m, NoDup (dkeys m)) (sum :: unc)).
    { eapply Forall_impl; [exact Hnew|]. intros m [t ->]. by_compute. }
    apply Forall_cons in Hnew' as [? ?].
    rewrite !Forall_app, Forall_cons, Forall_app. by split_and!.
  - intros m. rewrite Forall_forall in Hdrop. rewrite !elem_of_app, elem_of_cons, elem_of_app, Hmid.
    intros [?|[?|[[?|Hd]%elem_of_app|?]]] Hr; [tauto|tauto|tauto| |tauto].
    apply Hdrop in Hd. by rewrite Hd in Hr.
Qed.

Lemma compact_history_wf (ms : list message) b k ops r :
  Forall (λ m, NoDup (dkeys m)) ms → compact_history (PyDict <$> ms) b k ops = Ok r →
  Forall (λ m, NoDup (dkeys m)) (cr_messages r) ∧
  (∀ m, m ∈ ms → is_receipt m = true → m ∈ cr_messages r).
Proof.
  intros Hwf Hc. apply compact_history_cases in Hc as (budget & keep & _ & _ & Hc).
  - rewrite omap_message_of in Hc.
    destruct Hc as [(_ & -> & _)|(_ & _ & Hc)]; [auto|]. by eapply compaction_of_messages.
  - unfold messages_wf. by rewrite omap_message_of.
Qed.

(** A successful compaction either returns the messages unchanged, or was
    over budget and keeps, in order and verbatim, every leading system message,
    the user requirement that follows them, the receipts of earlier
    compactions, and the last [keep_tail] messages when more than that many
    follow the head.  Every other message is dropped and counted, a summary
    stands for them, and operations still open are listed in a receipt. *)
Theorem compact_history_spec messages b k ops r :
  messages_wf messages →
  compact_history messages b k ops = Ok r →
  ∃ budget keep, as_int b = Some budget ∧ as_int k = Some keep ∧
    (cr_compacted r = false ∧ cr_messages r = omap message_of messages ∧ cr_dropped r = 0 ∨
     cr_compacted r = true ∧ (budget < Z.of_nat (cr_chars_before r))%Z ∧
     compaction_of (omap message_of messages) keep ops r).
Proof. apply compact_history_cases. Qed.

(** No receipt is ever lost: however often a conversation is compacted and
    whatever messages its later turns bring, a summary or open-operation receipt
    it holds is still in it, verbatim, after the last turn. *)
Theorem receipts_survive turns messages b k ops final m :
  Forall (λ m, NoDup (dkeys m)) (messages ++ concat turns) →
  compact_turns messages turns b k ops = Ok final →
  m ∈ messages → is_receipt m = true → m ∈ final.
Proof.
  revert messages. induction turns as [|new turns IH]; intros messages Hwf Hrun Hm Hr.
  { cbn in Hrun. by injection Hrun as <-. }
  cbn [concat] in Hwf. rewrite app_assoc in Hwf. apply Forall_app in Hwf as [Hwf1 Hwf2].
  cbn [compact_turns] in Hrun. apply bind_ok in Hrun as (r & Hc & Hrun).
  destruct (compact_history_wf _ _ _ _ _ Hwf1 Hc) as [Hwf3 Hkeep].
  apply (IH (cr_messages r)); [by apply Forall_app|done| |done].
  apply Hkeep; [|done]. apply elem_of_app. by left.
Qed.
End theorems.

(** A conversation of a system message, a requirement and three long answers. *)
Definition text_message (role : string) (text : pystr) : message :=
  [(u "role", PyStr (u role)); (u "content", PyStr text)].
Definition sample_history : list message :=
  [ text_message "system" (u "gate"); text_message "user" (u "fix it");
    text_message "assistant" (replicate 200 97%N); text_message "assistant" (u "b");
    text_message "assistant" (u "c") ].

Definition sample_run `{PyRepr} : result CompactionResult :=
  compact_history (PyDict <$> sample_history) (PyInt 100) (PyInt 2) [PyStr (u "op-1")].

Lemma compact_history_spec_witness :
  ∃ (repr : PyRepr) r, compact_history (PyDict <$> sample_history) (PyInt 100) (PyInt 2) [PyStr (u "op-1")] = Ok r ∧
    messages_wf (PyDict <$> sample_history) ∧ cr_compacted r = true ∧
    compaction_of (omap message_of (PyDict <$> sample_history)) 2 [PyStr (u "op-1")] r.
Proof.
  pose (repr := (λ _, []) : PyRepr). exists repr.
  assert (Hwf : messages_wf (PyDict <$> sample_history)) by by_compute.
  destruct (compact_history (PyDict <$> sample_history) (PyInt 100) (PyInt 2) [PyStr (u "op-1")])
    as [r|e] eqn:E; [|vm_compute in E; discriminate E].
  assert (Hcomp : cr_compacted r = true) by (vm_compute in E; injection E as <-; reflexivity).
  exists r. split; [reflexivity|]. split; [exact Hwf|]. split; [exact Hcomp|].
  destruct (compact_history_spec _ _ _ _ _ Hwf E) as (bu & ke & Hb & Hk & [[Hf _]|(_ & _ & Hc)]).
  - congruence.
  - injection Hk as <-. exact Hc.
Defined.

Lemma receipts_survive_witness :
  ∃ (repr : PyRepr) final,
    compact_turns (text_message "system" (u "gate") :: text_message "user" (u "go")
                   :: system_message (UNCLOSED_MARKER ++ u "op") :: sample_history)
      [[text_message "user" (u "next")]; [text_message "user" (u "again")]] (PyInt 100) (PyInt 2) []
    = Ok final ∧ system_message (UNCLOSED_MARKER ++ u "op") ∈ final.
Proof.
  pose (repr := (λ _, []) : PyRepr). exists repr.
  destruct (compact_turns _ _ _ _ _) as [final|e] eqn:E; [|vm_compute in E; discriminate E].
  exists final. split; [reflexivity|].
  refine (receipts_survive _ _ _ _ _ _ _ _ E _ _); [by_compute| |vm_compute; reflexivity].
  apply list_elem_of_further, list_elem_of_further, list_elem_of_here.
Defined.

(** With exactly [keep_tail] messages after the head the tail is empty, and the
    last messages are summarised away with the rest. *)
Example short_tail_dropped :
  let repr := (λ _, []) : PyRepr in
  match compact_history (PyDict <$> take 4 sample_history) (PyInt 100) (PyInt 2) [] with
  | Ok r => cr_compacted r = true ∧ cr_dropped r = 2 ∧ length (cr_messages r) = 3
  | Err _ => False
  end.
Proof. vm_compute. by split_and!. Qed.
