(* ===== verification/ConnectRequest.v ===== *)
(** * CONNECT request heads ([src/src/icode/connect_request.py])

    The parser of the proxy's only request form.  A [bytes] value is a list of
    numbers below 256; its [lower] is the ASCII one, which agrees with the [str]
    method on such values. *)

From S2P Require Import Prelude PyText SandboxPolicy NetworkLease.

(** ** [bytes.count] and [bytes.split] for a separator of several bytes

    Both scan from the left and skip a match once found: [skip] is the rest of
    the match being skipped. *)
Fixpoint count_from (p : pystr) (skip : nat) (s : pystr) : nat :=
  match s with
  | [] => 0
  | _ :: s' =>
    match skip with
    | S k => count_from p k s'
    | O => if startswith p s then S (count_from p (length p - 1) s') else count_from p 0 s'
    end
  end.
Definition count_sub (p s : pystr) : nat := count_from p 0 s.

Fixpoint split_from (p : pystr) (skip : nat) (s : pystr) : list pystr :=
  match s with
  | [] => [[]]
  | c :: s' =>
    match skip with
    | S k => split_from p k s'
    | O => if startswith p s then [] :: split_from p (length p - 1) s'
           else match split_from p 0 s' with
                | [] => [[c]]
                | w :: ws => (c :: w) :: ws
                end
    end
  end.
Definition split_sub (p s : pystr) : list pystr := split_from p 0 s.

(** ** The parser *)
Definition MAX_CONNECT_REQUEST_HEAD_BYTES : nat := 16 * 1024.
Definition MAX_CONNECT_REQUEST_HEADERS : nat := 32.
Definition crlf : pystr := [13; 10]%N.
Definition _HEADER_TERMINATOR : pystr := crlf ++ crlf.
Definition _HTTPS_PORT_TEXT : pystr := dec_z HTTPS_PORT.
Definition colon : N := 58%N.
Definition space : N := 32%N.

(** One byte of [_HEADER_NAME_PATTERN]. *)
Definition header_char (c : N) : bool := (c ∈s u "!#$%&'*+.^_`|~-") || is_alnum_ascii c.

Record HttpsConnectTarget := mkHttpsConnectTarget { ct_hostname : pystr; ct_port : Z }.

Definition _parse_authority (authority : pystr) : result pystr :=
  match split_on colon authority with
  | [hostname; port] =>
    _ ← raise_if (port ≠s _HTTPS_PORT_TEXT) ConnectRequestError;
    _ ← raise_if (negb (forallb is_ascii hostname)) ConnectRequestError;
    _ ← raise_if (negb (is_exact_dns_hostname hostname)) ConnectRequestError;
    Ok (lower hostname)
  | _ => Err ConnectRequestError
  end.

Definition blank (c : N) : bool := (c =? 32)%N || (c =? 9)%N.

Definition _parse_host_field (value : pystr) : option pystr :=
  let host_of hostname :=
    if forallb is_ascii hostname && is_exact_dns_hostname hostname then Some (lower hostname) else None in
  match split_on colon (strip_by blank value) with
  | [hostname] => host_of hostname
  | [hostname; port] => if port ≠s _HTTPS_PORT_TEXT then None else host_of hostname
  | _ => None
  end.

(** [byte < 0x20 and byte != 0x09 or byte == 0x7F] *)
Definition bad_value_byte (c : N) : bool := ((c <? 32)%N && negb (c =? 9)%N) || (c =? 127)%N.

(** One header line, with the number of [Host] fields before it. *)
Definition parse_field (hostname : pystr) (host_fields : nat) (line : pystr) : result nat :=
  _ ← raise_if (bool_decide (line = []) || startswith [space] line || startswith [9%N] line)
        ConnectRequestError;
  match find_sub [colon] line with
  | None | Some O => Err ConnectRequestError
  | Some separator =>
    let name := take separator line in
    let value := drop (S separator) line in
    _ ← raise_if (negb (full_cls header_char 1 None name)) ConnectRequestError;
    _ ← raise_if (existsb bad_value_byte value) ConnectRequestError;
    _ ← raise_if (lower name ≠s u "host") ConnectRequestError;
    _ ← raise_if (negb (S host_fields =? 1) || (_parse_host_field value ≠s Some hostname))
          ConnectRequestError;
    Ok (S host_fields)
  end.

Fixpoint parse_fields (hostname : pystr) (host_fields : nat) (lines : list pystr) : result nat :=
  match lines with
  | [] => Ok host_fields
  | line :: lines' => n ← parse_field hostname host_fields line; parse_fields hostname n lines'
  end.

(** The checks on the lines of the head. *)
Definition parse_lines (lines : list pystr) : result HttpsConnectTarget :=
  match lines with
  | [] => Err ConnectRequestError
  | request_line :: fields =>
    _ ← raise_if (MAX_CONNECT_REQUEST_HEADERS <? length fields) ConnectRequestError;
    _ ← raise_if (existsb is_control request_line) ConnectRequestError;
    match split_on space request_line with
    | [method; authority; version] =>
      _ ← raise_if (method ≠s u "CONNECT") ConnectRequestError;
      hostname ← _parse_authority authority;
      if version =s u "HTTP/1.0" then
        _ ← raise_if (negb (length lines =? 1)) ConnectRequestError;
        Ok (mkHttpsConnectTarget hostname HTTPS_PORT)
      else
        _ ← raise_if (version ≠s u "HTTP/1.1") ConnectRequestError;
        host_fields ← parse_fields hostname 0 fields;
        _ ← raise_if (negb (host_fields =? 1)) ConnectRequestError;
        Ok (mkHttpsConnectTarget hostname HTTPS_PORT)
    | _ => Err ConnectRequestError
    end
  end.

Definition parse_https_connect_request_head (request_head : pystr) : result HttpsConnectTarget :=
  _ ← raise_if (bool_decide (request_head = [])) ConnectRequestError;
  _ ← raise_if (MAX_CONNECT_REQUEST_HEAD_BYTES <? length request_head) ConnectRequestError;
  _ ← raise_if (negb (endswith _HEADER_TERMINATOR request_head)
                || negb (count_sub _HEADER_TERMINATOR request_head =? 1)) ConnectRequestError;
  parse_lines (split_sub crlf (take (length request_head - length _HEADER_TERMINATOR) request_head)).

(** ** Splitting and counting *)
Lemma join_split_from p skip s :
  p ≠ [] → join p (split_from p skip s) = drop skip s ∧ split_from p skip s ≠ [].
Proof.
  intros Hp. revert skip. induction s as [|c s IH]; intros skip; cbn.
  { split; [by destruct skip|done]. }
  destruct skip as [|k]; [|apply IH].
  case_match eqn:E.
  - destruct (IH (length p - 1)) as [Hj Hne]. split; [|done].
    destruct (split_from p (length p - 1) s) as [|w ws] eqn:Es; [done|].
    change (join p ([] :: w :: ws)) with (p ++ join p (w :: ws)). rewrite Hj.
    assert (Hpre : startswith p (c :: s) = true) by exact E.
    apply startswith_prefix in Hpre as [t Ht]. cbn [drop].
    destruct p as [|a p]; [done|]. cbn in Ht |- *. injection Ht as <- ->.
    by rewrite Nat.sub_0_r, drop_app_length.
  - destruct (IH 0) as [Hj Hne]. destruct (split_from p 0 s) as [|w ws]; [done|].
    split; [|done]. rewrite drop_0 in Hj. cbn [drop]. rewrite <- Hj. by destruct ws.
Qed.

Lemma join_split_sub p s : p ≠ [] → join p (split_sub p s) = s.
Proof. intros Hp. unfold split_sub. by rewrite (proj1 (join_split_from p 0 s Hp)), drop_0. Qed.

Lemma split_from_skip p q s : split_from p (length q) (q ++ s) = split_from p 0 s.
Proof. induction q as [|c q IH]; [done|exact IH]. Qed.

(** Text without the first character of the separator holds no separator. *)
Lemma split_sub_clean a p s rest :
  a ∉ s → split_sub (a :: p) (s ++ (a :: p) ++ rest) = s :: split_sub (a :: p) rest.
Proof.
  unfold split_sub. induction s as [|c s IH]; intros Ha.
  - cbn [app split_from]. rewrite (proj2 (startswith_prefix (a :: p) (a :: p ++ rest))) by (by exists rest).
    cbn [length]. rewrite Nat.sub_succ, Nat.sub_0_r. f_equal.
    apply split_from_skip.
  - apply not_elem_of_cons in Ha as [Hc Hs]. cbn [app split_from].
    case_match eqn:E.
    { cbn in E. destruct (N.eqb_spec a c); [done|]. done. }
    specialize (IH Hs). cbn [app] in IH. by rewrite IH.
Qed.

Lemma split_sub_none a p s : a ∉ s → split_sub (a :: p) s = [s].
Proof.
  unfold split_sub. induction s as [|c s IH]; intros Ha; [done|].
  apply not_elem_of_cons in Ha as [Hc Hs]. cbn [split_from startswith].
  destruct (N.eqb_spec a c); [done|]. cbn [andb]. by rewrite IH.
Qed.

Lemma count_sub_clean a p s rest : a ∉ s → count_sub (a :: p) (s ++ rest) = count_sub (a :: p) rest.
Proof.
  unfold count_sub. induction s as [|c s IH]; intros Ha; [done|].
  apply not_elem_of_cons in Ha as [Hc Hs]. cbn [app count_from startswith].
  destruct (N.eqb_spec a c); [done|]. cbn [andb]. by apply IH.
Qed.

Lemma find_sub_clean a s rest : a ∉ s → find_sub [a] (s ++ a :: rest) = Some (length s).
Proof.
  intros Ha. unfold find_sub. rewrite <- (Nat.add_0_l (length s)). generalize 0.
  induction s as [|c s IH]; intros n; cbn [app find_from startswith].
  - rewrite N.eqb_refl. cbn. f_equal. lia.
  - apply not_elem_of_cons in Ha as [Hc Hs]. destruct (N.eqb_spec a c); [done|]. cbn [andb].
    rewrite IH by done. f_equal. cbn. lia.
Qed.

Lemma find_sub_some a s i : find_sub [a] s = Some i → a ∉ take i s ∧ s = take i s ++ a :: drop (S i) s.
Proof.
  unfold find_sub. intros H. assert (Hg : ∀ n i, find_from n [a] s = Some (n + i) →
    a ∉ take i s ∧ s = take i s ++ a :: drop (S i) s); [|by apply (Hg 0 i)].
  clear H i. induction s as [|c s IH]; intros n i; cbn [find_from startswith].
  - done.
  - destruct (N.eqb_spec a c) as [->|Hne]; cbn [andb].
    + intros [= Hi]. assert (i = 0) as -> by lia. cbn. split; [apply not_elem_of_nil|by rewrite drop_0].
    + intros Hf. destruct i as [|i].
      { exfalso. clear -Hf. assert (Hle : ∀ t m j, find_from m [a] t = Some j → m ≤ j).
        { induction t as [|d t IH]; intros m j; cbn; [done|].
          case_match; [intros [= ->]; lia|]. intros Hj%IH. lia. }
        apply Hle in Hf. lia. }
      replace (n + S i) with (S n + i) in Hf by lia. apply IH in Hf as [H1 H2]. cbn. split.
      * rewrite not_elem_of_cons. done.
      * f_equal. exact H2.
Qed.

(** ** Host names hold letters, digits, hyphens and dots only *)
Definition host_byte (c : N) : bool := is_alnum_ascii c || (c =? 45)%N || (c =? 46)%N.

Lemma exact_host_ascii h : is_exact_dns_hostname h = true → forallb is_ascii h = true.
Proof. unfold is_exact_dns_hostname. by intros [? _]%andb_true_iff. Qed.

Lemma dns_label_bytes l : dns_label l = true → Forall (λ c, host_byte c = true) l.
Proof.
  unfold dns_label. destruct l as [|c l]; [done|]. generalize (c :: l). clear. intros l.
  rewrite !andb_true_iff. intros [[[_ Hl] _] _]. apply forallb_Forall in Hl.
  eapply Forall_impl; [exact Hl|]. intros d. unfold is_label_char, host_byte, is_alnum_ascii.
  rewrite !orb_true_iff. tauto.
Qed.

Lemma exact_host_bytes h : is_exact_dns_hostname h = true → Forall (λ c, host_byte c = true) h.
Proof.
  intros Hh. pose proof (exact_host_ascii h Hh) as Ha. unfold is_exact_dns_hostname in Hh.
  apply andb_true_iff in Hh as [_ Hh]. unfold _is_exact_dns_hostname in Hh.
  apply andb_true_iff in Hh as [_ Hh]. apply andb_true_iff in Hh as [_ Hh].
  apply forallb_Forall in Hh. rewrite <- (join_split 46 (lower h)) in *.
  assert (Hlow : Forall (λ c, host_byte c = true) (lower h)).
  { rewrite <- (join_split 46 (lower h)). apply Forall_join; [done|].
    rewrite join_split in Hh. eapply Forall_impl; [exact Hh|]. apply dns_label_bytes. }
  apply Forall_forall. intros c Hc. rewrite forallb_Forall, Forall_forall in Ha.
  specialize (Ha c Hc). rewrite Forall_forall in Hlow.
  unfold host_byte, is_alnum_ascii. destruct (is_upper_az c) eqn:Eu.
  { by rewrite !orb_true_r. }
  assert (Hin : c ∈ lower h).
  { apply list_elem_of_In, in_concat. exists (lower_char c). split.
    - apply in_map. by apply list_elem_of_In.
    - unfold lower_char. rewrite Eu. unfold is_ascii in Ha. apply N.ltb_lt in Ha.
      destruct (N.eqb_spec c 304), (N.eqb_spec c 8490); try lia. by left. }
  specialize (Hlow c Hin). unfold host_byte, is_alnum_ascii in Hlow. by rewrite Eu in Hlow.
Qed.

Lemma host_byte_facts c :
  host_byte c = true →
  c ≠ colon ∧ c ≠ space ∧ c ≠ 13%N ∧ is_control c = false ∧ blank c = false.
Proof.
  unfold host_byte, is_alnum_ascii, is_digit, is_lower_az, is_upper_az, in_range, colon, space,
    is_control, blank.
  rewrite !orb_true_iff, !andb_true_iff, !orb_false_iff, !N.leb_le, !N.eqb_eq, N.ltb_ge, !N.eqb_neq.
  lia.
Qed.

(** A text none of whose characters [f] holds of. *)
Lemma clean_not_elem {A} (f : A → bool) a s : f a = false → Forall (λ c, f c = true) s → a ∉ s.
Proof. intros Ha Hs Hin. rewrite Forall_forall in Hs. apply Hs in Hin. congruence. Qed.

(** ** What the parts of the parser accept *)
Lemma parse_authority_iff a h' :
  _parse_authority a = Ok h' ↔
  ∃ h, is_exact_dns_hostname h = true ∧ a = h ++ u ":443" ∧ h' = lower h.
Proof.
  unfold _parse_authority. split.
  - destruct (split_on colon a) as [|h [|port [|? ?]]] eqn:E; try done.
    intros H. apply bind_ok in H as (t1 & H1 & H). apply bind_ok in H as (t2 & H2 & H).
    apply bind_ok in H as (t3 & H3 & H). injection H as <-.
    autorewrite with py in H1, H3. exists h. split; [done|]. split; [|done].
    rewrite <- (join_split colon a), E. cbn. rewrite H1. done.
  - intros (h & Hh & -> & ->). change (u ":443") with (colon :: u "443").
    rewrite split_on_app by (by apply (clean_not_elem host_byte), exact_host_bytes).
    replace (split_on colon (u "443")) with [u "443"] by reflexivity.
    by rewrite bool_decide_true, (exact_host_ascii h Hh), Hh by reflexivity.
Qed.

Lemma host_field_iff v h' :
  _parse_host_field v = Some h' ↔
  ∃ h, is_exact_dns_hostname h = true ∧ h' = lower h ∧
       (strip_by blank v = h ∨ strip_by blank v = h ++ u ":443").
Proof.
  unfold _parse_host_field. split.
  - destruct (split_on colon (strip_by blank v)) as [|h [|port [|? ?]]] eqn:E; try done.
    + case_match eqn:Eh; [|done]. intros [= <-]. apply andb_true_iff in Eh as [_ Eh].
      exists h. split; [done|]. split; [done|]. left.
      by rewrite <- (join_split colon (strip_by blank v)), E.
    + case_bool_decide as Ep; [|done]. cbn [negb].
      case_match eqn:Eh; [|done]. intros [= <-]. apply andb_true_iff in Eh as [_ Eh].
      exists h. split; [done|]. split; [done|]. right.
      rewrite <- (join_split colon (strip_by blank v)), E. cbn. by rewrite Ep.
  - intros (h & Hh & -> & [-> | ->]).
    + rewrite split_on_none by (by apply (clean_not_elem host_byte), exact_host_bytes).
      by rewrite (exact_host_ascii h Hh), Hh.
    + change (u ":443") with (colon :: u "443").
      rewrite split_on_app by (by apply (clean_not_elem host_byte), exact_host_bytes).
      replace (split_on colon (u "443")) with [u "443"] by reflexivity.
      by rewrite bool_decide_true, (exact_host_ascii h Hh), Hh by reflexivity.
Qed.

(** A [Host] field for [hostname], whatever the case of its name and letters. *)
Definition host_line (hostname line : pystr) : Prop :=
  ∃ name value h,
    line = name ++ u ":" ++ value ∧
    full_cls header_char 1 None name = true ∧ lower name = u "host" ∧
    Forall (λ c, bad_value_byte c = false) value ∧
    is_exact_dns_hostname h = true ∧ lower h = hostname ∧
    (strip_by blank value = h ∨ strip_by blank value = h ++ u ":443").

Lemma header_char_clean name :
  full_cls header_char 1 None name = true →
  ∃ c name', name = c :: name' ∧ c ≠ space ∧ c ≠ 9%N ∧ colon ∉ name ∧ 13%N ∉ name.
Proof.
  intros H. apply full_cls_spec in H as (Hl & _ & Hf).
  destruct name as [|c name]; [cbn in Hl; lia|]. exists c, name. split; [done|].
  assert (Hne : ∀ d, header_char d = false → d ∉ c :: name)
    by (intros d Hd; by apply (clean_not_elem header_char)).
  split_and!; [intros ->|intros ->|by apply Hne|by apply Hne]; by apply Forall_cons in Hf as [? _].
Qed.

Lemma parse_field_iff hostname k line n :
  parse_field hostname k line = Ok n ↔ k = 0 ∧ n = 1 ∧ host_line hostname line.
Proof.
  unfold parse_field. split.
  - intros H. apply bind_ok in H as (t1 & _ & H).
    destruct (find_sub [colon] line) as [[|i]|] eqn:Ef; [done| |done].
    apply find_sub_some in Ef as [_ Hline].
    apply bind_ok in H as (t2 & H2 & H). apply bind_ok in H as (t3 & H3 & H).
    apply bind_ok in H as (t4 & H4 & H). apply bind_ok in H as (t5 & H5 & H).
    injection H as <-. autorewrite with py in H2, H3, H4, H5. destruct H5 as [H5 H6].
    assert (k = 0) as -> by lia. split; [done|]. split; [done|].
    apply existsb_none in H3. apply host_field_iff in H6 as (h & Hh & Hlow & Hv).
    exists (take (S i) line), (drop (S (S i)) line), h. by split_and!.
  - intros (-> & -> & name & value & h & -> & Hn & Hlow & Hv & Hh & Hlh & Hstrip).
    destruct (header_char_clean name Hn) as (c & name' & Ename & Hsp & Htab & Hcol & _).
    assert (Hstart : ∀ d, c ≠ d → startswith [d] (name ++ u ":" ++ value) = false).
    { intros d Hd. rewrite Ename. cbn. by destruct (N.eqb_spec d c). }
    rewrite !Hstart by done. rewrite bool_decide_false by (by rewrite Ename).
    change (u ":" ++ value) with (colon :: value). rewrite find_sub_clean by done.
    replace (length name) with (S (length name')) by (by rewrite Ename).
    cbn [orb raise_if mbind result_bind].
    replace (S (length name')) with (length name) by (by rewrite Ename).
    rewrite take_app_length, Hn. cbn [negb raise_if].
    replace (drop (S (length name)) (name ++ colon :: value)) with value.
    2: { rewrite <- (Nat.add_1_r (length name)), <- drop_drop, drop_app_length. done. }
    rewrite (proj2 (existsb_none bad_value_byte value) Hv), (bool_decide_true _ Hlow).
    rewrite bool_decide_true; [done|]. apply host_field_iff. by exists h.
Qed.

Lemma parse_fields_one hostname fields n :
  parse_fields hostname 0 fields = Ok n ∧ (n =? 1) = true ↔
  n = 1 ∧ ∃ line, fields = [line] ∧ host_line hostname line.
Proof.
  destruct fields as [|line [|line2 fields]].
  - cbn. split; [intros [[= <-] ?]; done|]. intros (-> & line & ? & _). done.
  - cbn [parse_fields]. split.
    + intros [H Hn]. apply bind_ok in H as (m & Hf%parse_field_iff & H). injection H as ->.
      destruct Hf as (_ & -> & ?). split; [done|]. by exists line.
    + intros (-> & l & [= <-] & Hl).
      assert (Hf : parse_field hostname 0 line = Ok 1) by by apply parse_field_iff.
      by rewrite Hf.
  - split.
    + intros [H _]. cbn [parse_fields] in H. apply bind_ok in H as (m & Hf%parse_field_iff & H).
      apply bind_ok in H as (m' & Hf'%parse_field_iff & _). destruct Hf as (_ & -> & _). naive_solver.
    + intros (_ & l & ? & _). done.
Qed.

(** The lines of an accepted head. *)
Definition head_lines (h : pystr) (lines : list pystr) : Prop :=
  lines = [u "CONNECT " ++ h ++ u ":443 HTTP/1.0"] ∨
  ∃ line, lines = [u "CONNECT " ++ h ++ u ":443 HTTP/1.1"; line] ∧ host_line (lower h) line.

Lemma request_line_split h v :
  is_exact_dns_hostname h = true → space ∉ v →
  split_on space (u "CONNECT " ++ (h ++ u ":443 ") ++ v) = [u "CONNECT"; h ++ u ":443"; v].
Proof.
  intros Hh Hv. change (u "CONNECT ") with (u "CONNECT" ++ [space]).
  change (u ":443 ") with (u ":443" ++ [space]).
  rewrite <- !app_assoc. cbn [app]. rewrite split_on_app by by_compute.
  rewrite (app_assoc h), split_on_app.
  - by rewrite split_on_none.
  - rewrite not_elem_of_app. split; [|by_compute].
    by apply (clean_not_elem host_byte), exact_host_bytes.
Qed.

Lemma request_line_clean h v :
  is_exact_dns_hostname h = true → existsb is_control v = false →
  existsb is_control (u "CONNECT " ++ (h ++ u ":443 ") ++ v) = false.
Proof.
  intros Hh Hv. rewrite !existsb_app, Hv, orb_false_r.
  replace (existsb is_control (u "CONNECT ")) with false by reflexivity.
  replace (existsb is_control (u ":443 ")) with false by reflexivity.
  rewrite orb_false_r. apply existsb_none. eapply Forall_impl; [by apply exact_host_bytes|].
  intros c Hc. by apply host_byte_facts in Hc as (_ & _ & _ & ? & _).
Qed.

Lemma parse_lines_iff lines t :
  parse_lines lines = Ok t ↔
  ∃ h, is_exact_dns_hostname h = true ∧ t = mkHttpsConnectTarget (lower h) 443 ∧ head_lines h lines.
Proof.
  unfold parse_lines, head_lines. split.
  - destruct lines as [|line fields]; [done|]. intros H.
    apply bind_ok in H as (t1 & _ & H). apply bind_ok in H as (t2 & _ & H).
    destruct (split_on space line) as [|m [|a [|v [|? ?]]]] eqn:Es; try done.
    apply bind_ok in H as (t3 & Hm & H). autorewrite with py in Hm. subst m.
    apply bind_ok in H as (h' & Ha%parse_authority_iff & H). destruct Ha as (h & Hh & -> & ->).
    assert (Hline : line = u "CONNECT " ++ (h ++ u ":443 ") ++ v).
    { rewrite <- (join_split space line), Es. cbn [join]. rewrite <- !app_assoc. done. }
    exists h. split; [done|]. case_bool_decide as Ev.
    + apply bind_ok in H as (t4 & Hl & H). injection H as <-. split; [done|]. left.
      destruct fields; [|done]. rewrite Hline, Ev, <- !app_assoc. done.
    + apply bind_ok in H as (t4 & Hv & H). autorewrite with py in Hv. subst v.
      apply bind_ok in H as (n & Hf & H). apply bind_ok in H as (t5 & Hn & H). injection H as <-.
      split; [done|]. right. autorewrite with py in Hn. subst n.
      destruct (proj1 (parse_fields_one (lower h) fields 1)) as (_ & l & -> & ?); [done|].
      exists l. rewrite Hline, <- !app_assoc. done.
  - intros (h & Hh & -> & Hl).
    assert (Ha : _parse_authority (h ++ u ":443") = Ok (lower h)).
    { apply parse_authority_iff. by exists h. }
    destruct Hl as [->|(line & -> & Hline)].
    + change (u ":443 HTTP/1.0") with (u ":443 " ++ u "HTTP/1.0").
      rewrite (app_assoc h), request_line_clean, request_line_split by (done || by_compute).
      cbn [length Nat.ltb Nat.leb raise_if mbind result_bind].
      by rewrite bool_decide_true, Ha by done.
    + change (u ":443 HTTP/1.1") with (u ":443 " ++ u "HTTP/1.1").
      rewrite (app_assoc h), request_line_clean, request_line_split by (done || by_compute).
      destruct (proj2 (parse_fields_one (lower h) [line] 1)) as [Hf _]; [by eauto|].
      cbn [length Nat.ltb Nat.leb raise_if mbind result_bind].
      rewrite (bool_decide_true (u "CONNECT" = u "CONNECT")), Ha by done.
      rewrite (bool_decide_false (u "HTTP/1.1" = u "HTTP/1.0")) by by_compute.
      rewrite (bool_decide_true (u "HTTP/1.1" = u "HTTP/1.1")) by done.
      cbn [negb raise_if mbind result_bind]. by rewrite Hf.
Qed.

Lemma endswith_iff p s : endswith p s = true ↔ ∃ t, s = t ++ p.
Proof.
  unfold endswith. rewrite startswith_prefix. split.
  - intros [t Ht]. exists (reverse t). apply (f_equal reverse) in Ht.
    by rewrite reverse_app, !reverse_involutive in Ht.
  - intros [t ->]. rewrite reverse_app. by exists (reverse t).
Qed.

Lemma host_line_clean hostname line : host_line hostname line → 13%N ∉ line ∧ line ≠ [].
Proof.
  intros (name & value & h & -> & Hn & _ & Hv & _).
  destruct (header_char_clean name Hn) as (c & name' & E & _ & _ & _ & Hcr).
  rewrite !not_elem_of_app. split; [|by rewrite E].
  split_and!; [done|by_compute|]. intros Hin. rewrite Forall_forall in Hv. by apply Hv in Hin.
Qed.

Lemma request_line_no_cr h v :
  is_exact_dns_hostname h = true → 13%N ∉ v → 13%N ∉ u "CONNECT " ++ h ++ v.
Proof.
  intros Hh Hv. rewrite !not_elem_of_app. split_and!; [by_compute| |done].
  by apply (clean_not_elem host_byte), exact_host_bytes.
Qed.

(** The body of a head with one or two lines. *)
Definition lines_body (lines : list pystr) : pystr := join crlf lines.

Lemma head_lines_body h lines :
  is_exact_dns_hostname h = true → head_lines h lines →
  split_sub crlf (lines_body lines) = lines ∧
  count_sub _HEADER_TERMINATOR (lines_body lines ++ _HEADER_TERMINATOR) = 1.
Proof.
  intros Hh [->|(line & -> & Hl)]; unfold lines_body, _HEADER_TERMINATOR, crlf in *; cbn [join app].
  - assert (Hc : 13%N ∉ u "CONNECT " ++ h ++ u ":443 HTTP/1.0") by (apply request_line_no_cr; [done|by_compute]).
    split; [by apply split_sub_none|]. by rewrite count_sub_clean.
  - destruct (host_line_clean _ _ Hl) as [Hcl Hne].
    assert (Hc : 13%N ∉ u "CONNECT " ++ h ++ u ":443 HTTP/1.1") by (apply request_line_no_cr; [done|by_compute]).
    revert Hc. generalize (u "CONNECT " ++ h ++ u ":443 HTTP/1.1"). intros req Hc. split.
    + etrans; [apply (split_sub_clean 13 [10%N]); done|]. by rewrite split_sub_none.
    + rewrite <- app_assoc, count_sub_clean by done. cbn [app].
      destruct line as [|c line]; [done|]. apply not_elem_of_cons in Hcl as [Hc13 Hcl].
      unfold count_sub. cbn [app count_from startswith].
      destruct (N.eqb_spec 13 c); [done|]. rewrite !N.eqb_refl. cbn [andb].
      rewrite (proj2 (N.eqb_neq 13 10)) by done. cbn [andb].
      change (count_sub [13; 10; 13; 10]%N (line ++ [13; 10; 13; 10]%N) = 1).
      by rewrite count_sub_clean.
Qed.

Lemma head_grammar head t :
  parse_https_connect_request_head head = Ok t ↔
  ∃ h lines, is_exact_dns_hostname h = true ∧ t = mkHttpsConnectTarget (lower h) 443 ∧
    length head ≤ MAX_CONNECT_REQUEST_HEAD_BYTES ∧
    head_lines h lines ∧ head = join crlf lines ++ crlf ++ crlf.
Proof.
  unfold parse_https_connect_request_head. split.
  - intros H. apply bind_ok in H as (t1 & _ & H). apply bind_ok in H as (t2 & Hlen & H).
    apply bind_ok in H as (t3 & Hend & H). autorewrite with py in Hlen, Hend.
    destruct Hend as [[body ->]%endswith_iff _].
    apply parse_lines_iff in H as (h & Hh & -> & Hl).
    rewrite length_app, Nat.add_sub, take_app_length in Hl.
    exists h, (split_sub crlf body). split_and!; [done|done|done|done|].
    by rewrite join_split_sub.
  - intros (h & lines & Hh & -> & Hlen & Hl & ->).
    destruct (head_lines_body h lines Hh Hl) as [Hs Hc].
    unfold _HEADER_TERMINATOR, lines_body in *. rewrite bool_decide_false by by destruct (join crlf lines).
    apply Nat.leb_le in Hlen. rewrite (Nat.ltb_antisym _ _), Hlen.
    rewrite (proj2 (endswith_iff (crlf ++ crlf) _)) by eauto. rewrite Hc.
    cbn [negb orb raise_if mbind result_bind Nat.eqb].
    rewrite (length_app (join crlf lines)), Nat.add_sub, take_app_length, Hs.
    apply parse_lines_iff. by exists h.
Qed.

(** C32: The parser accepts exactly the grammar it documents, and nothing else:
    a head of at most 16 KiB that is [CONNECT host:443 HTTP/1.0] alone, or
    [CONNECT host:443 HTTP/1.1] with one [Host] field that names the same host,
    [host] being an exact DNS name; the target is that name in lower case and
    port 443.  No second field, other port, body framing or smuggled line is
    ever accepted. *)
Theorem connect_head_grammar head t :
  parse_https_connect_request_head head = Ok t ↔
  ∃ h lines, is_exact_dns_hostname h = true ∧ t = mkHttpsConnectTarget (lower h) 443 ∧
    length head ≤ MAX_CONNECT_REQUEST_HEAD_BYTES ∧
    head_lines h lines ∧ head = join crlf lines ++ crlf ++ crlf.
Proof. exact (head_grammar head t). Qed.

Definition http10_head : pystr := u "CONNECT Example.COM:443 HTTP/1.0" ++ crlf ++ crlf.
Definition smuggled_head : pystr :=
  u "CONNECT example.com:443 HTTP/1.1" ++ crlf ++ u "Host: example.com" ++ crlf
  ++ u "Content-Length: 5" ++ crlf ++ crlf.

Example connect_examples :
  parse_https_connect_request_head http10_head = Ok (mkHttpsConnectTarget (u "example.com") 443) ∧
  parse_https_connect_request_head smuggled_head = Err ConnectRequestError ∧
  parse_https_connect_request_head
    (u "CONNECT a.b:443 HTTP/1.1" ++ crlf ++ u "hOsT:	A.b:443 " ++ crlf ++ crlf)
  = Ok (mkHttpsConnectTarget (u "a.b") 443).
Proof. vm_compute. by split_and!. Qed.
