(* ===== verification/IpAddress.v ===== *)
(** * IP addresses ([ipaddress] of the standard library)

    Parsing, printing and classification, as [network_destination.py] uses
    them.  [ip_address_str]: the printed form of an address is read as that
    address again.  [is_private] and [is_global] decide by tables of networks. *)

From S2P Require Import Prelude PyText Paths SandboxPolicy.

(** ** Big-endian words *)
Fixpoint be_words (n : nat) (base a : N) : list N := match n with O => [] | S n => be_words n base (a / base) ++ [(a mod base)%N] end.
Definition be_value (base : N) (ws : list N) : N := foldl (λ acc w, acc * base + w)%N 0%N ws.

Lemma length_be_words n base : ∀ a, length (be_words n base a) = n.
Proof. induction n as [|n IH]; intros a; [done|]. cbn [be_words]. rewrite length_app, IH. cbn. lia. Qed.
Lemma be_words_small n base : base ≠ 0%N → ∀ a, Forall (λ w, w < base)%N (be_words n base a).
Proof. intros Hb. induction n as [|n IH]; intros a; [constructor|]. cbn [be_words]. apply Forall_app. split; [apply IH|]. constructor; [by apply N.mod_lt|constructor]. Qed.
Lemma be_value_words n base : base ≠ 0%N → ∀ a, be_value base (be_words n base a) = (a mod base ^ N.of_nat n)%N.
Proof.
  intros Hb. induction n as [|n IH]; intros a; [cbn; by rewrite N.mod_1_r|]. cbn [be_words]. unfold be_value in *. rewrite foldl_app. cbn [foldl]. rewrite IH.
  rewrite Nat2N.inj_succ, N.pow_succ_r'. rewrite N.Div0.mod_mul_r by done. lia.
Qed.

(** ** Texts *)
Inductive ip_addr := V4 (a : N) | V6 (a : N) (scope : option pystr).
#[export] Instance ip_addr_eq_dec : EqDecision ip_addr.
Proof. solve_decision. Defined.
Definition dot : N := 46%N.
Definition colon : N := 58%N.

Definition ipv4_value (s : pystr) : N := be_value 256 (digits_value <$> split_on dot s).
Definition ipv4_str (a : N) : pystr := join [dot] (dec <$> be_words 4 256 a).

Definition hex_digit_value (c : N) : N := if is_digit c then c - 48 else if is_lower_az c then c - 87 else c - 55.
(** [int(p, 16)] *)
Definition part_word (p : pystr) : N := foldl (λ acc c, acc * 16 + hex_digit_value c)%N 0%N p.
Definition hex_digit (d : N) : N := if (d <? 10)%N then d + 48 else d + 87.
(** ["%x" % w] for a word below 65536 *)
Definition hex_word (w : N) : pystr :=
  match lstrip_by (N.eqb 48) (hex_digit <$> be_words 4 16 w) with [] => [48%N] | s => s end.

(** The words of parts that [ipv6_parts] accepts. *)
Definition ipv6_words (ps : list pystr) : list N :=
  let n := length ps in
  let inner := take (n - 2) (drop 1 ps) in
  let hd_empty := match ps with p :: _ => is_empty_str p | [] => false end in
  let tl_empty := match last ps with Some p => is_empty_str p | None => false end in
  match count_empty inner with
  | O => part_word <$> ps
  | _ =>
    let skip := S (first_empty inner) in
    let hi := if hd_empty then skip - 1 else skip in
    let lo := if tl_empty then n - skip - 2 else n - skip - 1 in
    (part_word <$> take hi ps) ++ replicate (8 - (hi + lo)) 0%N ++ (part_word <$> drop (n - lo) ps)
  end.
Definition ipv6_value (s : pystr) : N :=
  let ps := split_on colon s in
  match last ps with
  | Some p =>
    if has_char dot p then
      let v := ipv4_value p in be_value 65536 (ipv6_words (removelast ps ++ [hex_word (v / 65536); hex_word (v mod 65536)]))
    else be_value 65536 (ipv6_words ps)
  | None => 0%N
  end.
Definition ip_address (s : pystr) : option ip_addr :=
  if has_char 47 s then None
  else if ipv4_text s then Some (V4 (ipv4_value s))
  else match split_on 37 s with
       | [addr] => if ipv6_text addr then Some (V6 (ipv6_value addr) None) else None
       | [addr; scope] => if negb (is_empty_str scope) && ipv6_text addr then Some (V6 (ipv6_value addr) (Some scope)) else None
       | _ => None
       end.
Lemma ip_address_accepts s : is_Some (ip_address s) ↔ ip_address_ok s = true.
Proof.
  unfold ip_address, ip_address_ok. destruct (has_char 47 s); cbn [negb andb]; [by split; [intros [? ?]|]|].
  destruct (ipv4_text s); cbn [orb]; [by split; [|eexists]|]. repeat case_match; split; try done; try (by intros [? ?]); by eexists.
Qed.

(** The longest run of ["0"] parts: its start and length, with those of the
    run that is read. *)
Record zero_run := mkRun { zr_best : nat; zr_best_len : nat; zr_start : option nat; zr_len : nat; zr_index : nat }.
Definition scan_zero (r : zero_run) (h : pystr) : zero_run :=
  if h =s [48%N] then
    let len := S (zr_len r) in
    let start := default (zr_index r) (zr_start r) in
    if zr_best_len r <? len then mkRun start len (Some start) len (S (zr_index r)) else mkRun (zr_best r) (zr_best_len r) (Some start) len (S (zr_index r))
  else mkRun (zr_best r) (zr_best_len r) None 0 (S (zr_index r)).
Definition _compress_hextets (hs : list pystr) : list pystr :=
  let r := foldl scan_zero (mkRun 0 0 None 0 0) hs in
  if 1 <? zr_best_len r then
    let stop := zr_best r + zr_best_len r in
    (if zr_best r =? 0 then [[]] else []) ++ take (zr_best r) hs ++ [[]] ++ drop stop hs ++ (if stop =? length hs then [[]] else [])
  else hs.
(** Of an address without scope that is not IPv4-mapped. *)
Definition ipv6_str (a : N) : pystr := join [colon] (_compress_hextets (hex_word <$> be_words 8 65536 a)).
Definition ip_str (a : ip_addr) : pystr :=
  match a with
  | V4 a => ipv4_str a
  | V6 a None => ipv6_str a
  | V6 a (Some scope) => ipv6_str a ++ 37%N :: scope
  end.
Definition in_width (a : ip_addr) : Prop := match a with V4 a => (a < 2 ^ 32)%N | V6 a _ => (a < 2 ^ 128)%N end.

Example ip_round :
  ip_str <$> omap ip_address [u "8.8.8.8"; u "2001:DB8:0:0:1:0:0:1"; u "::"; u "::1"; u "1::"; u "0:1:0:0:0:2:0:0"; u "2a00:1::1.2.3.4"; u "1:0:2:3:4:5:6:7"]
  = [u "8.8.8.8"; u "2001:db8::1:0:0:1"; u "::"; u "::1"; u "1::"; u "0:1::2:0:0"; u "2a00:1::102:304"; u "1:0:2:3:4:5:6:7"].
Proof. vm_compute. reflexivity. Qed.

(** ** Printed addresses are read as themselves *)
Lemma split_join_on c ws : ws ≠ [] → Forall (λ w : pystr, c ∉ w) ws → split_on c (join [c] ws) = ws.
Proof.
  intros Hne Hc. induction Hc as [|w ws Hw Hc IH]; [done|]. destruct ws as [|w' ws]; [by apply split_on_none|].
  change (join [c] (w :: w' :: ws)) with (w ++ c :: join [c] (w' :: ws)). by rewrite split_on_app, IH.
Qed.
Lemma has_char_in c s : has_char c s = true ↔ c ∈ s.
Proof.
  unfold has_char. rewrite existsb_Exists. split; [intros (d & Hd & E)|intros Hc; exists c; split; [done|apply N.eqb_refl]].
  by apply N.eqb_eq in E as ->.
Qed.

(** What every octet and every word is printed as, by running through them. *)
Fixpoint from (n : nat) (a : N) : list N := match n with O => [] | S n => a :: from n (N.succ a) end.
Lemma elem_from n : ∀ a b, (a ≤ b < a + N.of_nat n)%N → b ∈ from n a.
Proof.
  induction n as [|n IH]; intros a b Hb; [lia|]. cbn [from]. destruct (decide (b = a)) as [->|Hne]; [apply list_elem_of_here|]. apply list_elem_of_further, IH. lia.
Qed.
Definition octet_ok (a : N) : bool :=
  ipv4_octet (dec a) && (digits_value (dec a) =? a)%N && forallb is_digit (dec a).
Lemma octets_ok : forallb octet_ok (from 256 0) = true.
Proof. vm_compute. reflexivity. Qed.
Lemma octet_spec a : (a < 256)%N → octet_ok a = true.
Proof. intros Ha. exact (proj1 (Forall_forall _ _) (proj1 (forallb_Forall _ _) octets_ok) a (elem_from 256 0 a ltac:(lia))). Qed.

Definition hex_digit_ok (d : N) : bool :=
  is_hex (hex_digit d) && (hex_digit_value (hex_digit d) =? d)%N && Bool.eqb (hex_digit d =? 48)%N (d =? 0)%N.
Lemma hex_digits_ok : forallb hex_digit_ok (from 16 0) = true.
Proof. vm_compute. reflexivity. Qed.
Lemma hex_digit_spec d : (d < 16)%N → is_hex (hex_digit d) = true ∧ hex_digit_value (hex_digit d) = d ∧ (hex_digit d = 48 ↔ d = 0)%N.
Proof.
  intros Hd. pose proof (proj1 (Forall_forall _ _) (proj1 (forallb_Forall _ _) hex_digits_ok) d (elem_from 16 0 d ltac:(lia))) as H. unfold hex_digit_ok in H.
  apply andb_true_iff in H as [[H1 H2]%andb_true_iff H3]. apply N.eqb_eq in H2. apply Bool.eqb_prop in H3. split_and!; [done|done|]. by rewrite <-!N.eqb_eq, H3.
Qed.
Lemma part_word_digits ds : Forall (λ d, d < 16)%N ds → part_word (hex_digit <$> ds) = be_value 16 ds.
Proof.
  unfold part_word, be_value. generalize 0%N. induction ds as [|d ds IH]; intros acc Hd; [done|]. apply Forall_cons in Hd as [Hd Hds]. cbn [fmap list_fmap foldl].
  destruct (hex_digit_spec d Hd) as (_ & -> & _). by apply IH.
Qed.
Lemma part_word_zeros s : part_word (lstrip_by (N.eqb 48) s) = part_word s.
Proof. induction s as [|c s IH]; [done|]. cbn [lstrip_by]. destruct (N.eqb_spec 48 c) as [<-|]; [|done]. rewrite IH. reflexivity. Qed.
Lemma lstrip_length f s : length (lstrip_by f s) ≤ length s.
Proof. induction s as [|c s IH]; [done|]. cbn [lstrip_by length]. destruct (f c); cbn [length]; lia. Qed.
Lemma lstrip_Forall (P : N → Prop) f s : Forall P s → Forall P (lstrip_by f s).
Proof. induction 1 as [|c s Hc Hs IH]; [constructor|]. cbn [lstrip_by]. destruct (f c); [done|by constructor]. Qed.

(** What a word is printed as: hexadecimal digits that give it back. *)
Record word_text (w : N) (s : pystr) : Prop := {
  wt_hextet : hextet s = true;
  wt_value : part_word s = w;
  wt_zero : s = [48%N] ↔ w = 0%N
}.
Lemma hex_word_spec w : (w < 65536)%N → word_text w (hex_word w).
Proof.
  intros Hw. pose proof (be_words_small 4 16 ltac:(done) w) as Hsmall. pose proof (length_be_words 4 16 w) as Hlen.
  pose proof (be_value_words 4 16 ltac:(done) w) as Hv. rewrite N.mod_small in Hv by exact Hw.
  pose proof (part_word_digits _ Hsmall) as Hp. rewrite Hv, <-part_word_zeros in Hp.
  pose proof (lstrip_length (N.eqb 48) (hex_digit <$> be_words 4 16 w)) as Hl. rewrite length_fmap, Hlen in Hl.
  assert (Hhex : Forall (λ c, is_hex c = true) (lstrip_by (N.eqb 48) (hex_digit <$> be_words 4 16 w))).
  { apply lstrip_Forall, Forall_fmap. eapply Forall_impl; [exact Hsmall|]. intros d Hd. apply (hex_digit_spec d Hd). }
  assert (Hvalue : part_word (hex_word w) = w) by (unfold hex_word; destruct (lstrip_by _ _); [exact Hp|exact Hp]).
  split; [|exact Hvalue|split; [|by intros ->]].
  - unfold hextet, hex_word. apply full_cls_spec. destruct (lstrip_by _ _) as [|c s]; [split_and!; [cbn; lia|intros ? [= <-]; cbn; lia|by repeat constructor]|].
    split_and!; [cbn in *; lia|intros ? [= <-]; exact Hl|exact Hhex].
  - intros E. rewrite E in Hvalue. by cbn in Hvalue.
Qed.

Lemma ipv4_roundtrip a : (a < 2 ^ 32)%N → ip_address (ipv4_str a) = Some (V4 a).
Proof.
  intros Ha. pose proof (be_words_small 4 256 ltac:(done) a) as Hsmall. pose proof (length_be_words 4 256 a) as Hlen.
  pose proof (be_value_words 4 256 ltac:(done) a) as Hv. rewrite N.mod_small in Hv by exact Ha.
  assert (Hok : Forall (λ w, octet_ok w = true) (be_words 4 256 a)) by (eapply Forall_impl; [exact Hsmall|exact octet_spec]).
  assert (Hdigits : Forall (λ w, Forall (λ c, is_digit c = true) w) (dec <$> be_words 4 256 a)).
  { apply Forall_fmap. eapply Forall_impl; [exact Hok|]. intros w Hw. unfold octet_ok in Hw. apply andb_true_iff in Hw as [_ Hw]. by apply forallb_Forall. }
  assert (Hsplit : split_on dot (ipv4_str a) = dec <$> be_words 4 256 a).
  { apply split_join_on; [by destruct (be_words 4 256 a)|]. eapply Forall_impl; [exact Hdigits|]. intros w Hw Hin. by apply (proj1 (Forall_forall _ _) Hw) in Hin. }
  assert (Hslash : has_char 47 (ipv4_str a) = false).
  { apply not_true_iff_false. rewrite has_char_in. unfold ipv4_str. intros Hin.
    assert (Hall : Forall (λ c, is_digit c = true ∨ c = dot) (join [dot] (dec <$> be_words 4 256 a))).
    { clear -Hdigits. induction Hdigits as [|w ws Hw Hws IH]; [constructor|]. destruct ws as [|w' ws]; [eapply Forall_impl; [exact Hw|auto]|].
      change (join [dot] (w :: w' :: ws)) with (w ++ dot :: join [dot] (w' :: ws)). apply Forall_app. split; [eapply Forall_impl; [exact Hw|auto]|constructor; auto]. }
    apply (proj1 (Forall_forall _ _) Hall) in Hin. by destruct Hin. }
  unfold ip_address. rewrite Hslash. assert (Htext : ipv4_text (ipv4_str a) = true).
  { unfold ipv4_text. fold dot. rewrite Hsplit, length_fmap, Hlen. apply andb_true_iff. split; [done|]. apply forallb_Forall, Forall_fmap.
    eapply Forall_impl; [exact Hok|]. intros w Hw. unfold octet_ok in Hw. apply andb_true_iff in Hw as [Hw _]. by apply andb_true_iff in Hw as [Hw _]. }
  rewrite Htext. unfold ipv4_value. rewrite Hsplit, <-list_fmap_compose. do 2 f_equal. rewrite <-Hv at 2. f_equal.
  rewrite <-(list_fmap_id (be_words 4 256 a)) at 2. apply list_fmap_ext. intros i w Hw. cbn. apply list_elem_of_lookup_2 in Hw. apply (proj1 (Forall_forall _ _) Hok) in Hw.
  unfold octet_ok in Hw. apply andb_true_iff in Hw as [Hw _]. apply andb_true_iff in Hw as [_ Hw]. by apply N.eqb_eq.
Qed.

(** ** The run of zeros that is left out *)
Definition zeros_at (hs : list pystr) (a n : nat) : Prop := ∀ j, a ≤ j < a + n → hs !! j = Some [48%N].
Record scanned (hs : list pystr) (r : zero_run) : Prop := {
  sc_index : zr_index r = length hs;
  sc_run : match zr_start r with Some s => s + zr_len r = length hs ∧ zeros_at hs s (zr_len r) | None => zr_len r = 0 end;
  sc_best : zr_best r + zr_best_len r ≤ length hs ∧ zeros_at hs (zr_best r) (zr_best_len r)
}.
Lemma zeros_snoc hs h a n : zeros_at hs a n → zeros_at (hs ++ [h]) a n.
Proof. intros Hz j Hj. by apply lookup_app_l_Some, Hz. Qed.
Lemma scan_zero_ok hs r h : scanned hs r → scanned (hs ++ [h]) (scan_zero r h).
Proof.
  intros [Hi Hr [Hb Hz]]. pose proof (length_app hs [h]) as Hlen. cbn in Hlen. unfold scan_zero.
  destruct (decide (h = [48%N])) as [->|Hne]; [rewrite bool_decide_eq_true_2 by done|rewrite bool_decide_eq_false_2 by done].
  - set (start := default (zr_index r) (zr_start r)).
    assert (Hs : start + S (zr_len r) = length hs + 1 ∧ zeros_at (hs ++ [[48%N]]) start (S (zr_len r))).
    { assert (start + zr_len r = length hs ∧ zeros_at hs start (zr_len r)) as [E Hrun].
      { unfold start. destruct (zr_start r); cbn [default]; [exact Hr|]. rewrite Hr. split; [lia|]. intros j Hj. lia. }
      split; [lia|]. intros j Hj. destruct (decide (j = length hs)) as [->|]; [by rewrite list_lookup_middle|]. apply lookup_app_l_Some, Hrun. lia. }
    destruct Hs as [Hs Hrun]. destruct (zr_best_len r <? S (zr_len r)); split; cbn [zr_index zr_start zr_len zr_best zr_best_len].
    all: split_and?; rewrite ?Hlen; try lia; try done; by apply zeros_snoc.
  - split; cbn; split_and?; rewrite ?Hlen; try lia; try done. by apply zeros_snoc.
Qed.
Lemma scan_ok hs : scanned hs (foldl scan_zero (mkRun 0 0 None 0 0) hs).
Proof.
  induction hs as [|h hs IH] using rev_ind; [split; cbn; [done|done|split; [lia|intros j Hj; lia]]|]. rewrite foldl_app. by apply scan_zero_ok.
Qed.
Lemma zeros_split hs a n : a + n ≤ length hs → zeros_at hs a n → hs = take a hs ++ replicate n [48%N] ++ drop (a + n) hs.
Proof.
  intros Hle Hz. rewrite <-(take_drop a hs) at 1. f_equal. rewrite <-(take_drop n (drop a hs)), drop_drop. f_equal.
  symmetry. apply replicate_as_elem_of. split; [rewrite length_take, length_drop; lia|].
  intros x Hx. apply list_elem_of_lookup in Hx as [j Hj]. apply lookup_take_Some in Hj as [Hj Hn]. rewrite lookup_drop, Hz in Hj by lia. congruence.
Qed.

(** The parts that are printed: all eight, or those around a run of zeros. *)
Inductive compressed : list pystr → list pystr → Prop :=
  | comp_all hs : compressed hs hs
  | comp_run a n b : 1 < n → compressed (a ++ replicate n [48%N] ++ b) ((match a with [] => [[]] | _ => [] end) ++ a ++ [[]] ++ b ++ (match b with [] => [[]] | _ => [] end)).
Lemma compress_spec hs : compressed hs (_compress_hextets hs).
Proof.
  unfold _compress_hextets. destruct (scan_ok hs) as [_ _ [Hle Hz]]. set (r := foldl scan_zero _ hs) in *. cbv zeta.
  destruct (1 <? zr_best_len r) eqn:E; [|constructor]. apply Nat.ltb_lt in E. pose proof (zeros_split hs _ _ Hle Hz) as Hhs. set (a := zr_best r) in *. set (n := zr_best_len r) in *.
  assert (Ha : (if a =? 0 then [[]] else []) = match take a hs with [] => [[] : pystr] | _ => [] end).
  { destruct (Nat.eqb_spec a 0) as [->|Hne]; [done|]. destruct (take a hs) eqn:Et; [|done]. apply (f_equal length) in Et. rewrite length_take in Et. cbn in Et. lia. }
  assert (Hb : (if a + n =? length hs then [[]] else []) = match drop (a + n) hs with [] => [[] : pystr] | _ => [] end).
  { destruct (Nat.eqb_spec (a + n) (length hs)) as [->|Hne]; [by rewrite drop_all|]. destruct (drop (a + n) hs) eqn:Et; [|done]. apply (f_equal length) in Et. rewrite length_drop in Et. cbn in Et. lia. }
  rewrite Ha, Hb. rewrite Hhs at 1. by constructor.
Qed.

(** ** Reading them *)
Lemma hextet_nonempty p : hextet p = true → p ≠ [].
Proof. intros H ->. discriminate. Qed.
Lemma count_empty_none ps : Forall (λ p, p ≠ []) ps → count_empty ps = 0.
Proof. intros H. unfold count_empty. by induction H as [|p ps Hp _ IH]; [|rewrite filter_cons_False]. Qed.
Lemma count_empty_app a b : count_empty (a ++ b) = count_empty a + count_empty b.
Proof. unfold count_empty. by rewrite filter_app, length_app. Qed.
Lemma first_empty_app a b : Forall (λ p, p ≠ []) a → first_empty (a ++ [] :: b) = length a.
Proof. induction 1 as [|p a Hp _ IH]; [done|]. cbn [app first_empty length]. destruct p; [done|]. cbn. by rewrite IH. Qed.
Lemma inner_parts (p q : pystr) m : take (length (p :: m ++ [q]) - 2) (drop 1 (p :: m ++ [q])) = m.
Proof. change (drop 1 (p :: m ++ [q])) with (m ++ [q]). cbn [length]. rewrite length_app. cbn [length]. replace (S (length m + 1) - 2) with (length m) by lia. by rewrite take_app_length. Qed.

(** What the parts are read as: words before and after the run. *)
Record reads_as (ps hs : list pystr) : Prop := {
  ra_parts : ipv6_parts ps = true;
  ra_words : ipv6_words ps = part_word <$> hs
}.
Lemma nonempty_parts ps : Forall (λ p, hextet p = true) ps → Forall (λ p, p ≠ []) ps.
Proof. intros H. eapply Forall_impl; [exact H|]. exact hextet_nonempty. Qed.
Lemma words_parts ps : Forall (λ p, p = [] ∨ hextet p = true) ps → forallb (λ p, is_empty_str p || hextet p) ps = true.
Proof. intros H. apply forallb_Forall. eapply Forall_impl; [exact H|]. intros p [->|Hp]; [done|by rewrite Hp, orb_true_r]. Qed.
Lemma last_inner (p q : pystr) m : last (p :: m ++ [q]) = Some q.
Proof. exact (last_snoc q (p :: m)). Qed.
Lemma reads_all hs : length hs = 8 → Forall (λ p, hextet p = true) hs → reads_as hs hs.
Proof.
  intros Hlen Hhex. pose proof (nonempty_parts _ Hhex) as Hne. destruct hs as [|p hs]; [done|]. destruct hs as [|q m _] using rev_ind; [done|].
  assert (Hm : count_empty m = 0) by (apply count_empty_none; by apply Forall_cons in Hne as [_ [Hne _]%Forall_app]).
  assert (Hp : is_empty_str p = false) by (apply Forall_cons in Hne as [Hp _]; by apply bool_decide_eq_false_2).
  assert (Hq : is_empty_str q = false) by (apply Forall_cons in Hne as [_ [_ [Hq _]%Forall_cons]%Forall_app]; by apply bool_decide_eq_false_2).
  split.
  - unfold ipv6_parts. rewrite inner_parts, last_inner, Hm, Hp, Hq, Hlen. rewrite words_parts; [done|]. eapply Forall_impl; [exact Hhex|auto].
  - unfold ipv6_words. by rewrite inner_parts, Hm.
Qed.
Lemma reads_run p q a b :
  Forall (λ p, hextet p = true) (a ++ b) → (p = [] ∧ a = [] ∨ hextet p = true) → (q = [] ∧ b = [] ∨ hextet q = true) →
  let before := match p with [] => [] | _ => p :: a end in
  let after := match q with [] => [] | _ => b ++ [q] end in
  length before + length after ≤ 6 →
  ipv6_parts (p :: (a ++ [[]] ++ b) ++ [q]) = true ∧
  ipv6_words (p :: (a ++ [[]] ++ b) ++ [q]) = (part_word <$> before) ++ replicate (8 - (length before + length after)) 0%N ++ (part_word <$> after).
Proof.
  intros Hhex Hp Hq before after Hle. pose proof (proj1 (Forall_app _ _ _) Hhex) as [Hha Hhb].
  pose proof (nonempty_parts _ Hha) as Hna. pose proof (nonempty_parts _ Hhb) as Hnb.
  assert (Hcount : count_empty (a ++ [[]] ++ b) = 1) by (by rewrite !count_empty_app, (count_empty_none a), (count_empty_none b)).
  assert (Hfirst : first_empty (a ++ [[]] ++ b) = length a) by (by apply first_empty_app).
  assert (Hlen : length (p :: (a ++ [[]] ++ b) ++ [q]) = length a + length b + 3) by (cbn; rewrite !length_app; cbn; lia).
  assert (Hwords : forallb (λ p, is_empty_str p || hextet p) (p :: (a ++ [[]] ++ b) ++ [q]) = true).
  { apply words_parts. assert (Hany : ∀ l : list pystr, Forall (λ p, hextet p = true) l → Forall (λ p, p = [] ∨ hextet p = true) l) by (intros l Hl; eapply Forall_impl; [exact Hl|auto]).
    apply Forall_cons. split; [destruct Hp as [[]|]; auto|]. rewrite !Forall_app. split_and!; [by apply Hany|by repeat constructor|by apply Hany|].
    apply Forall_cons. split; [destruct Hq as [[]|]; auto|constructor]. }
  assert (Hhd : ∀ s : pystr, hextet s = true → is_empty_str s = false) by (intros s Hs; apply bool_decide_eq_false_2; by apply hextet_nonempty).
  unfold ipv6_parts, ipv6_words. rewrite inner_parts, last_inner, Hcount, Hfirst, Hwords, Hlen. cbv zeta.
  assert (Hbefore : before = if is_empty_str p then [] else p :: a) by (by destruct p).
  assert (Hafter : after = if is_empty_str q then [] else b ++ [q]) by (by destruct q).
  clearbody before after. subst before after. destruct Hp as [[-> ->]|Hp]; [|rewrite (Hhd _ Hp) in *]; (destruct Hq as [[-> ->]|Hq]; [|rewrite (Hhd _ Hq) in *]); cbn [is_empty_str] in *.
  all: change (is_empty_str []) with true in *; cbv iota in *; rewrite ?length_app in *; cbn [length] in *.
  all: split; [repeat (apply andb_true_iff; split); first [reflexivity|apply Nat.leb_le; lia|apply Nat.eqb_eq; lia]|].
  - reflexivity.
  - replace (0 + length b + 3 - 1 - 1) with (length b + 1) by lia. replace (0 + length b + 3 - (length b + 1)) with 2 by lia. reflexivity.
  - replace (length a + 0 + 3 - S (length a) - 2) with 0 by lia. replace (length a + 0 + 3 - 0) with (length (p :: (a ++ [[]] ++ []) ++ [[]])) by (cbn [length]; rewrite !length_app; cbn; lia).
    rewrite drop_all. cbn [firstn]. rewrite <-app_assoc, take_app_length. reflexivity.
  - replace (length a + length b + 3 - S (length a) - 1) with (length b + 1) by lia. replace (length a + length b + 3 - (length b + 1)) with (S (S (length a))) by lia.
    cbn [firstn skipn]. rewrite <-!app_assoc, take_app_length. rewrite drop_app_ge by lia. replace (S (length a) - length a) with 1 by lia. reflexivity.
Qed.

Lemma reads_compressed hs ps : length hs = 8 → Forall (λ p, hextet p = true) hs → compressed hs ps → reads_as ps hs.
Proof.
  intros Hlen Hhex Hc. destruct Hc as [hs|a n b Hn]; [by apply reads_all|]. rewrite !length_app, length_replicate in Hlen.
  apply Forall_app in Hhex as [Ha Hhex]. apply Forall_app in Hhex as [_ Hb].
  assert (Hzero : part_word <$> replicate n [48%N] = replicate n 0%N) by (by rewrite fmap_replicate).
  assert (Hwords : part_word <$> a ++ replicate n [48%N] ++ b = (part_word <$> a) ++ replicate (8 - (length a + length b)) 0%N ++ (part_word <$> b)).
  { rewrite !fmap_app, Hzero. do 2 f_equal. f_equal. lia. }
  assert (Hends : ∀ (b : list pystr) q, match b ++ [q] with [] => [[] : pystr] | _ => [] end = []) by (by intros []).
  assert (Hfull : ∀ (q : pystr) (l : list pystr), hextet q = true → match q with [] => [] | _ => l end = l) by (by intros []).
  destruct a as [|p a]; destruct b as [|q b _] using rev_ind.
  - split; [reflexivity|]. rewrite Hwords. reflexivity.
  - apply Forall_app in Hb as [Hb Hq]. apply Forall_cons in Hq as [Hq _]. rewrite length_app in *. cbn [length] in *.
    destruct (reads_run [] q [] b Hb (or_introl (conj eq_refl eq_refl)) (or_intror Hq)) as [H1 H2]; rewrite (Hfull q) in * by done; [cbn; rewrite length_app; cbn; lia|].
    rewrite Hends. cbn [app] in *. rewrite app_nil_r. split; [exact H1|]. rewrite H2, Hwords. cbn [length fmap list_fmap app]. by rewrite length_app.
  - apply Forall_cons in Ha as [Hp Ha]. cbn [length] in *.
    destruct (reads_run p [] a [] ltac:(by rewrite app_nil_r) (or_intror Hp) (or_introl (conj eq_refl eq_refl))) as [H1 H2]; rewrite (Hfull p) in * by done; [cbn; lia|].
    cbn [app] in *. rewrite <-app_assoc in *. cbn [app] in *. split; [exact H1|]. rewrite H2, Hwords. reflexivity.
  - apply Forall_cons in Ha as [Hp Ha]. apply Forall_app in Hb as [Hb Hq]. apply Forall_cons in Hq as [Hq _]. rewrite length_app in *. cbn [length] in *.
    destruct (reads_run p q a b ltac:(by apply Forall_app) (or_intror Hp) (or_intror Hq)) as [H1 H2]; rewrite (Hfull p), (Hfull q) in * by done; [cbn; rewrite length_app; cbn; lia|].
    rewrite Hends. cbn [app] in *. rewrite app_nil_r. rewrite <-app_assoc in *. cbn [app] in *. split; [exact H1|]. rewrite H2, Hwords. cbn [length]. by rewrite length_app.
Qed.

Lemma parts_forms ps : ipv6_parts ps = true → ps ≠ [] ∧ Forall (Forall (λ c, is_hex c = true)) ps.
Proof.
  unfold ipv6_parts. intros H. apply andb_true_iff in H as [H _]. apply andb_true_iff in H as [H Hw]. apply andb_true_iff in H as [Hl _]. apply Nat.leb_le in Hl.
  split; [intros ->; cbn in Hl; lia|]. apply forallb_Forall in Hw. eapply Forall_impl; [exact Hw|]. intros p [Hp|Hp]%orb_true_iff; [apply bool_decide_eq_true in Hp as ->; constructor|].
  by apply full_cls_spec in Hp as (_ & _ & ?).
Qed.
Lemma ipv6_roundtrip a : (a < 2 ^ 128)%N → ip_address (ipv6_str a) = Some (V6 a None).
Proof.
  intros Ha. pose proof (be_words_small 8 65536 ltac:(done) a) as Hsmall. pose proof (length_be_words 8 65536 a) as Hlen.
  pose proof (be_value_words 8 65536 ltac:(done) a) as Hv. rewrite N.mod_small in Hv by exact Ha.
  assert (Hhex : Forall (λ p, hextet p = true) (hex_word <$> be_words 8 65536 a)).
  { apply Forall_fmap. eapply Forall_impl; [exact Hsmall|]. intros w Hw. apply (hex_word_spec w Hw). }
  assert (Hvalues : part_word <$> (hex_word <$> be_words 8 65536 a) = be_words 8 65536 a).
  { rewrite <-list_fmap_compose. apply fmap_fixed. eapply Forall_impl; [exact Hsmall|]. intros w Hw. apply (hex_word_spec w Hw). }
  pose proof (compress_spec (hex_word <$> be_words 8 65536 a)) as Hc. unfold ipv6_str. set (ps := _compress_hextets (hex_word <$> be_words 8 65536 a)) in *.
  assert (Hl8 : length (hex_word <$> be_words 8 65536 a) = 8) by (by rewrite length_fmap).
  destruct (reads_compressed _ ps Hl8 Hhex Hc) as [Hparts Hwords]. rewrite Hvalues in Hwords. destruct (parts_forms _ Hparts) as [Hne Hforms].
  assert (Hchars : Forall (λ c, is_hex c = true ∨ c = colon) (join [colon] ps)).
  { apply Forall_join; [by right|]. eapply Forall_impl; [exact Hforms|]. intros p Hp. eapply Forall_impl; [exact Hp|auto]. }
  assert (Hno : ∀ c, is_hex c = false → c ≠ colon → c ∉ join [colon] ps).
  { intros c Hc1 Hc2 Hin. apply (proj1 (Forall_forall _ _) Hchars) in Hin as [|]; congruence. }
  assert (Hsplit : split_on colon (join [colon] ps) = ps).
  { apply split_join_on; [done|]. eapply Forall_impl; [exact Hforms|]. intros p Hp Hin. by apply (proj1 (Forall_forall _ _) Hp) in Hin. }
  assert (Hlast : ∃ p, last ps = Some p ∧ has_char dot p = false).
  { destruct (last ps) as [p|] eqn:E; [|by apply last_None in E]. exists p. split; [done|]. apply last_Some_elem_of in E.
    apply not_true_iff_false. rewrite has_char_in. intros Hin. apply (proj1 (Forall_forall _ _) Hforms) in E. by apply (proj1 (Forall_forall _ _) E) in Hin. }
  destruct Hlast as (p & Hp & Hdot).
  assert (Hslash : has_char 47 (join [colon] ps) = false) by (apply not_true_iff_false; rewrite has_char_in; by apply Hno).
  unfold ip_address. rewrite Hslash. unfold ipv4_text at 1. rewrite (split_on_none 46) by (by apply Hno). cbn [length Nat.eqb andb].
  rewrite (split_on_none 37) by (by apply Hno). unfold ipv6_text, ipv6_value. fold colon dot. by rewrite Hsplit, Hp, Hdot, Hparts, Hwords, Hv.
Qed.
Definition unscoped (a : ip_addr) : bool := match a with V6 _ (Some _) => false | _ => true end.
Lemma ip_address_str a : in_width a → unscoped a = true → ip_address (ip_str a) = Some a.
Proof. destruct a as [a|a [s|]]; intros Ha Hs; [by apply ipv4_roundtrip|done|by apply ipv6_roundtrip]. Qed.

(** What is parsed has the width of its version. *)
Lemma be_value_bound base ws : (0 < base)%N → Forall (λ w, w < base)%N ws → (be_value base ws < base ^ N.of_nat (length ws))%N.
Proof.
  intros Hb. induction ws as [|w ws IH] using rev_ind; intros Hw; [cbn; lia|]. apply Forall_app in Hw as [Hws [Hw _]%Forall_cons]. unfold be_value in *.
  rewrite foldl_app, length_app. cbn [foldl length]. rewrite Nat.add_1_r, Nat2N.inj_succ, N.pow_succ_r'. specialize (IH Hws). nia.
Qed.
Lemma octet_bound s : ipv4_octet s = true → (digits_value s < 256)%N.
Proof. unfold ipv4_octet. intros [_ H]%andb_true_iff. apply N.leb_le in H. lia. Qed.
Lemma ipv4_width s : ipv4_text s = true → (ipv4_value s < 2 ^ 32)%N.
Proof.
  unfold ipv4_text, ipv4_value. fold dot. intros [Hl Ho]%andb_true_iff. apply Nat.eqb_eq in Hl. apply forallb_Forall in Ho.
  pose proof (be_value_bound 256 (digits_value <$> split_on dot s) ltac:(lia)) as H. rewrite length_fmap, Hl in H. apply H.
  apply Forall_fmap. eapply Forall_impl; [exact Ho|exact octet_bound].
Qed.
Lemma hex_value_bound c : is_hex c = true → (hex_digit_value c < 16)%N.
Proof. unfold is_hex, is_hex_lower, hex_digit_value, is_digit, is_lower_az, in_range. intros H. autorewrite with py in H. repeat case_match; autorewrite with py in *; lia. Qed.
Lemma part_bound p : p = [] ∨ hextet p = true → (part_word p < 65536)%N.
Proof.
  intros [->|Hp]; [done|]. apply full_cls_spec in Hp as (_ & Hl & Hx). specialize (Hl 4 eq_refl).
  assert (Hv : part_word p = be_value 16 (hex_digit_value <$> p)) by (unfold part_word, be_value; by rewrite foldl_fmap).
  rewrite Hv. assert (Hd : Forall (λ w, w < 16)%N (hex_digit_value <$> p)) by (apply Forall_fmap; eapply Forall_impl; [exact Hx|exact hex_value_bound]).
  pose proof (be_value_bound 16 _ ltac:(lia) Hd) as H. rewrite length_fmap in H. eapply N.lt_le_trans; [exact H|]. change 65536%N with (16 ^ 4)%N. apply N.pow_le_mono_r; lia.
Qed.
Lemma first_empty_le ps : first_empty ps ≤ length ps.
Proof. induction ps as [|p ps IH]; [done|]. cbn [first_empty length]. destruct (is_empty_str p); lia. Qed.
(** Eight words, each of sixteen bits. *)
Lemma words_bound ps : ipv6_parts ps = true → length (ipv6_words ps) = 8 ∧ Forall (λ w, w < 65536)%N (ipv6_words ps).
Proof.
  unfold ipv6_parts, ipv6_words. cbv zeta. set (inner := take _ _). set (hd := match ps with [] => false | p :: _ => is_empty_str p end).
  set (tl := match last ps with Some p => is_empty_str p | None => false end). intros H. apply andb_true_iff in H as [H Hc]. apply andb_true_iff in H as [H Hw].
  apply andb_true_iff in H as [Hl1 Hl2]. apply Nat.leb_le in Hl1, Hl2. apply forallb_Forall in Hw.
  assert (Hsmall : Forall (λ p, part_word p < 65536)%N ps).
  { eapply Forall_impl; [exact Hw|]. intros p Hp. apply part_bound. apply orb_true_iff in Hp as [Hp|Hp]; [left; by apply bool_decide_eq_true in Hp|by right]. }
  destruct (count_empty inner) as [|[|k]]; [| |done].
  - apply andb_true_iff in Hc as [[Hc _]%andb_true_iff _]. apply Nat.eqb_eq in Hc. rewrite length_fmap. split; [done|by apply Forall_fmap].
  - apply andb_true_iff in Hc as [[H1 H2]%andb_true_iff H3]. apply Nat.leb_le in H3.
    set (hi := if hd then S (first_empty inner) - 1 else S (first_empty inner)) in *. set (lo := if tl then length ps - S (first_empty inner) - 2 else length ps - S (first_empty inner) - 1) in *.
    assert (Hf : first_empty inner ≤ length ps - 2) by (etransitivity; [apply first_empty_le|unfold inner; rewrite length_take; lia]).
    rewrite !length_app, !length_fmap, length_replicate, length_take, length_drop. split; [|].
    + assert (hi + lo ≤ length ps) by (unfold hi, lo; destruct hd, tl; lia). lia.
    + rewrite !Forall_app, !Forall_fmap. split_and!; [by apply Forall_take|by apply Forall_replicate|by apply Forall_drop].
Qed.
Lemma parts_tail ps a b c d : Forall (λ p, hextet p = true) [a; b; c; d] → ipv6_parts (ps ++ [a; b]) = ipv6_parts (ps ++ [c; d]).
Proof.
  intros H. pose proof (nonempty_parts _ H) as Hne. rewrite !Forall_cons in H, Hne. destruct H as (Ha & Hb & Hc & Hd & _), Hne as (Na & Nb & Nc & Nd & _).
  assert (Hempty : ∀ p : pystr, p ≠ [] → is_empty_str p = false) by (intros p Hp; by apply bool_decide_eq_false_2).
  destruct ps as [|x ps]; [done|].
  assert (Hshape : ∀ a b : pystr, (x :: ps) ++ [a; b] = x :: (ps ++ [a]) ++ [b]) by (intros; cbn; by rewrite <-app_assoc).
  rewrite !Hshape. unfold ipv6_parts. rewrite !inner_parts, !last_inner. cbn [length]. rewrite !length_app. cbn [length forallb]. rewrite !forallb_app. cbn [forallb].
  rewrite Ha, Hb, Hc, Hd, !orb_true_r, !andb_true_r. rewrite (Hempty b), (Hempty d) by done.
  assert (Hcount : count_empty (ps ++ [a]) = count_empty (ps ++ [c])) by (rewrite !count_empty_app, !(count_empty_none [_]); repeat constructor; done).
  assert (Hfirst : first_empty (ps ++ [a]) = first_empty (ps ++ [c])).
  { clear -Na Nc Hempty. induction ps as [|p ps IH]; cbn [app first_empty]; [by rewrite !Hempty|]. by rewrite IH. }
  by rewrite Hcount, Hfirst.
Qed.
Lemma ipv6_width s : ipv6_text s = true → (ipv6_value s < 2 ^ 128)%N.
Proof.
  unfold ipv6_text, ipv6_value. fold colon dot. intros H. destruct (last (split_on colon s)) as [p|]; [|done].
  assert (Hbound : ∀ ps, ipv6_parts ps = true → (be_value 65536 (ipv6_words ps) < 2 ^ 128)%N).
  { intros ps Hps. destruct (words_bound ps Hps) as [Hl Hw]. pose proof (be_value_bound 65536 _ ltac:(lia) Hw) as Hb. by rewrite Hl in Hb. }
  destruct (has_char dot p); [|by apply Hbound]. apply andb_true_iff in H as [[_ H4]%andb_true_iff H6]. apply Hbound. pose proof (ipv4_width p H4) as Hv.
  assert (Hhi : (ipv4_value p / 65536 < 65536)%N) by (apply N.Div0.div_lt_upper_bound; exact Hv).
  assert (Hlo : (ipv4_value p mod 65536 < 65536)%N) by (by apply N.mod_lt).
  rewrite <-H6. apply parts_tail. repeat constructor; by apply hex_word_spec.
Qed.
Lemma ip_address_width s a : ip_address s = Some a → in_width a.
Proof.
  unfold ip_address. destruct (has_char 47 s); [done|]. destruct (ipv4_text s) eqn:E4; [intros [= <-]; by apply ipv4_width|].
  repeat case_match; try done; intros [= <-]; cbn; apply ipv6_width; [done|]. by apply andb_true_iff in H2 as [_ ?].
Qed.

Lemma ip_address_unscoped s a : has_char 37 s = false → ip_address s = Some a → unscoped a = true.
Proof.
  intros Hs. assert (Hno : 37%N ∉ s) by (intros Hin; apply has_char_in in Hin; congruence). unfold ip_address. rewrite (split_on_none 37) by done.
  repeat case_match; try done; by intros [= <-].
Qed.

(** ** Classification *)
Definition network : Type := N * N.
Definition net4 (text : string) (len : N) : network := (ipv4_value (u text), len).
Definition net6 (text : string) (len : N) : network := (ipv6_value (u text), len).
Definition in_net (bits a : N) (n : network) : bool := (a / 2 ^ (bits - n.2) =? n.1 / 2 ^ (bits - n.2))%N.
Definition within4 (a : N) : list network → bool := existsb (in_net 32 a).
Definition within6 (a : N) : list network → bool := existsb (in_net 128 a).

Definition private4 : list network := [net4 "0.0.0.0" 8; net4 "10.0.0.0" 8; net4 "127.0.0.0" 8; net4 "169.254.0.0" 16; net4 "172.16.0.0" 12;
  net4 "192.0.0.0" 24; net4 "192.0.0.170" 31; net4 "192.0.2.0" 24; net4 "192.168.0.0" 16; net4 "198.18.0.0" 15; net4 "198.51.100.0" 24;
  net4 "203.0.113.0" 24; net4 "240.0.0.0" 4; net4 "255.255.255.255" 32].
Definition private4_exceptions : list network := [net4 "192.0.0.9" 32; net4 "192.0.0.10" 32].
Definition private6 : list network := [net6 "::1" 128; net6 "::" 128; net6 "::ffff:0:0" 96; net6 "64:ff9b:1::" 48; net6 "100::" 64; net6 "2001::" 23;
  net6 "2001:db8::" 32; net6 "2002::" 16; net6 "fc00::" 7; net6 "fe80::" 10].
Definition private6_exceptions : list network := [net6 "2001:1::1" 128; net6 "2001:1::2" 128; net6 "2001:3::" 32; net6 "2001:4:112::" 48;
  net6 "2001:20::" 28; net6 "2001:30::" 28].
Definition reserved6 : list network := [net6 "::" 8; net6 "100::" 8; net6 "200::" 7; net6 "400::" 6; net6 "800::" 5; net6 "1000::" 4; net6 "4000::" 3;
  net6 "6000::" 3; net6 "8000::" 3; net6 "A000::" 3; net6 "C000::" 3; net6 "E000::" 4; net6 "F000::" 5; net6 "F800::" 6; net6 "FE00::" 9].

(** The tables of every release that the source accepts agree, but for ranges
    that later ones add to the private ones of IPv6. *)
Class IanaAdded := iana_added : list network.
Section classification.
Context `{IanaAdded}.
Definition is_private (a : ip_addr) : bool :=
  match a with
  | V4 a => within4 a private4 && negb (within4 a private4_exceptions)
  | V6 a _ => (within6 a private6 || within6 a iana_added) && negb (within6 a private6_exceptions)
  end.
Definition is_global (a : ip_addr) : bool :=
  match a with V4 n => negb (within4 n [net4 "100.64.0.0" 10]) && negb (is_private a) | V6 _ _ => negb (is_private a) end.
Definition is_multicast (a : ip_addr) : bool := match a with V4 a => within4 a [net4 "224.0.0.0" 4] | V6 a _ => within6 a [net6 "ff00::" 8] end.
Definition is_loopback (a : ip_addr) : bool := match a with V4 a => within4 a [net4 "127.0.0.0" 8] | V6 a _ => (a =? 1)%N end.
Definition is_link_local (a : ip_addr) : bool := match a with V4 a => within4 a [net4 "169.254.0.0" 16] | V6 a _ => within6 a [net6 "fe80::" 10] end.
Definition is_reserved (a : ip_addr) : bool := match a with V4 a => within4 a [net4 "240.0.0.0" 4] | V6 a _ => within6 a reserved6 end.
Definition is_unspecified (a : ip_addr) : bool := match a with V4 a => (a =? 0)%N | V6 a _ => (a =? 0)%N end.
(** [address.ipv4_mapped is not None] *)
Definition is_mapped (a : N) : bool := (a / 2 ^ 32 =? 65535)%N.
End classification.
