(* ===== verification/Destination.v ===== *)
(** * Destinations ([src/src/icode/network_destination.py])

    Host names are resolved to numeric addresses, all of which must pass
    [_is_global_unicast]; [routable] bounds numerically what passes, and
    [resolved_targets_pinned] says what the connector may rely on.  The test is
    what the code does, not what its docstring promises: it lets the deprecated
    site-local range of IPv6 through ([site_local_accepted]). *)

From S2P Require Import Prelude PyText PyVal SandboxPolicy NetworkLease ConnectRequest IpAddress.

Definition NDE (msg : string) : exn := NetworkDestinationError msg.

(** [socket]'s constants (Linux). *)
Definition AF_INET : Z := 2.
Definition AF_INET6 : Z := 10.
Definition SOCK_STREAM : Z := 1.
Definition IPPROTO_TCP : Z := 6.
(** A socket address, by its family. *)
Inductive sockaddr := Inet (host : pystr) (port : Z) | Inet6 (host : pystr) (port flowinfo scope_id : Z).
Definition sa_host (s : sockaddr) : pystr := match s with Inet h _ | Inet6 h _ _ _ => h end.
Definition sa_port (s : sockaddr) : Z := match s with Inet _ p | Inet6 _ p _ _ => p end.
Record ResolvedNetworkTarget := mkTarget { rt_family : Z; rt_socket_type : Z; rt_protocol : Z; rt_sockaddr : sockaddr }.
#[export] Instance sockaddr_eq_dec : EqDecision sockaddr.
Proof. solve_decision. Defined.
#[export] Instance target_eq_dec : EqDecision ResolvedNetworkTarget.
Proof. solve_decision. Defined.

(** Of [sys.version_info], as far as it is looked at. *)
Definition _supports_safe_ipaddress_classification (version : pyval) : bool :=
  match version with
  | PyTuple [PyInt major; PyInt minor; PyInt micro; PyStr level] =>
    (level =s u "final")
    && (((3 <? major) || ((3 =? major) && (13 <=? minor) && ((13 <? minor) || (0 <=? micro))))%Z
        || ((major =? 3) && (minor =? 12) && (4 <=? micro))%Z || ((major =? 3) && (minor =? 11) && (10 <=? micro))%Z)
  | _ => false
  end.

Section destination.
Context `{IanaAdded}.
Definition _is_global_unicast (a : ip_addr) : bool :=
  if (match a with V6 n _ => is_mapped n | V4 _ => false end) then false
  else is_global a && negb (is_private a) && negb (is_loopback a) && negb (is_link_local a) && negb (is_multicast a) && negb (is_reserved a) && negb (is_unspecified a).

(** [isinstance(v, int) and not isinstance(v, bool)] *)
Definition plain_int (v : pyval) : option Z := match v with PyInt z => Some z | _ => None end.
(** One answer of the resolver. *)
Definition check_address (port : Z) (family : Z) (parts : list pyval) : result ResolvedNetworkTarget :=
  raise_if (negb (length parts =? (if (family =? AF_INET)%Z then 2 else 4))) (NDE "DNS returned an invalid IP socket address") ;;
  match parts with
  | PyStr text :: PyInt address_port :: more =>
    raise_if (negb (address_port =? port)%Z || has_char 37 text) (NDE "DNS returned an invalid or scoped IP address") ;;
    match ip_address text with
    | None => Err (NDE "DNS returned a non-numeric IP address")
    | Some a =>
      raise_if (negb (match a with V4 _ => (family =? AF_INET)%Z | V6 _ _ => negb (family =? AF_INET)%Z end) || negb (_is_global_unicast a)) (NDE "DNS resolved to a non-public IP address") ;;
      if (family =? AF_INET)%Z then Ok (mkTarget family SOCK_STREAM IPPROTO_TCP (Inet (ip_str a) port))
      else match more with
           | [PyInt 0%Z; PyInt 0%Z] => Ok (mkTarget family SOCK_STREAM IPPROTO_TCP (Inet6 (ip_str a) port 0 0))
           | _ => Err (NDE "DNS returned a scoped or altered IPv6 address")
           end
    end
  | _ => Err (NDE "DNS returned an invalid IP socket address")
  end.
Definition check_answer (port : Z) (answer : pyval) : result ResolvedNetworkTarget :=
  match answer with
  | PyTuple [family; socket_type; protocol; _; address] =>
    match family, socket_type, protocol, address with
    | PyInt f, PyInt s, PyInt p, PyTuple parts =>
      if (((f =? AF_INET) || (f =? AF_INET6)) && (s =? SOCK_STREAM) && ((p =? 0) || (p =? IPPROTO_TCP)))%Z then check_address port f parts
      else Err (NDE "DNS returned a non-TCP or unsupported destination")
    | _, _, _, _ => Err (NDE "DNS returned a non-TCP or unsupported destination")
    end
  | _ => Err (NDE "DNS returned a malformed TCP destination")
  end.
(** The targets so far, each once. *)
Definition add_target (port : Z) (targets : list ResolvedNetworkTarget) (answer : pyval) : result (list ResolvedNetworkTarget) :=
  t ← check_answer port answer;
  Ok (if bool_decide (t ∈ targets) then targets else targets ++ [t]).
Definition answer_items (answers : pyval) : option (list pyval) := match answers with PyList l | PyTuple l => Some l | _ => None end.

Context {W : Type} (resolve : pystr → Z → W → result pyval * W) (version_info : pyval).
Definition resolve_public_tcp_targets (hostname port : pyval) (w : W) : result (list ResolvedNetworkTarget) * W :=
  match hostname with
  | PyStr name =>
    if negb (is_exact_dns_hostname name) then (Err (NDE "hostname must be an exact ASCII DNS name"), w)
    else if negb (bool_decide (as_exact_int port = Some HTTPS_PORT)) then (Err (NDE "network destinations currently require HTTPS port 443"), w)
    else if negb (_supports_safe_ipaddress_classification version_info) then (Err (NDE "Python runtime is too old for safe IANA special-range classification"), w)
    else
      match resolve (lower name ++ u ".") HTTPS_PORT w with
      | (Err OSError, w) => (Err (NDE "DNS resolution failed"), w)
      | (Err e, w) => (Err e, w)
      | (Ok answers, w) =>
        (match answer_items answers with
         | None | Some [] => Err (NDE "DNS returned no usable TCP destinations")
         | Some items =>
           targets ← foldM_res (add_target HTTPS_PORT) [] items;
           match targets with [] => Err (NDE "DNS returned no usable TCP destinations") | _ => Ok targets end
         end, w)
      end
  | _ => (Err (NDE "hostname must be an exact ASCII DNS name"), w)
  end.
End destination.

(** ** What passes the test *)
(** 10/8, 127/8, 100.64/10, 172.16/12, 169.254/16, 192.168/16, 198.18/15,
    192.0.2/24, 198.51.100/24 and 203.0.113/24, by their leading bits. *)
Definition special4 : list (N * N) := [(24, 10); (24, 127); (22, 401); (20, 2753); (16, 43518); (16, 49320); (17, 25353); (8, 12582914); (8, 12989284); (8, 13303921)]%N.
(** Numerically: of IPv4 what is below 224.0.0.0, not in 0/8 and not in the ranges
    of [special4]; of IPv6 what is in 2000::/3, without 2002::/16 (6to4) and
    2001:db8::/32 (documentation), or in fec0::/10, the site-local range that is
    deprecated and special-purpose. *)
Definition routable (a : ip_addr) : Prop :=
  match a with
  | V4 n => (0 < n / 2 ^ 24 < 224)%N ∧ Forall (λ p, n / 2 ^ p.1 ≠ p.2)%N special4
  | V6 n _ => ((n / 2 ^ 125 = 1 ∨ n / 2 ^ 118 = 1019) ∧ n / 2 ^ 112 ≠ 8194 ∧ n / 2 ^ 96 ≠ 536939960)%N
  end.
(** The networks of at most ten bits, by these bits. *)
Definition short_nets : list network := reserved6 ++ [net6 "fc00::" 7; net6 "fe80::" 10; net6 "ff00::" 8].
Definition prefix (n : network) : N * N := (10 - n.2, n.1 / 2 ^ (128 - n.2))%N.
Definition has_prefix (y : N) (p : N * N) : bool := (y / 2 ^ p.1 =? p.2)%N.
Lemma in_short_net a n : n ∈ short_nets → in_net 128 a n = has_prefix (a / 2 ^ 118) (prefix n).
Proof.
  intros Hn. assert (Hl : (n.2 ≤ 10)%N) by (revert n Hn; apply Forall_forall; by_compute). unfold in_net, has_prefix, prefix. cbn [fst snd]. f_equal.
  rewrite N.Div0.div_div, <-N.pow_add_r. do 2 f_equal. lia.
Qed.
Definition top_ok (nets : list (N * N)) (y : N) : bool := existsb (has_prefix y) nets || (y / 128 =? 1)%N || (y =? 1019)%N.
Definition tops_checked (nets : list (N * N)) : bool := forallb (top_ok nets) (from 1024 0).
Lemma tops_ok : tops_checked (prefix <$> short_nets) = true.
Proof. vm_compute. reflexivity. Qed.

Lemma none_within {A} (f : A → bool) l : existsb f l = false → ∀ x, x ∈ l → f x = false.
Proof. by rewrite existsb_none, Forall_forall. Qed.
Lemma outside_short a : within6 a reserved6 = false → within6 a [net6 "fc00::" 7; net6 "fe80::" 10; net6 "ff00::" 8] = false → (a < 2 ^ 128)%N →
  (a / 2 ^ 125 = 1 ∨ a / 2 ^ 118 = 1019)%N.
Proof.
  intros Hr Hp Hw. assert (Hy : (a / 2 ^ 118 < 1024)%N) by (apply N.Div0.div_lt_upper_bound; exact Hw).
  pose proof tops_ok as Hok. unfold tops_checked in Hok. apply forallb_Forall in Hok. rewrite Forall_forall in Hok.
  specialize (Hok _ (elem_from 1024 0 _ (conj (N.le_0_l _) Hy))). unfold top_ok in Hok.
  assert (Hnone : existsb (has_prefix (a / 2 ^ 118)) (prefix <$> short_nets) = false).
  { apply existsb_none, Forall_fmap, Forall_forall. intros n Hn. cbn [compose]. rewrite <-in_short_net by done.
    apply elem_of_app in Hn as [Hn|Hn]; [exact (none_within _ _ Hr n Hn)|exact (none_within _ _ Hp n Hn)]. }
  rewrite Hnone in Hok. cbn [orb] in Hok. apply orb_true_iff in Hok as [Hok|Hok]; apply N.eqb_eq in Hok; [left|by right].
  rewrite N.Div0.div_div in Hok. exact Hok.
Qed.

(** A test of the form [a / 2^k = v], of a table. *)
Lemma outside4 a nets : within4 a nets = false → Forall (λ n, a / 2 ^ (32 - n.2) ≠ n.1 / 2 ^ (32 - n.2))%N nets.
Proof. unfold within4. rewrite existsb_none. intros Hf. eapply Forall_impl; [exact Hf|]. intros n Hn. by apply N.eqb_neq in Hn. Qed.
Definition evaluated (nets : list network) : list (N * N) := (λ n, (32 - n.2, n.1 / 2 ^ (32 - n.2)))%N <$> nets.
Lemma outside4_values a nets : within4 a nets = false → Forall (λ p, a / 2 ^ p.1 ≠ p.2)%N (evaluated nets).
Proof. intros Hn. apply Forall_fmap. exact (outside4 _ _ Hn). Qed.

Lemma below_multicast x : (x < 256 → x ≠ 0 → x / 16 ≠ 14 → x / 16 ≠ 15 → 0 < x < 224)%N.
Proof. pose proof (N.div_mod x 16 ltac:(done)). pose proof (N.mod_lt x 16 ltac:(done)). generalize dependent (x mod 16)%N. generalize dependent (x / 16)%N. lia. Qed.
Lemma routable4 a : (a < 2 ^ 32)%N → within4 a private4 = false → within4 a [net4 "224.0.0.0" 4; net4 "100.64.0.0" 10] = false → routable (V4 a).
Proof.
  intros Hw Hp Hm. apply outside4_values in Hp, Hm. vm_compute (evaluated private4) in Hp. vm_compute (evaluated _) in Hm.
  repeat (apply Forall_cons in Hp as [? Hp]). repeat (apply Forall_cons in Hm as [? Hm]). cbn [fst snd] in *.
  split; [|repeat (apply Forall_cons; split; [assumption|]); apply Forall_nil_2].
  assert (Hdiv : (a / 2 ^ 28 = a / 2 ^ 24 / 16)%N) by (rewrite N.Div0.div_div; reflexivity).
  apply below_multicast; rewrite <-?Hdiv; try assumption. apply N.Div0.div_lt_upper_bound. exact Hw.
Qed.
Lemma routable_exception a : within4 a private4_exceptions = true → routable (V4 a).
Proof.
  unfold within4. intros (n & Hn & Hin)%existsb_Exists. unfold in_net in Hin. apply N.eqb_eq in Hin. assert (Hex : private4_exceptions = [(3221225481, 32); (3221225482, 32)]%N) by (vm_compute; reflexivity).
  rewrite Hex in Hn. assert (Ha : (a = 3221225481 ∨ a = 3221225482)%N).
  { apply elem_of_cons in Hn as [->|[->|Hno]%elem_of_cons]; [| |by apply elem_of_nil in Hno]; cbn [fst snd] in Hin; change (32 - 32)%N with 0%N in Hin; rewrite N.pow_0_r, !N.div_1_r in Hin; auto. }
  destruct Ha as [-> | ->]; (split; [by vm_compute|by_compute]).
Qed.
Lemma in_net_top k a n : (k ≤ n.2 ≤ 128)%N → in_net 128 a n = true → (a / 2 ^ (128 - k) = n.1 / 2 ^ (128 - k))%N.
Proof.
  intros Hl Hin. unfold in_net in Hin. apply N.eqb_eq in Hin. assert (Hp : (2 ^ (128 - k) = 2 ^ (128 - n.2) * 2 ^ (n.2 - k))%N) by (rewrite <-N.pow_add_r; f_equal; lia).
  rewrite Hp, <-!N.Div0.div_div. by rewrite Hin.
Qed.
Lemma exceptions_top : Forall (λ n, (28 ≤ n.2 ≤ 128 ∧ n.1 / 2 ^ 112 = 8193 ∧ n.1 / 2 ^ 100 ≠ 33558747)%N) private6_exceptions.
Proof. by_compute. Qed.
Lemma routable_exception6 a scope : within6 a private6_exceptions = true → routable (V6 a scope).
Proof.
  intros (n & Hn & Hin)%existsb_Exists. destruct (proj1 (Forall_forall _ _) exceptions_top n Hn) as (Hl & Hv & Hdoc).
  assert (Ha : (a / 2 ^ 112 = n.1 / 2 ^ 112)%N) by (apply (in_net_top 16); [lia|done]). rewrite Hv in Ha.
  assert (Hd : (a / 2 ^ 100 = n.1 / 2 ^ 100)%N) by (apply (in_net_top 28); [lia|done]).
  split_and!; [left|by rewrite Ha|].
  - change (2 ^ 125)%N with (2 ^ 112 * 2 ^ 13)%N. by rewrite <-N.Div0.div_div, Ha.
  - intros E. apply Hdoc. rewrite <-Hd. change (2 ^ 100)%N with (2 ^ 96 * 2 ^ 4)%N. by rewrite <-N.Div0.div_div, E.
Qed.
Section public.
Context `{IanaAdded}.
Lemma public_ranges a : in_width a → _is_global_unicast a = true → routable a.
Proof.
  unfold _is_global_unicast. destruct a as [a|a scope]; cbn [in_width]; intros Hw.
  - rewrite !andb_true_iff, !negb_true_iff. unfold is_global. rewrite andb_true_iff, !negb_true_iff.
    intros (((((([Hshared _] & Hp) & _) & _) & Hm) & _) & _). unfold is_multicast in Hm. cbn [is_private] in Hp. apply andb_false_iff in Hp as [Hp|Hp].
    + apply routable4; [done|done|]. unfold within4 in *. cbn [existsb] in *. rewrite orb_false_r in *. by rewrite Hshared, Hm.
    + apply negb_false_iff in Hp. by apply routable_exception.
  - destruct (is_mapped a); [done|]. rewrite !andb_true_iff, !negb_true_iff. unfold is_link_local, is_multicast, is_reserved.
    intros ((((((_ & Hp) & _) & Hl) & Hm) & Hr) & _). cbn [is_private] in Hp. apply andb_false_iff in Hp as [Hp|Hp]; [|apply routable_exception6; by apply negb_false_iff].
    apply orb_false_iff in Hp as [Hp _]. pose proof (none_within _ _ Hp) as Hnone. split_and!.
    + apply outside_short; [done| |done]. unfold within6 in *. cbn [existsb] in *. rewrite !orb_false_r in *. rewrite Hl, Hm, !orb_false_r. apply Hnone. by_compute.
    + assert (H6 : in_net 128 a (net6 "2002::" 16) = false) by (apply Hnone; by_compute). unfold in_net in H6. apply N.eqb_neq in H6.
      change (128 - (net6 "2002::" 16).2)%N with 112%N in H6. assert (Hv : ((net6 "2002::" 16).1 / 2 ^ 112 = 8194)%N) by (vm_compute; reflexivity). by rewrite Hv in H6.
    + assert (H6 : in_net 128 a (net6 "2001:db8::" 32) = false) by (apply Hnone; by_compute). unfold in_net in H6. apply N.eqb_neq in H6.
      change (128 - (net6 "2001:db8::" 32).2)%N with 96%N in H6. assert (Hv : ((net6 "2001:db8::" 32).1 / 2 ^ 96 = 536939960)%N) by (vm_compute; reflexivity). by rewrite Hv in H6.
Qed.

(** ** What the connector relies on *)
(** A target that is pinned to one numeric address, which passes the test. *)
Record pinned (t : ResolvedNetworkTarget) : Prop := {
  pi_address : ∃ a, ip_address (sa_host (rt_sockaddr t)) = Some a ∧ sa_host (rt_sockaddr t) = ip_str a ∧ routable a ∧ _is_global_unicast a = true ∧
                    match a, rt_sockaddr t with V4 _, Inet _ _ => rt_family t = AF_INET | V6 _ None, Inet6 _ _ 0 0 => rt_family t = AF_INET6 | _, _ => False end;
  pi_port : sa_port (rt_sockaddr t) = HTTPS_PORT;
  pi_stream : rt_socket_type t = SOCK_STREAM ∧ rt_protocol t = IPPROTO_TCP
}.
Lemma check_address_pinned family parts t : (family = AF_INET ∨ family = AF_INET6) → check_address HTTPS_PORT family parts = Ok t → pinned t.
Proof.
  intros Hfamily. unfold check_address. intros (_ & _ & H1)%bind_ok. destruct parts as [|[] [|[] more]]; try discriminate.
  apply bind_ok in H1 as ([] & Hraise & H1). apply raise_if_ok in Hraise. apply orb_false_iff in Hraise as [Hport Hscope].
  destruct (ip_address s) as [a|] eqn:Ha; [|discriminate]. apply bind_ok in H1 as ([] & Hraise & H1). apply raise_if_ok in Hraise.
  apply orb_false_iff in Hraise as [Hversion%negb_false_iff Hpublic%negb_false_iff]. pose proof (ip_address_width _ _ Ha) as Hwidth.
  assert (Hun : unscoped a = true) by exact (ip_address_unscoped _ _ Hscope Ha).
  assert (Hpin : ip_address (ip_str a) = Some a) by (by apply ip_address_str). pose proof (public_ranges a Hwidth Hpublic) as Hrange.
  destruct (Z.eqb_spec family AF_INET) as [->|Hne].
  - destruct a as [n|]; [|discriminate]. apply Ok_inj in H1 as <-. split; [exists (V4 n); by split_and!|done|done].
  - destruct a as [|n [|]]; [discriminate..|]. destruct more as [|f [|k []]]; try discriminate; destruct f as [| |[]| | | | | |]; try discriminate; destruct k as [| |[]| | | | | |]; try discriminate. apply Ok_inj in H1 as <-.
    split; [exists (V6 n None); split_and!; try done; by destruct Hfamily|done|done].
Qed.
Lemma check_answer_pinned v t : check_answer HTTPS_PORT v = Ok t → pinned t.
Proof.
  unfold check_answer. destruct v as [| | | | | |l| |]; try discriminate. destruct l as [|f [|k [|p [|x [|a []]]]]]; try discriminate.
  destruct f; try discriminate. destruct k; try discriminate. destruct p; try discriminate. destruct a; try discriminate.
  destruct (_ && _) eqn:E; [|discriminate]. apply andb_true_iff in E as [[E _]%andb_true_iff _]. apply check_address_pinned.
  apply orb_true_iff in E as [E|E]; apply Z.eqb_eq in E; auto.
Qed.

(** The targets of a list of answers: those of each, once. *)
Lemma add_targets_ok items : ∀ before targets, foldM_res (add_target HTTPS_PORT) before items = Ok targets → NoDup before →
  NoDup targets ∧ Forall (λ v, is_ok (check_answer HTTPS_PORT v) = true) items ∧
  ∀ t, t ∈ targets ↔ t ∈ before ∨ ∃ v, v ∈ items ∧ check_answer HTTPS_PORT v = Ok t.
Proof.
  induction items as [|v items IH]; intros before targets; cbn [foldM_res].
  { intros <-%Ok_inj Hnd. split_and!; [done|constructor|]. intros t. split; [auto|]. intros [|(? & Hno & _)]; [done|by apply elem_of_nil in Hno]. }
  intros (mid & Hadd & Hrest)%bind_ok Hnd. apply bind_ok in Hadd as (t0 & Hv & Hadd). apply Ok_inj in Hadd as <-.
  assert (Hmid : NoDup (if bool_decide (t0 ∈ before) then before else before ++ [t0])).
  { case_bool_decide; [done|]. apply NoDup_app. split_and!; [done| |apply NoDup_singleton]. intros x Hx ->%list_elem_of_singleton. done. }
  destruct (IH _ _ Hrest Hmid) as (Hn & Hall & Hin). split_and!; [done|constructor; [by rewrite Hv|done]|].
  intros t. rewrite Hin. assert (Ht : t ∈ (if bool_decide (t0 ∈ before) then before else before ++ [t0]) ↔ t ∈ before ∨ t = t0).
  { case_bool_decide; [split; [auto|by intros [?| ->]]|]. rewrite elem_of_app, list_elem_of_singleton. done. }
  rewrite Ht. setoid_rewrite elem_of_cons. split.
  - intros [[?| ->]|(x & ? & ?)]; [auto|right; exists v; auto|right; exists x; auto].
  - intros [?|(x & Hin2 & Hx)]; [auto|]. destruct Hin2 as [->|]; [|right; exists x; auto]. rewrite Hv in Hx. apply Ok_inj in Hx as <-. auto.
Qed.

(** What a resolution that succeeds has done. *)
Lemma resolution_ok {W} (resolve : pystr → Z → W → result pyval * W) version hostname port w targets w' :
  resolve_public_tcp_targets resolve version hostname port w = (Ok targets, w') →
  ∃ name answers items,
    hostname = PyStr name ∧ is_exact_dns_hostname name = true ∧ port = PyInt HTTPS_PORT ∧
    resolve (lower name ++ u ".") HTTPS_PORT w = (Ok answers, w') ∧ answer_items answers = Some items ∧
    targets ≠ [] ∧ NoDup targets ∧ Forall pinned targets ∧
    Forall (λ v, is_ok (check_answer HTTPS_PORT v) = true) items ∧
    (∀ t, t ∈ targets ↔ ∃ v, v ∈ items ∧ check_answer HTTPS_PORT v = Ok t).
Proof.
  unfold resolve_public_tcp_targets. destruct hostname as [| | | |name| | | |]; try discriminate.
  destruct (is_exact_dns_hostname name) eqn:Hname; [|discriminate]. cbn [negb]. destruct (bool_decide _) eqn:Hport; [|discriminate]. cbn [negb].
  apply bool_decide_eq_true in Hport. destruct port; try discriminate. injection Hport as ->.
  destruct (_supports_safe_ipaddress_classification version); [|discriminate]. cbn [negb].
  destruct (resolve _ _ _) as [[answers|e] w1] eqn:Er; [|by destruct e]. intros Hres. injection Hres as Hres <-.
  destruct (answer_items answers) as [items|] eqn:Ei; [|discriminate]. destruct items as [|v items]; [discriminate|].
  apply bind_ok in Hres as (ts & Hfold & Hres). assert (targets = ts ∧ ts ≠ []) as [-> Hne] by (destruct ts; [discriminate|]; apply Ok_inj in Hres; by subst).
  destruct (add_targets_ok _ _ _ Hfold (NoDup_nil_2)) as (Hnd & Hall & Hin).
  assert (Hin' : ∀ t, t ∈ ts ↔ ∃ x, x ∈ v :: items ∧ check_answer HTTPS_PORT x = Ok t) by (intros t; rewrite Hin; split; [intros [Hno|]; [by apply elem_of_nil in Hno|done]|auto]).
  exists name, answers, (v :: items). split_and!; try done. apply Forall_forall. intros t Ht. apply Hin' in Ht as (x & _ & Hx). by apply check_answer_pinned in Hx.
Qed.

(** C28: The connector is given numeric addresses that passed the test, and
    nothing else.  A resolution that succeeds was of an exact host name for port
    443, asked once as an absolute name; all of its answers were accepted, none
    left out and none dropped; and every target, each given once, is the printed
    form of an address that it is read as again, which [_is_global_unicast]
    accepts and which therefore lies where [routable] says: an IPv4 address that
    is in none of 0/8, 10/8, 100.64/10, 127/8, 169.254/16, 172.16/12,
    192.0.2/24, 192.168/16, 198.18/15, 198.51.100/24, 203.0.113/24 and is below
    224.0.0.0, or an IPv6 address of 2000::/3 outside 2002::/16 and
    2001:db8::/32, or of the deprecated site-local fec0::/10, which the code
    does not refuse although its docstring promises globally routable ones. *)
Theorem resolved_targets_pinned {W} (resolve : pystr → Z → W → result pyval * W) version hostname port w targets w' :
  resolve_public_tcp_targets resolve version hostname port w = (Ok targets, w') →
  ∃ name answers items,
    hostname = PyStr name ∧ is_exact_dns_hostname name = true ∧ port = PyInt HTTPS_PORT ∧
    resolve (lower name ++ u ".") HTTPS_PORT w = (Ok answers, w') ∧ answer_items answers = Some items ∧
    targets ≠ [] ∧ NoDup targets ∧ Forall pinned targets ∧
    Forall (λ v, is_ok (check_answer HTTPS_PORT v) = true) items ∧
    (∀ t, t ∈ targets ↔ ∃ v, v ∈ items ∧ check_answer HTTPS_PORT v = Ok t).
Proof. exact (resolution_ok resolve version hostname port w targets w'). Qed.
End public.

Module DestinationSample.
#[export] Instance tables : IanaAdded := [].
Definition version : pyval := PyTuple [PyInt 3; PyInt 13; PyInt 0; PyStr (u "final")].
Definition answer4 (text : string) : pyval := PyTuple [PyInt AF_INET; PyInt SOCK_STREAM; PyInt IPPROTO_TCP; PyStr []; PyTuple [PyStr (u text); PyInt 443]].
Definition answer6 (text : string) : pyval := PyTuple [PyInt AF_INET6; PyInt SOCK_STREAM; PyInt IPPROTO_TCP; PyStr []; PyTuple [PyStr (u text); PyInt 443; PyInt 0; PyInt 0]].
(** A resolver that counts its calls. *)
Definition resolver (answers : list pyval) (_ : pystr) (_ : Z) (n : nat) : result pyval * nat := (Ok (PyList answers), S n).
Definition resolved (answers : list pyval) : result (list ResolvedNetworkTarget) * nat :=
  resolve_public_tcp_targets (resolver answers) version (PyStr (u "Example.com")) (PyInt 443) 0.
Definition public_answers : list pyval := [answer4 "93.184.216.34"; answer6 "2606:2800:0220:0001:0248:1893:25c8:1946"; answer4 "93.184.216.34"].
Definition targets : list ResolvedNetworkTarget :=
  [mkTarget AF_INET SOCK_STREAM IPPROTO_TCP (Inet (u "93.184.216.34") 443); mkTarget AF_INET6 SOCK_STREAM IPPROTO_TCP (Inet6 (u "2606:2800:220:1:248:1893:25c8:1946") 443 0 0)].
End DestinationSample.
Import DestinationSample.
Lemma resolved_targets_pinned_witness :
  resolved public_answers = (Ok targets, 1) ∧ NoDup targets ∧ Forall pinned targets.
Proof.
  assert (E : resolved public_answers = (Ok targets, 1)) by (vm_compute; reflexivity). split; [exact E|].
  destruct (resolved_targets_pinned _ _ _ _ _ _ _ E) as (_ & _ & _ & _ & _ & _ & _ & _ & _ & Hnd & Hp & _). split; [exact Hnd|exact Hp].
Defined.

(** One private answer refuses the others as well. *)
Example mixed_answers_refused :
  (λ t, is_ok (resolved [answer4 "93.184.216.34"; answer4 t]).1) <$> ["10.0.0.1"; "127.0.0.1"; "169.254.169.254"; "100.64.0.1"; "0.0.0.0"; "224.0.0.1"; "1.1.1.1"]%string
  = [false; false; false; false; false; false; true].
Proof. vm_compute. reflexivity. Qed.
(** Site-local IPv6 addresses (fec0::/10, deprecated and not routed globally) are
    in none of the tables and pass the test. *)
Example site_local_accepted : _is_global_unicast (V6 (ipv6_value (u "fec0::1")) None) = true ∧ is_ok (resolved [answer6 "fec0::1"]).1 = true.
Proof. split; vm_compute; reflexivity. Qed.
