(* ===== verification/Connector.v ===== *)
(** * Dialing an authorised connection ([src/src/icode/network_connector.py])

    [open_authorized_https_connection]: verify the lease, resolve, and for each
    numeric address register a pending connection, dial it without blocking and
    promote it.  The state is the authority with the threads of the process
    ([NetworkLease.net]) next to the candidate socket; before every atomic
    action other threads may run, revocation included. *)

From S2P Require Import Prelude PyText PyVal Json SandboxPolicy NetworkLease ConnectRequest IpAddress Destination.

Definition UPSTREAM_CONNECT_TIMEOUT_NS : Z := 10 * NANOSECONDS_PER_SECOND.
Definition CONNECT_SELECTOR_POLL_INTERVAL_NS : Z := 100000000.
(** The codes of a connect in progress and of one that is done (Linux): EINPROGRESS, EAGAIN, EALREADY, EINTR; EISCONN. *)
Definition _CONNECT_IN_PROGRESS_CODES : list Z := [115; 11; 114; 4]%Z.
Definition _CONNECT_ALREADY_CONNECTED : Z := 106.

(** The candidate: its socket, the [_PendingDial] around it and, once promoted,
    the connection object. *)
Record candidate := mkCandidate {
  cd_socket : bool;                  (** [sock is not None] *)
  cd_open : bool;                    (** [sock.fileno() >= 0] *)
  cd_pending : bool;                 (** [pending is not None] *)
  cd_cancelled : bool;               (** [_PendingDial._cancelled] *)
  cd_closed : bool;                  (** [_PendingDial._closed.is_set()] *)
  cd_reader : bool;                  (** the ends of the wakeup pair, open *)
  cd_writer : bool;
  cd_thread : option nat;            (** the call that registers *)
  cd_handle : option handle;
  cd_promoted : bool;                (** [active_connection is not None] *)
  cd_conn_closed : bool;             (** [AuthorizedHttpsConnection._closed] *)
  cd_dialed : option sockaddr        (** [connect_ex] has been called with this *)
}.
Definition no_candidate : candidate := mkCandidate false false false false false false false None None false false None.
Definition set_socket (opened : bool) (c : candidate) : candidate :=
  mkCandidate true opened (cd_pending c) (cd_cancelled c) (cd_closed c) (cd_reader c) (cd_writer c) (cd_thread c) (cd_handle c) (cd_promoted c) (cd_conn_closed c) (cd_dialed c).
Definition set_pending (c : candidate) : candidate :=
  mkCandidate (cd_socket c) (cd_open c) true false false true true (cd_thread c) (cd_handle c) (cd_promoted c) (cd_conn_closed c) (cd_dialed c).
Definition set_cancelled (c : candidate) : candidate :=
  mkCandidate (cd_socket c) (cd_open c) (cd_pending c) true (cd_closed c) (cd_reader c) (cd_writer c) (cd_thread c) (cd_handle c) (cd_promoted c) (cd_conn_closed c) (cd_dialed c).
Definition set_closed (c : candidate) : candidate :=
  mkCandidate (cd_socket c) (cd_open c) (cd_pending c) (cd_cancelled c) true (cd_reader c) (cd_writer c) (cd_thread c) (cd_handle c) (cd_promoted c) (cd_conn_closed c) (cd_dialed c).
Definition set_wakeup (reader writer : bool) (c : candidate) : candidate :=
  mkCandidate (cd_socket c) (cd_open c) (cd_pending c) (cd_cancelled c) (cd_closed c) reader writer (cd_thread c) (cd_handle c) (cd_promoted c) (cd_conn_closed c) (cd_dialed c).
Definition set_thread (i : nat) (c : candidate) : candidate :=
  mkCandidate (cd_socket c) (cd_open c) (cd_pending c) (cd_cancelled c) (cd_closed c) (cd_reader c) (cd_writer c) (Some i) (cd_handle c) (cd_promoted c) (cd_conn_closed c) (cd_dialed c).
Definition set_handle (h : handle) (c : candidate) : candidate :=
  mkCandidate (cd_socket c) (cd_open c) (cd_pending c) (cd_cancelled c) (cd_closed c) (cd_reader c) (cd_writer c) (cd_thread c) (Some h) (cd_promoted c) (cd_conn_closed c) (cd_dialed c).
Definition set_promoted (c : candidate) : candidate :=
  mkCandidate (cd_socket c) (cd_open c) (cd_pending c) (cd_cancelled c) (cd_closed c) (cd_reader c) (cd_writer c) (cd_thread c) (cd_handle c) true (cd_conn_closed c) (cd_dialed c).
Definition set_conn_closed (c : candidate) : candidate :=
  mkCandidate (cd_socket c) (cd_open c) (cd_pending c) (cd_cancelled c) (cd_closed c) (cd_reader c) (cd_writer c) (cd_thread c) (cd_handle c) (cd_promoted c) true (cd_dialed c).
Definition set_dialed (sa : sockaddr) (c : candidate) : candidate :=
  mkCandidate (cd_socket c) (cd_open c) (cd_pending c) (cd_cancelled c) (cd_closed c) (cd_reader c) (cd_writer c) (cd_thread c) (cd_handle c) (cd_promoted c) (cd_conn_closed c) (Some sa).

(** What a moment looks like to an observer. *)
Record snapshot := mkSnapshot { sn_net : net; sn_candidate : candidate }.

(** The operating system and the other threads. *)
Class DialHost (W : Type) := {
  dh_others : net → W → list net_op * bool * bool * W;   (** steps of other threads; is the cancel event set by now; is the close callback entered *)
  dh_schedule : net → nat → W → list net_op * W;         (** the same, until the call of this thread returns *)
  dh_monotonic_ns : W → Z * W;
  dh_resolve : pystr → Z → W → result pyval * W;
  dh_version : pyval;
  dh_socket : W → result unit * W;
  dh_socketpair : W → result unit * W;
  dh_setblocking : bool → W → result unit * W;
  dh_connect_ex : sockaddr → W → Z * W;
  dh_select : Z → W → bool * bool * W;                   (** readable: cancel; writable: socket *)
  dh_so_error : W → Z * W;
  dh_close : W → bool * bool * W                         (** [close] raised; the descriptor is gone *)
}.

Section connector.
Context `{FloatRepr, IanaAdded} {W : Type} `{DialHost W}.
(** [ds_past]: the candidates of earlier attempts; [ds_trace]: what there was to see. *)
Record dstate := mkDstate { ds_net : net; ds_world : W; ds_event : bool; ds_cand : candidate; ds_past : list candidate; ds_trace : list snapshot }.
Definition with_world (w : W) (s : dstate) : dstate := mkDstate (ds_net s) w (ds_event s) (ds_cand s) (ds_past s) (ds_trace s).
Definition with_cand (f : candidate → candidate) (s : dstate) : dstate := mkDstate (ds_net s) (ds_world s) (ds_event s) (f (ds_cand s)) (ds_past s) (ds_trace s).
Definition with_net (n : net) (s : dstate) : dstate := mkDstate n (ds_world s) (ds_event s) (ds_cand s) (ds_past s) (ds_trace s).
Definition observe (s : dstate) : dstate := mkDstate (ds_net s) (ds_world s) (ds_event s) (ds_cand s) (ds_past s) (ds_trace s ++ [mkSnapshot (ds_net s) (ds_cand s)]).

(** ** Closing descriptors *)
(** [_close_socket] and [_close_descriptor] of a descriptor: is it closed for
    sure, and is it still open. *)
Definition close_fd (opened : bool) (w : W) : bool * bool * W :=
  if opened then let '(raised, gone, w) := dh_close w in (negb raised && gone, negb gone, w) else (true, false, w).
Definition _close_socket (s : dstate) : bool * dstate :=
  let '(ok, still, w) := close_fd (cd_open (ds_cand s)) (ds_world s) in (ok, with_world w (with_cand (set_socket still) s)).
(** [_close_wakeup_pair_locked]: ends that are open are closed. *)
Definition _close_wakeup_pair_locked (s : dstate) : bool * dstate :=
  let c := ds_cand s in
  let '(ok1, reader, w) := close_fd (cd_reader c) (ds_world s) in
  let '(ok2, writer, w) := close_fd (cd_writer c) w in
  (ok1 && ok2, with_world w (with_cand (set_wakeup reader writer) s)).
Definition _close_on_owner_locked (s : dstate) : bool * dstate :=
  let '(socket_closed, s) := if cd_closed (ds_cand s) then (true, s) else _close_socket s in
  let '(wakeup_closed, s) := _close_wakeup_pair_locked s in
  if socket_closed && wakeup_closed then (true, with_cand set_closed s) else (false, s).
Definition close_on_owner (s : dstate) : bool * dstate := _close_on_owner_locked (with_cand set_cancelled s).
Definition _all_descriptors_closed (c : candidate) : bool := negb (cd_open c) && negb (cd_reader c) && negb (cd_writer c).
(** [close_for_authority], called by another thread: what it has answered when
    the owner has closed, or the wait is over. *)
Definition close_for_authority (s : dstate) : bool * dstate :=
  let s := if cd_closed (ds_cand s) then s else with_cand set_cancelled s in
  (cd_closed (ds_cand s) && _all_descriptors_closed (ds_cand s), s).
(** [AuthorizedHttpsConnection._close_from_authority] *)
Definition _close_from_authority (s : dstate) : bool * dstate :=
  if cd_conn_closed (ds_cand s) then (negb (cd_open (ds_cand s)), s)
  else let '(ok, s) := _close_socket s in if ok then (true, with_cand set_conn_closed s) else (false, s).
(** The callback that the authority holds for the candidate. *)
Definition close_callback (s : dstate) : bool * dstate :=
  if cd_promoted (ds_cand s) then _close_from_authority s else close_for_authority s.

(** ** Other threads *)
(** The thread that registers learns its handle as it returns. *)
Definition note_handle (s : dstate) : dstate :=
  match cd_handle (ds_cand s), cd_thread (ds_cand s) with
  | None, Some i => match net_threads (ds_net s) !! i with
                    | Some (TDone (RHandle (Ok h))) => with_cand (set_handle h) s
                    | _ => s
                    end
  | _, _ => s
  end.
Definition run_op (op : net_op) (s : dstate) : dstate :=
  match net_step (ds_net s) op with Some n => observe (note_handle (with_net n s)) | None => s end.
(** Only the dialing thread has its handle; a callback for it is [close_callback]. *)
Definition ours (s : dstate) (h : handle) : bool := bool_decide (cd_handle (ds_cand s) = Some h).
Definition other_op (s : dstate) (op : net_op) : dstate :=
  match op with
  | OpCall (CallRelease h) | OpCall (CallPromote h _ _) => if ours s h then s else run_op op s
  | OpStep i (EvAnswer _) =>
    match net_threads (ds_net s) !! i with
    | Some t =>
      match in_call t with
      | Some h => if ours s h then let '(answer, s) := close_callback s in run_op (OpStep i (EvAnswer (Some (PyBool answer)))) s else run_op op s
      | None => run_op op s
      end
    | None => s
    end
  | _ => run_op op s
  end.
Definition step_others (s : dstate) : dstate :=
  let '(ops, event, cancel, w) := dh_others (ds_net s) (ds_world s) in
  let s := foldl other_op (with_world w s) ops in
  observe (mkDstate (ds_net s) (ds_world s) (ds_event s || event) (if cancel : bool then set_cancelled (ds_cand s) else ds_cand s) (ds_past s) (ds_trace s)).

(** ** Actions of the dialing thread

    [None]: a call that never returns. *)
Definition dial (A : Type) : Type := dstate → option (result A * dstate).
#[export] Instance dial_ret : MRet dial := λ A a s, Some (Ok a, s).
#[export] Instance dial_bind : MBind dial :=
  λ A B f m s, match m s with None => None | Some (Ok a, s') => f a s' | Some (Err e, s') => Some (Err e, s') end.
Definition raise {A} (e : exn) : dial A := λ s, Some (Err e, s).
(** Other threads run, then this action. *)
Definition atomic {A} (f : dstate → result A * dstate) : dial A := λ s, let '(r, s') := f (step_others s) in Some (r, observe s').
Definition host {A} (f : W → A * W) : dial A := λ s, let '(a, w) := f (ds_world s) in Some (Ok a, with_world w s).
Definition host_try {A} (f : W → result A * W) : dial A := λ s, let '(r, w) := f (ds_world s) in Some (r, with_world w s).
Definition monotonic_ns : dial Z := host dh_monotonic_ns.
Definition cancelled : dial bool := atomic (λ s, (Ok (cd_cancelled (ds_cand s) || ds_event s), s)).
Definition stop_if_cancelled : dial unit := b ← cancelled; if b : bool then raise PendingConnectCancelled else mret tt.
Definition scope_open : dial unit := atomic (λ s, (raise_if (ds_event s) (NLE "host connection scope is closed"), s)).

Definition connect_ex (sa : sockaddr) : dial Z :=
  atomic (λ s, let '(code, w) := dh_connect_ex sa (ds_world s) in (Ok code, with_world w (with_cand (set_dialed sa) s))).
(** At most one turn for every poll interval before the deadline ([wait_returns]). *)
Fixpoint wait_connected (fuel : nat) (deadline : Z) : dial unit :=
  match fuel with
  | O => λ _, None
  | S fuel =>
    stop_if_cancelled ;;
    now ← monotonic_ns;
    if (deadline - now <=? 0)%Z then raise OSError
    else
      events ← host (λ w, let '(cancel, ready, w) := dh_select (Z.min (deadline - now) CONNECT_SELECTOR_POLL_INTERVAL_NS) w in ((cancel, ready), w));
      stop_if_cancelled ;;
      let '(cancel, ready) := (events : bool * bool) in
      if negb (cancel || ready) then wait_connected fuel deadline
      else if cancel then raise PendingConnectCancelled
      else socket_error ← host dh_so_error; if (socket_error =? 0)%Z then stop_if_cancelled else raise OSError
  end.
Definition POLLS : nat := 102.
Definition _connect_numeric (sa : sockaddr) : dial unit :=
  stop_if_cancelled ;;
  _ ← host_try (dh_setblocking false);
  stop_if_cancelled ;;
  code ← connect_ex sa;
  if ((code =? 0) || (code =? _CONNECT_ALREADY_CONNECTED))%Z then stop_if_cancelled
  else if negb (existsb (Z.eqb code) _CONNECT_IN_PROGRESS_CODES) then raise OSError
  else now ← monotonic_ns; wait_connected POLLS (now + UPSTREAM_CONNECT_TIMEOUT_NS).

Definition new_socket : dial unit :=
  atomic (λ s, match dh_socket (ds_world s) with
               | (Ok _, w) => (Ok tt, with_world w (with_cand (set_socket true) s))
               | (Err e, w) => (Err e, with_world w s)
               end).
Definition new_pending : dial unit :=
  atomic (λ s, match dh_socketpair (ds_world s) with
               | (Ok _, w) => (Ok tt, with_world w (with_cand set_pending s))
               | (Err e, w) => (Err e, with_world w s)
               end).

(** ** Calls of the authority *)
Context (issued : IssuedNetworkLease) (policy : SandboxPolicy) (purpose : NetworkPurpose).
Definition verify_target (t : HttpsConnectTarget) : dial unit :=
  now ← monotonic_ns;
  atomic (λ s, (verify_request (net_auth (ds_net s)) issued policy (Some purpose) (PyStr (ct_hostname t)) (PyInt (ct_port t)) (PyInt now), s)).
(** [close_for_authority] and [_close_from_authority], as the authority knows them. *)
Definition PENDING_CALLBACK : N := 1.
Definition CONNECTED_CALLBACK : N := 2.
Definition pending_registration (t : HttpsConnectTarget) (now : Z) : register_args :=
  mkRegisterArgs issued policy (Some purpose) (PyStr (ct_hostname t)) (PyInt (ct_port t)) (PyInt now) (Some PENDING_CALLBACK) (PyBool true) (Some true) None.
(** The call sweeps first, so it may wait for other connections. *)
Definition registered_at (t : HttpsConnectTarget) (now : Z) : dial handle := λ s,
  let s := step_others s in
  let i := length (net_threads (ds_net s)) in
  let s := run_op (OpCall (CallRegister (pending_registration t now))) (with_cand (set_thread i) s) in
  let '(ops, w) := dh_schedule (ds_net s) i (ds_world s) in
  let s := foldl other_op (with_world w s) ops in
  match net_threads (ds_net s) !! i with
  | Some (TDone (RHandle r)) => Some (r, s)
  | _ => None
  end.
Definition register_active_connection (t : HttpsConnectTarget) : dial handle := now ← monotonic_ns; registered_at t now.
(** The two calls that are one block. *)
Definition last_outcome (n : net) : option outcome := match last (net_threads n) with Some (TDone o) => Some o | _ => None end.
Definition promote_at (h : handle) (now : Z) (s : dstate) : result bool * dstate :=
  match net_step (ds_net s) (OpCall (CallPromote h (PyInt now) (Some CONNECTED_CALLBACK))) with
  | Some n => match last_outcome n with
              | Some (RBool b) => (Ok b, with_cand (if b then set_promoted else id) (with_net n s))
              | Some (RInt (Err e)) => (Err e, with_net n s)
              | _ => (Ok false, with_net n s)
              end
  | None => (Ok false, s)
  end.
Definition promote_active_connection (h : handle) : dial bool := now ← monotonic_ns; atomic (promote_at h now).
Definition release_active_connection (h : handle) : dial unit :=
  atomic (λ s, (Ok tt, match net_step (ds_net s) (OpCall (CallRelease h)) with Some n => with_net n s | None => s end)).

(** ** One attempt *)
Record AuthorizedHttpsConnection := mkConnected { ac_target : HttpsConnectTarget; ac_sockaddr : sockaddr; ac_handle : handle }.
Definition done {A} (f : dstate → A * dstate) (s : dstate) : result A * dstate := let '(a, s) := f s in (Ok a, s).
Definition finish_connected : dial bool :=
  atomic (done (λ s, if cd_cancelled (ds_cand s) || ds_event s || cd_closed (ds_cand s) then (false, s) else _close_wakeup_pair_locked s)).
Definition get_candidate : dial candidate := λ s, Some (Ok (ds_cand s), s).
(** [AuthorizedHttpsConnection.close] *)
Definition connection_close : dial bool :=
  closed ← atomic (done (λ s, if cd_conn_closed (ds_cand s) then (None, s)
                              else let '(ok, s) := _close_socket s in (Some ok, if ok then with_cand set_conn_closed s else s)));
  match closed with
  | None => mret true
  | Some false => raise NetworkConnectError
  | Some true =>
    c ← get_candidate;
    match cd_handle c with Some h => release_active_connection h | None => mret tt end ;;
    mret true
  end.
Definition catch {A} (m : dial A) (k : exn → dial A) : dial A := λ s, match m s with Some (Err e, s') => k e s' | r => r end.
Definition _cleanup_attempt : dial bool :=
  c ← get_candidate;
  if cd_promoted c then
    connection_closed ← catch connection_close (λ e, match e with NetworkConnectError => mret false | _ => raise e end);
    wakeup_closed ← (if cd_pending c then atomic (done _close_wakeup_pair_locked) else mret true);
    mret (connection_closed && wakeup_closed)
  else
    closed ← (if cd_pending c then atomic (done close_on_owner) else if cd_socket c then atomic (done _close_socket) else mret true);
    (if closed : bool then match cd_handle c with Some h => release_active_connection h | None => mret tt end else mret tt) ;;
    mret closed.

Definition connect_target (t : HttpsConnectTarget) (destination : ResolvedNetworkTarget) : dial AuthorizedHttpsConnection :=
  verify_target t ;;
  scope_open ;;
  new_socket ;;
  new_pending ;;
  h ← register_active_connection t;
  _connect_numeric (rt_sockaddr destination) ;;
  stop_if_cancelled ;;
  _ ← host_try (dh_setblocking true);
  verify_target t ;;
  stop_if_cancelled ;;
  promoted ← promote_active_connection h;
  (if negb promoted then raise (NLE "network connection could not be promoted") else mret tt) ;;
  finished ← finish_connected;
  opened ← atomic (λ s, (Ok (cd_open (ds_cand s)), s));
  (if negb finished || negb opened then raise NetworkConnectError else mret tt) ;;
  stop_if_cancelled ;;
  mret (mkConnected t (rt_sockaddr destination) h).
Definition next_candidate : dial unit := λ s, Some (Ok tt, mkDstate (ds_net s) (ds_world s) (ds_event s) no_candidate (ds_past s ++ [ds_cand s]) (ds_trace s)).
(** [None]: go on with the next address. *)
Definition attempt (t : HttpsConnectTarget) (destination : ResolvedNetworkTarget) : dial (option AuthorizedHttpsConnection) :=
  next_candidate ;;
  catch (c ← connect_target t destination; mret (Some c))
    (λ e, closed ← _cleanup_attempt;
          match e with
          | OSError | NetworkDestinationError _ => if closed : bool then mret None else raise NetworkConnectError
          | _ => raise NetworkConnectError
          end).
Fixpoint attempts (t : HttpsConnectTarget) (destinations : list ResolvedNetworkTarget) : dial AuthorizedHttpsConnection :=
  match destinations with
  | [] => raise NetworkConnectError
  | d :: destinations => c ← attempt t d; match c with Some c => mret c | None => attempts t destinations end
  end.

(** ** Targets without a connection ([src/src/icode/leased_connect.py]) *)
Record ValidatedConnectTargets := mkValidated { vt_hostname : pystr; vt_port : Z; vt_targets : list ResolvedNetworkTarget }.
Definition resolve_leased_https_connect_targets (request_head : pystr) : dial ValidatedConnectTargets :=
  t ← (λ s, Some (parse_https_connect_request_head request_head, s));
  verify_target t ;;
  targets ← host_try (resolve_public_tcp_targets dh_resolve dh_version (PyStr (ct_hostname t)) (PyInt (ct_port t)));
  verify_target t ;;
  mret (mkValidated (ct_hostname t) (ct_port t) targets).

(** ** The whole *)
Definition prepare (request_head : pystr) : dial (HttpsConnectTarget * list ResolvedNetworkTarget) :=
  scope_open ;;
  t ← (λ s, Some (parse_https_connect_request_head request_head, s));
  verify_target t ;;
  destinations ← host_try (resolve_public_tcp_targets dh_resolve dh_version (PyStr (ct_hostname t)) (PyInt (ct_port t)));
  scope_open ;;
  verify_target t ;;
  scope_open ;;
  mret (t, destinations).
Definition open_authorized_https_connection (request_head : pystr) : dial AuthorizedHttpsConnection :=
  p ← catch (prepare request_head) (λ _, raise NetworkConnectError);
  attempts p.1 p.2.
End connector.

