(* ===== verification/ConnectorSpec.v ===== *)
(** * No connection without authority

    Properties of [Connector]: while a socket that has been dialed is open, the
    authority has its entry, so that a revocation finds it
    ([dialed_tracked]); a connection that is returned was authorised when it was
    promoted ([connection_authorised]). *)

From S2P Require Import Prelude PyText PyVal Json SandboxPolicy NetworkLease ConnectRequest IpAddress Destination Connector.

(** ** Entries are kept until their callback or their owner has closed *)
Definition keeps (h : handle) (a a' : Authority) : Prop :=
  ∀ e, entry_of a h = Some e → ∃ e', entry_of a' h = Some e' ∧ c_lease e' = c_lease e ∧ c_key e' = c_key e.
Lemma keeps_refl h a : keeps h a a.
Proof. intros e He. by exists e. Qed.
Lemma keeps_active h a a' : au_active a' = au_active a → keeps h a a'.
Proof. intros E e He. exists e. unfold entry_of in *. by rewrite E. Qed.
Lemma same_id a h h1 e e1 : entry_of a h = Some e → entry_of a h1 = Some e1 → connection_id h = connection_id h1 → h = h1.
Proof. unfold entry_of. intros He He1 Hid. rewrite Hid in He. destruct (dget _ _) as [e2|]; [|done]. repeat case_decide; congruence. Qed.
Lemma keeps_put h a e1 e' : entry_of a (c_handle e1) = Some e1 → c_handle e' = c_handle e1 → c_lease e' = c_lease e1 → c_key e' = c_key e1 → keeps h a (put_entry e' a).
Proof.
  intros He1 Hh Hl Hk e He. rewrite entry_of_put, Hh. case_decide as Hid; [|by exists e].
  pose proof (same_id _ _ _ _ _ He He1 Hid) as ->. rewrite decide_True by done. exists e'. rewrite He in He1. by simplify_eq.
Qed.
Lemma keeps_del h h1 a e1 : entry_of a h1 = Some e1 → h ≠ h1 → keeps h a (del_entry h1 a).
Proof. intros He1 Hne e He. rewrite entry_of_del. rewrite decide_False; [by exists e|]. intros Hid. by pose proof (same_id _ _ _ _ _ He He1 Hid). Qed.
Lemma keeps_new h a tok e1 gens rev nx : dget tok (au_active a) = None → keeps h a (mkAuthority (au_key a) gens rev (dset tok e1 (au_active a)) nx).
Proof.
  intros Hf e He. exists e. unfold entry_of in *. cbn. destruct (decide (connection_id h = tok)) as [E|Hne]; [by rewrite E, Hf in He|]. by rewrite dget_dset_ne.
Qed.
Lemma entry_self a h e : entry_of a h = Some e → entry_of a (c_handle e) = Some e.
Proof. intros He. by rewrite (entry_of_handle _ _ _ He). Qed.

Section keeping.
Context `{FloatRepr}.
(** An answer that confirms a close. *)
Definition confirms (ev : event) : bool := match ev with EvAnswer answer => is_true answer | _ => false end.
Lemma closing_step_keeps h a c ev a' c' : closing_step a c ev = Some (a', c') → (in_call_closing c = Some h → confirms ev = false) → keeps h a a'.
Proof.
  destruct c as [todo at_ cl fl]. unfold in_call_closing. cbn. intros Hs Hno. destruct at_ as [|h1|h1|h1].
  - destruct todo as [|h1 todo]; [done|]. destruct ev; try done. destruct (entry_of a h1) as [e1|] eqn:E; [|simplify_eq; apply keeps_refl].
    destruct (c_closing e1); simplify_eq; [apply keeps_refl|]. apply entry_self in E. by eapply keeps_put.
  - assert (Hs' : ∃ answer, ev = EvAnswer answer) by (destruct todo, ev; eauto; done). destruct Hs' as [answer ->]. cbn in Hno.
    assert (Hc : closing_step a (mkClosing todo (AtCall h1) cl fl) (EvAnswer answer) = Some (a', c')) by (by destruct todo). clear Hs. cbn in Hc.
    assert (Hc2 : (if is_true answer then Some (del_known a h1, mkClosing todo AtNext (S cl) fl)
                   else Some (match entry_of a h1 with Some e => put_entry (set_closing false true e) a | None => a end, mkClosing todo AtNext cl (S fl))) = Some (a', c')) by (by destruct todo).
    clear Hc. destruct (is_true answer).
    + simplify_eq. unfold del_known. destruct (entry_of a h1) as [e1|] eqn:E; [|apply keeps_refl]. eapply keeps_del; [exact E|]. intros ->. by specialize (Hno eq_refl).
    + simplify_eq. destruct (entry_of a h1) as [e1|] eqn:E; [|apply keeps_refl]. apply entry_self in E. by eapply keeps_put.
  - destruct todo, ev; try done; try case_match; simplify_eq; apply keeps_refl.
  - destruct todo, ev; try done; simplify_eq; apply keeps_refl.
Qed.
Lemma sweep_start_keeps h a now a' x : sweep_start a now = Ok (a', x) → keeps h a a'.
Proof. intros Hs. apply keeps_active. by eapply sweep_start_active. Qed.
Lemma call_start_keeps h a c : c ≠ CallRelease h → keeps h a (call_start a c).1.
Proof.
  intros Hne. destruct c as [now|p|r|h1|h1 now cb]; cbn.
  - destruct (sweep_start a now) as [[a' [[t ks] hs]]|] eqn:E; [|apply keeps_refl]. by eapply sweep_start_keeps.
  - destruct (revoke_start a p) as [[a' [[k g] hs]]|] eqn:E; [|apply keeps_refl]. apply keeps_active. unfold revoke_start in E. apply bind_ok in E as (k' & _ & E). by apply Ok_inj in E as [= <- _ _ _].
  - destruct (register_check r;; sweep_start a (ra_now r)) as [[a' [[t ks] hs]]|] eqn:E; [|apply keeps_refl]. apply then_ok in E as [_ E]. by eapply sweep_start_keeps.
  - unfold release_start. destruct (entry_of a h1) as [e1|] eqn:E; [|apply keeps_refl]. destruct (c_closing e1); [apply keeps_refl|].
    destruct (c_release e1); [apply entry_self in E; by eapply keeps_put|]. eapply keeps_del; [exact E|]. by intros ->.
  - unfold promote. destruct (as_exact_int now) as [t|]; [|apply keeps_refl]. destruct (t <? 0)%Z; [apply keeps_refl|]. cbn. destruct cb; [|apply keeps_refl].
    destruct (entry_of a h1) as [e1|] eqn:E; [|apply keeps_refl].
    match goal with |- context [if ?b then Ok (a, false) else _] => destruct b end; [apply keeps_refl|]. apply entry_self in E. by eapply keeps_put.
Qed.
Lemma thread_step_keeps h a t ev a' t' :
  thread_step a t ev = Some (a', t') → t ≠ TRelease h → (in_call t = Some h → confirms ev = false) → keeps h a a'.
Proof.
  destruct t as [now ks c next|k g c|r|h1|o]; cbn; intros Hs Hne Hno; [| | | |done].
  - destruct (closing_done c) as [[n|e]|]; simplify_eq; [by apply keeps_active|apply keeps_refl|].
    destruct (closing_step a c ev) as [[a1 c1]|] eqn:E; [|done]. cbn in Hs. simplify_eq. by eapply closing_step_keeps.
  - destruct (closing_done c) as [[n|e]|]; simplify_eq; [apply keeps_active, revoke_finish_active|apply keeps_refl|].
    destruct (closing_step a c ev) as [[a1 c1]|] eqn:E; [|done]. cbn in Hs. simplify_eq. by eapply closing_step_keeps.
  - destruct ev; try done. destruct (dget token32 (au_active a)) eqn:Ef; [done|]. destruct (register_locked a r clock token32) as [[a1 h1]|] eqn:E; simplify_eq; [|apply keeps_refl].
    apply register_locked_ok in E as (k & now & e1 & _ & _ & _ & _ & _ & _ & _ & ->). by apply keeps_new.
  - destruct ev; try done. unfold release_finish in Hs. destruct (entry_of a h1) as [e1|] eqn:E; [|simplify_eq; apply keeps_refl].
    destruct (is_true answer); simplify_eq; [eapply keeps_del; [exact E|by intros ->]|]. apply entry_self in E. by eapply keeps_put.
Qed.
(** What an operation on the net must not do, for the entry of [h] to be kept. *)
Definition gentle (h : handle) (n : net) (op : net_op) : Prop :=
  match op with
  | OpCall c => c ≠ CallRelease h
  | OpStep i ev => ∀ t, net_threads n !! i = Some t → in_call t = Some h → confirms ev = false
  end.
Lemma net_step_keeps h n op n' : net_step n op = Some n' → TRelease h ∉ net_threads n → gentle h n op → keeps h (net_auth n) (net_auth n').
Proof.
  intros Hs Hno Hg. destruct op as [c|i ev]; cbn in *.
  - pose proof (call_start_keeps h (net_auth n) c Hg) as Hk. destruct (call_start (net_auth n) c). by simplify_eq.
  - destruct (net_threads n !! i) as [t|] eqn:Ei; [|done]. cbn in Hs. destruct (thread_step (net_auth n) t ev) as [[a1 t1]|] eqn:E; [|done]. cbn in Hs. simplify_eq. cbn.
    eapply thread_step_keeps; [exact E| |by apply Hg]. intros ->. by apply list_elem_of_lookup_2 in Ei.
Qed.
Lemma thread_step_no_release h a t ev a' t' : thread_step a t ev = Some (a', t') → t' ≠ TRelease h.
Proof.
  destruct t as [now ks c next|k g c|r|h1|o]; cbn; intros Hs; [| | | |done].
  - destruct (closing_done c) as [[n|e]|]; simplify_eq; [by destruct next|done|]. destruct (closing_step a c ev) as [[]|]; cbn in Hs; [by simplify_eq|done].
  - destruct (closing_done c) as [[n|e]|]; simplify_eq; [done..|]. destruct (closing_step a c ev) as [[]|]; cbn in Hs; [by simplify_eq|done].
  - destruct ev; try done. destruct (dget _ _); [done|]. destruct (register_locked _ _ _ _) as [[]|]; by simplify_eq.
  - destruct ev; try done. destruct (release_finish _ _ _). by simplify_eq.
Qed.
Lemma call_start_no_release h a c : c ≠ CallRelease h → (call_start a c).2 ≠ TRelease h.
Proof. intros Hne. destruct c; cbn; repeat case_match; try done; cbn; congruence. Qed.
Lemma net_step_no_release h n op n' : net_step n op = Some n' → TRelease h ∉ net_threads n → gentle h n op → TRelease h ∉ net_threads n'.
Proof.
  intros Hs Hno Hg. destruct op as [c|i ev]; cbn in *.
  - pose proof (call_start_no_release h (net_auth n) c Hg) as Ht. destruct (call_start (net_auth n) c) as [a t]. simplify_eq. cbn in *.
    rewrite elem_of_app, list_elem_of_singleton. intros [|E]; [done|by rewrite E in Ht].
  - destruct (net_threads n !! i) as [t|] eqn:Ei; [|done]. cbn in Hs. destruct (thread_step (net_auth n) t ev) as [[a1 t1]|] eqn:E; [|done]. cbn in Hs. simplify_eq. cbn.
    intros Hin. apply list_elem_of_lookup in Hin as [j Hj]. destruct (decide (i = j)) as [->|Hne].
    + rewrite list_lookup_insert_eq in Hj by (by eapply lookup_lt_Some). simplify_eq. by eapply thread_step_no_release.
    + rewrite list_lookup_insert_ne in Hj by done. by apply list_elem_of_lookup_2 in Hj.
Qed.
End keeping.

(** ** The thread that registers *)
Section registering.
Context `{FloatRepr} (issued : IssuedNetworkLease) (policy : SandboxPolicy).
Definition for_lease (r : register_args) : Prop := ra_issued r = issued ∧ ra_policy r = policy.
Definition registers (t : thread) : Prop :=
  match t with
  | TSweep _ _ _ (Some r) | TRegister r => for_lease r
  | TDone (RHandle (Err _)) => True
  | _ => False
  end.
Definition registering (n : net) (i : nat) : Prop := ∃ t, net_threads n !! i = Some t ∧ registers t.
(** The entry of the candidate. *)
Definition own_entry (a : Authority) (h : handle) : Prop :=
  ∃ e, entry_of a h = Some e ∧ c_lease e = lease issued ∧ _policy_key policy = Ok (c_key e).
Definition registered_now (n : net) (i : nat) : Prop :=
  ∃ h, net_threads n !! i = Some (TDone (RHandle (Ok h))) ∧ own_entry (net_auth n) h ∧ closing_at (net_auth n) h = false.

Lemma thread_step_registers a t ev a' t' : thread_step a t ev = Some (a', t') → registers t →
  registers t' ∨ ∃ h, t' = TDone (RHandle (Ok h)) ∧ own_entry a' h ∧ closing_at a' h = false.
Proof.
  destruct t as [now ks c [r|]|k g c|r|h1|o]; cbn; intros Hs Hr; try done.
  - destruct (closing_done c) as [[n|e]|]; simplify_eq; [by left|by left|]. destruct (closing_step a c ev) as [[]|]; cbn in Hs; [simplify_eq; by left|done].
  - destruct ev; try done. destruct (dget token32 (au_active a)) eqn:Ef; [done|]. destruct (register_locked a r clock token32) as [[a1 h]|] eqn:E; simplify_eq; [right|by left].
    exists h. split; [done|]. apply register_locked_ok in E as (k & now & e & Hk & _ & -> & Hh & He & Hl & Hc & ->). destruct Hr as [Hi Hp].
    assert (Hentry : entry_of (mkAuthority (au_key a) (au_generations a) (au_revoking a) (dset token32 e (au_active a)) (au_next a + 1)) (mkHandle token32 (au_next a)) = Some e).
    { unfold entry_of. cbn. by rewrite dget_dset_eq, decide_True. }
    split; [exists e; split_and!; [done|by rewrite Hl, Hi|by rewrite <-Hp, Hk, He]|unfold closing_at; by rewrite Hentry].
Qed.
Lemma call_register_registers a r : for_lease r → registers (call_start a (CallRegister r)).2.
Proof. intros Hr. cbn. destruct (register_check r;; sweep_start a (ra_now r)) as [[a' [[t ks] hs]]|]; done. Qed.
Lemma net_step_registering n op n' i : net_step n op = Some n' → registering n i → registering n' i ∨ registered_now n' i.
Proof.
  intros Hs (t & Hi & Ht). destruct op as [c|j ev]; cbn in Hs.
  - destruct (call_start (net_auth n) c) as [a t1]. simplify_eq. left. exists t. split; [|done]. cbn. by apply lookup_app_l_Some.
  - destruct (net_threads n !! j) as [t1|] eqn:Ej; [|done]. cbn in Hs. destruct (thread_step (net_auth n) t1 ev) as [[a1 t2]|] eqn:E; [|done]. cbn in Hs. simplify_eq.
    destruct (decide (j = i)) as [->|Hne].
    + rewrite Hi in Ej. simplify_eq. destruct (thread_step_registers _ _ _ _ _ E Ht) as [Ht'|(h & -> & Ho & Hc)].
      * left. exists t2. split; [|done]. cbn. apply list_lookup_insert_eq. by eapply lookup_lt_Some.
      * right. exists h. split_and!; [|done..]. cbn. apply list_lookup_insert_eq. by eapply lookup_lt_Some.
    + left. exists t. split; [|done]. cbn. by rewrite list_lookup_insert_ne.
Qed.
Lemma net_step_done n op n' i o : net_step n op = Some n' → net_threads n !! i = Some (TDone o) → net_threads n' !! i = Some (TDone o).
Proof.
  intros Hs Hi. destruct op as [c|j ev]; cbn in Hs.
  - destruct (call_start (net_auth n) c) as [a t1]. simplify_eq. cbn. by apply lookup_app_l_Some.
  - destruct (net_threads n !! j) as [t1|] eqn:Ej; [|done]. cbn in Hs. destruct (thread_step (net_auth n) t1 ev) as [[a1 t2]|] eqn:E; [|done]. cbn in Hs. simplify_eq. cbn.
    rewrite list_lookup_insert_ne; [done|]. intros ->. rewrite Hi in Ej. by simplify_eq.
Qed.
(** Nobody is releasing a connection that has just been registered. *)
Lemma fresh_no_release key n h : net_reachable key n → closing_at (net_auth n) h = false → TRelease h ∉ net_threads n.
Proof.
  intros Hr Hc Hin. pose proof (reachable_callbacks _ _ Hr h) as Hn. rewrite Hc in Hn. unfold callers in Hn. cbn in Hn.
  apply length_zero_iff_nil in Hn. assert (Hf : TRelease h ∈ filter (λ t, in_call t = Some h) (net_threads n)) by (by apply list_elem_of_filter).
  rewrite Hn in Hf. by apply not_elem_of_nil in Hf.
Qed.
End registering.

(** ** The invariant *)
Section safety.
Context `{FloatRepr, IanaAdded} {W : Type} `{DialHost W}.
Context (key : list N) (issued : IssuedNetworkLease) (policy : SandboxPolicy) (purpose : NetworkPurpose) (allowed : sockaddr → Prop) (n0 : net).
Abbreviation dstate := (@dstate W).
Abbreviation dial := (@dial W).

Definition later (n n' : net) : Prop := ∃ ops, net_run n ops = Some n'.
Lemma run_app n ops ops' : net_run n (ops ++ ops') = net_run n ops ≫= λ m, net_run m ops'.
Proof. revert n. induction ops as [|op ops IH]; intros n; [done|]. cbn. destruct (net_step n op); [|done]. cbn. apply IH. Qed.
Lemma later_refl n : later n n.
Proof. by exists []. Qed.
Lemma later_trans n1 n2 n3 : later n1 n2 → later n2 n3 → later n1 n3.
Proof. intros [o1 E1] [o2 E2]. exists (o1 ++ o2). by rewrite run_app, E1. Qed.
Lemma later_step n op n' : net_step n op = Some n' → later n n'.
Proof. intros Hs. exists [op]. cbn. by rewrite Hs. Qed.
Lemma later_reachable n n' : net_reachable key n → later n n' → net_reachable key n'.
Proof. intros [o1 E1] [o2 E2]. exists (o1 ++ o2). by rewrite run_app, E1. Qed.

Record cand_ok (n : net) (c : candidate) : Prop := {
  co_dialed : ∀ sa, cd_dialed c = Some sa → cd_handle c ≠ None ∧ allowed sa;
  co_tracked : ∀ h, cd_handle c = Some h → cd_open c = true → own_entry issued policy (net_auth n) h ∧ TRelease h ∉ net_threads n;
  co_registering : ∀ i, cd_thread c = Some i → cd_handle c = None → registering issued policy n i;
  co_registered : ∀ i h, cd_thread c = Some i → cd_handle c = Some h → net_threads n !! i = Some (TDone (RHandle (Ok h)));
  co_socket : cd_open c = true → cd_socket c = true;
  co_closed : cd_closed c = true → cd_open c = false;
  co_conn_closed : cd_conn_closed c = true → cd_open c = false
}.
Record inv (s : dstate) : Prop := {
  in_reach : net_reachable key (ds_net s);
  in_later : later n0 (ds_net s);
  in_cand : cand_ok (ds_net s) (ds_cand s);
  in_past : Forall (λ c, cd_open c = false) (ds_past s);
  in_trace : Forall (λ sn, cand_ok (sn_net sn) (sn_candidate sn)) (ds_trace s)
}.
(** What a step leaves: a later net, a socket that does not open again, a handle
    that stays. *)
Record evolves (s s' : dstate) : Prop := {
  ev_later : later (ds_net s) (ds_net s');
  ev_open : cd_open (ds_cand s') = true → cd_open (ds_cand s) = true;
  ev_handle : ∀ h, cd_handle (ds_cand s) = Some h → cd_handle (ds_cand s') = Some h;
  ev_thread : cd_thread (ds_cand s') = cd_thread (ds_cand s)
}.
(** A candidate that is not known to the authority. *)
Record idle (c : candidate) : Prop := {
  id_thread : cd_thread c = None;
  id_handle : cd_handle c = None;
  id_closed : cd_closed c = false;
  id_conn_closed : cd_conn_closed c = false;
  id_dialed : cd_dialed c = None
}.
Record quiet (s s' : dstate) : Prop := { qu_evolves : evolves s s'; qu_idle : idle (ds_cand s) → idle (ds_cand s') }.
Lemma evolves_refl s : evolves s s.
Proof. split; [apply later_refl|done|done|done]. Qed.
Lemma evolves_trans s1 s2 s3 : evolves s1 s2 → evolves s2 s3 → evolves s1 s3.
Proof. intros [? ? ? E1] [? ? ? E2]. split; [by eapply later_trans|auto|auto|by rewrite E2]. Qed.
Lemma quiet_refl s : quiet s s.
Proof. split; [apply evolves_refl|done]. Qed.
Lemma quiet_trans s1 s2 s3 : quiet s1 s2 → quiet s2 s3 → quiet s1 s3.
Proof. intros [] []. split; [by eapply evolves_trans|auto]. Qed.

(** A change of the candidate alone. *)
Lemma cand_step s c' w event :
  inv s → cand_ok (ds_net s) c' → inv (mkDstate (ds_net s) w event c' (ds_past s) (ds_trace s)).
Proof. intros [] Hc. by split. Qed.
Lemma observe_ok s : inv s → inv (observe s) ∧ quiet s (observe s).
Proof.
  intros [Hr Hl Hc Hp Ht]. split; [|split; [split; [apply later_refl|done|done|done]|done]]. split; cbn; try done. apply Forall_app. split; [done|]. constructor; [done|constructor].
Qed.

Definition allows (s : dstate) (op : net_op) : Prop := ∀ h, cd_handle (ds_cand s) = Some h → cd_open (ds_cand s) = true → gentle h (ds_net s) op.
Lemma noted_ok s op n : inv s → allows s op → net_step (ds_net s) op = Some n → inv (note_handle (with_net n s)) ∧ quiet s (note_handle (with_net n s)).
Proof.
  intros [Hr Hl [Hd Ht Hg Hg2 Hsk Hc1 Hc2] Hpast Htr] Hallow Hs. pose proof (later_step _ _ _ Hs) as Hlate. assert (Hr' : net_reachable key n) by (by eapply later_reachable).
  assert (Hl' : later n0 n) by (by eapply later_trans). unfold note_handle. cbn [with_net ds_cand ds_net].
  destruct (cd_handle (ds_cand s)) as [h|] eqn:Eh.
  - split; [|split; [split; [done|done|done|done]|done]]. split; cbn; try done. split; try done; [by rewrite Eh| |by rewrite Eh|].
    2: { intros i h' Hi Hh'. eapply net_step_done; [exact Hs|]. by apply Hg2; [|rewrite <-Hh']. }
    rewrite Eh. intros h' [= <-] Ho. destruct (Ht h eq_refl Ho) as [(e & He & Hle & Hke) Hno]. specialize (Hallow h Eh Ho).
    destruct (net_step_keeps _ _ _ _ Hs Hno Hallow e He) as (e' & He' & Hle' & Hke'). split; [exists e'; split_and!; [done|congruence|congruence]|by eapply net_step_no_release].
  - destruct (cd_thread (ds_cand s)) as [i|] eqn:Ei.
    2: { split; [|split; [split; [done|done|done|done]|done]]. split; cbn; try done. split; try done; rewrite ?Eh, ?Ei; done. }
    specialize (Hg i eq_refl eq_refl). destruct (net_step_registering _ _ _ _ _ _ Hs Hg) as [Hg'|(h & Hi & Hown & Hcl)].
    + assert (Hsame : match net_threads n !! i with Some (TDone (RHandle (Ok h))) => with_cand (set_handle h) (with_net n s) | _ => with_net n s end = with_net n s).
      { destruct Hg' as (t & -> & Hreg). destruct t as [| | | |o]; try done. by destruct o as [|[]|]. }
      rewrite Hsame. split; [|split; [split; [done|done|done|done]|done]]. split; cbn; try done. split; try done; rewrite ?Eh, ?Ei; try done. by intros ? [= <-].
    + rewrite Hi. split; [|split; [split; [done|done|by rewrite Eh|done]|intros []; congruence]]. split; cbn; try done. split; cbn; try done.
      * intros sa Hsa. by destruct (Hd sa Hsa).
      * intros h' [= <-] _. split; [done|]. by eapply fresh_no_release.
      * rewrite Ei. by intros ? ? [= <-] [= <-].
Qed.
Lemma run_op_ok s op : inv s → allows s op → inv (run_op op s) ∧ quiet s (run_op op s).
Proof.
  intros Hi Ha. unfold run_op. destruct (net_step (ds_net s) op) as [n|] eqn:E; [|split; [done|apply quiet_refl]].
  destruct (noted_ok _ _ _ Hi Ha E) as [Hi1 Hq1]. destruct (observe_ok _ Hi1) as [Hi2 Hq2]. split; [done|by eapply quiet_trans].
Qed.

(** *** Closing *)
Lemma close_fd_spec opened (w : W) ok still w' : close_fd opened w = (ok, still, w') → (still = true → opened = true) ∧ (ok = true → still = false).
Proof.
  unfold close_fd. destruct opened; [|by intros; simplify_eq]. destruct (dh_close w) as [[raised gone] w1]. intros; simplify_eq. split; [done|]. by destruct raised, gone.
Qed.
(** The candidate changes, its socket at most closes, and its flags say so. *)
Lemma shut_step s w c : inv s →
  (cd_open c = true → cd_open (ds_cand s) = true) → cd_thread c = cd_thread (ds_cand s) → cd_handle c = cd_handle (ds_cand s) → cd_dialed c = cd_dialed (ds_cand s) →
  (cd_open c = true → cd_socket c = true) → (cd_closed c = true → cd_open c = false) → (cd_conn_closed c = true → cd_open c = false) →
  inv (with_world w (with_cand (λ _, c) s)) ∧ evolves s (with_world w (with_cand (λ _, c) s)).
Proof.
  intros [Hr Hl [Hd Ht Hg Hg2 Hsk Hc1 Hc2] Hpast Htr] Ho Hth Hh Hdi Hsk' Hcl Hcc. split.
  - split; cbn; try done. split; rewrite ?Hdi, ?Hh, ?Hth; auto.
  - split; cbn; [apply later_refl|done|by rewrite Hh|done].
Qed.
Lemma close_socket_ok s ok s' : _close_socket s = (ok, s') → inv s → inv s' ∧ quiet s s' ∧ ds_net s' = ds_net s ∧ cd_closed (ds_cand s') = cd_closed (ds_cand s) ∧ (ok = true → cd_open (ds_cand s') = false).
Proof.
  unfold _close_socket. destruct (close_fd _ _) as [[o still] w] eqn:E. intros; simplify_eq. apply close_fd_spec in E as [E1 E2].
  pose proof (in_cand _ ltac:(eassumption)) as [_ _ _ _ C0 C1 C2].
  assert (S1 : cd_closed (ds_cand s) = true → still = false) by (intros Hx; specialize (C1 Hx); destruct still; [by rewrite (E1 eq_refl) in C1|done]).
  assert (S2 : cd_conn_closed (ds_cand s) = true → still = false) by (intros Hx; specialize (C2 Hx); destruct still; [by rewrite (E1 eq_refl) in C2|done]).
  destruct (shut_step s w (set_socket still (ds_cand s))) as [Hi He]; [done|exact E1|done..|done|exact S1|exact S2|].
  split_and!; [exact Hi|split; [exact He|by intros []]|done|done|done].
Qed.
Lemma close_wakeup_ok s ok s' : _close_wakeup_pair_locked s = (ok, s') → inv s → inv s' ∧ quiet s s' ∧ ds_net s' = ds_net s ∧ cd_open (ds_cand s') = cd_open (ds_cand s) ∧ cd_closed (ds_cand s') = cd_closed (ds_cand s).
Proof.
  unfold _close_wakeup_pair_locked. destruct (close_fd (cd_reader _) _) as [[o1 r] w1]. destruct (close_fd (cd_writer _) _) as [[o2 r2] w2]. intros; simplify_eq.
  pose proof (in_cand _ ltac:(eassumption)) as [_ _ _ _ C0 C1 C2].
  destruct (shut_step s w2 (set_wakeup r r2 (ds_cand s))) as [Hi He]; [done|done|done|done|done|exact C0|exact C1|exact C2|]. split_and!; [exact Hi|split; [exact He|by intros []]|done..].
Qed.
Lemma owner_close_ok s ok s' : _close_on_owner_locked s = (ok, s') → inv s → inv s' ∧ evolves s s' ∧ (ok = true → cd_open (ds_cand s') = false).
Proof.
  unfold _close_on_owner_locked. intros Hs Hi. pose proof (in_cand _ Hi) as [_ _ _ _ _ C1 _].
  destruct (if cd_closed (ds_cand s) then (true, s) else _close_socket s) as [o1 s1] eqn:E1.
  assert (H1' : inv s1 ∧ evolves s s1 ∧ (o1 = true → cd_open (ds_cand s1) = false)).
  { destruct (cd_closed (ds_cand s)); [simplify_eq; split_and!; [done|apply evolves_refl|auto]|].
    destruct (close_socket_ok _ _ _ E1 Hi) as (? & [? _] & _ & _ & ?). done. }
  destruct H1' as (Hi1 & He1 & Ho1). destruct (_close_wakeup_pair_locked s1) as [o2 s2] eqn:E2. destruct (close_wakeup_ok _ _ _ E2 Hi1) as (Hi2 & [He2 _] & Hn2 & Ho2 & Hc2).
  assert (He : evolves s s2) by (by eapply evolves_trans). destruct o1; cbn [andb] in Hs; [|simplify_eq; by split_and!].
  assert (Hopen : cd_open (ds_cand s2) = false) by (rewrite Ho2; auto). destruct o2; simplify_eq; [|by split_and!].
  pose proof (in_cand _ Hi2) as [D1 D2 D3 D3' D0 D4 D5].
  split_and!; [|destruct He as [L1 L2 L3 L4]; split; cbn; done|done]. destruct Hi2 as [R1 R2 _ R3 R4]. split; [done|done| |done|done]. split; cbn; rewrite ?Hopen; done.
Qed.
Lemma cancel_ok s : inv s → inv (with_cand set_cancelled s) ∧ quiet s (with_cand set_cancelled s).
Proof. intros [R1 R2 [] R3 R4]. split; [by split|]. split; [split; [apply later_refl|done|done|done]|by intros []]. Qed.
Lemma close_on_owner_ok s ok s' : close_on_owner s = (ok, s') → inv s → inv s' ∧ evolves s s' ∧ (ok = true → cd_open (ds_cand s') = false).
Proof.
  intros Hs Hi. destruct (cancel_ok _ Hi) as [Hi1 [He1 _]]. destruct (owner_close_ok _ _ _ Hs Hi1) as (? & He & ?). split_and!; [done|by eapply evolves_trans|done].
Qed.
Lemma conn_closed_ok s : inv s → cd_open (ds_cand s) = false → inv (with_cand set_conn_closed s) ∧ evolves s (with_cand set_conn_closed s).
Proof. intros [R1 R2 [] R3 R4] Ho. split; [|split; [apply later_refl|done|done|done]]. split; [done|done|by split|done|done]. Qed.

(** What the authority is answered is true. *)
Lemma close_callback_ok s answer s' : close_callback s = (answer, s') → inv s → inv s' ∧ evolves s s' ∧ ds_net s' = ds_net s ∧ (answer = true → cd_open (ds_cand s') = false).
Proof.
  unfold close_callback. intros Hs Hi. destruct (cd_promoted (ds_cand s)).
  - unfold _close_from_authority in Hs. destruct (cd_conn_closed (ds_cand s)).
    { simplify_eq. split_and!; [done|apply evolves_refl|done|by destruct (cd_open _)]. }
    destruct (_close_socket s) as [ok s1] eqn:E. destruct (close_socket_ok _ _ _ E Hi) as (Hi1 & [He1 _] & Hn & _ & Ho). destruct ok; simplify_eq; [|by split_and!].
    destruct (conn_closed_ok _ Hi1 (Ho eq_refl)) as [Hi2 He2]. split_and!; [done|by eapply evolves_trans|done|auto].
  - unfold close_for_authority in Hs. injection Hs as <- <-. destruct (cancel_ok _ Hi) as [Hi1 [He1 _]].
    destruct (cd_closed (ds_cand s)); (split_and!; [done|first [done|apply evolves_refl]|done|]); intros [_ Ha]%andb_true_iff;
      unfold _all_descriptors_closed in Ha; apply andb_true_iff in Ha as [[Ha _]%andb_true_iff _]; by apply negb_true_iff.
Qed.

(** *** Other threads *)
Lemma other_op_ok s op : inv s → inv (other_op s op) ∧ quiet s (other_op s op).
Proof.
  intros Hi. assert (Hskip : inv s ∧ quiet s s) by (split; [done|apply quiet_refl]).
  destruct op as [[now|p|r|h|h now cb]|i ev]; cbn [other_op]; try (by apply run_op_ok; [done|intros h' _ _]).
  - unfold ours. case_bool_decide as Ho; [done|]. apply run_op_ok; [done|]. intros h' Hh' _ E. by injection E as ->.
  - unfold ours. case_bool_decide as Ho; [done|]. by apply run_op_ok.
  - destruct ev; try (by apply run_op_ok; [done|intros h' _ _ t _ _]).
    destruct (net_threads (ds_net s) !! i) as [t|] eqn:Ei; [|done]. destruct (in_call t) as [h|] eqn:Eh.
    2: { apply run_op_ok; [done|]. intros h' _ _ t' Ht' Hin. rewrite Ei in Ht'. simplify_eq; congruence. }
    unfold ours. case_bool_decide as Ho.
    2: { apply run_op_ok; [done|]. intros h' Hh' _ t' Ht' Hin. rewrite Ei in Ht'. simplify_eq; congruence. }
    destruct (close_callback s) as [ans s1] eqn:Ec. destruct (close_callback_ok _ _ _ Ec Hi) as (Hi1 & He1 & Hn & Hans).
    destruct (run_op_ok s1 (OpStep i (EvAnswer (Some (PyBool ans)))) Hi1) as [Hi2 [He2 _]].
    { intros h' _ Hopen t' _ _. cbn. destruct ans; [|done]. rewrite (Hans eq_refl) in Hopen. done. }
    split; [done|]. split; [by eapply evolves_trans|]. intros []. congruence.
Qed.
Lemma other_ops_ok ops : ∀ s, inv s → inv (foldl other_op s ops) ∧ quiet s (foldl other_op s ops).
Proof.
  induction ops as [|op ops IH]; intros s Hi; cbn [foldl]; [split; [done|apply quiet_refl]|]. destruct (other_op_ok s op Hi) as [Hi1 Hq1]. destruct (IH _ Hi1) as [Hi2 Hq2].
  split; [done|by eapply quiet_trans].
Qed.
Lemma world_ok s w : inv s → inv (with_world w s) ∧ quiet s (with_world w s).
Proof. intros []. split; [by split|]. split; [split; [apply later_refl|done|done|done]|done]. Qed.
Lemma others_ok s : inv s → inv (step_others s) ∧ quiet s (step_others s).
Proof.
  intros Hi. unfold step_others. destruct (dh_others (ds_net s) (ds_world s)) as [[[ops event] cancel] w].
  destruct (world_ok s w Hi) as [Hi1 Hq1]. destruct (other_ops_ok ops _ Hi1) as [Hi2 Hq2]. set (s2 := foldl other_op (with_world w s) ops) in *.
  assert (Hi3 : inv (mkDstate (ds_net s2) (ds_world s2) (ds_event s2 || event) (if cancel then set_cancelled (ds_cand s2) else ds_cand s2) (ds_past s2) (ds_trace s2))
     ∧ quiet s2 (mkDstate (ds_net s2) (ds_world s2) (ds_event s2 || event) (if cancel then set_cancelled (ds_cand s2) else ds_cand s2) (ds_past s2) (ds_trace s2))).
  { destruct Hi2 as [R1 R2 [] R3 R4]. split; [split; cbn; try done; destruct cancel; by split|]. split; [split; cbn; [apply later_refl|by destruct cancel..]|]. cbn. destruct cancel; [by intros []|done]. }
  destruct Hi3 as [Hi3 Hq3]. destruct (observe_ok _ Hi3) as [Hi4 Hq4]. split; [done|]. eapply quiet_trans; [exact Hq1|]. eapply quiet_trans; [exact Hq2|]. by eapply quiet_trans.
Qed.

(** *** Programs *)
Definition sound (R : dstate → dstate → Prop) {A} (m : dial A) : Prop := ∀ s r s', inv s → m s = Some (r, s') → inv s' ∧ R s s'.
Lemma bind_inv {A B} (m : dial A) (f : A → dial B) s r s' :
  (m ≫= f) s = Some (r, s') → (∃ a s1, m s = Some (Ok a, s1) ∧ f a s1 = Some (r, s')) ∨ (∃ e, m s = Some (Err e, s') ∧ r = Err e).
Proof. unfold mbind, dial_bind. destruct (m s) as [[[a|e] s1]|]; [left; by exists a, s1|right; exists e; by simplify_eq|done]. Qed.
Lemma sound_weaken {A} (m : dial A) : sound quiet m → sound evolves m.
Proof. intros Hm s r s' Hi Hs. by destruct (Hm _ _ _ Hi Hs) as [? []]. Qed.
Section preorder.
Context (R : dstate → dstate → Prop) (Rrefl : ∀ s, R s s) (Rtrans : ∀ s1 s2 s3, R s1 s2 → R s2 s3 → R s1 s3) (Rquiet : ∀ s s', quiet s s' → R s s').
Lemma sound_ret {A} (a : A) : sound R (mret a).
Proof. intros s r s' Hi [= <- <-]. by split. Qed.
Lemma sound_raise {A} e : sound R (raise (A := A) e).
Proof. intros s r s' Hi [= <- <-]. by split. Qed.
Lemma sound_bind {A B} (m : dial A) (f : A → dial B) : sound R m → (∀ a, sound R (f a)) → sound R (m ≫= f).
Proof.
  intros Hm Hf s r s' Hi [(a & s1 & E1 & E2)|(e & E & ->)]%bind_inv; [|by eapply Hm]. destruct (Hm _ _ _ Hi E1) as [Hi1 R1]. destruct (Hf _ _ _ _ Hi1 E2). eauto.
Qed.
Lemma sound_atomic {A} (f : dstate → result A * dstate) : (∀ s r s', inv s → f s = (r, s') → inv s' ∧ R s s') → sound R (atomic f).
Proof.
  intros Hf s r s' Hi. unfold atomic. destruct (others_ok s Hi) as [Hi1 Hq1]. destruct (f (step_others s)) as [r1 s1] eqn:E. intros [= <- <-].
  destruct (Hf _ _ _ Hi1 E) as [Hi2 R2]. destruct (observe_ok _ Hi2) as [Hi3 Hq3]. split; [done|].
  eapply Rtrans; [by apply Rquiet|]. eapply Rtrans; [exact R2|by apply Rquiet].
Qed.
Lemma sound_host {A} (f : W → A * W) : sound R (host f).
Proof. intros s r s' Hi. unfold host. destruct (f (ds_world s)) as [a w]. intros [= <- <-]. destruct (world_ok s w Hi). auto. Qed.
Lemma sound_host_try {A} (f : W → result A * W) : sound R (host_try f).
Proof. intros s r s' Hi. unfold host_try. destruct (f (ds_world s)) as [a w]. intros [= <- <-]. destruct (world_ok s w Hi). auto. Qed.
Lemma sound_cancelled : sound R cancelled.
Proof. apply sound_atomic. intros s r s' Hi [= <- <-]. by split. Qed.
Lemma sound_stop : sound R stop_if_cancelled.
Proof. apply sound_bind; [apply sound_cancelled|]. intros []; [apply sound_raise|apply sound_ret]. Qed.
Lemma sound_scope : sound R scope_open.
Proof. apply sound_atomic. intros s r s' Hi [= <- <-]. by split. Qed.
Lemma sound_verify t : sound R (verify_target issued policy purpose t).
Proof. apply sound_bind; [apply sound_host|]. intros now. apply sound_atomic. intros s r s' Hi [= <- <-]. by split. Qed.
Lemma sound_wait fuel : ∀ deadline, sound R (wait_connected fuel deadline).
Proof.
  induction fuel as [|fuel IH]; intros deadline; cbn [wait_connected]; [done|]. apply sound_bind; [apply sound_stop|intros _].
  apply sound_bind; [apply sound_host|intros now]. destruct (_ <=? _)%Z; [apply sound_raise|]. apply sound_bind; [apply sound_host|intros [c r]].
  apply sound_bind; [apply sound_stop|intros _]. destruct (negb _); [apply IH|]. destruct c; [apply sound_raise|]. apply sound_bind; [apply sound_host|intros e].
  destruct (_ =? _)%Z; [apply sound_stop|apply sound_raise].
Qed.
End preorder.

(** Programs that need a condition which later steps keep. *)
Definition stable (P : dstate → Prop) : Prop := ∀ s s', evolves s s' → P s → P s'.
Definition needs (P : dstate → Prop) {A} (m : dial A) : Prop := ∀ s r s', inv s → P s → m s = Some (r, s') → inv s' ∧ evolves s s'.
Lemma needs_sound P {A} (m : dial A) : sound evolves m → needs P m.
Proof. intros Hm s r s' Hi _. by apply Hm. Qed.
Lemma needs_bind P {A B} (m : dial A) (f : A → dial B) : stable P → needs P m → (∀ a, needs P (f a)) → needs P (m ≫= f).
Proof.
  intros HP Hm Hf s r s' Hi Hp [(a & s1 & E1 & E2)|(e & E & ->)]%bind_inv; [|by eapply Hm]. destruct (Hm _ _ _ Hi Hp E1) as [Hi1 R1]. destruct (Hf _ _ _ _ Hi1 (HP _ _ R1 Hp) E2).
  split; [done|by eapply evolves_trans].
Qed.
Lemma needs_atomic P {A} (f : dstate → result A * dstate) : stable P → (∀ s r s', inv s → P s → f s = (r, s') → inv s' ∧ evolves s s') → needs P (atomic f).
Proof.
  intros HP Hf s r s' Hi Hp. unfold atomic. destruct (others_ok s Hi) as [Hi1 [Hq1 _]]. destruct (f (step_others s)) as [r1 s1] eqn:E. intros [= <- <-].
  destruct (Hf _ _ _ Hi1 (HP _ _ Hq1 Hp) E) as [Hi2 R2]. destruct (observe_ok _ Hi2) as [Hi3 [Hq3 _]]. split; [done|]. eapply evolves_trans; [exact Hq1|by eapply evolves_trans].
Qed.
Lemma evolves_stop : sound evolves stop_if_cancelled.
Proof. exact (sound_stop evolves evolves_refl evolves_trans qu_evolves). Qed.

Definition with_handle (h : handle) (s : dstate) : Prop := cd_handle (ds_cand s) = Some h.
Lemma stable_handle h : stable (with_handle h).
Proof. intros s s' He Hs. exact (ev_handle _ _ He h Hs). Qed.
Definition shut (s : dstate) : Prop := cd_open (ds_cand s) = false.
Lemma stable_shut : stable shut.
Proof. intros s s' He Hs. unfold shut in *. destruct (cd_open (ds_cand s')) eqn:E; [|done]. apply (ev_open _ _ He) in E. congruence. Qed.

(** Dialing needs a handle and an address that is allowed. *)
Lemma dialed_ok h sa s w : inv s → with_handle h s → allowed sa → inv (with_world w (with_cand (set_dialed sa) s)) ∧ evolves s (with_world w (with_cand (set_dialed sa) s)).
Proof.
  intros [R1 R2 [] R3 R4] Hh Ha. split; [|split; [apply later_refl|done|done|done]]. split; [done|done| |done|done]. split; cbn; try done. intros sa' [= <-]. split; [|done]. unfold with_handle in Hh. by rewrite Hh.
Qed.
Lemma connect_needs h sa : allowed sa → needs (with_handle h) (_connect_numeric sa).
Proof.
  intros Ha. pose proof (stable_handle h) as Hst. pose proof (needs_sound (with_handle h) _ evolves_stop) as Hstop. unfold _connect_numeric.
  apply needs_bind; [done|done|intros _]. apply needs_bind; [done|apply needs_sound, sound_host_try, qu_evolves|intros _]. apply needs_bind; [done|done|intros _].
  apply needs_bind; [done| |intros code].
  { apply needs_atomic; [done|]. intros s r s' Hi Hh. destruct (dh_connect_ex sa (ds_world s)) as [code w]. intros [= <- <-]. by eapply dialed_ok. }
  destruct (_ || _); [done|]. destruct (negb _); [apply needs_sound, sound_raise, evolves_refl|]. apply needs_bind; [done|apply needs_sound, sound_host, qu_evolves|intros now].
  apply needs_sound, sound_wait; [exact evolves_refl|exact evolves_trans|exact qu_evolves].
Qed.

(** Releasing needs a closed socket. *)
Lemma closed_net s n : inv s → shut s → later (ds_net s) n → (∀ i o, net_threads (ds_net s) !! i = Some (TDone o) → net_threads n !! i = Some (TDone o)) →
  (∀ i, registering issued policy (ds_net s) i → registering issued policy n i) → inv (with_net n s) ∧ evolves s (with_net n s).
Proof.
  intros [R1 R2 [C1 C2 C3 C4 C0 C5 C6] R3 R4] Hs Hl Hd Hr. split; [|by split]. split; [by eapply later_reachable|by eapply later_trans| |done|done]. unfold shut in Hs.
  split; cbn; try done; [by rewrite Hs|auto|auto].
Qed.
Lemma call_extends n c n' : net_step n (OpCall c) = Some n' → ∃ t, net_threads n' = net_threads n ++ [t].
Proof. unfold net_step. destruct (call_start (net_auth n) c) as [a t]. intros [= <-]. by exists t. Qed.
Lemma release_needs h : needs shut (release_active_connection h).
Proof.
  apply needs_atomic; [exact stable_shut|]. intros s r s' Hi Hs Heq. apply (f_equal snd) in Heq. cbn [snd] in Heq. subst s'.
  destruct (net_step (ds_net s) (OpCall (CallRelease h))) as [n|] eqn:E; [|split; [done|apply evolves_refl]].
  apply closed_net; [done|done|by eapply later_step|intros i o; by eapply net_step_done|].
  destruct (call_extends _ _ _ E) as [t Ht]. intros i (t' & Hi' & Hreg). exists t'. split; [|done]. rewrite Ht. by apply lookup_app_l_Some.
Qed.

(** Promotion: what it finds. *)
Record in_force (n : net) (h : handle) (now : Z) : Prop := mkInForce {
  if_entry : own_entry issued policy (net_auth n) h;
  if_time : (nl_issued_at (lease issued) ≤ now < nl_expires_at (lease issued))%Z;
  if_key : ∃ k, _policy_key policy = Ok k ∧ k ∉ au_revoking (net_auth n) ∧ nl_generation (lease issued) = generation_of (net_auth n) k
}.
Lemma promote_true a h now cb a' : promote a h (PyInt now) cb = Ok (a', true) →
  ∃ e, entry_of a h = Some e ∧ c_key e ∉ au_revoking a ∧ (nl_issued_at (c_lease e) ≤ now < nl_expires_at (c_lease e))%Z ∧ nl_generation (c_lease e) = generation_of a (c_key e).
Proof.
  unfold promote. cbn. destruct (now <? 0)%Z; [done|]. cbn. destruct cb; [|done]. destruct (entry_of a h) as [e|]; [|done].
  destruct (_ || _) eqn:E; [done|]. intros _. exists e. split; [done|]. rewrite !orb_false_iff, !negb_false_iff, bool_decide_eq_false, Z.ltb_ge, Z.leb_gt, Z.eqb_eq in E. tauto.
Qed.
Lemma promoted_force s h now cb a' : inv s → with_handle h s → cd_open (ds_cand s) = true → promote (net_auth (ds_net s)) h (PyInt now) cb = Ok (a', true) → in_force (ds_net s) h now.
Proof.
  intros Hi Hh Ho Hp. destruct (co_tracked _ _ (in_cand _ Hi) h Hh Ho) as [(e & He & Hl & Hk) _]. destruct (promote_true _ _ _ _ _ Hp) as (e' & He' & Hr & Ht & Hg).
  rewrite He in He'. injection He' as <-. rewrite Hl in *. split; [by exists e|done|by exists (c_key e)].
Qed.
(** Changes of the candidate that say nothing of its socket. *)
Lemma promoted_flag s : inv s → inv (with_cand set_promoted s) ∧ evolves s (with_cand set_promoted s).
Proof. intros [R1 R2 [] R3 R4]. split; [|split; [apply later_refl|done|done|done]]. split; [done|done|by split|done|done]. Qed.
Lemma net_call_ok s c n : inv s → cd_handle (ds_cand s) ≠ None → (∀ h, c ≠ CallRelease h) → net_step (ds_net s) (OpCall c) = Some n → inv (with_net n s) ∧ evolves s (with_net n s).
Proof.
  intros Hi Hh Hc Hs. destruct (noted_ok s (OpCall c) n Hi) as [Hi1 [He1 _]]; [intros h _ _; apply Hc|done|].
  assert (E : note_handle (with_net n s) = with_net n s) by (unfold note_handle; cbn; by destruct (cd_handle (ds_cand s))). by rewrite E in *.
Qed.
Definition promotion (s s' : dstate) (h : handle) : Prop :=
  ∃ n now, later (ds_net s) n ∧ later n (ds_net s') ∧ in_force n h now.
Lemma promote_call n h now cb n' b : net_step n (OpCall (CallPromote h (PyInt now) cb)) = Some n' → last_outcome n' = Some (RBool b) →
  ∃ a', promote (net_auth n) h (PyInt now) cb = Ok (a', b).
Proof.
  unfold net_step, call_start, last_outcome. destruct (promote (net_auth n) h (PyInt now) cb) as [[a' b']|e]; intros [= <-]; cbn [net_threads]; rewrite last_snoc; intros [= <-]. by exists a'.
Qed.
Lemma promote_at_ok h now s r s' : promote_at h now s = (r, s') → inv s → with_handle h s →
  inv s' ∧ evolves s s' ∧ (r = Ok true → cd_open (ds_cand s) = true → in_force (ds_net s) h now).
Proof.
  intros Hp Hi Hh. unfold promote_at in Hp. destruct (net_step (ds_net s) _) as [n|] eqn:En; [|simplify_eq; split_and!; [done|apply evolves_refl|done]].
  assert (Hno : cd_handle (ds_cand s) ≠ None) by (unfold with_handle in Hh; by rewrite Hh). destruct (net_call_ok _ (CallPromote h (PyInt now) (Some CONNECTED_CALLBACK)) _ Hi Hno ltac:(done) En) as [Hi1 He1].
  destruct (last_outcome n) as [[[z|e]|r1|b]|] eqn:El; simplify_eq; try (by split_and!). destruct b; [|by split_and!].
  destruct (promoted_flag _ Hi1) as [Hi2 He2]. split_and!; [done|by eapply evolves_trans|]. intros _ Ho. destruct (promote_call _ _ _ _ _ _ En El) as [a' Ha]. by eapply promoted_force.
Qed.
Lemma promote_ok h s r s' : inv s → with_handle h s → promote_active_connection h s = Some (r, s') →
  inv s' ∧ evolves s s' ∧ (r = Ok true → cd_open (ds_cand s') = true → promotion s s' h).
Proof.
  intros Hi Hh [(now & s1 & E1 & E2)|(e & E & ->)]%bind_inv.
  2: { destruct (sound_host evolves qu_evolves _ _ _ _ Hi E). by split_and!. }
  destruct (sound_host evolves qu_evolves _ _ _ _ Hi E1) as [Hi1 He1]. unfold atomic in E2.
  destruct (others_ok s1 Hi1) as [Hi2 [He2 _]]. set (s2 := step_others s1) in *. assert (He : evolves s s2) by (by eapply evolves_trans).
  destruct (promote_at h now s2) as [r3 s3] eqn:Ep. injection E2 as <- <-.
  destruct (promote_at_ok _ _ _ _ _ Ep Hi2 (stable_handle h _ _ He Hh)) as (Hi3 & He3 & Hforce). destruct (observe_ok _ Hi3) as [Hi4 [He4 _]].
  split_and!; [done|eapply evolves_trans; [exact He|by eapply evolves_trans]|]. intros -> Ho. exists (ds_net s2), now.
  split_and!; [exact (ev_later _ _ He)|exact (ev_later _ _ He3)|]. apply Hforce; [done|]. by apply (ev_open _ _ He3).
Qed.

(** *** Registration *)
Lemma registered_ok t now s r s' : inv s → idle (ds_cand s) → registered_at issued policy purpose t now s = Some (r, s') →
  inv s' ∧ later (ds_net s) (ds_net s') ∧ ∀ h, r = Ok h → with_handle h s'.
Proof.
  intros Hi Hidle. unfold registered_at. destruct (others_ok s Hi) as [Hi1 [He1 Hq1]]. specialize (Hq1 Hidle). set (s1 := step_others s) in *.
  set (i := length (net_threads (ds_net s1))). set (args := pending_registration issued policy purpose t now).
  pose proof (call_register_registers issued policy (net_auth (ds_net s1)) args ltac:(done)) as Hreg.
  assert (Hrun : ∃ n, net_step (ds_net s1) (OpCall (CallRegister args)) = Some n ∧ registering issued policy n i).
  { unfold net_step. destruct (call_start (net_auth (ds_net s1)) (CallRegister args)) as [a th]. cbn [snd] in Hreg. eexists. split; [done|]. exists th. split; [|done].
    cbn [net_threads]. by apply list_lookup_middle. }
  destruct Hrun as (n & En & Hn). pose proof (later_step _ _ _ En) as Hlate.
  set (s2 := run_op (OpCall (CallRegister args)) (with_cand (set_thread i) s1)). 
  assert (Hs2 : s2 = observe (with_net n (with_cand (set_thread i) s1))).
  { unfold s2, run_op. cbn [ds_net with_cand]. rewrite En. f_equal. unfold note_handle. cbn [with_net with_cand ds_cand ds_net set_thread cd_handle cd_thread].
    rewrite (id_handle _ Hq1). destruct Hn as (th & -> & Hth). destruct th as [| | | |o]; try done. by destruct o as [|[]|]. }
  assert (Hi2 : inv s2).
  { rewrite Hs2. refine (proj1 (observe_ok _ _)). destruct Hi1 as [R1 R2 [_ _ _ _ Hsk _ _] R3 R4]. destruct Hq1 as [Q1 Q2 Q3 Q4 Q5].
    split; [by eapply later_reachable|by eapply later_trans| |done|done]. split; cbn; rewrite ?Q2, ?Q3, ?Q4, ?Q5; try done; try exact Hsk. by intros ? [= <-]. }
  clearbody s2. cbv zeta. destruct (dh_schedule (ds_net s2) i (ds_world s2)) as [ops w]. destruct (world_ok s2 w Hi2) as [Hi3 [He3 _]].
  destruct (other_ops_ok ops _ Hi3) as [Hi4 [He4 _]]. set (s4 := foldl other_op (with_world w s2) ops) in *.
  destruct (net_threads (ds_net s4) !! i) as [th|] eqn:Eth; [|done]. destruct th as [| | | |o]; try done. destruct o as [|r4|]; try done. intros [= <- <-].
  split_and!; [done| |].
  - eapply later_trans; [exact (ev_later _ _ He1)|]. eapply later_trans; [exact Hlate|]. assert (Hn2 : ds_net s2 = n) by (by rewrite Hs2). rewrite <-Hn2. exact (later_trans _ _ _ (ev_later _ _ He3) (ev_later _ _ He4)).
  - intros h ->. assert (Hthread : cd_thread (ds_cand s4) = Some i) by (rewrite (ev_thread _ _ He4), (ev_thread _ _ He3), Hs2; done).
    unfold with_handle. destruct (cd_handle (ds_cand s4)) as [h'|] eqn:Eh.
    + pose proof (co_registered _ _ (in_cand _ Hi4) _ _ Hthread Eh) as Hreg'. rewrite Eth in Hreg'. by injection Hreg' as ->.
    + destruct (co_registering _ _ (in_cand _ Hi4) _ Hthread Eh) as (th & Hth & Hx). rewrite Eth in Hth. by injection Hth as <-.
Qed.

(** *** Clean-up *)
Definition ends (P : dstate → Prop) {A} (m : dial A) (Q : A → dstate → Prop) : Prop :=
  ∀ s r s', inv s → P s → m s = Some (r, s') → inv s' ∧ evolves s s' ∧ ∀ a, r = Ok a → Q a s'.
Lemma ends_needs P {A} (m : dial A) : needs P m → ends P m (λ _ _, True).
Proof. intros Hm s r s' Hi Hp Hs. by destruct (Hm _ _ _ Hi Hp Hs). Qed.
Lemma ends_bind P {A B} (m : dial A) (f : A → dial B) R Q : ends P m R → (∀ a, ends (R a) (f a) Q) → ends P (m ≫= f) Q.
Proof.
  intros Hm Hf s r s' Hi Hp [(a & s1 & E1 & E2)|(e & E & ->)]%bind_inv.
  - destruct (Hm _ _ _ Hi Hp E1) as (Hi1 & He1 & Hr). destruct (Hf _ _ _ _ Hi1 (Hr a eq_refl) E2) as (Hi2 & He2 & Hq). split_and!; [done|by eapply evolves_trans|done].
  - destruct (Hm _ _ _ Hi Hp E) as (Hi1 & He1 & _). by split_and!.
Qed.
Lemma ends_ret P {A} (a : A) (Q : A → dstate → Prop) : (∀ s, inv s → P s → Q a s) → ends P (mret a) Q.
Proof. intros HQ s r s' Hi Hp [= <- <-]. split_and!; [done|apply evolves_refl|]. intros b [= <-]. auto. Qed.
Lemma ends_raise P {A} e (Q : A → dstate → Prop) : ends P (raise e) Q.
Proof. intros s r s' Hi Hp [= <- <-]. split_and!; [done|apply evolves_refl|done]. Qed.
Lemma ends_atomic P {A} (f : dstate → A * dstate) (Q : A → candidate → Prop) :
  stable P → (∀ s a s', f s = (a, s') → inv s → P s → inv s' ∧ evolves s s' ∧ Q a (ds_cand s')) → ends P (atomic (done f)) (λ a s, Q a (ds_cand s)).
Proof.
  intros HP Hf s r s' Hi Hp. unfold atomic, done. destruct (others_ok s Hi) as [Hi1 [Hq1 _]]. destruct (f (step_others s)) as [a s1] eqn:E. intros [= <- <-].
  destruct (Hf _ _ _ E Hi1 (HP _ _ Hq1 Hp)) as (Hi2 & R2 & HQ). destruct (observe_ok _ Hi2) as [Hi3 [Hq3 _]]. split_and!; [done|eapply evolves_trans; [exact Hq1|by eapply evolves_trans]|].
  by intros b [= <-].
Qed.
Lemma ends_candidate P : ends P get_candidate (λ c s, P s ∧ c = ds_cand s).
Proof. intros s r s' Hi Hp [= <- <-]. split_and!; [done|apply evolves_refl|]. by intros b [= <-]. Qed.
Lemma ends_catch P {A} (m : dial A) (k : exn → dial A) Q : ends P m Q → (∀ e, ends (λ _, True) (k e) Q) → ends P (catch m k) Q.
Proof.
  intros Hm Hk s r s' Hi Hp. unfold catch. destruct (m s) as [[[a|e] s1]|] eqn:E; [|intros Hs|done].
  - intros [= <- <-]. by apply (Hm _ _ _ Hi Hp).
  - destruct (Hm _ _ _ Hi Hp E) as (Hi1 & He1 & _). destruct (Hk _ _ _ _ Hi1 I Hs) as (Hi2 & He2 & HQ). split_and!; [done|by eapply evolves_trans|done].
Qed.
Lemma ends_weaken P P' {A} (m : dial A) Q Q' : ends P m Q → (∀ s, P' s → P s) → (∀ a s, Q a s → Q' a s) → ends P' m Q'.
Proof. intros Hm Hp Hq s r s' Hi Hp' Hs. destruct (Hm _ _ _ Hi (Hp _ Hp') Hs) as (? & ? & ?). split_and!; auto. Qed.
Definition anything (s : dstate) : Prop := True.
Lemma stable_anything : stable anything.
Proof. done. Qed.
(** A confirmed close leaves no open socket. *)
Definition closes (b : bool) (c : candidate) : Prop := b = true → cd_open c = false.

Lemma connection_close_ends : ends anything connection_close (λ b s, closes b (ds_cand s)).
Proof.
  unfold connection_close. eapply ends_bind.
  { apply (ends_atomic anything _ (λ o c, o = Some true ∨ o = None → cd_open c = false) stable_anything). intros s o s' Hs Hi _. destruct (cd_conn_closed (ds_cand s)) eqn:Ec.
    { simplify_eq. split_and!; [done|apply evolves_refl|]. intros _. exact (co_conn_closed _ _ (in_cand _ Hi) Ec). }
    destruct (_close_socket s) as [ok s1] eqn:E. destruct (close_socket_ok _ _ _ E Hi) as (Hi1 & [He1 _] & _ & _ & Ho). destruct ok; simplify_eq; [|split_and!; [done|done|by intros [|]]].
    destruct (conn_closed_ok _ Hi1 (Ho eq_refl)) as [Hi2 He2]. split_and!; [done|by eapply evolves_trans|auto]. }
  intros [[]|]; cbv beta.
  - eapply ends_bind; [apply ends_candidate|]. intros c. eapply (ends_bind _ _ _ (λ _, shut)); [|intros _; apply ends_ret; by intros s _ Hs _].
    destruct (cd_handle c) as [h|]; [|apply ends_ret; intros s _ [Hs _]; apply Hs; by left].
    intros s r s' Hi [Hs _] Hr. destruct (release_needs h _ _ _ Hi (Hs (or_introl eq_refl)) Hr) as [Hi' He']. split_and!; [done|done|]. intros _ _. exact (stable_shut _ _ He' (Hs (or_introl eq_refl))).
  - apply ends_raise.
  - apply ends_ret. intros s _ Hs _. apply Hs. by right.
Qed.
Lemma cleanup_ends : ends anything _cleanup_attempt (λ b s, closes b (ds_cand s)).
Proof.
  unfold _cleanup_attempt. eapply ends_bind; [apply ends_candidate|]. intros c. destruct (cd_promoted c).
  - eapply ends_bind; [eapply ends_weaken; [apply (ends_catch anything _ _ (λ b s, closes b (ds_cand s)))|done|done]|].
    { apply connection_close_ends. }
    { intros []; try apply ends_raise. by apply ends_ret. }
    intros b1. cbv beta. eapply (ends_bind _ _ _ (λ _ s, closes b1 (ds_cand s))).
    + destruct (cd_pending c); [|by apply ends_ret].
      apply (ends_atomic (λ s, closes b1 (ds_cand s)) _ (λ _ c, closes b1 c)).
      { intros s s' He Hc Hb. exact (stable_shut _ _ He (Hc Hb)). }
      intros s a s' Hs Hi Hc. destruct (close_wakeup_ok _ _ _ Hs Hi) as (? & [? _] & _ & Ho & _). split_and!; [done|done|]. intros Hb. rewrite Ho. auto.
    + intros b2. apply ends_ret. intros s _ Hc [Hb _]%andb_true_iff. auto.
  - eapply (ends_bind _ _ _ (λ b s, closes b (ds_cand s))).
    { destruct (cd_pending c) eqn:Ep; [|destruct (cd_socket c) eqn:Es].
      - eapply ends_weaken; [apply (ends_atomic anything close_on_owner closes stable_anything)|done|done]. intros s a s' Hs Hi _. by apply close_on_owner_ok.
      - eapply ends_weaken; [apply (ends_atomic anything _close_socket closes stable_anything)|done|done]. intros s a s' Hs Hi _. by destruct (close_socket_ok _ _ _ Hs Hi) as (? & [? _] & _ & _ & ?).
      - apply ends_ret. intros s Hi [_ ->] _. destruct (cd_open (ds_cand s)) eqn:Eo; [|done]. apply (co_socket _ _ (in_cand _ Hi)) in Eo. congruence. }
    intros b. eapply (ends_bind _ _ _ (λ _ s, closes b (ds_cand s))); [|intros _; by apply ends_ret].
    destruct b; [|by apply ends_ret]. destruct (cd_handle c) as [h|]; [|by apply ends_ret].
    intros s r s' Hi Hs Hr. assert (Hshut : shut s) by (by apply Hs). destruct (release_needs h _ _ _ Hi Hshut Hr) as [Hi' He']. split_and!; [done|done|].
    intros _ _ _. exact (stable_shut _ _ He' Hshut).
Qed.

(** *** An attempt *)
Lemma ends_keep P {A} (m : dial A) : stable P → needs P m → ends P m (λ _, P).
Proof. intros HP Hm s r s' Hi Hp Hs. destruct (Hm _ _ _ Hi Hp Hs) as [? He]. split_and!; [done|done|]. intros _ _. by eapply HP. Qed.
Definition promoted_by (s : dstate) (h : handle) : Prop := ∃ n now, later n0 n ∧ later n (ds_net s) ∧ in_force n h now.
(** As long as the socket is open, its promotion was in force. *)
Definition if_promoted (h : handle) (s : dstate) : Prop := cd_open (ds_cand s) = true → promoted_by s h.
Lemma promoted_later s s' h : evolves s s' → promoted_by s h → promoted_by s' h.
Proof. intros He (n & now & H1' & H2' & H3'). exists n, now. split_and!; [done|by eapply later_trans; [|apply He]|done]. Qed.
Lemma stable_promoted h : stable (λ s, promoted_by s h).
Proof. intros s s' He. by apply promoted_later. Qed.
Lemma stable_if_promoted h : stable (if_promoted h).
Proof. intros s s' He Hp Ho. eapply promoted_later; [exact He|]. by apply Hp, (ev_open _ _ He). Qed.
Lemma promote_ends h : ends (with_handle h) (promote_active_connection h) (λ b s, b = true → if_promoted h s).
Proof.
  intros s r s' Hi Hh Hs. destruct (promote_ok _ _ _ _ Hi Hh Hs) as (Hi' & He & Hp). split_and!; [done|done|]. intros b Hb Hbt Ho. subst b r.
  destruct (Hp eq_refl Ho) as (n & now & H1' & H2' & H3'). exists n, now. split_and!; [|done|done]. by eapply later_trans; [apply (in_later _ Hi)|].
Qed.
Lemma finish_ends h : ends (if_promoted h) finish_connected (λ _, if_promoted h).
Proof.
  apply ends_keep; [apply stable_if_promoted|]. apply needs_atomic; [apply stable_if_promoted|]. intros s r s' Hi _. unfold done. destruct (_ || _); [intros [= <- <-]; split; [done|apply evolves_refl]|].
  destruct (_close_wakeup_pair_locked s) as [b s1] eqn:E. intros [= <- <-]. by destruct (close_wakeup_ok _ _ _ E Hi) as (? & [? _] & _).
Qed.
Lemma opened_ends h : ends (if_promoted h) (atomic (λ s, (Ok (cd_open (ds_cand s)), s))) (λ b s, b = true → promoted_by s h).
Proof.
  intros s r s' Hi Hp. unfold atomic. destruct (others_ok s Hi) as [Hi1 [Hq1 _]]. destruct (observe_ok _ Hi1) as [Hi2 [Hq2 _]]. intros [= <- <-].
  split_and!; [done|by eapply evolves_trans|]. intros b [= <-] Ho. eapply promoted_later; [exact Hq2|]. by apply (stable_if_promoted h _ _ Hq1 Hp).
Qed.
Lemma ends_unless P (b : bool) e (Q : dstate → Prop) : (∀ s, inv s → P s → b = false → Q s) → ends P (if b then raise e else mret tt) (λ _, Q).
Proof. intros HQ. destruct b; [apply ends_raise|]. apply ends_ret. intros s Hi Hp. by apply HQ. Qed.
Lemma ends_quiet P {A} (m : dial A) : stable P → sound evolves m → ends P m (λ _, P).
Proof. intros HP Hm. apply ends_keep; [done|by apply needs_sound]. Qed.
Lemma evolves_verify t : sound evolves (verify_target issued policy purpose t).
Proof. apply sound_verify; [exact evolves_refl|exact evolves_trans|exact qu_evolves]. Qed.

(** The lease was verified for the target at some moment since the start. *)
Definition verified_by (t : HttpsConnectTarget) (s : dstate) : Prop :=
  ∃ n now, later n0 n ∧ later n (ds_net s) ∧ verify_request (net_auth n) issued policy (Some purpose) (PyStr (ct_hostname t)) (PyInt (ct_port t)) (PyInt now) = Ok tt.
Lemma stable_verified t : stable (verified_by t).
Proof. intros s s' He (n & now & H1' & H2' & H3'). exists n, now. split_and!; [done|by eapply later_trans; [|apply He]|done]. Qed.
Lemma verify_ends t : ends anything (verify_target issued policy purpose t) (λ _, verified_by t).
Proof.
  intros s r s' Hi _ [(now & s1 & E1 & E2)|(e & E & ->)]%bind_inv.
  2: { destruct (sound_host evolves qu_evolves _ _ _ _ Hi E). by split_and!. }
  destruct (sound_host evolves qu_evolves _ _ _ _ Hi E1) as [Hi1 He1]. unfold atomic in E2. destruct (others_ok s1 Hi1) as [Hi2 [He2 _]]. destruct (observe_ok _ Hi2) as [Hi3 [He3 _]].
  injection E2 as <- <-. split_and!; [done|eapply evolves_trans; [exact He1|by eapply evolves_trans]|]. intros [] Hv. exists (ds_net (step_others s1)), now. split_and!; [apply (in_later _ Hi2)|apply He3|done].
Qed.
(** From the registration on. *)
Definition connected (t : HttpsConnectTarget) (d : ResolvedNetworkTarget) (c : AuthorizedHttpsConnection) (s : dstate) : Prop :=
  ac_target c = t ∧ ac_sockaddr c = rt_sockaddr d ∧ with_handle (ac_handle c) s ∧ verified_by t s ∧ promoted_by s (ac_handle c).
Definition establish (t : HttpsConnectTarget) (d : ResolvedNetworkTarget) (h : handle) : dial AuthorizedHttpsConnection :=
  _connect_numeric (rt_sockaddr d) ;;
  stop_if_cancelled ;;
  _ ← host_try (dh_setblocking true);
  verify_target issued policy purpose t ;;
  stop_if_cancelled ;;
  promoted ← promote_active_connection h;
  (if negb promoted then raise (NLE "network connection could not be promoted") else mret tt) ;;
  finished ← finish_connected;
  opened ← atomic (λ s, (Ok (cd_open (ds_cand s)), s));
  (if negb finished || negb opened then raise NetworkConnectError else mret tt) ;;
  stop_if_cancelled ;;
  mret (mkConnected t (rt_sockaddr d) h).
Lemma stable_and P Q : stable P → stable Q → stable (λ s, P s ∧ Q s).
Proof. intros HP HQ s s' He [? ?]. split; eauto. Qed.
Lemma ends_both P P' {A} (m : dial A) Q : stable P' → ends P m Q → ends (λ s, P s ∧ P' s) m (λ a s, Q a s ∧ P' s).
Proof. intros HP' Hm s r s' Hi [Hp Hp'] Hs. destruct (Hm _ _ _ Hi Hp Hs) as (Hi' & He & HQ). split_and!; [done|done|]. intros a Ha. split; [auto|by eapply HP']. Qed.
Lemma establish_ends t d h : allowed (rt_sockaddr d) → ends (with_handle h) (establish t d h) (connected t d).
Proof.
  intros Ha. pose proof (stable_handle h) as Hh. pose proof (stable_and _ _ (stable_verified t) Hh) as Hk. set (known := λ s, verified_by t s ∧ with_handle h s) in Hk. unfold establish.
  eapply ends_bind; [apply ends_keep; [done|by apply connect_needs]|intros ?; cbv beta]. eapply ends_bind; [apply ends_quiet; [done|exact evolves_stop]|intros ?; cbv beta].
  eapply ends_bind; [apply ends_quiet; [done|apply sound_host_try, qu_evolves]|intros ?; cbv beta].
  eapply ends_bind; [eapply (ends_weaken _ _ _ _ (λ _, known)); [apply (ends_both anything (with_handle h)); [done|apply verify_ends]|by intros s Hs; split|done]|intros ?; cbv beta].
  eapply ends_bind; [apply ends_quiet; [done|exact evolves_stop]|intros ?; cbv beta].
  eapply ends_bind; [eapply ends_weaken; [apply (ends_both (with_handle h) known); [done|apply promote_ends]|by intros s [? Hs]; split; [|split]|intros b0 s Hq; exact Hq]|intros promoted; cbv beta].
  eapply ends_bind; [apply (ends_unless _ _ _ (λ s, if_promoted h s ∧ known s)); intros s _ [Hp Hw] Hb; split; [apply Hp; by destruct promoted|done]|intros ?; cbv beta].
  eapply ends_bind; [apply (ends_both (if_promoted h) known); [done|apply finish_ends]|intros finished; cbv beta].
  eapply ends_bind; [apply (ends_both (if_promoted h) known); [done|apply opened_ends]|intros opened; cbv beta].
  eapply ends_bind; [apply (ends_unless _ _ _ (λ s, promoted_by s h ∧ known s)); intros s _ [Hp Hw] [_ Hb]%orb_false_iff; split; [apply Hp; by destruct opened|done]|intros ?; cbv beta].
  eapply ends_bind; [apply ends_quiet; [apply stable_and; [apply stable_promoted|done]|exact evolves_stop]|intros ?; cbv beta].
  apply ends_ret. intros s _ [Hp [Hv Hw]]. by split_and!.
Qed.

(** Before it: nothing is known of the candidate. *)
Lemma new_socket_ok s r s' : inv s → idle (ds_cand s) → new_socket s = Some (r, s') → inv s' ∧ later (ds_net s) (ds_net s') ∧ idle (ds_cand s').
Proof.
  intros Hi Hid. unfold new_socket, atomic. destruct (others_ok s Hi) as [Hi1 [Hq1 Hid1]]. specialize (Hid1 Hid). set (s1 := step_others s) in *.
  assert (Hend : ∀ s2, inv s2 → idle (ds_cand s2) → ds_net s2 = ds_net s1 → inv (observe s2) ∧ later (ds_net s) (ds_net (observe s2)) ∧ idle (ds_cand (observe s2))).
  { intros s2 Hi2 Hid2 Hn. destruct (observe_ok _ Hi2) as [Hi3 [Hq3 Hid3]]. split_and!; [done| |auto]. eapply later_trans; [apply Hq1|]. rewrite <-Hn. apply Hq3. }
  destruct (dh_socket (ds_world s1)) as [[[]|e] w]; intros [= <- <-]; apply Hend; try done.
  - destruct Hi1 as [R1 R2 [C1 C2 C3 C4 C5 C6 C7] R3 R4]. destruct Hid1 as [Q1 Q2 Q3 Q4 Q5]. split; [done|done| |done|done]. split; cbn; rewrite ?Q1, ?Q2, ?Q3, ?Q4, ?Q5; done.
  - by destruct Hid1.
  - by destruct (world_ok s1 w Hi1).
Qed.
Lemma new_pending_ok s r s' : inv s → idle (ds_cand s) → new_pending s = Some (r, s') → inv s' ∧ later (ds_net s) (ds_net s') ∧ idle (ds_cand s').
Proof.
  intros Hi Hid. unfold new_pending, atomic. destruct (others_ok s Hi) as [Hi1 [Hq1 Hid1]]. specialize (Hid1 Hid). set (s1 := step_others s) in *.
  assert (Hend : ∀ s2, inv s2 → idle (ds_cand s2) → ds_net s2 = ds_net s1 → inv (observe s2) ∧ later (ds_net s) (ds_net (observe s2)) ∧ idle (ds_cand (observe s2))).
  { intros s2 Hi2 Hid2 Hn. destruct (observe_ok _ Hi2) as [Hi3 [Hq3 Hid3]]. split_and!; [done| |auto]. eapply later_trans; [apply Hq1|]. rewrite <-Hn. apply Hq3. }
  destruct (dh_socketpair (ds_world s1)) as [[[]|e] w]; intros [= <- <-]; apply Hend; try done.
  - destruct Hi1 as [R1 R2 [C1 C2 C3 C4 C5 C6 C7] R3 R4]. destruct Hid1 as [Q1 Q2 Q3 Q4 Q5]. split; [done|done| |done|done]. split; cbn; rewrite ?Q1, ?Q2, ?Q3, ?Q4, ?Q5; done.
  - by destruct Hid1.
  - by destruct (world_ok s1 w Hi1).
Qed.

Lemma register_ok t s r s' : inv s → idle (ds_cand s) → register_active_connection issued policy purpose t s = Some (r, s') →
  inv s' ∧ later (ds_net s) (ds_net s') ∧ ∀ h, r = Ok h → with_handle h s'.
Proof.
  intros Hi Hid [(now & s1 & E1 & E2)|(e & E & ->)]%bind_inv.
  - destruct (sound_host quiet (λ _ _ q, q) _ _ _ _ Hi E1) as [Hi1 [He1 Hid1]]. destruct (registered_ok _ _ _ _ _ Hi1 (Hid1 Hid) E2) as (? & ? & ?). split_and!; [done| |done].
    by eapply later_trans; [apply He1|].
  - destruct (sound_host quiet (λ _ _ q, q) _ _ _ _ Hi E) as [Hi1 [He1 _]]. split_and!; [done|apply He1|done].
Qed.
(** A step of [connect_target] before the candidate is known, and what follows. *)
Lemma idle_bind {A B} (m : dial A) (f : A → dial B) (Q : result B → dstate → Prop) s r s' :
  (∀ s r s', inv s → idle (ds_cand s) → m s = Some (r, s') → inv s' ∧ later (ds_net s) (ds_net s') ∧ idle (ds_cand s')) →
  (∀ a s r s', inv s → idle (ds_cand s) → f a s = Some (r, s') → inv s' ∧ later (ds_net s) (ds_net s') ∧ Q r s') → (∀ e s, Q (Err e) s) →
  inv s → idle (ds_cand s) → (m ≫= f) s = Some (r, s') → inv s' ∧ later (ds_net s) (ds_net s') ∧ Q r s'.
Proof.
  intros Hm Hf HQ Hi Hid [(a & s1 & E1 & E2)|(e & E & ->)]%bind_inv.
  - destruct (Hm _ _ _ Hi Hid E1) as (Hi1 & L1 & Hid1). destruct (Hf _ _ _ _ Hi1 Hid1 E2) as (Hi2 & L2 & Hq). split_and!; [done|by eapply later_trans|done].
  - destruct (Hm _ _ _ Hi Hid E) as (Hi1 & L1 & _). by split_and!.
Qed.
Lemma quiet_idle {A} (m : dial A) : sound quiet m → ∀ s r s', inv s → idle (ds_cand s) → m s = Some (r, s') → inv s' ∧ later (ds_net s) (ds_net s') ∧ idle (ds_cand s').
Proof. intros Hm s r s' Hi Hid Hs. destruct (Hm _ _ _ Hi Hs) as [Hi' [He Hq]]. split_and!; [done|apply He|auto]. Qed.
Lemma quiet_verify t : sound quiet (verify_target issued policy purpose t).
Proof. apply sound_verify; [exact quiet_refl|exact quiet_trans|done]. Qed.
Lemma quiet_scope : sound quiet scope_open.
Proof. apply sound_scope; [exact quiet_refl|exact quiet_trans|done]. Qed.
Lemma connect_target_ok t d : allowed (rt_sockaddr d) → ∀ s r s', inv s → idle (ds_cand s) → connect_target issued policy purpose t d s = Some (r, s') →
  inv s' ∧ later (ds_net s) (ds_net s') ∧ ∀ c, r = Ok c → connected t d c s'.
Proof.
  intros Ha s r s' Hi Hid. apply (idle_bind _ _ (λ r s', ∀ c, r = Ok c → connected t d c s')); [by apply quiet_idle, quiet_verify| |done|done|done]. clear s r s' Hi Hid.
  intros [] s r s' Hi Hid. apply (idle_bind _ _ (λ r s', ∀ c, r = Ok c → connected t d c s')); [by apply quiet_idle, quiet_scope| |done|done|done]. clear s r s' Hi Hid.
  intros [] s r s' Hi Hid. apply (idle_bind _ _ (λ r s', ∀ c, r = Ok c → connected t d c s')); [exact new_socket_ok| |done|done|done]. clear s r s' Hi Hid.
  intros [] s r s' Hi Hid. apply (idle_bind _ _ (λ r s', ∀ c, r = Ok c → connected t d c s')); [exact new_pending_ok| |done|done|done]. clear s r s' Hi Hid.
  intros [] s r s' Hi Hid [(h & s1 & E1 & E2)|(e & E & ->)]%bind_inv.
  - destruct (register_ok _ _ _ _ Hi Hid E1) as (Hi1 & L1 & Hh). destruct (establish_ends t d h Ha _ _ _ Hi1 (Hh h eq_refl) E2) as (Hi2 & He2 & Hc).
    split_and!; [done|by eapply later_trans; [|apply He2]|done].
  - destruct (register_ok _ _ _ _ Hi Hid E) as (Hi1 & L1 & _). by split_and!.
Qed.

(** The attempts. *)
Definition finished (t : HttpsConnectTarget) (ds : list ResolvedNetworkTarget) (r : result AuthorizedHttpsConnection) (s : dstate) : Prop :=
  match r with
  | Ok c => ∃ d, d ∈ ds ∧ connected t d c s
  | Err e => e = NetworkConnectError
  end.
Lemma next_ok s r s' : inv s → shut s → next_candidate s = Some (r, s') → inv s' ∧ later (ds_net s) (ds_net s') ∧ idle (ds_cand s').
Proof.
  intros [R1 R2 _ R3 R4] Hs [= <- <-]. split_and!; [|apply later_refl|done]. split; [done|done|by split| |done]. cbn. apply Forall_app. split; [done|]. constructor; [exact Hs|constructor].
Qed.
(** What an attempt that failed leads to. *)
Definition after_failure (e : exn) : dial (option AuthorizedHttpsConnection) :=
  closed ← _cleanup_attempt;
  match e with
  | OSError | NetworkDestinationError _ => if closed : bool then mret None else raise NetworkConnectError
  | _ => raise NetworkConnectError
  end.
(** The clean-up itself raises nothing. *)
Definition only {A} (P : exn → Prop) (m : dial A) : Prop := ∀ s e s', m s = Some (Err e, s') → P e.
Lemma only_bind {A B} P (m : dial A) (f : A → dial B) : only P m → (∀ a, only P (f a)) → only P (m ≫= f).
Proof. intros Hm Hf s e s' [(a & s1 & _ & E2)|(e1 & E & [= ->])]%bind_inv; [by eapply Hf|by eapply Hm]. Qed.
Lemma only_ret {A} P (a : A) : only P (mret a).
Proof. by intros s e s' [=]. Qed.
Lemma only_raise {A} (P : exn → Prop) e : P e → only P (raise (A := A) e).
Proof. by intros Hp s e' s' [= <- _]. Qed.
Lemma only_done {A} P (f : dstate → A * dstate) : only P (atomic (done f)).
Proof. intros s e s'. unfold atomic, done. by destruct (f _). Qed.
Lemma only_release P h : only P (release_active_connection h).
Proof. by intros s e s' [=]. Qed.
Lemma only_candidate P : only P get_candidate.
Proof. by intros s e s' [=]. Qed.
Lemma only_catch {A} P P' (m : dial A) k : only P' m → (∀ e, P' e → only P (k e)) → only P (catch m k).
Proof. intros Hm Hk s e s'. unfold catch. destruct (m s) as [[[a|e1] s1]|] eqn:E; [done| |done]. apply Hk. by eapply Hm. Qed.
Lemma cleanup_total : only (λ _, False) _cleanup_attempt.
Proof.
  assert (Hclose : only (λ e, e = NetworkConnectError) connection_close).
  { apply only_bind; [apply only_done|]. intros [[]|]; [|by apply only_raise|apply only_ret]. apply only_bind; [apply only_candidate|]. intros c.
    apply only_bind; [destruct (cd_handle c); [apply only_release|apply only_ret]|intros _; apply only_ret]. }
  apply only_bind; [apply only_candidate|]. intros c. destruct (cd_promoted c).
  - apply only_bind; [apply (only_catch _ (λ e, e = NetworkConnectError)); [done|]; intros e ->; apply only_ret|]. intros b1.
    apply only_bind; [destruct (cd_pending c); [apply only_done|apply only_ret]|intros b2; apply only_ret].
  - apply only_bind; [destruct (cd_pending c); [apply only_done|destruct (cd_socket c); [apply only_done|apply only_ret]]|]. intros b.
    apply only_bind; [destruct b; [destruct (cd_handle c); [apply only_release|apply only_ret]|apply only_ret]|intros _; apply only_ret].
Qed.
Lemma failure_only e : only (λ e, e = NetworkConnectError) (after_failure e).
Proof.
  apply only_bind; [intros s e' s' Hs; by destruct (cleanup_total _ _ _ Hs)|]. intros b. destruct e; try (by apply only_raise); destruct b; first [apply only_ret|by apply only_raise].
Qed.
Lemma failure_ends e : ends anything (after_failure e) (λ o s, o = None ∧ shut s).
Proof.
  unfold after_failure. eapply ends_bind; [apply cleanup_ends|]. intros b. cbv beta.
  destruct e; try apply ends_raise; (destruct b; [apply ends_ret; intros s _ Hc; split; [done|by apply Hc]|apply ends_raise]).
Qed.
Lemma attempt_ok t d : allowed (rt_sockaddr d) → ∀ s r s', inv s → shut s → attempt issued policy purpose t d s = Some (r, s') →
  inv s' ∧ later (ds_net s) (ds_net s') ∧
  match r with Ok (Some c) => connected t d c s' | Ok None => shut s' | Err e => e = NetworkConnectError end.
Proof.
  intros Ha s r s' Hi Hs [(a & s1 & E1 & E2)|(e & E & ->)]%bind_inv; [|discriminate E].
  destruct (next_ok _ _ _ Hi Hs E1) as (Hi1 & L1 & Hid). unfold catch in E2.
  destruct ((c ← connect_target issued policy purpose t d; mret (Some c)) s1) as [[[o|e] s2]|] eqn:Em; [| |done].
  - injection E2 as <- <-. apply bind_inv in Em as [(c & s3 & E3 & E4)|(e & _ & ?)]; [|done]. injection E4 as <- <-.
    destruct (connect_target_ok t d Ha _ _ _ Hi1 Hid E3) as (Hi3 & L3 & Hc). split_and!; [done|by eapply later_trans|auto].
  - assert (Hm : inv s2 ∧ later (ds_net s1) (ds_net s2)).
    { apply bind_inv in Em as [(c & s3 & _ & E4)|(e' & E3 & _)]; [done|]. by destruct (connect_target_ok t d Ha _ _ _ Hi1 Hid E3) as (? & ? & _). }
    destruct Hm as [Hi2 L2]. change (after_failure e s2 = Some (r, s')) in E2. destruct (failure_ends e _ _ _ Hi2 I E2) as (Hi3 & He3 & Ho).
    split_and!; [done|eapply later_trans; [exact L1|]; eapply later_trans; [exact L2|apply He3]|]. destruct r as [o|e']; [|by eapply failure_only]. by destruct (Ho o eq_refl) as [-> ?].
Qed.
Lemma attempts_ok t ds : ∀ s r s', Forall (λ d, allowed (rt_sockaddr d)) ds → inv s → shut s → attempts issued policy purpose t ds s = Some (r, s') →
  inv s' ∧ later (ds_net s) (ds_net s') ∧ finished t ds r s'.
Proof.
  induction ds as [|d ds IH]; intros s r s' Hds Hi Hs; cbn [attempts]; [intros [= <- <-]; split_and!; [done|apply later_refl|done]|]. apply Forall_cons in Hds as [Hd Hds].
  intros [(o & s1 & E1 & E2)|(e & E & ->)]%bind_inv.
  - destruct (attempt_ok t d Hd _ _ _ Hi Hs E1) as (Hi1 & L1 & Hr). destruct o as [c|].
    + injection E2 as <- <-. split_and!; [done|done|]. exists d. split; [apply list_elem_of_here|done].
    + destruct (IH _ _ _ Hds Hi1 Hr E2) as (Hi2 & L2 & Hf). split_and!; [done|by eapply later_trans|]. destruct r as [c|]; [|done]. destruct Hf as (d' & Hd' & Hc). exists d'. split; [by apply list_elem_of_further|done].
  - destruct (attempt_ok t d Hd _ _ _ Hi Hs E) as (Hi1 & L1 & Hr). by split_and!.
Qed.

(** *** Preparation *)
Definition prepared (request_head : pystr) (p : HttpsConnectTarget * list ResolvedNetworkTarget) : Prop :=
  parse_https_connect_request_head request_head = Ok p.1 ∧
  ∃ (w w' : W), resolve_public_tcp_targets dh_resolve dh_version (PyStr (ct_hostname p.1)) (PyInt (ct_port p.1)) w = (Ok p.2, w').
Lemma prepare_ok request_head s r s' : inv s → shut s → prepare issued policy purpose request_head s = Some (r, s') →
  inv s' ∧ evolves s s' ∧ ∀ p, r = Ok p → prepared request_head p.
Proof.
  intros Hi _ Hs. assert (Hq : ∀ B (m : dial unit) (f : unit → dial B) (Q : B → dstate → Prop), sound evolves m → ends anything (f ()) Q → ends anything (m ≫= f) Q).
  { intros B m f Q Hm Hf. eapply ends_bind; [apply (ends_quiet anything _ stable_anything Hm)|]. by intros []. }
  assert (Hscope : sound evolves scope_open) by (apply sound_scope; [exact evolves_refl|exact evolves_trans|exact qu_evolves]).
  enough (Hends : ends anything (prepare issued policy purpose request_head) (λ p _, prepared request_head p)) by (destruct (Hends _ _ _ Hi I Hs) as (? & ? & ?); done).
  unfold prepare. apply Hq; [done|]. eapply (ends_bind _ _ _ (λ t _, parse_https_connect_request_head request_head = Ok t)).
  { intros s1 r1 s2 Hi1 _ [= <- <-]. by split_and!; [|apply evolves_refl|]. }
  intros t. eapply (ends_bind _ _ _ (λ _ _, parse_https_connect_request_head request_head = Ok t)).
  { apply (ends_quiet (λ _, parse_https_connect_request_head request_head = Ok t)); [by intros ? ? _ ?|apply evolves_verify]. }
  intros []. eapply (ends_bind _ _ _ (λ ds _, prepared request_head (t, ds))).
  { intros s1 r1 s2 Hi1 Hparse. unfold host_try. destruct (resolve_public_tcp_targets _ _ _ _ (ds_world s1)) as [ds w] eqn:Er. intros [= <- <-].
    destruct (world_ok s1 w Hi1) as [Hi2 [He2 _]]. split_and!; [done|done|]. intros ds' ->. split; [done|]. by exists (ds_world s1), w. }
  intros ds. assert (Hkeep : ∀ B (m : dial unit) (f : unit → dial B) (Q : B → dstate → Prop), sound evolves m → ends (λ _, prepared request_head (t, ds)) (f ()) Q → ends (λ _, prepared request_head (t, ds)) (m ≫= f) Q).
  { intros B m f Q Hm Hf. eapply ends_bind; [apply (ends_quiet (λ _, prepared request_head (t, ds))); [by intros ? ? _ ?|exact Hm]|]. by intros []. }
  apply Hkeep; [done|]. apply Hkeep; [apply evolves_verify|]. apply Hkeep; [done|]. apply ends_ret. auto.
Qed.
(** The targets that [leased_connect.py] hands out are those of a resolution that
    came between two verifications of the lease. *)
Lemma leased_targets_ok request_head s v s' : inv s → resolve_leased_https_connect_targets issued policy purpose request_head s = Some (Ok v, s') →
  ∃ t, prepared request_head (t, vt_targets v) ∧ vt_hostname v = ct_hostname t ∧ vt_port v = ct_port t ∧ verified_by t s'.
Proof.
  intros Hi. unfold resolve_leased_https_connect_targets. intros [(t & s1 & E1 & E)|(e & _ & [=])]%bind_inv. injection E1 as Ep <-.
  apply bind_inv in E as [([] & s2 & Ev & E)|(e & _ & [=])]. destruct (evolves_verify t _ _ _ Hi Ev) as [Hi2 _].
  apply bind_inv in E as [(ds & s3 & Er & E)|(e & _ & [=])]. unfold host_try in Er. destruct (resolve_public_tcp_targets _ _ _ _ (ds_world s2)) as [r w] eqn:Ew. injection Er as -> <-.
  destruct (world_ok s2 w Hi2) as [Hi3 _]. apply bind_inv in E as [([] & s4 & Ev' & E)|(e & _ & [=])]. injection E as <- <-.
  destruct (verify_ends t _ _ _ Hi3 I Ev') as (_ & _ & Hv). exists t. split_and!; [split; [done|]; by exists (ds_world s2), w|done|done|exact (Hv tt eq_refl)].
Qed.
End safety.

(** ** The wait for a connect ends *)
Section clock.
Context `{FloatRepr, IanaAdded} {W : Type} `{DialHost W} (clock : W → Z).
(** What [time.monotonic] promises, and that a [select] without events has waited. *)
Record clock_laws : Prop := {
  cl_others n w ops event cancel w' : dh_others n w = (ops, event, cancel, w') → (clock w ≤ clock w')%Z;
  cl_now w now w' : dh_monotonic_ns w = (now, w') → now = clock w ∧ (clock w ≤ clock w')%Z;
  cl_close w raised gone w' : dh_close w = (raised, gone, w') → (clock w ≤ clock w')%Z;
  cl_setblocking b w r w' : dh_setblocking b w = (r, w') → (clock w ≤ clock w')%Z;
  cl_connect sa w code w' : dh_connect_ex sa w = (code, w') → (clock w ≤ clock w')%Z;
  cl_so_error w code w' : dh_so_error w = (code, w') → (clock w ≤ clock w')%Z;
  cl_select timeout w cancel ready w' : dh_select timeout w = (cancel, ready, w') → (clock w + (if cancel || ready then 0 else timeout) ≤ clock w')%Z
}.
Context (Hlaws : clock_laws).
Definition at_least (t : Z) (s : @dstate W) : Prop := (t ≤ clock (ds_world s))%Z.
Lemma close_fd_clock o w ok still w' : close_fd o w = (ok, still, w') → (clock w ≤ clock w')%Z.
Proof. unfold close_fd. destruct o; [|by intros [= <- <- <-]]. destruct (dh_close w) as [[raised gone] w1] eqn:E. intros [= _ _ <-]. by eapply cl_close. Qed.
Lemma close_socket_clock t s b s' : at_least t s → _close_socket s = (b, s') → at_least t s'.
Proof. unfold _close_socket, at_least. destruct (close_fd _ _) as [[ok still] w] eqn:E. apply close_fd_clock in E. intros Ht [= _ <-]. cbn. lia. Qed.
Lemma callback_clock t s b s' : at_least t s → close_callback s = (b, s') → at_least t s'.
Proof.
  intros Ht. unfold close_callback, _close_from_authority, close_for_authority. destruct (cd_promoted _); [|destruct (cd_closed (ds_cand s)); intros [= _ <-]; exact Ht].
  destruct (cd_conn_closed _); [intros [= _ <-]; exact Ht|]. destruct (_close_socket s) as [ok s1] eqn:E. apply (close_socket_clock t) in E; [|done]. destruct ok; intros [= _ <-]; exact E.
Qed.
Lemma run_op_clock t op s : at_least t s → at_least t (run_op op s).
Proof. unfold run_op, at_least. destruct (net_step _ _) as [n|]; [|done]. unfold note_handle. cbn. repeat case_match; done. Qed.
Lemma other_op_clock t op s : at_least t s → at_least t (other_op s op).
Proof.
  intros Ht. unfold other_op. repeat case_match; try done; try by apply run_op_clock. apply run_op_clock. by eapply callback_clock.
Qed.
Lemma step_others_clock t s : at_least t s → at_least t (step_others s).
Proof.
  intros Ht. unfold step_others. destruct (dh_others _ _) as [[[ops event] cancel] w] eqn:E. apply (cl_others Hlaws) in E.
  assert (Hf : ∀ s0, at_least t s0 → at_least t (foldl other_op s0 ops)) by (clear E Ht; induction ops as [|op ops IH]; intros s0 Hs0; [exact Hs0|]; apply IH; by apply other_op_clock).
  unfold at_least in *. cbn. apply (Hf (with_world w s)). cbn. lia.
Qed.
(** A call returns, and no time is taken back. *)
Definition returns {A} (t : Z) (m : dial A) (Q : A → Z → Prop) : Prop :=
  ∀ s, at_least t s → ∃ r s', m s = Some (r, s') ∧ ∀ a, r = Ok a → ∃ t', Q a t' ∧ at_least t' s'.
Lemma returns_bind {A B} t (m : dial A) (f : A → dial B) Q R : returns t m Q → (∀ a t', Q a t' → returns t' (f a) R) → returns t (m ≫= f) R.
Proof.
  intros Hm Hf s Hs. destruct (Hm s Hs) as (r & s1 & E & HQ). unfold mbind, dial_bind. rewrite E. destruct r as [a|e]; [|by exists (Err e), s1].
  destruct (HQ a eq_refl) as (t' & Ha & Ht'). exact (Hf a t' Ha s1 Ht').
Qed.
Lemma returns_raise {A} t e (Q : A → Z → Prop) : returns t (raise e) Q.
Proof. intros s Hs. by exists (Err e), s. Qed.
Lemma returns_ret {A} t (a : A) (Q : A → Z → Prop) : Q a t → returns t (mret a) Q.
Proof. intros Ha s Hs. exists (Ok a), s. split; [done|]. intros b [= <-]. by exists t. Qed.
Lemma returns_atomic {A} t (f : dstate → result A * dstate) : (∀ s, at_least t s → at_least t (f s).2) → returns t (atomic f) (λ _ t', t' = t).
Proof.
  intros Hf s Hs. unfold atomic. pose proof (Hf _ (step_others_clock _ _ Hs)) as Hd. destruct (f (step_others s)) as [r s1] eqn:E. exists r, (observe s1). split; [done|]. intros a _. by exists t.
Qed.
Lemma returns_stop t : returns t stop_if_cancelled (λ _ t', t' = t).
Proof.
  eapply returns_bind; [by apply returns_atomic|]. intros b t' ->. destruct b; [apply returns_raise|by apply returns_ret].
Qed.
Lemma returns_now t : returns t monotonic_ns (λ now t', (t ≤ now)%Z ∧ t' = now).
Proof.
  intros s Hs. unfold monotonic_ns, host, at_least in *. destruct (dh_monotonic_ns _) as [now w] eqn:E. apply (cl_now Hlaws) in E as [-> Hw]. do 2 eexists. split; [done|].
  intros a [= <-]. exists (clock (ds_world s)). by split_and!.
Qed.
Lemma returns_select t timeout :
  returns t (host (λ w, let '(cancel, ready, w) := dh_select timeout w in ((cancel, ready), w)))
    (λ ev t', t' = (t + (if ev.1 || ev.2 then 0 else timeout))%Z).
Proof.
  intros s Hs. unfold host, at_least in *. destruct (dh_select _ _) as [[cancel ready] w] eqn:E. apply (cl_select Hlaws) in E. do 2 eexists. split; [done|].
  intros a [= <-]. eexists. split; [done|]. cbn. lia.
Qed.
Lemma returns_so_error t : returns t (host dh_so_error) (λ _ t', t' = t).
Proof.
  intros s Hs. unfold host, at_least in *. destruct (dh_so_error _) as [code w] eqn:E. apply (cl_so_error Hlaws) in E. do 2 eexists. split; [done|].
  intros a _. exists t. split; [done|]. cbn. lia.
Qed.
Lemma returns_weaken {A} t (m : dial A) Q R : returns t m Q → (∀ a t', Q a t' → R a t') → returns t m R.
Proof.
  intros Hm HR s Hs. destruct (Hm s Hs) as (r & s' & E & HQ). exists r, s'. split; [done|]. intros a Ha. destruct (HQ a Ha) as (t' & Hq & Ht'). exists t'. auto.
Qed.
(** Each round without events takes the poll interval, or what remains. *)
Lemma wait_returns fuel t deadline : (0 < fuel)%nat → (deadline - t ≤ (Z.of_nat fuel - 1) * CONNECT_SELECTOR_POLL_INTERVAL_NS)%Z →
  returns t (wait_connected fuel deadline) (λ _ _, True).
Proof.
  revert t. induction fuel as [|fuel IH]; intros t Hpos Hd; [lia|]. cbn [wait_connected].
  eapply returns_bind; [apply returns_stop|]. intros _ ? ->. eapply returns_bind; [apply returns_now|]. intros now ? [Hnow ->].
  destruct (Z.leb_spec (deadline - now) 0) as [|Hlt]; [apply returns_raise|]. eapply returns_bind; [apply returns_select|]. cbv beta. intros [cancel ready] t1 ->. cbn [fst snd].
  eapply returns_bind; [apply returns_stop|]. cbv beta. intros _ t2 ->. destruct (cancel || ready) eqn:Ec; cbn [negb].
  - destruct cancel; [apply returns_raise|]. eapply returns_bind; [apply returns_so_error|]. intros z ? ->. destruct (z =? 0)%Z; [|apply returns_raise].
    eapply returns_weaken; [apply returns_stop|done].
  - apply IH; unfold CONNECT_SELECTOR_POLL_INTERVAL_NS in *; lia.
Qed.
Lemma setblocking_returns t b : returns t (host_try (dh_setblocking b)) (λ _ t', t' = t).
Proof.
  intros s Hs. unfold host_try, at_least in *. destruct (dh_setblocking _ _) as [r w] eqn:E. apply (cl_setblocking Hlaws) in E. do 2 eexists. split; [done|].
  intros a _. exists t. split; [done|]. cbn. lia.
Qed.
(** C40: A dial is over within its ten seconds, whatever the other end and the other
    threads do: given that the clock does not go back and that a [select] without
    events has waited for its timeout, the rounds of the poll loop are enough. *)
Theorem dial_returns sa s : is_Some (_connect_numeric sa s).
Proof.
  assert (Hret : returns (clock (ds_world s)) (_connect_numeric sa) (λ _ _, True)).
  2:{ destruct (Hret s (Z.le_refl _)) as (r & s' & -> & _). done. }
  generalize (clock (ds_world s)). intros t. clear s. unfold _connect_numeric.
  eapply returns_bind; [apply returns_stop|]. intros _ ? ->. eapply returns_bind; [apply setblocking_returns|]. intros _ ? ->.
  eapply returns_bind; [apply returns_stop|]. intros _ ? ->. eapply returns_bind.
  { apply (returns_atomic t). intros s Hs. unfold at_least in *. destruct (dh_connect_ex _ _) as [code w] eqn:E. apply (cl_connect Hlaws) in E. cbn. lia. }
  intros code ? ->. case_match; [eapply returns_weaken; [apply returns_stop|done]|]. case_match; [apply returns_raise|].
  eapply returns_bind; [apply returns_now|]. cbv beta. intros now ? [_ ->]. apply wait_returns; unfold POLLS, UPSTREAM_CONNECT_TIMEOUT_NS, NANOSECONDS_PER_SECOND, CONNECT_SELECTOR_POLL_INTERVAL_NS; lia.
Qed.
End clock.

(** ** The properties *)
Section properties.
Context `{FloatRepr, IanaAdded} {W : Type} `{DialHost W}.
Context (key : list N) (issued : IssuedNetworkLease) (policy : SandboxPolicy) (purpose : NetworkPurpose) (request_head : pystr).
(** A pinned address of the host that the request names. *)
Definition resolved_for (sa : sockaddr) : Prop :=
  ∃ t (w w' : W) ds d, parse_https_connect_request_head request_head = Ok t ∧
    resolve_public_tcp_targets dh_resolve dh_version (PyStr (ct_hostname t)) (PyInt (ct_port t)) w = (Ok ds, w') ∧ d ∈ ds ∧ rt_sockaddr d = sa ∧ pinned d.
Lemma prepared_allowed p : prepared (W := W) request_head p → Forall (λ d, resolved_for (rt_sockaddr d)) p.2.
Proof.
  intros (Hp & w & w' & Hr). apply Forall_forall. intros d Hd. exists p.1, w, w', p.2, d. split_and!; try done.
  destruct (resolution_ok _ _ _ _ _ _ _ Hr) as (_ & _ & _ & _ & _ & _ & _ & _ & _ & _ & Hpin & _). exact (proj1 (Forall_forall _ _) Hpin d Hd).
Qed.
(** A dial that starts in a reachable net. *)
Record starts (s : @dstate W) : Prop := {
  st_reach : net_reachable key (ds_net s);
  st_cand : ds_cand s = no_candidate;
  st_past : ds_past s = [];
  st_trace : ds_trace s = []
}.
Lemma starts_inv s : starts s → inv key issued policy resolved_for (ds_net s) s ∧ shut s.
Proof.
  intros [Hr Hc Hp Ht]. unfold shut. rewrite Hc. split; [|done]. split; [done|apply later_refl|rewrite Hc; by split|by rewrite Hp|by rewrite Ht].
Qed.
Lemma open_ok s r s' : starts s → open_authorized_https_connection issued policy purpose request_head s = Some (r, s') →
  inv key issued policy resolved_for (ds_net s) s' ∧
  match r with
  | Ok c => ∃ t ds d, prepared (W := W) request_head (t, ds) ∧ d ∈ ds ∧ connected issued policy purpose (ds_net s) t d c s'
  | Err e => e = NetworkConnectError
  end.
Proof.
  intros Hstart. destruct (starts_inv s Hstart) as [Hi Hshut]. unfold open_authorized_https_connection. intros [(p & s1 & E1 & E2)|(e & E & ->)]%bind_inv.
  - unfold catch in E1. destruct (prepare issued policy purpose request_head s) as [[[p'|e] s2]|] eqn:Ep; [|discriminate E1|done]. injection E1 as -> ->.
    destruct (prepare_ok key issued policy purpose resolved_for _ _ _ _ _ Hi Hshut Ep) as (Hi1 & He1 & Hp). specialize (Hp p eq_refl).
    destruct (attempts_ok key issued policy purpose resolved_for _ _ _ _ _ _ (prepared_allowed _ Hp) Hi1 (stable_shut _ _ He1 Hshut) E2) as (Hi2 & _ & Hf).
    split; [done|]. destruct r as [c|]; [|done]. destruct Hf as (d & Hd & Hc). exists p.1, p.2, d. destruct p. by split_and!.
  - unfold catch in E. destruct (prepare issued policy purpose request_head s) as [[[p'|e'] s2]|] eqn:Ep; [discriminate E| |done]. injection E as <- <-.
    by destruct (prepare_ok key issued policy purpose resolved_for _ _ _ _ _ Hi Hshut Ep) as (Hi1 & _ & _).
Qed.

(** C13: No upstream socket without authority.  Whatever other threads, DNS and the
    network do during a dial, at every moment a socket that has been dialed was
    dialed to a pinned address of the requested host, and while it is open
    the authority holds its entry, with this lease, so that a revocation finds it;
    and an attempt that another one follows has left its socket closed. *)
Theorem dialed_tracked s r s' :
  starts s → open_authorized_https_connection issued policy purpose request_head s = Some (r, s') →
  Forall (λ sn, ∀ sa, cd_dialed (sn_candidate sn) = Some sa →
    resolved_for sa ∧
    ∃ h, cd_handle (sn_candidate sn) = Some h ∧ (cd_open (sn_candidate sn) = true → own_entry issued policy (net_auth (sn_net sn)) h))
    (ds_trace s' ++ [mkSnapshot (ds_net s') (ds_cand s')]) ∧
  Forall (λ c, cd_open c = false) (ds_past s').
Proof.
  intros Hstart Hs. destruct (open_ok _ _ _ Hstart Hs) as [[_ _ Hc Hp Ht] _]. split; [|done].
  assert (Hsn : ∀ sn, cand_ok issued policy resolved_for (sn_net sn) (sn_candidate sn) → ∀ sa, cd_dialed (sn_candidate sn) = Some sa →
    resolved_for sa ∧ ∃ h, cd_handle (sn_candidate sn) = Some h ∧ (cd_open (sn_candidate sn) = true → own_entry issued policy (net_auth (sn_net sn)) h)).
  { intros sn [C1 C2 _ _ _ _ _] sa Hsa. destruct (C1 sa Hsa) as [Hh Hall]. split; [done|]. destruct (cd_handle (sn_candidate sn)) as [h|] eqn:Eh; [|done].
    exists h. split; [done|]. intros Ho. exact (proj1 (C2 h eq_refl Ho)). }
  apply Forall_app. split; [eapply Forall_impl; [exact Ht|exact Hsn]|]. constructor; [exact (Hsn (mkSnapshot _ _) Hc)|constructor].
Qed.

(** C12: A connection is authorised when it is handed out, or there is none.  A dial
    that returns a connection parsed the request, verified its host and port under
    the lease, and promoted a socket that was dialed to a pinned address of
    that host while the authority had its entry and the lease was unrevoked and
    within its time; so a lease revoked before the dial never gives one.  Any
    failure is reported as [NetworkConnectError] alone. *)
Theorem connection_authorised s r s' :
  starts s → open_authorized_https_connection issued policy purpose request_head s = Some (r, s') →
  match r with
  | Err e => e = NetworkConnectError
  | Ok c =>
    parse_https_connect_request_head request_head = Ok (ac_target c) ∧ resolved_for (ac_sockaddr c) ∧
    (∃ n now, later (ds_net s) n ∧ later n (ds_net s') ∧
       verify_request (net_auth n) issued policy (Some purpose) (PyStr (ct_hostname (ac_target c))) (PyInt (ct_port (ac_target c))) (PyInt now) = Ok tt) ∧
    (∃ n now, later (ds_net s) n ∧ later n (ds_net s') ∧ in_force issued policy n (ac_handle c) now) ∧
    ∀ k, _policy_key policy = Ok k → (generation_of (net_auth (ds_net s)) k ≤ nl_generation (lease issued))%Z
  end.
Proof.
  intros Hstart Hs. destruct (open_ok _ _ _ Hstart Hs) as [_ Hr]. destruct r as [c|]; [|done].
  destruct Hr as (t & ds & d & Hp & Hd & -> & -> & _ & Hv & Hpromoted). pose proof (prepared_allowed _ Hp) as Hall.
  split_and!; [exact (proj1 Hp)|exact (proj1 (Forall_forall _ _) Hall d Hd)|done|done|].
  intros k Hk. destruct Hpromoted as (n & now & [ops Hops] & _ & [_ _ (k' & Hk' & _ & Hg)]). rewrite Hk in Hk'. injection Hk' as <-. rewrite Hg. by eapply run_generation.
Qed.
End properties.

Module ConnectorSample.
Import DestinationSample.
#[local] Existing Instance no_floats.
(** The world is its clock; another thread revokes the policy from [revoke_at] on,
    and answers when it has called back. *)
Definition sample_host (revoke_at : Z) : DialHost Z := {|
  dh_others n w :=
    (if (revoke_at <=? w)%Z then
       match length (net_threads n) with
       | 1%nat => [OpCall (CallRevoke sample_tight); OpStep 1 EvRun]
       | _ => [OpStep 1 (EvAnswer None)]
       end
     else [], false, (revoke_at <=? w)%Z, w);
  dh_schedule n i w := ([OpStep i EvRun; OpStep i (EvClock (Some (PyInt w)) demo_token)], w + 1)%Z;
  dh_monotonic_ns w := (w, w + 1)%Z;
  dh_resolve _ _ w := (Ok (PyList public_answers), w);
  dh_version := version;
  dh_socket w := (Ok tt, w);
  dh_socketpair w := (Ok tt, w);
  dh_setblocking _ w := (Ok tt, w);
  dh_connect_ex _ w := (115, w)%Z;
  dh_select timeout w := (false, true, w + 1)%Z;
  dh_so_error w := (0, w)%Z;
  dh_close w := (false, true, w)
|}.
Definition request : pystr := u "CONNECT example.com:443 HTTP/1.1" ++ [13; 10]%N ++ u "Host: example.com:443" ++ [13; 10; 13; 10]%N.
Definition start : @dstate Z := mkDstate (net_init demo_key) 1000%Z false no_candidate [] [].
Definition run (revoke_at : Z) : option (result AuthorizedHttpsConnection * dstate) :=
  let _ := sample_host revoke_at in open_authorized_https_connection demo_lease sample_tight WEB_READ request start.
Lemma start_starts : starts demo_key start.
Proof. split; [exists []|..]; reflexivity. Qed.
Lemma sample_clock revoke_at : let _ := sample_host revoke_at in clock_laws (λ w : Z, w).
Proof. split; cbn; intros; simplify_eq; split_and?; cbn; lia. Qed.
(** What came of it: the address, whether the socket is open, the moments seen. *)
Definition summary (revoke_at : Z) : option (option sockaddr * bool * nat) :=
  match run revoke_at with
  | Some (r, s) => Some (match r with Ok c => Some (ac_sockaddr c) | Err _ => None end, cd_open (ds_cand s), length (entries (net_auth (ds_net s))))
  | None => None
  end.
End ConnectorSample.
Import DestinationSample ConnectorSample.
#[local] Existing Instance no_floats.
(** Revoked before the promotion there is no connection and no open socket; after
    it there is the connection. *)
Example revoked_while_dialing :
  summary <$> [1004; 1008; 1010; 1011]%Z
  = [Some (None, false, 0); Some (None, false, 0); Some (None, false, 0); Some (Some (Inet (u "93.184.216.34") 443), true, 1)].
Proof. vm_compute. reflexivity. Qed.

Definition connects (revoke_at : Z) : bool := match run revoke_at with Some (Ok _, _) => true | _ => false end.
Definition refuses (revoke_at : Z) : bool := match run revoke_at with Some (Err _, _) => true | _ => false end.
Lemma dialed_tracked_witness :
  match run 1008 with
  | Some (_, s') => Forall (λ sn, ∀ sa, cd_dialed (sn_candidate sn) = Some sa → cd_open (sn_candidate sn) = true →
      ∃ h, own_entry demo_lease sample_tight (net_auth (sn_net sn)) h) (ds_trace s')
  | None => False
  end.
Proof.
  pose proof (dialed_tracked (H1 := sample_host 1008) demo_key demo_lease sample_tight WEB_READ request start) as Hd.
  assert (Hr : refuses 1008 = true) by (vm_compute; reflexivity). unfold refuses in Hr. unfold run in *. cbv zeta in *.
  destruct (open_authorized_https_connection _ _ _ _ _) as [[r s']|]; [|discriminate Hr].
  destruct (Hd r s' start_starts eq_refl) as [Hall _]. apply Forall_app in Hall as [Hall _].
  eapply Forall_impl; [exact Hall|]. cbv beta. intros sn Hsn sa Hsa Ho. destruct (Hsn sa Hsa) as (_ & h & _ & Hh). exists h. exact (Hh Ho).
Defined.
Lemma connection_authorised_witness :
  match run 2000 with
  | Some (Ok c, _) => parse_https_connect_request_head request = Ok (ac_target c)
  | _ => False
  end.
Proof.
  pose proof (connection_authorised (H1 := sample_host 2000) demo_key demo_lease sample_tight WEB_READ request start) as Hc.
  assert (Hr : connects 2000 = true) by (vm_compute; reflexivity). unfold connects in Hr. unfold run in *. cbv zeta in *.
  destruct (open_authorized_https_connection _ _ _ _ _) as [[[c|e] s']|]; [|discriminate Hr|discriminate Hr].
  exact (proj1 (Hc (Ok c) s' start_starts eq_refl)).
Defined.
Lemma dial_returns_witness : let _ := sample_host 2000 in is_Some (_connect_numeric (Inet (u "93.184.216.34") 443) start).
Proof. exact (dial_returns (H1 := sample_host 2000) (λ w : Z, w) (sample_clock 2000) (Inet (u "93.184.216.34") 443) start). Defined.
