(* ===== verification/ProxyScope.v ===== *)
(** * Lifetimes of proxied connections ([src/src/icode/network_proxy_scope.py])

    [HostConnectRuntime] owns the expiry monitor and the scopes; a
    [HostHttpsConnectScope] owns the clients of one lease, from the moment they
    are accepted until their tunnels are closed.  Any number of threads open,
    relay and close at once: the code between two of their locks is one step.
    The authority and the connector answer through the events of a step, and
    the calls that matter to an owner are logged.  The properties are in
    [ProxyScopeSpec]. *)

From S2P Require Import Prelude PyText PyVal SandboxPolicy NetworkLease LeaseMonitor.

(** ** State *)
Record runtime := mkRuntime {
  rt_monitor : monitor;
  rt_scopes : list nat;          (** [_scopes], by the index of the scope *)
  rt_started : bool;
  rt_closing : bool;
  rt_closed : bool
}.
Record scope := mkScope {
  sc_closed : bool;
  sc_cancel : bool;              (** [_cancel_event.is_set()] *)
  sc_open_count : nat;
  sc_accepted : list nat;        (** sockets *)
  sc_pending : list (nat * nat); (** a socket and its handle *)
  sc_tunnels : list nat          (** by the index of the tunnel *)
}.
Record AuthorizedHttpsTunnel := mkTunnel {
  tn_scope : nat;
  tn_client : nat;
  tn_handle : nat;
  tn_upstream : nat;
  tn_closed : bool
}.
(** [HostConnectRuntime.__init__], [HostHttpsConnectScope.__init__] *)
Definition HostConnectRuntime_new (interval : pyval) : result runtime :=
  match NetworkLeaseExpiryMonitor_new interval with
  | Ok m => Ok (mkRuntime m [] false false false)
  | Err _ => Err HostConnectScopeError
  end.
Definition new_scope : scope := mkScope false false 0 [] [] [].

Definition rt_with (m : monitor) (started closing closed : bool) (r : runtime) : runtime := mkRuntime m (rt_scopes r) started closing closed.
Definition rt_with_scopes (l : list nat) (r : runtime) : runtime := mkRuntime (rt_monitor r) l (rt_started r) (rt_closing r) (rt_closed r).
Definition sc_with (count : nat) (accepted : list nat) (pending : list (nat * nat)) (tunnels : list nat) (c : scope) : scope :=
  mkScope (sc_closed c) (sc_cancel c) count accepted pending tunnels.
Definition is_nil {A} (l : list A) : bool := match l with [] => true | _ => false end.
Definition remove (x : nat) (l : list nat) : list nat := filter (λ y, y ≠ x) l.
Definition pop_pending (x : nat) (l : list (nat * nat)) : list (nat * nat) := filter (λ p, p.1 ≠ x) l.

(** ** The runtime *)
Definition monitor_ok (m : monitor) : bool := alive m && (mo_failure_count m =? 0).
Definition _healthy (r : runtime) : bool := rt_started r && negb (rt_closing r) && negb (rt_closed r) && monitor_ok (rt_monitor r).
(** [HostConnectRuntime.healthy_guard]: the body runs exactly when this succeeds. *)
Definition runtime_guard (r : runtime) : result unit :=
  raise_if (negb (rt_started r) || rt_closing r || rt_closed r) HostConnectScopeError ;;
  match LeaseMonitor.healthy_guard (rt_monitor r) with Ok _ => Ok tt | Err _ => Err HostConnectScopeError end.
(** [start]: [turns] are those of the monitor's thread before it is looked at,
    [joined] is for a [stop] of it. *)
Definition runtime_start (r : runtime) (launched : bool) (turns : list (result Z)) (joined : bool) : result unit * runtime :=
  if rt_started r || rt_closing r || rt_closed r then (Err HostConnectScopeError, r)
  else
    match LeaseMonitor.start (rt_monitor r) launched with
    | (Err _, m) => (Err HostConnectScopeError, rt_with m (rt_started r) (rt_closing r) (rt_closed r) r)
    | (Ok _, m) =>
      let m := foldl run_turn m turns in
      if monitor_ok m then (Ok tt, rt_with m true (rt_closing r) (rt_closed r) r)
      else (Err HostConnectScopeError, rt_with (stop m joined).2 (alive m) true (rt_closed r) r)
    end.
(** [create_scope], for arguments of the right classes; [i] is the new scope. *)
Definition create_scope (i : nat) (r : runtime) : result runtime :=
  if _healthy r then Ok (rt_with_scopes (rt_scopes r ++ [i]) r) else Err HostConnectScopeError.
Definition _forget_scope (i : nat) (r : runtime) : runtime := rt_with_scopes (remove i (rt_scopes r)) r.

(** ** A scope *)
(** [None]: the client is closed and [HostConnectScopeError] is raised. *)
Definition register_accepted_client (r : runtime) (sock : nat) (c : scope) : option scope :=
  if sc_closed c || negb (_healthy r) || bool_decide (sock ∈ sc_accepted c) then None
  else Some (sc_with (sc_open_count c) (sc_accepted c ++ [sock]) (sc_pending c) (sc_tunnels c) c).
Definition release_accepted_client (sock : nat) (c : scope) : scope :=
  sc_with (sc_open_count c) (remove sock (sc_accepted c)) (sc_pending c) (sc_tunnels c) c.
Definition scope_closed_error : exn := NLE "host connection scope is closed".
Definition verify_lease (r : runtime) (c : scope) (verify_scope : result unit) : result unit :=
  raise_if (sc_closed c || negb (_healthy r)) scope_closed_error ;; verify_scope.
(** [live_lease_guard], over [NetworkLease.scope_guard] *)
Definition live_lease_guard (r : runtime) (c : scope) (scope_guard : result unit) : result unit :=
  raise_if (sc_closed c || sc_cancel c) scope_closed_error ;; runtime_guard r ;; scope_guard.
(** The four locked blocks of [_open_connect]. *)
Definition open_enter (r : runtime) (c : scope) : option scope :=
  if sc_closed c || negb (_healthy r) then None
  else Some (sc_with (S (sc_open_count c)) (sc_accepted c) (sc_pending c) (sc_tunnels c) c).
Definition open_pending (sock h : nat) (c : scope) : option scope :=
  if sc_closed c || sc_cancel c then None
  else Some (sc_with (sc_open_count c) (remove sock (sc_accepted c)) (pop_pending sock (sc_pending c) ++ [(sock, h)]) (sc_tunnels c) c).
Definition open_publish (sock t : nat) (c : scope) : option scope :=
  if sc_closed c || sc_cancel c then None
  else Some (sc_with (sc_open_count c) (sc_accepted c) (pop_pending sock (sc_pending c)) (sc_tunnels c ++ [t]) c).
Definition open_leave (sock : nat) (c : scope) : scope :=
  sc_with (pred (sc_open_count c)) (sc_accepted c) (pop_pending sock (sc_pending c)) (sc_tunnels c) c.
Definition _forget_tunnel (t : nat) (c : scope) : scope :=
  sc_with (sc_open_count c) (sc_accepted c) (sc_pending c) (remove t (sc_tunnels c)) c.
(** The first block of [close], and its last test. *)
Definition close_enter (c : scope) : scope := mkScope true true (sc_open_count c) (sc_accepted c) [] (sc_tunnels c).
Definition nothing_left (c : scope) : bool := (sc_open_count c =? 0) && is_nil (sc_accepted c) && is_nil (sc_tunnels c).

(** ** Threads *)
Inductive phase :=
  | PStart
  | PPrepare
  | PRegistered (h : nat)
  | PDial (h : nat)
  | PDialed (h up : nat)
  | PVerify (h up : nat)
  | PPublish (h up : nat)
  | PFail (h up : option nat)
  | PLeave (published : option nat).
(** [close] of a scope: what is left to close, and what has failed. *)
Record closing_frame := mkFrame {
  fr_scope : nat;
  fr_accepted : list nat;
  fr_pending : list (nat * nat);
  fr_tunnels : list nat;
  fr_forget : option nat;        (** a tunnel that is closed, to be forgotten *)
  fr_ok : bool;                  (** [cleanup_ok] *)
  fr_confirmed : bool            (** the last test was passed *)
}.
Inductive answer := AOpen (tunnel : option nat) | ATunnel (closed : bool) | AScope (i : nat) (closed : bool) | ARuntime (closed : bool).
Inductive thread :=
  | TOpen (i sock : nat) (ph : phase)
  | TTunnel (t : nat) (forget : bool)
  | TScope (f : closing_frame)
  | TRuntime (todo : list nat) (f : option closing_frame) (ok : bool)
  | TStop                        (** every scope is closed, the monitor is next *)
  | TFinish                      (** the monitor has stopped *)
  | TDone (a : answer).
(** What the calls out of a scope did. *)
Inductive call :=
  | CRegistered (i h : nat)      (** [register_active_connection], [register_active_sockets] *)
  | CClosed (sock : nat) (ok : bool)
  | CUpstream (up : nat) (ok : bool)
  | CReleased (h : nat).         (** [release_active_connection] *)
Record world := mkWorld { w_rt : runtime; w_scopes : list scope; w_tunnels : list AuthorizedHttpsTunnel; w_threads : list thread; w_log : list call }.
Definition with_scope (i : nat) (c : scope) (w : world) : world := mkWorld (w_rt w) (<[i := c]> (w_scopes w)) (w_tunnels w) (w_threads w) (w_log w).
Definition with_rt (r : runtime) (w : world) : world := mkWorld r (w_scopes w) (w_tunnels w) (w_threads w) (w_log w).
Definition with_tunnels (l : list AuthorizedHttpsTunnel) (w : world) : world := mkWorld (w_rt w) (w_scopes w) l (w_threads w) (w_log w).
Definition with_thread (k : nat) (t : thread) (w : world) : world := mkWorld (w_rt w) (w_scopes w) (w_tunnels w) (<[k := t]> (w_threads w)) (w_log w).
Definition spawn (t : thread) (w : world) : world := mkWorld (w_rt w) (w_scopes w) (w_tunnels w) (w_threads w ++ [t]) (w_log w).
Definition logged (l : list call) (w : world) : world := mkWorld (w_rt w) (w_scopes w) (w_tunnels w) (w_threads w) (w_log w ++ l).

(** ** Steps *)
Inductive event :=
  | EvRun
  | EvHandle (r : option nat)    (** the client is registered; [None]: something before it failed *)
  | EvUpstream (r : option nat)
  | EvBool (b : bool)
  | EvBoth (client upstream : bool).

(** The next step of [_open_connect]: the world, and the phase after it. *)
Definition open_step (w : world) (i sock : nat) (ph : phase) (ev : event) : option (world * phase) :=
  match w_scopes w !! i with
  | None => None
  | Some c =>
    match ph, ev with
    | PStart, EvRun => Some (w, if sc_cancel c then PFail None None else PPrepare)
    | PPrepare, EvHandle None => Some (w, PFail None None)
    | PPrepare, EvHandle (Some h) => Some (logged [CRegistered i h] w, PRegistered h)
    | PRegistered h, EvRun =>
      match open_pending sock h c with Some c => Some (with_scope i c w, PDial h) | None => Some (w, PFail (Some h) None) end
    | PDial h, EvUpstream None => Some (w, PFail (Some h) None)
    | PDial h, EvUpstream (Some up) => Some (w, PDialed h up)
    | PDialed h up, EvRun => Some (w, if sc_cancel c || negb (_healthy (w_rt w)) then PFail (Some h) (Some up) else PVerify h up)
    | PVerify h up, EvBool ok => Some (w, if ok then PPublish h up else PFail (Some h) (Some up))
    | PPublish h up, EvRun =>
      let t := length (w_tunnels w) in
      match open_publish sock t c with
      | Some c => Some (with_tunnels (w_tunnels w ++ [mkTunnel i sock h up false]) (with_scope i c w), PLeave (Some t))
      | None => Some (w, PFail (Some h) (Some up))
      end
    | PFail h up, EvBoth client upstream =>
      Some (logged ((match up with Some up => [CUpstream up upstream] | None => [] end) ++ [CClosed sock client]
                    ++ (match h with Some h => [CReleased h] | None => [] end)) w, PLeave None)
    | PLeave _, EvRun => Some (with_scope i (open_leave sock c) w, ph)
    | _, _ => None
    end
  end.
(** [AuthorizedHttpsTunnel.close] up to its callback: the answer so far, and
    whether the callback is due. *)
Definition tunnel_close (w : world) (t : nat) (ev : event) : option (world * bool * bool) :=
  match w_tunnels w !! t, ev with
  | Some tn, EvBoth client upstream =>
    if tn_closed tn then Some (w, true, false)
    else
      let w := logged [CClosed (tn_client tn) client; CUpstream (tn_upstream tn) upstream; CReleased (tn_handle tn)] w in
      if client && upstream then
        Some (with_tunnels (<[t := mkTunnel (tn_scope tn) (tn_client tn) (tn_handle tn) (tn_upstream tn) true]> (w_tunnels w)) w, true, true)
      else Some (w, false, false)
  | _, _ => None
  end.
Definition forget_tunnel (t : nat) (w : world) : world :=
  match w_tunnels w !! t with
  | Some tn => match w_scopes w !! tn_scope tn with Some c => with_scope (tn_scope tn) (_forget_tunnel t c) w | None => w end
  | None => w
  end.
Definition start_close (w : world) (i : nat) : option (world * closing_frame) :=
  match w_scopes w !! i with
  | Some c => Some (with_scope i (close_enter c) w, mkFrame i (sc_accepted c) (sc_pending c) (sc_tunnels c) None true false)
  | None => None
  end.
(** The next step of [HostHttpsConnectScope.close]: go on, or the answer. *)
Definition close_step (w : world) (f : closing_frame) (ev : event) : option (world * (closing_frame + bool)) :=
  let '(mkFrame i accepted pending tunnels forget ok confirmed) := f in
  match accepted, pending, forget, tunnels, ev with
  | sock :: accepted, _, _, _, EvBool closed =>
    Some (logged [CClosed sock closed] w, inl (mkFrame i accepted pending tunnels forget (closed && ok) confirmed))
  | [], (sock, h) :: pending, _, _, EvBool closed =>
    Some (logged [CClosed sock closed; CReleased h] w, inl (mkFrame i [] pending tunnels forget (closed && ok) confirmed))
  | [], [], Some t, _, EvRun => Some (forget_tunnel t w, inl (mkFrame i [] [] tunnels None ok confirmed))
  | [], [], None, t :: tunnels, ev =>
    match tunnel_close w t ev with
    | Some (w, closed, due) => Some (w, inl (mkFrame i [] [] tunnels (if due then Some t else None) (closed && ok) confirmed))
    | None => None
    end
  | [], [], None, [], EvRun =>
    if confirmed then Some (with_rt (_forget_scope i (w_rt w)) w, inr true)
    else match w_scopes w !! i with
         | Some c => if ok && nothing_left c then Some (w, inl (mkFrame i [] [] [] None ok true)) else Some (w, inr false)
         | None => None
         end
  | _, _, _, _, _ => None
  end.
(** The next step of a thread. *)
Definition thread_step (w : world) (t : thread) (ev : event) : option (world * thread) :=
  match t with
  | TOpen i sock ph =>
    match open_step w i sock ph ev with
    | Some (w, ph') => Some (w, match ph with PLeave r => TDone (AOpen r) | _ => TOpen i sock ph' end)
    | None => None
    end
  | TTunnel t false =>
    match tunnel_close w t ev with
    | Some (w, closed, due) => Some (w, if due then TTunnel t true else TDone (ATunnel closed))
    | None => None
    end
  | TTunnel t true => match ev with EvRun => Some (forget_tunnel t w, TDone (ATunnel true)) | _ => None end
  | TScope f =>
    match close_step w f ev with
    | Some (w, inl f) => Some (w, TScope f)
    | Some (w, inr b) => Some (w, TDone (AScope (fr_scope f) b))
    | None => None
    end
  | TRuntime todo (Some f) ok =>
    match close_step w f ev with
    | Some (w, inl f) => Some (w, TRuntime todo (Some f) ok)
    | Some (w, inr b) => Some (w, TRuntime todo None (ok && b))
    | None => None
    end
  | TRuntime (i :: todo) None ok =>
    match ev, start_close w i with EvRun, Some (w, f) => Some (w, TRuntime todo (Some f) ok) | _, _ => None end
  | TRuntime [] None ok => match ev with EvRun => Some (w, if ok then TStop else TDone (ARuntime false)) | _ => None end
  | TStop =>
    match ev with
    | EvBool joined =>
      let '(stopped, m) := stop (rt_monitor (w_rt w)) joined in
      let r := w_rt w in
      Some (with_rt (rt_with m (rt_started r) (rt_closing r) (rt_closed r) r) w, if stopped then TFinish else TDone (ARuntime false))
    | _ => None
    end
  | TFinish =>
    match ev with
    | EvRun =>
      let r := w_rt w in
      if is_nil (rt_scopes r) then Some (with_rt (rt_with (rt_monitor r) (rt_started r) (rt_closing r) true r) w, TDone (ARuntime true))
      else Some (w, TDone (ARuntime false))
    | _ => None
    end
  | TDone _ => None
  end.

(** ** The system *)
Inductive op :=
  | OpStart (launched : bool) (turns : list (result Z)) (joined : bool)
  | OpTurn (sweep : result Z)                             (** the monitor's thread *)
  | OpCreate
  | OpAccept (i sock : nat) (closed : bool)               (** [closed]: of a client that is refused *)
  | OpReleaseAccepted (i sock : nat)
  | OpConnect (i sock : nat) (transport closed : bool)    (** [transport]: the socket has the right family *)
  | OpTunnelClose (t : nat)
  | OpScopeClose (i : nat)
  | OpRuntimeClose
  | OpStep (k : nat) (ev : event).
Definition step (w : world) (o : op) : option world :=
  let r := w_rt w in
  match o with
  | OpStart launched turns joined => Some (with_rt (runtime_start r launched turns joined).2 w)
  | OpTurn sweep => Some (with_rt (rt_with (run_turn (rt_monitor r) sweep) (rt_started r) (rt_closing r) (rt_closed r) r) w)
  | OpCreate =>
    match create_scope (length (w_scopes w)) r with
    | Ok r => Some (mkWorld r (w_scopes w ++ [new_scope]) (w_tunnels w) (w_threads w) (w_log w))
    | Err _ => Some w
    end
  | OpAccept i sock closed =>
    c ← w_scopes w !! i;
    Some (match register_accepted_client r sock c with Some c => with_scope i c w | None => logged [CClosed sock closed] w end)
  | OpReleaseAccepted i sock => c ← w_scopes w !! i; Some (with_scope i (release_accepted_client sock c) w)
  | OpConnect i sock transport closed =>
    c ← w_scopes w !! i;
    Some (if negb transport then logged [CClosed sock closed] w
          else match open_enter r c with
               | Some c => spawn (TOpen i sock PStart) (with_scope i c w)
               | None => logged [CClosed sock closed] w
               end)
  | OpTunnelClose t => _ ← w_tunnels w !! t; Some (spawn (TTunnel t false) w)
  | OpScopeClose i => '(w, f) ← start_close w i; Some (spawn (TScope f) w)
  | OpRuntimeClose => Some (spawn (TRuntime (rt_scopes r) None true) (with_rt (rt_with (rt_monitor r) (rt_started r) true (rt_closed r) r) w))
  | OpStep k ev => t ← w_threads w !! k; '(w, t) ← thread_step w t ev; Some (with_thread k t w)
  end.
Fixpoint run (w : world) (ops : list op) : option world :=
  match ops with
  | [] => Some w
  | o :: ops => w ← step w o; run w ops
  end.
Definition start_world (r : runtime) : world := mkWorld r [] [] [] [].
