(* ===== verification/ProxyScopeSpec.v ===== *)
(** * A closed scope stays empty

    Properties of [ProxyScope], by invariants of its steps: a scope whose [close]
    was confirmed never holds anything again ([scope_close_final]), and the
    expiry monitor outlives the scopes ([monitor_outlives_scopes]). *)

From S2P Require Import Prelude PyText PyVal SandboxPolicy NetworkLease LeaseMonitor ProxyScope.

(** ** Invariant *)
Definition inside (i : nat) (t : thread) : Prop := match t with TOpen j _ _ => j = i | _ => False end.
#[export] Instance inside_dec i t : Decision (inside i t).
Proof. destruct t; cbn; apply _. Defined.
(** Nothing of the scope is in use, and nothing can be put into it. *)
Definition settled (w : world) (i : nat) : Prop :=
  ∃ c, w_scopes w !! i = Some c ∧ sc_closed c = true ∧ sc_open_count c = 0 ∧ sc_accepted c = [] ∧ sc_tunnels c = [].
Definition scope_closed (w : world) (i : nat) : Prop := ∃ c, w_scopes w !! i = Some c ∧ sc_closed c = true.
Definition tunnel_closed (w : world) (t : nat) : Prop := ∃ tn, w_tunnels w !! t = Some tn ∧ tn_closed tn = true.
Definition all_settled (w : world) : Prop := ∀ i, i < length (w_scopes w) → settled w i.
Definition frame_ok (w : world) (f : closing_frame) : Prop :=
  scope_closed w (fr_scope f) ∧ (∀ t, fr_forget f = Some t → tunnel_closed w t) ∧ (fr_confirmed f = true → settled w (fr_scope f)).
Definition closing_ok (w : world) (Q : Prop) : Prop := rt_closing (w_rt w) = true ∧ Q.
Definition thread_ok (w : world) (t : thread) : Prop :=
  match t with
  | TOpen i _ _ => i < length (w_scopes w)
  | TTunnel _ false => True
  | TTunnel t true => tunnel_closed w t
  | TScope f => frame_ok w f
  | TRuntime todo f ok =>
    rt_closing (w_rt w) = true ∧ (∀ f', f = Some f' → frame_ok w f') ∧
    (ok = true → ∀ i, i < length (w_scopes w) → settled w i ∨ i ∈ todo ∨ ∃ f', f = Some f' ∧ fr_scope f' = i)
  | TStop => rt_closing (w_rt w) = true ∧ all_settled w
  | TFinish => rt_closing (w_rt w) = true ∧ mo_stopped (rt_monitor (w_rt w)) = true ∧ all_settled w
  | TDone (AScope i true) => settled w i
  | TDone (ARuntime true) => rt_closing (w_rt w) = true ∧ mo_stopped (rt_monitor (w_rt w)) = true ∧ all_settled w
  | TDone _ => True
  end.
Record inv (w : world) : Prop := {
  in_count : ∀ i c, w_scopes w !! i = Some c → sc_open_count c = length (filter (inside i) (w_threads w));
  in_tunnels : ∀ t tn, w_tunnels w !! t = Some tn → tn_closed tn = true ∨ ∃ c, w_scopes w !! tn_scope tn = Some c ∧ t ∈ sc_tunnels c;
  in_kept : ∀ i, i < length (w_scopes w) → i ∈ rt_scopes (w_rt w) ∨ settled w i;
  in_threads : Forall (thread_ok w) (w_threads w);
  in_started : rt_started (w_rt w) = false → w_scopes w = [];
  in_monitor : mo_stopped (rt_monitor (w_rt w)) = true → rt_closing (w_rt w) = true ∧ all_settled w
}.

(** *** What never goes back *)
Record advances (w w' : world) : Prop := {
  gr_settled : ∀ i, settled w i → settled w' i;
  gr_closed : ∀ i, scope_closed w i → scope_closed w' i;
  gr_tunnel : ∀ t, tunnel_closed w t → tunnel_closed w' t;
  gr_closing : rt_closing (w_rt w) = true → rt_closing (w_rt w') = true ∧ length (w_scopes w') = length (w_scopes w);
  gr_length : length (w_scopes w) ≤ length (w_scopes w');
  gr_stopped : mo_stopped (rt_monitor (w_rt w)) = true → mo_stopped (rt_monitor (w_rt w')) = true
}.
Lemma advances_refl w : advances w w.
Proof. by split. Qed.
Lemma advances_trans w1 w2 w3 : advances w1 w2 → advances w2 w3 → advances w1 w3.
Proof. intros [A1 A2 A3 A4 A6 A5] [B1 B2 B3 B4 B6 B5]. split; eauto; [|lia]. intros Hc. destruct (A4 Hc) as [Hc2 <-]. eauto. Qed.
Lemma advances_all w w' : advances w w' → rt_closing (w_rt w) = true → all_settled w → all_settled w'.
Proof. intros G Hc Ha i Hi. destruct (gr_closing _ _ G Hc) as [_ Hl]. rewrite Hl in Hi. by apply (gr_settled _ _ G), Ha. Qed.
Lemma advances_frame w w' f : advances w w' → frame_ok w f → frame_ok w' f.
Proof. intros [A1 A2 A3 _ _ _] (H1 & H2 & H3). split_and!; eauto. Qed.
Lemma advances_thread w w' t : advances w w' → thread_ok w t → thread_ok w' t.
Proof.
  intros G. destruct t as [i sock ph|t [|]|f|todo f ok| | |[[t|]|b|i [|]|[|]]]; cbn; try done.
  - intros Hi. pose proof (gr_length _ _ G). lia.
  - apply G.
  - by apply advances_frame.
  - intros (Hc & Hf & Ht). destruct (gr_closing _ _ G Hc) as [Hc' Hl]. split_and!; [done|intros f' E; by eapply advances_frame; [|apply Hf]|].
    intros Hok i Hi. rewrite Hl in Hi. destruct (Ht Hok i Hi) as [Hs|Hs]; [left; by apply G|by right].
  - intros [Hc Ha]. split; [by apply (gr_closing _ _ G)|by eapply advances_all].
  - intros (Hc & Hm & Ha). split_and!; [by apply (gr_closing _ _ G)|by apply G|by eapply advances_all].
  - apply G.
  - intros (Hc & Hm & Ha). split_and!; [by apply (gr_closing _ _ G)|by apply G|by eapply advances_all].
Qed.

(** *** Changes of one scope *)
(** A scope that is closed is only emptied. *)
Definition shrinks (c c' : scope) : Prop :=
  sc_closed c = true → sc_closed c' = true ∧ (sc_open_count c = 0 → sc_open_count c' = 0) ∧ (sc_accepted c = [] → sc_accepted c' = []) ∧ (sc_tunnels c = [] → sc_tunnels c' = []).
Lemma lookup_with_scope i j c w : w_scopes (with_scope i c w) !! j = if decide (i = j ∧ i < length (w_scopes w)) then Some c else w_scopes w !! j.
Proof. cbn. rewrite list_lookup_insert. done. Qed.
Lemma scope_advances w i c c' : w_scopes w !! i = Some c → shrinks c c' → advances w (with_scope i c' w).
Proof.
  intros Hc Hs. pose proof (lookup_lt_Some _ _ _ Hc) as Hl. split; try done.
  - intros j (d & Hd & H1 & H2 & H3 & H4). destruct (decide (i = j)) as [->|Hne].
    + rewrite Hc in Hd. injection Hd as <-. destruct (Hs H1) as (? & ? & ? & ?). exists c'. split_and!; auto. cbn. by rewrite list_lookup_insert_eq.
    + exists d. split_and!; try done. cbn. by rewrite list_lookup_insert_ne.
  - intros j (d & Hd & H1). destruct (decide (i = j)) as [->|Hne].
    + rewrite Hc in Hd. injection Hd as <-. exists c'. split; [cbn; by rewrite list_lookup_insert_eq|by apply Hs].
    + exists d. split; [cbn; by rewrite list_lookup_insert_ne|done].
  - cbn. by rewrite length_insert.
  - cbn. by rewrite length_insert.
Qed.
Lemma filter_insert {A} (P : A → Prop) `{∀ x, Decision (P x)} (l : list A) k x y : l !! k = Some x →
  length (filter P (<[k := y]> l)) + (if decide (P x) then 1 else 0) = length (filter P l) + (if decide (P y) then 1 else 0).
Proof.
  revert k. induction l as [|z l IH]; intros [|k]; [done|done|intros [= ->]|intros Hk].
  - change (<[0 := y]> (x :: l)) with (y :: l). rewrite !filter_cons. repeat case_decide; cbn [length]; lia.
  - change (<[S k := y]> (z :: l)) with (z :: <[k := y]> l). specialize (IH _ Hk). rewrite !filter_cons. destruct (decide (P z)); cbn [length]; lia.
Qed.

(** *** Everything but the threads *)
Record core (w : world) : Prop := {
  co_tunnels : ∀ t tn, w_tunnels w !! t = Some tn → tn_closed tn = true ∨ ∃ c, w_scopes w !! tn_scope tn = Some c ∧ t ∈ sc_tunnels c;
  co_kept : ∀ i, i < length (w_scopes w) → i ∈ rt_scopes (w_rt w) ∨ settled w i;
  co_started : rt_started (w_rt w) = false → w_scopes w = [];
  co_monitor : mo_stopped (rt_monitor (w_rt w)) = true → rt_closing (w_rt w) = true ∧ all_settled w
}.
Lemma inv_core w : inv w → core w.
Proof. by intros []. Qed.
Lemma core_scope w i c c' : core w → w_scopes w !! i = Some c → shrinks c c' → (∀ t, t ∈ sc_tunnels c → t ∈ sc_tunnels c' ∨ tunnel_closed w t) → core (with_scope i c' w).
Proof.
  intros [C1 C2 C3 C4] Hc Hs Ht. pose proof (scope_advances _ _ _ _ Hc Hs) as G. pose proof (lookup_lt_Some _ _ _ Hc) as Hl. split.
  - intros t tn Htn. destruct (C1 t tn Htn) as [|(d & Hd & Hin)]; [by left|]. destruct (decide (i = tn_scope tn)) as [->|Hne].
    + rewrite Hc in Hd. injection Hd as <-. destruct (Ht t Hin) as [Hin'|(tn' & Htn' & Hcl)].
      * right. exists c'. split; [cbn; by rewrite list_lookup_insert_eq|done].
      * left. cbn in Htn. rewrite Htn in Htn'. by injection Htn' as <-.
    + right. exists d. split; [cbn; by rewrite list_lookup_insert_ne|done].
  - intros j Hj. cbn in Hj. rewrite length_insert in Hj. destruct (C2 j Hj) as [|Hset]; [by left|right]. by apply G.
  - intros E. rewrite (C3 E) in Hc. done.
  - intros E. destruct (C4 E) as [Hcl Ha]. split; [done|by eapply advances_all].
Qed.
(** A step on which no thread enters or leaves. *)
Definition same_counts (w w' : world) : Prop := ∀ i c', w_scopes w' !! i = Some c' → ∃ c, w_scopes w !! i = Some c ∧ sc_open_count c' = sc_open_count c.
Record calm (w w' : world) : Prop := {
  qu_advances : advances w w';
  qu_core : core w → core w';
  qu_threads : w_threads w' = w_threads w;
  qu_counts : same_counts w w'
}.
Lemma calm_refl w : calm w w.
Proof. split; [apply advances_refl|done|done|]. intros i c Hc. by exists c. Qed.
Lemma calm_trans w1 w2 w3 : calm w1 w2 → calm w2 w3 → calm w1 w3.
Proof.
  intros [A1 A2 A3 A4] [B1 B2 B3 B4]. split; [by eapply advances_trans|auto|congruence|]. intros i c3 H3. destruct (B4 i c3 H3) as (c2 & H2 & E2). destruct (A4 i c2 H2) as (c1 & H1 & E1).
  exists c1. split; [done|congruence].
Qed.
Lemma calm_log w l : calm w (logged l w).
Proof. split; [by split|intros [C1 C2 C3 C4]; by split|done|]. intros i c Hc. by exists c. Qed.
Lemma calm_scope w i c c' : w_scopes w !! i = Some c → shrinks c c' → sc_open_count c' = sc_open_count c →
  (∀ t, t ∈ sc_tunnels c → t ∈ sc_tunnels c' ∨ tunnel_closed w t) → calm w (with_scope i c' w).
Proof.
  intros Hc Hs Hn Ht. split; [by eapply scope_advances|intros; by eapply core_scope|done|]. intros j d Hd. cbn in Hd. pose proof (lookup_lt_Some _ _ _ Hc) as Hl.
  destruct (decide (i = j)) as [->|Hne]; [rewrite list_lookup_insert_eq in Hd by done; injection Hd as <-; by exists c|rewrite list_lookup_insert_ne in Hd by done; by exists d].
Qed.
Lemma elem_of_remove x y l : x ∈ remove y l ↔ x ∈ l ∧ x ≠ y.
Proof. unfold remove. rewrite list_elem_of_filter. tauto. Qed.
Lemma calm_forget w t : tunnel_closed w t → calm w (forget_tunnel t w).
Proof.
  intros Hcl. unfold forget_tunnel. destruct (w_tunnels w !! t) as [tn|] eqn:Et; [|apply calm_refl]. destruct (w_scopes w !! tn_scope tn) as [c|] eqn:Ec; [|apply calm_refl].
  eapply calm_scope; [done| |done|].
  - intros Hcl'. cbn. split_and!; try done. by intros ->.
  - intros t' Hin. cbn. rewrite elem_of_remove. destruct (decide (t' = t)) as [->|]; auto.
Qed.
Lemma calm_tunnel w t tn : w_tunnels w !! t = Some tn → calm w (with_tunnels (<[t := mkTunnel (tn_scope tn) (tn_client tn) (tn_handle tn) (tn_upstream tn) true]> (w_tunnels w)) w).
Proof.
  intros Ht. pose proof (lookup_lt_Some _ _ _ Ht) as Hl. split.
  - split; try done. intros t' (tn' & Ht' & Hc'). unfold tunnel_closed. cbn. destruct (decide (t = t')) as [->|]; [rewrite list_lookup_insert_eq by done; eauto|rewrite list_lookup_insert_ne by done; eauto].
  - intros [C1 C2 C3 C4]. split; try done. intros t' tn'. cbn. destruct (decide (t = t')) as [->|]; [rewrite list_lookup_insert_eq by done; intros [= <-]; by left|rewrite list_lookup_insert_ne by done; apply C1].
  - done.
  - intros i c Hc. by exists c.
Qed.
Lemma tunnel_close_ok w t ev w' b due : tunnel_close w t ev = Some (w', b, due) → calm w w' ∧ (due = true → tunnel_closed w' t).
Proof.
  unfold tunnel_close. destruct (w_tunnels w !! t) as [tn|] eqn:Et; [|done]. destruct ev as [| | | |client upstream]; try done.
  destruct (tn_closed tn); [intros [= <- <- <-]; split; [apply calm_refl|done]|]. destruct (client && upstream).
  - intros [= <- <- <-]. split.
    + eapply calm_trans; [apply calm_log|]. by apply (calm_tunnel (logged _ w)).
    + intros _. eexists. cbn. split; [apply list_lookup_insert_eq; by eapply lookup_lt_Some|done].
  - intros [= <- <- <-]. split; [apply calm_log|done].
Qed.
Lemma nothing_left_settled w i c : w_scopes w !! i = Some c → sc_closed c = true → nothing_left c = true → settled w i.
Proof.
  intros Hc Hcl [[H1%Nat.eqb_eq H2]%andb_true_iff H3]%andb_true_iff. exists c. split_and!; try done; [by destruct (sc_accepted c)|by destruct (sc_tunnels c)].
Qed.
Lemma calm_forget_scope w i : settled w i → calm w (with_rt (_forget_scope i (w_rt w)) w).
Proof.
  intros Hs. split; [by split|intros [C1 C2 C3 C4]|done|intros j c Hc; by exists c]. split; try done.
  intros j Hj. destruct (C2 j Hj) as [Hin|]; [|by right]. cbn. rewrite elem_of_remove. destruct (decide (j = i)) as [->|]; [by right|by left].
Qed.
Lemma start_close_ok w i w' f : start_close w i = Some (w', f) → calm w w' ∧ fr_scope f = i ∧ frame_ok w' f.
Proof.
  unfold start_close. destruct (w_scopes w !! i) as [c|] eqn:Ec; [|done]. intros [= <- <-]. split; [|split; [done|]].
  - eapply calm_scope; [done|by intros _|done|by left].
  - split_and!; [|done|done]. exists (close_enter c). split; [cbn; apply list_lookup_insert_eq; by eapply lookup_lt_Some|done].
Qed.
(** The close of a scope: its frame stays right, and a positive answer is settled. *)
Lemma close_step_ok w f ev w' r : close_step w f ev = Some (w', r) → frame_ok w f →
  calm w w' ∧ match r with inl f' => fr_scope f' = fr_scope f ∧ frame_ok w' f' | inr b => b = true → settled w' (fr_scope f) end.
Proof.
  destruct f as [i accepted pending tunnels forget ok confirmed]. unfold close_step. intros Hs Hf.
  assert (Hlog : ∀ l a p o, calm w (logged l w) ∧ frame_ok (logged l w) (mkFrame i a p tunnels forget o confirmed)).
  { intros l a p o. split; [apply calm_log|]. exact (advances_frame _ _ (mkFrame i a p tunnels forget o confirmed) (qu_advances _ _ (calm_log w l)) Hf). }
  destruct accepted as [|sock accepted].
  2: { destruct ev; try done. injection Hs as <- <-. destruct (Hlog [CClosed sock b] accepted pending (b && ok)). done. }
  destruct pending as [|[sock h] pending].
  2: { destruct ev; try done; try (destruct forget, tunnels; done). assert (Hs' : Some (logged [CClosed sock b; CReleased h] w, inl (mkFrame i [] pending tunnels forget (b && ok) confirmed)) = Some (w', r)) by (by destruct forget, tunnels).
       injection Hs' as <- <-. destruct (Hlog [CClosed sock b; CReleased h] [] pending (b && ok)). done. }
  destruct Hf as (Hcl & Hfg & Hcf). cbn [fr_scope fr_forget fr_confirmed] in *. destruct forget as [t|].
  { destruct ev; try (destruct tunnels; done). assert (Hs' : Some (forget_tunnel t w, inl (mkFrame i [] [] tunnels None ok confirmed)) = Some (w', r)) by (by destruct tunnels).
    injection Hs' as <- <-. pose proof (calm_forget w t (Hfg t eq_refl)) as Q. split; [done|]. split; [done|]. apply (advances_frame _ _ _ (qu_advances _ _ Q)). by split_and!. }
  destruct tunnels as [|t tunnels].
  - destruct ev; try done. destruct confirmed.
    + injection Hs as <- <-. split; [by apply calm_forget_scope, Hcf|]. intros _. by apply Hcf.
    + destruct (w_scopes w !! i) as [c|] eqn:Ec; [|done]. destruct (ok && nothing_left c) eqn:E; injection Hs as <- <-; (split; [apply calm_refl|]); [|done].
      split; [done|]. split_and!; [done|done|]. intros _. apply andb_true_iff in E as [_ E]. destruct Hcl as (c' & Ec' & Hcl). cbn in Ec'. rewrite Ec in Ec'. injection Ec' as <-. by eapply nothing_left_settled.
  - assert (Hs' : match tunnel_close w t ev with Some (w, closed, due) => Some (w, inl (mkFrame i [] [] tunnels (if due then Some t else None) (closed && ok) confirmed)) | None => None end = Some (w', r)) by (by destruct ev).
    clear Hs. destruct (tunnel_close w t ev) as [[[w1 b] due]|] eqn:E; [|done]. injection Hs' as <- <-. apply tunnel_close_ok in E as [Q Hdue]. split; [done|]. split; [done|].
    destruct (advances_frame _ _ (mkFrame i [] [] tunnels None ok confirmed) (qu_advances _ _ Q)) as (? & _ & ?); [by split_and!|]. split_and!; [done| |done]. cbn. destruct due; [|done]. intros t' [= <-]. by apply Hdue.
Qed.

(** *** Steps of a thread *)
Definition b2n (P : Prop) `{Decision P} : nat := if decide P then 1 else 0.
Record moved (w w' : world) (t t' : thread) : Prop := {
  mv_advances : advances w w';
  mv_core : core w';
  mv_threads : w_threads w' = w_threads w;
  mv_ok : thread_ok w' t';
  mv_counts : ∀ i c', w_scopes w' !! i = Some c' → ∃ c, w_scopes w !! i = Some c ∧ sc_open_count c' + b2n (inside i t) = sc_open_count c + b2n (inside i t')
}.
Lemma calm_moved w w' t t' : calm w w' → core w → thread_ok w' t' → (∀ i, inside i t ↔ inside i t') → moved w w' t t'.
Proof.
  intros [Q1 Q2 Q3 Q4] Hc Hok Hin. split; [done|auto|done|done|]. intros i c' Hc'. destruct (Q4 i c' Hc') as (c & Hcc & E). exists c. split; [done|].
  unfold b2n. specialize (Hin i). repeat case_decide; try tauto; lia.
Qed.
Lemma publish_calm w i sock h up c c' : w_scopes w !! i = Some c → open_publish sock (length (w_tunnels w)) c = Some c' →
  calm w (with_tunnels (w_tunnels w ++ [mkTunnel i sock h up false]) (with_scope i c' w)).
Proof.
  unfold open_publish. intros Hc. destruct (sc_closed c || sc_cancel c) eqn:Eo; [done|]. intros [= <-]. apply orb_false_iff in Eo as [Eo _]. pose proof (lookup_lt_Some _ _ _ Hc) as Hl.
  set (c' := sc_with _ _ _ _ c). assert (Q : calm w (with_scope i c' w)).
  { eapply calm_scope; [done|intros E; congruence|done|]. intros t Ht. left. cbn. apply elem_of_app. by left. }
  eapply calm_trans; [exact Q|]. split.
  - split; try done. intros t (tn & Ht & Hcl). exists tn. split; [|done]. cbn in *. by apply lookup_app_l_Some.
  - intros [C1 C2 C3 C4]. split; try done. intros t tn. cbn. intros [Ht|[Hlen Ht]]%lookup_app_Some; [by apply C1|]. right. apply list_lookup_singleton_Some in Ht as [Ht <-]. cbn in *.
    exists c'. split; [by apply list_lookup_insert_eq|]. cbn. apply elem_of_app. right. apply list_elem_of_singleton. lia.
  - done.
  - intros j d Hd. by exists d.
Qed.
Lemma open_step_calm w i sock ph ev w' ph' : open_step w i sock ph ev = Some (w', ph') → (∀ r, ph ≠ PLeave r) → calm w w'.
Proof.
  unfold open_step. destruct (w_scopes w !! i) as [c|] eqn:Ec; [|done]. intros Hs Hne.
  destruct ph as [| |h|h|h up|h up|h up|h up|r]; [..|by destruct (Hne r)]; destruct ev as [|[h'|]|[up'|]|b|client upstream]; try done; try (injection Hs as <- <-; first [apply calm_refl|apply calm_log]).
  - unfold open_pending in Hs. destruct (sc_closed c || sc_cancel c) eqn:Eo; injection Hs as <- <-; [apply calm_refl|]. apply orb_false_iff in Eo as [Eo _].
    eapply calm_scope; [done|intros E; congruence|done|by left].
  - destruct (open_publish _ _ _) as [c'|] eqn:Ep; injection Hs as <- <-; [by eapply publish_calm|apply calm_refl].
Qed.
Lemma inside_open i sock j ph : inside j (TOpen i sock ph) ↔ i = j.
Proof. done. Qed.
Lemma proxy_step_ok w k t ev w' t' : inv w → w_threads w !! k = Some t → thread_step w t ev = Some (w', t') → moved w w' t t'.
Proof.
  intros Hi Ht Hs. pose proof (inv_core _ Hi) as Hcore. pose proof (proj1 (Forall_lookup _ _) (in_threads _ Hi) k t Ht) as Hok.
  destruct t as [i sock ph|t [|]|f|todo [f|] ok| | |a]; cbn [thread_step] in Hs.
  - destruct (open_step w i sock ph ev) as [[w1 ph1]|] eqn:E; [|done]. injection Hs as <- <-. assert (Hph : (∃ r, ph = PLeave r) ∨ ∀ r, ph ≠ PLeave r) by (destruct ph; eauto).
    destruct Hph as [[r ->]|Hph].
    + unfold open_step in E. destruct (w_scopes w !! i) as [c|] eqn:Ec; [|done]. destruct ev; try done. injection E as <- _. pose proof (lookup_lt_Some _ _ _ Ec) as Hl.
      assert (Hsh : shrinks c (open_leave sock c)) by (intros Hcl; cbn; split_and!; [done|by intros ->|done|done]).
      split; [by eapply scope_advances|eapply core_scope; [done|done|done|by left]|done|done|]. intros j d Hd. cbn in Hd. unfold b2n. destruct (decide (i = j)) as [<-|Hne].
      * rewrite list_lookup_insert_eq in Hd by done. injection Hd as <-. exists c. split; [done|]. pose proof (in_count _ Hi i c Ec) as Hn.
        assert (Hpos : 0 < length (filter (inside i) (w_threads w))).
        { assert (Hin : TOpen i sock (PLeave r) ∈ filter (inside i) (w_threads w)) by (apply list_elem_of_filter; split; [done|by apply list_elem_of_lookup_2 in Ht]).
          destruct (filter _ _); [by apply elem_of_nil in Hin|cbn; lia]. }
        rewrite (decide_True _ _ (eq_refl : inside i (TOpen i sock (PLeave r)))). cbn [open_leave sc_with sc_open_count]. rewrite decide_False by (intros []). lia.
      * rewrite list_lookup_insert_ne in Hd by done. exists d. split; [done|]. rewrite !decide_False; [done|by intros []|done].
    + assert (Q := open_step_calm _ _ _ _ _ _ _ E Hph). assert (Et : match ph with PLeave r => TDone (AOpen r) | _ => TOpen i sock ph1 end = TOpen i sock ph1) by (destruct ph; try done; by destruct (Hph published)).
      rewrite Et. apply calm_moved; [done|done| |done]. pose proof (gr_length _ _ (qu_advances _ _ Q)). cbn in *. lia.
  - destruct ev; try done. injection Hs as <- <-. pose proof (calm_forget w t Hok). by apply calm_moved.
  - destruct (tunnel_close w t ev) as [[[w1 b] due]|] eqn:E; [|done]. injection Hs as <- <-. apply tunnel_close_ok in E as [Q Hdue]. apply calm_moved; [done|done| |by destruct due].
    destruct due; [by apply Hdue|done].
  - destruct (close_step w f ev) as [[w1 r]|] eqn:E; [|done]. apply close_step_ok in E as [Q Hr]; [|done]. destruct r as [f'|b]; injection Hs as <- <-; apply calm_moved; try done.
    + apply Hr.
    + cbn. destruct b; [by apply Hr|done].
  - assert (Hs' : match close_step w f ev with Some (w, inl f) => Some (w, TRuntime todo (Some f) ok) | Some (w, inr b) => Some (w, TRuntime todo None (ok && b)) | None => None end = Some (w', t')) by (by destruct todo).
    clear Hs. rename Hs' into Hs. destruct (close_step w f ev) as [[w1 r]|] eqn:E; [|done]. destruct Hok as (Hc & Hf & Hall). apply close_step_ok in E as [Q Hr]; [|by apply Hf].
    destruct (gr_closing _ _ (qu_advances _ _ Q) Hc) as [Hc' Hl]. destruct r as [f'|b]; injection Hs as <- <-; apply calm_moved; try done; cbn.
    + destruct Hr as [Ef Hf']. split_and!; [done|by intros ? [= <-]|]. intros Hok j Hj. rewrite Hl in Hj. destruct (Hall Hok j Hj) as [Hset|[Hin|(f0 & [= <-] & E0)]]; [left; by apply Q|auto|].
      right. right. exists f'. split; [done|congruence].
    + split_and!; [done|done|]. intros [Hok Hb]%andb_true_iff j Hj. rewrite Hl in Hj. destruct (Hall Hok j Hj) as [Hset|[Hin|(f0 & [= <-] & E0)]]; [left; by apply Q|auto|]. left. subst j. by apply Hr.
  - destruct todo as [|i todo].
    + destruct ev; try done. injection Hs as <- <-. destruct Hok as (Hc & _ & Hall). apply calm_moved; [apply calm_refl|done| |by destruct ok].
      destruct ok; [|done]. split; [done|]. intros j Hj. destruct (Hall eq_refl j Hj) as [|[Hin|(f' & [=] & _)]]; [done|by apply elem_of_nil in Hin].
    + destruct ev; try done. destruct (start_close w i) as [[w1 f]|] eqn:E; [|done]. injection Hs as <- <-. apply start_close_ok in E as (Q & Ef & Hf). destruct Hok as (Hc & _ & Hall).
      destruct (gr_closing _ _ (qu_advances _ _ Q) Hc) as [Hc' Hl]. apply calm_moved; try done. cbn. split_and!; [done|by intros ? [= <-]|]. intros Hok j Hj. rewrite Hl in Hj.
      destruct (Hall Hok j Hj) as [Hset|[Hin|(f' & [=] & _)]]; [left; by apply Q|]. apply elem_of_cons in Hin as [->|Hin]; [|auto]. right. right. by exists f.
  - destruct ev as [| | |joined|]; try done. destruct (stop _ _) as [stopped m] eqn:E. injection Hs as <- <-. destruct Hok as [Hc Hall].
    assert (Hm : mo_stopped m = true) by (unfold stop in E; by injection E as _ <-). set (w' := with_rt _ _).
    assert (G : advances w w') by by split. apply calm_moved; [|done| |by destruct stopped].
    + split; [done| |done|intros j c Hj; by exists c]. intros [C1 C2 C3 C4]. by split.
    + destruct stopped; [|done]. by split_and!.
  - destruct ev; try done. destruct Hok as (Hc & Hm & Hall). destruct (is_nil _); injection Hs as <- <-; (apply calm_moved; [|done| |done]); try done; try apply calm_refl.
    split; [by split| |done|intros j c Hj; by exists c]. intros [C1 C2 C3 C4]. by split.
  - done.
Qed.

(** *** Steps of the system *)
Lemma thread_inv w k t w' t' : inv w → w_threads w !! k = Some t → moved w w' t t' → inv (with_thread k t' w').
Proof.
  intros Hi Ht [G [C1 C2 C3 C4] Eth Hok Hn]. split; try done.
  - intros i c' Hc'. cbn in *. destruct (Hn i c' Hc') as (c & Hc & E). pose proof (in_count _ Hi i c Hc) as Hcount. rewrite Eth. pose proof (filter_insert (inside i) (w_threads w) k t t' Ht) as F. unfold b2n in E. lia.
  - cbn. rewrite Eth. apply Forall_insert; [|done]. eapply Forall_impl; [exact (in_threads _ Hi)|]. intros x Hx. exact (advances_thread w w' x G Hx).
Qed.
Lemma spawn_inv w w' t : inv w → calm w w' → (∀ i, ¬ inside i t) → thread_ok w' t → inv (spawn t w').
Proof.
  intros Hi [G Hcore Eth Hn] Hout Hok. destruct (Hcore (inv_core _ Hi)) as [C1 C2 C3 C4]. split; try done.
  - intros i c' Hc'. cbn in *. destruct (Hn i c' Hc') as (c & Hc & E). rewrite E, (in_count _ Hi i c Hc), Eth, filter_app, length_app, filter_cons_False, filter_nil by done. cbn. lia.
  - cbn. rewrite Eth. apply Forall_app. split; [|by constructor]. eapply Forall_impl; [exact (in_threads _ Hi)|]. intros x Hx. exact (advances_thread w w' x G Hx).
Qed.
Lemma calm_inv w w' : inv w → calm w w' → inv w'.
Proof.
  intros Hi [G Hcore Eth Hn]. destruct (Hcore (inv_core _ Hi)) as [C1 C2 C3 C4]. split; try done.
  - intros i c' Hc'. destruct (Hn i c' Hc') as (c & Hc & E). by rewrite E, Eth, (in_count _ Hi i c Hc).
  - rewrite Eth. eapply Forall_impl; [exact (in_threads _ Hi)|]. intros x. by apply advances_thread.
Qed.

Lemma run_turn_stopped m sweep : mo_stopped (run_turn m sweep) = mo_stopped m.
Proof. unfold run_turn. by repeat case_match. Qed.
Lemma run_turns_stopped m turns : mo_stopped (foldl run_turn m turns) = mo_stopped m.
Proof. revert m. induction turns as [|t turns IH]; intros m; [done|]. cbn. by rewrite IH, run_turn_stopped. Qed.
Lemma monitor_start_stopped m launched : mo_stopped (LeaseMonitor.start m launched).2 = mo_stopped m.
Proof. unfold LeaseMonitor.start. by repeat case_match. Qed.
Lemma with_rt_calm w r : rt_scopes r = rt_scopes (w_rt w) → (rt_closing (w_rt w) = true → rt_closing r = true) → (mo_stopped (rt_monitor (w_rt w)) = true → mo_stopped (rt_monitor r) = true) →
  (core w → (rt_started r = false → w_scopes w = []) ∧ (mo_stopped (rt_monitor r) = true → rt_closing r = true ∧ all_settled w)) → calm w (with_rt r w).
Proof.
  intros Hs Hc Hm Hcore. split; [by split; auto| |done|intros i c Hi; by exists c]. intros C. destruct (Hcore C) as [H3 H4]. destruct C as [C1 C2 C3 C4]. split; [done| |done|done].
  intros i Hi. cbn. rewrite Hs. by apply C2.
Qed.
Lemma start_calm w launched turns joined : calm w (with_rt (runtime_start (w_rt w) launched turns joined).2 w).
Proof.
  unfold runtime_start. set (r := w_rt w). destruct (rt_started r || rt_closing r || rt_closed r) eqn:E.
  { apply with_rt_calm; try done. by intros []. }
  apply orb_false_iff in E as [[Es Ec]%orb_false_iff _]. destruct (LeaseMonitor.start (rt_monitor r) launched) as [[u|e] m] eqn:Em;
    (assert (Hm : mo_stopped m = mo_stopped (rt_monitor r)) by (rewrite <-(monitor_start_stopped (rt_monitor r) launched), Em; done)).
  - pose proof (run_turns_stopped m turns) as Ht. destruct (monitor_ok _).
    + apply with_rt_calm; cbn; try done; [rewrite Ht, Hm; done|]. intros [C1 C2 C3 C4]. split; [done|]. rewrite Ht, Hm. exact C4.
    + apply with_rt_calm; cbn; try done. intros [C1 C2 C3 C4]. split; [intros _; by apply C3|]. intros _. split; [done|]. intros i Hi. rewrite (C3 Es) in Hi. cbn in Hi. lia.
  - apply with_rt_calm; cbn; try done; [rewrite Hm; done|]. intros [C1 C2 C3 C4]. split; [exact C3|]. rewrite Hm. exact C4.
Qed.
Lemma create_inv w r : inv w → create_scope (length (w_scopes w)) (w_rt w) = Ok r → inv (mkWorld r (w_scopes w ++ [new_scope]) (w_tunnels w) (w_threads w) (w_log w)).
Proof.
  intros Hi. unfold create_scope, _healthy. destruct (rt_started (w_rt w)) eqn:Es; [|done]. destruct (rt_closing (w_rt w)) eqn:Ec; [done|]. cbn [andb negb].
  destruct (rt_closed (w_rt w)); [done|]. destruct (monitor_ok _); [|done]. intros [= <-]. set (w' := mkWorld _ _ _ _ _).
  assert (Hold : ∀ i c, w_scopes w !! i = Some c → w_scopes w' !! i = Some c) by (intros; by apply lookup_app_l_Some).
  assert (G : advances w w').
  { split; try done; [intros i (c & Hc & Hr); exists c; auto|intros i (c & Hc & Hr); exists c; auto|congruence|cbn; rewrite length_app; lia]. }
  split.
  - intros i c. cbn. intros [Hc|[Hl Hc]]%lookup_app_Some; [by apply (in_count _ Hi)|]. apply list_lookup_singleton_Some in Hc as [Hl' <-]. cbn.
    destruct (filter (inside i) (w_threads w)) as [|x l] eqn:Ef; [done|]. assert (Hx : x ∈ filter (inside i) (w_threads w)) by (rewrite Ef; apply list_elem_of_here).
    apply list_elem_of_filter in Hx as [Hin Hx]. destruct x; try done. cbn in Hin. apply (proj1 (Forall_forall _ _) (in_threads _ Hi)) in Hx. cbn in Hx. lia.
  - intros t tn Ht. destruct (in_tunnels _ Hi t tn Ht) as [|(c & Hc & Hin)]; [by left|right]. exists c. auto.
  - intros i Hl. cbn in Hl. rewrite length_app in Hl. cbn in Hl. destruct (decide (i = length (w_scopes w))) as [->|Hne].
    + left. cbn. apply elem_of_app. right. by apply list_elem_of_singleton.
    + destruct (in_kept _ Hi i) as [Hin|Hs]; [lia| |right; by apply G]. left. cbn. apply elem_of_app. by left.
  - eapply Forall_impl; [exact (in_threads _ Hi)|]. intros x. by apply advances_thread.
  - cbn. congruence.
  - cbn. intros Hm. destruct (in_monitor _ Hi Hm). congruence.
Qed.
Lemma enter_inv w i sock c : inv w → w_scopes w !! i = Some c → sc_closed c = false →
  inv (spawn (TOpen i sock PStart) (with_scope i (sc_with (S (sc_open_count c)) (sc_accepted c) (sc_pending c) (sc_tunnels c) c) w)).
Proof.
  intros Hi Hc Hcl. set (c' := sc_with _ _ _ _ c). pose proof (lookup_lt_Some _ _ _ Hc) as Hl. assert (Hsh : shrinks c c') by (intros E; congruence).
  pose proof (scope_advances _ _ _ _ Hc Hsh) as G. destruct (core_scope w i c c' (inv_core _ Hi) Hc Hsh ltac:(by left)) as [C1 C2 C3 C4]. split; try done.
  - intros j d Hd. cbn in *. rewrite filter_app, length_app. destruct (decide (i = j)) as [<-|Hne].
    + rewrite list_lookup_insert_eq in Hd by done. injection Hd as <-. rewrite filter_cons_True, filter_nil by done. cbn. rewrite (in_count _ Hi i c Hc). lia.
    + rewrite list_lookup_insert_ne in Hd by done. rewrite filter_cons_False, filter_nil by done. cbn. rewrite (in_count _ Hi j d Hd). lia.
  - cbn. apply Forall_app. split; [|by constructor; [cbn; rewrite length_insert|]]. eapply Forall_impl; [exact (in_threads _ Hi)|]. intros x Hx. exact (advances_thread _ _ x G Hx).
Qed.
Lemma step_inv w o w' : inv w → step w o = Some w' → inv w'.
Proof.
  intros Hi. destruct o as [launched turns joined|sweep| |i sock closed|i sock|i sock transport closed|t|i| |k ev]; cbn [step].
  - intros [= <-]. eapply calm_inv; [done|apply start_calm].
  - intros [= <-]. eapply calm_inv; [done|]. apply with_rt_calm; cbn; rewrite ?run_turn_stopped; try done. by intros [].
  - destruct (create_scope _ _) as [r|e] eqn:E; intros [= <-]; [by apply create_inv|done].
  - intros (c & Hc & [= <-])%bind_Some. eapply calm_inv; [done|]. unfold register_accepted_client. destruct (sc_closed c) eqn:Ecl; cbn [orb]; [apply calm_log|].
    destruct (negb _ || _); [apply calm_log|]. eapply calm_scope; [done|intros E; congruence|done|by left].
  - intros (c & Hc & [= <-])%bind_Some. eapply calm_inv; [done|]. eapply calm_scope; [done| |done|by left]. intros E. cbn. split_and!; try done. by intros ->.
  - intros (c & Hc & [= <-])%bind_Some. destruct transport; [|eapply calm_inv; [done|apply calm_log]]. cbn [negb]. unfold open_enter. destruct (sc_closed c) eqn:Ecl; cbn [orb]; [eapply calm_inv; [done|apply calm_log]|].
    destruct (_healthy _); cbn [negb]; [|eapply calm_inv; [done|apply calm_log]]. by apply enter_inv.
  - intros (tn & Ht & [= <-])%bind_Some. apply (spawn_inv w); [done|apply calm_refl|by intros i []|done].
  - intros ([w1 f] & Hs & [= <-])%bind_Some. apply start_close_ok in Hs as (Q & _ & Hf). apply (spawn_inv w); [done|done|by intros j []|done].
  - intros [= <-]. apply (spawn_inv w); [done| |by intros j []|].
    + apply with_rt_calm; cbn; try done. intros [C1 C2 C3 C4]. split; [done|]. intros Hm. by destruct (C4 Hm).
    + cbn. split_and!; [done|done|]. intros _ j Hj. destruct (in_kept _ Hi j Hj) as [|Hset]; [right; by left|left; exact Hset].
  - intros (t & Ht & ([w1 t1] & Hs & [= <-])%bind_Some)%bind_Some. eapply thread_inv; [done|done|]. by eapply proxy_step_ok.
Qed.
Lemma run_inv w ops w' : inv w → run w ops = Some w' → inv w'.
Proof.
  revert w. induction ops as [|o ops IH]; intros w Hi; cbn [run]; [by intros [= <-]|]. intros (w1 & Hs & Hr)%bind_Some. eapply IH; [|done]. by eapply step_inv.
Qed.

(** ** Handles and endpoints *)
(** The handle that an open in this phase still has to hand over or to release. *)
Definition holds (ph : phase) (h : nat) : Prop :=
  match ph with
  | PRegistered h' | PDial h' | PDialed h' _ | PVerify h' _ | PPublish h' _ | PFail (Some h') _ => h' = h
  | _ => False
  end.
(** A tunnel that is closed has its two endpoints closed, and its handle released. *)
Definition closed_tunnels_ok (w : world) : Prop :=
  ∀ tn, tn ∈ w_tunnels w → tn_closed tn = true → CClosed (tn_client tn) true ∈ w_log w ∧ CUpstream (tn_upstream tn) true ∈ w_log w ∧ CReleased (tn_handle tn) ∈ w_log w.
Definition held_by_tunnel (w : world) (i h : nat) : Prop := ∃ tn, tn ∈ w_tunnels w ∧ tn_scope tn = i ∧ tn_handle tn = h ∧ tn_closed tn = false.
Record ledger (w : world) : Prop := {
  le_handles : ∀ i h, CRegistered i h ∈ w_log w →
    CReleased h ∈ w_log w ∨ (∃ sock ph, TOpen i sock ph ∈ w_threads w ∧ holds ph h) ∨ held_by_tunnel w i h;
  le_closed : closed_tunnels_ok w
}.
(** A step that registers nothing. *)
Record books (w w' : world) : Prop := {
  bk_log : ∀ c, c ∈ w_log w → c ∈ w_log w';
  bk_registered : ∀ i h, CRegistered i h ∈ w_log w' → CRegistered i h ∈ w_log w;
  bk_tunnels : ∀ i h, held_by_tunnel w i h → held_by_tunnel w' i h ∨ CReleased h ∈ w_log w';
  bk_closed : closed_tunnels_ok w → closed_tunnels_ok w'
}.
Lemma books_same w w' : w_log w' = w_log w → w_tunnels w' = w_tunnels w → books w w'.
Proof.
  intros E1 E2. split; rewrite ?E1; try done.
  - intros i h (tn & Hin & Htn). left. exists tn. by rewrite E2.
  - intros Hc tn. rewrite E1, E2. apply Hc.
Qed.
Lemma books_trans w1 w2 w3 : books w1 w2 → books w2 w3 → books w1 w3.
Proof.
  intros [A1 A2 A3 A4] [B1 B2 B3 B4]. split; eauto. intros i h Hh. destruct (A3 i h Hh) as [Hh2|Hr]; [by apply B3|right; auto].
Qed.
Lemma books_log w l : Forall (λ c, match c with CRegistered _ _ => False | _ => True end) l → books w (logged l w).
Proof.
  intros Hl. split; cbn.
  - intros c Hc. apply elem_of_app. by left.
  - intros i h [Hin|Hin]%elem_of_app; [done|]. by apply (proj1 (Forall_forall _ _) Hl) in Hin.
  - by left.
  - intros Hc tn Hin Htn. destruct (Hc tn Hin Htn) as (H1 & H2 & H3). cbn. rewrite !elem_of_app. auto.
Qed.
Lemma books_forget w t : books w (forget_tunnel t w).
Proof. unfold forget_tunnel. destruct (w_tunnels w !! t) as [tn|]; [destruct (w_scopes w !! tn_scope tn) as [c|]|]; by apply books_same. Qed.
Lemma books_tunnel_close w t ev w' b due : tunnel_close w t ev = Some (w', b, due) → books w w'.
Proof.
  unfold tunnel_close. destruct (w_tunnels w !! t) as [tn|] eqn:Et; [|done]. destruct ev as [| | | |client upstream]; try done.
  destruct (tn_closed tn) eqn:Ecl; [intros [= <- _ _]; by apply books_same|]. pose proof (lookup_lt_Some _ _ _ Et) as Hl.
  set (l := [CClosed (tn_client tn) client; CUpstream (tn_upstream tn) upstream; CReleased (tn_handle tn)]).
  assert (Hlog : books w (logged l w)) by (apply books_log; by repeat constructor). destruct (client && upstream) eqn:E; intros [= <- _ _]; [|exact Hlog].
  apply andb_true_iff in E as [-> ->]. assert (Hnew : ∀ c, c ∈ l → c ∈ w_log w ++ l) by (intros; apply elem_of_app; by right). destruct Hlog as [B1 B2 B3 B4].
  split; [exact B1|exact B2| |].
  - intros i h (tn' & Hin & Hi & Hh & Hcl). apply list_elem_of_lookup in Hin as [t' Ht']. destruct (decide (t = t')) as [<-|Hne].
    + rewrite Et in Ht'. injection Ht' as <-. subst h. right. apply Hnew. unfold l. set_solver.
    + left. exists tn'. split_and!; try done. apply list_elem_of_lookup. exists t'. cbn. by rewrite list_lookup_insert_ne.
  - intros Hc tn' Hin Htn'. cbn in *. apply list_elem_of_lookup in Hin as [t' Ht']. destruct (decide (t = t')) as [<-|Hne].
    + rewrite list_lookup_insert_eq in Ht' by done. injection Ht' as <-. cbn. split_and!; apply Hnew; unfold l; set_solver.
    + rewrite list_lookup_insert_ne in Ht' by done. exact (B4 Hc tn' (list_elem_of_lookup_2 _ _ _ Ht') Htn').
Qed.
Lemma books_start_close w i w' f : start_close w i = Some (w', f) → books w w'.
Proof. unfold start_close. destruct (w_scopes w !! i); [|done]. intros [= <- <-]. by apply books_same. Qed.
Lemma books_close_step w f ev w' r : close_step w f ev = Some (w', r) → books w w'.
Proof.
  destruct f as [i accepted pending tunnels forget ok confirmed]. unfold close_step. destruct accepted as [|sock accepted].
  2: { destruct ev; try done. intros [= <- _]. apply books_log. by repeat constructor. }
  destruct pending as [|[sock h] pending].
  2: { destruct forget, tunnels, ev; try done; intros [= <- _]; apply books_log; by repeat constructor. }
  destruct forget as [t|]; [destruct tunnels, ev; try done; intros [= <- _]; apply books_forget|]. destruct tunnels as [|t tunnels].
  - destruct ev; try done. destruct confirmed; [intros [= <- _]; by apply books_same|]. destruct (w_scopes w !! i); [|done]. destruct (ok && _); intros [= <- _]; by apply books_same.
  - intros Hs. assert (Hs' : ∃ x, tunnel_close w t ev = Some x ∧ x.1.1 = w') by (destruct ev; destruct (tunnel_close w t _) as [[[w1 cl] due]|] eqn:E; try done; injection Hs as <- _; by eexists).
    destruct Hs' as ([[w1 b] due] & E & <-). by eapply books_tunnel_close.
Qed.
(** An open hands its handle on, to its next phase, to a tunnel or back. *)
Lemma open_step_books w i sock ph ev w' ph' : open_step w i sock ph ev = Some (w', ph') → (∀ r, ph ≠ PLeave r) →
  (∃ h, w' = logged [CRegistered i h] w ∧ holds ph' h ∧ ∀ h', ¬ holds ph h') ∨
  books w w' ∧ ∀ h, holds ph h → holds ph' h ∨ CReleased h ∈ w_log w' ∨ held_by_tunnel w' i h.
Proof.
  unfold open_step. destruct (w_scopes w !! i) as [c|] eqn:Ec; [|done]. intros Hs Hne.
  destruct ph as [| |h|h|h up|h up|h up|h up|r]; [..|by destruct (Hne r)]; destruct ev as [|[h'|]|[up'|]|b|client upstream]; try done.
  - right. destruct (sc_cancel c); injection Hs as <- <-; (split; [by apply books_same|by intros h]).
  - left. injection Hs as <- <-. exists h'. split_and!; [done|done|by intros ? []].
  - right. injection Hs as <- <-. split; [by apply books_same|by intros h].
  - right. destruct (open_pending _ _ _); injection Hs as <- <-; (split; [by apply books_same|intros h' ->; by left]).
  - right. injection Hs as <- <-. split; [by apply books_same|intros h' ->; by left].
  - right. injection Hs as <- <-. split; [by apply books_same|intros h' ->; by left].
  - right. injection Hs as <- <-. split; [by apply books_same|intros h' ->; left]. by destruct (_ || _).
  - right. injection Hs as <- <-. split; [by apply books_same|intros h' ->; left]. by destruct b.
  - right. destruct (open_publish _ _ _) as [c'|]; injection Hs as <- <-; [|split; [by apply books_same|intros h' ->; by left]].
    set (tn := mkTunnel i sock h up false). assert (Hin : tn ∈ w_tunnels w ++ [tn]) by (apply elem_of_app; right; by apply list_elem_of_singleton). split.
    + split; try done.
      * intros j h' (tn' & Hin' & Htn'). left. exists tn'. split; [|done]. cbn. apply elem_of_app. by left.
      * intros Hc tn' [Hin'|Hin']%elem_of_app Hcl; [by apply Hc|]. apply list_elem_of_singleton in Hin' as ->. done.
    + intros h' ->. right. right. by exists tn.
  - right. injection Hs as <- <-. split.
    + apply books_log. apply Forall_app. split; [by destruct up; repeat constructor|]. constructor; [done|]. by destruct h; repeat constructor.
    + intros h'. destruct h as [h|]; [|done]. intros <-. right. left. cbn. set_solver.
Qed.
Definition holding (t : thread) (i h : nat) : Prop := ∃ sock ph, t = TOpen i sock ph ∧ holds ph h.
Lemma thread_step_books w t ev w' t' : thread_step w t ev = Some (w', t') →
  (∃ i h, w' = logged [CRegistered i h] w ∧ holding t' i h ∧ ∀ j h', ¬ holding t j h') ∨
  books w w' ∧ ∀ i h, holding t i h → holding t' i h ∨ CReleased h ∈ w_log w' ∨ held_by_tunnel w' i h.
Proof.
  intros Hs. destruct t as [i sock ph|t [|]|f|todo f ok| | |a]; cbn [thread_step] in Hs; [|right; (split; [|by intros ? ? (? & ? & ? & _)])..].
  - destruct (open_step w i sock ph ev) as [[w1 ph1]|] eqn:E; [|done]. injection Hs as <- <-. assert (Hph : (∃ r, ph = PLeave r) ∨ ∀ r, ph ≠ PLeave r) by (destruct ph; eauto).
    destruct Hph as [[r ->]|Hph].
    + right. unfold open_step in E. destruct (w_scopes w !! i) as [c|]; [|done]. destruct ev; try done. injection E as <- _. split; [by apply books_same|]. intros j h (sock' & ph' & [= _ _ <-] & []).
    + assert (Et : match ph with PLeave r => TDone (AOpen r) | _ => TOpen i sock ph1 end = TOpen i sock ph1) by (destruct ph; try done; by destruct (Hph published)). rewrite Et.
      destruct (open_step_books _ _ _ _ _ _ _ E Hph) as [(h & -> & Hh & Hno)|[Hb Hh]].
      * left. exists i, h. split_and!; [done|by exists sock, ph1|]. intros j h' (sock' & ph' & [= _ _ <-] & Hh'). by eapply Hno.
      * right. split; [done|]. intros j h (sock' & ph' & [= -> -> <-] & Hh'). destruct (Hh h Hh') as [|[|]]; [left; by exists sock', ph1|auto|auto].
  - destruct ev; try done. injection Hs as <- _. apply books_forget.
  - destruct (tunnel_close w t ev) as [[[w1 b] due]|] eqn:E; [|done]. injection Hs as <- _. by eapply books_tunnel_close.
  - destruct (close_step w f ev) as [[w1 [f'|b]]|] eqn:E; [..|done]; injection Hs as <- _; by eapply books_close_step.
  - destruct f as [f|].
    + assert (Hs' : ∃ r, close_step w f ev = Some (w', r)) by (destruct todo, (close_step w f ev) as [[w1 [f'|b]]|]; try done; injection Hs as <- _; by eexists). destruct Hs' as [r Hr]. by eapply books_close_step.
    + destruct todo as [|i todo]; destruct ev; try done; [injection Hs as <- _; by apply books_same|]. destruct (start_close w i) as [[w1 f]|] eqn:E; [|done]. injection Hs as <- _. by eapply books_start_close.
  - destruct ev; try done. destruct (stop _ _). injection Hs as <- _. by apply books_same.
  - destruct ev; try done. destruct (is_nil _); injection Hs as <- _; by apply books_same.
  - done.
Qed.
Lemma ledger_books w w' : ledger w → books w w' → (∀ t, t ∈ w_threads w → t ∈ w_threads w') → ledger w'.
Proof.
  intros [L1 L2] [B1 B2 B3 B4] Ht. split; [|auto]. intros i h Hr. destruct (L1 i h (B2 i h Hr)) as [Hrel|[(sock & ph & Hin & Hh)|Htn]]; [auto| |].
  - right. left. exists sock, ph. auto.
  - destruct (B3 i h Htn); auto.
Qed.
Lemma ledger_thread w k t ev w' t' : ledger w → inv w → w_threads w !! k = Some t → thread_step w t ev = Some (w', t') → ledger (with_thread k t' w').
Proof.
  intros [L1 L2] Hi Ht Hs. pose proof (mv_threads _ _ _ _ (proxy_step_ok _ _ _ _ _ _ Hi Ht Hs)) as Eth. pose proof (lookup_lt_Some _ _ _ Ht) as Hl.
  assert (Hin : t' ∈ <[k := t']> (w_threads w')) by (rewrite Eth; apply list_elem_of_lookup; exists k; by rewrite list_lookup_insert_eq).
  assert (Hkeep : ∀ i h sock ph, TOpen i sock ph ∈ w_threads w → holds ph h → holding t i h ∨ ∃ sock' ph', TOpen i sock' ph' ∈ <[k := t']> (w_threads w') ∧ holds ph' h).
  { intros i h sock ph [j Hj]%list_elem_of_lookup Hh. destruct (decide (k = j)) as [<-|Hne].
    - left. rewrite Ht in Hj. injection Hj as ->. by exists sock, ph.
    - right. exists sock, ph. split; [|done]. rewrite Eth. apply list_elem_of_lookup. exists j. by rewrite list_lookup_insert_ne. }
  destruct (thread_step_books _ _ _ _ _ Hs) as [(i0 & h0 & -> & Hh0 & Hno)|[[B1 B2 B3 B4] Hhand]].
  - split; cbn.
    + intros i h [Hr|Hr]%elem_of_app.
      * destruct (L1 i h Hr) as [Hrel|[(sock & ph & Hp & Hh)|Htn]]; [left; apply elem_of_app; by left| |by right; right].
        destruct (Hkeep i h sock ph Hp Hh) as [Hold|Hnew]; [by destruct (Hno i h)|right; by left].
      * apply list_elem_of_singleton in Hr as [= -> ->]. destruct Hh0 as (sock & ph & -> & Hh). right. left. by exists sock, ph.
    + intros tn Htn Hcl. destruct (L2 tn Htn Hcl) as (H1 & H2 & H3). cbn. rewrite !elem_of_app. auto.
  - split; cbn; [|exact (B4 L2)]. intros i h Hr. destruct (L1 i h (B2 i h Hr)) as [Hrel|[(sock & ph & Hp & Hh)|Htn]]; [auto| |destruct (B3 i h Htn); auto].
    destruct (Hkeep i h sock ph Hp Hh) as [Hold|Hnew]; [|auto]. destruct (Hhand i h Hold) as [(sock' & ph' & -> & Hh')|[|]]; [|auto|auto]. right. left. by exists sock', ph'.
Qed.
Lemma step_ledger w o w' : ledger w → inv w → step w o = Some w' → ledger w'.
Proof.
  intros L Hi. assert (Hclose : ∀ sock closed, ledger (logged [CClosed sock closed] w)) by (intros; apply (ledger_books w); [done|apply books_log; by repeat constructor|done]).
  assert (Hsame : ∀ w1, w_log w1 = w_log w → w_tunnels w1 = w_tunnels w → w_threads w1 = w_threads w → ledger w1).
  { intros w1 E1 E2 E3. apply (ledger_books w); [done|by apply books_same|by rewrite E3]. }
  assert (Hspawn : ∀ t w1, w_log w1 = w_log w → w_tunnels w1 = w_tunnels w → w_threads w1 = w_threads w → ledger (spawn t w1)).
  { intros t w1 E1 E2 E3. apply (ledger_books w); [done|by apply books_same|]. intros x Hx. cbn. rewrite E3. apply elem_of_app. by left. }
  destruct o as [launched turns joined|sweep| |i sock closed|i sock|i sock transport closed|t|i| |k ev]; cbn [step].
  - intros [= <-]. by apply Hsame.
  - intros [= <-]. by apply Hsame.
  - destruct (create_scope _ _); intros [= <-]; [by apply Hsame|done].
  - intros (c & _ & [= <-])%bind_Some. destruct (register_accepted_client _ _ _); [by apply Hsame|apply Hclose].
  - intros (c & _ & [= <-])%bind_Some. by apply Hsame.
  - intros (c & _ & [= <-])%bind_Some. destruct transport; [|apply Hclose]. destruct (open_enter _ _); [by apply Hspawn|apply Hclose].
  - intros (tn & _ & [= <-])%bind_Some. by apply Hspawn.
  - intros ([w1 f] & Hs & [= <-])%bind_Some. unfold start_close in Hs. destruct (w_scopes w !! i); [|done]. injection Hs as <- <-. by apply Hspawn.
  - intros [= <-]. by apply Hspawn.
  - intros (t & Ht & ([w1 t1] & Hs & [= <-])%bind_Some)%bind_Some. by eapply ledger_thread.
Qed.

(** ** Runs *)
Definition sound (w : world) : Prop := inv w ∧ ledger w.
Lemma run_sound w ops w' : sound w → run w ops = Some w' → sound w'.
Proof.
  revert w. induction ops as [|o ops IH]; intros w [Hi L]; cbn [run]; [by intros [= <-]|]. intros (w1 & Hs & Hr)%bind_Some. eapply IH; [|done]. split; [by eapply step_inv|by eapply step_ledger].
Qed.
Lemma start_sound interval r : HostConnectRuntime_new interval = Ok r → sound (start_world r).
Proof.
  unfold HostConnectRuntime_new, NetworkLeaseExpiryMonitor_new. destruct (interval_ok interval); [|done]. intros [= <-]. split; [split; cbn; try done; intros i ?; lia|]. split; cbn; [by intros i h ?%elem_of_nil|by intros tn ?%elem_of_nil].
Qed.
(** A call that has returned stays returned. *)
Lemma step_done w o w' k a : inv w → step w o = Some w' → w_threads w !! k = Some (TDone a) → w_threads w' !! k = Some (TDone a).
Proof.
  intros Hi. destruct o as [launched turns joined|sweep| |i sock closed|i sock|i sock transport closed|t|i| |k' ev]; cbn [step].
  - by intros [= <-].
  - by intros [= <-].
  - by destruct (create_scope _ _); intros [= <-].
  - intros (c & _ & [= <-])%bind_Some. by destruct (register_accepted_client _ _ _).
  - by intros (c & _ & [= <-])%bind_Some.
  - intros (c & _ & [= <-])%bind_Some. destruct transport; [|done]. destruct (open_enter _ _); [|done]. apply lookup_app_l_Some.
  - intros (tn & _ & [= <-])%bind_Some. apply lookup_app_l_Some.
  - intros ([w1 f] & Hs & [= <-])%bind_Some. unfold start_close in Hs. destruct (w_scopes w !! i); [|done]. injection Hs as <- <-. apply lookup_app_l_Some.
  - intros [= <-]. apply lookup_app_l_Some.
  - intros (t & Ht & ([w1 t1] & Hs & [= <-])%bind_Some)%bind_Some Hk. pose proof (mv_threads _ _ _ _ (proxy_step_ok _ _ _ _ _ _ Hi Ht Hs)) as Eth. cbn. rewrite Eth.
    destruct (decide (k' = k)) as [->|Hne]; [rewrite Hk in Ht; by injection Ht as <-|by rewrite list_lookup_insert_ne].
Qed.
Lemma run_done w ops w' k a : inv w → run w ops = Some w' → w_threads w !! k = Some (TDone a) → w_threads w' !! k = Some (TDone a).
Proof.
  revert w. induction ops as [|o ops IH]; intros w Hi; cbn [run]; [by intros [= <-]|]. intros (w1 & Hs & Hr)%bind_Some Hk. eapply IH; [by eapply step_inv|done|by eapply step_done].
Qed.
(** What a settled scope leaves behind: nothing. *)
Definition left_nothing (w : world) (i : nat) : Prop :=
  settled w i ∧ (∀ sock ph, TOpen i sock ph ∉ w_threads w) ∧
  (∀ tn, tn ∈ w_tunnels w → tn_scope tn = i → CClosed (tn_client tn) true ∈ w_log w ∧ CUpstream (tn_upstream tn) true ∈ w_log w) ∧
  ∀ h, CRegistered i h ∈ w_log w → CReleased h ∈ w_log w.
Lemma settled_left_nothing w i : sound w → settled w i → left_nothing w i.
Proof.
  intros [Hi L] (c & Hc & Hcl & Hn & Ha & Ht). assert (Hno : ∀ sock ph, TOpen i sock ph ∉ w_threads w).
  { intros sock ph Hin. rewrite (in_count _ Hi i c Hc) in Hn. apply nil_length_inv in Hn. assert (Hx : TOpen i sock ph ∈ filter (inside i) (w_threads w)) by by apply list_elem_of_filter.
    rewrite Hn in Hx. by apply elem_of_nil in Hx. }
  assert (Htn : ∀ tn, tn ∈ w_tunnels w → tn_scope tn = i → tn_closed tn = true).
  { intros tn [t Hlook]%list_elem_of_lookup Hs. destruct (in_tunnels _ Hi t tn Hlook) as [|(d & Hd & Hin)]; [done|]. rewrite Hs, Hc in Hd. injection Hd as <-. rewrite Ht in Hin. by apply elem_of_nil in Hin. }
  split_and!; [by exists c|done| |].
  - intros tn Hin Hs. by destruct (le_closed _ L tn Hin (Htn tn Hin Hs)) as (? & ? & _).
  - intros h Hr. destruct (le_handles _ L i h Hr) as [|[(sock & ph & Hin & _)|(tn & Hin & Hs & _ & Hop)]]; [done|by destruct (Hno sock ph)|]. rewrite (Htn tn Hin Hs) in Hop. done.
Qed.

(** C14: A scope whose [close] answered true stays empty for good.  Whatever threads
    were opening, relaying or closing meanwhile, and whatever is tried afterwards: no
    open is under way in it, it holds no client, both ends of every tunnel it ever
    published are confirmed closed, and every handle it registered with the
    authority has been released. *)
Theorem scope_close_final interval r ops w i ops' w' :
  HostConnectRuntime_new interval = Ok r → run (start_world r) ops = Some w → TDone (AScope i true) ∈ w_threads w →
  run w ops' = Some w' → left_nothing w' i.
Proof.
  intros Hr Hw [k Hk]%list_elem_of_lookup Hw'. pose proof (run_sound _ _ _ (start_sound _ _ Hr) Hw) as Hs. pose proof (run_sound _ _ _ Hs Hw') as Hs'.
  pose proof (run_done _ _ _ _ _ (proj1 Hs) Hw' Hk) as Hk'. apply settled_left_nothing; [done|]. exact (proj1 (Forall_lookup _ _) (in_threads _ (proj1 Hs')) k _ Hk').
Qed.
(** C31: Expiry is enforced as long as there is anything to enforce it on.  When the
    monitor has been told to stop, no scope is left with anything in it and none
    can be created; so it is after a [close] of the runtime that answered true. *)
Theorem monitor_outlives_scopes interval r ops w :
  HostConnectRuntime_new interval = Ok r → run (start_world r) ops = Some w →
  mo_stopped (rt_monitor (w_rt w)) = true ∨ TDone (ARuntime true) ∈ w_threads w →
  mo_stopped (rt_monitor (w_rt w)) = true ∧ is_ok (create_scope (length (w_scopes w)) (w_rt w)) = false ∧
  ∀ i, i < length (w_scopes w) → left_nothing w i.
Proof.
  intros Hr Hw Hst. pose proof (run_sound _ _ _ (start_sound _ _ Hr) Hw) as Hs.
  assert (Hm : mo_stopped (rt_monitor (w_rt w)) = true) by (destruct Hst as [|Hin]; [done|]; apply (proj1 (Forall_forall _ _) (in_threads _ (proj1 Hs))) in Hin; apply Hin).
  destruct (in_monitor _ (proj1 Hs) Hm) as [Hc Hall]. split_and!; [done| |].
  - unfold create_scope, _healthy. rewrite Hc. cbn. by rewrite andb_false_r.
  - intros i Hi. apply settled_left_nothing; [done|by apply Hall].
Qed.

(** ** A session *)
Module ProxySession.
Definition interval : pyval := PyInt 1.
(** A client is accepted and opens tunnel 0 of scope 0. *)
Definition open_ops : list op :=
  [OpStart true [Ok 0%Z] true; OpCreate; OpAccept 0 7 true; OpConnect 0 7 true true;
   OpStep 0 EvRun; OpStep 0 (EvHandle (Some 70)); OpStep 0 EvRun; OpStep 0 (EvUpstream (Some 700)); OpStep 0 EvRun; OpStep 0 (EvBool true)].
(** The scope is closed while the tunnel is not yet published: it is not
    confirmed, and the open fails. *)
Definition interrupted_ops : list op :=
  [OpScopeClose 0; OpStep 1 (EvBool true); OpStep 1 EvRun; OpStep 0 EvRun; OpStep 0 (EvBoth true true); OpStep 0 EvRun].
(** The runtime's [close] tries again, and then stops the monitor. *)
Definition closing_ops : list op :=
  [OpRuntimeClose; OpStep 2 EvRun; OpStep 2 EvRun; OpStep 2 EvRun; OpStep 2 EvRun; OpStep 2 (EvBool true); OpStep 2 EvRun].
Definition after (ops : list op) : option world := match HostConnectRuntime_new interval with Ok r => run (start_world r) ops | Err _ => None end.
Definition session : list op := open_ops ++ interrupted_ops ++ closing_ops.
(** The tunnel is published, and then closed with its scope. *)
Definition closed_session : list op :=
  open_ops ++ [OpStep 0 EvRun; OpStep 0 EvRun; OpScopeClose 0; OpStep 1 (EvBoth true true); OpStep 1 EvRun; OpStep 1 EvRun; OpStep 1 EvRun].
(** What is tried afterwards. *)
Definition late_ops : list op := [OpConnect 0 8 true true; OpAccept 0 9 true].
Definition world_after (ops : list op) : world := default (start_world (mkRuntime (mkMonitor false false false None 0 None) [] false false false)) (after ops).
Definition answers (w : world) : list answer := omap (λ t, match t with TDone a => Some a | _ => None end) (w_threads w).
End ProxySession.
Import ProxySession.
Example session_answers :
  (answers <$> after session) = Some [AOpen None; AScope 0 false; ARuntime true]
  ∧ (w_log <$> after session) = Some [CRegistered 0 70; CClosed 7 true; CReleased 70; CUpstream 700 true; CClosed 7 true; CReleased 70].
Proof. vm_compute. split; reflexivity. Qed.

Lemma scope_close_final_witness :
  let w := world_after (closed_session ++ late_ops) in
  left_nothing w 0 ∧ CRegistered 0 70 ∈ w_log w ∧ length (w_tunnels w) = 1.
Proof.
  cbv zeta. split.
  - apply (scope_close_final interval (mkRuntime (mkMonitor false false false None 0 None) [] false false false) closed_session (world_after closed_session) 0 late_ops).
    + vm_compute. reflexivity.
    + vm_compute. reflexivity.
    + vm_compute. do 2 constructor.
    + vm_compute. reflexivity.
  - vm_compute. split; [constructor|reflexivity].
Defined.
Lemma monitor_outlives_scopes_witness : left_nothing (world_after session) 0.
Proof.
  destruct (monitor_outlives_scopes interval (mkRuntime (mkMonitor false false false None 0 None) [] false false false) session (world_after session)) as (_ & _ & Hall).
  - vm_compute. reflexivity.
  - vm_compute. reflexivity.
  - left. vm_compute. reflexivity.
  - apply Hall. vm_compute. constructor.
Defined.
