(* ===== verification/Relay.v ===== *)
(** * The relay of a tunnel ([_relay_streams] in [src/src/icode/network_proxy_server.py])

    One direction for each way; a turn of the loop verifies the lease, passes
    on half-closes, and moves what [select] finds ready.  [relay_faithful]: each
    end is sent exactly what the other one sent, in order and within the buffer. *)

From S2P Require Import Prelude PyText NetworkLease.

Definition _RELAY_POLL_NS : Z := 100000000.
Definition _RELAY_READ_CHUNK_BYTES : nat := N.to_nat (64 * 1024).
Definition _RELAY_BUFFER_LIMIT_BYTES : nat := N.to_nat (256 * 1024).

(** From one socket to the other: [read_open[source]], [outgoing[destination]],
    [destination in write_shutdown]; and what has been received and sent. *)
Record direction := mkDirection {
  dr_open : bool;
  dr_outgoing : list N;
  dr_shut : bool;
  dr_received : list N;
  dr_sent : list N
}.
Record relay := mkRelay { rl_up : direction; rl_down : direction; rl_next_check : Z }.
Definition fresh_direction : direction := mkDirection true [] false [] [].
Definition fresh_relay : relay := mkRelay fresh_direction fresh_direction 0.

(** What the sockets do in one turn. *)
Inductive received := RBlocked | RChunk (chunk : list N) | RRaised.
Inductive transmitted := SBlocked | SSent (n : nat) | SRaised.
Record traffic := mkTraffic {
  tf_readable : bool;
  tf_recv : nat → received;
  tf_writable : bool;
  tf_send : list N → transmitted
}.
Record turn := mkTurn {
  tu_now : Z;
  tu_verify : result unit;                (** [scope.verify_lease()] *)
  tu_select : option bool;                (** [None]: it raised; whether a socket is exceptional *)
  tu_up : traffic;
  tu_down : traffic
}.
Inductive ending := Finished | Stopped | Raised (e : exn).

Definition is_empty {A} (l : list A) : bool := match l with [] => true | _ => false end.
Definition shut_down (d : direction) : direction :=
  if negb (dr_open d) && is_empty (dr_outgoing d) && negb (dr_shut d)
  then mkDirection (dr_open d) (dr_outgoing d) true (dr_received d) (dr_sent d) else d.
Definition direction_done (d : direction) : bool := negb (dr_open d) && is_empty (dr_outgoing d).
Definition wants_read (d : direction) : bool := dr_open d && (length (dr_outgoing d) <? _RELAY_BUFFER_LIMIT_BYTES).
Definition wants_write (d : direction) : bool := negb (is_empty (dr_outgoing d)).
Definition read_chunk (t : traffic) (d : direction) : direction * option ending :=
  match tf_recv t (Nat.min _RELAY_READ_CHUNK_BYTES (_RELAY_BUFFER_LIMIT_BYTES - length (dr_outgoing d))) with
  | RBlocked => (d, None)
  | RRaised => (d, Some (Raised OSError))
  | RChunk [] => (mkDirection false (dr_outgoing d) (dr_shut d) (dr_received d) (dr_sent d), None)
  | RChunk chunk => (mkDirection (dr_open d) (dr_outgoing d ++ chunk) (dr_shut d) (dr_received d ++ chunk) (dr_sent d), None)
  end.
Definition write_chunk (t : traffic) (d : direction) : direction * option ending :=
  match tf_send t (dr_outgoing d) with
  | SBlocked => (d, None)
  | SRaised => (d, Some (Raised OSError))
  | SSent O => (d, Some Stopped)
  | SSent n => (mkDirection (dr_open d) (drop n (dr_outgoing d)) (dr_shut d) (dr_received d) (dr_sent d ++ take n (dr_outgoing d)), None)
  end.
(** The client is looked at first, then the upstream, as [peers] and [outgoing] have them:
    reading goes up and then down, writing goes down and then up. *)
Definition seq_up (f : direction → direction * option ending) (r : relay) : relay * option ending :=
  let '(d, e) := f (rl_up r) in (mkRelay d (rl_down r) (rl_next_check r), e).
Definition seq_down (f : direction → direction * option ending) (r : relay) : relay * option ending :=
  let '(d, e) := f (rl_down r) in (mkRelay (rl_up r) d (rl_next_check r), e).
Definition when (cond : bool) (f : relay → relay * option ending) (r : relay) : relay * option ending := if cond then f r else (r, None).
Definition andthen (f g : relay → relay * option ending) (r : relay) : relay * option ending :=
  let '(r, e) := f r in match e with Some e => (r, Some e) | None => g r end.

Definition check_lease (t : turn) (r : relay) : relay * option ending :=
  if (rl_next_check r <=? tu_now t)%Z then
    match tu_verify t with
    | Err e => (r, Some (Raised e))
    | Ok _ => (mkRelay (rl_up r) (rl_down r) (tu_now t + _RELAY_POLL_NS), None)
    end
  else (r, None).
Definition move_bytes (t : turn) (r : relay) : relay * option ending :=
  let read_up := wants_read (rl_up r) && tf_readable (tu_up t) in
  let read_down := wants_read (rl_down r) && tf_readable (tu_down t) in
  let write_up := wants_write (rl_up r) && tf_writable (tu_up t) in
  let write_down := wants_write (rl_down r) && tf_writable (tu_down t) in
  andthen (when read_up (seq_up (read_chunk (tu_up t))))
    (andthen (when read_down (seq_down (read_chunk (tu_down t))))
       (andthen (when write_down (seq_down (write_chunk (tu_down t))))
          (when write_up (seq_up (write_chunk (tu_up t)))))) r.
Definition relay_turn (t : turn) (r : relay) : relay * option ending :=
  andthen (check_lease t)
    (λ r, let r := mkRelay (shut_down (rl_up r)) (shut_down (rl_down r)) (rl_next_check r) in
          if direction_done (rl_up r) && direction_done (rl_down r) then (r, Some Finished)
          else match tu_select t with
               | None | Some true => (r, Some Stopped)
               | Some false => move_bytes t r
               end) r.
(** The loop, as far as there are turns. *)
Fixpoint _relay_streams (turns : list turn) (r : relay) : relay * option ending :=
  match turns with
  | [] => (r, None)
  | t :: turns => andthen (relay_turn t) (_relay_streams turns) r
  end.

(** ** What the sockets promise *)
(** [recv(n)] gives at most [n] bytes, for a positive [n] (of none it would say that
    the stream has ended); [send] takes no more than it is given. *)
Definition traffic_ok (t : traffic) : Prop :=
  (∀ n chunk, 0 < n → tf_recv t n = RChunk chunk → length chunk ≤ n) ∧ (∀ buffer n, tf_send t buffer = SSent n → n ≤ length buffer).
Definition turn_ok (t : turn) : Prop := traffic_ok (tu_up t) ∧ traffic_ok (tu_down t).

(** ** Invariant *)
Record direction_ok (d : direction) : Prop := {
  do_bytes : dr_received d = dr_sent d ++ dr_outgoing d;
  do_bound : length (dr_outgoing d) ≤ _RELAY_BUFFER_LIMIT_BYTES;
  do_shut : dr_shut d = true → dr_open d = false ∧ dr_outgoing d = []
}.
Definition relay_ok (r : relay) : Prop := direction_ok (rl_up r) ∧ direction_ok (rl_down r).
Lemma is_empty_true {A} (l : list A) : is_empty l = true ↔ l = [].
Proof. by destruct l. Qed.
Lemma shut_down_ok d : direction_ok d → direction_ok (shut_down d).
Proof.
  intros Hd. unfold shut_down. destruct (negb (dr_open d)) eqn:Eo, (is_empty (dr_outgoing d)) eqn:Ee, (negb (dr_shut d)); cbn [andb]; try done.
  destruct Hd as [H1 H2 H3]. split; try done. intros _. apply negb_true_iff in Eo. by apply is_empty_true in Ee.
Qed.
Lemma read_chunk_ok t d : traffic_ok t → direction_ok d → wants_read d = true → direction_ok (read_chunk t d).1.
Proof.
  intros [Hr _] [H1 H2 H3] [Ho Hl%Nat.ltb_lt]%andb_true_iff. unfold read_chunk. set (n := Nat.min _ _).
  assert (Hn : 0 < n ∧ length (dr_outgoing d) + n ≤ _RELAY_BUFFER_LIMIT_BYTES).
  { assert (0 < _RELAY_READ_CHUNK_BYTES) by (unfold _RELAY_READ_CHUNK_BYTES; lia). lia. }
  destruct (tf_recv t n) as [|chunk|] eqn:E; [done| |done]. specialize (Hr n chunk (proj1 Hn) E). destruct chunk as [|b chunk].
  - split; cbn; [done|done|]. intros Hs. split; [done|]. by apply H3.
  - split; cbn; [by rewrite H1, app_assoc|rewrite length_app; lia|]. intros Hs. destruct (H3 Hs). congruence.
Qed.
Lemma write_chunk_ok t d : direction_ok d → direction_ok (write_chunk t d).1.
Proof.
  intros [H1 H2 H3]. unfold write_chunk. destruct (tf_send _ _) as [|[|n]|]; try done. split; cbn [dr_received dr_sent dr_outgoing dr_open dr_shut fst].
  - by rewrite <-app_assoc, take_drop, H1.
  - rewrite length_drop. lia.
  - intros Hs. destruct (H3 Hs) as [Ho ->]. by rewrite drop_nil.
Qed.
Lemma read_up_ok t b r : traffic_ok t → relay_ok r → (b = true → wants_read (rl_up r) = true) → relay_ok (when b (seq_up (read_chunk t)) r).1.
Proof. intros Ht [Hu Hd] Hb. destruct b; [|done]. cbn [when]. unfold seq_up. pose proof (read_chunk_ok t _ Ht Hu (Hb eq_refl)) as H. by destruct (read_chunk t _). Qed.
Lemma read_down_ok t b r : traffic_ok t → relay_ok r → (b = true → wants_read (rl_down r) = true) → relay_ok (when b (seq_down (read_chunk t)) r).1.
Proof. intros Ht [Hu Hd] Hb. destruct b; [|done]. cbn [when]. unfold seq_down. pose proof (read_chunk_ok t _ Ht Hd (Hb eq_refl)) as H. by destruct (read_chunk t _). Qed.
Lemma write_ok t b r : relay_ok r → relay_ok (when b (seq_up (write_chunk t)) r).1 ∧ relay_ok (when b (seq_down (write_chunk t)) r).1.
Proof.
  intros [Hu Hd]. destruct b; [|done]. cbn [when]. unfold seq_up, seq_down. pose proof (write_chunk_ok t _ Hu) as Hu'. pose proof (write_chunk_ok t _ Hd) as Hd'.
  destruct (write_chunk t (rl_up r)), (write_chunk t (rl_down r)). cbn in *. by split; split.
Qed.
Lemma andthen_ok f g r : relay_ok (f r).1 → (∀ r', (f r).1 = r' → relay_ok r' → relay_ok (g r').1) → relay_ok (andthen f g r).1.
Proof. intros Hf Hg. unfold andthen. destruct (f r) as [r' [e|]]; [done|]. by apply Hg. Qed.
Lemma when_up_down b f r : rl_down (when b (seq_up f) r).1 = rl_down r.
Proof. destruct b; [|done]. cbn [when]. unfold seq_up. by destruct (f (rl_up r)). Qed.
Lemma move_bytes_ok t r : turn_ok t → relay_ok r → relay_ok (move_bytes t r).1.
Proof.
  intros [Hu Hd] Hr. unfold move_bytes. apply andthen_ok; [apply read_up_ok; [done|done|by intros [? _]%andb_true_iff]|]. intros r1 E1 Hr1.
  apply andthen_ok; [apply read_down_ok; [done|done|]|].
  { intros [Hw _]%andb_true_iff. rewrite <-E1, when_up_down. exact Hw. }
  intros r2 _ Hr2. apply andthen_ok; [by apply write_ok|]. intros r3 _ Hr3. by apply write_ok.
Qed.
Lemma check_lease_ok t r : relay_ok r → relay_ok (check_lease t r).1.
Proof. intros Hr. unfold check_lease. destruct (_ <=? _)%Z; [destruct (tu_verify t)|]; done. Qed.
(** The moment at which the loop ends by itself. *)
Definition drained (r : relay) : Prop := ∀ d, d = rl_up r ∨ d = rl_down r → dr_open d = false ∧ dr_shut d = true ∧ dr_sent d = dr_received d.
Lemma done_drained d : direction_ok d → direction_done (shut_down d) = true → dr_open (shut_down d) = false ∧ dr_shut (shut_down d) = true ∧ dr_sent (shut_down d) = dr_received (shut_down d).
Proof.
  intros Hd. pose proof (shut_down_ok d Hd) as [H1 _ _]. unfold direction_done. intros [Ho%negb_true_iff He%is_empty_true]%andb_true_iff. split_and!; [done| |by rewrite H1, He, app_nil_r].
  unfold shut_down in *. destruct (negb (dr_open d) && is_empty (dr_outgoing d) && negb (dr_shut d)) eqn:E; [done|]. rewrite Ho, He in E. cbn in E. by apply negb_false_iff in E.
Qed.
Lemma move_bytes_unfinished t r : (move_bytes t r).2 ≠ Some Finished.
Proof.
  assert (Hc : ∀ (f : relay → relay * option ending), (∀ r, (f r).2 ≠ Some Finished) → ∀ b r, (when b f r).2 ≠ Some Finished) by (intros f Hf [|] r0; cbn; auto).
  assert (Hr : ∀ t d, (read_chunk t d).2 ≠ Some Finished) by (intros t0 d; unfold read_chunk; by destruct (tf_recv _ _) as [|[]|]).
  assert (Hw : ∀ t d, (write_chunk t d).2 ≠ Some Finished) by (intros t0 d; unfold write_chunk; by destruct (tf_send _ _) as [|[]|]).
  assert (Hseq : ∀ f, (∀ d, (f d).2 ≠ Some Finished) → (∀ r, (seq_up f r).2 ≠ Some Finished) ∧ (∀ r, (seq_down f r).2 ≠ Some Finished)).
  { intros f Hf. split; intros r0; [unfold seq_up; specialize (Hf (rl_up r0))|unfold seq_down; specialize (Hf (rl_down r0))]; by destruct (f _). }
  assert (Ha : ∀ f g, (∀ r, (f r).2 ≠ Some Finished) → (∀ r, (g r).2 ≠ Some Finished) → ∀ r, (andthen f g r).2 ≠ Some Finished).
  { intros f g Hf Hg r0. unfold andthen. specialize (Hf r0). destruct (f r0) as [r1 [e|]]; [done|apply Hg]. }
  unfold move_bytes. repeat apply Ha; apply Hc, Hseq; auto.
Qed.
Lemma relay_turn_ok t r : turn_ok t → relay_ok r → relay_ok (relay_turn t r).1 ∧ ((relay_turn t r).2 = Some Finished → drained (relay_turn t r).1).
Proof.
  intros Ht Hr. unfold relay_turn, andthen. pose proof (check_lease_ok t r Hr) as Hr1. destruct (check_lease t r) as [r1 [e|]] eqn:E.
  { split; [done|]. unfold check_lease in E. destruct (_ <=? _)%Z; [|done]. destruct (tu_verify t); [done|]. by injection E as <- <-. }
  destruct Hr1 as [Hu Hd]. set (r2 := mkRelay (shut_down (rl_up r1)) (shut_down (rl_down r1)) (rl_next_check r1)). assert (Hr2 : relay_ok r2) by (split; by apply shut_down_ok).
  change (rl_up r2) with (shut_down (rl_up r1)). change (rl_down r2) with (shut_down (rl_down r1)). destruct (direction_done _ && direction_done _) eqn:Ef.
  - split; [done|]. intros _ d Hdir. apply andb_true_iff in Ef as [Ef1 Ef2]. destruct Hdir as [->| ->]; by apply done_drained.
  - destruct (tu_select t) as [[|]|]; try done. split; [by apply move_bytes_ok|]. intros Hf. by apply move_bytes_unfinished in Hf.
Qed.

(** C29: The relay is faithful.  After any turns, whatever the sockets and the lease
    did: what each end has been sent is what was received from the other, in
    order, up to what is buffered, and no more than the limit is buffered; an end is
    shut down for writing only when the other end has ended and everything is
    delivered; and when the loop ends by itself everything is delivered both ways.
    The sockets are only relied on for a positive [recv]: none is made of zero
    bytes, whose empty answer would look like the end of the stream. *)
Theorem relay_faithful turns r e :
  Forall turn_ok turns → _relay_streams turns fresh_relay = (r, e) →
  relay_ok r ∧ (e = Some Finished → drained r).
Proof.
  intros Ht. assert (Hr : relay_ok fresh_relay) by (split; split; cbn; [done|apply Nat.le_0_l|done|done|apply Nat.le_0_l|done]). revert Hr. generalize fresh_relay.
  induction Ht as [|t turns Ht _ IH]; intros r0 Hr; cbn [_relay_streams]; [by intros [= <- <-]|]. unfold andthen. destruct (relay_turn_ok t r0 Ht Hr) as [H1 H2].
  destruct (relay_turn t r0) as [r1 [e1|]]; [intros [= <- <-]; split; [done|]; intros [= ->]; by apply H2|by apply IH].
Qed.

Module RelaySample.
(** A socket with so much to read, that takes a few bytes at a time. *)
Definition gives (chunk : list N) : traffic := mkTraffic true (λ n, RChunk (take n chunk)) true (λ b, SSent (Nat.min 3 (length b))).
Definition ends : traffic := mkTraffic true (λ _, RChunk []) true (λ b, SSent (Nat.min 3 (length b))).
Definition sample_turn (now : Z) (up down : traffic) : turn := mkTurn now (Ok tt) (Some false) up down.
Definition sample_turns : list turn :=
  [sample_turn 0 (gives (u "hello")) (gives (u "wor")); sample_turn 1 ends (gives (u "ld")); sample_turn 2 ends ends; sample_turn 3 ends ends; sample_turn 4 ends ends].
End RelaySample.
Import RelaySample.
Lemma sample_turns_ok : Forall turn_ok sample_turns.
Proof.
  assert (Hg : ∀ c, traffic_ok (gives c)) by (intros c; split; unfold gives, ends; cbn [tf_recv tf_send]; [intros n chunk _ [= <-]; rewrite length_take; lia|intros b n Hn; assert (n = Nat.min 3 (length b)) as -> by congruence; lia]).
  assert (He : traffic_ok ends) by (split; unfold gives, ends; cbn [tf_recv tf_send]; [intros n chunk _ [= <-]; cbn; lia|intros b n Hn; assert (n = Nat.min 3 (length b)) as -> by congruence; lia]).
  unfold sample_turns. repeat (apply Forall_cons_2; [split; (apply Hg || apply He)|]). apply Forall_nil_2.
Qed.
Lemma relay_faithful_witness :
  let r := (_relay_streams sample_turns fresh_relay).1 in
  (_relay_streams sample_turns fresh_relay).2 = Some Finished ∧ relay_ok r ∧ dr_sent (rl_up r) = u "hello" ∧ dr_sent (rl_down r) = u "world".
Proof.
  cbv zeta. split; [vm_compute; reflexivity|]. split; [|vm_compute; split; reflexivity].
  exact (proj1 (relay_faithful sample_turns (_relay_streams sample_turns fresh_relay).1 (_relay_streams sample_turns fresh_relay).2 sample_turns_ok
    (surjective_pairing (_relay_streams sample_turns fresh_relay)))).
Defined.
