(* ===== verification/ProxyRead.v ===== *)
(** * Reading a proxied client ([src/src/icode/network_proxy_server.py])

    The two bounded readers of untrusted clients: [_read_request_head] of the
    loopback server, byte by byte up to the end of one CONNECT head, and the
    SOCKS5 exchange of the Unix server, whose request is turned into a CONNECT
    head.  Each turn of their loops is given by what the lease, the clock and
    the socket do in it; no turns left means that the reader is still waiting. *)

From S2P Require Import Prelude PyText SandboxPolicy NetworkLease ConnectRequest Relay.

Definition _CONNECT_HEAD_TIMEOUT_NS : Z := 5000000000.
Definition _SOCKS5_VERSION : N := 5.
Definition _SOCKS5_METHOD_NO_AUTH : N := 0.
Definition _SOCKS5_COMMAND_CONNECT : N := 1.
Definition _SOCKS5_ADDRESS_DOMAIN : N := 3.
Definition _SOCKS5_REP_GENERAL_FAILURE : N := 1.
Definition _SOCKS5_REP_NOT_ALLOWED : N := 2.
Definition _SOCKS5_REP_COMMAND_UNSUPPORTED : N := 7.
Definition _SOCKS5_REP_ADDRESS_UNSUPPORTED : N := 8.
Definition _SOCKS5_REP_NO_ACCEPTABLE_METHODS : N := 255.

(** What one turn of a loop meets; [io_poll]: [select] raised, found the socket
    exceptional, or whether it is ready. *)
Inductive poll := PollRaised | PollExceptional | Poll (ready : bool).
Record io_turn := mkIoTurn {
  io_verify : result unit;
  io_closed : bool;                 (** [self._closed] *)
  io_now : Z;
  io_poll : poll;
  io_recv : nat → received;
  io_send : list N → transmitted
}.
(** The turns to come, and the bytes so far. *)
Record stream := mkStream { sm_turns : list io_turn; sm_received : list N; sm_sent : list N }.
(** [Rejects]: [_SocksRequestRejected] *)
Inductive outcome (A : Type) := Returns (a : A) | Rejects (reply_code : N) | Raises (e : exn).
Arguments Returns {A} a.
Arguments Rejects {A} reply_code.
Arguments Raises {A} e.
Definition io (A : Type) : Type := stream → option (outcome A * stream).
#[export] Instance io_ret : MRet io := λ A a s, Some (Returns a, s).
#[export] Instance io_bind : MBind io := λ A B f m s,
  match m s with
  | None => None
  | Some (Returns a, s') => f a s'
  | Some (Rejects c, s') => Some (Rejects c, s')
  | Some (Raises e, s') => Some (Raises e, s')
  end.
Definition rejects {A} (code : N) : io A := λ s, Some (Rejects code, s).
Definition refuse (cond : bool) (code : N) : io unit := if cond then rejects code else mret tt.

(** ** The SOCKS5 reader *)
Inductive progress := Again | Stop (e : exn) | Go.
(** The head of a turn of [_read_exact] and [_send_bytes]. *)
Definition turn_progress (deadline : Z) (t : io_turn) : progress :=
  match io_verify t with
  | Err e => Stop e
  | Ok _ =>
    if io_closed t then Stop HostConnectProxyError
    else if (deadline - io_now t <=? 0)%Z then Stop OSError
    else match io_poll t with
         | PollRaised | PollExceptional => Stop HostConnectProxyError
         | Poll ready => if ready then Go else Again
         end
  end.
Fixpoint read_exact_from (size : nat) (deadline : Z) (turns : list io_turn) (result rx tx : list N) : option (outcome (list N) * stream) :=
  if size <=? length result then Some (Returns result, mkStream turns rx tx)
  else
    match turns with
    | [] => None
    | t :: turns =>
      match turn_progress deadline t with
      | Stop e => Some (Raises e, mkStream turns rx tx)
      | Again => read_exact_from size deadline turns result rx tx
      | Go =>
        match io_recv t (size - length result) with
        | RBlocked => read_exact_from size deadline turns result rx tx
        | RRaised => Some (Raises OSError, mkStream turns rx tx)
        | RChunk [] => Some (Raises HostConnectProxyError, mkStream turns rx tx)
        | RChunk chunk => read_exact_from size deadline turns (result ++ chunk) (rx ++ chunk) tx
        end
      end
    end.
Definition _read_exact (size : nat) (deadline : Z) : io (list N) := λ s, read_exact_from size deadline (sm_turns s) [] (sm_received s) (sm_sent s).
Fixpoint send_from (payload : list N) (deadline : Z) (turns : list io_turn) (rx tx : list N) : option (outcome unit * stream) :=
  match payload with
  | [] => Some (Returns tt, mkStream turns rx tx)
  | _ =>
    match turns with
    | [] => None
    | t :: turns =>
      match turn_progress deadline t with
      | Stop e => Some (Raises e, mkStream turns rx tx)
      | Again => send_from payload deadline turns rx tx
      | Go =>
        match io_send t payload with
        | SBlocked => send_from payload deadline turns rx tx
        | SRaised => Some (Raises OSError, mkStream turns rx tx)
        | SSent O => Some (Raises HostConnectProxyError, mkStream turns rx tx)
        | SSent n => send_from (drop n payload) deadline turns rx (tx ++ take n payload)
        end
      end
    end
  end.
Definition _send_bytes (payload : list N) (deadline : Z) : io unit := λ s, send_from payload deadline (sm_turns s) (sm_received s) (sm_sent s).
Definition _send_socks_failure (reply_code : N) (now : Z) : io unit := _send_bytes ([_SOCKS5_VERSION; reply_code] ++ [0; 1; 0; 0; 0; 0; 0; 0]%N) (now + _RELAY_POLL_NS).

(** The CONNECT head for a host name that the client sent. *)
Definition socks_head (hostname : list N) : list N :=
  let authority := hostname ++ u ":" ++ _HTTPS_PORT_TEXT in
  u "CONNECT " ++ authority ++ u " HTTP/1.1" ++ crlf ++ u "Host: " ++ authority ++ crlf ++ crlf.
Definition byte_at (i : nat) (l : list N) : N := nth i l 0%N.
(** [now]: as the reader begins. *)
Definition _read_socks5_request (now : Z) : io (option (list N)) :=
  let deadline := (now + _CONNECT_HEAD_TIMEOUT_NS)%Z in
  greeting ← _read_exact 2 deadline;
  let method_count := byte_at 1 greeting in
  refuse (negb (byte_at 0 greeting =? _SOCKS5_VERSION)%N || (method_count =? 0)%N) _SOCKS5_REP_NO_ACCEPTABLE_METHODS ;;
  methods ← _read_exact (N.to_nat method_count) deadline;
  if negb (_SOCKS5_METHOD_NO_AUTH ∈s methods) then
    _send_bytes [_SOCKS5_VERSION; _SOCKS5_REP_NO_ACCEPTABLE_METHODS] deadline ;; mret None
  else
    _send_bytes [_SOCKS5_VERSION; _SOCKS5_METHOD_NO_AUTH] deadline ;;
    request ← _read_exact 4 deadline;
    refuse (negb (byte_at 0 request =? _SOCKS5_VERSION)%N || negb (byte_at 2 request =? 0)%N) _SOCKS5_REP_GENERAL_FAILURE ;;
    refuse (negb (byte_at 1 request =? _SOCKS5_COMMAND_CONNECT)%N) _SOCKS5_REP_COMMAND_UNSUPPORTED ;;
    refuse (negb (byte_at 3 request =? _SOCKS5_ADDRESS_DOMAIN)%N) _SOCKS5_REP_ADDRESS_UNSUPPORTED ;;
    host_length ← _read_exact 1 deadline;
    refuse (byte_at 0 host_length =? 0)%N _SOCKS5_REP_ADDRESS_UNSUPPORTED ;;
    hostname_bytes ← _read_exact (N.to_nat (byte_at 0 host_length)) deadline;
    port ← _read_exact 2 deadline;
    refuse (negb (Z.of_N (byte_at 0 port * 256 + byte_at 1 port) =? HTTPS_PORT)%Z) _SOCKS5_REP_NOT_ALLOWED ;;
    refuse (negb (forallb is_ascii hostname_bytes)) _SOCKS5_REP_NOT_ALLOWED ;;
    mret (Some (socks_head hostname_bytes)).

(** ** The reader of CONNECT heads *)
(** [checked]: [next_lease_check]; the clock is read again after a check. *)
Record head_turn := mkHeadTurn { ht_now : Z; ht_verify : result Z; ht_closed : bool; ht_ready : bool; ht_recv : received }.
(** The time of the turn, and of the next check. *)
Definition head_lease (checked : Z) (t : head_turn) : result (Z * Z) :=
  if (checked <=? ht_now t)%Z then now ← ht_verify t; Ok (now, now + _RELAY_POLL_NS)%Z else Ok (ht_now t, checked).
Fixpoint read_head_from (deadline checked : Z) (turns : list head_turn) (request_head : list N) : option (outcome (list N) * list head_turn * list N) :=
  match turns with
  | [] => None
  | t :: turns =>
    match head_lease checked t with
    | Err e => Some (Raises e, turns, request_head)
    | Ok (now, checked) =>
      if ht_closed t then Some (Raises HostConnectProxyError, turns, request_head)
      else if (deadline - now <=? 0)%Z then Some (Raises OSError, turns, request_head)
      else if negb (ht_ready t) then read_head_from deadline checked turns request_head
      else match ht_recv t with
           | RBlocked | RRaised => Some (Raises OSError, turns, request_head)
           | RChunk [] => Some (Raises HostConnectProxyError, turns, request_head)
           | RChunk chunk =>
             let request_head := request_head ++ chunk in
             if MAX_CONNECT_REQUEST_HEAD_BYTES <? length request_head then Some (Raises HostConnectProxyError, turns, request_head)
             else if endswith _HEADER_TERMINATOR request_head then Some (Returns request_head, turns, request_head)
             else read_head_from deadline checked turns request_head
           end
    end
  end.
Definition _read_request_head (now : Z) (turns : list head_turn) : option (outcome (list N) * list head_turn * list N) :=
  read_head_from (now + _CONNECT_HEAD_TIMEOUT_NS) 0 turns [].

(** ** What the sockets promise *)
Definition io_turn_ok (t : io_turn) : Prop :=
  (∀ n chunk, 0 < n → io_recv t n = RChunk chunk → length chunk ≤ n ∧ Forall (λ b, (b < 256)%N) chunk) ∧
  (∀ payload n, io_send t payload = SSent n → n ≤ length payload).
Definition stream_ok (s : stream) : Prop := Forall io_turn_ok (sm_turns s).

(** ** Reading and sending exactly *)
Lemma read_exact_from_ok size deadline turns : Forall io_turn_ok turns → ∀ result rx tx o s', length result ≤ size →
  read_exact_from size deadline turns result rx tx = Some (o, s') →
  stream_ok s' ∧ sm_sent s' = tx ∧
  ∀ a, o = Returns a → ∃ more, a = result ++ more ∧ sm_received s' = rx ++ more ∧ length a = size ∧ Forall (λ b, (b < 256)%N) more.
Proof.
  intros Hok. induction Hok as [|t turns Ht Hok IH]; intros result rx tx o s' Hl; cbn [read_exact_from]; destruct (Nat.leb_spec size (length result)) as [Hle|Hlt].
  1,3: intros [= <- <-]; split_and!; [unfold stream_ok; cbn; first [apply Forall_nil_2|by apply Forall_cons_2]|done|]; intros a [= <-]; exists []; rewrite !app_nil_r; split_and!; [done|done|lia|constructor].
  - done.
  - destruct (turn_progress deadline t); [by apply IH|intros [= <- <-]; by split_and!|]. destruct (io_recv t (size - length result)) as [|[|b chunk]|] eqn:E; [by apply IH|intros [= <- <-]; by split_and!| |intros [= <- <-]; by split_and!].
    apply (proj1 Ht) in E as [Hlen Hb]; [|lia]. intros Hs. apply IH in Hs as (H1 & H2 & H3); [|rewrite length_app; lia]. split_and!; [done|done|].
    intros a Ha. destruct (H3 a Ha) as (more & -> & -> & Hla & Hm). exists ((b :: chunk) ++ more). rewrite !app_assoc. split_and!; [done|done|done|]. by apply Forall_app.
Qed.
Lemma read_exact_ok size deadline s o s' : stream_ok s → _read_exact size deadline s = Some (o, s') →
  stream_ok s' ∧ sm_sent s' = sm_sent s ∧ ∀ a, o = Returns a → sm_received s' = sm_received s ++ a ∧ length a = size ∧ Forall (λ b, (b < 256)%N) a.
Proof.
  intros Hok Hs. apply read_exact_from_ok in Hs as (H1 & H2 & H3); [|done|apply Nat.le_0_l]. split_and!; [done|done|]. intros a Ha. destruct (H3 a Ha) as (more & -> & ? & ? & ?). done.
Qed.
Lemma send_from_ok deadline turns : Forall io_turn_ok turns → ∀ payload rx tx o s', send_from payload deadline turns rx tx = Some (o, s') →
  stream_ok s' ∧ sm_received s' = rx ∧ (o = Returns tt → sm_sent s' = tx ++ payload).
Proof.
  intros Hok. induction Hok as [|t turns Ht Hok IH]; intros payload rx tx o s'; destruct payload as [|b payload]; cbn [send_from]; try done.
  1,2: intros [= <- <-]; split_and!; [unfold stream_ok; cbn; first [apply Forall_nil_2|by apply Forall_cons_2]|done|]; intros _; by rewrite app_nil_r.
  destruct (turn_progress deadline t); [by apply IH|intros [= <- <-]; by split_and!|]. destruct (io_send t (b :: payload)) as [|[|n]|]; [by apply IH|intros [= <- <-]; by split_and!| |intros [= <- <-]; by split_and!].
  intros Hs. apply IH in Hs as (H1 & H2 & H3). split_and!; [done|done|]. intros Ho. by rewrite (H3 Ho), <-app_assoc, take_drop.
Qed.
Lemma send_bytes_ok payload deadline s o s' : stream_ok s → _send_bytes payload deadline s = Some (o, s') →
  stream_ok s' ∧ sm_received s' = sm_received s ∧ (o = Returns tt → sm_sent s' = sm_sent s ++ payload).
Proof. intros Hok. exact (send_from_ok deadline (sm_turns s) Hok payload (sm_received s) (sm_sent s) o s'). Qed.
Lemma io_bind_returns {A B} (m : io A) (f : A → io B) s b s' : (m ≫= f) s = Some (Returns b, s') → ∃ a s1, m s = Some (Returns a, s1) ∧ f a s1 = Some (Returns b, s').
Proof. unfold mbind, io_bind. destruct (m s) as [[[a|c|e] s1]|]; [|done..]. by exists a, s1. Qed.
Lemma refuse_returns cond code s s' : refuse cond code s = Some (Returns tt, s') → cond = false ∧ s' = s.
Proof. unfold refuse, rejects. destruct cond; [done|]. by intros [= <-]. Qed.
Lemma list_one {A} (l : list A) : length l = 1 → ∃ a, l = [a].
Proof. destruct l as [|a [|]]; try done. eauto. Qed.
Lemma list_two {A} (l : list A) : length l = 2 → ∃ a b, l = [a; b].
Proof. destruct l as [|a [|b [|]]]; try done. eauto. Qed.
Lemma list_four {A} (l : list A) : length l = 4 → ∃ a b c d, l = [a; b; c; d].
Proof. destruct l as [|a [|b [|c [|d [|]]]]]; try done. eauto. Qed.
Lemma read_then {B} size deadline (f : list N → io B) s b s' : stream_ok s → (_read_exact size deadline ≫= f) s = Some (Returns b, s') →
  ∃ a s1, stream_ok s1 ∧ sm_sent s1 = sm_sent s ∧ sm_received s1 = sm_received s ++ a ∧ length a = size ∧ Forall (λ b, (b < 256)%N) a ∧ f a s1 = Some (Returns b, s').
Proof.
  intros Hs (a & s1 & E1 & E)%io_bind_returns. destruct (read_exact_ok _ _ _ _ _ Hs E1) as (Hs1 & T1 & R1). destruct (R1 a eq_refl) as (? & ? & ?). by exists a, s1.
Qed.
Lemma refuse_then {B} cond code (f : unit → io B) s b s' : (refuse cond code ≫= f) s = Some (Returns b, s') → cond = false ∧ f tt s = Some (Returns b, s').
Proof. intros ([] & s1 & E1 & E)%io_bind_returns. apply refuse_returns in E1 as [-> ->]. done. Qed.
Lemma send_then {B} payload deadline (f : unit → io B) s b s' : stream_ok s → (_send_bytes payload deadline ≫= f) s = Some (Returns b, s') →
  ∃ s1, stream_ok s1 ∧ sm_sent s1 = sm_sent s ++ payload ∧ sm_received s1 = sm_received s ∧ f tt s1 = Some (Returns b, s').
Proof.
  intros Hs ([] & s1 & E1 & E)%io_bind_returns. destruct (send_bytes_ok _ _ _ _ _ Hs E1) as (Hs1 & R1 & T1). exists s1. split_and!; auto.
Qed.

Lemma first_split {A} (a : A) l1 r1 l2 r2 : a ∉ l1 → a ∉ l2 → l1 ++ a :: r1 = l2 ++ a :: r2 → l1 = l2 ∧ r1 = r2.
Proof.
  revert l2. induction l1 as [|x l1 IH]; intros [|y l2]; rewrite ?not_elem_of_cons; cbn.
  - by intros _ _ [= ->].
  - by intros _ [Hne _] [= -> _].
  - by intros [Hne _] _ [= -> _].
  - intros [_ H1] [_ H2] [= -> E]. by destruct (IH l2 H1 H2 E) as [-> ->].
Qed.

(** ** No way around the parser *)
Lemma count_cr_clean l : 13%N ∉ l → count_occ N.eq_dec l 13%N = 0.
Proof. intros Hl. apply count_occ_not_In. by rewrite <-list_elem_of_In. Qed.
(** Whatever bytes stand for the host name, the head that is made of them is a
    CONNECT to exactly this name, or to nothing. *)
Lemma socks_head_target hostname t : parse_https_connect_request_head (socks_head hostname) = Ok t →
  is_exact_dns_hostname hostname = true ∧ t = mkHttpsConnectTarget (lower hostname) 443.
Proof.
  intros Hp. apply head_grammar in Hp as (h & lines & Hh & -> & _ & Hl & E).
  assert (E' : u "CONNECT " ++ hostname ++ u ":443 HTTP/1.1" ++ crlf ++ u "Host: " ++ hostname ++ u ":443" = join crlf lines).
  { apply (app_inv_tail (crlf ++ crlf)). rewrite <-E. unfold socks_head. change _HTTPS_PORT_TEXT with (u "443"). rewrite <-!app_assoc. done. }
  clear E. pose proof (f_equal (λ l, count_occ N.eq_dec l 13%N) E') as Ec. cbn beta in Ec. rewrite !count_occ_app in Ec.
  assert (Hlines : ∃ v, lines = [u "CONNECT " ++ h ++ u ":443 HTTP/1.0"] ∨ lines = [u "CONNECT " ++ h ++ u ":443 HTTP/1.1"; v] ∧ 13%N ∉ v).
  { destruct Hl as [->|(line & -> & Hline)]; [by exists []; left|]. exists line. right. by apply host_line_clean in Hline as [? _]. }
  destruct Hlines as (v & [->|[-> Hv]]).
  - cbn [join] in Ec. rewrite (count_cr_clean (_ ++ h ++ _)) in Ec by (apply request_line_no_cr; [done|by_compute]). cbn in Ec. lia.
  - cbn [join] in *. rewrite !count_occ_app, (count_cr_clean (u "CONNECT ")), (count_cr_clean h), (count_cr_clean v) in Ec by (done || by_compute || (by apply (clean_not_elem host_byte), exact_host_bytes)).
    assert (Hno : 13%N ∉ hostname).
    { intros Hin. apply list_elem_of_In, (count_occ_In N.eq_dec) in Hin. cbn in Ec. lia. }
    assert (Hrl : 13%N ∉ u "CONNECT " ++ hostname ++ u ":443 HTTP/1.1") by (rewrite !not_elem_of_app; split_and!; [by_compute|done|by_compute]).
    assert (Hrh : 13%N ∉ u "CONNECT " ++ h ++ u ":443 HTTP/1.1") by (apply request_line_no_cr; [done|by_compute]).
    destruct (first_split 13%N _ (10%N :: u "Host: " ++ hostname ++ u ":443") _ (10%N :: v) Hrl Hrh) as [E _].
    { rewrite <-!app_assoc. rewrite <-!app_assoc in E'. exact E'. }
    apply app_inv_head, app_inv_tail in E as ->. done.
Qed.
Lemma host_byte_value c : host_byte c = true → bad_value_byte c = false.
Proof.
  intros Hc%host_byte_facts. destruct Hc as (_ & _ & _ & Hc & _). unfold is_control in Hc. unfold bad_value_byte. destruct (c <? 32)%N; [done|exact Hc].
Qed.
Lemma strip_host h : is_exact_dns_hostname h = true → strip_by blank (u " " ++ h ++ u ":443") = h ++ u ":443".
Proof.
  intros Hh. pose proof (exact_host_bytes h Hh) as Hb. destruct h as [|c h]; [done|]. apply Forall_cons in Hb as [(_ & _ & _ & _ & Hc)%host_byte_facts _].
  unfold strip_by. assert (E : lstrip_by blank (u " " ++ (c :: h) ++ u ":443") = (c :: h) ++ u ":443") by (change (u " ") with [32%N]; cbn [app lstrip_by]; change (blank 32) with true; cbn iota; by rewrite Hc). rewrite E. unfold rstrip_by.
  rewrite reverse_app. change (reverse (u ":443")) with (51%N :: [52; 52; 58]%N). cbn [app lstrip_by]. change (blank 51) with false. cbn iota.
  change (51 :: 52 :: 52 :: 58 :: reverse (c :: h))%N with (reverse (u ":443") ++ reverse (c :: h)). by rewrite <-reverse_app, reverse_involutive.
Qed.
(** And to it, if the name is one. *)
Lemma socks_head_accepted hostname : is_exact_dns_hostname hostname = true → length hostname < 256 →
  parse_https_connect_request_head (socks_head hostname) = Ok (mkHttpsConnectTarget (lower hostname) 443).
Proof.
  intros Hh Hl. pose proof (exact_host_bytes _ Hh) as Hb. apply head_grammar. exists hostname, [u "CONNECT " ++ hostname ++ u ":443 HTTP/1.1"; u "Host: " ++ hostname ++ u ":443"]. split_and!; try done.
  - apply (Nat.le_trans _ 600); [|apply Nat.leb_le; vm_compute; reflexivity]. unfold socks_head. change _HTTPS_PORT_TEXT with (u "443"). rewrite !length_app.
    change (length (u "CONNECT ")) with 8. change (length (u ":")) with 1. change (length (u "443")) with 3. change (length (u " HTTP/1.1")) with 9. change (length (u "Host: ")) with 6. change (length crlf) with 2. lia.
  - right. eexists. split; [done|]. exists (u "Host"), (u " " ++ hostname ++ u ":443"), hostname. split_and!; try done.
    + rewrite !Forall_app. split_and!; [by_compute|eapply Forall_impl; [exact Hb|exact host_byte_value]|by_compute].
    + right. by apply strip_host.
  - unfold socks_head. change _HTTPS_PORT_TEXT with (u "443"). cbn [join]. by rewrite <-!app_assoc.
Qed.

(** C30: What a SOCKS5 client is taken to ask for is what it sent, to the byte.  When a
    request is read, the bytes received are exactly a greeting that offers no
    authentication and a CONNECT request for the host name and port 443, nothing
    was read beyond it and only the choice of method was answered; the head that
    is passed on is parsed as a CONNECT to exactly this name or refused, so that
    no bytes in the name can add a line or another destination.  When none is
    read, the client offered no such method and was told so. *)
Theorem socks_request_exact now turns r s' :
  Forall io_turn_ok turns → _read_socks5_request now (mkStream turns [] []) = Some (Returns r, s') →
  match r with
  | Some head => ∃ methods hostname,
      sm_received s' = [5; N.of_nat (length methods)]%N ++ methods ++ [5; 1; 0; 3; N.of_nat (length hostname)]%N ++ hostname ++ [1; 187]%N ∧
      sm_sent s' = [5; 0]%N ∧ 0%N ∈ methods ∧ hostname ≠ [] ∧ head = socks_head hostname ∧
      ∀ t, parse_https_connect_request_head head = Ok t ↔ is_exact_dns_hostname hostname = true ∧ t = mkHttpsConnectTarget (lower hostname) 443
  | None => ∃ methods, sm_received s' = [5; N.of_nat (length methods)]%N ++ methods ∧ 0%N ∉ methods ∧ sm_sent s' = [5; 255]%N
  end.
Proof.
  intros Hok. assert (Hs : stream_ok (mkStream turns [] [])) by done. unfold _read_socks5_request. cbv zeta.
  intros (g & s1 & Hs1 & T1 & R1 & (v & count & ->)%list_two & _ & E)%read_then; [|done]. cbn [byte_at nth sm_sent sm_received app] in *.
  apply refuse_then in E as [[Ev%negb_false_iff%N.eqb_eq _]%orb_false_iff E]. apply read_then in E as (methods & s2 & Hs2 & T2 & R2 & L2 & _ & E); [|done].
  assert (Ec : count = N.of_nat (length methods)) by (rewrite L2; lia). rewrite T1 in T2. rewrite R1, Ev, Ec in R2. clear R1 T1 L2 Ev Ec s1 Hs1.
  destruct (negb (_SOCKS5_METHOD_NO_AUTH ∈s methods)) eqn:Em; [apply negb_true_iff in Em|apply negb_false_iff in Em].
  { apply send_then in E as (s3 & _ & T3 & R3 & E); [|done]. injection E as <- <-. exists methods. rewrite R3, R2, T3, T2. split_and!; [done| |done]. by apply bool_decide_eq_false in Em. }
  apply bool_decide_eq_true in Em. apply send_then in E as (s3 & Hs3 & T3 & R3 & E); [|done]. rewrite T2 in T3. rewrite R2 in R3. clear T2 R2 s2 Hs2.
  apply read_then in E as (q & s4 & Hs4 & T4 & R4 & (a & b & c & d & ->)%list_four & _ & E); [|done]. rewrite T3 in T4. rewrite R3 in R4. clear T3 R3 s3 Hs3. cbn [byte_at nth] in E.
  apply refuse_then in E as [[Ea%negb_false_iff%N.eqb_eq Ec%negb_false_iff%N.eqb_eq]%orb_false_iff E]. apply refuse_then in E as [Eb%negb_false_iff%N.eqb_eq E]. apply refuse_then in E as [Ed%negb_false_iff%N.eqb_eq E]. subst a b c d.
  apply read_then in E as (q & s5 & Hs5 & T5 & R5 & (n & ->)%list_one & B5 & E); [|done]. rewrite T4 in T5. rewrite R4 in R5. clear T4 R4 s4 Hs4. cbn [byte_at nth] in E.
  apply refuse_then in E as [En%N.eqb_neq E]. apply read_then in E as (hostname & s6 & Hs6 & T6 & R6 & L6 & B6 & E); [|done]. rewrite T5 in T6. rewrite R5 in R6. clear T5 R5 s5 Hs5.
  apply read_then in E as (q & s7 & _ & T7 & R7 & (p1 & p2 & ->)%list_two & Bp & E); [|done]. rewrite T6 in T7. rewrite R6 in R7. clear T6 R6 s6 Hs6. cbn [byte_at nth] in E.
  apply refuse_then in E as [Ep%negb_false_iff%Z.eqb_eq E]. apply refuse_then in E as [_ E]. injection E as <- <-.
  assert (Hport : p1 = 1%N ∧ p2 = 187%N) by (apply Forall_cons in Bp as [_ [Bp _]%Forall_cons]; unfold HTTPS_PORT in Ep; lia). destruct Hport as [-> ->].
  assert (Hn : n = N.of_nat (length hostname)) by (rewrite L6; lia). exists methods, hostname. split_and!; [|done|done| |done|].
  - rewrite R7, Hn, <-!app_assoc. done.
  - intros ->. cbn in Hn. done.
  - intros t. split; [apply socks_head_target|]. intros [Hh ->]. apply socks_head_accepted; [done|].
  apply Forall_cons in B5 as [B5 _]. lia.
Qed.

(** ** One head and not a byte more *)
(** No prefix of the bytes before the last ends a head. *)
Definition no_head_yet (l : list N) : Prop := ∀ p, p `prefix_of` l → endswith _HEADER_TERMINATOR p = false.
Lemma rev_cases {A} (l : list A) : l = [] ∨ ∃ l' x, l = l' ++ [x].
Proof. induction l as [|x l _] using rev_ind; [by left|right; by exists l, x]. Qed.
Lemma prefix_snoc_cases {A} (p l : list A) b : p `prefix_of` l ++ [b] → p `prefix_of` l ∨ p = l ++ [b].
Proof.
  intros [k E]. destruct (rev_cases k) as [->|(k' & x & ->)]; [right; by rewrite app_nil_r in E|]. left. rewrite app_assoc in E. apply app_inj_tail in E as [-> _]. by exists k'.
Qed.
Lemma no_head_snoc l b : no_head_yet l → endswith _HEADER_TERMINATOR (l ++ [b]) = false → no_head_yet (l ++ [b]).
Proof.
  intros Hl Hb p Hp. destruct (prefix_snoc_cases p l b Hp) as [?| ->]; auto.
Qed.
Lemma read_head_from_ok turns : Forall (λ t, ∀ chunk, ht_recv t = RChunk chunk → length chunk ≤ 1) turns → ∀ deadline checked l head rest got,
  no_head_yet l → read_head_from deadline checked turns l = Some (Returns head, rest, got) →
  got = head ∧ endswith _HEADER_TERMINATOR head = true ∧ length head ≤ MAX_CONNECT_REQUEST_HEAD_BYTES ∧ ∃ front b, head = front ++ [b] ∧ no_head_yet front.
Proof.
  induction 1 as [|t turns Ht _ IH]; intros deadline checked l head rest got Hl; cbn [read_head_from]; [done|]. destruct (head_lease checked t) as [[now checked']|e]; [|done].
  destruct (ht_closed t); [done|]. destruct (_ <=? 0)%Z; [done|]. destruct (negb (ht_ready t)); [by apply IH|]. destruct (ht_recv t) as [|[|b chunk]|] eqn:E; try done.
  specialize (Ht _ eq_refl). destruct chunk; [|cbn in Ht; lia]. cbv zeta. destruct (Nat.ltb_spec MAX_CONNECT_REQUEST_HEAD_BYTES (length (l ++ [b]))) as [|Hlen]; [done|].
  destruct (endswith _HEADER_TERMINATOR (l ++ [b])) eqn:Ee; [|by apply IH, no_head_snoc]. intros [= <- _ <-]. split_and!; try done. by exists l, b.
Qed.
(** The head reader of the loopback server: what it returns is everything it has
    taken from the client, up to the first end of a head; bytes sent right after
    it stay with the socket, for the tunnel. *)
Lemma request_head_exact now turns head rest got :
  Forall (λ t, ∀ chunk, ht_recv t = RChunk chunk → length chunk ≤ 1) turns → _read_request_head now turns = Some (Returns head, rest, got) →
  got = head ∧ endswith _HEADER_TERMINATOR head = true ∧ length head ≤ MAX_CONNECT_REQUEST_HEAD_BYTES ∧ ∃ front b, head = front ++ [b] ∧ no_head_yet front.
Proof.
  intros Ht. apply read_head_from_ok; [done|]. intros p Hp. apply prefix_nil_inv in Hp as ->. vm_compute. reflexivity.
Qed.

(** ** A client that asks *)
Module SocksSample.
Definition io_gives (chunk : list N) : io_turn := mkIoTurn (Ok tt) false 0 (Poll true) (λ n, RChunk (take n chunk)) (λ b, SSent (length b)).
Definition idle_turn : io_turn := mkIoTurn (Ok tt) false 0 (Poll false) (λ _, RBlocked) (λ _, SBlocked).
Definition client (host : string) (port : list N) : list io_turn :=
  [io_gives [5; 1]; io_gives [0]; io_gives []; io_gives [5; 1]; idle_turn; io_gives [0; 3]; io_gives [N.of_nat (length (u host))]; io_gives (u host); io_gives port]%N.
Definition asks (host : string) (port : list N) : option (outcome (option (list N))) := fst <$> _read_socks5_request 0 (mkStream (client host port) [] []).
End SocksSample.
Import SocksSample.
Example socks_requests :
  asks "example.com" [1; 187]%N = Some (Returns (Some (socks_head (u "example.com")))) ∧ asks "example.com" [0; 80]%N = Some (Rejects 2).
Proof. vm_compute. split; reflexivity. Qed.
Lemma sample_client_ok : Forall io_turn_ok (client "example.com" [1; 187]%N).
Proof.
  assert (Hg : ∀ c, forallb (λ b, b <? 256)%N c = true → io_turn_ok (io_gives c)).
  { intros c Hc. split; unfold io_gives; cbn [io_recv io_send].
    - intros n chunk _ Hch. assert (chunk = take n c) as -> by congruence. split; [rewrite length_take; lia|]. apply Forall_take, Forall_forall. intros x Hx.
      rewrite forallb_forall in Hc. apply N.ltb_lt, Hc. by apply list_elem_of_In.
    - intros p n Hn. assert (n = length p) as -> by congruence. done. }
  assert (Hi : io_turn_ok idle_turn) by (split; unfold idle_turn; cbn [io_recv io_send]; done).
  unfold client. repeat (apply Forall_cons_2; [first [exact Hi|apply Hg; vm_compute; reflexivity]|]). apply Forall_nil_2.
Qed.
Lemma socks_request_exact_witness :
  ∃ methods hostname : list N, 0%N ∈ methods ∧ socks_head (u "example.com") = socks_head hostname ∧
    ∀ t, parse_https_connect_request_head (socks_head (u "example.com")) = Ok t ↔ is_exact_dns_hostname hostname = true ∧ t = mkHttpsConnectTarget (lower hostname) 443.
Proof.
  destruct (_read_socks5_request 0 (mkStream (client "example.com" [1; 187]%N) [] [])) as [[o s']|] eqn:E; [|vm_compute in E; discriminate E].
  assert (Eo : o = Returns (Some (socks_head (u "example.com")))) by (apply (f_equal (fmap fst)) in E; vm_compute in E; injection E as <-; vm_compute; reflexivity). subst o.
  destruct (socks_request_exact 0 _ _ _ sample_client_ok E) as (methods & hostname & _ & _ & Hm & _ & Eh & Hiff). exists methods, hostname. split; [exact Hm|]. split; [exact Eh|exact Hiff].
Defined.
(** A name with a line of its own in it is refused by the parser of the head. *)
Example injected_name_refused :
  parse_https_connect_request_head (socks_head (u "a.com:443 HTTP/1.1" ++ crlf ++ u "Host: b.com")) = Err ConnectRequestError.
Proof. vm_compute. reflexivity. Qed.
