(* ===== verification/Autonomy.v ===== *)
(** * The autonomous run state machine ([src/src/icode/autonomy.py])

    [AutonomyManager]: intents, worker threads and their safe points, over the
    tickets' stored run records.  A run is one [RunControl] with its thread; a
    [world] holds every run and manager of the process, the process-wide worker
    registry and the stored [icode_agent] extension of each ticket.  Each
    operation is one section under the manager's lock, so interleavings of
    threads are sequences of operations.  What the code reads from outside (the
    clock, [uuid4], whether the control plane accepts a write, a workspace
    session opens or a thread starts) is an argument, [env]. *)

From S2P Require Import Prelude PyText PyVal Hashing FailurePolicy.

#[local] Open Scope Z_scope.

Definition AE (code : string) : exn := AutonomyError code.

Definition INTENTS : list pystr := [u "start"; u "pause"; u "resume"; u "cancel"; u "takeover"].
Definition ACTIVE_STATES : list pystr :=
  [u "starting"; u "running"; u "pause_requested"; u "cancel_requested"].
Definition TERMINAL_RESULT_STATES : list pystr := [u "succeeded"; u "failed"; u "blocked"].
Definition _WORKER_RETRY_LIMIT : Z := 1.
Definition _INTENT_RECEIPT_LIMIT : Z := 64.

(** [[A-Za-z0-9._:-]] *)
Definition token_char (c : N) : bool :=
  is_alnum_ascii c || (c =? 46)%N || (c =? 95)%N || (c =? 58)%N || (c =? 45)%N.
Definition _REQUEST_ID_RE (s : pystr) : bool := full_cls token_char 1 (Some 140%nat) s.
Definition _STEP_RE (s : pystr) : bool := full_cls token_char 1 (Some 96%nat) s.
Definition code_char (c : N) : bool := is_lower_az c || is_digit c || (c =? 95)%N.
Definition _STABLE_CODE_RE (s : pystr) : bool :=
  match s with c :: t => is_lower_az c && full_cls code_char 0 (Some 63%nat) t | [] => false end.
Definition _INTENT_RECEIPT_RE (s : pystr) : bool := is_hex64 s.

Definition normalize_intent_payload (payload : pyval) : result (pystr * pystr) :=
  match payload with
  | PyDict d =>
    _ ← raise_if (negb (bool_decide (length d = 2%nat) && dhas (u "intent") d && dhas (u "request_id") d))
          (AE "invalid_intent");
    known ← in_set (pget (u "intent") d) INTENTS;
    _ ← raise_if (negb known) (AE "invalid_intent");
    match pget (u "intent") d, pget (u "request_id") d with
    | PyStr intent, PyStr request_id =>
      _ ← raise_if (negb (_REQUEST_ID_RE request_id)) (AE "invalid_intent");
      Ok (intent, request_id)
    | _, _ => Err (AE "invalid_intent")
    end
  | _ => Err (AE "invalid_intent")
  end.

Record ExecutionResult := mkExecutionResult {
  er_state : pystr;
  er_last_step : option pystr;
  er_error_code : option pystr
}.

(** The constructor with its [__post_init__]. *)
Definition ExecutionResult_new (state : pystr) (last_step error_code : option pystr)
  : result ExecutionResult :=
  _ ← raise_if (negb (state ∈s TERMINAL_RESULT_STATES))
        (ValueError "executor result state must be succeeded/failed/blocked");
  _ ← raise_if (match last_step with Some s => negb (_STEP_RE s) | None => false end)
        (ValueError "last_step must be a stable step token");
  _ ← raise_if (match error_code with Some c => negb (_STABLE_CODE_RE c) | None => false end)
        (ValueError "error_code must be a stable code");
  Ok (mkExecutionResult state last_step error_code).

(** ** Run records *)
Definition _revision (runtime : dict) : Z :=
  match pget (u "revision") runtime with PyInt z => if 0 <=? z then z else 0 | _ => 0 end.

Definition _internal_request (ticket_id suffix : pystr) : result pystr :=
  bytes ← encode_utf8 (ticket_id ++ u "|" ++ suffix);
  Ok (u "autonomy-" ++ take 80 suffix ++ u "-" ++ take 20 (sha256_hex bytes)).

Definition _intent_receipt_token (ticket_id intent request_id : pystr) : result pystr :=
  bytes ← encode_utf8 (ticket_id ++ u "|" ++ intent ++ u "|" ++ request_id);
  Ok (sha256_hex bytes).

(** [[v for v in values if isinstance(v, str)]] *)
Definition strs_of (v : pyval) : list pystr :=
  match v with PyList l => omap as_str l | _ => [] end.

Definition _intent_receipts (ticket_id : pystr) (runtime : dict) : result (list pystr) :=
  let receipts := filter (λ s, _INTENT_RECEIPT_RE s = true) (strs_of (pget (u "intent_receipts") runtime)) in
  known ← in_set (pget (u "last_intent") runtime) INTENTS;
  match known, pget (u "last_intent") runtime, pget (u "last_intent_request_id") runtime with
  | true, PyStr last_intent, PyStr last_request =>
    if _REQUEST_ID_RE last_request then
      legacy ← _intent_receipt_token ticket_id last_intent last_request;
      Ok (slice_last _INTENT_RECEIPT_LIMIT
            (if legacy ∈s receipts then receipts else receipts ++ [legacy]))
    else Ok (slice_last _INTENT_RECEIPT_LIMIT receipts)
  | _, _, _ => Ok (slice_last _INTENT_RECEIPT_LIMIT receipts)
  end.

Definition _append_intent_receipt (ticket_id : pystr) (runtime : dict) (intent request_id : pystr)
  : result (list pystr) :=
  receipts ← _intent_receipts ticket_id runtime;
  token ← _intent_receipt_token ticket_id intent request_id;
  Ok (slice_last _INTENT_RECEIPT_LIMIT
        (if token ∈s receipts then receipts else receipts ++ [token])).

(** ** The world *)
(** Where a run's thread is: created, started, in [executor.execute] (and
    whether for the second time), back with a result that may be retried or is
    to be recorded, raising, or in its [finally] block; [Done] when that is over. *)
Variant phase :=
  | Fresh
  | Started
  | Executing (retried : bool)
  | MayRetry (r : ExecutionResult)
  | Finishing (r : ExecutionResult)
  | Failing
  | Releasing
  | Done.

(** A [RunControl] with its manager and thread. *)
Record run := mkRun {
  rn_ticket_id : pystr;
  rn_run_id : pystr;
  rn_manager : nat;
  rn_stop_intent : option pystr;
  rn_session : bool;
  rn_worker_key : pystr;
  rn_phase : phase
}.

(** [_controls] and [_workers] hold one entry per ticket each, set and removed
    together: the run. *)
Record manager := mkManager {
  mg_enabled : bool;
  mg_has_workspaces : bool;
  mg_controls : list (pystr * nat);
  mg_receipts : list (pystr * pystr * pystr);
  mg_shutting_down : bool
}.

Record world := mkWorld {
  w_agents : list (pystr * dict);
  w_runs : list run;
  w_process_workers : list (pystr * nat);
  w_managers : list manager
}.

Variant session_outcome := SessionOpened | SessionBusy | SessionFailed.

(** What one operation reads from outside: successive [_now()] readings, a
    [uuid4().hex], whether the control plane accepts the first and the second
    write, how a session opens, whether the thread starts. *)
Record env := mkEnv {
  e_now : nat → pystr;
  e_uuid : pystr;
  e_write : bool;
  e_write2 : bool;
  e_session : session_outcome;
  e_thread_starts : bool
}.

Definition with_agents (a : list (pystr * dict)) (w : world) : world :=
  mkWorld a (w_runs w) (w_process_workers w) (w_managers w).
Definition with_runs (r : list run) (w : world) : world :=
  mkWorld (w_agents w) r (w_process_workers w) (w_managers w).
Definition with_registry (p : list (pystr * nat)) (w : world) : world :=
  mkWorld (w_agents w) (w_runs w) p (w_managers w).
Definition with_managers (m : list manager) (w : world) : world :=
  mkWorld (w_agents w) (w_runs w) (w_process_workers w) m.

Definition set_phase (p : phase) (r : run) : run :=
  mkRun (rn_ticket_id r) (rn_run_id r) (rn_manager r) (rn_stop_intent r) (rn_session r)
    (rn_worker_key r) p.
Definition set_stop (s : pystr) (r : run) : run :=
  mkRun (rn_ticket_id r) (rn_run_id r) (rn_manager r) (Some s) (rn_session r) (rn_worker_key r)
    (rn_phase r).
Definition set_session (b : bool) (r : run) : run :=
  mkRun (rn_ticket_id r) (rn_run_id r) (rn_manager r) (rn_stop_intent r) b (rn_worker_key r)
    (rn_phase r).
Definition set_controls (c : list (pystr * nat)) (m : manager) : manager :=
  mkManager (mg_enabled m) (mg_has_workspaces m) c (mg_receipts m) (mg_shutting_down m).
Definition add_receipt (k : pystr * pystr * pystr) (m : manager) : manager :=
  mkManager (mg_enabled m) (mg_has_workspaces m) (mg_controls m) (k :: mg_receipts m)
    (mg_shutting_down m).
Definition set_shutting_down (m : manager) : manager :=
  mkManager (mg_enabled m) (mg_has_workspaces m) (mg_controls m) (mg_receipts m) true.

Definition upd_run (i : nat) (f : run → run) (w : world) : world := with_runs (alter f i (w_runs w)) w.
Definition upd_manager (m : nat) (f : manager → manager) (w : world) : world :=
  with_managers (alter f m (w_managers w)) w.

(** [thread.is_alive()] *)
Definition phase_alive (p : phase) : bool := match p with Fresh | Done => false | _ => true end.
Definition is_done (p : phase) : bool := match p with Done => true | _ => false end.
Definition run_alive (w : world) (i : nat) : bool :=
  match w_runs w !! i with Some r => phase_alive (rn_phase r) | None => false end.
(** [worker.ident is None or worker.is_alive()] *)
Definition run_reserved (w : world) (i : nat) : bool :=
  match w_runs w !! i with Some r => negb (is_done (rn_phase r)) | None => false end.

(** ** The ticket store ([TicketService], as the manager uses it) *)
(** [ticket_detail] and [_resolve_ticket_record]: the stored extension. *)
Definition _ticket (w : world) (ticket_id : pystr) : result dict :=
  match dget ticket_id (w_agents w) with
  | Some agent => Ok agent
  | None => Err (AE "ticket_not_found")
  end.

Definition run_of (agent : dict) : dict :=
  match pget (u "autonomous_run") agent with PyDict d => d | _ => [] end.

Definition _raw_runtime (w : world) (ticket_id : pystr) : result dict :=
  agent ← _ticket w ticket_id; Ok (run_of agent).

(** [update_agent_extension]: refused for a malformed request id, an unknown
    ticket, or by the control plane; otherwise the patch is merged. *)
Definition update_agent_extension (w : world) (ticket_id : pystr) (patch : dict)
    (request : result pystr) (accepted : bool) : result world :=
  request_id ← request;
  _ ← raise_if (negb (_REQUEST_ID_RE request_id)) TicketError;
  match dget ticket_id (w_agents w) with
  | None => Err TicketError
  | Some agent =>
    _ ← raise_if (negb accepted) TicketError;
    Ok (with_agents (dset ticket_id (dupdate agent patch) (w_agents w)) w)
  end.

Definition _persist_intent (w : world) (ticket_id : pystr) (patch : dict)
    (request : result pystr) (accepted : bool) : result world :=
  match update_agent_extension w ticket_id patch request accepted with
  | Err TicketError => Err (AE "state_persistence_failed")
  | r => r
  end.

(** ** The process-wide worker registry *)
Definition _reserve_process_worker (w : world) (key : pystr) (i : nat) : option world :=
  match dget key (w_process_workers w) with
  | Some j => if run_reserved w j then None
              else Some (with_registry (dset key i (ddel key (w_process_workers w))) w)
  | None => Some (with_registry (dset key i (w_process_workers w)) w)
  end.

Definition _release_process_worker (w : world) (key : pystr) (i : nat) : world :=
  if bool_decide (dget key (w_process_workers w) = Some i)
  then with_registry (ddel key (w_process_workers w)) w else w.

Definition _has_live_process_worker (w : world) (key : pystr) : bool * world :=
  match dget key (w_process_workers w) with
  | None => (false, w)
  | Some j => if run_reserved w j then (true, w)
              else (false, with_registry (ddel key (w_process_workers w)) w)
  end.

Definition _release_worker_locked (w : world) (i : nat) : world :=
  match w_runs w !! i with
  | None => w
  | Some r =>
    let w := upd_run i (set_session false) w in
    match w_managers w !! rn_manager r with
    | Some m =>
      if bool_decide (dget (rn_ticket_id r) (mg_controls m) = Some i) then
        _release_process_worker
          (upd_manager (rn_manager r) (set_controls (ddel (rn_ticket_id r) (mg_controls m))) w)
          (rn_worker_key r) i
      else w
    | None => w
    end
  end.

(** ** Starting and stopping *)
Section operations.
Context (key_of : pystr → pystr).

(** [state not in allowed] *)
Definition state_allowed (intent : pystr) (state : pyval) : result bool :=
  if intent =s u "start" then
    match state with
    | PyNone => Ok true
    | _ => in_set state [u "pending"; u "cancelled"; u "succeeded"; u "failed"; u "blocked";
                         u "interrupted"]
    end
  else in_set state [u "paused"; u "failed"; u "blocked"; u "interrupted"].

Definition starting_record (ticket_id : pystr) (runtime : dict) (intent request_id run_id now : pystr)
  : result dict :=
  receipts ← _append_intent_receipt ticket_id runtime intent request_id;
  let kept := slice_last HISTORY_LIMIT (strs_of (pget (u "failure_history") runtime)) in
  Ok ([ (u "state", PyStr (u "starting")); (u "run_id", PyStr run_id);
        (u "revision", PyInt (_revision runtime + 1)); (u "requested_at", PyStr now);
        (u "updated_at", PyStr now); (u "last_intent", PyStr intent);
        (u "last_intent_request_id", PyStr request_id);
        (u "intent_receipts", PyList (PyStr <$> receipts)) ]
      ++ (if kept =s [] then [] else [(u "failure_history", PyList (PyStr <$> kept))])).

Definition mode_patch (mode status : pystr) (runtime : dict) : dict :=
  [ (u "effective_execution_mode", PyStr mode); (u "mode_status", PyStr status);
    (u "autonomous_run", PyDict runtime) ].

(** [dict(runtime)] updated with a final state. *)
Definition ended (runtime : dict) (state error_code : pystr) (e : env) : dict :=
  dupdate runtime
    [ (u "state", PyStr state); (u "revision", PyInt (_revision runtime + 1));
      (u "updated_at", PyStr (e_now e 0)); (u "finished_at", PyStr (e_now e 1));
      (u "error_code", PyStr error_code) ].

Definition run_request (ticket_id run_id : pystr) (runtime : dict) (suffix : pystr) : result pystr :=
  _internal_request ticket_id
    (u "run-" ++ run_id ++ u "-" ++ dec_z (_revision runtime) ++ suffix).

(** A failed [thread.start()]: the worker is released and the stored state says
    so, if the control plane accepts it. *)
Definition start_failed (w : world) (ticket_id : pystr) (i : nat) (run_id : pystr) (starting : dict)
    (e : env) : result dict * world :=
  let w := _release_worker_locked w i in
  let interrupted := ended starting (u "interrupted") (u "worker_start_failed") e in
  match _persist_intent w ticket_id (mode_patch (u "interactive") (u "pending_activation") interrupted)
          (run_request ticket_id run_id interrupted (u "-start-failed")) (e_write2 e) with
  | Ok w => (Err (AE "worker_start_failed"), w)
  | Err x => (Err x, w)
  end.

(** The session, the stored state and the thread of a run already registered. *)
Definition start_registered (w : world) (m : manager) (ticket_id : pystr) (i : nat)
    (intent request_id run_id : pystr) (starting : dict) (e : env) : result dict * world :=
  let opened := if mg_has_workspaces m then e_session e else SessionOpened in
  match opened with
  | SessionBusy => (Err (AE "workspace_busy"), _release_worker_locked w i)
  | SessionFailed => (Err (AE "workspace_setup_failed"), _release_worker_locked w i)
  | SessionOpened =>
    let w := upd_run i (set_session (mg_has_workspaces m)) w in
    match _persist_intent w ticket_id (mode_patch (u "autonomous") (u "active") starting)
            (_internal_request ticket_id (u "intent-" ++ intent ++ u "-" ++ request_id)) (e_write e) with
    | Err x => (Err x, _release_worker_locked w i)
    | Ok w =>
      if e_thread_starts e then (_ticket w ticket_id, upd_run i (set_phase Started) w)
      else start_failed w ticket_id i run_id starting e
    end
  end.

Definition _require_capability (m : manager) (agent : dict) : result unit :=
  _ ← raise_if (negb (mg_enabled m)) (AE "capability_disabled");
  raise_if (negb (is_lit (pget (u "requested_execution_mode") agent) (u "autonomous")))
    (AE "autonomous_not_requested").

(** The checks of [_start_or_resume_locked]; the stored record of the new run. *)
Definition start_checks (w : world) (m : manager) (ticket_id : pystr) (agent : dict)
    (intent request_id run_id : pystr) (e : env) : result dict :=
  _ ← _require_capability m agent;
  _ ← raise_if (match dget ticket_id (mg_controls m) with Some i => run_alive w i | None => false end)
        (AE "invalid_transition");
  runtime ← _raw_runtime w ticket_id;
  allowed ← state_allowed intent (pget (u "state") runtime);
  _ ← raise_if (negb allowed) (AE "invalid_transition");
  starting_record ticket_id runtime intent request_id run_id (e_now e 0).

Definition _start_or_resume_locked (w : world) (mi : nat) (m : manager) (ticket_id : pystr)
    (agent : dict) (intent request_id : pystr) (e : env) : result dict * world :=
  let run_id := u "run-" ++ e_uuid e in
  match start_checks w m ticket_id agent intent request_id run_id e with
  | Err x => (Err x, w)
  | Ok starting =>
    let i := length (w_runs w) in
    let key := key_of ticket_id in
    match _reserve_process_worker w key i with
    | None => (Err (AE "invalid_transition"), w)
    | Some w =>
      let w := with_runs (w_runs w ++ [mkRun ticket_id run_id mi None false key Fresh]) w in
      let w := upd_manager mi (set_controls (dset ticket_id i (mg_controls m))) w in
      start_registered w m ticket_id i intent request_id run_id starting e
    end
  end.

Definition STOPPABLE : list pystr := [u "starting"; u "running"; u "pause_requested"].

(** The stored record of an accepted stop request. *)
Definition stop_record (ticket_id : pystr) (runtime : dict) (intent request_id now : pystr)
  : result dict :=
  receipts ← _append_intent_receipt ticket_id runtime intent request_id;
  Ok (dupdate runtime
        [ (u "state", PyStr (if intent =s u "cancel" then u "cancel_requested" else u "pause_requested"));
          (u "revision", PyInt (_revision runtime + 1)); (u "updated_at", PyStr now);
          (u "last_intent", PyStr intent); (u "last_intent_request_id", PyStr request_id);
          (u "intent_receipts", PyList (PyStr <$> receipts)) ]).

Definition stop_checks (w : world) (m : manager) (ticket_id intent request_id : pystr) (e : env)
  : result (nat * dict) :=
  runtime ← _raw_runtime w ticket_id;
  match dget ticket_id (mg_controls m) with
  | None => Err (AE "invalid_transition")
  | Some i =>
    _ ← raise_if (negb (run_alive w i)) (AE "invalid_transition");
    stoppable ← in_set (pget (u "state") runtime) STOPPABLE;
    _ ← raise_if (negb stoppable) (AE "invalid_transition");
    _ ← raise_if (is_lit (pget (u "state") runtime) (u "pause_requested") && (intent =s u "pause"))
          (AE "invalid_transition");
    requested ← stop_record ticket_id runtime intent request_id (e_now e 0);
    Ok (i, requested)
  end.

Definition _request_stop_locked (w : world) (m : manager) (ticket_id intent request_id : pystr) (e : env)
  : result dict * world :=
  match stop_checks w m ticket_id intent request_id e with
  | Err x => (Err x, w)
  | Ok (i, requested) =>
    match _persist_intent w ticket_id [(u "autonomous_run", PyDict requested)]
            (_internal_request ticket_id (u "intent-" ++ intent ++ u "-" ++ request_id)) (e_write e) with
    | Err x => (Err x, w)
    | Ok w => (_ticket w ticket_id, upd_run i (set_stop intent) w)
    end
  end.

(** Was this intent applied before, by the receipts kept in memory or stored? *)
Definition already_applied (ticket_id : pystr) (runtime : dict) (intent request_id : pystr) : result bool :=
  receipt ← _intent_receipt_token ticket_id intent request_id;
  receipts ← _intent_receipts ticket_id runtime;
  Ok ((receipt ∈s receipts)
      || (is_lit (pget (u "last_intent") runtime) intent
          && is_lit (pget (u "last_intent_request_id") runtime) request_id)).

(** [handle_intent]; its answer is the stored extension the public projection
    shows. *)
Definition handle_intent (w : world) (mi : nat) (ticket_id : pystr) (payload : pyval) (e : env)
  : result dict * world :=
  match w_managers w !! mi, normalize_intent_payload payload with
  | None, _ => (Err (RuntimeError "no manager"), w)
  | _, Err x => (Err x, w)
  | Some m, Ok (intent, request_id) =>
    let key := (ticket_id, intent, request_id) in
    if key ∈s mg_receipts m then (_ticket w ticket_id, w)
    else if mg_shutting_down m then (Err (AE "manager_shutdown"), w)
    else match _ticket w ticket_id with
    | Err x => (Err x, w)
    | Ok agent =>
      match already_applied ticket_id (run_of agent) intent request_id with
      | Err x => (Err x, w)
      | Ok true => (Ok agent, upd_manager mi (add_receipt key) w)
      | Ok false =>
        let '(r, w) :=
          if intent ∈s [u "start"; u "resume"]
          then _start_or_resume_locked w mi m ticket_id agent intent request_id e
          else _request_stop_locked w m ticket_id intent request_id e in
        (r, match r with Ok _ => upd_manager mi (add_receipt key) w | Err _ => w end)
      end
    end
  end.

(** ** The worker thread ([_worker_main]) *)
Definition owner_of (w : world) (i : nat) (r : run) : option manager :=
  match w_managers w !! rn_manager r with
  | Some m => if bool_decide (dget (rn_ticket_id r) (mg_controls m) = Some i) then Some m else None
  | None => None
  end.
Definition manager_down (w : world) (r : run) : bool :=
  match w_managers w !! rn_manager r with Some m => mg_shutting_down m | None => true end.
Definition is_current (runtime : dict) (r : run) : bool :=
  is_lit (pget (u "run_id") runtime) (rn_run_id r).

Definition running_record (runtime : dict) (e : env) : dict :=
  dupdate runtime
    [ (u "state", PyStr (u "running")); (u "revision", PyInt (_revision runtime + 1));
      (u "started_at", PyStr (e_now e 0)); (u "updated_at", PyStr (e_now e 1)) ].

Definition store_run (w : world) (r : run) (runtime : dict) (suffix : pystr) (e : env) : result world :=
  update_agent_extension w (rn_ticket_id r) [(u "autonomous_run", PyDict runtime)]
    (run_request (rn_ticket_id r) (rn_run_id r) runtime suffix) (e_write e).

(** From the start of the thread to the call of the executor. *)
Definition worker_begin (w : world) (i : nat) (r : run) (e : env) : world :=
  match _raw_runtime w (rn_ticket_id r) with
  | Err _ => upd_run i (set_phase Failing) w
  | Ok runtime =>
    if manager_down w r || negb (is_current runtime r) then upd_run i (set_phase Releasing) w
    else if is_lit (pget (u "state") runtime) (u "starting") then
      match store_run w r (running_record runtime e) (u "-running") e with
      | Err _ => upd_run i (set_phase Failing) w
      | Ok w => upd_run i (set_phase (Executing false)) w
      end
    else upd_run i (set_phase (Executing false)) w
  end.

(** The stored record at a safe point, and the extension fields with it. *)
Definition safe_point_patch (runtime : dict) (stop : option pystr) (step : pystr) (e : env)
  : Z * dict :=
  let revision := _revision runtime + 1 in
  let base := dupdate runtime
    [ (u "revision", PyInt revision); (u "updated_at", PyStr (e_now e 0)); (u "last_step", PyStr step) ] in
  let stopped (state : string) (more : dict) :=
    dset (u "finished_at") (PyStr (e_now e 1)) (dupdate base ((u "state", PyStr (u state)) :: more)) in
  let interactive := [ (u "effective_execution_mode", PyStr (u "interactive"));
                       (u "mode_status", PyStr (u "pending_activation")) ] in
  (revision,
   match stop with
   | None => [(u "autonomous_run", PyDict (dset (u "state") (PyStr (u "running")) base))]
   | Some intent =>
     if intent =s u "cancel" then (u "autonomous_run", PyDict (stopped "cancelled" [])) :: interactive
     else if intent =s u "pause" then [(u "autonomous_run", PyDict (stopped "paused" []))]
     else if intent =s u "takeover" then (u "autonomous_run", PyDict (stopped "paused" [])) :: interactive
     else (u "autonomous_run",
           PyDict (stopped "interrupted" [(u "error_code", PyStr (u "shutdown"))])) :: interactive
   end).

(** [RunControl.safe_point], as the executor calls it. *)
Definition safe_point (w : world) (i : nat) (r : run) (step : pyval) (e : env) : result unit * world :=
  match step with
  | PyStr step =>
    if negb (_STEP_RE step) then (Err (ValueError "safe point step must be a stable step token"), w)
    else match owner_of w i r with
    | None => (Err RunStopped, w)
    | Some m =>
      match _raw_runtime w (rn_ticket_id r) with
      | Err x => (Err x, w)
      | Ok runtime =>
        if negb (is_current runtime r) then (Err RunStopped, w)
        else
          let stop := if mg_shutting_down m then Some (u "interrupted") else rn_stop_intent r in
          let '(revision, patch) := safe_point_patch runtime stop step e in
          match update_agent_extension w (rn_ticket_id r) patch
                  (_internal_request (rn_ticket_id r)
                     (u "run-" ++ rn_run_id r ++ u "-" ++ dec_z revision ++ u "-safe-point"))
                  (e_write e) with
          | Err x => (Err x, w)
          | Ok w => (match stop with Some _ => Err RunStopped | None => Ok tt end, w)
          end
      end
    end
  | _ => (Err (ValueError "safe point step must be a stable step token"), w)
  end.

(** What the executor's [failure_decision] does, when it has one. *)
Variant decider := NoDecider | DeciderRaised | DeciderReturned (d : option FailureDecision).

Definition opt_str (s : option pystr) : pyval := match s with Some s => PyStr s | None => PyNone end.

Definition _failure_decision_for (o : decider) (r : ExecutionResult) (attempts : Z)
  : result FailureDecision :=
  match o with
  | DeciderReturned (Some d) => Ok d
  | _ => decide_failure (classify_failure (opt_str (er_error_code r))) (PyInt attempts) PyNone true
  end.

(** [_failure_history]: the stored history, the number of this attempt and the
    fingerprint. *)
Definition _failure_history (runtime : dict) (error_code : pystr) (last_step : option pystr)
  : list pystr * Z * pystr :=
  let history := strs_of (pget (u "failure_history") runtime) in
  let fingerprint := failure_fingerprint (PyStr error_code) (opt_str last_step) in
  (history, failure_attempts history fingerprint, fingerprint).

(** The executor returned: a first result whose decision is [retry] may run the
    executor once more. *)
Definition worker_returned (w : world) (i : nat) (r : run) (retried : bool) (res : ExecutionResult)
    (o : decider) : world :=
  if retried then upd_run i (set_phase (Finishing res)) w
  else match _raw_runtime w (rn_ticket_id r) with
  | Err _ => upd_run i (set_phase Failing) w
  | Ok runtime_before =>
    match er_error_code res with
    | None => upd_run i (set_phase (Finishing res)) w
    | Some code =>
      let '(_, attempts, _) := _failure_history runtime_before code (er_last_step res) in
      match _failure_decision_for o res attempts with
      | Err _ => upd_run i (set_phase Failing) w
      | Ok d => upd_run i (set_phase (if fd_action d =s u "retry" then MayRetry res else Finishing res)) w
      end
    end
  end.

Definition worker_retry (w : world) (i : nat) (r : run) (res : ExecutionResult) : world :=
  let owned := match owner_of w i r with Some m => negb (mg_shutting_down m) | None => false end in
  upd_run i (set_phase (if owned && (0 <? _WORKER_RETRY_LIMIT) then Executing true else Finishing res)) w.

(** The error code a result is recorded under. *)
Definition result_code (res : ExecutionResult) : option pystr :=
  match er_error_code res with
  | Some c => Some c
  | None => if er_state res =s u "failed" then Some (u "executor_failed")
            else if er_state res =s u "blocked" then Some (u "execution_blocked") else None
  end.

Definition with_failure (runtime terminal : dict) (res : ExecutionResult) (code : pystr) (o : decider)
  : result dict :=
  let '(history, attempts, fingerprint) := _failure_history runtime code (er_last_step res) in
  decision ← _failure_decision_for o res attempts;
  let stuck := is_stuck history fingerprint STUCK_THRESHOLD in
  decision ← (if stuck then stop_for_no_progress decision else Ok decision);
  let t := dupdate terminal
    [ (u "failure_decision", PyDict (to_public decision ++ [(u "stuck", PyBool stuck)]));
      (u "failure_history", PyList (PyStr <$> record_failure history fingerprint HISTORY_LIMIT)) ] in
  Ok (if stuck then dset (u "error_code") (PyStr (u "no_progress_stuck")) t else t).

Definition terminal_record (runtime : dict) (res : ExecutionResult) (o : decider) (e : env)
  : result dict :=
  let t := dupdate runtime
    [ (u "state", PyStr (er_state res)); (u "revision", PyInt (_revision runtime + 1));
      (u "updated_at", PyStr (e_now e 0)); (u "finished_at", PyStr (e_now e 1)) ] in
  let t := match er_last_step res with Some s => dset (u "last_step") (PyStr s) t | None => t end in
  let t := match result_code res with
           | Some c => dset (u "error_code") (PyStr c) t
           | None => ddel (u "error_code") t
           end in
  let t := if er_state res =s u "succeeded"
           then dset (u "failure_history") (PyList []) (ddel (u "failure_decision") t) else t in
  match result_code res with
  | Some code => with_failure runtime t res code o
  | None => Ok t
  end.

Definition worker_finish (w : world) (i : nat) (r : run) (res : ExecutionResult) (o : decider) (e : env)
  : world :=
  match owner_of w i r with
  | None => upd_run i (set_phase Releasing) w
  | Some m =>
    if mg_shutting_down m then upd_run i (set_phase Releasing) w
    else match _raw_runtime w (rn_ticket_id r) with
    | Err _ => upd_run i (set_phase Failing) w
    | Ok runtime =>
      if negb (is_current runtime r) then upd_run i (set_phase Releasing) w
      else match
        terminal ← terminal_record runtime res o e;
        store_run w r terminal (u "-" ++ er_state res) e with
      | Err _ => upd_run i (set_phase Failing) w
      | Ok w => upd_run i (set_phase Releasing) w
      end
    end
  end.

(** [_record_executor_failure] *)
Definition worker_failed (w : world) (i : nat) (r : run) (e : env) : world :=
  let done := upd_run i (set_phase Releasing) in
  match owner_of w i r with
  | None => done w
  | Some m =>
    if mg_shutting_down m then done w
    else match _raw_runtime w (rn_ticket_id r) with
    | Err _ => done w
    | Ok runtime =>
      if negb (is_current runtime r) then done w
      else match store_run w r (ended runtime (u "failed") (u "executor_error") e) (u "-failed") e with
      | Err _ => done w
      | Ok w => done w
      end
    end
  end.

(** The [finally] block, the last code of the program that the thread runs.  The
    interpreter reports the thread alive until it has returned from it; that
    moment is not a step of its own, because the release has removed the run from
    every table in which [is_alive] is asked of it. *)
Definition worker_release (w : world) (i : nat) : world :=
  upd_run i (set_phase Done) (_release_worker_locked w i).

(** ** Shutdown and recovery *)
Definition shutdown_one (w : world) (accepted : pystr → bool) (e : env) (p : pystr * nat) : world :=
  let '(ticket_id, i) := p in
  let w := upd_run i (set_stop (u "interrupted")) w in
  match _raw_runtime w ticket_id, w_runs w !! i with
  | Ok runtime, Some r =>
    if str_in (pget (u "state") runtime) ACTIVE_STATES then
      let interrupted := ended runtime (u "interrupted") (u "shutdown") e in
      match update_agent_extension w ticket_id
              (mode_patch (u "interactive") (u "pending_activation") interrupted)
              (run_request ticket_id (rn_run_id r) interrupted (u "-shutdown")) (accepted ticket_id) with
      | Ok w => w
      | Err _ => w
      end
    else w
  | _, _ => w
  end.

(** The part of [shutdown] under the lock; joining the threads changes nothing. *)
Definition shutdown (w : world) (mi : nat) (accepted : pystr → bool) (e : env) : world :=
  match w_managers w !! mi with
  | None => w
  | Some m =>
    if mg_shutting_down m then w
    else foldl (λ w, shutdown_one w accepted e) (upd_manager mi set_shutting_down w) (mg_controls m)
  end.

Definition recover_one (accepted : pystr → bool) (e : env) (w : world) (ticket_id : pystr)
  : result unit * world :=
  match _raw_runtime w ticket_id with
  | Err _ => (Ok tt, w)
  | Ok runtime =>
    match in_set (pget (u "state") runtime) ACTIVE_STATES with
    | Err x => (Err x, w)
    | Ok false => (Ok tt, w)
    | Ok true =>
      let '(live, w) := _has_live_process_worker w (key_of ticket_id) in
      if live then (Ok tt, w)
      else
        let recovered := ended runtime (u "interrupted") (u "process_restarted") e in
        match update_agent_extension w ticket_id
                (mode_patch (u "interactive") (u "pending_activation") recovered)
                (_internal_request ticket_id (u "recover-" ++ dec_z (_revision recovered)))
                (accepted ticket_id) with
        | Ok w => (Ok tt, w)
        | Err TicketError => (Ok tt, w)
        | Err x => (Err x, w)
        end
    end
  end.

Fixpoint _recover_stale_runs (accepted : pystr → bool) (e : env) (w : world) (ids : list pystr)
  : result unit * world :=
  match ids with
  | [] => (Ok tt, w)
  | ticket_id :: ids' =>
    match recover_one accepted e w ticket_id with
    | (Ok _, w) => _recover_stale_runs accepted e w ids'
    | (Err x, w) => (Err x, w)
    end
  end.

(** The constructor: a manager is usable once the stale runs are recovered. *)
Definition new_manager (w : world) (enabled has_workspaces : bool) (accepted : pystr → bool) (e : env)
  : result unit * world :=
  match _recover_stale_runs accepted e w (dkeys (w_agents w)) with
  | (Ok _, w) =>
    (Ok tt, with_managers (w_managers w ++ [mkManager enabled has_workspaces [] [] false]) w)
  | (Err x, w) => (Err x, w)
  end.

(** ** Interleavings *)
Inductive action :=
  | ANew (enabled has_workspaces : bool) (accepted : pystr → bool) (e : env)
  | AIntent (mi : nat) (ticket_id : pystr) (payload : pyval) (e : env)
  | ABegin (i : nat) (e : env)
  | ASafePoint (i : nat) (step : pyval) (e : env)
  | AReturned (i : nat) (res : ExecutionResult) (o : decider)
  | ARaised (i : nat) (stopped : bool)
  | ARetry (i : nat)
  | AFinish (i : nat) (o : decider) (e : env)
  | AFailed (i : nat) (e : env)
  | ARelease (i : nat)
  | AShutdown (mi : nat) (accepted : pystr → bool) (e : env).

(** The run an action belongs to does its next operation, when its thread is at
    that point; otherwise nothing happens. *)
Definition worker_step (w : world) (i : nat) (r : run) (a : action) : world :=
  match a, rn_phase r with
  | ABegin _ e, Started => worker_begin w i r e
  | ASafePoint _ step e, Executing _ => (safe_point w i r step e).2
  | AReturned _ res o, Executing retried => worker_returned w i r retried res o
  | ARaised _ stopped, Executing _ =>
      upd_run i (set_phase (if stopped then Releasing else Failing)) w
  | ARetry _, MayRetry res => worker_retry w i r res
  | AFinish _ o e, Finishing res => worker_finish w i r res o e
  | AFailed _ e, Failing => worker_failed w i r e
  | ARelease _, Releasing => worker_release w i
  | _, _ => w
  end.

Definition action_run (a : action) : option nat :=
  match a with
  | ABegin i _ | ASafePoint i _ _ | AReturned i _ _ | ARaised i _ | ARetry i | AFinish i _ _
  | AFailed i _ | ARelease i => Some i
  | _ => None
  end.

Definition step_world (w : world) (a : action) : world :=
  match a with
  | ANew enabled has_workspaces accepted e => (new_manager w enabled has_workspaces accepted e).2
  | AIntent mi ticket_id payload e => (handle_intent w mi ticket_id payload e).2
  | AShutdown mi accepted e => shutdown w mi accepted e
  | _ => match action_run a with
         | Some i => match w_runs w !! i with Some r => worker_step w i r a | None => w end
         | None => w
         end
  end.

Definition initial_world (agents : list (pystr * dict)) : world := mkWorld agents [] [] [].

Inductive reachable : world → Prop :=
  | reachable_init agents : reachable (initial_world agents)
  | reachable_step w a : reachable w → reachable (step_world w a).

(** ** One executor per ticket

    What the exclusion depends on: tickets, managers, keys and phases of the
    runs, the registry, and the managers' control tables. *)
Definition run_view (r : run) : pystr * nat * pystr * phase :=
  (rn_ticket_id r, rn_manager r, rn_worker_key r, rn_phase r).
Definition view (w : world) :=
  (run_view <$> w_runs w, w_process_workers w, mg_controls <$> w_managers w).

Definition workers_ok (w : world) : Prop :=
  ∀ i r, w_runs w !! i = Some r → phase_alive (rn_phase r) = true →
    rn_worker_key r = key_of (rn_ticket_id r) ∧
    dget (rn_worker_key r) (w_process_workers w) = Some i ∧
    ∃ m, w_managers w !! rn_manager r = Some m ∧ dget (rn_ticket_id r) (mg_controls m) = Some i.

Lemma workers_ok_view w w' : view w' = view w → workers_ok w → workers_ok w'.
Proof.
  intros [= Hr Hp Hm] Hok i r Hi Ha.
  assert (Hv : (run_view <$> w_runs w') !! i = Some (run_view r)) by by rewrite list_lookup_fmap, Hi.
  rewrite Hr, list_lookup_fmap in Hv. destruct (w_runs w !! i) as [r0|] eqn:E0; [|done].
  cbn in Hv. injection Hv as Ht Hmn Hk Hph.
  destruct (Hok i r0 E0 ltac:(by rewrite Hph)) as (H1 & H2 & m0 & Hm0 & Hc).
  rewrite Hp, <- Ht, <- Hmn, <- Hk. split; [done|]. split; [done|].
  assert (Hv : (mg_controls <$> w_managers w') !! rn_manager r0 = Some (mg_controls m0))
    by by rewrite Hm, list_lookup_fmap, Hm0.
  rewrite list_lookup_fmap in Hv. destruct (w_managers w' !! rn_manager r0) as [m|]; [|done].
  exists m. split; [done|]. injection Hv as ->. done.
Qed.

Lemma fmap_alter_same {A B} (g : A → B) (f : A → A) i (l : list A) :
  (∀ x, g (f x) = g x) → g <$> alter f i l = g <$> l.
Proof.
  intros H. revert i. induction l as [|x l IH]; intros [|i]; cbn; [done|done|by rewrite H|].
  f_equal. apply IH.
Qed.

Lemma view_agents a w : view (with_agents a w) = view w.
Proof. done. Qed.
Lemma view_session i b w : view (upd_run i (set_session b) w) = view w.
Proof. unfold view, upd_run; cbn. by rewrite fmap_alter_same. Qed.
Lemma view_stop i s w : view (upd_run i (set_stop s) w) = view w.
Proof. unfold view, upd_run; cbn. by rewrite fmap_alter_same. Qed.
Lemma view_receipt mi k w : view (upd_manager mi (add_receipt k) w) = view w.
Proof. unfold view, upd_manager; cbn. by rewrite fmap_alter_same. Qed.
Lemma view_down mi w : view (upd_manager mi set_shutting_down w) = view w.
Proof. unfold view, upd_manager; cbn. by rewrite fmap_alter_same. Qed.

Lemma update_view w t patch req acc w' :
  update_agent_extension w t patch req acc = Ok w' →
  w' = with_agents (w_agents w') w.
Proof.
  intros H. unfold update_agent_extension in H. apply bind_ok in H as (rid & _ & H).
  apply bind_ok in H as (t1 & _ & H). destruct (dget t (w_agents w)); [|done].
  apply bind_ok in H as (t2 & _ & H). by injection H as <-.
Qed.

Lemma persist_view w t patch req acc w' :
  _persist_intent w t patch req acc = Ok w' → w' = with_agents (w_agents w') w.
Proof.
  unfold _persist_intent. intros H. destruct (update_agent_extension w t patch req acc) as [w1|x] eqn:E.
  - injection H as <-. by eapply update_view.
  - by destruct x.
Qed.

(** The same for every run but one. *)
Definition workers_ok_but (i : nat) (w : world) : Prop :=
  ∀ j r, j ≠ i → w_runs w !! j = Some r → phase_alive (rn_phase r) = true →
    rn_worker_key r = key_of (rn_ticket_id r) ∧
    dget (rn_worker_key r) (w_process_workers w) = Some j ∧
    ∃ m, w_managers w !! rn_manager r = Some m ∧ dget (rn_ticket_id r) (mg_controls m) = Some j.

Lemma workers_ok_but_intro i w : workers_ok w → workers_ok_but i w.
Proof. intros H j r _. apply H. Qed.

Lemma workers_ok_full i w :
  workers_ok_but i w → (∀ r, w_runs w !! i = Some r → phase_alive (rn_phase r) = false) →
  workers_ok w.
Proof.
  intros Hb Hi j r Hj Ha. destruct (decide (j = i)) as [->|Hne].
  - by rewrite (Hi r Hj) in Ha.
  - by apply (Hb j r).
Qed.

Lemma phase_ok i p w :
  workers_ok w →
  (∀ r, w_runs w !! i = Some r → phase_alive p = true → phase_alive (rn_phase r) = true) →
  workers_ok (upd_run i (set_phase p) w).
Proof.
  intros Hok Hp j r Hj Ha. cbn in Hj |- *. destruct (decide (j = i)) as [->|Hne].
  - rewrite list_lookup_alter_eq in Hj. destruct (w_runs w !! i) as [r0|] eqn:E; [|done].
    cbn in Hj. injection Hj as <-. cbn in *. apply (Hok i r0 E). by apply Hp.
  - rewrite list_lookup_alter_ne in Hj by done. by apply Hok.
Qed.

Lemma release_but i w : workers_ok_but i w → workers_ok_but i (_release_worker_locked w i).
Proof.
  intros Hok j r Hne Hj Ha. unfold _release_worker_locked in *.
  destruct (w_runs w !! i) as [ri|] eqn:Ei; [|by apply Hok].
  set (w1 := upd_run i (set_session false) w) in *.
  assert (Hruns : ∀ w', w_runs w' = w_runs w1 → w_runs w' !! j = Some r → w_runs w !! j = Some r).
  { intros w' -> Hl. cbn in Hl. by rewrite list_lookup_alter_ne in Hl. }
  change (w_managers w1) with (w_managers w) in *.
  destruct (w_managers w !! rn_manager ri) as [mi|] eqn:Em.
  2: { by apply (Hok j r Hne (Hruns _ eq_refl Hj)). }
  destruct (bool_decide _) eqn:Ec.
  2: { by apply (Hok j r Hne (Hruns _ eq_refl Hj)). }
  apply bool_decide_eq_true in Ec. unfold _release_process_worker in *.
  change (w_process_workers (upd_manager _ _ w1)) with (w_process_workers w) in *.
  assert (Hj0 : w_runs w !! j = Some r).
  { destruct (bool_decide _); by apply (Hruns _ eq_refl Hj). }
  destruct (Hok j r Hne Hj0 Ha) as (Hk & Hreg & m & Hm & Hc). split; [done|]. split.
  - destruct (bool_decide _) eqn:Er; [|done]. apply bool_decide_eq_true in Er. cbn.
    rewrite dget_ddel_ne; [done|]. intros E. rewrite E, Er in Hreg. by injection Hreg as ->.
  - assert (Hms : ∀ w', w_managers w' = alter (set_controls (ddel (rn_ticket_id ri) (mg_controls mi)))
                                          (rn_manager ri) (w_managers w) →
              ∃ m, w_managers w' !! rn_manager r = Some m ∧ dget (rn_ticket_id r) (mg_controls m) = Some j).
    { intros w' ->. destruct (decide (rn_manager r = rn_manager ri)) as [E|E].
      - rewrite E, list_lookup_alter_eq, Em. eexists. split; [done|]. cbn.
        rewrite E, Em in Hm. injection Hm as <-. rewrite dget_ddel_ne; [done|].
        intros Et. rewrite Et, Ec in Hc. by injection Hc as ->.
      - rewrite list_lookup_alter_ne by done. by exists m. }
    by destruct (bool_decide _); apply Hms.
Qed.

Lemma release_phase i w :
  rn_phase <$> w_runs (_release_worker_locked w i) !! i = rn_phase <$> w_runs w !! i.
Proof.
  unfold _release_worker_locked. destruct (w_runs w !! i) as [ri|] eqn:Ei; [|by rewrite Ei].
  assert (H : rn_phase <$> alter (set_session false) i (w_runs w) !! i = Some (rn_phase ri))
    by by rewrite list_lookup_alter_eq, Ei.
  unfold _release_process_worker. by repeat case_match.
Qed.

(** Releasing a run whose thread is not running. *)
Lemma release_ok i w :
  workers_ok_but i w → (∀ r, w_runs w !! i = Some r → phase_alive (rn_phase r) = false) →
  workers_ok (_release_worker_locked w i).
Proof.
  intros Hok Hi. apply (workers_ok_full i); [by apply release_but|].
  intros r Hr. pose proof (release_phase i w) as Hp. rewrite Hr in Hp.
  destruct (w_runs w !! i) as [r0|]; [|done]. injection Hp as ->. by apply Hi.
Qed.

Lemma worker_release_ok i w : workers_ok w → workers_ok (worker_release w i).
Proof.
  intros Hok. unfold worker_release. apply (workers_ok_full i).
  - intros j r Hne Hj. cbn in Hj |- *. rewrite list_lookup_alter_ne in Hj by done.
    by apply (release_but i w (workers_ok_but_intro i w Hok) j r Hne).
  - intros r Hr. cbn in Hr. rewrite list_lookup_alter_eq in Hr.
    destruct (w_runs (_release_worker_locked w i) !! i); [|done]. by injection Hr as <-.
Qed.

(** Run [i] is registered everywhere and its thread was not started. *)
Definition registered (w : world) (i : nat) : Prop :=
  ∃ r m, w_runs w !! i = Some r ∧ rn_phase r = Fresh ∧
    rn_worker_key r = key_of (rn_ticket_id r) ∧
    dget (rn_worker_key r) (w_process_workers w) = Some i ∧
    w_managers w !! rn_manager r = Some m ∧ dget (rn_ticket_id r) (mg_controls m) = Some i.

Lemma registered_start i w :
  workers_ok w → registered w i → workers_ok (upd_run i (set_phase Started) w).
Proof.
  intros Hok (r & m & Hr & _ & Hk & Hreg & Hm & Hc) j r' Hj Ha. cbn in Hj |- *.
  destruct (decide (j = i)) as [->|Hne].
  - rewrite list_lookup_alter_eq, Hr in Hj. injection Hj as <-. cbn. split_and!; [done|done|by exists m].
  - rewrite list_lookup_alter_ne in Hj by done. by apply Hok.
Qed.

Lemma registered_session i b w : registered w i → registered (upd_run i (set_session b) w) i.
Proof.
  intros (r & m & Hr & ?). exists (set_session b r), m. cbn.
  by rewrite list_lookup_alter_eq, Hr.
Qed.

Lemma reserve_spec w key i w' :
  _reserve_process_worker w key i = Some w' → workers_ok w →
  w' = with_registry (w_process_workers w') w ∧
  dget key (w_process_workers w') = Some i ∧
  (∀ k, k ≠ key → dget k (w_process_workers w') = dget k (w_process_workers w)) ∧
  (∀ j r, w_runs w !! j = Some r → phase_alive (rn_phase r) = true → rn_worker_key r ≠ key).
Proof.
  unfold _reserve_process_worker. intros Hres Hok.
  destruct (dget key (w_process_workers w)) as [j0|] eqn:Ek.
  - destruct (run_reserved w j0) eqn:Er; [done|]. injection Hres as <-. cbn.
    rewrite dget_dset_eq. split_and!; [done|done| |].
    + intros k Hk. by rewrite dget_dset_ne, dget_ddel_ne.
    + intros j r Hj Ha E. destruct (Hok j r Hj Ha) as (_ & Hreg & _).
      rewrite E, Ek in Hreg. injection Hreg as ->. unfold run_reserved in Er. rewrite Hj in Er.
      by destruct (rn_phase r).
  - injection Hres as <-. cbn. rewrite dget_dset_eq. split_and!; [done|done| |].
    + intros k Hk. by rewrite dget_dset_ne.
    + intros j r Hj Ha E. destruct (Hok j r Hj Ha) as (_ & Hreg & _). by rewrite E, Ek in Hreg.
Qed.

Lemma start_state_ok w mi m t run_id w0 :
  workers_ok w → w_managers w !! mi = Some m →
  _reserve_process_worker w (key_of t) (length (w_runs w)) = Some w0 →
  let i := length (w_runs w) in
  let w1 := with_runs (w_runs w0 ++ [mkRun t run_id mi None false (key_of t) Fresh]) w0 in
  let w2 := upd_manager mi (set_controls (dset t i (mg_controls m))) w1 in
  workers_ok w2 ∧ registered w2 i.
Proof.
  intros Hok Hm Hres. destruct (reserve_spec _ _ _ _ Hres Hok) as (-> & Hkey & Hother & Hfree).
  cbn. set (i := length (w_runs w)) in *.
  assert (Hm2 : alter (set_controls (dset t i (mg_controls m))) mi (w_managers w) !! mi
                = Some (set_controls (dset t i (mg_controls m)) m))
    by by rewrite list_lookup_alter_eq, Hm.
  split.
  - intros j r Hj Ha. cbn in Hj |- *.
    apply lookup_app_Some in Hj as [Hj|[_ Hj]].
    2: { destruct (j - length (w_runs w))%nat as [|n]; [|by destruct n]. injection Hj as <-. done. }
    destruct (Hok j r Hj Ha) as (Hk & Hreg & mj & Hmj & Hc). split; [done|].
    rewrite Hother by by apply (Hfree j r). split; [done|].
    destruct (decide (rn_manager r = mi)) as [E|E].
    + rewrite E in *. rewrite Hm2. eexists. split; [done|]. cbn.
      rewrite Hm in Hmj. injection Hmj as <-. rewrite dget_dset_ne; [done|].
      intros Et. apply (Hfree j r Hj Ha). by rewrite Hk, Et.
    + rewrite list_lookup_alter_ne by done. by exists mj.
  - eexists _, _. cbn. rewrite lookup_app_r, Nat.sub_diag by done. split; [done|]. cbn.
    split_and!; [done|done|done|exact Hm2|]. cbn. by rewrite dget_dset_eq.
Qed.

Lemma start_registered_ok w m t i intent rid run_id starting e :
  workers_ok w → registered w i →
  workers_ok (start_registered w m t i intent rid run_id starting e).2.
Proof.
  intros Hok Hreg. assert (Hrel : ∀ w', workers_ok w' → registered w' i → workers_ok (_release_worker_locked w' i)).
  { intros w' Hok' (r & ? & Hr & Hf & _). apply release_ok; [by apply workers_ok_but_intro|].
    intros r' Hr'. rewrite Hr in Hr'. injection Hr' as <-. by rewrite Hf. }
  unfold start_registered. destruct (if mg_has_workspaces m then _ else _); [|by apply Hrel|by apply Hrel].
  set (w1 := upd_run i _ w).
  assert (Hok1 : workers_ok w1) by (eapply workers_ok_view; [apply view_session|done]).
  assert (Hreg1 : registered w1 i) by by apply registered_session.
  destruct (_persist_intent w1 t _ _ _) as [w2|x] eqn:Ep; [|by apply Hrel].
  apply persist_view in Ep. clearbody w1.
  assert (Hok2 : workers_ok w2) by (rewrite Ep; done).
  assert (Hreg2 : registered w2 i) by (rewrite Ep; done).
  destruct (e_thread_starts e); [by apply registered_start|].
  unfold start_failed.
  destruct (_persist_intent (_release_worker_locked w2 i) t _ _ _) as [w3|x] eqn:Ep3; [|by apply Hrel].
  apply persist_view in Ep3. rewrite Ep3. by apply Hrel.
Qed.

Lemma handle_intent_ok w mi t payload e :
  workers_ok w → workers_ok (handle_intent w mi t payload e).2.
Proof.
  intros Hok. unfold handle_intent.
  destruct (w_managers w !! mi) as [m|] eqn:Em; [|done].
  destruct (normalize_intent_payload payload) as [[intent rid]|]; [|done].
  destruct (_ ∈s mg_receipts m); [done|]. destruct (mg_shutting_down m); [done|].
  destruct (_ticket w t) as [agent|]; [|done].
  destruct (already_applied t (run_of agent) intent rid) as [[]|]; [|idtac|done].
  { cbn. eapply workers_ok_view; [apply view_receipt|done]. }
  assert (Hrec : ∀ r w', workers_ok w' →
    workers_ok (match r : result dict with Ok _ => upd_manager mi (add_receipt (t, intent, rid)) w' | Err _ => w' end)).
  { intros [a|x] w' Hw'; [|done]. eapply workers_ok_view; [apply view_receipt|done]. }
  destruct (intent ∈s _).
  - destruct (_start_or_resume_locked w mi m t agent intent rid e) as [r w'] eqn:Es.
    cbn. apply Hrec. unfold _start_or_resume_locked in Es.
    destruct (start_checks _ _ _ _ _ _ _ _) as [starting|]; [|by injection Es as <- <-].
    destruct (_reserve_process_worker _ _ _) as [w0|] eqn:Er; [|by injection Es as <- <-].
    destruct (start_state_ok w mi m t (u "run-" ++ e_uuid e) w0 Hok Em Er) as [Hok2 Hreg2].
    change w' with ((r, w').2). rewrite <- Es.
    assert (Hruns : w_runs w0 = w_runs w).
    { destruct (reserve_spec _ _ _ _ Er Hok) as (-> & _). done. }
    apply start_registered_ok; rewrite Hruns in *; done.
  - destruct (_request_stop_locked w m t intent rid e) as [r w'] eqn:Es.
    cbn. apply Hrec. unfold _request_stop_locked in Es.
    destruct (stop_checks _ _ _ _ _ _) as [[i requested]|]; [|by injection Es as <- <-].
    destruct (_persist_intent w t _ _ _) as [w1|] eqn:Ep; [|by injection Es as <- <-].
    injection Es as <- <-. apply persist_view in Ep. rewrite Ep.
    eapply workers_ok_view; [apply view_stop|done].
Qed.

Lemma view_ok w w' : workers_ok w → view w' = view w → workers_ok w'.
Proof. intros. by eapply workers_ok_view. Qed.

Lemma store_run_view w r runtime suffix e w' : store_run w r runtime suffix e = Ok w' → view w' = view w.
Proof. intros H%update_view. by rewrite H. Qed.

(** Operations of a running thread that only move it on and write the store. *)
Lemma moved_ok i p w w' r :
  workers_ok w → view w' = view w → w_runs w !! i = Some r → phase_alive (rn_phase r) = true →
  workers_ok (upd_run i (set_phase p) w').
Proof.
  intros Hok Hv Hr Ha. apply phase_ok; [by eapply view_ok|]. intros r' Hr' _.
  injection Hv as Hv _ _.
  assert (H : (run_view <$> w_runs w') !! i = Some (run_view r)) by by rewrite Hv, list_lookup_fmap, Hr.
  rewrite list_lookup_fmap, Hr' in H. cbn in H. unfold run_view in H. by injection H as _ _ _ ->.
Qed.

Lemma safe_point_view w i r step e : view (safe_point w i r step e).2 = view w.
Proof.
  unfold safe_point. destruct step; try done. destruct (negb (_STEP_RE s)); [done|].
  destruct (owner_of w i r) as [m|]; [|done]. destruct (_raw_runtime w (rn_ticket_id r)); [|done].
  destruct (negb (is_current a r)); [done|].
  destruct (safe_point_patch a _ s e) as [revision patch].
  destruct (update_agent_extension _ _ _ _ _) as [w'|] eqn:Eu; [|done].
  apply update_view in Eu. cbn. by rewrite Eu.
Qed.

Lemma worker_step_ok w i r a :
  workers_ok w → w_runs w !! i = Some r → action_run a = Some i → workers_ok (worker_step w i r a).
Proof.
  intros Hok Hr Hi.
  assert (Hmove : ∀ p w', view w' = view w → phase_alive (rn_phase r) = true →
                          workers_ok (upd_run i (set_phase p) w')).
  { intros p w' Hv Ha. by eapply moved_ok. }
  unfold worker_step. destruct a as [| |j e|j step e|j res o|j stopped|j|j o e|j e|j|]; try done;
    cbn in Hi; injection Hi as ->; destruct (rn_phase r) as [| |retried|res'|res'| | |] eqn:Ep; try done.
  - unfold worker_begin. destruct (_raw_runtime w (rn_ticket_id r)) as [rt|]; [|by apply Hmove].
    destruct (manager_down w r || _); [by apply Hmove|].
    destruct (is_lit _ _); [|by apply Hmove].
    destruct (store_run _ _ _ _ _) as [w'|] eqn:Es; [|by apply Hmove].
    apply Hmove; [by eapply store_run_view|done].
  - eapply view_ok; [done|apply safe_point_view].
  - unfold worker_returned. destruct retried; [by apply Hmove|].
    destruct (_raw_runtime w (rn_ticket_id r)) as [rt|]; [|by apply Hmove].
    destruct (er_error_code res); [|by apply Hmove].
    destruct (_failure_history rt l (er_last_step res)) as [[h n] fp].
    destruct (_failure_decision_for o res n); by apply Hmove.
  - by apply Hmove.
  - by apply Hmove.
  - unfold worker_finish. destruct (owner_of w i r) as [m|]; [|by apply Hmove].
    destruct (mg_shutting_down m); [by apply Hmove|].
    destruct (_raw_runtime w (rn_ticket_id r)) as [rt|]; [|by apply Hmove].
    destruct (negb (is_current rt r)); [by apply Hmove|].
    destruct (terminal_record rt res' o e ≫= _) as [w'|] eqn:Et; [|by apply Hmove].
    apply bind_ok in Et as (t & _ & Et%store_run_view). by apply Hmove.
  - unfold worker_failed. destruct (owner_of w i r) as [m|]; [|by apply Hmove].
    destruct (mg_shutting_down m); [by apply Hmove|].
    destruct (_raw_runtime w (rn_ticket_id r)) as [rt|]; [|by apply Hmove].
    destruct (negb (is_current rt r)); [by apply Hmove|].
    destruct (store_run _ _ _ _ _) as [w'|] eqn:Es; [|by apply Hmove].
    apply Hmove; [by eapply store_run_view|done].
  - by apply worker_release_ok.
Qed.

Lemma shutdown_one_view acc e w p : view (shutdown_one w acc e p) = view w.
Proof.
  destruct p as [t i]. unfold shutdown_one.
  destruct (_raw_runtime _ t) as [rt|]; [|apply view_stop].
  destruct (w_runs (upd_run i _ w) !! i) as [r|]; [|apply view_stop].
  destruct (str_in _ _); [|apply view_stop].
  destruct (update_agent_extension _ _ _ _ _) as [w'|] eqn:Eu; [|apply view_stop].
  apply update_view in Eu. rewrite Eu, view_agents. apply view_stop.
Qed.

Lemma shutdown_view w mi acc e : view (shutdown w mi acc e) = view w.
Proof.
  unfold shutdown. destruct (w_managers w !! mi) as [m|]; [|done].
  destruct (mg_shutting_down m); [done|]. rewrite <- (view_down mi w).
  generalize (upd_manager mi set_shutting_down w). induction (mg_controls m) as [|p l IH]; intros w1; [done|].
  cbn [foldl]. by rewrite IH, shutdown_one_view.
Qed.

Lemma recover_one_ok acc e w t : workers_ok w → workers_ok (recover_one acc e w t).2.
Proof.
  intros Hok. unfold recover_one. destruct (_raw_runtime w t) as [rt|]; [|done].
  destruct (in_set _ _) as [[]|]; [|done|done].
  destruct (_has_live_process_worker w (key_of t)) as [live w1] eqn:El.
  assert (Hok1 : workers_ok w1).
  { unfold _has_live_process_worker in El. destruct (dget (key_of t) (w_process_workers w)) as [j|] eqn:Ej;
      [|by injection El as <- <-].
    destruct (run_reserved w j) eqn:Er; injection El as <- <-; [done|].
    intros i r Hi Ha. cbn in Hi |- *. destruct (Hok i r Hi Ha) as (Hk & Hreg & Hm).
    split; [done|]. split; [|done]. rewrite dget_ddel_ne; [done|]. intros E.
    rewrite E, Ej in Hreg. injection Hreg as ->. unfold run_reserved in Er. rewrite Hi in Er.
    by destruct (rn_phase r). }
  destruct live; [done|].
  destruct (update_agent_extension _ _ _ _ _) as [w2|[]] eqn:Eu; try done.
  apply update_view in Eu. cbn. by rewrite Eu.
Qed.

Lemma new_manager_ok w en ws acc e : workers_ok w → workers_ok (new_manager w en ws acc e).2.
Proof.
  intros Hok. unfold new_manager.
  assert (H : ∀ ids w, workers_ok w → workers_ok (_recover_stale_runs acc e w ids).2).
  { clear. induction ids as [|t ids IH]; intros w Hok; [done|]. cbn.
    pose proof (recover_one_ok acc e w t Hok) as H1.
    destruct (recover_one acc e w t) as [[[]|x] w1]; [by apply IH|done]. }
  specialize (H (dkeys (w_agents w)) w Hok).
  destruct (_recover_stale_runs acc e w _) as [[[]|x] w1]; [|done].
  intros i r Hi Ha. destruct (H i r Hi Ha) as (Hk & Hreg & m & Hm & Hc).
  split_and!; [done|done|]. exists m. cbn. split; [|done]. by apply lookup_app_l_Some.
Qed.

Lemma step_world_ok w a : workers_ok w → workers_ok (step_world w a).
Proof.
  intros Hok. unfold step_world. destruct (action_run a) as [i|] eqn:Ei.
  - assert (H : workers_ok (match w_runs w !! i with Some r => worker_step w i r a | None => w end)).
    { destruct (w_runs w !! i) as [r|] eqn:Er; [|done]. by apply worker_step_ok. }
    by destruct a.
  - destruct a; try done; cbn.
    + by apply new_manager_ok.
    + by apply handle_intent_ok.
    + eapply view_ok; [done|apply shutdown_view].
Qed.

Lemma reachable_ok w : reachable w → workers_ok w.
Proof. induction 1 as [agents|w a Hr IH]; [intros i r Hi; done|by apply step_world_ok]. Qed.

(** C15: However intents, worker threads, safe points, failures, releases,
    shutdowns and new managers interleave in a process, no two threads are ever
    alive for the same ticket: a manager created while the worker of an earlier
    one is still leaving cannot start a second executor. *)
Theorem one_worker_per_ticket w i j ri rj :
  reachable w →
  w_runs w !! i = Some ri → w_runs w !! j = Some rj →
  phase_alive (rn_phase ri) = true → phase_alive (rn_phase rj) = true →
  rn_ticket_id ri = rn_ticket_id rj → i = j.
Proof.
  intros Hr%reachable_ok Hi Hj Hai Haj Et.
  destruct (Hr i ri Hi Hai) as (Hki & Hri & _). destruct (Hr j rj Hj Haj) as (Hkj & Hrj & _).
  rewrite Hki, Et, <- Hkj, Hrj in Hri. by injection Hri.
Qed.

(** ** Stop requests

    No operation forgets a run or clears its stop intent. *)
Definition run_kept (r r' : run) : Prop :=
  rn_ticket_id r' = rn_ticket_id r ∧ rn_manager r' = rn_manager r ∧
  (rn_stop_intent r ≠ None → rn_stop_intent r' ≠ None).
Definition runs_kept (w w' : world) : Prop :=
  ∀ i r, w_runs w !! i = Some r → ∃ r', w_runs w' !! i = Some r' ∧ run_kept r r'.

#[local] Instance runs_kept_preorder : PreOrder runs_kept.
Proof.
  split.
  - intros w i r Hr. by exists r.
  - intros w1 w2 w3 H12 H23 i r Hr. destruct (H12 i r Hr) as (r2 & Hr2 & Ht & Hm & Hs).
    destruct (H23 i r2 Hr2) as (r3 & Hr3 & Ht' & Hm' & Hs'). exists r3. split; [done|].
    split; [congruence|]. split; [congruence|]. auto.
Qed.

Lemma kept_runs w w' : w_runs w' = w_runs w → runs_kept w w'.
Proof. intros E i r Hr. rewrite E. by exists r. Qed.

Lemma kept_upd i f w : (∀ r, run_kept r (f r)) → runs_kept w (upd_run i f w).
Proof.
  intros Hf j r Hr. cbn. destruct (decide (j = i)) as [->|Hne].
  - rewrite list_lookup_alter_eq, Hr. by eexists.
  - rewrite list_lookup_alter_ne by done. by exists r.
Qed.

Lemma kept_phase i p w : runs_kept w (upd_run i (set_phase p) w).
Proof. by apply kept_upd. Qed.
Lemma kept_session i b w : runs_kept w (upd_run i (set_session b) w).
Proof. by apply kept_upd. Qed.
Lemma kept_stop i s w : runs_kept w (upd_run i (set_stop s) w).
Proof. by apply kept_upd. Qed.

Lemma kept_release i w : runs_kept w (_release_worker_locked w i).
Proof.
  unfold _release_worker_locked, _release_process_worker.
  destruct (w_runs w !! i) as [r|]; [|done].
  transitivity (upd_run i (set_session false) w); [apply kept_session|].
  destruct (w_managers _ !! _); [|done]. destruct (bool_decide _); [|done].
  by destruct (bool_decide _); apply kept_runs.
Qed.

Lemma kept_update w t patch req acc w' :
  update_agent_extension w t patch req acc = Ok w' → runs_kept w w'.
Proof. intros H%update_view. apply kept_runs. by rewrite H. Qed.

Lemma kept_persist w t patch req acc w' : _persist_intent w t patch req acc = Ok w' → runs_kept w w'.
Proof. intros H%persist_view. apply kept_runs. by rewrite H. Qed.

Lemma kept_start_registered w m t i intent rid run_id starting e :
  runs_kept w (start_registered w m t i intent rid run_id starting e).2.
Proof.
  unfold start_registered. destruct (if mg_has_workspaces m then _ else _); try apply kept_release.
  transitivity (upd_run i (set_session (mg_has_workspaces m)) w); [apply kept_session|].
  destruct (_persist_intent _ t _ _ _) as [w2|x] eqn:Ep; [|apply kept_release].
  transitivity w2; [by eapply kept_persist|].
  destruct (e_thread_starts e); [apply kept_phase|]. unfold start_failed.
  transitivity (_release_worker_locked w2 i); [apply kept_release|].
  destruct (_persist_intent (_release_worker_locked w2 i) t _ _ _) as [w3|x] eqn:Ep3; [|done].
  by eapply kept_persist.
Qed.

Lemma kept_start w mi m t agent intent rid e :
  runs_kept w (_start_or_resume_locked w mi m t agent intent rid e).2.
Proof.
  unfold _start_or_resume_locked. destruct (start_checks _ _ _ _ _ _ _ _); [|done].
  destruct (_reserve_process_worker _ _ _) as [w0|] eqn:Er; [|done].
  assert (Hruns : w_runs w0 = w_runs w).
  { unfold _reserve_process_worker in Er. by repeat case_match; simplify_eq. }
  etrans; [|apply kept_start_registered]. intros i r Hi. exists r. cbn. split; [|by split].
  rewrite Hruns. by apply lookup_app_l_Some.
Qed.

Lemma kept_request_stop w m t intent rid e : runs_kept w (_request_stop_locked w m t intent rid e).2.
Proof.
  unfold _request_stop_locked. destruct (stop_checks _ _ _ _ _ _) as [[i rec]|]; [|done].
  destruct (_persist_intent w t _ _ _) as [w1|] eqn:Ep; [|done].
  transitivity w1; [by eapply kept_persist|apply kept_stop].
Qed.

Lemma kept_intent w mi t payload e : runs_kept w (handle_intent w mi t payload e).2.
Proof.
  unfold handle_intent. destruct (w_managers w !! mi) as [m|]; [|done].
  destruct (normalize_intent_payload payload) as [[intent rid]|]; [|done].
  destruct (_ ∈s mg_receipts m); [done|]. destruct (mg_shutting_down m); [done|].
  destruct (_ticket w t) as [agent|]; [|done].
  destruct (already_applied t (run_of agent) intent rid) as [[]|]; [by apply kept_runs| |done].
  assert (Hp : runs_kept w (if intent ∈s [u "start"; u "resume"]
    then _start_or_resume_locked w mi m t agent intent rid e
    else _request_stop_locked w m t intent rid e).2).
  { destruct (intent ∈s _); [apply kept_start|apply kept_request_stop]. }
  destruct (if intent ∈s _ then _ else _) as [[a|x] w']; [|done].
  etrans; [exact Hp|]. by apply kept_runs.
Qed.

Lemma kept_safe_point w i r step e : runs_kept w (safe_point w i r step e).2.
Proof.
  unfold safe_point. destruct step; try done. destruct (negb (_STEP_RE s)); [done|].
  destruct (owner_of w i r) as [m|]; [|done]. destruct (_raw_runtime w (rn_ticket_id r)); [|done].
  destruct (negb (is_current a r)); [done|].
  destruct (safe_point_patch a _ s e) as [revision patch].
  destruct (update_agent_extension _ _ _ _ _) as [w'|] eqn:Eu; [|done]. by eapply kept_update.
Qed.

Lemma kept_worker w i r a : runs_kept w (worker_step w i r a).
Proof.
  assert (Hst : ∀ p w' rt sfx e, store_run w r rt sfx e = Ok w' → runs_kept w (upd_run i (set_phase p) w')).
  { intros p w' rt sfx e H. transitivity w'; [by eapply kept_update|apply kept_phase]. }
  unfold worker_step.
  destruct a, (rn_phase r); try done; try apply kept_phase.
  - unfold worker_begin. repeat case_match; try apply kept_phase. eapply Hst; eassumption.
  - apply kept_safe_point.
  - unfold worker_returned. repeat case_match; apply kept_phase.
  - unfold worker_finish. repeat case_match; try apply kept_phase.
    match goal with E : _ ≫= _ = Ok _ |- _ => apply bind_ok in E as (? & _ & E) end.
    eapply Hst; eassumption.
  - unfold worker_failed. repeat case_match; try apply kept_phase. eapply Hst; eassumption.
  - unfold worker_release. transitivity (_release_worker_locked w i); [apply kept_release|apply kept_phase].
Qed.

Lemma kept_shutdown w mi acc e : runs_kept w (shutdown w mi acc e).
Proof.
  unfold shutdown. destruct (w_managers w !! mi) as [m|]; [|done].
  destruct (mg_shutting_down m); [done|].
  transitivity (upd_manager mi set_shutting_down w); [by apply kept_runs|].
  generalize (upd_manager mi set_shutting_down w). induction (mg_controls m) as [|[t i] l IH]; intros w1; [done|].
  cbn [foldl]. etrans; [|apply IH]. unfold shutdown_one.
  transitivity (upd_run i (set_stop (u "interrupted")) w1); [apply kept_stop|].
  repeat case_match; try done. by eapply kept_update.
Qed.

Lemma kept_recover acc e ids w : runs_kept w (_recover_stale_runs acc e w ids).2.
Proof.
  revert w. induction ids as [|t ids IH]; intros w; [done|]. cbn [_recover_stale_runs].
  assert (H : runs_kept w (recover_one acc e w t).2).
  { unfold recover_one. destruct (_raw_runtime w t); [|done]. destruct (in_set _ _) as [[]|]; [|done|done].
    destruct (_has_live_process_worker w (key_of t)) as [live w1] eqn:El.
    assert (H1 : runs_kept w w1).
    { unfold _has_live_process_worker in El. repeat case_match; simplify_eq; by apply kept_runs. }
    destruct live; [done|]. etrans; [exact H1|].
    destruct (update_agent_extension _ _ _ _ _) as [w2|[]] eqn:Eu; try done. by eapply kept_update. }
  destruct (recover_one acc e w t) as [[[]|x] w1]; [|done]. etrans; [exact H|apply IH].
Qed.

Lemma kept_step w a : runs_kept w (step_world w a).
Proof.
  assert (Hw : ∀ i, runs_kept w (match w_runs w !! i with Some r => worker_step w i r a | None => w end)).
  { intros i. destruct (w_runs w !! i); [apply kept_worker|done]. }
  unfold step_world. destruct a; try apply Hw.
  - unfold new_manager. pose proof (kept_recover accepted e (dkeys (w_agents w)) w) as Hk.
    destruct (_recover_stale_runs accepted e w _) as [[[]|x] w1]; [|done].
    etrans; [exact Hk|]. by apply kept_runs.
  - apply kept_intent.
  - apply kept_shutdown.
Qed.

Lemma kept_steps w acts : runs_kept w (foldl step_world w acts).
Proof.
  revert w. induction acts as [|a acts IH]; intros w; [done|]. cbn.
  transitivity (step_world w a); [apply kept_step|apply IH].
Qed.

Lemma safe_point_ok w i r step e w' :
  safe_point w i r step e = (Ok tt, w') →
  ∃ m s runtime, w_managers w !! rn_manager r = Some m ∧ mg_shutting_down m = false ∧
    dget (rn_ticket_id r) (mg_controls m) = Some i ∧ rn_stop_intent r = None ∧ e_write e = true ∧
    step = PyStr s ∧ _raw_runtime w (rn_ticket_id r) = Ok runtime ∧ is_current runtime r = true ∧
    w_agents w' = dset (rn_ticket_id r)
      (dupdate (default [] (dget (rn_ticket_id r) (w_agents w))) (safe_point_patch runtime None s e).2)
      (w_agents w).
Proof.
  unfold safe_point, owner_of. destruct step as [| | | |s| | | |]; try done.
  destruct (negb (_STEP_RE s)); [done|].
  destruct (w_managers w !! rn_manager r) as [m|] eqn:Em; [|done].
  destruct (bool_decide _) eqn:Ec; [|done]. apply bool_decide_eq_true in Ec.
  destruct (_raw_runtime w (rn_ticket_id r)) as [rt|] eqn:Er; [|done].
  destruct (is_current rt r) eqn:Ei; [|done]. cbn [negb].
  destruct (mg_shutting_down m) eqn:Ed.
  { destruct (safe_point_patch rt _ s e) as [rev patch]. by case_match. }
  destruct (rn_stop_intent r) as [x|] eqn:Es.
  { destruct (safe_point_patch rt _ s e) as [rev patch]. by case_match. }
  destruct (safe_point_patch rt None s e) as [rev patch] eqn:Ep.
  destruct (update_agent_extension _ _ _ _ _) as [w1|] eqn:Eu; [|done]. intros [= <-].
  unfold update_agent_extension in Eu. apply bind_ok in Eu as (rid & _ & Eu).
  apply bind_ok in Eu as (t1 & _ & Eu).
  destruct (dget (rn_ticket_id r) (w_agents w)) as [agent|] eqn:Ea; [|done].
  apply bind_ok in Eu as (t2 & Hacc & Eu). injection Eu as <-. autorewrite with py in Hacc.
  exists m, s, rt. rewrite Ep. by split_and!.
Qed.

Lemma request_stop_sets w m t intent rid e a w' :
  _request_stop_locked w m t intent rid e = (Ok a, w') →
  ∃ i r, dget t (mg_controls m) = Some i ∧ w_runs w' !! i = Some r ∧ rn_stop_intent r = Some intent ∧
    phase_alive (rn_phase r) = true.
Proof.
  unfold _request_stop_locked, stop_checks. intros H.
  destruct (_raw_runtime w t) as [rt|]; [|done].
  destruct (dget t (mg_controls m)) as [i|]; [|done]. cbn [mbind result_bind] in H.
  unfold run_alive in H. destruct (w_runs w !! i) as [r|] eqn:Er; [|done].
  destruct (phase_alive (rn_phase r)) eqn:Ea; [|done]. cbn [negb raise_if mbind result_bind] in H.
  destruct (in_set _ STOPPABLE) as [[]|]; cbn [negb raise_if mbind result_bind] in H; try done.
  destruct (raise_if _ _); cbn [mbind result_bind] in H; [|done].
  destruct (stop_record _ _ _ _ _) as [rec|]; cbn [mbind result_bind] in H; [|done].
  destruct (_persist_intent w t _ _ _) as [w1|] eqn:Ep; [|done]. injection H as _ <-.
  apply persist_view in Ep. exists i, (set_stop intent r). split; [done|].
  rewrite Ep. cbn. by rewrite list_lookup_alter_eq, Er.
Qed.

(** C17: A stop request the control plane accepted is obeyed: whatever happens
    afterwards, every later safe point of that run raises, so an executor never
    passes a step boundary after an accepted pause, cancel or takeover. *)
Theorem stop_request_obeyed w m t intent rid e a w' acts :
  _request_stop_locked w m t intent rid e = (Ok a, w') →
  ∃ i r, dget t (mg_controls m) = Some i ∧
    w_runs (foldl step_world w' acts) !! i = Some r ∧
    ∀ step e', is_ok (safe_point (foldl step_world w' acts) i r step e').1 = false.
Proof.
  intros (i & r & Hi & Hr & Hs & _)%request_stop_sets.
  destruct (kept_steps w' acts i r Hr) as (r' & Hr' & _ & _ & Hkeep).
  exists i, r'. split; [done|]. split; [done|]. intros step e'.
  destruct (safe_point _ i r' step e') as [[[]|x] w2] eqn:Es; [|done].
  apply safe_point_ok in Es as (m' & s & rt & _ & _ & _ & Hnone & _).
  destruct Hkeep; [by rewrite Hs|done].
Qed.

(** ** Stored records *)
#[local] Ltac look :=
  unfold dupdate; cbn [foldl fst snd];
  repeat first [ rewrite pget_dset_eq | rewrite pget_dset_ne by by_compute ].

#[local] Ltac look_all :=
  unfold dupdate; cbn [foldl fst snd];
  repeat first [ rewrite pget_dset_eq | rewrite pget_dset_ne by by_compute
               | rewrite pget_ddel_ne by by_compute
               | rewrite dget_ddel_eq | rewrite dget_dset_ne by by_compute
               | rewrite dget_ddel_ne by by_compute ].

Lemma revision_next runtime t :
  pget (u "revision") t = PyInt (_revision runtime + 1) → _revision t = _revision runtime + 1.
Proof.
  intros H. unfold _revision at 1. rewrite H.
  assert (0 <= _revision runtime) by (unfold _revision; repeat case_match; lia).
  destruct (Z.leb_spec 0 (_revision runtime + 1)); lia.
Qed.

Lemma run_of_mode_patch agent mode status runtime :
  run_of (dupdate agent (mode_patch mode status runtime)) = runtime.
Proof. unfold run_of, mode_patch. by look. Qed.

Lemma run_of_run_patch agent runtime :
  run_of (dupdate agent [(u "autonomous_run", PyDict runtime)]) = runtime.
Proof. unfold run_of. by look. Qed.

(** A record that names the intent as its last one. *)
Definition names_intent (runtime : dict) (intent rid : pystr) : Prop :=
  pget (u "last_intent") runtime = PyStr intent ∧ pget (u "last_intent_request_id") runtime = PyStr rid.

Lemma starting_names t rt intent rid run_id now s :
  starting_record t rt intent rid run_id now = Ok s →
  names_intent s intent rid ∧ is_ok (_intent_receipt_token t intent rid) = true.
Proof.
  unfold starting_record, _append_intent_receipt. intros H.
  apply bind_ok in H as (receipts & Hrec & H). apply bind_ok in Hrec as (r0 & _ & Hrec).
  apply bind_ok in Hrec as (token & -> & _). split; [|done].
  injection H as <-. by split.
Qed.

Lemma stop_names t rt intent rid now s :
  stop_record t rt intent rid now = Ok s →
  names_intent s intent rid ∧ is_ok (_intent_receipt_token t intent rid) = true.
Proof.
  unfold stop_record, _append_intent_receipt. intros H.
  apply bind_ok in H as (receipts & Hrec & H). apply bind_ok in Hrec as (r0 & _ & Hrec).
  apply bind_ok in Hrec as (token & -> & _). split; [|done].
  apply Ok_inj in H. subst s. split; by look.
Qed.

Lemma named_applied t rt intent rid :
  names_intent rt intent rid → is_ok (_intent_receipt_token t intent rid) = true →
  intent ∈ INTENTS → _REQUEST_ID_RE rid = true → already_applied t rt intent rid = Ok true.
Proof.
  intros [Hl Hr] Htok Hin Hre. unfold already_applied, _intent_receipts. rewrite Hl, Hr.
  destruct (_intent_receipt_token t intent rid) as [token|] eqn:Et; [|done].
  unfold in_set. cbn [mbind result_bind unhashable str_in].
  rewrite bool_decide_true by done. cbn [mbind result_bind]. rewrite Hre.
  cbn [mbind result_bind is_lit]. rewrite !(bool_decide_true (_ = _)) by done.
  by rewrite orb_true_r.
Qed.

Lemma normalize_ok payload intent rid :
  normalize_intent_payload payload = Ok (intent, rid) → intent ∈ INTENTS ∧ _REQUEST_ID_RE rid = true.
Proof.
  unfold normalize_intent_payload. destruct payload as [| | | | | | |d|]; try done. intros H.
  apply bind_ok in H as (t1 & _ & H). apply bind_ok in H as (known & Hk & H).
  apply bind_ok in H as (t2 & Hkn & H). autorewrite with py in Hkn. subst known.
  destruct (pget (u "intent") d) as [| | | |s| | | |]; try done.
  destruct (pget (u "request_id") d) as [| | | |q| | | |]; try done.
  apply bind_ok in H as (t3 & Hre & H). autorewrite with py in Hre. injection H as <- <-.
  split; [|done]. unfold in_set in Hk. cbn in Hk. injection Hk as Hk. by apply bool_decide_eq_true in Hk.
Qed.

Lemma update_agents w t patch req acc w' :
  update_agent_extension w t patch req acc = Ok w' →
  ∃ agent, dget t (w_agents w) = Some agent ∧ w_agents w' = dset t (dupdate agent patch) (w_agents w).
Proof.
  unfold update_agent_extension. intros H. apply bind_ok in H as (rid & _ & H).
  apply bind_ok in H as (t1 & _ & H). destruct (dget t (w_agents w)) as [agent|]; [|done].
  apply bind_ok in H as (t2 & _ & H). apply Ok_inj in H. subst w'. by exists agent.
Qed.

Lemma persist_agents w t patch req acc w' :
  _persist_intent w t patch req acc = Ok w' →
  ∃ agent, dget t (w_agents w) = Some agent ∧ w_agents w' = dset t (dupdate agent patch) (w_agents w).
Proof.
  unfold _persist_intent. intros H.
  destruct (update_agent_extension w t patch req acc) as [w1|x] eqn:E; [|by destruct x].
  apply Ok_inj in H. subst w1. by eapply update_agents.
Qed.

(** The record stored by an intent that was applied. *)
Lemma start_stores w mi m t agent intent rid e a w' :
  _start_or_resume_locked w mi m t agent intent rid e = (Ok a, w') →
  dget t (w_agents w') = Some a ∧ names_intent (run_of a) intent rid ∧
  is_ok (_intent_receipt_token t intent rid) = true.
Proof.
  unfold _start_or_resume_locked, start_checks. intros H.
  destruct (_ ← _require_capability m agent; _) as [starting|] eqn:Ec; [|done].
  apply bind_ok in Ec as (t1 & _ & Ec). apply bind_ok in Ec as (t2 & _ & Ec).
  apply bind_ok in Ec as (rt & _ & Ec). apply bind_ok in Ec as (al & _ & Ec).
  apply bind_ok in Ec as (t3 & _ & Ec). apply starting_names in Ec as [Hn Htok].
  destruct (_reserve_process_worker _ _ _) as [w0|]; [|done].
  unfold start_registered in H. destruct (if mg_has_workspaces m then _ else _); try done.
  destruct (_persist_intent _ t _ _ _) as [w2|x] eqn:Ep; [|done].
  apply persist_agents in Ep as (ag & _ & Hag).
  destruct (e_thread_starts e).
  - apply pair_eq in H as [H <-].
    unfold _ticket in H. cbn [w_agents upd_run with_runs fst snd] in *.
    rewrite Hag, dget_dset_eq in *. apply Ok_inj in H. subst a.
    by rewrite run_of_mode_patch.
  - unfold start_failed in H. by destruct (_persist_intent _ t _ _ (e_write2 e)).
Qed.

Lemma stop_stores w m t intent rid e a w' :
  _request_stop_locked w m t intent rid e = (Ok a, w') →
  dget t (w_agents w') = Some a ∧ names_intent (run_of a) intent rid ∧
  is_ok (_intent_receipt_token t intent rid) = true.
Proof.
  unfold _request_stop_locked, stop_checks. intros H.
  destruct (runtime ← _raw_runtime w t; _) as [[i rec]|] eqn:Ec; [|done].
  apply bind_ok in Ec as (rt & _ & Ec). destruct (dget t (mg_controls m)) as [j|]; [|done].
  apply bind_ok in Ec as (t1 & _ & Ec). apply bind_ok in Ec as (al & _ & Ec).
  apply bind_ok in Ec as (t2 & _ & Ec). apply bind_ok in Ec as (t3 & _ & Ec).
  apply bind_ok in Ec as (rec' & Hrec & Ec). injection Ec as -> ->.
  apply stop_names in Hrec as [Hn Htok].
  destruct (_persist_intent w t _ _ _) as [w1|] eqn:Ep; [|done].
  apply persist_agents in Ep as (ag & _ & Hag). apply pair_eq in H as [H <-].
  unfold _ticket in H. cbn [w_agents upd_run with_runs]. rewrite Hag, dget_dset_eq in *.
  apply Ok_inj in H. subst a. by rewrite run_of_run_patch.
Qed.

(** An intent that changes anything is stored with the change. *)
Lemma intent_stores w mi m t agent payload intent rid e a w' :
  w_managers w !! mi = Some m → dget t (w_agents w) = Some agent →
  normalize_intent_payload payload = Ok (intent, rid) →
  (t, intent, rid) ∉ mg_receipts m → already_applied t (run_of agent) intent rid = Ok false →
  handle_intent w mi t payload e = (Ok a, w') →
  dget t (w_agents w') = Some a ∧ already_applied t (run_of a) intent rid = Ok true.
Proof.
  intros Hm Hag Hn Hfresh Happ H. unfold handle_intent, _ticket in H.
  rewrite Hm, Hn, (bool_decide_false (_ ∈ mg_receipts m)), Hag, Happ in H by done.
  destruct (mg_shutting_down m); [done|]. destruct (normalize_ok _ _ _ Hn) as [Hin Hre].
  destruct (intent ∈s [u "start"; u "resume"]).
  - destruct (_start_or_resume_locked w mi m t agent intent rid e) as [[a1|x] w1] eqn:Es; [|done].
    apply pair_eq in H as [H <-]. apply Ok_inj in H. subst a1.
    apply start_stores in Es as (Ha & Hnames & Htok). split; [done|]. by apply named_applied.
  - destruct (_request_stop_locked w m t intent rid e) as [[a1|x] w1] eqn:Es; [|done].
    apply pair_eq in H as [H <-]. apply Ok_inj in H. subst a1.
    apply stop_stores in Es as (Ha & Hnames & Htok). split; [done|]. by apply named_applied.
Qed.

(** An intent is applied once: repeating a request the manager accepted, to
    the same manager or to another one of the process that shares no memory of
    it, answers with the same stored record and changes no run, no registration
    and nothing stored. *)
Theorem intent_applied_once w mi m t agent payload intent rid e a w' mi' e' :
  w_managers w !! mi = Some m → dget t (w_agents w) = Some agent →
  normalize_intent_payload payload = Ok (intent, rid) →
  (t, intent, rid) ∉ mg_receipts m → already_applied t (run_of agent) intent rid = Ok false →
  handle_intent w mi t payload e = (Ok a, w') →
  match w_managers w' !! mi' with
  | Some m' => mg_shutting_down m' = false →
      (handle_intent w' mi' t payload e').1 = Ok a ∧
      view (handle_intent w' mi' t payload e').2 = view w' ∧
      w_agents (handle_intent w' mi' t payload e').2 = w_agents w'
  | None => True
  end.
Proof.
  intros Hm Hag Hn Hfresh Happ H.
  destruct (intent_stores _ _ _ _ _ _ _ _ _ _ _ Hm Hag Hn Hfresh Happ H) as [Ha Happ'].
  destruct (w_managers w' !! mi') as [m'|] eqn:Em'; [|done]. intros Hdown.
  unfold handle_intent, _ticket. rewrite Em', Hn, Hdown, Ha, Happ'.
  destruct (_ ∈s mg_receipts m'); [done|]. cbn [fst snd].
  split; [done|]. split; [apply view_receipt|done].
Qed.

Lemma with_failure_spec runtime t0 res code o t :
  with_failure runtime t0 res code o = Ok t →
  let history := strs_of (pget (u "failure_history") runtime) in
  let fingerprint := failure_fingerprint (PyStr code) (opt_str (er_last_step res)) in
  let stuck := is_stuck history fingerprint STUCK_THRESHOLD in
  pget (u "state") t = pget (u "state") t0 ∧ pget (u "revision") t = pget (u "revision") t0 ∧
  pget (u "error_code") t
  = (if stuck then PyStr (u "no_progress_stuck") else pget (u "error_code") t0) ∧
  pget (u "failure_history") t = PyList (PyStr <$> record_failure history fingerprint HISTORY_LIMIT) ∧
  ∃ d, pget (u "failure_decision") t = PyDict d ∧ pget (u "stuck") d = PyBool stuck ∧
       (stuck = true → pget (u "action") d = PyStr (u "stop")).
Proof.
  intros H history fingerprint stuck. unfold with_failure, _failure_history in H.
  apply bind_ok in H as (d0 & _ & H). fold history in H. fold fingerprint in H. fold stuck in H.
  apply bind_ok in H as (d & Hd & H). apply Ok_inj in H. subst t.
  assert (Hstop : stuck = true → fd_action d = u "stop").
  { intros Hs. rewrite Hs in Hd. unfold stop_for_no_progress in Hd. case_bool_decide.
    - apply Ok_inj in Hd. by subst.
    - unfold FailureDecision_new in Hd. apply bind_ok in Hd as (t1 & _ & Hd).
      apply bind_ok in Hd as (t2 & _ & Hd). apply Ok_inj in Hd. by subst. }
  clearbody stuck. clear Hd.
  destruct stuck; split_and!; try (by look_all); eexists; (split; [by look_all|]);
    (split; [done|]).
  - intros Hs. cbn. by rewrite (Hstop Hs).
  - done.
Qed.

(** What a finished run stores: the result's state under the next revision;
    for a failure its code, the bounded history with this failure recorded, and
    a decision.  A failure that repeats the one before it is stored as
    [no_progress_stuck] with the action [stop], whatever the policy or the
    executor decided; a clean success clears the history. *)
Theorem terminal_record_spec runtime res o e t :
  terminal_record runtime res o e = Ok t →
  pget (u "state") t = PyStr (er_state res) ∧ _revision t = _revision runtime + 1 ∧
  match result_code res with
  | None => dget (u "error_code") t = None ∧
            (er_state res = u "succeeded" → pget (u "failure_history") t = PyList [] ∧
                                            dget (u "failure_decision") t = None)
  | Some code =>
      let history := strs_of (pget (u "failure_history") runtime) in
      let fingerprint := failure_fingerprint (PyStr code) (opt_str (er_last_step res)) in
      let stuck := is_stuck history fingerprint STUCK_THRESHOLD in
      pget (u "error_code") t = PyStr (if stuck then u "no_progress_stuck" else code) ∧
      pget (u "failure_history") t
      = PyList (PyStr <$> record_failure history fingerprint HISTORY_LIMIT) ∧
      ∃ d, pget (u "failure_decision") t = PyDict d ∧ pget (u "stuck") d = PyBool stuck ∧
           (stuck = true → pget (u "action") d = PyStr (u "stop"))
  end.
Proof.
  unfold terminal_record. intros H.
  set (t1 := dupdate runtime _) in H.
  assert (H1 : pget (u "state") t1 = PyStr (er_state res) ∧
               pget (u "revision") t1 = PyInt (_revision runtime + 1)) by (unfold t1; split; by look_all).
  set (t2 := match er_last_step res with Some _ => _ | None => _ end) in H.
  assert (H2 : pget (u "state") t2 = PyStr (er_state res) ∧
               pget (u "revision") t2 = PyInt (_revision runtime + 1))
    by (unfold t2; destruct (er_last_step res); look_all; exact H1).
  clearbody t2. clear H1. clearbody t1. clear t1.
  destruct (result_code res) as [code|].
  - apply with_failure_spec in H as (Hst & Hrev & Hec & Hh & Hd).
    split_and!; [| | |done|done].
    + rewrite Hst. destruct (bool_decide _); look_all; apply H2.
    + apply revision_next. rewrite Hrev. destruct (bool_decide _); look_all; apply H2.
    + rewrite Hec. clear Hec Hst Hrev Hh Hd. destruct (is_stuck _ _ _); [done|].
      destruct (bool_decide (er_state res = _)); by look_all.
  - apply Ok_inj in H. subst t. split_and!.
    + destruct (bool_decide _); look_all; apply H2.
    + apply revision_next. destruct (bool_decide _); look_all; apply H2.
    + destruct (bool_decide _); by look_all.
    + intros Hs. rewrite bool_decide_true by done. split; by look_all.
Qed.

(** A run that ends in an exception is stored as [failed] with the code
    [executor_error] and its failure history untouched: unlike a returned
    failure it is never counted, so repeating it is never found stuck. *)
Theorem raised_failures_uncounted runtime e :
  let t := ended runtime (u "failed") (u "executor_error") e in
  pget (u "state") t = PyStr (u "failed") ∧ pget (u "error_code") t = PyStr (u "executor_error") ∧
  _revision t = _revision runtime + 1 ∧
  pget (u "failure_history") t = pget (u "failure_history") runtime ∧
  pget (u "failure_decision") t = pget (u "failure_decision") runtime.
Proof.
  cbn zeta. split_and!; [| |apply revision_next| |]; unfold ended; by look_all.
Qed.
End operations.

(** ** Witnesses *)
Definition sample_env : env :=
  mkEnv (λ _, u "2026-01-01T00:00:00Z") (u "aa") true true SessionOpened true.
Definition sample_agents : list (pystr * dict) :=
  [(u "T-1", [(u "requested_execution_mode", PyStr (u "autonomous"))])].
Definition intent_payload (intent rid : string) : pyval :=
  PyDict [(u "intent", PyStr (u intent)); (u "request_id", PyStr (u rid))].
Definition same_key (t : pystr) : pystr := t.

(** Two managers; the first starts the ticket's run, the second is refused. *)
Definition sample_actions : list action :=
  [ ANew true true (λ _, true) sample_env; ANew true true (λ _, true) sample_env;
    AIntent 0 (u "T-1") (intent_payload "start" "r1") sample_env;
    AIntent 1 (u "T-1") (intent_payload "resume" "r2") sample_env;
    ABegin 0 sample_env ].
Definition sample_world : world :=
  Eval vm_compute in foldl (step_world same_key) (initial_world sample_agents) sample_actions.
Definition sample_run : run := Eval vm_compute in
  match w_runs sample_world with r :: _ => r | [] => mkRun [] [] 0 None false [] Fresh end.
Definition sample_manager : manager := Eval vm_compute in
  match w_managers sample_world with m :: _ => m | [] => mkManager false false [] [] true end.

Lemma sample_reachable : reachable same_key sample_world.
Proof.
  assert (H : ∀ acts w, reachable same_key w → reachable same_key (foldl (step_world same_key) w acts)).
  { induction acts as [|a acts IH]; intros w Hw; [done|]. apply IH. by constructor. }
  assert (E : sample_world = foldl (step_world same_key) (initial_world sample_agents) sample_actions)
    by (vm_compute; reflexivity).
  rewrite E. apply H. constructor.
Qed.

Lemma one_worker_per_ticket_witness :
  reachable same_key sample_world ∧ length (w_runs sample_world) = 1%nat ∧
  phase_alive (rn_phase sample_run) = true ∧ 0%nat = 0%nat.
Proof.
  split; [exact sample_reachable|]. split; [vm_compute; reflexivity|]. split; [vm_compute; reflexivity|].
  apply (one_worker_per_ticket same_key sample_world 0 0 sample_run sample_run sample_reachable);
    vm_compute; reflexivity.
Defined.

Definition sample_stop : result dict * world :=
  Eval vm_compute in
  _request_stop_locked sample_world sample_manager (u "T-1") (u "pause") (u "r3") sample_env.
Definition sample_stop_agent : dict := Eval vm_compute in
  match sample_stop.1 with Ok a => a | Err _ => [] end.

Lemma stop_request_obeyed_witness :
  ∃ w' i r, _request_stop_locked sample_world sample_manager (u "T-1") (u "pause") (u "r3") sample_env
            = (Ok sample_stop_agent, w') ∧
    w_runs (step_world same_key w' (ARetry 0)) !! i = Some r ∧
    is_ok (safe_point (step_world same_key w' (ARetry 0)) i r (PyStr (u "code")) sample_env).1 = false.
Proof.
  assert (E : _request_stop_locked sample_world sample_manager (u "T-1") (u "pause") (u "r3") sample_env
              = (Ok sample_stop_agent, sample_stop.2)) by (vm_compute; reflexivity).
  destruct (stop_request_obeyed same_key sample_world sample_manager (u "T-1") (u "pause") (u "r3")
              sample_env sample_stop_agent sample_stop.2 [ARetry 0] E) as (i & r & _ & Hr & Hs).
  exists sample_stop.2, i, r. split; [exact E|]. split; [exact Hr|apply Hs].
Defined.

Definition sample_pending : dict := Eval vm_compute in
  match w_agents sample_world with (_, a) :: _ => a | [] => [] end.

Lemma intent_applied_once_witness :
  ∃ a w', handle_intent same_key sample_world 0 (u "T-1") (intent_payload "pause" "r3") sample_env
          = (Ok a, w') ∧
    (handle_intent same_key w' 1 (u "T-1") (intent_payload "pause" "r3") sample_env).1 = Ok a ∧
    w_agents (handle_intent same_key w' 1 (u "T-1") (intent_payload "pause" "r3") sample_env).2
    = w_agents w'.
Proof.
  destruct (handle_intent same_key sample_world 0 (u "T-1") (intent_payload "pause" "r3") sample_env)
    as [[a|x] w'] eqn:E; [|exfalso; revert E; vm_compute; discriminate].
  exists a, w'. split; [reflexivity|].
  pose proof (intent_applied_once same_key sample_world 0 sample_manager (u "T-1") sample_pending
    (intent_payload "pause" "r3") (u "pause") (u "r3") sample_env a w' 1 sample_env) as H.
  assert (Em : ∃ m', w_managers w' !! 1%nat = Some m' ∧ mg_shutting_down m' = false).
  { revert E. vm_compute. intros [= _ <-]. eexists. split; reflexivity. }
  destruct Em as (m' & Em & Hd). rewrite Em in H.
  destruct H as (H1 & _ & H3); [vm_compute; reflexivity|vm_compute; reflexivity|vm_compute; reflexivity| | |exact E|exact Hd|].
  - apply (bool_decide_unpack _). vm_compute. exact I.
  - vm_compute. reflexivity.
  - by split.
Defined.

Definition sample_failure : ExecutionResult :=
  mkExecutionResult (u "failed") (Some (u "code")) (Some (u "chain_failed")).
Definition failed_before : dict :=
  [(u "failure_history", PyList [PyStr (u "code:chain_failed")])].

Lemma terminal_record_spec_witness :
  ∃ t, terminal_record failed_before sample_failure NoDecider sample_env = Ok t ∧
    pget (u "error_code") t = PyStr (u "no_progress_stuck").
Proof.
  destruct (terminal_record failed_before sample_failure NoDecider sample_env) as [t|x] eqn:E;
    [|exfalso; revert E; vm_compute; discriminate].
  exists t. split; [reflexivity|].
  destruct (terminal_record_spec _ _ _ _ _ E) as (_ & _ & Hec & _).
  rewrite Hec. vm_compute. reflexivity.
Defined.

(** ** What the model shows *)

(** An intent that is not hashable makes the payload check raise [TypeError],
    not the stable error it documents. *)
Theorem unhashable_intent_escapes :
  normalize_intent_payload (PyDict [(u "intent", PyList []); (u "request_id", PyStr (u "r"))])
  = Err (TypeError "unhashable type").
Proof. vm_compute. reflexivity. Qed.

(** A failure without a code is recorded as [executor_failed], a deterministic
    failure by the class table, but its decision is made for no code at all, so
    the stored class is [ambiguous_side_effect]. *)
Example executor_failed_misclassified :
  classify_failure (PyStr (u "executor_failed")) = u "deterministic_failure" ∧
  match terminal_record [] (mkExecutionResult (u "failed") None None) NoDecider sample_env with
  | Ok t => pget (u "error_code") t = PyStr (u "executor_failed") ∧
            match pget (u "failure_decision") t with
            | PyDict d => pget (u "class") d = PyStr (u "ambiguous_side_effect")
            | _ => False
            end
  | Err _ => False
  end.
Proof. vm_compute. by split_and!. Qed.
