(* ===== verification/Contracts.v ===== *)
(** * Step contracts ([src/src/icode/contracts.py])

    The read-only view of [gates.json]: the ports, checks and drift routes of
    each step, and the ticket state machine they belong to.  The parsed file is
    an untrusted dynamic value; a part of the wrong class raises where the code
    first uses it. *)

From S2P Require Import Prelude PyText PyVal.

Record Port := mkPort {
  port_id : pystr;
  port_kind : pystr;
  port_value : pystr;
  port_required : bool;
  port_protected : bool
}.

Record StepContract := mkStepContract {
  sc_step : pystr;
  sc_inputs : list Port;
  sc_outputs : list Port;
  sc_required_checks : list pystr;
  sc_drift_routes : list (pystr * pystr)
}.

Definition required_inputs (c : StepContract) : list Port := filter (λ p, port_required p = true) (sc_inputs c).
Definition required_outputs (c : StepContract) : list Port := filter (λ p, port_required p = true) (sc_outputs c).
Definition protected_inputs (c : StepContract) : list Port := filter (λ p, port_protected p = true) (sc_inputs c).

(** [self.drift_routes.get(a) or self.drift_routes.get("default") or self.step] *)
Definition route_for (c : StepContract) (drift_input : pystr) : pystr :=
  match dget drift_input (sc_drift_routes c) with
  | Some (x :: s) => x :: s
  | _ => match dget (u "default") (sc_drift_routes c) with
         | Some (x :: s) => x :: s
         | _ => sc_step c
         end
  end.

(** ** Dynamic containers *)
(** [for x in v] *)
Definition py_iter (v : pyval) : result (list pyval) :=
  match v with
  | PyList l | PyTuple l => Ok l
  | PyDict d => Ok ((λ p, PyStr p.1) <$> d)
  | PyStr s => Ok ((λ c, PyStr [c]) <$> s)
  | _ => Err (TypeError "object is not iterable")
  end.

(** [v or ()], iterated. *)
Definition py_iter_or_nil (v : pyval) : result (list pyval) := if py_truth v then py_iter v else Ok [].

(** [d[k] = v] for keys of any hashable class. *)
Fixpoint vdset (k v : pyval) (d : list (pyval * pyval)) : list (pyval * pyval) :=
  match d with
  | [] => [(k, v)]
  | (k', v') :: d' => if py_eq k k' then (k', v) :: d' else (k', v') :: vdset k v d'
  end.

(** One element of the iterable given to [dict(...)]: a pair. *)
Definition dict_pair (d : list (pyval * pyval)) (item : pyval) : result (list (pyval * pyval)) :=
  kv ← py_iter item;
  match kv with
  | [k; v] => if unhashable k then Err (TypeError "unhashable type") else Ok (vdset k v d)
  | _ => Err (ValueError "dictionary update sequence element")
  end.

(** [dict(v or {})] *)
Definition py_dict (v : pyval) : result (list (pyval * pyval)) :=
  if negb (py_truth v) then Ok []
  else match v with
  | PyDict d => Ok ((λ p, (PyStr p.1, p.2)) <$> d)
  | _ => l ← py_iter v; foldM_res dict_pair [] l
  end.

(** [v.get(k) or {}], to be asked [get] itself. *)
Definition get_or_dict (v : pyval) (k : pystr) : result pyval :=
  x ← attr_get v k; Ok (if py_truth x then x else PyDict []).

Section contracts.
Context `{PyRepr}.

Definition _to_port (item : pyval) : result Port :=
  match item with
  | PyStr s => Ok (mkPort s (u "unknown") s false false)
  | PyDict d =>
    Ok (mkPort (py_str (pget_or (u "id") (PyStr []) d))
               (py_str (pget_or (u "kind") (PyStr (u "unknown")) d))
               (py_str (pget_or (u "value") (PyStr []) d))
               (py_truth (pget_or (u "required") (PyBool false) d))
               (py_truth (pget_or (u "protected") (PyBool false) d)))
  | _ => Err ContractError
  end.

(** [{str(k): str(v) for k, v in d.items()}] *)
Definition str_items (d : list (pyval * pyval)) : list (pystr * pystr) :=
  foldl (λ acc p, dset (py_str p.1) (py_str p.2) acc) [] d.

Definition _to_contract (step : pystr) (raw : pyval) : result StepContract :=
  match raw with
  | PyDict d =>
    let checks := pget (u "required_checks") d in
    let routes := pget (u "drift_routes") d in
    ins ← (l ← py_iter_or_nil (pget (u "inputs") d); mapM_res _to_port l);
    outs ← (l ← py_iter_or_nil (pget (u "outputs") d); mapM_res _to_port l);
    cs ← py_iter_or_nil checks;
    rs ← py_dict routes;
    Ok (mkStepContract step ins outs (map py_str cs) (str_items rs))
  | _ => Err ContractError
  end.

Record ContractSet := mkContractSet {
  cs_em : list (pystr * pyval);
  cs_sm : pyval;
  cs_schema_version : pyval;
  cs_contracts : list (pystr * StepContract)
}.

Definition add_contract (acc : list (pystr * StepContract)) (p : pyval * pyval)
  : result (list (pystr * StepContract)) :=
  c ← _to_contract (py_str p.1) p.2; Ok (dset (py_str p.1) c acc).

(** [ContractSet(raw)] for the object [json.loads] returned. *)
Definition ContractSet_new (raw : pyval) : result ContractSet :=
  em ← attr_get raw (u "execution_model");
  match em with
  | PyDict em =>
    sm ← get_or_dict raw (u "state_machine");
    ver ← attr_get raw (u "schema_version");
    items ← py_dict (pget (u "step_contracts") em);
    cs ← foldM_res add_contract [] items;
    Ok (mkContractSet em sm ver cs)
  | _ => Err ContractError
  end.

(** [ContractSet.load]: [None] when the file is missing; [Some None] when it is
    not JSON. *)
Definition load (file : option (option pyval)) : result ContractSet :=
  match file with
  | Some (Some raw) => ContractSet_new raw
  | _ => Err ContractError
  end.

(** ** Queries *)
Definition steps (c : ContractSet) : list pystr := dkeys (cs_contracts c).
Definition step (c : ContractSet) (name : pystr) : result StepContract :=
  match dget name (cs_contracts c) with Some s => Ok s | None => Err ContractError end.
Definition has (c : ContractSet) (name : pystr) : bool := dhas name (cs_contracts c).

Definition str_list (v : pyval) : result (list pystr) := l ← py_iter_or_nil v; Ok (map py_str l).
Definition boundaries (c : ContractSet) : result (list pystr) := str_list (pget (u "boundaries") (cs_em c)).
Definition step_outcomes (c : ContractSet) : result (list pystr) := str_list (pget (u "step_outcomes") (cs_em c)).
Definition finish_gate_steps (c : ContractSet) : result (list pystr) :=
  str_list (pget (u "finish_gate_steps") (cs_em c)).
Definition operation_classes (c : ContractSet) : result (list pystr) :=
  d ← py_dict (pget (u "operation_classes") (cs_em c)); Ok (py_str <$> d.*1).
Definition failure_policies (c : ContractSet) : result (list pystr) :=
  d ← py_dict (pget (u "failure_policies") (cs_em c)); Ok (py_str <$> d.*1).

(** ** The state machine *)
Definition status_for_step (c : ContractSet) (name : pystr) : result (option pystr) :=
  policy ← get_or_dict (cs_sm c) (u "gate_policy");
  targets ← attr_get policy (u "step_by_target");
  d ← py_dict targets;
  Ok ((λ p, py_str p.1) <$> find (λ p, py_str p.2 =s name) d).

(** The scan for the transition into [done] that leaves an in-progress state. *)
Fixpoint in_progress_scan (done : pystr) (items : list pyval) : result (option pystr) :=
  match items with
  | [] => Ok None
  | item :: items' =>
    to ← attr_get item (u "to");
    if py_str to =s done then
      frm ← attr_get item (u "from");
      if endswith (u "_in_progress") (py_str frm) then Ok (Some (py_str frm)) else in_progress_scan done items'
    else in_progress_scan done items'
  end.

Definition in_progress_status_for (c : ContractSet) (name : pystr) : result (option pystr) :=
  done ← status_for_step c name;
  match done with
  | None => Ok None
  | Some done =>
    ts ← attr_get (cs_sm c) (u "transitions");
    items ← py_iter_or_nil ts;
    in_progress_scan done items
  end.

Definition gated_targets (c : ContractSet) : result (list pystr) :=
  policy ← get_or_dict (cs_sm c) (u "gate_policy");
  ts ← attr_get policy (u "gated_targets");
  str_list ts.

Definition completed_step_marker (c : ContractSet) (name : pystr) : result (option pystr) :=
  policy ← get_or_dict (cs_sm c) (u "gate_policy");
  target ← status_for_step c name;
  match target with
  | None => Ok None
  | Some target =>
    m ← attr_get policy (u "completed_step_by_target");
    mapping ← py_dict m;
    Ok (match find (λ p, py_eq (PyStr target) p.1) mapping with
        | Some (_, PyNone) | None => None
        | Some (_, v) => Some (py_str v)
        end)
  end.

(** Items that are not dictionaries are passed over here. *)
Definition legal_transitions (c : ContractSet) (frm : pystr) : result (list pystr) :=
  ts ← attr_get (cs_sm c) (u "transitions");
  items ← py_iter_or_nil ts;
  Ok (omap (λ item, match item with
                    | PyDict d => if py_str (pget (u "from") d) =s frm
                                  then Some (py_str (pget (u "to") d)) else None
                    | _ => None
                    end) (items : list pyval)).

(** ** Alignment with the step documents *)
Inductive AlignmentIssue :=
  | missing_dir
  | contract_without_doc (name : pystr)
  | doc_without_contract (name : pystr).

(** [stem.split("_", 1)[1] if "_" in stem else stem] *)
Definition doc_step (stem : pystr) : pystr :=
  match split_on 95 stem with
  | _ :: rest => if has_char 95 stem then join [95%N] rest else stem
  | [] => stem
  end.

(** [check_steps_alignment] for the stems of [steps_dir/*.md], [None] when there
    is no such directory. *)
Definition check_steps_alignment (c : ContractSet) (stems : option (list pystr)) : list AlignmentIssue :=
  match stems with
  | None => [missing_dir]
  | Some stems =>
    let doc_steps := sorted_set id (doc_step <$> stems) in
    (contract_without_doc <$> filter (λ n, n ∉ doc_steps) (steps c))
    ++ (doc_without_contract <$> filter (λ n, has c n = false) doc_steps)
  end.
End contracts.

(** ** Properties *)
Lemma elem_doc_steps stems n : n ∈ sorted_set id (doc_step <$> stems) ↔ ∃ s, s ∈ stems ∧ n = doc_step s.
Proof.
  rewrite elem_sorted_set. rewrite list_elem_of_fmap. naive_solver.
Qed.

(** The steps are aligned, no issue is reported, exactly when every contract
    has a step document and every document a contract. *)
Theorem alignment_iff c stems :
  check_steps_alignment c (Some stems) = [] ↔
  ∀ n, has c n = true ↔ ∃ s, s ∈ stems ∧ n = doc_step s.
Proof.
  assert (Hh : ∀ n, has c n = true ↔ n ∈ steps c).
  { intros n. unfold has, dhas, steps. pose proof (dget_None n (cs_contracts c)) as Hn.
    destruct (dget n (cs_contracts c)); split; try done.
    - intros _. destruct (decide (n ∈ dkeys (cs_contracts c))) as [|E]; [done|]. by apply Hn in E.
    - intros E. by apply Hn in E. }
  assert (Hm : ∀ (f : pystr → AlignmentIssue) l, f <$> l = [] ↔ l = []) by (by intros f [|x l]).
  cbn. rewrite app_nil, !Hm.
  split.
  - intros [H1 H2] n. rewrite Hh, <- elem_doc_steps. split; intros Hn.
    + destruct (decide (n ∈ sorted_set id (doc_step <$> stems))) as [|E]; [done|].
      assert (Hin : n ∈ filter (λ n, n ∉ sorted_set id (doc_step <$> stems)) (steps c))
        by (by apply list_elem_of_filter). rewrite H1 in Hin. by apply elem_of_nil in Hin.
    + destruct (has c n) eqn:E; [by apply Hh|].
      assert (Hin : n ∈ filter (λ n, has c n = false) (sorted_set id (doc_step <$> stems)))
        by (by apply list_elem_of_filter). rewrite H2 in Hin. by apply elem_of_nil in Hin.
  - intros Ha. split; (destruct (filter _ _) as [|n l] eqn:E; [done|]);
      assert (Hn : n ∈ n :: l) by constructor; rewrite <- E, list_elem_of_filter in Hn;
      destruct Hn as [Hp Hn].
    + destruct Hp. apply Hh, Ha in Hn. by rewrite elem_doc_steps.
    + rewrite elem_doc_steps in Hn. apply Ha in Hn. congruence.
Qed.
