(* ===== verification/Chain.v ===== *)
(** * The step chain ([src/src/icode/chain.py])

    [chain_steps] derives the order of the steps from the ticket state machine
    of the contracts; [chain_loop] is the loop of [run_chain], which runs the
    steps in that order and stops at the first one a gate refuses.  The step
    runner ([run_contract_step]) is an argument: what a step does is not
    modelled here. *)

From S2P Require Import Prelude PyText PyVal Paths SandboxPolicy Contracts.

Section chain_steps.
Context `{PyRepr}.

(** The locals of the walk; the last element of the [stack] list is the head
    here. *)
Record walk := mkWalk { wk_order : list pystr; wk_visited : list pystr; wk_stack : list pystr }.

(** [if step and step not in order: order.append(step)] *)
Definition add_step (found : option pystr) (order : list pystr) : list pystr :=
  match found with
  | Some (x :: s) => if (x :: s) ∈s order then order else order ++ [x :: s]
  | _ => order
  end.

(** One pass of the inner loop, over one transition. *)
Definition visit_item (tbl : list (pystr * pystr)) (status : pystr) (w : walk) (item : pyval) : result walk :=
  frm ← attr_get item (u "from");
  if py_str frm ≠s status then Ok w
  else
    to ← attr_get item (u "to");
    let target := py_str to in
    if target ∈s wk_visited w then Ok w
    else Ok (mkWalk (add_step (dget target tbl) (wk_order w)) (target :: wk_visited w) (target :: wk_stack w)).

(** The outer loop; the fuel is the [guard] counter. *)
Fixpoint walk_loop (guard : nat) (tbl : list (pystr * pystr)) (items : list pyval) (w : walk) : result walk :=
  match guard, wk_stack w with
  | S guard', status :: stack =>
    w' ← foldM_res (visit_item tbl status) (mkWalk (wk_order w) (wk_visited w) stack) items;
    walk_loop guard' tbl items w'
  | _, _ => Ok w
  end.

Definition terminal_states (sm : pyval) : result (list pystr) :=
  ts ← attr_get sm (u "terminal_states_of_ticket"); str_list ts.
Definition step_by_target (sm : pyval) : result (list (pystr * pystr)) :=
  policy ← get_or_dict sm (u "gate_policy");
  targets ← attr_get policy (u "step_by_target");
  d ← py_dict targets;
  Ok (str_items d).
Definition transitions (sm : pyval) : result (list pyval) :=
  tr ← attr_get sm (u "transitions"); py_iter_or_nil tr.

Definition chain_steps (c : ContractSet) (from_status : pystr) : result (list pystr) :=
  terminal ← terminal_states (cs_sm c);
  if from_status ∈s terminal then Ok []
  else
    tbl ← step_by_target (cs_sm c);
    items ← transitions (cs_sm c);
    w ← walk_loop 256 tbl items (mkWalk [] [from_status] [from_status]);
    Ok (wk_order w).

(** ** What the walk computes *)
Section walk.
Context (tbl : list (pystr * pystr)) (items : list pyval) (from_status : pystr).

(** The transitions, as a relation on statuses. *)
Definition edge (s t : pystr) : Prop :=
  ∃ d, PyDict d ∈ items ∧ py_str (pget (u "from") d) = s ∧ py_str (pget (u "to") d) = t.

(** A status reached by the walk whose step is to be listed. *)
Definition yields (t : pystr) (s : pystr) : Prop :=
  rtc edge from_status t ∧ t ≠ from_status ∧ dget t tbl = Some s ∧ s ≠ [].

(** [done] are the statuses whose transitions were all followed. *)
Record walk_ok (done : list pystr) (w : walk) : Prop := {
  wo_from : from_status ∈ wk_visited w;
  wo_reach : ∀ t, t ∈ wk_visited w → rtc edge from_status t;
  wo_nodup : NoDup (wk_visited w);
  wo_perm : done ++ wk_stack w ≡ₚ wk_visited w;
  wo_closed : ∀ s t, s ∈ done → edge s t → t ∈ wk_visited w;
  wo_order_nodup : NoDup (wk_order w);
  wo_order : ∀ s, s ∈ wk_order w ↔ ∃ t, t ∈ wk_visited w ∧ yields t s
}.

Lemma walk_init_ok : walk_ok [] (mkWalk [] [from_status] [from_status]).
Proof.
  split; cbn; [constructor| | | |set_solver|constructor|].
  - intros t ->%list_elem_of_singleton. apply rtc_refl.
  - apply NoDup_singleton.
  - done.
  - intros s. split; [by intros ?%elem_of_nil|].
    intros (t & ->%list_elem_of_singleton & (_ & ? & _)). done.
Qed.

Lemma elem_add_step f s order :
  s ∈ add_step f order ↔ s ∈ order ∨ (f = Some s ∧ s ≠ []).
Proof.
  unfold add_step. destruct f as [[|x r]|]; [naive_solver| |naive_solver].
  case_bool_decide as E; [naive_solver|]. rewrite elem_of_app, list_elem_of_singleton. naive_solver.
Qed.

Lemma add_step_nodup f order : NoDup order → NoDup (add_step f order).
Proof.
  intros Hn. unfold add_step. destruct f as [[|x r]|]; [done| |done].
  case_bool_decide as E; [done|]. apply NoDup_app. split_and!; [done| |apply NoDup_singleton].
  intros y Hy ->%list_elem_of_singleton. done.
Qed.

(** During the pass over [status], the transitions seen so far were followed. *)
Lemma visit_item_ok done seen status w item w' :
  status ∈ wk_visited w → item ∈ items →
  walk_ok done (mkWalk (wk_order w) (wk_visited w) (status :: wk_stack w)) →
  (∀ d, PyDict d ∈ seen → py_str (pget (u "from") d) = status → py_str (pget (u "to") d) ∈ wk_visited w) →
  visit_item tbl status w item = Ok w' →
  status ∈ wk_visited w' ∧
  walk_ok done (mkWalk (wk_order w') (wk_visited w') (status :: wk_stack w')) ∧
  ∀ d, PyDict d ∈ item :: seen → py_str (pget (u "from") d) = status → py_str (pget (u "to") d) ∈ wk_visited w'.
Proof.
  intros Hst Hit Hok Hseen. unfold visit_item, attr_get.
  destruct item as [| | | | | | |d|]; try done. cbn [mbind result_bind].
  case_bool_decide as E1; cbn [negb].
  2: { intros [= <-]. split; [done|]. split; [done|]. intros d' [[= ->]|Hd]%elem_of_cons He; [done|auto]. }
  case_bool_decide as E2.
  { intros [= <-]. split; [done|]. split; [done|]. intros d' [[= ->]|Hd]%elem_of_cons He; [done|auto]. }
  intros [= <-]. cbn. set (t := py_str (pget (u "to") d)) in *.
  assert (Hr : rtc edge from_status t).
  { eapply rtc_r; [apply (wo_reach _ _ Hok); exact Hst|]. exists d. done. }
  destruct Hok as [H1 H2 H3 H4 H5 H6 H7]; cbn in *.
  split; [by constructor|]. split.
  - split; cbn; try by constructor.
    + intros t' [->|?]%elem_of_cons; [done|auto].
    + by rewrite <- H4, (perm_swap t status), <- Permutation_middle.
    + intros s t' Hs He. constructor. eauto.
    + by apply add_step_nodup.
    + intros s. rewrite elem_add_step, H7. split.
      * intros [(t' & Ht & Hy)|[Hg Hne]]; [exists t'; split; [by constructor|done]|].
        exists t. split; [by constructor|]. split_and!; try done. intros Heq. apply E2. by rewrite Heq.
      * intros (t' & [->|Ht]%elem_of_cons & Hy); [|left; eauto].
        destruct Hy as (_ & _ & Hg & Hne). by right.
  - intros d' [[= ->]|Hd]%elem_of_cons He; [by constructor|constructor; auto].
Qed.

Lemma visit_items_ok done status l w seen w' :
  status ∈ wk_visited w → (∀ i, i ∈ l → i ∈ items) →
  walk_ok done (mkWalk (wk_order w) (wk_visited w) (status :: wk_stack w)) →
  (∀ d, PyDict d ∈ seen → py_str (pget (u "from") d) = status → py_str (pget (u "to") d) ∈ wk_visited w) →
  foldM_res (visit_item tbl status) w l = Ok w' →
  walk_ok done (mkWalk (wk_order w') (wk_visited w') (status :: wk_stack w')) ∧
  ∀ d, PyDict d ∈ l ++ seen → py_str (pget (u "from") d) = status → py_str (pget (u "to") d) ∈ wk_visited w'.
Proof.
  revert w seen. induction l as [|i l IH]; intros w seen Hst Hl Hok Hseen; cbn.
  { intros [= <-]. done. }
  intros (w1 & Hv & Hf)%bind_ok.
  destruct (visit_item_ok done seen status w i w1 Hst (Hl i ltac:(constructor)) Hok Hseen Hv)
    as (Hst1 & Hok1 & Hseen1).
  destruct (IH w1 (i :: seen) Hst1 (λ j Hj, Hl j ltac:(by constructor)) Hok1 Hseen1 Hf) as [Hok' Hs].
  split; [done|]. intros d Hd. apply Hs. rewrite elem_of_app, elem_of_cons.
  rewrite elem_of_cons, elem_of_app in Hd. tauto.
Qed.

Lemma walk_loop_ok guard done w w' :
  walk_ok done w → walk_loop guard tbl items w = Ok w' →
  ∃ done', walk_ok done' w' ∧ (wk_stack w' = [] ∨ length done + guard ≤ length done').
Proof.
  revert done w. induction guard as [|g IH]; intros done w Hok.
  { cbn. intros [= <-]. exists done. split; [done|]. right. lia. }
  destruct w as [o v [|status stack]]; cbn [walk_loop wk_stack wk_order wk_visited].
  { intros [= <-]. exists done. split; [done|by left]. }
  intros (w1 & Hf & Hl)%bind_ok.
  assert (Hst : status ∈ v).
  { pose proof (wo_perm _ _ Hok) as Hp. cbn in Hp. rewrite <- Hp. rewrite elem_of_app, elem_of_cons. naive_solver. }
  destruct (visit_items_ok done status items (mkWalk o v stack) [] w1) as [Hok1 Hs]; try done.
  { intros d Hd. by apply elem_of_nil in Hd. }
  assert (Hok2 : walk_ok (done ++ [status]) w1).
  { destruct Hok1 as [H1 H2 H3 H4 H5 H6 H7]; split; cbn in *; try done.
    - rewrite <- H4, <- app_assoc. done.
    - intros s t [Hd| ->%list_elem_of_singleton]%elem_of_app He; [eauto|].
      destruct He as (d & Hin & Hf' & <-). apply Hs; [|done]. by rewrite app_nil_r. }
  destruct (IH _ _ Hok2 Hl) as (done' & Hok' & Hor). exists done'. split; [done|].
  rewrite length_app in Hor. cbn in Hor. destruct Hor; [by left|right; lia].
Qed.

(** When the statuses that can be reached are at most [guard], the walk ends
    with an empty stack and has seen all of them. *)
Lemma walk_complete guard w' S t :
  walk_loop guard tbl items (mkWalk [] [from_status] [from_status]) = Ok w' →
  (∀ t, rtc edge from_status t → t ∈ S) → length S ≤ guard →
  rtc edge from_status t → t ∈ wk_visited w'.
Proof.
  intros Hl HS Hlen Ht.
  destruct (walk_loop_ok _ _ _ _ walk_init_ok Hl) as (done & Hok & Hor).
  assert (Hempty : wk_stack w' = []).
  { destruct Hor as [|Hge]; [done|]. cbn in Hge.
    assert (Hle : length (wk_visited w') ≤ length S).
    { apply submseteq_length, NoDup_submseteq; [apply (wo_nodup _ _ Hok)|].
      intros x Hx. by apply HS, (wo_reach _ _ Hok). }
    rewrite <- (wo_perm _ _ Hok), length_app in Hle. destruct (wk_stack w'); [done|cbn in *; lia]. }
  pose proof (wo_perm _ _ Hok) as Hp. rewrite Hempty, app_nil_r in Hp.
  assert (Hclosed : ∀ x y, rtc edge x y → x ∈ wk_visited w' → y ∈ wk_visited w').
  { induction 1 as [|x y z Hxy _ IH]; [done|]. intros Hx. apply IH.
    apply (wo_closed _ _ Hok x); [by rewrite Hp|done]. }
  eapply Hclosed; [exact Ht|apply (wo_from _ _ Hok)].
Qed.
End walk.

(** [chain_steps] lists no step from a terminal status.  From any other one
    the steps are distinct; each is the nonempty step of a status, other than
    the start, that the transitions reach from the start; and when at most 256
    statuses can be reached none of these steps is missing, however the
    transitions branch or go round. *)
Theorem chain_steps_spec c from_status order :
  chain_steps c from_status = Ok order →
  ∃ terminal, terminal_states (cs_sm c) = Ok terminal ∧
  (from_status ∈ terminal → order = []) ∧
  (from_status ∉ terminal →
   ∃ tbl items, step_by_target (cs_sm c) = Ok tbl ∧ transitions (cs_sm c) = Ok items ∧
    NoDup order ∧
    (∀ s, s ∈ order → ∃ t, yields tbl items from_status t s) ∧
    ∀ S, (∀ t, rtc (edge items) from_status t → t ∈ S) → length S ≤ 256 →
      ∀ s, s ∈ order ↔ ∃ t, yields tbl items from_status t s).
Proof.
  intros (terminal & Ht & Hc)%bind_ok. exists terminal. split; [done|].
  case_bool_decide as E; [injection Hc as <-; done|]. split; [done|]. intros _.
  apply bind_ok in Hc as (tbl & Htbl & (items & Hitems & (w & Hw & [= <-])%bind_ok)%bind_ok).
  exists tbl, items. split_and!; [done..| | |].
  all: destruct (walk_loop_ok _ _ _ _ _ _ _ (walk_init_ok tbl items from_status) Hw) as (done & Hok & _).
  - apply Hok.
  - intros s (t & _ & Hy)%(wo_order _ _ _ _ _ Hok). by exists t.
  - intros S HS Hlen s. rewrite (wo_order _ _ _ _ _ Hok). split; [intros (t & _ & Hy); by exists t|].
    intros (t & Hy). exists t. split; [|done].
    eapply walk_complete; [exact Hw|exact HS|exact Hlen|apply Hy].
Qed.
End chain_steps.

(** ** Running a chain *)
(** The fields of [runner.StepReport] the chain reads. *)
Record StepReport := mkStepReport {
  sr_step : pystr;
  sr_ok : bool;
  sr_out_dir : pystr;
  sr_advance_status : pystr;
  sr_advance_gates : list pystr;
  sr_finish_outcome : pystr;
  sr_error : pystr
}.

Record ChainReport := mkChainReport {
  cr_steps : list StepReport;
  cr_stopped_at : pystr;
  cr_reason : pystr;
  cr_out_dir : pystr;
  cr_delivered : bool
}.

(** The step finished, but its gates kept the ticket's status. *)
Definition gate_refused (sr : StepReport) : bool :=
  (sr_finish_outcome sr =s u "success") && contains (u "被门禁拦截") (sr_advance_status sr).
Definition passed (sr : StepReport) : bool := sr_ok sr && negb (gate_refused sr).

Definition or_text (s d : pystr) : pystr := if s =s [] then d else s.

Section run_chain.
Context {W : Type}.
(** [run_contract_step], for the directory and step given, and the callback. *)
Context (run_step : option Path → pystr → W → result StepReport * W).
Context (on_step : pystr → StepReport → W → result unit * W).

(** [Path(step_report.out_dir) if step_report.out_dir else out_dir] *)
Definition next_dir (sr : StepReport) (dir : option Path) : option Path :=
  if sr_out_dir sr =s [] then dir else Some (Path_of_str (sr_out_dir sr)).

Fixpoint chain_loop (order : list pystr) (dir : option Path) (r : ChainReport) (w : W)
  : result ChainReport * W :=
  match order with
  | [] => (Ok (mkChainReport (cr_steps r) (cr_stopped_at r) (cr_reason r) (cr_out_dir r) true), w)
  | name :: order' =>
    match run_step dir name w with
    | (Err e, w1) => (Err e, w1)
    | (Ok sr, w1) =>
      let steps := cr_steps r ++ [sr] in
      let dir' := next_dir sr dir in
      let out := match dir' with Some p => path_str p | None => [] end in
      match on_step name sr w1 with
      | (Err e, w2) => (Err e, w2)
      | (Ok _, w2) =>
        if negb (sr_ok sr) then
          (Ok (mkChainReport steps name (or_text (sr_error sr) (u "步骤未通过（详见该步骤报告）")) out false), w2)
        else if gate_refused sr then
          (Ok (mkChainReport steps name
                 (u "步骤产物已齐备且 finish 成功，但状态前移被门禁拦截："
                  ++ join (u "、") (sr_advance_gates sr)) out false), w2)
        else chain_loop order' dir' (mkChainReport steps (cr_stopped_at r) (cr_reason r) out (cr_delivered r)) w2
      end
    end
  end.

(** An isolation policy must belong to the single step that runs. *)
Definition policy_matches (p : SandboxPolicy) (order : list pystr) (workspace : Path) (ticket_id : pystr) : bool :=
  match order with
  | [s] => (SandboxPolicy.step p =s s) && bool_decide (SandboxPolicy.workspace_root p = workspace)
           && (SandboxPolicy.ticket_id p =s ticket_id)
  | _ => false
  end.

(** The metadata of an existing ticket directory: [None] when there is no file,
    [Some None] when it cannot be read or parsed. *)
Definition metadata_matches (metadata : option (option pyval)) (ticket_id : pystr) : result unit :=
  match metadata with
  | None | Some None => Err (ValueError "metadata")
  | Some (Some (PyDict d)) =>
    raise_if (negb (is_lit (pget (u "ticket_id") d) ticket_id)) (ValueError "ticket_id")
  | Some (Some _) => Err (ValueError "ticket_id")
  end.

(** [run_chain], from the loaded contracts on and without a prepared scope;
    [out_dir] comes with the metadata file found in it. *)
Definition run_chain `{PyRepr} (contracts : ContractSet) (workspace : Path) (ticket_id : pystr)
    (steps : list pystr) (policy : option SandboxPolicy) (out_dir : option (Path * option (option pyval)))
    (w : W) : result ChainReport * W :=
  let checked :=
    _ ← match out_dir with Some (_, m) => metadata_matches m ticket_id | None => Ok tt end;
    order ← match steps with [] => chain_steps contracts (u "init_in_progress") | _ => Ok steps end;
    _ ← match policy with
        | Some p => raise_if (negb (policy_matches p order workspace ticket_id)) (ValueError "policy")
        | None => Ok tt
        end;
    Ok order in
  match checked with
  | Err e => (Err e, w)
  | Ok order => chain_loop order (fst <$> out_dir) (mkChainReport [] [] [] [] false) w
  end.

(** The steps of [order] ran one after the other and passed, giving [srs]. *)
Inductive chain_passed : option Path → list pystr → W → list StepReport → option Path → W → Prop :=
  | chain_passed_nil dir w : chain_passed dir [] w [] dir w
  | chain_passed_cons dir name order w sr w1 w2 srs dir' w' :
      run_step dir name w = (Ok sr, w1) → on_step name sr w1 = (Ok tt, w2) → passed sr = true →
      chain_passed (next_dir sr dir) order w2 srs dir' w' →
      chain_passed dir (name :: order) w (sr :: srs) dir' w'.

Lemma chain_loop_spec order dir r w r' w' :
  chain_loop order dir r w = (Ok r', w') →
  ∃ srs, ( ∃ dir', chain_passed dir order w srs dir' w' ∧ cr_steps r' = cr_steps r ++ srs ∧
           cr_delivered r' = true ∧ cr_stopped_at r' = cr_stopped_at r) ∨
         ( ∃ done name rest dir1 w1 w2 sr, order = done ++ name :: rest ∧
           chain_passed dir done w srs dir1 w1 ∧ run_step dir1 name w1 = (Ok sr, w2) ∧
           on_step name sr w2 = (Ok tt, w') ∧ passed sr = false ∧
           cr_steps r' = cr_steps r ++ srs ++ [sr] ∧ cr_delivered r' = false ∧ cr_stopped_at r' = name).
Proof.
  revert dir r w. induction order as [|name order IH]; intros dir r w; cbn.
  { intros [= <- <-]. exists []. left. exists dir. split; [constructor|]. by rewrite app_nil_r. }
  destruct (run_step dir name w) as [[sr|e] w1] eqn:E1; [|done].
  destruct (on_step name sr w1) as [[[]|e] w2] eqn:E2; [|done].
  destruct (passed sr) eqn:Ep.
  - pose proof Ep as Ep'. unfold passed in Ep'. apply andb_true_iff in Ep' as [-> Eg%negb_true_iff].
    cbn. rewrite Eg. intros (srs & Hor)%IH. exists (sr :: srs). cbn in Hor.
    rewrite <- !app_assoc in Hor. setoid_rewrite <- app_assoc in Hor. destruct Hor as [H|H].
    + left. destruct H as (dir' & Hp & Hs & Hd & Ha). exists dir'. split; [by econstructor|]. done.
    + right. destruct H as (done & nm & rest & d1 & v1 & v2 & sr' & -> & Hp & Hr & Ho & Hn & Hs & Hd & Ha).
      exists (name :: done), nm, rest, d1, v1, v2, sr'. split_and!; try done. by econstructor.
  - intros Hr. exists []. right. exists [], name, order, dir, w, w1, sr.
    split; [done|]. split; [constructor|].
    unfold passed in Ep. destruct (sr_ok sr) eqn:Eo; cbn in Hr, Ep.
    + apply negb_false_iff in Ep. rewrite Ep in Hr. injection Hr as <- <-.
      split_and!; cbn; try done. unfold passed. by rewrite Eo, Ep.
    + injection Hr as <- <-. split_and!; cbn; try done. unfold passed. by rewrite Eo.
Qed.

(** C37: a chain that returns ran the steps in order, each after the one before
    it had passed; it reports delivery exactly when all of them passed, and
    otherwise stopped at the first step that failed or whose status a gate
    refused to advance, running none after it. *)
Theorem run_chain_honest `{PyRepr} contracts workspace ticket_id steps policy out_dir w r w' :
  run_chain contracts workspace ticket_id steps policy out_dir w = (Ok r, w') →
  ∃ order, (steps ≠ [] → order = steps) ∧
    (steps = [] → chain_steps contracts (u "init_in_progress") = Ok order) ∧
    (∀ p, policy = Some p → policy_matches p order workspace ticket_id = true) ∧
    ( ( ∃ dir', chain_passed (fst <$> out_dir) order w (cr_steps r) dir' w' ∧ cr_delivered r = true) ∨
      ( ∃ done name rest srs dir1 w1 w2 sr, order = done ++ name :: rest ∧
        chain_passed (fst <$> out_dir) done w srs dir1 w1 ∧ run_step dir1 name w1 = (Ok sr, w2) ∧
        on_step name sr w2 = (Ok tt, w') ∧ passed sr = false ∧
        cr_steps r = srs ++ [sr] ∧ cr_delivered r = false ∧ cr_stopped_at r = name)).
Proof.
  unfold run_chain. cbv zeta.
  destruct (_ ≫= _) as [order|e] eqn:Ec; [|done]. intros (srs & Hor)%chain_loop_spec.
  apply bind_ok in Ec as (? & _ & (order' & Ho & (? & Hp & [= ->])%bind_ok)%bind_ok).
  exists order. split; [by intros; destruct steps; [done|injection Ho as <-]|].
  split; [intros ->; done|].
  split. { intros p ->. by apply raise_if_ok, negb_false_iff in Hp. }
  cbn in Hor. destruct Hor as [H1|H1].
  - left. destruct H1 as (dir' & Hp' & -> & Hd & _). by exists dir'.
  - right. destruct H1 as (done & nm & rest & d1 & v1 & v2 & sr' & Hrest).
    by exists done, nm, rest, srs, d1, v1, v2, sr'.
Qed.
End run_chain.

(** ** A concrete chain *)
Definition sample_transition (a b : string) : pyval :=
  PyDict [(u "from", PyStr (u a)); (u "to", PyStr (u b))].

(** Two steps, with an in-progress status and a way back for a rerun. *)
Definition sample_gates : pyval := PyDict [
  (u "execution_model", PyDict [(u "step_contracts", PyDict [(u "plan", PyDict []); (u "code", PyDict [])])]);
  (u "state_machine", PyDict [
    (u "terminal_states_of_ticket", PyList [PyStr (u "completed")]);
    (u "gate_policy", PyDict [(u "step_by_target",
       PyDict [(u "plan_done", PyStr (u "plan")); (u "code_done", PyStr (u "code"))])]);
    (u "transitions", PyList [
       sample_transition "init_in_progress" "plan_done";
       sample_transition "plan_done" "code_in_progress";
       sample_transition "code_in_progress" "code_done";
       sample_transition "code_done" "code_in_progress";
       sample_transition "code_done" "completed"])])].

#[local] Instance sample_repr : PyRepr := λ _, [].

Definition sample_contracts : ContractSet :=
  Eval vm_compute in match ContractSet_new sample_gates with Ok c => c | Err _ => mkContractSet [] PyNone PyNone [] end.

Definition sample_order : list pystr := [u "plan"; u "code"].

Lemma chain_steps_spec_witness :
  chain_steps sample_contracts (u "init_in_progress") = Ok sample_order ∧
  ∃ tbl items, step_by_target (cs_sm sample_contracts) = Ok tbl ∧
    transitions (cs_sm sample_contracts) = Ok items ∧ NoDup sample_order ∧
    ∀ s, s ∈ sample_order → ∃ t, yields tbl items (u "init_in_progress") t s.
Proof.
  assert (E : chain_steps sample_contracts (u "init_in_progress") = Ok sample_order)
    by (vm_compute; reflexivity).
  split; [exact E|].
  destruct (chain_steps_spec _ _ _ E) as (terminal & Ht & _ & Hn).
  destruct Hn as (tbl & items & H1 & H2 & H3 & H4 & _).
  { vm_compute in Ht. injection Ht as <-. by_compute. }
  exists tbl, items. exact (conj H1 (conj H2 (conj H3 H4))).
Defined.

(** A step runner for which [plan] passes and a gate refuses [code]. *)
Definition sample_runner (dir : option Path) (name : pystr) (w : list pystr)
  : result StepReport * list pystr :=
  (Ok (mkStepReport name true (u "/t/1") (if name =s u "code" then u "被门禁拦截" else u "plan_done")
         [] (u "success") []), w ++ [name]).

Lemma run_chain_honest_witness :
  ∃ r, run_chain sample_runner (λ _ _ w, (Ok tt, w)) sample_contracts (Path_of_str (u "/w")) (u "T-1")
         [] None None [] = (Ok r, sample_order) ∧
    cr_delivered r = false ∧
    ∃ order, chain_steps sample_contracts (u "init_in_progress") = Ok order.
Proof.
  eexists. split; [vm_compute; reflexivity|]. split; [reflexivity|].
  edestruct (run_chain_honest sample_runner (λ _ _ w, (Ok tt, w)) sample_contracts
               (Path_of_str (u "/w")) (u "T-1") [] None None []) as (order & _ & Ho & _ & _).
  { vm_compute. reflexivity. }
  exists order. by apply Ho.
Defined.
