(* ===== verification/Utf8.v ===== *)
(** * Decoding text

    [bytes.decode("utf-8")] and [read_text]: strict decoding, the inverse of
    [encode_utf8].  [json.loads] is the operation of the class [JsonLoads]. *)

From S2P Require Import Prelude PyText PyVal Hashing.

(** [json.loads(text)], [None] for a [JSONDecodeError]. *)
Class JsonLoads := json_loads : pystr → option pyval.

(** Code points of a byte string, with no check. *)
Fixpoint utf8_points (bs : list N) : pystr :=
  match bs with
  | [] => []
  | a :: t =>
    if (a <? 192)%N then a :: utf8_points t
    else match t with
    | [] => [a]
    | b :: t2 =>
      if (a <? 224)%N then ((a - 192) * 64 + (b - 128))%N :: utf8_points t2
      else match t2 with
      | [] => [a]
      | c :: t3 =>
        if (a <? 240)%N then ((a - 224) * 4096 + (b - 128) * 64 + (c - 128))%N :: utf8_points t3
        else match t3 with
        | [] => [a]
        | d :: t4 =>
          ((a - 240) * 262144 + (b - 128) * 4096 + (c - 128) * 64 + (d - 128))%N :: utf8_points t4
        end
      end
    end
  end.

Definition is_code_point (c : N) : bool := (c <? 1114112)%N && negb (is_surrogate c).

(** A byte string decodes when it is the encoding of what it decodes to. *)
Definition utf8_decode (bs : list N) : option pystr :=
  let s := utf8_points bs in
  if bool_decide (utf8_bytes s = bs) && forallb is_code_point s then Some s else None.

Lemma utf8_points_char c bs :
  utf8_points (utf8_char c ++ bs) = c :: utf8_points bs.
Proof.
  unfold utf8_char.
  pose proof (N.div_mod c 64 ltac:(lia)) as H6. pose proof (N.mod_lt c 64 ltac:(lia)) as L6.
  pose proof (N.div_mod (c / 64) 64 ltac:(lia)) as H12. pose proof (N.mod_lt (c / 64) 64 ltac:(lia)) as L12.
  pose proof (N.div_mod (c / 4096) 64 ltac:(lia)) as H18. pose proof (N.mod_lt (c / 4096) 64 ltac:(lia)) as L18.
  rewrite (N.Div0.div_div c 64 64) in H12. rewrite (N.Div0.div_div c 4096 64) in H18.
  change (64 * 64)%N with 4096%N in H12. change (4096 * 64)%N with 262144%N in H18.
  assert (c < 2048 → c / 64 < 32)%N by (intros; apply N.Div0.div_lt_upper_bound; lia).
  assert (c < 65536 → c / 4096 < 16)%N by (intros; apply N.Div0.div_lt_upper_bound; lia).
  generalize dependent ((c / 4096) mod 64)%N. generalize dependent ((c / 64) mod 64)%N.
  generalize dependent (c mod 64)%N. generalize dependent (c / 64)%N. generalize dependent (c / 4096)%N.
  generalize dependent (c / 262144)%N. intros q3 q2 ? q1 ? m0 ? ? m1 ? ? m2 ? ?.
  destruct (N.ltb_spec c 128); [|destruct (N.ltb_spec c 2048); [|destruct (N.ltb_spec c 65536)]];
    cbn [app utf8_points].
  - destruct (N.ltb_spec c 192); [done|lia].
  - destruct (N.ltb_spec (192 + q1) 192); [lia|].
    destruct (N.ltb_spec (192 + q1) 224); [|lia]. f_equal. lia.
  - destruct (N.ltb_spec (224 + q2) 192); [lia|].
    destruct (N.ltb_spec (224 + q2) 224); [lia|].
    destruct (N.ltb_spec (224 + q2) 240); [|lia]. f_equal. lia.
  - destruct (N.ltb_spec (240 + q3) 192); [lia|].
    destruct (N.ltb_spec (240 + q3) 224); [lia|].
    destruct (N.ltb_spec (240 + q3) 240); [lia|]. f_equal. lia.
Qed.

Lemma utf8_points_bytes s : utf8_points (utf8_bytes s) = s.
Proof.
  unfold utf8_bytes. induction s as [|c s IH]; [done|].
  cbn [fmap list_fmap concat]. by rewrite utf8_points_char, IH.
Qed.
Lemma utf8_bytes_inj s s' : utf8_bytes s = utf8_bytes s' → s = s'.
Proof. intros E. by rewrite <-(utf8_points_bytes s), E, utf8_points_bytes. Qed.

(** Decoding is the inverse of encoding. *)
Lemma utf8_decode_iff bs s :
  utf8_decode bs = Some s ↔ bs = utf8_bytes s ∧ Forall (λ c, is_code_point c = true) s.
Proof.
  unfold utf8_decode. cbv zeta. split.
  - case_match eqn:E; [|done]. intros [= <-]. apply andb_true_iff in E as [E1 E2].
    rewrite bool_decide_eq_true in E1. split; [done|]. by apply forallb_Forall.
  - intros [-> Hs]. rewrite (utf8_points_bytes s).
    rewrite bool_decide_eq_true_2 by done. apply forallb_Forall in Hs. by rewrite Hs.
Qed.

(** [bytes.decode("utf-8")] *)
Definition decode_utf8 (bs : list N) : result pystr :=
  match utf8_decode bs with Some s => Ok s | None => Err (ValueError "invalid utf-8") end.
