(* ===== verification/ChainArtifacts.v ===== *)
(** * Artifacts the chain assembles ([src/src/icode/chain.py])

    [assemble_review_manifest] builds the review manifest of a ticket directory
    from the round files the model submitted; [changed_names] are the file names
    [set_code_files] reports.  A directory is its files with their bytes, [None]
    for one that cannot be read. *)

From S2P Require Import Prelude PyText PyVal Hashing Utf8 Contracts.

Abbreviation directory := (list (pystr * option (list N))).

(** [glob("review_round_*.json")], sorted. *)
Definition is_round_name (n : pystr) : bool :=
  startswith (u "review_round_") n && endswith (u ".json") n && (18 <=? length n).
Definition round_names (dir : directory) : list pystr :=
  sorted_strs (filter (λ n, is_round_name n = true) (dkeys dir)).

Section manifest.
Context `{JsonLoads}.

(** The round of one file: unreadable files and texts that are not JSON are
    passed over, bytes that are not UTF-8 raise. *)
Definition read_round (dir : directory) (name : pystr) : result (option (list (pystr * pyval))) :=
  match dget name dir with
  | Some (Some bytes) =>
    match utf8_decode bytes with
    | None => Err (ValueError "invalid utf-8")
    | Some text => Ok (match json_loads text with Some (PyDict d) => Some d | _ => None end)
    end
  | _ => Ok None
  end.

Definition read_rounds (dir : directory) : result (list (list (pystr * pyval))) :=
  rs ← mapM_res (read_round dir) (round_names dir); Ok (omap id (rs : list _)).

Record manifest_row := mkRow {
  mr_round : nat;
  mr_origin_attempt : pystr;
  mr_new_issues : nat;
  mr_refuted_issues : nat;
  mr_pending_verification : nat;
  mr_detail_path : pystr;
  mr_detail_sha256 : pystr
}.

Definition round_file (index : nat) : pystr := u "review_round_" ++ dec (N.of_nat index) ++ u ".json".

(** [len(list(raw.get(k) or []))] *)
Definition issue_count (k : string) (raw : list (pystr * pyval)) : result nat :=
  l ← py_iter_or_nil (pget (u k) raw); Ok (length l).

Definition manifest_row_of (dir : directory) (attempt : pystr) (index : nat) (raw : list (pystr * pyval))
  : result manifest_row :=
  new ← issue_count "new_issues" raw;
  refuted ← issue_count "refuted_issues" raw;
  pending ← issue_count "pending_verification" raw;
  match dget (round_file index) dir with
  | Some (Some bytes) =>
    Ok (mkRow index attempt new refuted pending (round_file index) (sha256_hex bytes))
  | _ => Err OSError
  end.

Fixpoint manifest_rows (dir : directory) (attempt : pystr) (index : nat) (rounds : list (list (pystr * pyval)))
  : result (list manifest_row) :=
  match rounds with
  | [] => Ok []
  | raw :: rounds' =>
    r ← manifest_row_of dir attempt index raw;
    rs ← manifest_rows dir attempt (S index) rounds';
    Ok (r :: rs)
  end.

Record manifest := mkManifest {
  mf_schema_version : Z;
  mf_ticket_id : pystr;
  mf_review_run : pystr;
  mf_rounds : list manifest_row
}.

(** [None]: no round was found, and nothing is written. *)
Definition assemble_review_manifest (dir : directory) (ticket_id attempt : pystr) : result (option manifest) :=
  rounds ← read_rounds dir;
  match rounds with
  | [] => Ok None
  | _ => rows ← manifest_rows dir attempt 1 rounds; Ok (Some (mkManifest 1 ticket_id attempt rows))
  end.

(** ** Which file a row describes *)
(** Row [i] counts the issues of [raw] and names and digests [bytes]. *)
Definition row_describes (row : manifest_row) (i : nat) (attempt : pystr) (bytes : list N)
    (raw : list (pystr * pyval)) : Prop :=
  mr_round row = i ∧ mr_origin_attempt row = attempt ∧ mr_detail_path row = round_file i ∧
  mr_detail_sha256 row = sha256_hex bytes ∧
  issue_count "new_issues" raw = Ok (mr_new_issues row) ∧
  issue_count "refuted_issues" raw = Ok (mr_refuted_issues row) ∧
  issue_count "pending_verification" raw = Ok (mr_pending_verification row).

Lemma manifest_rows_spec dir attempt index rounds rows :
  manifest_rows dir attempt index rounds = Ok rows →
  length rows = length rounds ∧
  ∀ k raw, rounds !! k = Some raw → ∃ row bytes, rows !! k = Some row ∧
    dget (round_file (index + k)) dir = Some (Some bytes) ∧
    row_describes row (index + k) attempt bytes raw.
Proof.
  revert index rows. induction rounds as [|raw rounds IH]; intros index rows; cbn [manifest_rows].
  { intros [= <-]. split; [done|]. by intros [|k] raw. }
  intros (row & Hr & (rs & Hrs & [= <-])%bind_ok)%bind_ok.
  destruct (IH _ _ Hrs) as [Hlen Hrow]. split; [cbn; by rewrite Hlen|].
  intros [|k] raw'; cbn.
  - intros [= <-]. rewrite Nat.add_0_r.
    apply bind_ok in Hr as (n1 & H1 & (n2 & H2 & (n3 & H3 & Hr)%bind_ok)%bind_ok).
    destruct (dget (round_file index) dir) as [[bytes|]|] eqn:Ed; try done. injection Hr as <-.
    by exists (mkRow index attempt n1 n2 n3 (round_file index) (sha256_hex bytes)), bytes.
  - intros Hk. replace (index + S k) with (S index + k) by lia. by apply Hrow.
Qed.

Lemma mapM_res_lookup {A B} (f : A → result B) l ys :
  mapM_res f l = Ok ys → length ys = length l ∧ ∀ k x, l !! k = Some x → ∃ y, ys !! k = Some y ∧ f x = Ok y.
Proof.
  revert ys. induction l as [|x l IH]; intros ys; cbn; [intros [= <-]; split; [done|by intros [|k]]|].
  intros (y & Hy & (ys' & Hl & [= <-])%bind_ok)%bind_ok.
  destruct (IH _ Hl) as [Hlen Hk]. split; [cbn; by rewrite Hlen|].
  intros [|k] x'; cbn; [intros [= <-]; by exists y|apply Hk].
Qed.

(** When the round files of the directory, in the order of their names, are
    [review_round_1.json] to [review_round_n.json] and each holds a JSON
    object, the manifest has [n] rows and row [i] counts the issues of file [i]
    and carries the digest of the same file's bytes. *)
Theorem review_manifest_rows dir ticket_id attempt n m :
  0 < n →
  round_names dir = round_file <$> seq 1 n →
  (∀ i, 1 ≤ i ≤ n → ∃ raw, read_round dir (round_file i) = Ok (Some raw)) →
  assemble_review_manifest dir ticket_id attempt = Ok m →
  ∃ rows, m = Some (mkManifest 1 ticket_id attempt rows) ∧ length rows = n ∧
    ∀ i, 1 ≤ i ≤ n → ∃ row raw bytes, rows !! (i - 1) = Some row ∧
      dget (round_file i) dir = Some (Some bytes) ∧ read_round dir (round_file i) = Ok (Some raw) ∧
      row_describes row i attempt bytes raw.
Proof.
  intros Hn Hnames Hread. unfold assemble_review_manifest, read_rounds. rewrite Hnames.
  intros (rounds & (rs & Hrs & [= <-])%bind_ok & Hm)%bind_ok.
  destruct (mapM_res_lookup _ _ _ Hrs) as [Hlen Hk].
  rewrite length_fmap, length_seq in Hlen.
  assert (Hall : ∀ k r, rs !! k = Some r → ∃ raw, r = Some raw ∧ read_round dir (round_file (1 + k)) = Ok (Some raw)).
  { intros k r Hr. pose proof (lookup_lt_Some _ _ _ Hr) as Hlt.
    assert (Hf : (round_file <$> seq 1 n) !! k = Some (round_file (1 + k)))
      by (rewrite list_lookup_fmap, lookup_seq_lt; [done|lia]).
    destruct (Hk _ _ Hf) as (y & Hy & Hrd). rewrite Hr in Hy. injection Hy as <-.
    destruct (Hread (1 + k)) as (raw & Hraw); [lia|]. exists raw. rewrite Hraw in Hrd.
    injection Hrd as <-. done. }
  assert (Hom : ∃ raws, rs = Some <$> raws ∧ omap id rs = raws).
  { clear Hrs Hk Hm Hlen. revert Hall. generalize 1. induction rs as [|r rs IH]; intros j Hall; [by exists []|].
    destruct (Hall 0 r eq_refl) as (raw & -> & _).
    destruct (IH (S j)) as (raws & -> & Ho).
    { intros k r' Hr'. destruct (Hall (S k) r' Hr') as (raw' & ? & ?). exists raw'.
      replace (S j + k) with (j + S k) by lia. done. }
    exists (raw :: raws). split; [done|]. cbn. by rewrite Ho. }
  destruct Hom as (raws & -> & Ho). rewrite Ho in Hm. rewrite length_fmap in Hlen.
  destruct raws as [|raw0 raws]; [cbn in Hlen; lia|].
  apply bind_ok in Hm as (rows & Hrows & [= <-]). exists rows. split; [done|].
  destruct (manifest_rows_spec _ _ _ _ _ Hrows) as [Hl Hrow]. split; [by rewrite Hl|].
  intros i Hi. destruct (lookup_lt_is_Some_2 (raw0 :: raws) (i - 1)) as [raw Hraw]; [lia|].
  destruct (Hrow _ _ Hraw) as (row & bytes & H1 & H2 & H3).
  replace (1 + (i - 1)) with i in * by lia. exists row, raw, bytes. split_and!; try done.
  destruct (Hall (i - 1) (Some raw)) as (raw' & [= <-] & Hrd).
  { by rewrite list_lookup_fmap, Hraw. }
  by replace (1 + (i - 1)) with i in Hrd by lia.
Qed.
End manifest.

(** ** Changed files *)
(** [sorted(n for n in set(before) | set(after) if before.get(n) != after.get(n))],
    the snapshots mapping names to digests. *)
Definition changed_names (before after : list (pystr * pystr)) : list pystr :=
  filter (λ n, dget n before ≠ dget n after) (sorted_set id (dkeys before ++ dkeys after)).

(** The reported names are sorted, without repetition, and exactly those
    whose content was added, removed or changed. *)
Theorem changed_names_iff before after :
  StronglySorted (key_lt id) (changed_names before after) ∧
  ∀ n, n ∈ changed_names before after ↔ dget n before ≠ dget n after.
Proof.
  unfold changed_names. split.
  - assert (Hs : StronglySorted (key_lt id) (sorted_set id (dkeys before ++ dkeys after)))
      by (by apply sorted_set_sorted).
    induction Hs as [|x l _ IH Hx]; [apply SSorted_nil|].
    rewrite filter_cons. case_decide; [|done]. constructor; [done|].
    rewrite Forall_forall in *. intros y [_ Hy]%list_elem_of_filter. auto.
  - intros n. rewrite list_elem_of_filter, elem_sorted_set, elem_of_app. split; [naive_solver|].
    intros Hne. split; [done|].
    destruct (decide (n ∈ dkeys before)) as [|E1]; [by left|].
    destruct (decide (n ∈ dkeys after)) as [|E2]; [by right|].
    apply dget_None in E1, E2. congruence.
Qed.

(** ** Witnesses *)
Definition sample_round : list (pystr * pyval) :=
  [(u "round", PyInt 1); (u "new_issues", PyList [PyStr (u "a"); PyStr (u "b")]);
   (u "refuted_issues", PyList []); (u "pending_verification", PyList [PyStr (u "c")])].
Definition sample_round_2 : list (pystr * pyval) := [(u "new_issues", PyList [PyStr (u "x")])].

#[local] Instance sample_loads : JsonLoads := λ text,
  if text =s u "A" then Some (PyDict sample_round)
  else if text =s u "B" then Some (PyDict sample_round_2) else None.

Definition sample_dir : directory :=
  [(u "02_review.md", Some (u "x")); (u "review_round_2.json", Some (u "B")); (u "review_round_1.json", Some (u "A"))].

Definition sample_manifest : option manifest :=
  Eval vm_compute in match assemble_review_manifest sample_dir (u "T-1") (u "a1") with Ok m => m | Err _ => None end.

Lemma review_manifest_rows_witness :
  assemble_review_manifest sample_dir (u "T-1") (u "a1") = Ok sample_manifest ∧
  ∃ rows, sample_manifest = Some (mkManifest 1 (u "T-1") (u "a1") rows) ∧ length rows = 2.
Proof.
  assert (E : assemble_review_manifest sample_dir (u "T-1") (u "a1") = Ok sample_manifest)
    by (vm_compute; reflexivity).
  split; [exact E|].
  destruct (review_manifest_rows sample_dir (u "T-1") (u "a1") 2 sample_manifest) as (rows & H1 & H2 & _).
  - lia.
  - vm_compute. reflexivity.
  - intros i Hi. assert (Hor : i = 1 ∨ i = 2) by lia. destruct Hor as [-> | ->]; eexists; vm_compute; reflexivity.
  - exact E.
  - exists rows. split; [exact H1|exact H2].
Defined.

(** With ten rounds the names sort as 1, 10, 2, ...: the second row counts the
    issues of [review_round_10.json] but names and digests
    [review_round_2.json]. *)
Definition ten_rounds : directory :=
  (λ i, (round_file i, Some (if i =? 10 then u "B" else u "A"))) <$> seq 1 10.

Example tenth_round_misattributed :
  match assemble_review_manifest ten_rounds (u "T-1") (u "a1") with
  | Ok (Some m) => match mf_rounds m !! 1 with
                   | Some row => (mr_detail_path row, mr_new_issues row) = (u "review_round_2.json", 1)
                   | None => False
                   end
  | _ => False
  end ∧
  (issue_count "new_issues" sample_round = Ok 2 ∧ json_loads (u "A") = Some (PyDict sample_round)).
Proof. vm_compute. done. Qed.
