(* ===== verification/Tools.v ===== *)
(** * Tools and their registry ([src/src/icode/tools/base.py])

    Tool results and their clipping, denial receipts, and the registry that
    calls a tool's handler and turns every exception into a result.  Handlers
    are arguments: functions from the call's arguments and the state of the
    outside world.  [type(e).__name__] and [str(e)] are the operation of the
    class [ExnText]. *)

From S2P Require Import Prelude PyText PyVal.

Class ExnText := { exn_name : exn → pystr; exn_text : exn → pystr }.

Definition DEFAULT_OUTPUT_LIMIT : Z := 8000.
Definition OPCLASS_READ_ONLY : pystr := u "read_only".
Definition OPCLASS_MANAGED_WRITE : pystr := u "managed_write".
Definition OPCLASS_EXTERNAL : pystr := u "external_side_effect".
Definition OPCLASS_DESTRUCTIVE : pystr := u "destructive_hardware".
Definition _POLICY_DENIAL_ERRORS : list pystr := [u "read_denied"; u "write_denied"].
Definition _APPLICATION_POLICY_DENIAL_CATEGORIES : list pystr := _POLICY_DENIAL_ERRORS ++ [u "guard_denied"].
Definition POLICY_DENIED_USER_MESSAGE : pystr := u "此操作超出当前任务范围，已阻止。".

(** ** Denial receipts *)
(** [c.isascii() and (c.isalnum() or c == "_")]: on ASCII, [isalnum] is the
    letters and digits. *)
Definition token_start (c : N) : bool := is_ascii c && (is_alnum_ascii c || (c =? 95)%N).
Definition token_rest (c : N) : bool :=
  is_ascii c && (is_alnum_ascii c || (c =? 95)%N || (c =? 46)%N || (c =? 45)%N).

(** Names out of this form are replaced by [other]. *)
Definition safe_operation (operation : pystr) : bool :=
  match operation with
  | [] => false
  | c :: rest => (length operation <=? 64) && token_start c && forallb token_rest rest
  end.

Definition application_policy_violation_receipt (operation category : pystr) : result dict :=
  if negb (category ∈s _APPLICATION_POLICY_DENIAL_CATEGORIES)
  then Err (ValueError "unsupported application policy denial category")
  else Ok [(u "schema_version", PyInt 1);
           (u "enforcement_layer", PyStr (u "application_policy"));
           (u "os_enforced", PyBool false);
           (u "category", PyStr category);
           (u "operation", PyStr (if safe_operation operation then operation else u "other"))].

(** ** Results *)
Record ToolResult := mkToolResult {
  tr_ok : bool;
  tr_content : pystr;
  tr_meta : dict;
  tr_opclass : pystr
}.

(** [content[:limit // 2]] and [content[-limit // 2:]], for a limit that is not
    negative. *)
Definition clipped (limit : Z) (r : ToolResult) : pystr :=
  let content := tr_content r in
  let n := Z.of_nat (length content) in
  if (n <=? limit)%Z then content
  else
    take (Z.to_nat (limit / 2)) content
    ++ [newline] ++ u "…（输出过长已截断 " ++ dec_z (n - limit) ++ u " 字符）…" ++ [newline]
    ++ slice_last (- ((- limit) / 2)) content.

(** ** Tools *)
Section tools.
Context {W : Type}.

Record Tool := mkTool {
  tool_name : pystr;
  tool_description : pystr;
  tool_parameters : pyval;
  tool_handler : dict → W → result ToolResult * W;
  tool_opclass : pystr
}.

Definition schema (t : Tool) : pyval :=
  PyDict [(u "type", PyStr (u "function"));
          (u "function", PyDict [(u "name", PyStr (tool_name t));
                                 (u "description", PyStr (tool_description t));
                                 (u "parameters", tool_parameters t)])].

Abbreviation registry := (list (pystr * Tool)).

Definition register (t : Tool) (r : registry) : result registry :=
  _ ← raise_if (dhas (tool_name t) r) (ValueError "tool name");
  Ok (dset (tool_name t) t r).

Definition get (name : pystr) (r : registry) : option Tool := dget name r.
Definition names (r : registry) : list pystr := dkeys r.
Definition schemas (allow : option (list pystr)) (r : registry) : list pyval :=
  omap (λ n, schema <$> dget n r) (default (names r) allow).

Context `{ExnText, PyRepr}.

(** The rewriting of a denial, inside the [try]: an unhashable [error] raises. *)
Definition denial_result (name : pystr) (res : ToolResult) : result ToolResult :=
  if tr_ok res then Ok res
  else
    denied ← in_set (pget (u "error") (tr_meta res)) _POLICY_DENIAL_ERRORS;
    match denied with
    | true =>
      receipt ← application_policy_violation_receipt name (py_str (pget (u "error") (tr_meta res)));
      Ok (mkToolResult false POLICY_DENIED_USER_MESSAGE
            (dset (u "violation_receipt") (PyDict receipt)
               (dset (u "error_code") (PyStr (u "policy_denied")) (tr_meta res)))
            (tr_opclass res))
    | false => Ok res
    end.

(** The two [except] clauses. *)
Definition failure_result (t : Tool) (e : exn) : ToolResult :=
  match e with
  | TypeError _ =>
    mkToolResult false (u "工具参数不合法：" ++ exn_text e) [(u "error", PyStr (u "bad_arguments"))] (tool_opclass t)
  | _ =>
    mkToolResult false (exn_name e ++ u ": " ++ exn_text e)
      [(u "error", PyStr (u "tool_exception"))] (tool_opclass t)
  end.

Definition invoke (r : registry) (name : pystr) (arguments : dict) (w : W) : ToolResult * W :=
  match dget name r with
  | None =>
    (mkToolResult false (u "未知工具：" ++ name ++ u "。可用：" ++ join (u ", ") (names r))
       [(u "error", PyStr (u "unknown_tool"))] OPCLASS_READ_ONLY, w)
  | Some t =>
    let '(res, w') := tool_handler t arguments w in
    (match res ≫= denial_result name with Ok res' => res' | Err e => failure_result t e end, w')
  end.

(** ** Properties *)
(** A result that reports a policy denial is in the one form the user sees. *)
Definition normal_denial (name : pystr) (res : ToolResult) : Prop :=
  ∃ category meta, category ∈ _POLICY_DENIAL_ERRORS ∧ tr_ok res = false ∧
    tr_content res = POLICY_DENIED_USER_MESSAGE ∧
    application_policy_violation_receipt name category = Ok meta ∧
    pget (u "error") (tr_meta res) = PyStr category ∧
    pget (u "error_code") (tr_meta res) = PyStr (u "policy_denied") ∧
    pget (u "violation_receipt") (tr_meta res) = PyDict meta.

Lemma denial_result_cases name res res' :
  denial_result name res = Ok res' →
  (res' = res ∧ (tr_ok res = true ∨ str_in (pget (u "error") (tr_meta res)) _POLICY_DENIAL_ERRORS = false))
  ∨ normal_denial name res'.
Proof.
  unfold denial_result. destruct (tr_ok res) eqn:Eo; [intros [= <-]; auto|].
  unfold in_set. destruct (unhashable _); cbn [mbind result_bind]; [done|].
  destruct (str_in _ _) eqn:Es; [|intros [= <-]; auto].
  apply str_in_iff in Es as (s & Es & Hs). rewrite Es. cbn [py_str].
  intros (receipt & Hr & [= <-])%bind_ok. right. exists s, receipt. cbn.
  split_and!; try done.
  - rewrite !pget_dset_ne by by_compute. done.
  - rewrite pget_dset_ne by by_compute. apply pget_dset_eq.
  - apply pget_dset_eq.
Qed.

(** A registry call always gives a result: that of the handler unchanged,
    a denial in the one normal form, or a failure carrying [unknown_tool],
    [bad_arguments] or [tool_exception]; a result with the error of a policy
    denial is in the normal form. *)
Theorem invoke_spec r name arguments w :
  let '(res, w') := invoke r name arguments w in
  (dget name r = None → w' = w ∧ tr_ok res = false ∧ pget (u "error") (tr_meta res) = PyStr (u "unknown_tool")) ∧
  (∀ t, dget name r = Some t →
     w' = (tool_handler t arguments w).2 ∧
     ( (tool_handler t arguments w).1 = Ok res ∨ normal_denial name res ∨
       (tr_ok res = false ∧ tr_opclass res = tool_opclass t ∧
        (pget (u "error") (tr_meta res) = PyStr (u "bad_arguments") ∨
         pget (u "error") (tr_meta res) = PyStr (u "tool_exception"))))) ∧
  (tr_ok res = false → str_in (pget (u "error") (tr_meta res)) _POLICY_DENIAL_ERRORS = true →
   normal_denial name res).
Proof.
  unfold invoke. destruct (dget name r) as [t|] eqn:Et.
  2: { split; [done|]. split; [done|]. cbn. intros _. by vm_compute. }
  destruct (tool_handler t arguments w) as [res w'] eqn:Eh.
  destruct (res ≫= denial_result name) as [res'|e] eqn:Er.
  - apply bind_ok in Er as (res0 & -> & Hd). apply denial_result_cases in Hd as Hc.
    split; [done|]. split.
    + intros t' [= <-]. rewrite Eh. cbn. split; [done|].
      destruct Hc as [[-> _]|Hn]; [by left|by right; left].
    + destruct Hc as [[-> [Ho|Hs]]|Hn]; [congruence|congruence|done].
  - split; [done|]. split.
    + intros t' [= <-]. rewrite Eh. split; [done|]. right. right.
      unfold failure_result. destruct e; cbn; auto.
    + unfold failure_result. destruct e; cbn; intros _; by vm_compute.
Qed.

(** A clipped text that is not longer than the limit is the content; a clipped
    result that equals its content hides nothing. *)
Lemma clipped_short limit r :
  (Z.of_nat (length (tr_content r)) ≤ limit)%Z → clipped limit r = tr_content r.
Proof. intros. unfold clipped. by destruct (Z.leb_spec (Z.of_nat (length (tr_content r))) limit); [|lia]. Qed.
End tools.
Arguments Tool W : clear implicits.

(** The operation a receipt names is a safe token of at most 64 ASCII
    characters, whatever the tool is called, and the receipt never claims that
    the operating system enforced the denial. *)
Theorem violation_receipt_safe operation category d :
  application_policy_violation_receipt operation category = Ok d →
  category ∈ _APPLICATION_POLICY_DENIAL_CATEGORIES ∧
  pget (u "os_enforced") d = PyBool false ∧ pget (u "category") d = PyStr category ∧
  ∃ op, pget (u "operation") d = PyStr op ∧ safe_operation op = true ∧
    (safe_operation operation = true → op = operation).
Proof.
  unfold application_policy_violation_receipt. case_bool_decide as E; cbn [negb]; [|done].
  intros [= <-]. split; [done|]. split; [reflexivity|]. split; [reflexivity|].
  exists (if safe_operation operation then operation else u "other"). split; [reflexivity|].
  destruct (safe_operation operation) eqn:Es; done.
Qed.

Lemma violation_receipt_safe_witness :
  ∃ d, application_policy_violation_receipt (u "../evil tool") (u "guard_denied") = Ok d ∧
    pget (u "os_enforced") d = PyBool false ∧
    ∃ op, pget (u "operation") d = PyStr op ∧ safe_operation op = true.
Proof.
  eexists. split; [vm_compute; reflexivity|].
  edestruct (violation_receipt_safe (u "../evil tool") (u "guard_denied")) as (_ & H1 & _ & op & H2 & H3 & _).
  { vm_compute. reflexivity. }
  split; [exact H1|]. exists op. split; [exact H2|exact H3].
Defined.
