(* ===== verification/Operations.v ===== *)
(** * Approvals and operation receipts
    ([src/src/icode/approvals.py], [control.py], [operations.py])

    The human decision on a tool call, the command line of the control plane's
    operation receipts, and the recorder that decides whether a side effect may
    be executed.  The control plane is an external process: [control_process]
    gives its exit code and standard output for an argument list. *)

From S2P Require Import Prelude PyText PyVal Hashing Utf8.

(** ** Approvals *)
Record ApprovalRequest := mkApprovalRequest {
  ap_tool : pystr;
  ap_arguments : dict;
  ap_reason : pystr;
  ap_opclass : pystr;
  ap_workspace : pystr
}.

Definition AFFIRMATIVE : list pystr := [u "y"; u "yes"; u "是"; u "允许"; u "ok"].

(** [DenyAllApprover.ask] *)
Definition deny_all_ask (r : ApprovalRequest) : bool := false.

(** [CliApprover.ask]; [None] for the end of the input or an interrupt. *)
Definition cli_ask (answer : option pystr) : bool :=
  match answer with Some a => lower (strip a) ∈s AFFIRMATIVE | None => false end.

Record ScriptedApprover := mkScripted {
  sa_answers : list bool;
  sa_default : bool;
  sa_seen : list ApprovalRequest
}.
Definition scripted_ask (a : ScriptedApprover) (r : ApprovalRequest) : bool * ScriptedApprover :=
  let seen := sa_seen a ++ [r] in
  match sa_answers a with
  | [] => (sa_default a, mkScripted [] (sa_default a) seen)
  | b :: rest => (b, mkScripted rest (sa_default a) seen)
  end.

(** ** Request keys *)
(** [attempt or "-"] *)
Definition or_dash (o : option pystr) : pystr := match o with Some (c :: s) => c :: s | _ => u "-" end.

Definition request_parts (ticket_id action : pystr) (attempt boundary : option pystr) (occurrence : Z) : list pystr :=
  [ticket_id; action; or_dash attempt; or_dash boundary; dec_z occurrence].

Definition make_request (ticket_id action : pystr) (attempt boundary : option pystr) (occurrence : Z)
  : result pystr :=
  bytes ← encode_utf8 (join (u "|") (request_parts ticket_id action attempt boundary occurrence));
  Ok (action ++ u "-" ++ take 16 (sha256_hex bytes)).

(** ** The control plane *)
Record ControlResult := mkControlResult { ct_args : list pystr; ct_returncode : Z; ct_data : dict }.

Definition is_true (v : pyval) : bool := match v with PyBool true => true | _ => false end.
Definition control_ok (r : ControlResult) : bool :=
  (ct_returncode r =? 0)%Z && py_truth (pget_or (u "ok") (PyBool true) (ct_data r)).

Section control.
Context {W : Type} `{JsonLoads, PyRepr}.
(** Running the control script: it may be missing or time out. *)
Context (control_process : list pystr → W → result (Z * pystr) * W).

(** The JSON object on the standard output. *)
Definition output_data (stdout : pystr) : dict :=
  let text := strip stdout in
  if text =s [] then []
  else match json_loads text with
  | Some (PyDict d) => d
  | Some v => [(u "value", v)]
  | None => [(u "raw", PyStr text)]
  end.

Definition control_run (check : bool) (args : list pystr) (w : W) : result ControlResult * W :=
  match control_process args w with
  | (Err e, w') => (Err e, w')
  | (Ok (code, stdout), w') =>
    let r := mkControlResult args code (output_data stdout) in
    if check && negb (control_ok r) then (Err ControlError, w') else (Ok r, w')
  end.

Definition operation_start (out_dir name opclass input_desc request : pystr) (w : W) : result ControlResult * W :=
  control_run false
    [u "operation"; u "--dir"; out_dir; u "--phase"; u "start"; u "--name"; name; u "--opclass"; opclass;
     u "--input"; input_desc; u "--request"; request] w.

Definition operation_finish (out_dir attempt outcome evidence check_ref : pystr) (failure : option pystr) (w : W)
  : result ControlResult * W :=
  control_run false
    ([u "operation"; u "--dir"; out_dir; u "--phase"; u "finish"; u "--attempt"; attempt; u "--outcome"; outcome;
      u "--evidence"; evidence; u "--check"; check_ref]
     ++ match failure with Some (c :: f) => [u "--failure"; c :: f] | _ => [] end) w.

(** ** The recorder *)
Record StartedOperation := mkStarted {
  so_name : pystr;
  so_opclass : pystr;
  so_attempt : option pystr;
  so_ok : bool;
  so_ambiguous : bool;
  so_detail : pystr;
  so_already_applied : bool
}.

Definition can_execute (s : StartedOperation) : bool :=
  so_ok s && negb (so_ambiguous s)
  && match so_attempt s with Some (_ :: _) => true | _ => false end
  && negb (so_already_applied s).

Record OperationRecorder := mkRecorder {
  or_out_dir : pystr;
  or_ticket_id : pystr;
  or_scope : pystr;
  or_counters : list (pystr * Z)
}.

Definition _next_occurrence (name : pystr) (r : OperationRecorder) : Z * OperationRecorder :=
  let n := (match dget name (or_counters r) with Some k => k | None => 0 end + 1)%Z in
  (n, mkRecorder (or_out_dir r) (or_ticket_id r) (or_scope r) (dset name n (or_counters r))).

Definition is_ambiguous (d : dict) : bool :=
  py_truth (pget (u "ambiguous_side_effect") d)
  || is_lit (pget (u "gate_id") d) (u "ambiguous_side_effect")
  || contains (u "ambiguous_side_effect") (py_str (pget_or (u "error") (PyStr []) d)).

(** [str(a or b or "")] *)
Definition first_text (a b : pyval) : pystr :=
  if py_truth a then py_str a else if py_truth b then py_str b else [].

(** The receipt the answer of the control plane amounts to. *)
Definition started_of (name opclass : pystr) (res : ControlResult) : StartedOperation :=
  let d := ct_data res in
  let attempt := pget (u "attempt") d in
  let ok := (ct_returncode res =? 0)%Z && is_true (pget (u "ok") d) in
  let detail := take 300 (first_text (pget (u "error") d) (pget (u "message") d)) in
  let attempt' := if py_truth attempt then Some (py_str attempt) else None in
  match pget_or (u "already_applied") (PyBool false) d with
  | PyBool b => mkStarted name opclass attempt' ok (is_ambiguous d) detail b
  | _ => mkStarted name opclass attempt' false (is_ambiguous d)
           (u "operation_start_protocol_invalid: already_applied 必须是 bool") false
  end.

(** The occurrence is advanced twice: for the unused argument, then for the
    request key. *)
Definition start_action (r : OperationRecorder) (name : pystr) : pystr :=
  if or_scope r =s [] then u "op-" ++ name ++ u "-start"
  else u "op-" ++ or_scope r ++ u "-" ++ name ++ u "-start".
Definition start (r : OperationRecorder) (name opclass input_desc : pystr) (w : W)
  : result StartedOperation * OperationRecorder * W :=
  let '(_, r1) := _next_occurrence name r in
  let '(occurrence, r2) := _next_occurrence name r1 in
  match make_request (or_ticket_id r) (start_action r name) None None occurrence with
  | Err e => (Err e, r2, w)
  | Ok request =>
    match operation_start (or_out_dir r) name opclass input_desc request w with
    | (Err e, w') => (Err e, r2, w')
    | (Ok res, w') => (Ok (started_of name opclass res), r2, w')
    end
  end.

Definition finish (r : OperationRecorder) (attempt outcome evidence check_ref : pystr) (failure : option pystr) (w : W)
  : result bool * W :=
  match operation_finish (or_out_dir r) attempt outcome (take 120 evidence) (take 200 check_ref) failure w with
  | (Err e, w') => (Err e, w')
  | (Ok res, w') => (Ok ((ct_returncode res =? 0)%Z && is_true (pget (u "ok") (ct_data res))), w')
  end.

(** ** Properties *)
(** A side effect may be executed exactly when the control plane exited
    with 0 and answered [ok: true] and a nonempty attempt, without any of the
    three marks of an ambiguous side effect and without saying, or failing to
    say in a boolean, that the operation had been applied before. *)
Theorem can_execute_iff name opclass res :
  can_execute (started_of name opclass res) = true ↔
  ct_returncode res = 0%Z ∧ pget (u "ok") (ct_data res) = PyBool true ∧
  pget_or (u "already_applied") (PyBool false) (ct_data res) = PyBool false ∧
  py_truth (pget (u "attempt") (ct_data res)) = true ∧ py_str (pget (u "attempt") (ct_data res)) ≠ [] ∧
  py_truth (pget (u "ambiguous_side_effect") (ct_data res)) = false ∧
  pget (u "gate_id") (ct_data res) ≠ PyStr (u "ambiguous_side_effect") ∧
  contains (u "ambiguous_side_effect") (py_str (pget_or (u "error") (PyStr []) (ct_data res))) = false.
Proof.
  unfold started_of, can_execute, is_ambiguous. cbv zeta.
  set (d := ct_data res). set (att := pget (u "attempt") d).
  assert (Hok : is_true (pget (u "ok") d) = true ↔ pget (u "ok") d = PyBool true)
    by (destruct (pget (u "ok") d) as [|[]| | | | | | |]; cbn; split; congruence).
  assert (Hg : is_lit (pget (u "gate_id") d) (u "ambiguous_side_effect") = false ↔
               pget (u "gate_id") d ≠ PyStr (u "ambiguous_side_effect"))
    by (rewrite <- is_lit_iff; by destruct (is_lit _ _)).
  assert (Ha : match (if py_truth att then Some (py_str att) else None) with Some (_ :: _) => true | _ => false end = true
               ↔ py_truth att = true ∧ py_str att ≠ []).
  { destruct (py_truth att); [destruct (py_str att)|]; split; try done; by intros []. }
  clearbody d att.
  destruct (pget_or (u "already_applied") (PyBool false) d) as [|[]| | | | | | |];
    cbn [so_ok so_ambiguous so_attempt so_already_applied negb andb]; rewrite ?andb_false_r.
  3: { rewrite !andb_true_iff, Ha, negb_true_iff, !orb_false_iff, Z.eqb_eq, Hok, Hg.
       tauto. }
  all: split; [discriminate|intros (_ & _ & Hx & _); discriminate].
Qed.
End control.

(** The key joins its parts with a character they may contain, so different
    actions can share one: here two attempts with different boundaries. *)
Example request_key_collision :
  make_request (u "T-1") (u "record-verification") (Some (u "a|b")) (Some (u "c")) 1
  = make_request (u "T-1") (u "record-verification") (Some (u "a")) (Some (u "b|c")) 1.
Proof. reflexivity. Qed.
