(* ===== verification/Budget.v ===== *)
(** * Usage and budgets ([src/src/icode/budget.py], [backends/openai_compatible.py])

    The usage counters a run accumulates and the verdict on a budget.  Token
    counts are unbounded integers; the ratio is Python's correctly rounded
    quotient of two integers, a binary64 float. *)

From Stdlib Require Import SpecFloat.
From S2P Require Import Prelude PyText PyVal.

Record Usage := mkUsage {
  us_prompt_tokens : Z;
  us_completion_tokens : Z;
  us_total_tokens : Z;
  us_cached_tokens : Z;
  us_reasoning_tokens : Z;
  us_calls : Z;
  us_retries : Z;
  us_latency_ms : Z;
  us_cost_usd : option spec_float
}.

Definition merge (a b : Usage) : Usage :=
  mkUsage (us_prompt_tokens a + us_prompt_tokens b)
          (us_completion_tokens a + us_completion_tokens b)
          (us_total_tokens a + us_total_tokens b)
          (us_cached_tokens a + us_cached_tokens b)
          (us_reasoning_tokens a + us_reasoning_tokens b)
          (us_calls a + us_calls b)
          (us_retries a + us_retries b)
          (us_latency_ms a + us_latency_ms b)
          match us_cost_usd a, us_cost_usd b with
          | Some x, Some y => Some (SFadd 53 1024 x y)
          | _, _ => None
          end.

Record Budget := mkBudget { bu_expected_tokens : Z; bu_hard_ratio : spec_float }.

(** [3.0] and [1.0] *)
Definition three : spec_float := S754_finite false 6755399441055744 (-51).
Definition one : spec_float := S754_finite false 4503599627370496 (-52).
Definition default_budget : Budget := mkBudget 0 three.

Definition float_of_Z (z : Z) : spec_float :=
  match z with Z0 => S754_zero false | Zpos p => S754_finite false p 0 | Zneg p => S754_finite true p 0 end.

(** [a / b] for integers, [b > 0]: the exact quotient, rounded once; a quotient
    beyond the floats raises. *)
Definition int_truediv (a b : Z) : result spec_float :=
  match SFdiv 53 1024 (float_of_Z a) (float_of_Z b) with
  | S754_infinity _ => Err (OverflowError "integer division result too large for a float")
  | f => Ok f
  end.

Definition verdict (b : Budget) (usage : Usage) : result pystr :=
  if (bu_expected_tokens b <=? 0)%Z then Ok (u "observe_only")
  else
    ratio ← int_truediv (us_total_tokens usage) (bu_expected_tokens b);
    Ok (if SFltb (bu_hard_ratio b) ratio then u "over_budget"
        else if SFltb one ratio then u "above_expected"
        else u "within_budget").

(** [BudgetTracker]: the budget and the usage so far. *)
Record BudgetTracker := mkTracker { bt_budget : Budget; bt_usage : Usage }.
Definition BudgetTracker_new (b : Budget) : BudgetTracker := mkTracker b (mkUsage 0 0 0 0 0 0 0 0 None).
Definition record (t : BudgetTracker) (usage : Usage) : BudgetTracker :=
  mkTracker (bt_budget t) (merge (bt_usage t) usage).
Definition tracker_verdict (t : BudgetTracker) : result pystr := verdict (bt_budget t) (bt_usage t).

Example verdicts :
  verdict (mkBudget 100 three) (mkUsage 0 0 300 0 0 1 0 0 None) = Ok (u "above_expected") ∧
  verdict (mkBudget 100 three) (mkUsage 0 0 301 0 0 1 0 0 None) = Ok (u "over_budget") ∧
  verdict (mkBudget 3 three) (mkUsage 0 0 3 0 0 1 0 0 None) = Ok (u "within_budget").
Proof. vm_compute. done. Qed.

(** ** Properties *)
Definition zsum (l : list Z) : Z := foldr Z.add 0%Z l.

Lemma record_all_spec us t :
  let t' := foldl record t us in
  bt_budget t' = bt_budget t ∧
  us_total_tokens (bt_usage t') = (us_total_tokens (bt_usage t) + zsum (us_total_tokens <$> us))%Z ∧
  us_calls (bt_usage t') = (us_calls (bt_usage t) + zsum (us_calls <$> us))%Z ∧
  (us_cost_usd (bt_usage t) = None → us_cost_usd (bt_usage t') = None).
Proof.
  revert t. induction us as [|x us IH]; intros t; [cbn; split_and!; try done; lia|]. cbn [foldl].
  destruct (IH (record t x)) as (H1 & H2 & H3 & H4). cbv zeta in *. rewrite H1, H2, H3.
  rewrite !fmap_cons. unfold zsum. cbn [foldr]. fold zsum.
  split_and!; [done|unfold record, merge; cbn [bt_usage us_total_tokens]; lia|
    unfold record, merge; cbn [bt_usage us_calls]; lia|].
  intros Hn. apply H4. unfold record, merge. cbn [bt_usage us_cost_usd]. by rewrite Hn.
Qed.

(** A tracker keeps its budget and counts every recorded call and token;
    its cost stays unknown even when the cost of every call is known, because
    the usage it starts from has none. *)
Theorem tracker_totals b us :
  let t := foldl record (BudgetTracker_new b) us in
  bt_budget t = b ∧
  us_total_tokens (bt_usage t) = zsum (us_total_tokens <$> us) ∧
  us_calls (bt_usage t) = zsum (us_calls <$> us) ∧
  us_cost_usd (bt_usage t) = None.
Proof.
  intros t. destruct (record_all_spec us (BudgetTracker_new b)) as (H1 & H2 & H3 & H4).
  split; [exact H1|]. split; [exact H2|]. split; [exact H3|]. by apply H4.
Qed.
