(* ===== verification/ReadCoverage.v ===== *)
(** * Complete reading of files ([src/src/icode/loop.py], [runner.py])

    A reviewer must have read every changed file completely, in any number of
    calls of [read_file].  Two independent checks accumulate the line spans the
    calls report and sweep them in order: [_record_complete_read_file] during
    the loop, and [_reviewer_read_all_changed_files] on its transcript. *)

From S2P Require Import Prelude PyText PyVal Paths Regex Guard Tools.

Abbreviation span := (Z * Z)%type.

(** [sorted(spans)]: tuples compare lexicographically. *)
Definition span_le (a b : span) : bool := (a.1 <? b.1)%Z || ((a.1 =? b.1)%Z && (a.2 <=? b.2)%Z).
Fixpoint span_insert (x : span) (l : list span) : list span :=
  match l with
  | [] => [x]
  | y :: l' => if span_le x y then x :: l else y :: span_insert x l'
  end.
Definition sorted_spans (l : list span) : list span := foldr span_insert [] l.

(** The two sweeps: the first line not covered yet.  The loop gives up at a gap
    ([None]); the transcript check stops there. *)
Fixpoint loop_sweep (next : Z) (l : list span) : option Z :=
  match l with
  | [] => Some next
  | (s, e) :: l' =>
    if (e <? next)%Z then loop_sweep next l'
    else if (next <? s)%Z then None
    else loop_sweep (Z.max next (e + 1)) l'
  end.
Fixpoint check_sweep (next : Z) (l : list span) : Z :=
  match l with
  | [] => next
  | (s, e) :: l' =>
    if (e <? next)%Z then check_sweep next l'
    else if (next <? s)%Z then next
    else check_sweep (Z.max next (e + 1)) l'
  end.

(** Every line of [1..total] is in a span. *)
Definition covers (total : Z) (l : list span) : Prop :=
  ∀ i, (1 ≤ i ≤ total)%Z → ∃ s e, (s, e) ∈ l ∧ (s ≤ i ≤ e)%Z.

(** ** The sweeps decide coverage *)
Definition span_lt_from (l : list span) : Prop :=
  ∀ x l1 l2, l = l1 ++ x :: l2 → ∀ y, y ∈ l2 → (x.1 ≤ y.1)%Z.

Inductive by_start : list span → Prop :=
  | by_start_nil : by_start []
  | by_start_cons x l : (∀ y, y ∈ l → (x.1 ≤ y.1)%Z) → by_start l → by_start (x :: l).

Lemma elem_span_insert x y l : y ∈ span_insert x l ↔ y = x ∨ y ∈ l.
Proof. induction l as [|z l IH]; cbn; [set_solver|]. case_match; set_solver. Qed.

Lemma elem_sorted_spans y l : y ∈ sorted_spans l ↔ y ∈ l.
Proof.
  induction l as [|x l IH]; [done|]. unfold sorted_spans in *. cbn. rewrite elem_span_insert. set_solver.
Qed.

Lemma sorted_by_start l : by_start (sorted_spans l).
Proof.
  induction l as [|x l IH]; [constructor|]. unfold sorted_spans in *. cbn.
  generalize dependent (foldr span_insert [] l). clear l. intros l Hl.
  induction Hl as [|y l Hy Hl IH]; cbn; [constructor; [set_solver|constructor]|].
  destruct (span_le x y) eqn:E; unfold span_le in E.
  - constructor; [|by constructor]. intros z [->|Hz]%elem_of_cons; [lia|].
    specialize (Hy z Hz). lia.
  - constructor; [|done]. intros z [->|Hz]%elem_span_insert; [lia|auto].
Qed.

(** From a first line [next], all lines before it being covered already. *)
Definition covers_from (next total : Z) (l : list span) : Prop :=
  ∀ i, (next ≤ i ≤ total)%Z → ∃ s e, (s, e) ∈ l ∧ (s ≤ i ≤ e)%Z.

Lemma check_sweep_iff next total l :
  by_start l → (total < check_sweep next l)%Z ↔ covers_from next total l.
Proof.
  intros Hl. revert next. induction Hl as [|[s e] l Hs Hl IH]; intros next; cbn [check_sweep].
  { unfold covers_from. split; [intros; lia|]. intros Hc. destruct (decide (total < next)%Z); [done|].
    destruct (Hc next) as (? & ? & Hin & _); [lia|]. by apply elem_of_nil in Hin. }
  destruct (Z.ltb_spec e next).
  { rewrite IH. unfold covers_from. split; intros Hc i Hi; destruct (Hc i Hi) as (s' & e' & Hin & Hr).
    - exists s', e'. split; [by constructor|done].
    - apply elem_of_cons in Hin as [[= -> ->]|Hin]; [lia|]. by exists s', e'. }
  destruct (Z.ltb_spec next s).
  { unfold covers_from. split; [intros; lia|]. intros Hc. destruct (decide (total < next)%Z); [done|].
    destruct (Hc next) as (s' & e' & [[= -> ->]|Hin]%elem_of_cons & Hr); [lia|lia|].
    specialize (Hs _ Hin). cbn in Hs. lia. }
  rewrite IH. unfold covers_from. split; intros Hc i Hi.
  - destruct (decide (i ≤ e)%Z).
    + exists s, e. split; [constructor|lia].
    + destruct (Hc i) as (s' & e' & Hin & Hr); [lia|]. exists s', e'. split; [by constructor|done].
  - destruct (Hc i) as (s' & e' & [[= -> ->]|Hin]%elem_of_cons & Hr); [lia|lia|]. by exists s', e'.
Qed.

(** On spans that end within the file the loop's sweep agrees. *)
Lemma loop_sweep_iff next total l :
  by_start l → (∀ x, x ∈ l → (x.2 ≤ total)%Z) →
  (∃ n, loop_sweep next l = Some n ∧ (total < n)%Z) ↔ covers_from next total l.
Proof.
  intros Hl Hend. rewrite <- check_sweep_iff by done. revert next.
  induction Hl as [|[s e] l Hs Hl IH]; intros next; cbn [check_sweep loop_sweep].
  { naive_solver. }
  assert (Hend' : ∀ x, x ∈ l → (x.2 ≤ total)%Z) by (intros; apply Hend; by constructor).
  pose proof (Hend (s, e) ltac:(constructor)) as He. cbn in He.
  destruct (Z.ltb_spec e next); [by apply IH|].
  destruct (Z.ltb_spec next s); [|by apply IH].
  split; [by intros (? & ? & ?)|lia].
Qed.

(** ** The transcript *)
(** [loop.ToolInvocation] *)
Record ToolInvocation := mkInvocation {
  iv_name : pystr;
  iv_arguments : dict;
  iv_decision : Decision;
  iv_approved : bool;
  iv_result : option ToolResult;
  iv_note : pystr
}.

Section reading.
(** [Path(v).resolve(strict=True)]: [None] when it raises. *)
Context (resolve_strict : pyval → option Path).

(** The path and span a successful, untruncated [read_file] reports: [None] when
    a test of the check fails or raises.  [meta[k]] raises for a missing key. *)
Definition read_report (output_limit : Z) (inv : ToolInvocation) : option (Path * span * Z) :=
  match iv_result inv with
  | Some r =>
    if (iv_name inv =s u "read_file") && tr_ok r && (clipped output_limit r =s tr_content r) then
      let meta := tr_meta r in
      raw ← dget (u "path") meta;
      path ← resolve_strict raw;
      start ← dget (u "start") meta; end_ ← dget (u "end") meta; total ← dget (u "total_lines") meta;
      match as_exact_int start, as_exact_int end_, as_exact_int total with
      | Some s, Some e, Some t => if (t <? 0)%Z then None else Some (path, (s, e), t)
      | _, _, _ => None
      end
    else None
  | None => None
  end.

(** ** The check during the loop *)
Record read_state := mkReadState {
  rd_spans : list (Path * list span);
  rd_totals : list (Path * Z)
}.

Definition spans_of (p : Path) (st : read_state) : list span := default [] (dget p (rd_spans st)).

Definition _record_complete_read_file (expected_files : list Path) (output_limit : Z) (st : read_state)
    (inv : ToolInvocation) : option Path * read_state :=
  match read_report output_limit inv with
  | Some (path, sp, total) =>
    if negb (path ∈s expected_files) then (None, st)
    else
      let previous := default total (dget path (rd_totals st)) in
      if negb (previous =? total)%Z then
        (None, mkReadState (ddel path (rd_spans st)) (ddel path (rd_totals st)))
      else
        let file_spans := spans_of path st ++ [sp] in
        let st' := mkReadState (dset path file_spans (rd_spans st)) (dset path total (rd_totals st)) in
        if (total =? 0)%Z then
          (if ((sp.1 =? 1) && (sp.2 =? 0))%Z then Some path else None, st')
        else
          (match loop_sweep 1 (sorted_spans file_spans) with
           | Some next => if (total <? next)%Z then Some path else None
           | None => None
           end, st')
  | None => (None, st)
  end.

(** The invocations of a run one after the other, with the files found complete. *)
Fixpoint record_all (expected_files : list Path) (output_limit : Z) (st : read_state) (invs : list ToolInvocation)
  : list Path * read_state :=
  match invs with
  | [] => ([], st)
  | inv :: invs' =>
    let '(p, st1) := _record_complete_read_file expected_files output_limit st inv in
    let '(ps, st2) := record_all expected_files output_limit st1 invs' in
    (option_list p ++ ps, st2)
  end.

(** Every line of the file was shown by some untruncated read that counted
    [total] lines; an empty file was read as empty. *)
Definition fully_read (output_limit : Z) (invs : list ToolInvocation) (p : Path) (total : Z) : Prop :=
  (total = 0%Z → ∃ inv, inv ∈ invs ∧ read_report output_limit inv = Some (p, (1, 0), 0)%Z) ∧
  ∀ i, (1 ≤ i ≤ total)%Z → ∃ inv s e, inv ∈ invs ∧
    read_report output_limit inv = Some (p, (s, e), total) ∧ (s ≤ i ≤ e)%Z.

(** What is remembered comes from reads that agree on the number of lines. *)
Definition read_state_ok (output_limit : Z) (invs : list ToolInvocation) (st : read_state) : Prop :=
  ∀ p, match dget p (rd_totals st) with
       | Some total => (0 ≤ total)%Z ∧ ∀ sp, sp ∈ spans_of p st →
           ∃ inv, inv ∈ invs ∧ read_report output_limit inv = Some (p, sp, total)
       | None => spans_of p st = []
       end.

Lemma read_report_total limit inv p sp total :
  read_report limit inv = Some (p, sp, total) → (0 ≤ total)%Z.
Proof.
  unfold read_report. destruct (iv_result inv) as [r|]; [|done]. case_match; [|done].
  intros (raw & _ & (path & _ & (a & _ & (b & _ & (c & _ & Hr)%bind_Some)%bind_Some)%bind_Some)%bind_Some)%bind_Some.
  repeat case_match; simplify_eq/=; lia.
Qed.

Lemma spans_of_set p q l t st :
  spans_of p (mkReadState (dset q l (rd_spans st)) t) = if decide (p = q) then l else spans_of p st.
Proof.
  unfold spans_of. cbn. case_decide as E; [by rewrite E, dget_dset_eq|by rewrite dget_dset_ne].
Qed.

Lemma record_complete_ok expected limit invs st inv p st' :
  read_state_ok limit invs st →
  _record_complete_read_file expected limit st inv = (p, st') →
  read_state_ok limit (invs ++ [inv]) st' ∧
  ∀ q, p = Some q → q ∈ expected ∧ ∃ total, (0 ≤ total)%Z ∧ fully_read limit (invs ++ [inv]) q total.
Proof.
  intros Hst. unfold _record_complete_read_file.
  assert (Hmono : ∀ q sp total, (∃ i, i ∈ invs ∧ read_report limit i = Some (q, sp, total)) →
                  ∃ i, i ∈ invs ++ [inv] ∧ read_report limit i = Some (q, sp, total)).
  { intros q sp total (i & Hi & Hr). exists i. rewrite elem_of_app. auto. }
  assert (Hkeep : read_state_ok limit (invs ++ [inv]) st).
  { intros q. specialize (Hst q). destruct (dget q (rd_totals st)); [|done].
    destruct Hst as [? Hs]. split; [done|]. intros sp Hsp. by apply Hmono, Hs. }
  destruct (read_report limit inv) as [[[path sp] total]|] eqn:Er; [|by intros [= <- <-]].
  case_bool_decide as Eexp; cbn [negb]; [|by intros [= <- <-]].
  destruct (Z.eqb_spec (default total (dget path (rd_totals st))) total) as [Eprev|Eprev]; cbn [negb].
  2: { intros [= <- <-]. split; [|done]. intros q. specialize (Hkeep q). unfold spans_of in *. cbn.
       destruct (decide (q = path)) as [->|Hne]; [by rewrite !dget_ddel_eq|].
       by rewrite !dget_ddel_ne. }
  set (l := spans_of path st ++ [sp]).
  assert (Hnew : ∀ sp', sp' ∈ l → ∃ i, i ∈ invs ++ [inv] ∧ read_report limit i = Some (path, sp', total)).
  { intros sp' [Hin| ->%list_elem_of_singleton]%elem_of_app.
    - specialize (Hst path). destruct (dget path (rd_totals st)) as [t|] eqn:Et; cbn in Eprev.
      + rewrite <- Eprev. apply Hmono. by apply Hst.
      + rewrite Hst in Hin. by apply elem_of_nil in Hin.
    - exists inv. rewrite elem_of_app, list_elem_of_singleton. auto. }
  assert (Htot : (0 ≤ total)%Z) by (by eapply read_report_total).
  assert (Hst' : read_state_ok limit (invs ++ [inv])
            (mkReadState (dset path l (rd_spans st)) (dset path total (rd_totals st)))).
  { intros q. specialize (Hkeep q). rewrite spans_of_set. cbn.
    destruct (decide (q = path)) as [->|Hne]; [by rewrite dget_dset_eq|by rewrite dget_dset_ne]. }
  destruct (Z.eqb_spec total 0) as [->|Hz].
  { intros [= <- <-]. split; [done|]. intros q. case_match eqn:E1; [|done]. intros [= <-].
    split; [done|]. exists 0%Z. split; [done|]. split; [|intros; lia]. intros _. exists inv.
    rewrite elem_of_app, list_elem_of_singleton. split; [auto|]. rewrite Er. destruct sp; cbn in *.
    repeat f_equal; lia. }
  intros [= <- <-]. split; [done|]. intros q.
  destruct (loop_sweep 1 (sorted_spans l)) as [n|] eqn:Es; [|done].
  destruct (Z.ltb_spec total n); [|done]. intros [= <-]. split; [done|].
  exists total. split; [done|]. split; [done|]. intros i Hi.
  assert (Hc : covers_from 1 total (sorted_spans l)).
  { apply check_sweep_iff; [apply sorted_by_start|]. clear -Es H.
    revert Es. generalize 1%Z. induction (sorted_spans l) as [|[s e] l' IH]; intros k; cbn; [by intros [= ->]|].
    repeat case_match; try done; apply IH. }
  destruct (Hc i Hi) as (s & e & Hin & Hr). rewrite elem_sorted_spans in Hin.
  destruct (Hnew _ Hin) as (i' & Hi' & Hr'). by exists i', s, e.
Qed.

Lemma record_reads_ok expected limit invs0 st invs ps st' :
  read_state_ok limit invs0 st → record_all expected limit st invs = (ps, st') →
  ∀ q, q ∈ ps → q ∈ expected ∧ ∃ total, (0 ≤ total)%Z ∧ fully_read limit (invs0 ++ invs) q total.
Proof.
  assert (Hmono : ∀ l1 l2 q total, fully_read limit l1 q total → fully_read limit (l1 ++ l2) q total).
  { intros l1 l2 q total [H1 H2]. split.
    - intros Hz. destruct (H1 Hz) as (i & Hi & Hr). exists i. rewrite elem_of_app. auto.
    - intros j Hj. destruct (H2 j Hj) as (i & s & e & Hi & Hr). exists i, s, e. rewrite elem_of_app. naive_solver. }
  revert invs0 st ps st'. induction invs as [|inv invs IH]; intros invs0 st ps st' Hst; cbn.
  { intros [= <- <-] q Hq. by apply elem_of_nil in Hq. }
  destruct (_record_complete_read_file expected limit st inv) as [p st1] eqn:E1.
  destruct (record_all expected limit st1 invs) as [ps1 st2] eqn:E2. intros [= <- <-] q Hq.
  destruct (record_complete_ok _ _ _ _ _ _ _ Hst E1) as [Hst1 Hp].
  apply elem_of_app in Hq as [Hq|Hq].
  - destruct p as [p|]; cbn in Hq; [|by apply elem_of_nil in Hq].
    apply list_elem_of_singleton in Hq as ->. destruct (Hp p eq_refl) as (He & total & Ht & Hf).
    split; [done|]. exists total. split; [done|].
    replace (invs0 ++ inv :: invs) with ((invs0 ++ [inv]) ++ invs) by (by rewrite <- app_assoc). auto.
  - destruct (IH _ _ _ _ Hst1 E2 q Hq) as (He & Hf). by rewrite <- app_assoc in Hf.
Qed.

(** A file the loop counts as completely read is one of the expected files,
    and each of its lines was in a successful, untruncated [read_file] result,
    all these results agreeing on the number of lines; an empty file was read
    as empty. *)
Theorem loop_reading_sound expected limit invs ps st q :
  record_all expected limit (mkReadState [] []) invs = (ps, st) → q ∈ ps →
  q ∈ expected ∧ ∃ total, (0 ≤ total)%Z ∧ fully_read limit invs q total.
Proof.
  intros Hr Hq. eapply (record_reads_ok expected limit [] (mkReadState [] []) invs ps st); try done.
Qed.

(** ** The check of the transcript *)
(** [target.relative_to(workspace).as_posix()] *)
Definition relative_name (workspace p : Path) : option pystr :=
  if _is_within p workspace then Some (path_str (mkPath [] (drop (length (parts workspace)) (parts p)))) else None.

Definition transcript_report (workspace : Path) (expected : list pystr) (inv : ToolInvocation)
  : option (pystr * span * Z) :=
  '(p, sp, total) ← read_report DEFAULT_OUTPUT_LIMIT inv;
  name ← relative_name workspace p;
  if name ∈s expected then Some (name, sp, total) else None.

Record transcript := mkTranscript {
  tc_coverage : list (pystr * list span);
  tc_totals : list (pystr * Z)
}.
Definition coverage_of (name : pystr) (t : transcript) : list span := default [] (dget name (tc_coverage t)).

(** One report; [None] when two reports disagree on the number of lines, which
    ends the check. *)
Definition add_report (t : transcript) (r : pystr * span * Z) : option transcript :=
  let '(name, sp, total) := r in
  let coverage := dset name (coverage_of name t ++ [sp]) (tc_coverage t) in
  match dget name (tc_totals t) with
  | Some prior => if (prior =? total)%Z then Some (mkTranscript coverage (tc_totals t)) else None
  | None => Some (mkTranscript coverage (dset name total (tc_totals t)))
  end.
Fixpoint add_reports (t : transcript) (rs : list (pystr * span * Z)) : option transcript :=
  match rs with [] => Some t | r :: rs' => t' ← add_report t r; add_reports t' rs' end.

Definition name_read (t : transcript) (name : pystr) : bool :=
  match dget name (tc_coverage t), dget name (tc_totals t) with
  | Some spans, Some total =>
    if (total =? 0)%Z then existsb (λ sp, ((sp.1 =? 1) && (sp.2 =? 0))%Z) (sorted_spans spans)
    else (total <? check_sweep 1 (sorted_spans spans))%Z
  | _, _ => false
  end.

(** [regular_file name]: [workspace / name] is a file and not a symbolic link. *)
Definition _reviewer_read_all_changed_files (regular_file : pystr → bool) (workspace : Path)
    (changed_files : list pystr) (invs : list ToolInvocation) : bool :=
  (length changed_files <=? 64)
  && match add_reports (mkTranscript [] []) (omap (transcript_report workspace changed_files) invs) with
     | None => false
     | Some t => forallb (λ name, regular_file name && name_read t name) changed_files
     end.

Definition about (name : pystr) (r : pystr * span * Z) : Prop := r.1.1 = name.
#[local] Instance about_dec name r : base.Decision (about name r) := decide (r.1.1 = name).
Definition spans_about (name : pystr) (rs : list (pystr * span * Z)) : list span :=
  (λ r, r.1.2) <$> filter (about name) rs.

(** The transcript holds exactly the reports, which agree on each file's length. *)
Record transcript_ok (rs : list (pystr * span * Z)) (t : transcript) : Prop := {
  to_coverage : ∀ name, coverage_of name t = spans_about name rs;
  to_seen : ∀ name, dget name (tc_coverage t) = None ↔ dget name (tc_totals t) = None;
  to_from : ∀ name total, dget name (tc_totals t) = Some total → ∃ sp, (name, sp, total) ∈ rs;
  to_total : ∀ name sp total, (name, sp, total) ∈ rs → dget name (tc_totals t) = Some total
}.

Lemma spans_about_snoc name rs n sp total :
  spans_about name (rs ++ [(n, sp, total)]) = spans_about name rs ++ (if decide (n = name) then [sp] else []).
Proof.
  unfold spans_about. rewrite filter_app, fmap_app. f_equal. rewrite filter_cons, filter_nil.
  unfold about at 1. cbn. by destruct (decide (n = name)).
Qed.

Lemma add_report_ok rs t name sp total :
  transcript_ok rs t →
  match add_report t (name, sp, total) with
  | Some t' => transcript_ok (rs ++ [(name, sp, total)]) t'
  | None => ∃ sp' total', (name, sp', total') ∈ rs ∧ total' ≠ total
  end.
Proof.
  intros [H1 H2 H3 H4]. unfold add_report.
  assert (Hcov : ∀ tt n, coverage_of n (mkTranscript (dset name (coverage_of name t ++ [sp]) (tc_coverage t)) tt)
                 = spans_about n (rs ++ [(name, sp, total)])).
  { intros tt n. rewrite spans_about_snoc. unfold coverage_of at 1. cbn. destruct (decide (name = n)) as [->|Hne].
    - rewrite dget_dset_eq. cbn. by rewrite H1.
    - rewrite dget_dset_ne by done. rewrite app_nil_r. apply H1. }
  destruct (dget name (tc_totals t)) as [prior|] eqn:Ep; [destruct (Z.eqb_spec prior total) as [->|Hne]|].
  - split; cbn.
    + exact (Hcov []).
    + intros n. destruct (decide (name = n)) as [->|Hn]; [rewrite dget_dset_eq; by rewrite Ep|].
      by rewrite dget_dset_ne.
    + intros n t' Hn. destruct (H3 _ _ Hn) as [s' Hs]. exists s'. rewrite elem_of_app. auto.
    + intros n sp' total' [Hin|[= -> -> ->]%list_elem_of_singleton]%elem_of_app; [by eapply H4|done].
  - destruct (H3 _ _ Ep) as [s' Hs]. by exists s', prior.
  - split; cbn.
    + exact (Hcov []).
    + intros n. destruct (decide (name = n)) as [->|Hn]; [by rewrite !dget_dset_eq|].
      by rewrite !dget_dset_ne.
    + intros n t'. destruct (decide (n = name)) as [->|Hn].
      * rewrite dget_dset_eq. intros [= <-]. exists sp. rewrite elem_of_app, list_elem_of_singleton. auto.
      * rewrite dget_dset_ne by done. intros [s' Hs]%H3. exists s'. rewrite elem_of_app. auto.
    + intros n sp' total' [Hin|[= -> -> ->]%list_elem_of_singleton]%elem_of_app; [|by rewrite dget_dset_eq].
      destruct (decide (n = name)) as [->|Hn]; [|rewrite dget_dset_ne by done; by eapply H4].
      apply H4 in Hin. congruence.
Qed.

Lemma add_reports_ok rs0 rs t :
  transcript_ok rs0 t →
  match add_reports t rs with
  | Some t' => transcript_ok (rs0 ++ rs) t'
  | None => ∃ name sp total sp' total',
      (name, sp, total) ∈ rs0 ++ rs ∧ (name, sp', total') ∈ rs0 ++ rs ∧ total' ≠ total
  end.
Proof.
  revert rs0 t. induction rs as [|[[name sp] total] rs IH]; intros rs0 t Hok; cbn [add_reports].
  { by rewrite app_nil_r. }
  pose proof (add_report_ok rs0 t name sp total Hok) as Hadd.
  destruct (add_report t (name, sp, total)) as [t1|]; cbn [mbind option_bind].
  - specialize (IH _ _ Hadd). by rewrite <- app_assoc in IH.
  - destruct Hadd as (sp' & total' & Hin & Hne). exists name, sp, total, sp', total'.
    rewrite !elem_of_app, elem_of_cons. auto.
Qed.

Lemma elem_spans_about name rs sp : sp ∈ spans_about name rs ↔ ∃ total, (name, sp, total) ∈ rs.
Proof.
  unfold spans_about. rewrite list_elem_of_fmap. split.
  - intros ([[n s] t] & -> & [Hab Hin]%list_elem_of_filter). unfold about in Hab. cbn in *. subst. by exists t.
  - intros [t Hin]. exists (name, sp, t). split; [done|]. by apply list_elem_of_filter.
Qed.

Lemma transcript_init : transcript_ok [] (mkTranscript [] []).
Proof. split; cbn; try done. intros ? ? ? H. by apply elem_of_nil in H. Qed.

(** A file is read when its reports agree with its length and cover it. *)
Definition read_by (rs : list (pystr * span * Z)) (name : pystr) (total : Z) : Prop :=
  (∃ sp, (name, sp, total) ∈ rs) ∧
  (total = 0%Z → (name, (1, 0), 0)%Z ∈ rs) ∧
  (0 < total → ∀ i, 1 ≤ i ≤ total → ∃ s e, (name, (s, e), total) ∈ rs ∧ s ≤ i ≤ e)%Z.

Lemma name_read_iff rs t name :
  transcript_ok rs t → (∀ n sp total, (n, sp, total) ∈ rs → (0 ≤ total)%Z) →
  name_read t name = true ↔ ∃ total, read_by rs name total.
Proof.
  intros [H1 H2 H3 H4] Hpos. unfold name_read.
  pose proof (H1 name) as Hc. unfold coverage_of in Hc.
  destruct (dget name (tc_totals t)) as [total|] eqn:Et.
  2: { split; [destruct (dget name (tc_coverage t)); done|]. intros (total & [sp Hin] & _).
       apply H4 in Hin. congruence. }
  destruct (dget name (tc_coverage t)) as [spans|] eqn:Es.
  2: { apply H2 in Es. congruence. }
  cbn in Hc. subst spans. destruct (H3 _ _ Et) as [sp0 Hsp0].
  assert (Huniq : ∀ sp total', (name, sp, total') ∈ rs → total' = total).
  { intros sp total' Hin. apply H4 in Hin. congruence. }
  assert (Hex : (∃ total, read_by rs name total) ↔ read_by rs name total).
  { split; [|by exists total]. intros (total' & Hr). pose proof Hr as [[sp Hin] _].
    by rewrite <- (Huniq _ _ Hin). }
  rewrite Hex. unfold read_by. destruct (Z.eqb_spec total 0) as [->|Hz].
  - rewrite existsb_Exists. split.
    + intros (sp & Hin & Heq). rewrite elem_sorted_spans, elem_spans_about in Hin.
      destruct Hin as [total' Hin]. pose proof (Huniq _ _ Hin) as ->.
      assert (sp = (1, 0)%Z) as -> by (destruct sp; cbn in Heq; f_equal; lia).
      split; [by exists sp0|]. split; [done|lia].
    + intros (_ & Hin & _). exists (1, 0)%Z. split; [|done].
      rewrite elem_sorted_spans, elem_spans_about. exists 0%Z. by apply Hin.
  - rewrite Z.ltb_lt, check_sweep_iff by apply sorted_by_start. split.
    + intros Hcov. split; [by exists sp0|]. split; [done|]. intros _ i Hi.
      destruct (Hcov i Hi) as (s & e & Hin & Hr). rewrite elem_sorted_spans, elem_spans_about in Hin.
      destruct Hin as [total' Hin]. pose proof (Huniq _ _ Hin) as ->. by exists s, e.
    + intros (_ & _ & Hcov) i Hi. pose proof (Hpos _ _ _ Hsp0).
      destruct (Hcov ltac:(lia) i Hi) as (s & e & Hin & Hr). exists s, e. split; [|done].
      rewrite elem_sorted_spans, elem_spans_about. by exists total.
Qed.

Lemma transcript_report_total ws expected inv n sp total :
  transcript_report ws expected inv = Some (n, sp, total) → (0 ≤ total)%Z.
Proof.
  unfold transcript_report. intros ([[p s] t] & Hr & (name & _ & Hn)%bind_Some)%bind_Some.
  case_match; [|done]. injection Hn as <- <- <-. by eapply read_report_total.
Qed.

(** The check of the transcript passes exactly when at most 64 files
    changed, no two untruncated reads of one of them disagree on its number of
    lines, and each is a regular file all of whose lines such reads showed. *)
Theorem transcript_check_iff regular_file workspace changed_files invs :
  let rs := omap (transcript_report workspace changed_files) invs in
  _reviewer_read_all_changed_files regular_file workspace changed_files invs = true ↔
  length changed_files ≤ 64 ∧
  (∀ name sp total sp' total', name ∈ changed_files →
     (name, sp, total) ∈ rs → (name, sp', total') ∈ rs → total' = total) ∧
  ∀ name, name ∈ changed_files → regular_file name = true ∧ ∃ total, read_by rs name total.
Proof.
  intros rs. unfold _reviewer_read_all_changed_files. fold rs. rewrite andb_true_iff, Nat.leb_le.
  assert (Hpos : ∀ n sp total, (n, sp, total) ∈ rs → (0 ≤ total)%Z).
  { intros n sp total (inv & _ & Hr)%list_elem_of_omap. by eapply transcript_report_total. }
  assert (Hin : ∀ n sp total, (n, sp, total) ∈ rs → n ∈ changed_files).
  { intros n sp total (inv & _ & Hr)%list_elem_of_omap. unfold transcript_report in Hr.
    apply bind_Some in Hr as ([[p s] t] & _ & (name & _ & Hn)%bind_Some).
    case_bool_decide; [|done]. by injection Hn as <- <- <-. }
  pose proof (add_reports_ok [] rs _ transcript_init) as Hadd. cbn [app] in Hadd.
  destruct (add_reports (mkTranscript [] []) rs) as [t|].
  - rewrite forallb_Forall, Forall_forall. split.
    + intros [Hl Hall]. split; [done|]. split.
      * intros n sp total sp' total' _ Ha Hb.
        apply (to_total _ _ Hadd) in Ha. apply (to_total _ _ Hadd) in Hb. congruence.
      * intros n Hn. specialize (Hall n Hn). cbn in Hall. apply andb_true_iff in Hall as [Hf Hr].
        split; [done|]. by apply (name_read_iff rs t).
    + intros (Hl & _ & Hall). split; [done|]. intros n Hn. destruct (Hall n Hn) as [Hf Hr].
      cbn. rewrite Hf. by apply (name_read_iff rs t).
  - destruct Hadd as (n & sp & total & sp' & total' & Ha & Hb & Hne).
    split; [by intros [_ ?]|]. intros (_ & Hag & _). exfalso. apply Hne. eapply Hag; [|exact Ha|exact Hb].
    by eapply Hin.
Qed.
End reading.

(** ** Witness: a file of three lines, read in two calls *)
Definition sample_file : Path := mkPath (u "/") [u "w"; u "a.py"].
Definition sample_read (s e : Z) : ToolInvocation :=
  mkInvocation (u "read_file") [] ALLOW true
    (Some (mkToolResult true (u "...")
       [(u "path", PyStr (u "/w/a.py")); (u "total_lines", PyInt 3); (u "start", PyInt s); (u "end", PyInt e)]
       OPCLASS_READ_ONLY)) [].
Definition sample_resolve (v : pyval) : option Path :=
  match v with PyStr s => Some (Path_of_str s) | _ => None end.

Lemma loop_reading_sound_witness :
  (record_all sample_resolve [sample_file] 8000 (mkReadState [] []) [sample_read 3 3; sample_read 1 2]).1 = [sample_file] ∧
  ∃ total, fully_read sample_resolve 8000 [sample_read 3 3; sample_read 1 2] sample_file total.
Proof.
  split; [vm_compute; reflexivity|].
  destruct (loop_reading_sound sample_resolve [sample_file] 8000 [sample_read 3 3; sample_read 1 2]
     [sample_file] (record_all sample_resolve [sample_file] 8000 (mkReadState [] []) [sample_read 3 3; sample_read 1 2]).2
     sample_file) as (_ & total & _ & H).
  - vm_compute. reflexivity.
  - constructor.
  - exists total. exact H.
Defined.

Example transcript_accepts :
  _reviewer_read_all_changed_files sample_resolve (λ _, true) (mkPath (u "/") [u "w"]) [u "a.py"]
    [sample_read 3 3; sample_read 1 2] = true ∧
  _reviewer_read_all_changed_files sample_resolve (λ _, true) (mkPath (u "/") [u "w"]) [u "a.py"]
    [sample_read 3 3; sample_read 1 1] = false.
Proof. vm_compute. done. Qed.
