(* ===== verification/ToolGate.v ===== *)
(** * One tool call of the agent loop ([src/src/icode/loop.py], [AgentLoop._invoke])

    Between the model's request and the tool's handler stand the guard, the
    human approver and the operation receipt.  [LoopHost] is what the loop talks
    to: the model, the approver, the control plane, the file system and the
    callbacks, each acting on a state [W] of the outside world.  [ls_log] is a
    record, kept for the proofs only, of what the loop asked of them. *)

From S2P Require Import Prelude PyText PyVal Hashing Json Paths Regex Guard Contracts Utf8 Tools Operations Budget ReadCoverage.

Record ToolCall := mkToolCall { tc_id : pystr; tc_name : pystr; tc_arguments : pyval }.
Record AssistantMessage := mkAssistant { am_content : pystr; am_tool_calls : list ToolCall }.

Abbreviation message := dict.

(** The fields of [ToolContext] the loop reads; the artifact broker with its
    step's output ports. *)
Record LoopContext := mkContext {
  lc_root : Path;
  lc_output_limit : Z;
  lc_artifact_broker : option (Path * list Port);
  lc_has_baseline : bool;
  lc_read_only_workspace : bool;
  lc_review_submission_enabled : bool
}.

Section loop.
Context {W : Type}.

Record LoopHost := mkHost {
  hs_complete : list message → list pyval → Z → pystr → W → result AssistantMessage * W;
  hs_last_usage : W → option Usage;
  hs_usage : W → Usage;
  hs_ask : ApprovalRequest → W → result bool * W;
  hs_process : list pystr → W → result (Z * pystr) * W;
  hs_fs : W → FileSystem;
  hs_resolve_strict : W → pyval → option Path;
  hs_is_file : W → pystr → bool;
  hs_iterdir : W → result (list (pystr * bool));
  hs_worklist : W → option pyval;
  hs_on_event : pystr → dict → W → W;
  hs_on_turn : nat → nat → list message → W → W
}.

(** What the log records: the world the guard was consulted in, and the world's
    answers. *)
Inductive effect :=
  | EDecide (w : W) (name : pystr) (arguments : dict)
  | EAsk (r : ApprovalRequest) (granted : bool)
  | EStart (call : pystr) (s : StartedOperation)
  | EInvoke (call : pystr) (arguments : dict) (r : ToolResult)
  | EFinish (attempt : pystr) (closed : bool)
  | EComplete (tool_choice : pystr) (m : AssistantMessage)
  | EEvent (kind : pystr) (payload : dict).

(** The state a call reads and changes. *)
Record LoopState := mkLoop {
  ls_world : W;
  ls_log : list effect;
  ls_operations : option OperationRecorder;
  ls_unclosed : list pystr;
  ls_budget : BudgetTracker
}.

Definition with_world (w : W) (e : effect) (st : LoopState) : LoopState :=
  mkLoop w (ls_log st ++ [e]) (ls_operations st) (ls_unclosed st) (ls_budget st).
Definition with_operations (o : OperationRecorder) (w : W) (st : LoopState) : LoopState :=
  mkLoop w (ls_log st) (Some o) (ls_unclosed st) (ls_budget st).
(** The tags of the side effects left open: the last 8. *)
Definition add_unclosed (tag : pystr) (st : LoopState) : LoopState :=
  mkLoop (ls_world st) (ls_log st) (ls_operations st) (slice_last 8 (ls_unclosed st ++ [tag])) (ls_budget st).

Context (h : LoopHost) (registry : list (pystr * Tool W)) (scope : Scope) (ctx : LoopContext).
Context `{ExnText, PyRepr, FloatRepr, UnicodeWord, JsonLoads}.

Definition on_event (kind : string) (payload : dict) (st : LoopState) : LoopState :=
  with_world (hs_on_event h (u kind) payload (ls_world st)) (EEvent (u kind) payload) st.

(** ** The permission decision *)
(** [args.get(k) or default], as text. *)
Definition arg_text (k : string) (default : pystr) (args : dict) : pystr :=
  if py_truth (pget (u k) args) then py_str (pget (u k) args) else default.

Definition _decide (fs : FileSystem) (name : pystr) (args : dict) : Verdict :=
  if name =s u "submit_review" then
    if lc_review_submission_enabled ctx && lc_read_only_workspace ctx && lc_has_baseline ctx
    then mkVerdict ALLOW (u "只读 Reviewer 的结构化输出端口")
    else mkVerdict DENY (u "结构化审查提交仅在独立只读 Reviewer 中开放")
  else if name ∈s [u "submit_artifact"; u "read_artifact"] then
    match lc_artifact_broker ctx with
    | None => mkVerdict DENY (u "当前步骤未开放受控产物端口")
    | Some _ => mkVerdict ALLOW (u "受控产物端口按步骤合同校验")
    end
  else if name ∈s [u "read_file"; u "grep"] then check_read scope (Path_of_str (arg_text "path" (u ".") args))
  else if name =s u "glob" then check_read scope (lc_root ctx)
  else if name ∈s [u "write_file"; u "edit_file"] then check_write scope (Path_of_str (arg_text "path" [] args))
  else if name =s u "run_command" then
    check_command scope (let argv := pget (u "argv") args in if py_truth argv then argv else PyList [])
  else check_read scope (lc_root ctx).

(** ** The digest of the arguments *)
(** [default=str]: objects JSON does not know are written as their text. *)
Fixpoint default_str (v : pyval) : pyval :=
  match v with
  | PyObj _ => PyStr (py_str v)
  | PyList l => PyList (map default_str l)
  | PyTuple l => PyTuple (map default_str l)
  | PyDict d => PyDict (map (λ p, (p.1, default_str p.2)) d)
  | _ => v
  end.

Definition raw_opts : json_opts := mkJsonOpts false false false.
Definition json_dumps (o : json_opts) (v : pyval) : result pystr :=
  match dumps o v with Some s => Ok s | None => Err (TypeError "not JSON serializable") end.

Definition safe_args (args : dict) : result dict :=
  text ← json_dumps sorted_opts (default_str (PyDict args));
  bytes ← encode_utf8 text;
  Ok [(u "arg_keys", PyList (PyStr <$> sorted_strs (dkeys args)));
      (u "args_sha256", PyStr (sha256_hex bytes))].

(** ** The call *)
Definition invocation (name : pystr) (args : dict) (v : Verdict) (approved : bool) (res : ToolResult) (note : pystr)
  : ToolInvocation := mkInvocation name args (decision v) approved (Some res) note.

(** After a call that may run: execution and the end of its receipt. *)
Definition execute (name : pystr) (args : dict) (v : Verdict) (note : pystr) (safe : dict)
    (attempt : option pystr) (st : LoopState) : result ToolInvocation * LoopState :=
  let st := on_event "tool_start" [(u "tool", PyStr name); (u "arguments", PyDict safe)] st in
  let '(res, w) := invoke registry name args (ls_world st) in
  let st := with_world w (EInvoke name args res) st in
  let payload := [(u "tool", PyStr name); (u "ok", PyBool (tr_ok res)); (u "meta", PyDict (tr_meta res))] in
  let payload := if negb (tr_ok res) && is_lit (pget (u "error_code") (tr_meta res)) (u "policy_denied")
                 then dset (u "user_message") (PyStr POLICY_DENIED_USER_MESSAGE) payload else payload in
  let st := on_event "tool_result" payload st in
  match attempt, ls_operations st with
  | Some a, Some ops =>
    match json_dumps raw_opts (PyDict (tr_meta res)) with
    | Err e => (Err e, st)
    | Ok text =>
      match finish (hs_process h) ops a (if tr_ok res then u "success" else u "failure")
              (u "tool=" ++ name) (take 200 text)
              (if tr_ok res then None else Some (u "deterministic_failure")) (ls_world st) with
      | (Err e, w') => (Err e, with_operations ops w' st)
      | (Ok closed, w') =>
        let st := with_world w' (EFinish a closed) st in
        if closed then (Ok (invocation name args v true res note), st)
        else
          let res := mkToolResult (tr_ok res) (tr_content res)
                       (dset (u "operation_finish_failed") (PyBool true) (tr_meta res)) (tr_opclass res) in
          let note := (if note =s [] then [] else note ++ u "｜") ++ u "副作用回执终结失败" in
          let st := on_event "operation_finish_failed" [(u "tool", PyStr name); (u "attempt", PyStr a)] st in
          (Ok (invocation name args v true res note), add_unclosed (name ++ u ":" ++ take 80 a) st)
      end
    end
  | _, _ => (Ok (invocation name args v true res note), st)
  end.

(** A receipt that does not authorise the execution. *)
Definition refuse_ambiguous (name : pystr) (args : dict) (v : Verdict) (opclass : pystr) (s : StartedOperation)
    (st : LoopState) : ToolInvocation * LoopState :=
  let prefix := if so_already_applied s then u "此前动作的回执不能用于再次执行："
                else u "副作用回执不明确，已停止执行并等待人工核对（禁止盲目重放）：" in
  let detail := if so_detail s =s [] then u "ambiguous_side_effect" else so_detail s in
  let res := mkToolResult false (prefix ++ detail) [(u "error", PyStr (u "ambiguous_side_effect"))] opclass in
  let note := if so_already_applied s then u "此前动作的回执不能用于再次执行" else u "副作用歧义，拒绝重放" in
  let st := on_event "operation_ambiguous" [(u "tool", PyStr name); (u "detail", PyStr (so_detail s))] st in
  (invocation name args v false res note, add_unclosed (name ++ u ":" ++ take 80 (so_detail s)) st).

(** The receipt of a call with a side effect, then the execution. *)
Definition with_receipt (name : pystr) (args : dict) (tool : Tool W) (v : Verdict) (note : pystr) (st : LoopState)
  : result ToolInvocation * LoopState :=
  match safe_args args with
  | Err e => (Err e, st)
  | Ok safe =>
    match ls_operations st with
    | Some ops =>
      if tool_opclass tool =s OPCLASS_READ_ONLY then execute name args v note safe None st
      else
        match json_dumps raw_opts (PyDict safe) with
        | Err e => (Err e, st)
        | Ok input_desc =>
          match start (hs_process h) ops (u "tool:" ++ name) (tool_opclass tool) input_desc (ls_world st) with
          | (Err e, ops', w) => (Err e, with_operations ops' w st)
          | (Ok s, ops', w) =>
            let st := with_world w (EStart name s) (with_operations ops' w st) in
            if can_execute s then execute name args v note safe (so_attempt s) st
            else let '(inv, st) := refuse_ambiguous name args v (tool_opclass tool) s st in (Ok inv, st)
          end
        end
    | None => execute name args v note safe None st
    end
  end.

Definition approval_request (name : pystr) (args : dict) (tool : Tool W) (v : Verdict) : ApprovalRequest :=
  mkApprovalRequest name args (reason v) (tool_opclass tool) (path_str (lc_root ctx)).

Definition deny_call (name : pystr) (args : dict) (tool : Tool W) (v : Verdict) (st : LoopState)
  : result ToolInvocation * LoopState :=
  match application_policy_violation_receipt name (u "guard_denied") with
  | Err e => (Err e, st)
  | Ok receipt =>
    let res := mkToolResult false POLICY_DENIED_USER_MESSAGE
                 [(u "error", PyStr (u "denied")); (u "error_code", PyStr (u "policy_denied"));
                  (u "violation_receipt", PyDict receipt)] (tool_opclass tool) in
    (Ok (invocation name args v false res POLICY_DENIED_USER_MESSAGE),
     on_event "tool_denied"
       [(u "tool", PyStr name); (u "error_code", PyStr (u "policy_denied"));
        (u "user_message", PyStr POLICY_DENIED_USER_MESSAGE); (u "violation_receipt", PyDict receipt)] st)
  end.

Definition ask_approval (name : pystr) (args : dict) (tool : Tool W) (v : Verdict) (st : LoopState)
  : result ToolInvocation * LoopState :=
  let request := approval_request name args tool v in
  let st := on_event "approval_requested" [(u "tool", PyStr name); (u "reason", PyStr (reason v))] st in
  match hs_ask h request (ls_world st) with
  | (Err e, w) => (Err e, mkLoop w (ls_log st) (ls_operations st) (ls_unclosed st) (ls_budget st))
  | (Ok granted, w) =>
    let st := with_world w (EAsk request granted) st in
    if granted then with_receipt name args tool v (reason v ++ u "｜已人工放行") st
    else
      let res := mkToolResult false (u "人工未放行，已跳过该动作") [(u "error", PyStr (u "not_approved"))]
                   (tool_opclass tool) in
      (Ok (invocation name args v false res (reason v)), on_event "approval_denied" [(u "tool", PyStr name)] st)
  end.

Definition _invoke (name : pystr) (args : dict) (st : LoopState) : result ToolInvocation * LoopState :=
  match get name registry with
  | None =>
    (Ok (mkInvocation name args DENY false
           (Some (mkToolResult false (u "未知工具：" ++ name) [(u "error", PyStr (u "unknown_tool"))] OPCLASS_READ_ONLY))
           (u "工具不存在")), st)
  | Some tool =>
    let w := ls_world st in
    let v := _decide (hs_fs h w) name args in
    let st := with_world w (EDecide w name args) st in
    match decision v with
    | DENY => deny_call name args tool v st
    | REQUIRE_APPROVAL => ask_approval name args tool v st
    | ALLOW => with_receipt name args tool v (reason v) st
    end
  end.

(** ** What stands before an execution *)
(** The log without the public events. *)
Definition is_act (e : effect) : bool := match e with EEvent _ _ => false | _ => true end.
Definition acts (l : list effect) : list effect := filter (λ e, is_act e = true) l.
Definition is_invoke (e : effect) : bool := match e with EInvoke _ _ _ => true | _ => false end.

(** The guard allowed the call, or a human did so for this very request. *)
Definition permitted (v : Verdict) (request : ApprovalRequest) (asks : list effect) : Prop :=
  (decision v = ALLOW ∧ asks = []) ∨ (decision v = REQUIRE_APPROVAL ∧ asks = [EAsk request true]).

(** No receipt is needed, or a fresh one was issued that admits the execution. *)
Definition receipted (recording : bool) (tool : Tool W) (name : pystr) (receipts : list effect) : Prop :=
  ((recording = false ∨ tool_opclass tool = OPCLASS_READ_ONLY) ∧ receipts = []) ∨
  (recording = true ∧ tool_opclass tool ≠ OPCLASS_READ_ONLY ∧ ∃ s, can_execute s = true ∧ receipts = [EStart name s]).

(** The guard's verdict on a call in the world [w], and what followed it. *)
Definition granted_in (w : W) (ops : bool) (tool : Tool W) (name : pystr) (args : dict)
    (asks receipts : list effect) : Prop :=
  (let v := _decide (hs_fs h w) name args in permitted v (approval_request name args tool v) asks) ∧
  receipted ops tool name receipts.

(** What the loop did just before executing the call authorises it: it consulted
    the guard on this call, in the world [w] of that moment. *)
Definition authorised (ops : bool) (before : list effect) (name : pystr) (args : dict) : Prop :=
  ∃ l w seg tool asks receipts, before = l ++ EDecide w name args :: seg ∧ get name registry = Some tool ∧
    acts seg = asks ++ receipts ∧ granted_in w ops tool name args asks receipts.

(** Every execution in a log is authorised, by what follows the previous one. *)
Definition log_authorised (ops : bool) (l : list effect) : Prop :=
  ∀ before name args res after, l = before ++ EInvoke name args res :: after → authorised ops before name args.

Lemma acts_app l1 l2 : acts (l1 ++ l2) = acts l1 ++ acts l2.
Proof. apply filter_app. Qed.

Lemma acts_no_invoke l name args res l1 l2 :
  Forall (λ e, is_invoke e = false) (acts l) → l = l1 ++ EInvoke name args res :: l2 → False.
Proof.
  intros Hl ->. rewrite acts_app in Hl. unfold acts in Hl at 2. rewrite filter_cons_True in Hl by done.
  apply Forall_app in Hl as [_ Hl]. by inversion Hl.
Qed.

(** A log stays authorised when a stretch without executions follows, or one
    with a single authorised execution. *)
Lemma log_authorised_quiet ops l new :
  log_authorised ops l → Forall (λ e, is_invoke e = false) (acts new) → log_authorised ops (l ++ new).
Proof.
  intros Hl Hn before name args res after Heq.
  apply app_eq_inv in Heq as [(k & -> & Hk)|(k & -> & Hk)].
  - destruct k as [|e k]; [|injection Hk as <- ->; by eapply Hl].
    cbn in Hk. exfalso. by eapply (acts_no_invoke new _ _ _ []).
  - exfalso. by eapply acts_no_invoke.
Qed.

Lemma acts_split l1 e l2 :
  is_act e = true → acts (l1 ++ e :: l2) = acts l1 ++ e :: acts l2.
Proof. intros. rewrite acts_app. unfold acts at 2. by rewrite filter_cons_True. Qed.

Lemma log_authorised_call ops l w new name args res tool asks receipts rest :
  log_authorised ops l → get name registry = Some tool →
  acts new = asks ++ receipts ++ EInvoke name args res :: rest →
  Forall (λ e, is_invoke e = false) rest →
  granted_in w ops tool name args asks receipts → log_authorised ops (l ++ EDecide w name args :: new).
Proof.
  intros Hl Ht Hnew Hrest [Hp Hr] before name' args' res' after Heq.
  assert (Hquiet : ∀ e, e ∈ asks ++ receipts → is_invoke e = false).
  { intros e [He|He]%elem_of_app.
    - destruct Hp as [[_ ->]|[_ ->]]; [by apply elem_of_nil in He|by apply list_elem_of_singleton in He as ->].
    - destruct Hr as [[_ ->]|(_ & _ & s & _ & ->)]; [by apply elem_of_nil in He|].
      by apply list_elem_of_singleton in He as ->. }
  assert (Hseg : ∀ seg, new = seg ++ EInvoke name' args' res' :: after →
                 acts seg = asks ++ receipts ∧ name' = name ∧ args' = args).
  { intros seg ->. rewrite acts_split in Hnew by done. rewrite app_assoc in Hnew.
    apply app_eq_inv in Hnew as [(k & Hk1 & Hk2)|(k & Hk1 & Hk2)].
    - destruct k as [|e k].
      + cbn in Hk2. injection Hk2 as -> -> _ _. rewrite app_nil_r in Hk1. done.
      + injection Hk2 as _ ->. exfalso. apply Forall_app in Hrest as [_ Hrest]. by inversion Hrest.
    - destruct k as [|e k].
      + cbn in Hk2. injection Hk2 as -> -> _ _. rewrite app_nil_r in Hk1. done.
      + injection Hk2 as <- _. exfalso.
        specialize (Hquiet (EInvoke name' args' res')). rewrite Hk1, elem_of_app, elem_of_cons in Hquiet.
        specialize (Hquiet ltac:(auto)). done. }
  apply app_eq_inv in Heq as [(k & -> & Hk)|(k & -> & Hk)].
  - destruct k as [|e k]; [done|injection Hk as <- ->; by eapply Hl].
  - destruct k as [|e k]; [done|]. injection Hk as <- Hk.
    destruct (Hseg k Hk) as (Ha & -> & ->). by exists l, w, k, tool, asks, receipts.
Qed.

(** ** What a call adds to the log *)
Definition recording (st : LoopState) : bool := match ls_operations st with Some _ => true | None => false end.

Definition quiet (l : list effect) : Prop := Forall (λ e, is_invoke e = false) (acts l).

(** The call was answered for this name and these arguments; what was not
    executed has not succeeded. *)
Definition answers (name : pystr) (args : dict) (approved : bool) (r : result ToolInvocation) : Prop :=
  ∀ inv, r = Ok inv → iv_name inv = name ∧ iv_arguments inv = args ∧ iv_approved inv = approved ∧
                      ∃ res, iv_result inv = Some res ∧ (approved = false → tr_ok res = false).

Lemma invocation_answers name args v approved res note :
  (approved = false → tr_ok res = false) →
  let inv := invocation name args v approved res note in
  iv_name inv = name ∧ iv_arguments inv = args ∧ iv_approved inv = approved ∧
  ∃ res, iv_result inv = Some res ∧ (approved = false → tr_ok res = false).
Proof. intros. cbn. split_and!; try done. by exists res. Qed.

(** [st'] extends the log of [st] by [new]. *)
Definition grows (st st' : LoopState) (new : list effect) : Prop :=
  ls_log st' = ls_log st ++ new ∧ recording st' = recording st.

Lemma grows_trans st1 st2 st3 l1 l2 : grows st1 st2 l1 → grows st2 st3 l2 → grows st1 st3 (l1 ++ l2).
Proof. intros [E1 R1] [E2 R2]. split; [by rewrite E2, E1, app_assoc|congruence]. Qed.

Lemma grows_event k p st : grows st (on_event k p st) [EEvent (u k) p].
Proof. done. Qed.

Ltac log_step :=
  split; [unfold grows, recording; cbn; rewrite <- ?app_assoc; done|].

Lemma execute_log name args v note safe attempt st r st' :
  execute name args v note safe attempt st = (r, st') →
  ∃ new res rest, grows st st' new ∧ acts new = EInvoke name args res :: rest ∧
    Forall (λ e, is_invoke e = false) rest ∧ answers name args true r.
Proof.
  unfold execute. cbv zeta.
  destruct (invoke registry name args _) as [res w] eqn:Ei.
  match goal with |- context [on_event "tool_result" ?p _] => generalize p end. intros payload.
  pose (ran := [EEvent (u "tool_start") [(u "tool", PyStr name); (u "arguments", PyDict safe)];
                EInvoke name args res; EEvent (u "tool_result") payload]).
  destruct attempt as [a|].
  2: { intros [= <- <-].
       exists ran, res, [].
       log_step. split; [done|]. split; [constructor|]. intros inv [= <-]. by apply invocation_answers. }
  destruct (ls_operations _) as [ops|] eqn:Eo; cbn in Eo.
  2: { intros [= <- <-].
       exists ran, res, [].
       log_step. split; [done|]. split; [constructor|]. intros inv [= <-]. by apply invocation_answers. }
  destruct (json_dumps _ _) as [text|e] eqn:Ej.
  2: { intros [= <- <-].
       exists ran, res, [].
       log_step. split; [done|]. split; [constructor|]. by intros inv [=]. }
  destruct (finish _ _ _ _ _ _ _ _) as [[closed|e] w'] eqn:Ef.
  2: { intros [= <- <-].
       exists ran, res, [].
       split; [unfold grows, recording; cbn; rewrite <- ?app_assoc, Eo; done|].
       split; [done|]. split; [constructor|]. by intros inv [=]. }
  destruct closed; intros [= <- <-].
  - exists (ran ++ [EFinish a true]), res, [EFinish a true].
    log_step. split; [done|]. split; [by repeat constructor|]. intros inv [= <-]. by apply invocation_answers.
  - exists (ran ++ [EFinish a false;
              EEvent (u "operation_finish_failed") [(u "tool", PyStr name); (u "attempt", PyStr a)]]), res, [EFinish a false].
    log_step. split; [done|]. split; [by repeat constructor|]. intros inv [= <-]. by apply invocation_answers.
Qed.

(** A stretch of the log that executes nothing, or one that executes the call
    once, with what authorised it in front. *)
Definition call_log (auth : list effect → Prop) (name : pystr) (args : dict) (new : list effect)
    (r : result ToolInvocation) : Prop :=
  (quiet new ∧ answers name args false r) ∨
  ∃ before res rest, auth before ∧ acts new = before ++ EInvoke name args res :: rest ∧
    Forall (λ e, is_invoke e = false) rest ∧ answers name args true r.

Lemma with_receipt_log name args tool v note st r st' :
  with_receipt name args tool v note st = (r, st') →
  ∃ new, grows st st' new ∧ call_log (receipted (recording st) tool name) name args new r.
Proof.
  assert (Hquiet : ∀ st1, ∀ e, grows st st1 [] → (Err e, st1) = (r, st') →
            ∃ new, grows st st' new ∧ call_log (receipted (recording st) tool name) name args new r).
  { intros st1 e Hg [= <- <-]. exists []. split; [done|]. left. split; [constructor|by intros ? [=]]. }
  assert (Hg0 : grows st st []) by (split; [by rewrite app_nil_r|done]).
  unfold with_receipt. destruct (safe_args args) as [safe|e]; [|by apply Hquiet].
  assert (Hrun : ∀ (attempt : option pystr), recording st = false ∨ tool_opclass tool = OPCLASS_READ_ONLY →
            execute name args v note safe attempt st = (r, st') →
            ∃ new, grows st st' new ∧ call_log (receipted (recording st) tool name) name args new r).
  { intros attempt Hor (new & res & rest & Hg & Ha & Hr & Hans)%execute_log. exists new. split; [done|].
    right. exists [], res, rest. split_and!; try done. by left. }
  destruct (ls_operations st) as [ops|] eqn:Eo.
  2: { apply Hrun. left. unfold recording. by rewrite Eo. }
  case_bool_decide as Eop; [apply Hrun; by right|].
  destruct (json_dumps raw_opts (PyDict safe)) as [desc|e]; [|by apply Hquiet].
  assert (Hrec : recording st = true) by (unfold recording; by rewrite Eo).
  destruct (start _ _ _ _ _ _) as [[[s|e] ops'] w] eqn:Es.
  2: { apply Hquiet. split; [by rewrite app_nil_r|]. by rewrite Hrec. }
  set (st1 := with_world w (EStart name s) (with_operations ops' w st)).
  assert (Hg1 : grows st st1 [EStart name s]) by (split; [done|by rewrite Hrec]).
  destruct (can_execute s) eqn:Ec.
  - intros (new & res & rest & Hg & Ha & Hr & Hans)%execute_log.
    exists ([EStart name s] ++ new). split; [by eapply grows_trans|]. right.
    exists [EStart name s], res, rest. rewrite acts_app, Ha. split_and!; try done.
    right. split; [done|]. split; [done|]. by exists s.
  - cbn [refuse_ambiguous]. intros [= <- <-].
    exists [EStart name s; EEvent (u "operation_ambiguous") [(u "tool", PyStr name); (u "detail", PyStr (so_detail s))]].
    split.
    + destruct Hg1 as [E1 R1]. split; [|done]. cbn. by rewrite <- app_assoc.
    + left. split; [by repeat constructor|]. intros inv [= <-]. by apply invocation_answers.
Qed.

(** A tool call adds to the log either no execution, and then its answer is
    marked as not approved, or exactly one, of the tool and arguments asked
    for: the tool is registered, the guard allowed the call or asked for
    approval and a human granted this very request, and when receipts are kept
    and the tool is not read-only, the control plane issued a fresh receipt
    that admits the execution. *)
Theorem invoke_authorised name args st r st' :
  _invoke name args st = (r, st') →
  ∃ new, grows st st' new ∧
    ( (quiet new ∧ answers name args false r) ∨
      ∃ seg tool asks receipts res rest, new = EDecide (ls_world st) name args :: seg ∧
        get name registry = Some tool ∧
        granted_in (ls_world st) (recording st) tool name args asks receipts ∧
        acts seg = asks ++ receipts ++ EInvoke name args res :: rest ∧
        Forall (λ e, is_invoke e = false) rest ∧ answers name args true r).
Proof.
  unfold _invoke. destruct (get name registry) as [tool|] eqn:Et.
  2: { intros [= <- <-]. exists []. split; [split; [by rewrite app_nil_r|done]|].
       left. split; [constructor|]. intros inv [= <-]. cbn. split_and!; try done. by eexists. }
  cbv zeta. set (w0 := ls_world st). set (v := _decide _ name args). set (d := EDecide w0 name args).
  set (st0 := with_world w0 d st). assert (Hg0 : grows st st0 [d]) by done.
  destruct (decision v) eqn:Ev.
  - intros (new & Hg & Hlog)%with_receipt_log. exists (d :: new).
    split; [exact (grows_trans _ _ _ _ _ Hg0 Hg)|].
    destruct Hlog as [[Hq Hans]|(before & res & rest & Hr & Ha & Hrest & Hans)];
      [left; split; [by constructor|done]|]. right.
    exists new, tool, [], before, res, rest. split_and!; try done. split; [by left|done].
  - unfold ask_approval. cbv zeta. set (ev := EEvent (u "approval_requested") [(u "tool", PyStr name); (u "reason", PyStr (reason v))]).
    destruct (hs_ask h _ _) as [[granted|e] w] eqn:Ea.
    2: { intros [= <- <-]. exists [d; ev]. split; [split; [cbn; by rewrite <- app_assoc|done]|].
         left. split; [by repeat constructor|by intros ? [=]]. }
    set (req := approval_request name args tool v). destruct granted.
    + intros (new & Hg & Hlog)%with_receipt_log. exists (d :: [ev; EAsk req true] ++ new). split.
      { eapply (grows_trans _ _ _ [d]); [exact Hg0|].
        eapply grows_trans; [|exact Hg]. split; [cbn; by rewrite <- app_assoc|done]. }
      destruct Hlog as [[Hq Hans]|(before & res & rest & Hr & Ha & Hrest & Hans)].
      * left. split; [|done]. by repeat constructor.
      * right. exists ([ev; EAsk req true] ++ new), tool, [EAsk req true], before, res, rest. split_and!; try done.
        -- split; [by right|done].
        -- by rewrite acts_app, Ha.
    + intros [= <- <-]. exists [d; ev; EAsk req false; EEvent (u "approval_denied") [(u "tool", PyStr name)]].
      split; [split; [cbn; by rewrite <- !app_assoc|done]|].
      left. split; [by repeat constructor|]. intros inv [= <-]. by apply invocation_answers.
  - unfold deny_call. cbn [application_policy_violation_receipt].
    destruct (application_policy_violation_receipt name (u "guard_denied")) as [receipt|e].
    + intros [= <- <-]. eexists (d :: [_]). split; [split; [cbn; rewrite <- app_assoc; reflexivity|done]|]. left.
      split; [by repeat constructor|]. intros inv [= <-]. by apply invocation_answers.
    + intros [= <- <-]. exists [d]. split; [done|].
      left. split; [by repeat constructor|by intros ? [=]].
Qed.

(** The log of a call keeps every execution authorised. *)
Lemma invoke_log_authorised name args st r st' :
  _invoke name args st = (r, st') → log_authorised (recording st) (ls_log st) →
  log_authorised (recording st') (ls_log st') ∧ recording st' = recording st.
Proof.
  intros (new & [Hlog Hrec] & Hor)%invoke_authorised Hl. rewrite Hlog, Hrec. split; [|done].
  destruct Hor as [[Hq _]|(seg & tool & asks & receipts & res & rest & -> & Ht & Hp & Ha & Hrest & _)].
  - by apply log_authorised_quiet.
  - by eapply log_authorised_call.
Qed.
End loop.

(** ** A concrete host *)
Module Sample.
#[export] Instance names : ExnText := {| exn_name := λ _, u "Error"; exn_text := λ _, u "text" |}.
#[export] Instance repr : PyRepr := λ _, [].
#[export] Instance floats : FloatRepr := λ _, u "0.0".
#[export] Instance words : UnicodeWord := λ _, false.
(** The control plane accepts every operation. *)
#[export] Instance loads : JsonLoads := λ _,
  Some (PyDict [(u "ok", PyBool true); (u "attempt", PyStr (u "a1"))]).

(** The world counts the handler's runs; the model's answers are a script. *)
Definition world : Type := nat * list AssistantMessage.

Definition write_tool : Tool world :=
  mkTool (u "write_file") [] (PyDict []) (λ _ w, (Ok (mkToolResult true (u "done") [] OPCLASS_MANAGED_WRITE), (S w.1, w.2)))
    OPCLASS_MANAGED_WRITE.
Definition read_tool : Tool world :=
  mkTool (u "read_file") [] (PyDict [])
    (λ _ w, (Ok (mkToolResult true (u "text")
              [(u "path", PyStr (u "/w/a.py")); (u "total_lines", PyInt 1); (u "start", PyInt 1); (u "end", PyInt 1)]
              OPCLASS_READ_ONLY), (S w.1, w.2)))
    OPCLASS_READ_ONLY.
Definition review_tool : Tool world :=
  mkTool (u "submit_review") [] (PyDict [])
    (λ _ w, (Ok (mkToolResult true (u "ok") [(u "review_output", PyStr (u "schema_valid"))] OPCLASS_READ_ONLY), (S w.1, w.2)))
    OPCLASS_READ_ONLY.
Definition registry : list (pystr * Tool world) :=
  [(u "write_file", write_tool); (u "read_file", read_tool); (u "submit_review", review_tool)].

Definition host : @LoopHost world := {|
  hs_complete := λ _ _ _ _ w, match w.2 with
                              | m :: ms => (Ok m, (w.1, ms))
                              | [] => (Err (RuntimeError "no answer"), w)
                              end;
  hs_last_usage := λ _, None;
  hs_usage := λ _, mkUsage 0 0 0 0 0 0 0 0 None;
  hs_ask := λ _ w, (Ok true, w);
  hs_process := λ _ w, (Ok (0%Z, u "{}"), w);
  hs_fs := λ _, lexical_fs;
  hs_resolve_strict := λ _ v, match v with PyStr s => Some (Path_of_str s) | _ => None end;
  hs_is_file := λ _ _, false;
  hs_iterdir := λ _, Ok [];
  hs_worklist := λ _, None;
  hs_on_event := λ _ _ w, w;
  hs_on_turn := λ _ _ _ w, w
|}.

Definition scope : Scope :=
  mkScope (mkPath (u "/") [u "w"]) [] None (Some [mkPath (u "/") [u "w"; u "a.py"]]) None [] [] [].
Definition context : LoopContext := mkContext (mkPath (u "/") [u "w"]) 8000 None true true true.
Definition state (answers : list AssistantMessage) : @LoopState world :=
  mkLoop (0, answers) [] (Some (mkRecorder (u "/t") (u "T-1") (u "code") [])) [] (BudgetTracker_new default_budget).
Definition write_args : dict := [(u "path", PyStr (u "a.py")); (u "content", PyStr (u "x"))].
End Sample.
#[local] Existing Instances Sample.names Sample.repr Sample.floats Sample.words Sample.loads.

Lemma invoke_authorised_witness :
  let out := _invoke Sample.host Sample.registry Sample.scope Sample.context (u "write_file") Sample.write_args (Sample.state []) in
  (ls_world out.2).1 = 1 ∧ acts (ls_log out.2) ≠ [] ∧
  ∃ new, grows (Sample.state []) out.2 new.
Proof.
  intros out. split; [vm_compute; reflexivity|]. split; [vm_compute; discriminate|].
  destruct (invoke_authorised Sample.host Sample.registry Sample.scope Sample.context (u "write_file")
              Sample.write_args (Sample.state []) out.1 out.2) as (new & Hg & _).
  { apply surjective_pairing. }
  exists new. exact Hg.
Defined.

(** The arguments are digested after the guard and before the receipt: a lone
    surrogate in them, which JSON text can carry, makes the call raise. *)
Example surrogate_argument_raises :
  (_invoke Sample.host Sample.registry Sample.scope Sample.context (u "write_file")
     [(u "path", PyStr (u "a.py")); (u "content", PyStr [55357%N])] (Sample.state [])).1
  = Err (ValueError "surrogates not allowed").
Proof. vm_compute. reflexivity. Qed.
