(* ===== verification/AgentLoop.v ===== *)
(** * The agent loop ([src/src/icode/loop.py], [AgentLoop.run])

    The bounded loop "model, tools, model": which tool the model may or must
    call next, the reading and delivery a step requires, the message each tool
    call is answered with, and the ways a run ends.  A turn is a function of the
    run's variables and the state of [ToolGate]; its parts are separate
    definitions in the order of the code. *)

From S2P Require Import Prelude PyText PyVal Hashing Json Paths Regex Guard Contracts Utf8 Tools Operations Budget ReadCoverage ToolGate.
From S2P Require Compaction.

(** ** Configuration, turns and results *)
Record LoopConfig := mkConfig {
  cf_max_turns : nat;
  cf_max_tool_calls_per_turn : nat;
  cf_max_output_tokens : Z;
  cf_tool_choice : pystr;
  cf_tool_choice_after_read : option pystr;
  cf_tool_choice_on_no_tool : option pystr;
  cf_force_tool_after_turns : option nat;
  cf_force_tool_after_turns_tool : option pystr;
  cf_force_tool_prompt : option pystr;
  cf_required_tool_retry_count : Z;
  cf_required_tool_turn_reserve : nat;
  cf_compact_budget_chars : Z
}.

Record Turn := mkTurn { tn_index : nat; tn_assistant : AssistantMessage; tn_invocations : list ToolInvocation }.

Record LoopResult := mkLoopResult {
  lr_ok : bool;
  lr_stop_reason : pystr;
  lr_turns : list Turn;
  lr_messages : list message;
  lr_usage : Usage;
  lr_error : pystr
}.

(** [sum(len(t.invocations) for t in self.turns)] *)
Definition tool_calls (r : LoopResult) : nat := foldr Nat.add 0 ((λ t, length (tn_invocations t)) <$> lr_turns r).

(** ** Messages *)
Definition user_message (text : pystr) : message := [(u "role", PyStr (u "user")); (u "content", PyStr text)].

Definition call_payload `{FloatRepr} (c : ToolCall) : result pyval :=
  args ← json_dumps raw_opts (tc_arguments c);
  Ok (PyDict [(u "id", PyStr (tc_id c)); (u "type", PyStr (u "function"));
              (u "function", PyDict [(u "name", PyStr (tc_name c)); (u "arguments", PyStr args)])]).

Definition _assistant_message `{FloatRepr} (m : AssistantMessage) : result message :=
  let head := [(u "role", PyStr (u "assistant")); (u "content", PyStr (am_content m))] in
  match am_tool_calls m with
  | [] => Ok head
  | calls => ps ← mapM_res call_payload calls; Ok (head ++ [(u "tool_calls", PyList ps)])
  end.

Definition _tool_message (call_id : pystr) (inv : ToolInvocation) : message :=
  let body := match iv_result inv with
              | None => if iv_note inv =s [] then u "动作未执行" else iv_note inv
              | Some r => let b := clipped DEFAULT_OUTPUT_LIMIT r in if tr_ok r then b else u "[失败] " ++ b
              end in
  [(u "role", PyStr (u "tool")); (u "tool_call_id", PyStr call_id); (u "content", PyStr body)].

(** [dict(call.arguments) if isinstance(call.arguments, dict) else {}] *)
Definition call_arguments (c : ToolCall) : dict := match tc_arguments c with PyDict d => d | _ => [] end.

(** ** The review-round alias *)
(** The value of a decimal digit outside ASCII is Unicode data. *)
Class UnicodeDigits := uni_digit : N → option N.
Definition digit_of `{UnicodeDigits} (c : N) : option N :=
  if is_digit c then Some (c - 48)%N else if is_ascii c then None else uni_digit c.

(** [int(text)] of a text of digits; more than 4300 digits raise. *)
Definition int_of_digits (ds : list N) : result Z :=
  if 4300 <? length ds then Err (ValueError "Exceeds the limit for integer string conversion")
  else Ok (Z.of_N (foldl (λ acc d, acc * 10 + d)%N 0%N ds)).

(** The digits of [re.fullmatch(r"review_round_(\d+)\.json", name)]. *)
Definition round_digits `{UnicodeDigits} (name : pystr) : option (list N) :=
  if startswith (u "review_round_") name && endswith (u ".json") name && (18 <=? length name) then
    let core := take (length name - 18) (drop 13 name) in
    match core with [] => None | _ => mapM digit_of core end
  else None.

(** [payload.get(key)] when it is a list of [str]. *)
Definition issue_list (key : string) (payload : dict) : option pyval :=
  match pget (u key) payload with
  | PyList l => if forallb is_str l then Some (PyList l) else None
  | _ => None
  end.

Definition _review_round_alias_arguments `{UnicodeDigits, JsonLoads} (arguments : dict) : result (option dict) :=
  match pget (u "name") arguments with
  | PyStr name =>
    if negb (startswith (u "review_round_") name && endswith (u ".json") name) then Ok None
    else
      let payload := match pget (u "content") arguments with
                     | PyDict d => Some d
                     | PyStr s => match json_loads s with Some (PyDict d) => Some d | _ => None end
                     | _ => None
                     end in
      match payload, round_digits name with
      | Some payload, Some ds =>
        match pget (u "round") payload with
        | PyInt z =>
          n ← int_of_digits ds;
          Ok (if negb (z =? n)%Z then None
              else match issue_list "new_issues" payload, issue_list "refuted_issues" payload,
                         issue_list "pending_verification" payload with
                   | Some a, Some b, Some c =>
                     Some [(u "round", PyInt z); (u "new_issues", a); (u "refuted_issues", b);
                           (u "pending_verification", c)]
                   | _, _, _ => None
                   end)
        | _ => Ok None
        end
      | _, _ => Ok None
      end
  | _ => Ok None
  end.

(** ** [fnmatch.fnmatchcase]: a shell pattern as a regular expression *)
(** The members of a set: ranges and single characters. *)
Fixpoint set_member (c : N) (body : list N) : bool :=
  match body with
  | a :: 45%N :: b :: rest => ((a <=? c) && (c <=? b))%N || set_member c rest
  | a :: rest => (c =? a)%N || set_member c rest
  | [] => false
  end.

(** The text of a set up to its closing bracket, and what follows. *)
Fixpoint set_body (first : bool) (p : list N) : option (list N * list N) :=
  match p with
  | [] => None
  | c :: p' =>
    if (c =? 93)%N && negb first then Some ([], p')
    else match set_body false p' with Some (b, rest) => Some (c :: b, rest) | None => None end
  end.

Fixpoint glob_regex (fuel : nat) (p : list N) : regex :=
  match fuel, p with
  | S fuel', c :: p' =>
    if (c =? 42)%N then RSeq (RStar (RChar (λ _, true))) (glob_regex fuel' p')
    else if (c =? 63)%N then RSeq (RChar (λ _, true)) (glob_regex fuel' p')
    else if (c =? 91)%N then
      let '(negated, q) := match p' with 33%N :: q => (true, q) | _ => (false, p') end in
      match set_body true q with
      | Some (body, rest) =>
        RSeq (RChar (λ d, xorb negated (set_member d body))) (glob_regex fuel' rest)
      | None => RSeq (RChar (N.eqb c)) (glob_regex fuel' p')
      end
    else RSeq (RChar (N.eqb c)) (glob_regex fuel' p')
  | _, _ => REps
  end.
Definition fnmatchcase `{UnicodeWord} (name pat : pystr) : bool := re_fullmatch (glob_regex (length pat) pat) name.

Example fnmatch_examples `{UnicodeWord} :
  fnmatchcase (u "review_round_12.json") (u "review_round_*.json") = true ∧
  fnmatchcase (u "review_round_1.md") (u "review_round_*.json") = false ∧
  fnmatchcase (u "a1") (u "[!b-d]?") = true ∧ fnmatchcase (u "c1") (u "[!b-d]?") = false.
Proof. vm_compute. done. Qed.

(** ** The variables of a run *)
(** What the model may or must call next. *)
Record delivery := mkDelivery {
  dl_choice : pystr;                  (* tool_choice *)
  dl_on_no_tool : option pystr;       (* tool_choice_on_no_tool *)
  dl_retry : Z;                       (* required_tool_retry_remaining *)
  dl_forced : option pystr;           (* forced_output_tool *)
  dl_edit_paths : list pystr;         (* forced_edit_paths *)
  dl_edit_required : bool;            (* delivery_edit_required *)
  dl_complete : bool;                 (* forced_delivery_complete *)
  dl_phase : option pystr;            (* inspection_phase_required *)
  dl_expected : list pystr;           (* inspection_expected_paths *)
  dl_read_paths : list pystr          (* inspection_read_paths *)
}.

Definition with_choice (c : pystr) (d : delivery) : delivery :=
  mkDelivery c (dl_on_no_tool d) (dl_retry d) (dl_forced d) (dl_edit_paths d) (dl_edit_required d)
    (dl_complete d) (dl_phase d) (dl_expected d) (dl_read_paths d).
Definition with_on_no_tool (o : option pystr) (d : delivery) : delivery :=
  mkDelivery (dl_choice d) o (dl_retry d) (dl_forced d) (dl_edit_paths d) (dl_edit_required d)
    (dl_complete d) (dl_phase d) (dl_expected d) (dl_read_paths d).
Definition with_retry (n : Z) (d : delivery) : delivery :=
  mkDelivery (dl_choice d) (dl_on_no_tool d) n (dl_forced d) (dl_edit_paths d) (dl_edit_required d)
    (dl_complete d) (dl_phase d) (dl_expected d) (dl_read_paths d).
Definition with_forced (o : option pystr) (d : delivery) : delivery :=
  mkDelivery (dl_choice d) (dl_on_no_tool d) (dl_retry d) o (dl_edit_paths d) (dl_edit_required d)
    (dl_complete d) (dl_phase d) (dl_expected d) (dl_read_paths d).
Definition with_edit_path (p : pystr) (d : delivery) : delivery :=
  mkDelivery (dl_choice d) (dl_on_no_tool d) (dl_retry d) (dl_forced d)
    (if p ∈s dl_edit_paths d then dl_edit_paths d else dl_edit_paths d ++ [p]) (dl_edit_required d)
    (dl_complete d) (dl_phase d) (dl_expected d) (dl_read_paths d).
Definition with_edit_required (b : bool) (d : delivery) : delivery :=
  mkDelivery (dl_choice d) (dl_on_no_tool d) (dl_retry d) (dl_forced d) (dl_edit_paths d) b
    (dl_complete d) (dl_phase d) (dl_expected d) (dl_read_paths d).
Definition with_complete (b : bool) (d : delivery) : delivery :=
  mkDelivery (dl_choice d) (dl_on_no_tool d) (dl_retry d) (dl_forced d) (dl_edit_paths d) (dl_edit_required d)
    b (dl_phase d) (dl_expected d) (dl_read_paths d).
(** The three variables of an inspection change together. *)
Definition with_inspection (phase : option pystr) (expected read : list pystr) (d : delivery) : delivery :=
  mkDelivery (dl_choice d) (dl_on_no_tool d) (dl_retry d) (dl_forced d) (dl_edit_paths d) (dl_edit_required d)
    (dl_complete d) phase expected read.
Definition with_phase (phase : option pystr) (d : delivery) : delivery :=
  with_inspection phase (dl_expected d) (dl_read_paths d) d.

Record run_vars := mkVars {
  rv_history : list message;
  rv_turns : list Turn;
  rv_total : nat;
  rv_dl : delivery;
  rv_reading : read_state;
  rv_completed : list Path
}.

Section loop.
Context {W : Type} (h : @LoopHost W) (registry : list (pystr * Tool W)) (scope : Scope) (ctx : LoopContext)
        (cfg : LoopConfig).
Context `{ExnText, PyRepr, FloatRepr, UnicodeWord, UnicodeDigits, JsonLoads}.
Abbreviation LoopState := (@LoopState W).

Definition registered (name : pystr) : bool := dhas name registry.
Definition registered_opt (o : option pystr) : bool := match o with Some n => registered n | None => true end.

(** The checks of [AgentLoop.__init__]. *)
Definition config_check : result unit :=
  _ ← raise_if (negb (cf_tool_choice cfg ∈s [u "auto"; u "required"]) && negb (registered (cf_tool_choice cfg)))
        (ValueError "tool_choice");
  _ ← match cf_tool_choice_after_read cfg with
      | None => Ok tt
      | Some t =>
        _ ← raise_if (cf_tool_choice cfg ≠s u "read_file") (ValueError "tool_choice_after_read");
        _ ← raise_if (negb (registered t)) (ValueError "tool_choice_after_read");
        raise_if (match allowed_read_files scope with Some (_ :: _) => false | _ => true end)
          (ValueError "tool_choice_after_read")
      end;
  _ ← raise_if (negb (registered_opt (cf_tool_choice_on_no_tool cfg))) (ValueError "tool_choice_on_no_tool");
  _ ← raise_if (match cf_force_tool_after_turns cfg with
                | Some n => (n <? 1) || (cf_max_turns cfg <? n)
                | None => false
                end) (ValueError "force_tool_after_turns");
  _ ← raise_if (negb (registered_opt (cf_force_tool_after_turns_tool cfg))) (ValueError "force_tool_after_turns_tool");
  raise_if ((0 <? cf_required_tool_turn_reserve cfg)
            && (match cf_tool_choice_after_read cfg with None => true | Some _ => false end
                || (cf_max_turns cfg <=? cf_required_tool_turn_reserve cfg)))
    (ValueError "required_tool_turn_reserve").

Definition expected_read_files : list Path := default [] (allowed_read_files scope).

(** ** Artifacts *)
Definition artifact_outputs : list Port :=
  match lc_artifact_broker ctx with
  | None => []
  | Some (_, outputs) => filter (λ p, port_value p ≠ u "review_manifest.json") outputs
  end.

Fixpoint missing_ports (w : W) (ports : list Port) : result (list pystr) :=
  match ports with
  | [] => Ok []
  | p :: ports' =>
    here ← (if port_kind p =s u "ticket_file" then Ok (negb (hs_is_file h w (port_value p)))
            else if port_kind p =s u "ticket_glob" then
              names ← hs_iterdir h w;
              Ok (negb (existsb (λ f, snd f && fnmatchcase (fst f) (port_value p)) (names : list (pystr * bool))))
            else Ok false);
    rest ← missing_ports w ports';
    Ok (if here : bool then port_value p :: rest else rest)
  end.

(** The outputs still absent from the ticket; [hs_iterdir] tells of each entry
    whether it is a regular file and no symbolic link. *)
Definition missing_artifacts (w : W) : result (list pystr) :=
  match lc_artifact_broker ctx with None => Ok [] | Some _ => missing_ports w artifact_outputs end.

Definition existing_worklists (w : W) : list pystr :=
  filter (λ v, hs_is_file h w v = true)
    (filter (λ v, endswith (u "_worklist.json") v = true) (port_value <$> artifact_outputs)).

(** The paths of [code_worklist.json]: an [AttributeError] discards them all,
    any other exception propagates. *)
Definition worklist_item (acc : list pystr) (item : pyval) : result (list pystr) :=
  path ← attr_get item (u "path");
  Ok (match path with
      | PyStr (c :: s) => if (c :: s) ∈s acc then acc else acc ++ [c :: s]
      | _ => acc
      end).
Definition worklist_unit (acc : list pystr) (unit_ : pyval) : result (list pystr) :=
  match unit_ with
  | PyDict d => files ← py_iter (pget_or (u "files") (PyList []) d); foldM_res worklist_item acc files
  | _ => Err (AttributeError "get")
  end.
Definition worklist_paths (payload : option pyval) : result (list pystr) :=
  match payload with
  | None => Ok []
  | Some (PyDict d) =>
    match (units ← py_iter (pget_or (u "units") (PyList []) d); foldM_res worklist_unit [] units) with
    | Err (AttributeError _) => Ok []
    | r => r
    end
  | Some _ => Ok []
  end.

(** ** After the calls of a turn *)
Definition prompt_wrong_phase (phase : pystr) : pystr :=
  u "inspection 阶段顺序必须严格执行：现在只能调用 phase=" ++ phase ++ u "，不要调用其它工具。".
Definition prompt_edited : pystr :=
  u "代码文件已实际修改，旧 worklist 可能已过期；现在必须重新调用 inspection，第一步只能用 phase=prepare 重建当前 code 工作清单。prepare 成功后按宿主提示逐个用 phase=read、read_phase=code_review 登记，最后用 phase=check 完成机器审查。不要提交 code_worklist.json，也不要再执行 run_command。".
Definition prompt_submit_all (missing : list pystr) : pystr :=
  u "代码文件已实际修改；现在必须调用 submit_artifact，逐项提交以下全部 code 产物：" ++ join (u "、") missing
  ++ u "。每次只提交一个文件，name/content 都必须是字符串，不要再读取或执行命令。".
Definition prompt_prepared (expected : list pystr) : pystr :=
  u "inspection prepare 已成功。现在只能调用 inspection 的 phase=read，read_phase=code_review；请按顺序逐个读取这些路径："
  ++ join (u "、") expected ++ u "。全部 read 成功后再调用 phase=check。".
Definition prompt_read_more (remaining : list pystr) : pystr :=
  u "inspection read 已登记；继续只能调用 phase=read、read_phase=code_review，剩余路径：" ++ join (u "、") remaining.
Definition prompt_check : pystr := u "所有 inspection read 已登记；现在只能调用 phase=check，不要调用其它工具。".
Definition prompt_checked (missing : list pystr) : pystr :=
  u "inspection check 已成功；现在只能调用 submit_artifact，提交缺失的模型产物：" ++ join (u "、") missing
  ++ u "。name/content 必须是字符串，不要提交机器生成的 worklist。".
Definition prompt_retry_phase (phase : pystr) : pystr :=
  u "inspection 调用未完成；请按当前要求重试 phase=" ++ phase ++ u "，不要调用其它工具或用普通文本结束。".
Definition prompt_missing (missing : list pystr) (follow_up : pystr) : pystr :=
  u "仍缺少以下步骤产物：" ++ join (u "、") missing ++ u "。" ++ follow_up.
Definition follow_up_round : pystr :=
  u "仍缺少 review round；现在必须调用 submit_review_round，参数使用 round=1、new_issues/refuted_issues/pending_verification 三个字符串数组。不要再次调用 submit_artifact，也不要用普通文本结束。".
Definition follow_up_artifact : pystr :=
  u "请继续调用 submit_artifact，逐项提交缺失产物；不要以普通文本结束，也不要提交 review_manifest.json。".

(** What the handling of the calls of one message accumulates; [cv_deferred] is
    the first component of [deferred_tool_transition]. *)
Record call_vars := mkCalls {
  cv_history : list message;
  cv_invs : list ToolInvocation;
  cv_dl : delivery;
  cv_reading : read_state;
  cv_completed : list Path;
  cv_prompts : list pystr;
  cv_deferred : option pystr
}.

(** The delivery variables with the prompts and the transition a call adds. *)
Abbreviation progress := (delivery * list pystr * option pystr)%type.
Definition add_prompt (p : pystr) (x : progress) : progress := (x.1.1, x.1.2 ++ [p], x.2).
Definition transition_to (t : pystr) (x : progress) : progress := (x.1, Some t).
Definition on_delivery (f : delivery → delivery) (x : progress) : progress := (f x.1.1, x.1.2, x.2).

Definition result_ok (inv : ToolInvocation) : bool :=
  match iv_result inv with Some r => tr_ok r | None => false end.
Definition result_meta (inv : ToolInvocation) : dict :=
  match iv_result inv with Some r => tr_meta r | None => [] end.

(** A submission that completes the delivery lets the model end. *)
Definition after_submission (w : W) (name : pystr) (inv : ToolInvocation) (d : delivery) : result delivery :=
  if (dl_choice d ≠s u "auto") && (name ∈s [u "submit_review"; u "submit_artifact"; u "submit_review_round"])
     && result_ok inv
  then
    complete ← (if name ∈s [u "submit_artifact"; u "submit_review_round"]
                then m ← missing_artifacts w; Ok (bool_decide (m = []))
                else Ok false);
    if (complete : bool) || is_lit (pget (u "review_output") (result_meta inv)) (u "schema_valid") then
      let d := with_complete true (with_choice (u "auto") d) in
      Ok (if bool_decide (dl_forced d = Some name) then with_forced None d else d)
    else Ok d
  else Ok d.

(** The second source file edited under a forced delivery starts an inspection. *)
Definition after_edit (w : W) (inv : ToolInvocation) (x : progress) : result progress :=
  let path := arg_text "path" [] (iv_arguments inv) in
  let x := if path =s [] then x else on_delivery (with_edit_path (path_name (Path_of_str path))) x in
  missing ← missing_artifacts w;
  match (2 <=? length (dl_edit_paths x.1.1)), missing with
  | true, _ :: _ =>
    let x := on_delivery (with_inspection (Some (u "prepare")) [] []) x in
    Ok (if registered (u "inspection") then add_prompt prompt_edited (transition_to (u "inspection") x)
        else add_prompt (prompt_submit_all missing) (transition_to (u "submit_artifact") x))
  | _, _ => Ok x
  end.

(** The phases prepare, read (every expected path), check. *)
Definition after_inspection (w : W) (inv : ToolInvocation) (x : progress) : result progress :=
  let phase := pget (u "phase") (iv_arguments inv) in
  if is_lit phase (u "prepare") then
    listed ← match lc_artifact_broker ctx with Some _ => worklist_paths (hs_worklist h w) | None => Ok [] end;
    let expected := match listed with [] => sorted_strs (dl_edit_paths x.1.1) | _ => listed end in
    Ok (add_prompt (prompt_prepared expected) (on_delivery (with_inspection (Some (u "read")) expected []) x))
  else if is_lit phase (u "read") then
    let d := x.1.1 in
    let read := match pget (u "path") (iv_arguments inv) with
                | PyStr p => if p ∈s dl_read_paths d then dl_read_paths d else dl_read_paths d ++ [p]
                | _ => dl_read_paths d
                end in
    let remaining := filter (λ p, p ∉ read) (dl_expected d) in
    match remaining with
    | _ :: _ => Ok (add_prompt (prompt_read_more remaining)
                      (on_delivery (with_inspection (Some (u "read")) (dl_expected d) read) x))
    | [] => Ok (add_prompt prompt_check (on_delivery (with_inspection (Some (u "check")) (dl_expected d) read) x))
    end
  else if is_lit phase (u "check") then
    let x := on_delivery (with_phase None) x in
    missing ← missing_artifacts w;
    match missing with
    | _ :: _ => Ok (add_prompt (prompt_checked missing) (transition_to (u "submit_artifact") x))
    | [] => Ok (transition_to (u "auto") x)
    end
  else
    let phase := match dl_phase x.1.1 with Some (c :: s) => c :: s | _ => u "prepare" end in
    Ok (add_prompt (prompt_retry_phase phase) (on_delivery (with_phase (Some phase)) x)).

(** The forced tool, or a required edit, was called with success. *)
Definition after_forced (w : W) (name : pystr) (inv : ToolInvocation) (x : progress) : result progress :=
  let d := x.1.1 in
  if (bool_decide (dl_forced d = Some name) || (dl_edit_required d && (name =s u "edit_file")))
     && negb (name ∈s [u "submit_artifact"; u "submit_review_round"]) && result_ok inv
  then
    if (name =s u "edit_file") && match lc_artifact_broker ctx with Some _ => true | None => false end
    then after_edit w inv x
    else if name =s u "inspection" then after_inspection w inv x
    else Ok (on_delivery (λ d, with_forced None (with_choice (u "auto") d)) x)
  else Ok x.

Definition after_artifact (w : W) (name : pystr) (inv : ToolInvocation) (x : progress) : result progress :=
  if (dl_choice x.1.1 ≠s u "auto") && (name =s u "submit_artifact") && result_ok inv then
    missing ← missing_artifacts w;
    match missing with
    | [] => Ok x
    | _ :: _ =>
      if registered (u "submit_review_round") && existsb (startswith (u "review_round_")) missing
      then Ok (add_prompt (prompt_missing missing follow_up_round) (transition_to (u "submit_review_round") x))
      else Ok (add_prompt (prompt_missing missing follow_up_artifact) x)
    end
  else Ok x.

(** ** The calls of one message *)
(** A call that is answered without being made. *)
Definition refused_invocation (name : pystr) (args : dict) (content : pystr) (meta : dict) (note : pystr)
  : ToolInvocation := mkInvocation name args DENY false (Some (mkToolResult false content meta OPCLASS_READ_ONLY)) note.

Definition answer_call (id : pystr) (inv : ToolInvocation) (c : call_vars) : call_vars :=
  mkCalls (cv_history c ++ [_tool_message id inv]) (cv_invs c ++ [inv]) (cv_dl c) (cv_reading c) (cv_completed c)
    (cv_prompts c) (cv_deferred c).
Definition prompting (p : pystr) (c : call_vars) : call_vars :=
  mkCalls (cv_history c) (cv_invs c) (cv_dl c) (cv_reading c) (cv_completed c) (cv_prompts c ++ [p]) (cv_deferred c).

Definition not_forced (name forced : pystr) (args : dict) : ToolInvocation :=
  refused_invocation name args (u "本回合只能调用 " ++ forced ++ u "，未执行 " ++ name ++ u "。")
    [(u "error", PyStr (u "forced_tool_only")); (u "required_tool", PyStr forced)]
    (u "强制交付回合拒绝非目标工具").
Definition prompt_forced (forced : pystr) : pystr :=
  u "请立即改用唯一允许的 " ++ forced ++ u " 工具；不要再调用其它工具，也不要用普通文本结束。".
Definition wrong_phase (name phase : pystr) (args : dict) : ToolInvocation :=
  refused_invocation name args (u "当前 inspection 阶段只能调用 phase=" ++ phase ++ u "。")
    [(u "error", PyStr (u "inspection_phase_order")); (u "required_phase", PyStr phase)]
    (u "inspection 阶段顺序未满足，未执行").

(** The name and arguments after the alias of a generic artifact call. *)
Definition translate_call (d : delivery) (call : ToolCall) : result (pystr * dict) :=
  let args := call_arguments call in
  if bool_decide (dl_forced d = Some (u "submit_review_round")) && (tc_name call =s u "submit_artifact") then
    t ← _review_round_alias_arguments args;
    Ok (match t with Some a => (u "submit_review_round", a) | None => (tc_name call, args) end)
  else Ok (tc_name call, args).

(** What follows an answered call: reading, then delivery. *)
Definition note_progress (name : pystr) (inv : ToolInvocation) (c : call_vars) (w : W) : result call_vars :=
  let '(done, reading) :=
    _record_complete_read_file (hs_resolve_strict h w) expected_read_files (lc_output_limit ctx) (cv_reading c) inv in
  let completed := match done with Some p => p :: cv_completed c | None => cv_completed c end in
  let d := cv_dl c in
  let d := match cf_tool_choice_after_read cfg with
           | Some t => if (dl_choice d =s cf_tool_choice cfg)
                          && forallb (λ p, p ∈s completed) expected_read_files
                       then with_choice t d else d
           | None => d
           end in
  d ← after_submission w name inv d;
  x ← after_forced w name inv (d, cv_prompts c, cv_deferred c);
  x ← after_artifact w name inv x;
  Ok (mkCalls (cv_history c) (cv_invs c) x.1.1 reading completed x.1.2 x.2).

(** The two refusals before a call is made: another tool is forced, or an
    inspection must be in another phase. *)
Definition refusal (d : delivery) (name : pystr) (args : dict) : option (ToolInvocation * pystr) :=
  let phase_refusal :=
    match dl_phase d with
    | Some phase =>
      if (name =s u "inspection") && negb (is_lit (pget (u "phase") args) phase)
      then Some (wrong_phase name phase args, prompt_wrong_phase phase) else None
    | None => None
    end in
  match dl_forced d with
  | Some forced => if name ≠s forced then Some (not_forced name forced args, prompt_forced forced) else phase_refusal
  | None => phase_refusal
  end.

Definition allowed_call (call : ToolCall) (c : call_vars) (st : LoopState) : result call_vars * LoopState :=
  match translate_call (cv_dl c) call with
  | Err e => (Err e, st)
  | Ok (name, args) =>
    match refusal (cv_dl c) name args with
    | Some (inv, prompt) => (Ok (prompting prompt (answer_call (tc_id call) inv c)), st)
    | None =>
      match _invoke h registry scope ctx name args st with
      | (Err e, st) => (Err e, st)
      | (Ok inv, st) => (note_progress name inv (answer_call (tc_id call) inv c) (ls_world st), st)
      end
    end
  end.

Fixpoint allowed_calls (calls : list ToolCall) (c : call_vars) (st : LoopState) : result call_vars * LoopState :=
  match calls with
  | [] => (Ok c, st)
  | call :: calls' =>
    match allowed_call call c st with
    | (Err e, st) => (Err e, st)
    | (Ok c, st) => allowed_calls calls' c st
    end
  end.

(** Calls answered without being made, each with its event. *)
Fixpoint skip_calls (refuse : ToolCall → ToolInvocation) (calls : list ToolCall) (c : call_vars) (st : LoopState)
  : call_vars * LoopState :=
  match calls with
  | [] => (c, st)
  | call :: calls' =>
    skip_calls refuse calls' (answer_call (tc_id call) (refuse call) c)
      (on_event h "tool_skipped_budget" [(u "tool", PyStr (tc_name call))] st)
  end.

Definition over_turn_limit (call : ToolCall) : ToolInvocation :=
  refused_invocation (tc_name call) (call_arguments call)
    (u "未执行：本回合工具调用数超过上限（" ++ dec (N.of_nat (cf_max_tool_calls_per_turn cfg))
     ++ u "）。请缩小批次，在下一回合重发这条调用。")
    [(u "error", PyStr (u "turn_tool_budget"))] (u "超出单回合工具调用上限，未执行").
Definition over_budget (call : ToolCall) : ToolInvocation :=
  refused_invocation (tc_name call) (call_arguments call) (u "未执行：运行预算超限，已停止本次调用。")
    [(u "error", PyStr (u "budget_exceeded"))] (u "运行预算超限，未执行").

(** The deferred transition, applied when every call has its answer. *)
Definition apply_transition (o : option pystr) (d : delivery) : delivery :=
  match o with
  | None => d
  | Some t =>
    let d := with_forced (if t =s u "auto" then None else Some t) (with_choice t d) in
    let d := if t =s u "auto" then with_complete true d else d in
    if t =s u "inspection" then with_edit_required false d else d
  end.

(** ** One turn *)
Inductive outcome :=
  | Continue (v : run_vars)
  | Break (v : run_vars) (stop_reason error : pystr)
  | Return (r : LoopResult).

Definition notify (index total : nat) (history : list message) (st : LoopState) : LoopState :=
  mkLoop (hs_on_turn h index total history (ls_world st)) (ls_log st) (ls_operations st) (ls_unclosed st) (ls_budget st).

Definition is_over_budget (st : LoopState) : result bool :=
  v ← tracker_verdict (ls_budget st); Ok (bool_decide (v = u "over_budget")).

(** The last turns are reserved for the submission that follows the reading. *)
Definition reserve_exhausted (index : nat) (d : delivery) : bool :=
  (0 <? cf_required_tool_turn_reserve cfg)
  && match cf_tool_choice_after_read cfg with Some _ => true | None => false end
  && (dl_choice d =s cf_tool_choice cfg)
  && (cf_max_turns cfg - cf_required_tool_turn_reserve cfg <? index).

(** From [force_tool_after_turns] on, a free choice becomes the output tool. *)
Definition force_output (index : nat) (v : run_vars) : run_vars :=
  let d := rv_dl v in
  match cf_force_tool_after_turns cfg with
  | Some n =>
    if (n <=? index) && (dl_choice d =s u "auto") && negb (dl_complete d) then
      let target := match cf_force_tool_after_turns_tool cfg with
                    | Some (c :: s) => Some (c :: s)
                    | Some [] => match cf_tool_choice_on_no_tool cfg with Some t => Some t | None => Some [] end
                    | None => cf_tool_choice_on_no_tool cfg
                    end in
      match target with
      | None => v
      | Some t =>
        let d := with_forced (Some t) (with_choice t d) in
        let d := if t =s u "edit_file" then with_edit_required true d else d in
        let d := with_retry (cf_required_tool_retry_count cfg) d in
        let history := match cf_force_tool_prompt cfg with
                       | Some (c :: p) => rv_history v ++ [user_message (c :: p)]
                       | _ => rv_history v
                       end in
        mkVars history (rv_turns v) (rv_total v) d (rv_reading v) (rv_completed v)
      end
    else v
  | None => v
  end.

Definition digest_payload (g : Compaction.digest) : dict :=
  [(u "compacted", PyBool (Compaction.dg_compacted g));
   (u "system", PyInt (Z.of_nat (Compaction.dg_system g)));
   (u "constraints", PyInt (Z.of_nat (Compaction.dg_constraints g)));
   (u "tail", PyInt (Z.of_nat (Compaction.dg_tail g)));
   (u "dropped", PyInt (Z.of_nat (Compaction.dg_dropped g)));
   (u "unclosed", PyInt (Z.of_nat (Compaction.dg_unclosed g)));
   (u "chars_before", PyInt (Z.of_nat (Compaction.dg_chars_before g)));
   (u "chars_after", PyInt (Z.of_nat (Compaction.dg_chars_after g)))].

Definition with_history (hist : list message) (v : run_vars) : run_vars :=
  mkVars hist (rv_turns v) (rv_total v) (rv_dl v) (rv_reading v) (rv_completed v).

Definition compact_if_needed (v : run_vars) (st : LoopState) : result run_vars * LoopState :=
  let budget := cf_compact_budget_chars cfg in
  if (budget =? 0)%Z then (Ok v, st)
  else
    match Compaction.history_chars (rv_history v) with
    | Err e => (Err e, st)
    | Ok n =>
      if (Z.of_nat n <=? budget)%Z then (Ok v, st)
      else
        match Compaction.compact_history (PyDict <$> rv_history v) (PyInt budget) (PyInt 2)
                (PyStr <$> ls_unclosed st) with
        | Err e => (Err e, st)
        | Ok r =>
          if Compaction.cr_compacted r then
            (Ok (with_history (Compaction.cr_messages r) v),
             on_event h "context_compacted" (digest_payload (Compaction.cr_digest r)) st)
          else (Ok v, st)
        end
    end.

Definition prompt_no_text : pystr :=
  u "本步骤不能以普通文本结束；请立即调用指定的结构化提交工具，提交真实审查内容，不要重复环境探查。".
Definition prompt_required : pystr :=
  u "本步骤要求通过已提供的工具完成操作；上一条普通文本不会被采纳。请按当前 system 指令调用所需工具，不要用自由文本代替。".

(** A message without tool calls ends the run, unless a tool is required. *)
Definition no_calls_turn (index : nat) (t : Turn) (v : run_vars) (st : LoopState) : outcome * LoopState :=
  let d := rv_dl v in
  let turns := rv_turns v ++ [t] in
  let keep hist d := mkVars hist turns (rv_total v) d (rv_reading v) (rv_completed v) in
  match dl_on_no_tool d, dl_choice d =s u "auto" with
  | Some tool, true =>
    let d := with_forced (Some tool) (with_on_no_tool None
               (with_retry (cf_required_tool_retry_count cfg) (with_choice tool d))) in
    let hist := rv_history v ++ [user_message prompt_no_text] in
    (Continue (keep hist d), notify index (rv_total v) hist st)
  | _, false =>
    let st := notify index (rv_total v) (rv_history v) st in
    if (0 <? dl_retry d)%Z then
      (Continue (keep (rv_history v ++ [user_message prompt_required]) (with_retry (dl_retry d - 1) d)), st)
    else
      (Return (mkLoopResult false (u "required_tool_not_called") turns (rv_history v) (bt_usage (ls_budget st))
                 (u "必需工具模式下模型连续未调用工具，已失败关闭")), st)
  | None, true =>
    (Return (mkLoopResult true (u "no_tool_calls") turns (rv_history v) (bt_usage (ls_budget st)) []),
     notify index (rv_total v) (rv_history v) st)
  end.

(** The calls of a message: those allowed in one turn, then the rest. *)
Definition calls_turn (index : nat) (m : AssistantMessage) (v : run_vars) (st : LoopState)
  : result outcome * LoopState :=
  let calls := am_tool_calls m in
  let limit := cf_max_tool_calls_per_turn cfg in
  match allowed_calls (take limit calls)
          (mkCalls (rv_history v) [] (rv_dl v) (rv_reading v) (rv_completed v) [] None) st with
  | (Err e, st) => (Err e, st)
  | (Ok c, st) =>
    let '(c, st) := skip_calls over_turn_limit (drop limit calls) c st in
    let d := apply_transition (cv_deferred c) (cv_dl c) in
    let hist := cv_history c ++ (user_message <$> cv_prompts c) in
    let total := rv_total v + length (cv_invs c) in
    (Ok (Continue (mkVars hist (rv_turns v ++ [mkTurn index m (cv_invs c)]) total d (cv_reading c) (cv_completed c))),
     notify index total hist st)
  end.

(** The model's answer, its usage and its place in the history. *)
Definition answered_turn (index : nat) (m : AssistantMessage) (v : run_vars) (st : LoopState)
  : result outcome * LoopState :=
  let st := match hs_last_usage h (ls_world st) with
            | Some usage => mkLoop (ls_world st) (ls_log st) (ls_operations st) (ls_unclosed st)
                              (record (ls_budget st) usage)
            | None => st
            end in
  match _assistant_message m with
  | Err e => (Err e, st)
  | Ok msg =>
    let v := with_history (rv_history v ++ [msg]) v in
    let st := on_event h "assistant"
                [(u "index", PyInt (Z.of_nat index)); (u "content", PyStr (am_content m));
                 (u "tool_calls", PyList ((λ c, PyStr (tc_name c)) <$> am_tool_calls m))] st in
    match is_over_budget st with
    | Err e => (Err e, st)
    | Ok true =>
      let '(c, st) := skip_calls over_budget (am_tool_calls m)
                        (mkCalls (rv_history v) [] (rv_dl v) (rv_reading v) (rv_completed v) [] None) st in
      let st := notify index (rv_total v + length (cv_invs c)) (cv_history c) st in
      (Ok (Return (mkLoopResult false (u "budget_exceeded") (rv_turns v ++ [mkTurn index m (cv_invs c)])
                     (cv_history c) (bt_usage (ls_budget st)) [])), st)
    | Ok false =>
      match am_tool_calls m with
      | [] => let '(o, st) := no_calls_turn index (mkTurn index m []) v st in (Ok o, st)
      | _ => calls_turn index m v st
      end
    end
  end.

Definition turn_step (index : nat) (v : run_vars) (st : LoopState) : result outcome * LoopState :=
  match is_over_budget st with
  | Err e => (Err e, st)
  | Ok true => (Ok (Break v (u "budget_exceeded") []), st)
  | Ok false =>
    if reserve_exhausted index (rv_dl v) then
      (Ok (Break v (u "required_tool_turn_reserve_exhausted")
             (u "Reviewer 未在只读回合额度内完整读取改动；保留提交回合并失败关闭")), st)
    else
      match compact_if_needed (force_output index v) st with
      | (Err e, st) => (Err e, st)
      | (Ok v, st) =>
        let choice := dl_choice (rv_dl v) in
        match hs_complete h (rv_history v) (schemas None registry) (cf_max_output_tokens cfg) choice (ls_world st) with
        | (Err e, w) =>
          (Ok (Return (mkLoopResult false (u "backend_error") (rv_turns v) (rv_history v) (hs_usage h w)
                         (exn_name e ++ u ": " ++ exn_text e))),
           mkLoop w (ls_log st) (ls_operations st) (ls_unclosed st) (ls_budget st))
        | (Ok m, w) => answered_turn index m v (with_world w (EComplete choice m) st)
        end
      end
  end.

(** The result after the loop. *)
Definition finished (v : run_vars) (stop error : pystr) (st : LoopState) : LoopResult :=
  mkLoopResult (bool_decide (stop = u "no_tool_calls")) stop (rv_turns v) (rv_history v) (bt_usage (ls_budget st)) error.

(** [for index in range(1, max_turns + 1)] *)
Fixpoint run_turns (left : nat) (index : nat) (v : run_vars) (st : LoopState) : result LoopResult * LoopState :=
  match left with
  | O => (Ok (finished v (u "max_turns") [] st), st)
  | S left' =>
    match turn_step index v st with
    | (Err e, st) => (Err e, st)
    | (Ok (Continue v), st) => run_turns left' (S index) v st
    | (Ok (Break v stop error), st) => (Ok (finished v stop error st), st)
    | (Ok (Return r), st) => (Ok r, st)
    end
  end.

Definition prompt_worklist : pystr :=
  u "检测到已有 inspection worklist；它可能对应旧源码状态。恢复本步骤时必须先调用 inspection phase=prepare 重新绑定，然后按宿主提示完成 read(code_review) 与 check。".

(** The variables a run starts with: a worklist left by an earlier run forces an
    inspection. *)
Definition initial_vars (messages : list message) (w : W) : run_vars :=
  let d := mkDelivery (cf_tool_choice cfg) (cf_tool_choice_on_no_tool cfg)
             (if cf_tool_choice cfg =s u "auto" then 0%Z else cf_required_tool_retry_count cfg)
             None [] false false None [] [] in
  let v := mkVars messages [] 0 d (mkReadState [] []) [] in
  match existing_worklists w with
  | _ :: _ =>
    if cf_tool_choice cfg =s u "auto" then
      mkVars (messages ++ [user_message prompt_worklist]) [] 0
        (with_forced (Some (u "inspection")) (with_choice (u "inspection")
           (with_phase (Some (u "prepare")) d))) (mkReadState [] []) []
    else v
  | [] => v
  end.

Definition run (messages : list message) (st : LoopState) : result LoopResult * LoopState :=
  run_turns (cf_max_turns cfg) 1 (initial_vars messages (ls_world st)) st.
End loop.
