(* ===== verification/AgentLoopSpec.v ===== *)
(** * What the agent loop guarantees

    Properties of whole runs of [AgentLoop.run]: every execution is authorised,
    the run is bounded, every tool call has its answer in its place, and a run
    that must deliver does not end well without a delivery. *)

From S2P Require Import Prelude PyText PyVal Hashing Json Paths Regex Guard Contracts Utf8 Tools Operations Budget ReadCoverage ToolGate AgentLoop.
From S2P Require Compaction.

Section spec.
Context {W : Type} (h : @LoopHost W) (registry : list (pystr * Tool W)) (scope : Scope) (ctx : LoopContext)
        (cfg : LoopConfig).
Context `{ExnText, PyRepr, FloatRepr, UnicodeWord, UnicodeDigits, JsonLoads}.
Abbreviation LoopState := (@LoopState W).

(** ** Induction over the turns *)
Lemma run_turns_ind (I : nat → run_vars → LoopState → Prop) (Q : LoopResult → LoopState → Prop)
    (E : LoopState → Prop) (n : nat) :
  (∀ i v st r st', i ≤ n → I i v st → turn_step h registry scope ctx cfg i v st = (r, st') →
     match r with
     | Ok (Continue v') => I (S i) v' st'
     | Ok (Break v' stop error) => Q (finished v' stop error st') st'
     | Ok (Return res) => Q res st'
     | Err _ => E st'
     end) →
  (∀ v st, I (S n) v st → Q (finished v (u "max_turns") [] st) st) →
  ∀ left i v st r st', i + left = S n → I i v st →
    run_turns h registry scope ctx cfg left i v st = (r, st') →
    match r with Ok res => Q res st' | Err _ => E st' end.
Proof.
  intros Hstep Hend. induction left as [|left IH]; intros i v st r st' Hi HI; cbn [run_turns].
  { intros [= <- <-]. apply Hend. by replace (S n) with i by lia. }
  destruct (turn_step h registry scope ctx cfg i v st) as [r1 st1] eqn:Et.
  specialize (Hstep i v st r1 st1 ltac:(lia) HI Et).
  destruct r1 as [[v1|v1 stop error|res]|e].
  - apply IH; [lia|done].
  - by intros [= <- <-].
  - by intros [= <- <-].
  - by intros [= <- <-].
Qed.

(** ** The effects of a turn *)
(** From [st] to [st'] at most [n] tools were executed, all authorised. *)
Definition executions (l : list (@effect W)) : nat := length (filter (λ e, is_invoke e = true) l).
Definition runs_at_most (n : nat) (st st' : LoopState) : Prop :=
  recording st' = recording st ∧
  (log_authorised h registry scope ctx (recording st) (ls_log st) →
   log_authorised h registry scope ctx (recording st) (ls_log st')) ∧
  executions (ls_log st') ≤ executions (ls_log st) + n.

Lemma executions_app l1 l2 : executions (l1 ++ l2) = executions l1 + executions l2.
Proof. unfold executions. by rewrite filter_app, length_app. Qed.

Lemma executions_quiet l : quiet l → executions l = 0.
Proof.
  unfold quiet, executions, acts. induction l as [|e l IH]; [done|].
  rewrite !filter_cons. destruct e; cbn; intros Hq; repeat case_decide; try done; cbn in *;
    try (inversion Hq; subst; cbn in *; congruence || (apply IH; done)); auto.
Qed.

Lemma executions_acts l : executions (acts l) = executions l.
Proof.
  unfold executions, acts. induction l as [|e l IH]; [done|].
  rewrite !filter_cons. destruct e; cbn; repeat case_decide; cbn; try done;
    rewrite ?filter_cons; cbn; repeat case_decide; cbn; try done; auto.
Qed.

Lemma runs_refl st : runs_at_most 0 st st.
Proof. split; [done|]. split; [done|lia]. Qed.

Lemma runs_trans n m st1 st2 st3 :
  runs_at_most n st1 st2 → runs_at_most m st2 st3 → runs_at_most (n + m) st1 st3.
Proof.
  intros (R1 & A1 & E1) (R2 & A2 & E2). split; [congruence|]. rewrite R1 in A2. split; [auto|lia].
Qed.

Lemma runs_mono n m st st' : n ≤ m → runs_at_most n st st' → runs_at_most m st st'.
Proof. intros ? (? & ? & ?). split; [done|]. split; [done|lia]. Qed.

Lemma runs_quiet new st st' : grows st st' new → quiet new → runs_at_most 0 st st'.
Proof.
  intros [Hl Hr] Hq. split; [done|]. rewrite Hl. split; [intros; by apply log_authorised_quiet|].
  rewrite executions_app, (executions_quiet new) by done. lia.
Qed.

Lemma runs_same st st' : ls_log st' = ls_log st → recording st' = recording st → runs_at_most 0 st st'.
Proof. intros Hl Hr. split; [done|]. rewrite Hl. split; [done|lia]. Qed.

Lemma runs_event k p st : runs_at_most 0 st (on_event h k p st).
Proof. apply (runs_quiet [EEvent (u k) p]); [done|constructor]. Qed.

Lemma runs_invoke name args st r st' :
  _invoke h registry scope ctx name args st = (r, st') → runs_at_most 1 st st'.
Proof.
  intros Hi. pose proof (invoke_authorised _ _ _ _ _ _ _ _ _ Hi) as (new & [Hl Hr] & Hor).
  split; [done|]. split.
  { intros Hauth. pose proof (invoke_log_authorised _ _ _ _ _ _ _ _ _ Hi Hauth) as [Ha _].
    by rewrite <- Hr. }
  rewrite Hl, executions_app.
  destruct Hor as [[Hq _]|(seg & tool & asks & receipts & res & rest & -> & _ & [Hp Hrec] & Ha & Hrest & _)].
  { rewrite (executions_quiet new) by done. lia. }
  change (executions (EDecide (ls_world st) name args :: seg)) with (executions seg).
  rewrite <- (executions_acts seg), Ha, !executions_app.
  assert (E1 : executions asks = 0).
  { destruct Hp as [[_ ->]|[_ ->]]; done. }
  assert (E2 : executions receipts = 0).
  { destruct Hrec as [[_ ->]|(_ & _ & s & _ & ->)]; done. }
  assert (E3 : executions (EInvoke name args res :: rest) = 1).
  { unfold executions. rewrite filter_cons_True by done. cbn. f_equal.
    clear -Hrest. induction Hrest as [|e rest' He _ IH]; [done|]. rewrite filter_cons_False; [done|congruence]. }
  lia.
Qed.

Lemma allowed_call_runs call c st r st' :
  allowed_call h registry scope ctx cfg call c st = (r, st') → runs_at_most 1 st st'.
Proof.
  assert (Hsame : runs_at_most 1 st st) by (apply (runs_mono 0); [lia|apply runs_refl]).
  unfold allowed_call. destruct (translate_call _ _) as [[name args]|e]; [|by intros [= <- <-]].
  destruct (refusal _ _ _) as [[inv p]|]; [by intros [= <- <-]|].
  destruct (_invoke _ _ _ _ _ _ _) as [[inv|e] st1] eqn:Ei; intros [= <- <-]; by eapply runs_invoke.
Qed.

Lemma allowed_calls_runs calls c st r st' :
  allowed_calls h registry scope ctx cfg calls c st = (r, st') → runs_at_most (length calls) st st'.
Proof.
  revert c st. induction calls as [|call calls IH]; intros c st; cbn [allowed_calls].
  { intros [= <- <-]. apply runs_refl. }
  destruct (allowed_call _ _ _ _ _ _ _ _) as [[c1|e] st1] eqn:Ec.
  - intros Hc%IH. apply (runs_trans 1 (length calls) _ st1); [by eapply allowed_call_runs|done].
  - intros [= <- <-]. apply (runs_mono 1); [cbn; lia|by eapply allowed_call_runs].
Qed.

Lemma skip_calls_runs refuse calls c st c' st' :
  skip_calls h refuse calls c st = (c', st') → runs_at_most 0 st st'.
Proof.
  revert c st. induction calls as [|call calls IH]; intros c st; cbn [skip_calls].
  { intros [= <- <-]. apply runs_refl. }
  intros Hs%IH. apply (runs_trans 0 0 _ (on_event h "tool_skipped_budget" [(u "tool", PyStr (tc_name call))] st));
    [apply runs_event|done].
Qed.

Lemma notify_runs i t hist st : runs_at_most 0 st (notify h i t hist st).
Proof. by apply runs_same. Qed.

Lemma no_calls_runs i t v st o st' : no_calls_turn h cfg i t v st = (o, st') → runs_at_most 0 st st'.
Proof.
  unfold no_calls_turn. intros Hn. repeat case_match; simplify_eq; apply notify_runs.
Qed.

Lemma calls_turn_runs i m v st r st' :
  calls_turn h registry scope ctx cfg i m v st = (r, st') → runs_at_most (cf_max_tool_calls_per_turn cfg) st st'.
Proof.
  unfold calls_turn. destruct (allowed_calls _ _ _ _ _ _ _ _) as [[c|e] st1] eqn:Ea.
  - apply allowed_calls_runs in Ea. destruct (skip_calls _ _ _ _ _) as [c' st2] eqn:Es.
    apply skip_calls_runs in Es. intros [= <- <-].
    apply (runs_mono (length (take (cf_max_tool_calls_per_turn cfg) (am_tool_calls m)) + (0 + 0)));
      [rewrite length_take; lia|].
    eapply runs_trans; [exact Ea|]. eapply runs_trans; [exact Es|apply notify_runs].
  - intros [= <- <-]. apply allowed_calls_runs in Ea. eapply runs_mono; [|exact Ea]. rewrite length_take. lia.
Qed.

Lemma compact_runs v st r st' : compact_if_needed h cfg v st = (r, st') → runs_at_most 0 st st'.
Proof.
  unfold compact_if_needed. intros Hc. repeat case_match; simplify_eq; try apply runs_refl. apply runs_event.
Qed.

Lemma answered_turn_runs i m v st r st' :
  answered_turn h registry scope ctx cfg i m v st = (r, st') → runs_at_most (cf_max_tool_calls_per_turn cfg) st st'.
Proof.
  unfold answered_turn. cbv zeta.
  match goal with |- context [match _assistant_message m with Ok _ => _ | Err e => (Err e, ?s) end] => set (st1 := s) end.
  assert (Hr1 : runs_at_most 0 st st1) by (subst st1; destruct (hs_last_usage h (ls_world st)); by apply runs_same).
  destruct (_assistant_message m) as [msg|e].
  2: { intros [= <- <-]. eapply runs_mono; [|exact Hr1]. lia. }
  match goal with |- context [on_event h "assistant" ?p st1] => set (st2 := on_event h "assistant" p st1) end.
  assert (Hr2 : runs_at_most 0 st st2) by (apply (runs_trans 0 0 _ st1); [exact Hr1|apply runs_event]).
  clearbody st1 st2. intros Hr. apply (runs_trans 0 _ _ st2); [exact Hr2|]. revert Hr.
  destruct (is_over_budget st2) as [[]|e].
  - destruct (skip_calls _ _ _ _ _) as [c st3] eqn:Es. apply skip_calls_runs in Es. intros [= <- <-].
    apply (runs_mono (0 + 0)); [lia|]. eapply runs_trans; [exact Es|apply notify_runs].
  - destruct (am_tool_calls m) as [|call calls] eqn:Em; [|apply calls_turn_runs].
    destruct (no_calls_turn _ _ _ _ _ _) as [o st3] eqn:En. apply no_calls_runs in En. intros [= <- <-].
    eapply runs_mono; [|exact En]. lia.
  - intros [= <- <-]. apply (runs_mono 0); [lia|apply runs_refl].
Qed.

Lemma turn_step_runs i v st r st' :
  turn_step h registry scope ctx cfg i v st = (r, st') → runs_at_most (cf_max_tool_calls_per_turn cfg) st st'.
Proof.
  assert (Hsame : runs_at_most (cf_max_tool_calls_per_turn cfg) st st)
    by (apply (runs_mono 0); [lia|apply runs_refl]).
  unfold turn_step. destruct (is_over_budget st) as [[]|e]; [by intros [= <- <-]| |by intros [= <- <-]].
  destruct (reserve_exhausted _ _ _); [by intros [= <- <-]|].
  destruct (compact_if_needed _ _ _ _) as [[v1|e] st1] eqn:Ec; apply compact_runs in Ec.
  2: { intros [= <- <-]. eapply runs_mono; [|exact Ec]. lia. }
  destruct (hs_complete _ _ _ _ _ _) as [[m|e] w].
  - intros Hm%answered_turn_runs. apply (runs_trans 0 _ _ st1); [done|].
    apply (runs_trans 0 _ _ (with_world w (EComplete (dl_choice (rv_dl v1)) m) st1)); [|done].
    apply (runs_quiet [EComplete (dl_choice (rv_dl v1)) m]); [done|by repeat constructor].
  - intros [= <- <-]. apply (runs_mono (0 + 0)); [lia|]. eapply runs_trans; [exact Ec|by apply runs_same].
Qed.

Lemma run_runs messages st r st' :
  run h registry scope ctx cfg messages st = (r, st') →
  runs_at_most (cf_max_turns cfg * cf_max_tool_calls_per_turn cfg) st st'.
Proof.
  unfold run. intros Hr.
  set (lim := cf_max_tool_calls_per_turn cfg).
  pose proof (run_turns_ind (λ i _ s, 1 ≤ i ∧ runs_at_most ((i - 1) * lim) st s)
    (λ _ s, runs_at_most (cf_max_turns cfg * lim) st s) (λ s, runs_at_most (cf_max_turns cfg * lim) st s)
    (cf_max_turns cfg)) as Hind.
  assert (Hres : match r with Ok _ => runs_at_most (cf_max_turns cfg * lim) st st'
                            | Err _ => runs_at_most (cf_max_turns cfg * lim) st st' end).
  { refine (Hind _ _ (cf_max_turns cfg) 1 _ st r st' eq_refl (conj (le_n 1) (runs_refl st)) Hr).
    - intros i v s r1 s1 Hle [Hpos Hi] Ht%turn_step_runs. fold lim in Ht.
      pose proof (runs_trans _ _ _ _ _ Hi Ht) as Hall.
      destruct r1 as [[v1|v1 stop error|res]|e]; [split; [lia|]|..]; (eapply runs_mono; [|exact Hall]); nia.
    - intros v s [_ Hi]. eapply runs_mono; [|exact Hi]. nia. }
  by destruct r.
Qed.

(** C4: in a run that starts with an empty log, whether it returns or raises,
    every execution of a tool is authorised by what the loop did just before it:
    it consulted the guard on this call, with the file system of the world it was
    in at that moment (which [_invoke] enters in the log, [EDecide]: the log of a
    run names one world for each verdict); that verdict was to allow it, or to ask
    and a human granted this very request; and for a tool that is not read-only a
    fresh receipt admits it when receipts are kept. *)
Theorem run_authorised messages st r st' before name args res after :
  ls_log st = [] → run h registry scope ctx cfg messages st = (r, st') →
  ls_log st' = before ++ EInvoke name args res :: after →
  authorised h registry scope ctx (recording st) before name args.
Proof.
  intros Hempty (_ & Hauth & _)%run_runs Hlog. eapply Hauth; [|exact Hlog].
  intros b n a rs af Hb. rewrite Hempty in Hb. by destruct b.
Qed.

(** ** The messages of a turn *)
(** One invocation and one tool message per call, in the order of the calls. *)
Definition answers_to (calls : list ToolCall) (invs : list ToolInvocation) (tools : list message) : Prop :=
  length invs = length calls ∧ tools = zip_with (λ c i, _tool_message (tc_id c) i) calls invs.

Lemma answers_to_cons call calls inv invs tools :
  answers_to calls invs tools → answers_to (call :: calls) (inv :: invs) (_tool_message (tc_id call) inv :: tools).
Proof. intros [Hl ->]. split; [cbn; by rewrite Hl|done]. Qed.

Lemma answers_to_app calls1 invs1 tools1 calls2 invs2 tools2 :
  answers_to calls1 invs1 tools1 → answers_to calls2 invs2 tools2 →
  answers_to (calls1 ++ calls2) (invs1 ++ invs2) (tools1 ++ tools2).
Proof. intros [E1 ->] [E2 ->]. split; [rewrite !length_app; lia|]. by rewrite zip_with_app. Qed.

(** The calls were answered, and nothing else was added. *)
Definition answered (calls : list ToolCall) (c c' : call_vars) : Prop :=
  ∃ invs tools, answers_to calls invs tools ∧
    cv_history c' = cv_history c ++ tools ∧ cv_invs c' = cv_invs c ++ invs.

Lemma note_progress_keeps name inv c w c' :
  note_progress h registry scope ctx cfg name inv c w = Ok c' →
  cv_history c' = cv_history c ∧ cv_invs c' = cv_invs c.
Proof.
  unfold note_progress. destruct (_record_complete_read_file _ _ _ _ _) as [done reading]. cbv zeta.
  intros (d1 & _ & (x1 & _ & (x2 & _ & [= <-])%bind_ok)%bind_ok)%bind_ok. done.
Qed.

Lemma allowed_call_answered call c st c' st' :
  allowed_call h registry scope ctx cfg call c st = (Ok c', st') → answered [call] c c'.
Proof.
  assert (Ha : ∀ inv, answers_to [call] [inv] [_tool_message (tc_id call) inv]) by done.
  unfold allowed_call. destruct (translate_call _ _) as [[name args]|e]; [|done].
  destruct (refusal _ _ _) as [[inv p]|].
  { intros [= <- <-]. exists [inv], [_tool_message (tc_id call) inv]. done. }
  destruct (_invoke _ _ _ _ _ _ _) as [[inv|e] st1]; [|done]. intros [= Hn _].
  apply note_progress_keeps in Hn as [Hh Hi]. exists [inv], [_tool_message (tc_id call) inv]. by rewrite Hh, Hi.
Qed.

Lemma answered_trans calls1 calls2 c1 c2 c3 :
  answered calls1 c1 c2 → answered calls2 c2 c3 → answered (calls1 ++ calls2) c1 c3.
Proof.
  intros (i1 & t1 & A1 & H1' & I1) (i2 & t2 & A2 & H2' & I2). exists (i1 ++ i2), (t1 ++ t2).
  split; [by apply answers_to_app|]. by rewrite H2', H1', I2, I1, !app_assoc.
Qed.

Lemma answered_nil c : answered [] c c.
Proof. exists [], []. by rewrite !app_nil_r. Qed.

Lemma allowed_calls_answered calls c st c' st' :
  allowed_calls h registry scope ctx cfg calls c st = (Ok c', st') → answered calls c c'.
Proof.
  revert c st. induction calls as [|call calls IH]; intros c st; cbn [allowed_calls].
  { intros [= <- <-]. apply answered_nil. }
  destruct (allowed_call _ _ _ _ _ _ _ _) as [[c1|e] st1] eqn:Ec; [|done].
  intros Hc%IH. apply (answered_trans [call] calls _ c1); [by eapply allowed_call_answered|done].
Qed.

Lemma skip_calls_answered refuse calls c st c' st' :
  skip_calls h refuse calls c st = (c', st') → answered calls c c'.
Proof.
  revert c st. induction calls as [|call calls IH]; intros c st; cbn [skip_calls].
  { intros [= <- <-]. apply answered_nil. }
  intros Hs%IH. apply (answered_trans [call] calls _ (answer_call (tc_id call) (refuse call) c)); [|done].
  by exists [refuse call], [_tool_message (tc_id call) (refuse call)].
Qed.

(** What a turn adds to the transcript and to the history: the model's message,
    the answers to its calls, then prompts of the host. *)
Definition turn_added (i : nat) (hist : list message) (turns : list Turn) (hist' : list message)
    (turns' : list Turn) : Prop :=
  ∃ m msg invs tools prompts, _assistant_message m = Ok msg ∧ answers_to (am_tool_calls m) invs tools ∧
    turns' = turns ++ [mkTurn i m invs] ∧
    hist' = hist ++ [msg] ++ tools ++ (user_message <$> prompts).

(** The history a turn starts from: a prompt may be added and the middle
    compacted. *)
Definition turn_start (i : nat) (v : run_vars) (st : LoopState) (v1 : run_vars) : Prop :=
  ∃ st1, compact_if_needed h cfg (force_output cfg i v) st = (Ok v1, st1).

Lemma turn_start_turns i v st v1 : turn_start i v st v1 → rv_turns v1 = rv_turns v ∧ rv_total v1 = rv_total v.
Proof.
  intros (st1 & Hc).
  assert (Hf : rv_turns (force_output cfg i v) = rv_turns v ∧ rv_total (force_output cfg i v) = rv_total v).
  { unfold force_output. repeat case_match; done. }
  revert Hc. unfold compact_if_needed. intros Hc. repeat case_match; simplify_eq; exact Hf.
Qed.

Lemma no_calls_shape i t v st o st' :
  no_calls_turn h cfg i t v st = (o, st') →
  match o with
  | Break _ _ _ => False
  | Continue v' => ∃ p, rv_history v' = rv_history v ++ [user_message p] ∧ rv_turns v' = rv_turns v ++ [t]
  | Return res => lr_messages res = rv_history v ∧ lr_turns res = rv_turns v ++ [t] ∧
      (lr_ok res = true → lr_stop_reason res = u "no_tool_calls" ∧ dl_choice (rv_dl v) = u "auto" ∧
         dl_on_no_tool (rv_dl v) = None)
  end.
Proof.
  unfold no_calls_turn. destruct (dl_on_no_tool (rv_dl v)) as [tool|]; case_bool_decide as Ech.
  - intros [= <- <-]. eexists. split; reflexivity.
  - destruct (0 <? dl_retry (rv_dl v))%Z; intros [= <- <-]; [eexists; split; reflexivity|].
    split; [reflexivity|]. split; [reflexivity|discriminate].
  - intros [= <- <-]. split; [reflexivity|]. split; [reflexivity|]. intros _. split; [reflexivity|done].
  - destruct (0 <? dl_retry (rv_dl v))%Z; intros [= <- <-]; [eexists; split; reflexivity|].
    split; [reflexivity|]. split; [reflexivity|discriminate].
Qed.

Lemma answered_turn_shape i m v st o st' :
  answered_turn h registry scope ctx cfg i m v st = (Ok o, st') →
  match o with
  | Break _ _ _ => False
  | Continue v' => turn_added i (rv_history v) (rv_turns v) (rv_history v') (rv_turns v')
  | Return res =>
    turn_added i (rv_history v) (rv_turns v) (lr_messages res) (lr_turns res) ∧
    (lr_ok res = true → lr_stop_reason res = u "no_tool_calls" ∧ am_tool_calls m = [] ∧
       dl_choice (rv_dl v) = u "auto" ∧ dl_on_no_tool (rv_dl v) = None ∧
       lr_turns res = rv_turns v ++ [mkTurn i m []])
  end.
Proof.
  unfold answered_turn. cbv zeta.
  destruct (_assistant_message m) as [msg|e] eqn:Em; [|done].
  match goal with |- context [on_event h "assistant" ?p ?s] => generalize (on_event h "assistant" p s) end.
  intros st1. destruct (is_over_budget st1) as [[]|e]; [| |done].
  - destruct (skip_calls _ _ _ _ _) as [c st2] eqn:Es. apply skip_calls_answered in Es as (invs & tools & Ha & Hh & Hi).
    cbn in Hh, Hi. intros [= <- <-]. cbn [lr_messages lr_turns lr_ok]. split; [|done].
    exists m, msg, invs, tools, []. split_and!; [done|done|by rewrite Hi|].
    rewrite Hh. cbn. by rewrite app_nil_r, <- app_assoc.
  - destruct (am_tool_calls m) as [|call calls] eqn:Ec.
    + destruct (no_calls_turn _ _ _ _ _ _) as [o1 st2] eqn:En. intros [= <- <-].
      assert (Hadd : ∀ prompts, turn_added i (rv_history v) (rv_turns v)
                (rv_history v ++ [msg] ++ (user_message <$> prompts)) (rv_turns v ++ [mkTurn i m []])).
      { intros prompts. exists m, msg, [], [], prompts. by rewrite Ec. }
      apply no_calls_shape in En. cbn [with_history rv_history rv_turns rv_dl] in En.
      destruct o1 as [v'|v' stop error|res]; [|done|].
      * destruct En as (p & -> & ->). rewrite <- app_assoc. exact (Hadd [p]).
      * destruct En as (-> & -> & Hok). split; [exact (Hadd [])|]. intros Ho.
        destruct (Hok Ho) as (? & ? & ?). done.
    + unfold calls_turn. rewrite Ec. 
      destruct (allowed_calls _ _ _ _ _ _ _ _) as [[c|e] st2] eqn:Ea; [|done].
      destruct (skip_calls _ _ _ _ _) as [c2 st3] eqn:Es. intros [= <- <-]. cbn [rv_history rv_turns].
      apply allowed_calls_answered in Ea. apply skip_calls_answered in Es.
      pose proof (answered_trans _ _ _ _ _ Ea Es) as (invs & tools & Ha & Hh & Hi). cbn in Hh, Hi.
      rewrite take_drop in Ha. exists m, msg, invs, tools, (cv_prompts c2).
      split; [done|]. rewrite Ec. split; [done|]. split; [by rewrite Hi|]. by rewrite Hh, <- !app_assoc.
Qed.

Lemma turn_step_shape i v st o st' :
  turn_step h registry scope ctx cfg i v st = (Ok o, st') →
  match o with
  | Break v' stop error => v' = v ∧ stop ≠ u "no_tool_calls"
  | Continue v' => ∃ v1, turn_start i v st v1 ∧
      turn_added i (rv_history v1) (rv_turns v) (rv_history v') (rv_turns v')
  | Return res => ∃ v1, turn_start i v st v1 ∧
      ( (lr_ok res = false ∧ lr_turns res = rv_turns v ∧ lr_messages res = rv_history v1) ∨
        (turn_added i (rv_history v1) (rv_turns v) (lr_messages res) (lr_turns res) ∧
         (lr_ok res = true → lr_stop_reason res = u "no_tool_calls" ∧
            dl_choice (rv_dl v1) = u "auto" ∧ dl_on_no_tool (rv_dl v1) = None ∧
            ∃ m, am_tool_calls m = [] ∧ lr_turns res = rv_turns v ++ [mkTurn i m []])))
  end.
Proof.
  unfold turn_step. destruct (is_over_budget st) as [[]|e]; [by intros [= <- <-]| |done].
  destruct (reserve_exhausted _ _ _); [by intros [= <- <-]|].
  destruct (compact_if_needed _ _ _ _) as [[v1|e] st1] eqn:Ec; [|done].
  assert (Hs : turn_start i v st v1) by (by exists st1).
  pose proof (turn_start_turns _ _ _ _ Hs) as [Ht _].
  destruct (hs_complete _ _ _ _ _ _) as [[m|e] w].
  - intros Ha%answered_turn_shape. destruct o as [v'|v' stop error|res]; [|done|].
    + exists v1. by rewrite <- Ht.
    + exists v1. split; [done|]. right. rewrite <- Ht. destruct Ha as [Ha Hok]. split; [done|].
      intros Ho. destruct (Hok Ho) as (? & ? & ? & ? & ?). split_and!; try done. by exists m.
  - intros [= <- <-]. exists v1. split; [done|]. left. by rewrite Ht.
Qed.

(** ** Bounds *)
Definition turn_complete (k : nat) (t : Turn) : Prop :=
  tn_index t = S k ∧ length (tn_invocations t) = length (am_tool_calls (tn_assistant t)).
Definition turns_complete (turns : list Turn) : Prop := ∀ k t, turns !! k = Some t → turn_complete k t.

Lemma turn_added_complete i hist turns hist' turns' :
  turn_added i hist turns hist' turns' → S (length turns) = i → turns_complete turns →
  turns_complete turns' ∧ length turns' = i.
Proof.
  intros (m & msg & invs & tools & prompts & _ & [Hl _] & -> & _) Hi Ht. split.
  - intros k t [[_ Hk]|[-> <-]]%lookup_snoc_Some; [by apply Ht|]. split; cbn; [lia|done].
  - rewrite length_app. cbn. lia.
Qed.

(** C35: a run that returns made at most [max_turns] turns; in each of them every
    tool call of the model has exactly one invocation; at most
    [max_tool_calls_per_turn] tools were executed per turn; and a run ends
    well only when it stopped on a last message without tool calls. *)
Theorem run_bounded messages st res st' :
  run h registry scope ctx cfg messages st = (Ok res, st') →
  length (lr_turns res) ≤ cf_max_turns cfg ∧ turns_complete (lr_turns res) ∧
  executions (ls_log st') ≤ executions (ls_log st) + cf_max_turns cfg * cf_max_tool_calls_per_turn cfg ∧
  (lr_ok res = true → lr_stop_reason res = u "no_tool_calls" ∧
     ∃ t, last (lr_turns res) = Some t ∧ am_tool_calls (tn_assistant t) = []).
Proof.
  intros Hrun. pose proof (run_runs _ _ _ _ Hrun) as (_ & _ & Hexec). revert Hrun. unfold run. intros Hr.
  set (Q := λ (res : LoopResult) (_ : LoopState), length (lr_turns res) ≤ cf_max_turns cfg ∧
    turns_complete (lr_turns res) ∧ (lr_ok res = true → lr_stop_reason res = u "no_tool_calls" ∧
      ∃ t, last (lr_turns res) = Some t ∧ am_tool_calls (tn_assistant t) = [])).
  assert (HQ : Q res st').
  { refine (run_turns_ind (λ i v _, S (length (rv_turns v)) = i ∧ turns_complete (rv_turns v)) Q (λ _, True)
              (cf_max_turns cfg) _ _ (cf_max_turns cfg) 1 _ st (Ok res) st' eq_refl _ Hr).
    - intros i v s r1 s1 Hle [Hi Ht] Hs. destruct r1 as [o|e]; [|done].
      apply turn_step_shape in Hs. destruct o as [v'|v' stop error|res'].
      + destruct Hs as (v1 & _ & Ha). destruct (turn_added_complete _ _ _ _ _ Ha Hi Ht) as [? ?]. split; [lia|done].
      + destruct Hs as [-> Hstop]. unfold Q, finished. cbn [lr_turns lr_ok lr_stop_reason]. split; [lia|].
        split; [done|]. by intros ?%bool_decide_eq_true.
      + destruct Hs as (v1 & _ & [(Ho & Hturns & _)|[Ha Hok]]); unfold Q.
        * rewrite Hturns. split; [lia|]. split; [done|]. by rewrite Ho.
        * destruct (turn_added_complete _ _ _ _ _ Ha Hi Ht) as [Hc Hl]. split; [lia|]. split; [done|].
          intros Ho. destruct (Hok Ho) as (Hst & _ & _ & m & Hm & Hturns). split; [done|].
          exists (mkTurn i m []). rewrite Hturns, last_snoc. done.
    - intros v s [Hi Ht]. unfold Q, finished. cbn [lr_turns lr_ok lr_stop_reason]. split; [lia|]. split; [done|].
      intros Ho%bool_decide_eq_true. by vm_compute in Ho.
    - unfold initial_vars. cbv zeta. repeat case_match; (split; [done|]); intros k t Hk; by destruct k. }
  destruct HQ as (H1' & H2' & H3'). by split_and!.
Qed.

(** ** Every call has its answer in its place *)
Definition is_tool (m : message) : bool := is_lit (pget (u "role") m) (u "tool").
(** The ids of the calls a message makes. *)
Definition call_ids (m : message) : list (option pystr) :=
  match pget (u "tool_calls") m with
  | PyList l => (λ c, match c with PyDict d => as_str (pget (u "id") d) | _ => None end) <$> l
  | _ => []
  end.

(** After a message with tool calls come, next to each other and in order, the
    answers to these calls, and no other tool message occurs. *)
Fixpoint answers_in_place (expected : list (option pystr)) (l : list message) : bool :=
  match l with
  | [] => bool_decide (expected = [])
  | m :: l' =>
    if is_tool m then
      match expected with
      | id :: expected' => bool_decide (as_str (pget (u "tool_call_id") m) = id) && answers_in_place expected' l'
      | [] => false
      end
    else bool_decide (expected = []) && answers_in_place (call_ids m) l'
  end.
Definition well_paired (l : list message) : Prop := answers_in_place [] l = true.

Lemma answers_in_place_app e l1 l2 :
  answers_in_place e l1 = true → well_paired l2 → answers_in_place e (l1 ++ l2) = true.
Proof.
  unfold well_paired. revert e. induction l1 as [|m l1 IH]; intros e; cbn [answers_in_place app].
  { by intros ->%bool_decide_eq_true. }
  destruct (is_tool m).
  - destruct e as [|id e]; [done|]. rewrite !andb_true_iff. intros [? ?] ?. split; [done|]. by apply IH.
  - rewrite !andb_true_iff. intros [? ?] ?. split; [done|]. by apply IH.
Qed.

Lemma user_messages_paired prompts : well_paired (user_message <$> prompts).
Proof. induction prompts as [|p ps IH]; [done|]. exact IH. Qed.

Lemma tools_in_place calls invs :
  length invs = length calls →
  answers_in_place (Some ∘ tc_id <$> calls) (zip_with (λ c i, _tool_message (tc_id c) i) calls invs) = true.
Proof.
  revert invs. induction calls as [|c calls IH]; intros [|i invs]; cbn [length]; try done.
  intros Hl. cbn [zip_with fmap list_fmap answers_in_place]. 
  change (is_tool (_tool_message (tc_id c) i)) with true. cbv iota.
  change (as_str (pget (u "tool_call_id") (_tool_message (tc_id c) i))) with (Some (tc_id c)).
  rewrite bool_decide_eq_true_2 by done. apply IH. lia.
Qed.

Lemma mapM_call_ids calls ps :
  mapM_res call_payload calls = Ok ps →
  (λ c, match c with PyDict d => as_str (pget (u "id") d) | _ => None end) <$> ps = Some ∘ tc_id <$> calls.
Proof.
  revert ps. induction calls as [|c calls IH]; intros ps; cbn [mapM_res]; [by intros [= <-]|].
  intros (p & Hp & (ps' & Hps & [= <-])%bind_ok)%bind_ok. cbn [fmap list_fmap].
  unfold call_payload in Hp. apply bind_ok in Hp as (args & _ & [= <-]). f_equal. by apply IH.
Qed.

Lemma assistant_call_ids m msg :
  _assistant_message m = Ok msg → is_tool msg = false ∧ call_ids msg = Some ∘ tc_id <$> am_tool_calls m.
Proof.
  unfold _assistant_message. cbv zeta. destruct (am_tool_calls m) as [|c calls].
  - intros [= <-]. done.
  - intros (ps & Hps & [= <-])%bind_ok. split; [done|]. by apply mapM_call_ids in Hps.
Qed.

Lemma turn_added_paired i hist turns hist' turns' :
  turn_added i hist turns hist' turns' → well_paired hist → well_paired hist'.
Proof.
  intros (m & msg & invs & tools & prompts & Hmsg & [Hl ->] & _ & ->) Hh.
  apply answers_in_place_app; [exact Hh|]. apply assistant_call_ids in Hmsg as [Ht Hids].
  unfold well_paired. cbn [app answers_in_place]. rewrite Ht, Hids. cbn [andb bool_decide].
  rewrite bool_decide_eq_true_2 by done. cbn [andb].
  apply answers_in_place_app; [by apply tools_in_place|apply user_messages_paired].
Qed.

(** C20: without compaction, a history in which every tool call has its answer in
    its place stays so: whatever the model calls and however the run ends, each
    message with tool calls is followed by exactly one tool message per call, in
    order and with its id, before anything else. *)
Theorem history_paired messages st res st' :
  cf_compact_budget_chars cfg = 0%Z → well_paired messages →
  run h registry scope ctx cfg messages st = (Ok res, st') → well_paired (lr_messages res).
Proof.
  intros Hcomp Hm. unfold run. intros Hr.
  assert (Hstart : ∀ i v s v1, turn_start i v s v1 → well_paired (rv_history v) → well_paired (rv_history v1)).
  { intros i v s v1 (s1 & Hc) Hv. unfold compact_if_needed in Hc. rewrite Hcomp in Hc. cbn in Hc.
    injection Hc as <- _. unfold force_output.
    destruct (cf_force_tool_after_turns cfg); [|exact Hv]. destruct (_ && _ && _); [|exact Hv]. cbv zeta.
    match goal with |- context [match ?t with Some _ => _ | None => v end] => destruct t end; [|exact Hv].
    destruct (cf_force_tool_prompt cfg) as [[|c p]|]; [exact Hv| |exact Hv]. by apply answers_in_place_app. }
  refine (run_turns_ind (λ _ v _, well_paired (rv_history v)) (λ res _, well_paired (lr_messages res)) (λ _, True)
            (cf_max_turns cfg) _ _ (cf_max_turns cfg) 1 _ st (Ok res) st' eq_refl _ Hr).
  - intros i v s r1 s1 _ Hv Hs. destruct r1 as [o|e]; [|done].
    apply turn_step_shape in Hs. destruct o as [v'|v' stop error|res'].
    + destruct Hs as (v1 & Hs & Ha). eapply turn_added_paired; [exact Ha|]. by eapply Hstart.
    + by destruct Hs as [-> _].
    + destruct Hs as (v1 & Hs & [(_ & _ & ->)|[Ha _]]); [by eapply Hstart|].
      eapply turn_added_paired; [exact Ha|]. by eapply Hstart.
  - done.
  - unfold initial_vars. cbv zeta. destruct (existing_worklists _ _ _); [exact Hm|].
    destruct (cf_tool_choice cfg =s u "auto"); [|exact Hm]. by apply answers_in_place_app.
Qed.

(** ** A required delivery *)
(** An executed, successful submission. *)
Definition submission_tools : list pystr := [u "submit_review"; u "submit_artifact"; u "submit_review_round"].
Definition delivers (inv : ToolInvocation) : Prop :=
  iv_name inv ∈ submission_tools ∧ iv_approved inv = true ∧ result_ok inv = true ∧
  (iv_name inv = u "submit_review" → pget (u "review_output") (result_meta inv) = PyStr (u "schema_valid")).

(** While nothing is delivered, a tool is required, and only a review round can
    be forced. *)
Definition round_or_none (o : option pystr) : Prop := o = None ∨ o = Some (u "submit_review_round").
Definition requiring (d : delivery) : Prop :=
  dl_choice d ≠ u "auto" ∧ round_or_none (dl_forced d) ∧ dl_edit_required d = false ∧ dl_on_no_tool d = None.

Lemma after_submission_requiring w name inv d d' :
  requiring d → iv_name inv = name → (result_ok inv = true → iv_approved inv = true) →
  after_submission h ctx w name inv d = Ok d' → requiring d' ∨ delivers inv.
Proof.
  intros Hd Hn Happ. unfold after_submission.
  destruct (dl_choice d ≠s u "auto") eqn:E1; cbn [andb]; [|by intros [= <-]; left].
  destruct (name ∈s [u "submit_review"; u "submit_artifact"; u "submit_review_round"]) eqn:E2; cbn [andb];
    [|by intros [= <-]; left].
  destruct (result_ok inv) eqn:E3; [|by intros [= <-]; left].
  rewrite bool_decide_eq_true in E2.
  intros (complete & Hc & Hd')%bind_ok.
  destruct (complete || is_lit (pget (u "review_output") (result_meta inv)) (u "schema_valid")) eqn:E4;
    [|injection Hd' as <-; by left].
  right. split; [by rewrite Hn|]. split; [by apply Happ|]. split; [done|]. rewrite Hn. intros ->.
  apply orb_true_iff in E4 as [->|E4]; [|by apply is_lit_iff]. exfalso. revert Hc. clear. vm_compute. discriminate.
Qed.

Lemma after_forced_requiring w name inv x x' :
  requiring x.1.1 → after_forced h registry ctx w name inv x = Ok x' → x' = x.
Proof.
  intros (_ & Hf & He & _). unfold after_forced. cbv zeta. rewrite He. cbn [andb]. rewrite orb_false_r.
  destruct (bool_decide (dl_forced x.1.1 = Some name)) eqn:E; cbn [andb]; [|by intros [= <-]].
  rewrite bool_decide_eq_true in E. destruct Hf as [Hf|Hf]; rewrite Hf in E; [done|]. injection E as <-.
  change (negb (u "submit_review_round" ∈s [u "submit_artifact"; u "submit_review_round"])) with false.
  cbn [andb]. by intros [= <-].
Qed.

Lemma after_artifact_requiring w name inv x x' :
  round_or_none x.2 → after_artifact h registry ctx w name inv x = Ok x' → x'.1.1 = x.1.1 ∧ round_or_none x'.2.
Proof.
  intros Hx. unfold after_artifact. destruct (_ && _ && _); [|by intros [= <-]].
  intros (missing & _ & Hm)%bind_ok. destruct missing as [|p ps]; [by injection Hm as <-|].
  destruct (_ && _); injection Hm as <-; (split; [done|]); [by right|done].
Qed.

(** The variables of the calls, while nothing is delivered. *)
Definition calls_requiring (c : call_vars) : Prop :=
  (requiring (cv_dl c) ∧ round_or_none (cv_deferred c)) ∨ ∃ inv, inv ∈ cv_invs c ∧ delivers inv.

Lemma note_progress_requiring name inv c w c' :
  cf_tool_choice_after_read cfg ≠ Some (u "auto") →
  iv_name inv = name → (result_ok inv = true → iv_approved inv = true) → inv ∈ cv_invs c →
  calls_requiring c → note_progress h registry scope ctx cfg name inv c w = Ok c' → calls_requiring c'.
Proof.
  intros Hafter Hn Happ Hin [[Hd Hdef]|Hdel] Hp.
  2: { right. apply note_progress_keeps in Hp as [_ ->]. done. }
  pose proof (note_progress_keeps _ _ _ _ _ Hp) as [_ Hi]. revert Hp. unfold note_progress.
  destruct (_record_complete_read_file _ _ _ _ _) as [done reading]. cbv zeta.
  match goal with |- context [after_submission h ctx w name inv ?d] => set (d0 := d) end.
  assert (Hd0 : requiring d0).
  { subst d0. destruct (cf_tool_choice_after_read cfg) as [t|]; [|done]. case_match; [|done].
    destruct Hd as (? & ? & ? & ?). split_and!; try done. cbn. congruence. }
  clearbody d0. intros (d1 & H1' & (x1 & H2' & (x2 & H3' & [= <-])%bind_ok)%bind_ok)%bind_ok. cbn in Hi.
  apply after_submission_requiring in H1' as [Hd1|Hdel]; [| |done..].
  - apply after_forced_requiring in H2' as ->; [|done].
    apply after_artifact_requiring in H3' as [Hx Hr]; [|done]. left. cbn in Hx. split; cbn; [by rewrite Hx|done].
  - right. exists inv. cbn. done.
Qed.

Lemma allowed_call_requiring call c st c' st' :
  cf_tool_choice_after_read cfg ≠ Some (u "auto") → calls_requiring c →
  allowed_call h registry scope ctx cfg call c st = (Ok c', st') → calls_requiring c'.
Proof.
  intros Hafter Hc. assert (Hkeep : ∀ inv, calls_requiring (answer_call (tc_id call) inv c)).
  { intros inv. destruct Hc as [?|(i & Hi & Hdel)]; [by left|]. right. exists i. cbn. rewrite elem_of_app. auto. }
  unfold allowed_call. destruct (translate_call _ _) as [[name args]|e]; [|done].
  destruct (refusal _ _ _) as [[inv p]|]; [intros [= <- <-]; exact (Hkeep inv)|].
  destruct (_invoke _ _ _ _ _ _ _) as [[inv|e] st1] eqn:Ei; [|done]. intros [= Hp _].
  assert (Hans : iv_name inv = name ∧ (result_ok inv = true → iv_approved inv = true)).
  { apply invoke_authorised in Ei as (new & _ & Hor).
    assert (Ha : ∃ b, answers name args b (Ok inv)).
    { destruct Hor as [[_ Ha]|(? & ? & ? & ? & ? & ? & _ & _ & _ & _ & _ & Ha)]; by eexists. }
    destruct Ha as [b Ha]. destruct (Ha inv eq_refl) as (? & _ & Hb & res & Hres & Hok). split; [done|].
    unfold result_ok. rewrite Hres, Hb. intros Ho. destruct b; [done|]. by rewrite Hok in Ho. }
  destruct Hans as [Hn Happ]. eapply note_progress_requiring; [done|exact Hn|exact Happ| |exact (Hkeep inv)|].
  - cbn. rewrite elem_of_app, list_elem_of_singleton. auto.
  - exact Hp.
Qed.

Lemma allowed_calls_requiring calls c st c' st' :
  cf_tool_choice_after_read cfg ≠ Some (u "auto") → calls_requiring c →
  allowed_calls h registry scope ctx cfg calls c st = (Ok c', st') → calls_requiring c'.
Proof.
  intros Hafter. revert c st. induction calls as [|call calls IH]; intros c st Hc; cbn [allowed_calls].
  { by intros [= <- <-]. }
  destruct (allowed_call _ _ _ _ _ _ _ _) as [[c1|e] st1] eqn:Ec; [|done].
  apply IH. by eapply allowed_call_requiring.
Qed.

Lemma skip_calls_requiring refuse calls c st c' st' :
  calls_requiring c → skip_calls h refuse calls c st = (c', st') → calls_requiring c'.
Proof.
  revert c st. induction calls as [|call calls IH]; intros c st Hc; cbn [skip_calls]; [by intros [= <- <-]|].
  apply IH. destruct Hc as [?|(i & Hi & Hdel)]; [by left|]. right. exists i. cbn. rewrite elem_of_app. auto.
Qed.

Lemma apply_transition_requiring o d : round_or_none o → requiring d → requiring (apply_transition o d).
Proof.
  intros Ho Hd. destruct Ho as [->| ->]; [done|]. destruct Hd as (? & ? & ? & ?).
  unfold apply_transition. change (u "submit_review_round" =s u "auto") with false.
  change (u "submit_review_round" =s u "inspection") with false. cbv iota. split_and!; cbn; try done. by right.
Qed.

(** Some invocation of the run so far delivers. *)
Definition delivered (turns : list Turn) : Prop :=
  ∃ t inv, t ∈ turns ∧ inv ∈ tn_invocations t ∧ delivers inv.
Definition run_requiring (v : run_vars) : Prop := requiring (rv_dl v) ∨ delivered (rv_turns v).

Lemma delivered_app turns turns' : delivered turns → delivered (turns ++ turns').
Proof. intros (t & inv & Ht & Hi). exists t, inv. rewrite elem_of_app. auto. Qed.

Section required.
Context (Hchoice : cf_tool_choice cfg ≠ u "auto") (Hafter : cf_tool_choice_after_read cfg ≠ Some (u "auto"))
        (Hnotool : cf_tool_choice_on_no_tool cfg = None) (Hforce : cf_force_tool_after_turns cfg = None).

Lemma turn_start_requiring i v st v1 : turn_start i v st v1 → rv_dl v1 = rv_dl v.
Proof.
  intros (st1 & Hc). unfold force_output in Hc. rewrite Hforce in Hc. unfold compact_if_needed in Hc.
  repeat case_match; by simplify_eq.
Qed.

Lemma no_calls_requiring i t v st o st' :
  run_requiring v → no_calls_turn h cfg i t v st = (o, st') →
  match o with
  | Continue v' => run_requiring v'
  | Return res => lr_ok res = true → delivered (lr_turns res)
  | Break _ _ _ => True
  end.
Proof.
  intros Hv Hn. pose proof (no_calls_shape _ _ _ _ _ _ Hn) as Hs.
  destruct o as [v'|v' stop error|res]; [|done|].
  - destruct Hs as (p & _ & Ht). destruct Hv as [Hd|Hd]; [|right; rewrite Ht; by apply delivered_app].
    left. destruct Hd as (H1' & H2' & H3' & H4'). unfold no_calls_turn in Hn. rewrite H4' in Hn.
    rewrite (bool_decide_false (dl_choice (rv_dl v) = u "auto")) in Hn by done.
    destruct (0 <? dl_retry (rv_dl v))%Z; [|done]. injection Hn as <- _. split_and!; done.
  - destruct Hs as (_ & -> & Hok). intros Ho. destruct Hv as [(Hd & _)|Hd]; [|by apply delivered_app].
    by destruct (Hok Ho) as (_ & ? & _).
Qed.

Lemma calls_turn_requiring i m v st o st' :
  run_requiring v → calls_turn h registry scope ctx cfg i m v st = (Ok o, st') →
  match o with Continue v' => run_requiring v' | _ => True end.
Proof.
  intros Hv. unfold calls_turn. destruct (allowed_calls _ _ _ _ _ _ _ _) as [[c|e] st1] eqn:Ea; [|done].
  destruct (skip_calls _ _ _ _ _) as [c2 st2] eqn:Es. intros [= <- <-]. unfold run_requiring. cbn [rv_dl rv_turns].
  destruct Hv as [Hd|Hd]; [|right; by apply delivered_app].
  apply allowed_calls_requiring in Ea; [|done|by left; split; [|left]].
  apply skip_calls_requiring in Es; [|done].
  destruct Es as [[Hd2 Hdef]|(inv & Hi & Hdel)]; [left; by apply apply_transition_requiring|].
  right. exists (mkTurn i m (cv_invs c2)), inv. rewrite elem_of_app, list_elem_of_singleton. auto.
Qed.

Lemma turn_step_requiring i v st o st' :
  run_requiring v → turn_step h registry scope ctx cfg i v st = (Ok o, st') →
  match o with
  | Continue v' => run_requiring v'
  | Return res => lr_ok res = true → delivered (lr_turns res)
  | Break _ _ _ => True
  end.
Proof.
  intros Hv. unfold turn_step. destruct (is_over_budget st) as [[]|e]; [by intros [= <- <-]| |done].
  destruct (reserve_exhausted _ _ _); [by intros [= <- <-]|].
  destruct (compact_if_needed _ _ _ _) as [[v1|e] st1] eqn:Ec; [|done].
  assert (Hs : turn_start i v st v1) by (by exists st1).
  assert (Hv1 : run_requiring v1).
  { unfold run_requiring. rewrite (turn_start_requiring _ _ _ _ Hs).
    destruct (turn_start_turns _ _ _ _ Hs) as [-> _]. exact Hv. }
  destruct (hs_complete _ _ _ _ _ _) as [[m|e] w]; [|by intros [= <- <-]].
  unfold answered_turn. cbv zeta. destruct (_assistant_message m) as [msg|e]; [|done].
  match goal with |- context [on_event h "assistant" ?p ?s] => generalize (on_event h "assistant" p s) end.
  intros st2. assert (Hv2 : run_requiring (with_history (rv_history v1 ++ [msg]) v1)) by exact Hv1.
  destruct (is_over_budget st2) as [[]|e]; [| |done].
  - destruct (skip_calls _ _ _ _ _) as [c st3]. by intros [= <- <-].
  - destruct (am_tool_calls m) as [|call calls].
    + destruct (no_calls_turn _ _ _ _ _ _) as [o1 st3] eqn:En. intros [= <- <-]. by eapply no_calls_requiring.
    + intros Hc. pose proof Hc as Hc'. apply calls_turn_requiring in Hc'; [|done].
      unfold calls_turn in Hc. repeat case_match; simplify_eq; done.
Qed.

(** C16: a run with a required tool that is not switched off by its
    configuration ends well only after a submission was executed with success,
    a review's output being valid; the model cannot end it with plain text. *)
Theorem required_delivery messages st res st' :
  run h registry scope ctx cfg messages st = (Ok res, st') → lr_ok res = true →
  ∃ t inv, t ∈ lr_turns res ∧ inv ∈ tn_invocations t ∧ delivers inv.
Proof.
  unfold run. intros Hr.
  refine (run_turns_ind (λ _ v _, run_requiring v) (λ res _, lr_ok res = true → delivered (lr_turns res)) (λ _, True)
            (cf_max_turns cfg) _ _ (cf_max_turns cfg) 1 _ st (Ok res) st' eq_refl _ Hr).
  - intros i v s r1 s1 _ Hv Hs. destruct r1 as [o|e]; [|done].
    pose proof (turn_step_requiring _ _ _ _ _ Hv Hs) as Hreq. apply turn_step_shape in Hs.
    destruct o as [v'|v' stop error|res']; [done| |done].
    destruct Hs as [_ Hstop]. unfold finished. cbn [lr_ok]. by intros ?%bool_decide_eq_true.
  - intros v s _. unfold finished. cbn [lr_ok]. intros Ho%bool_decide_eq_true. by vm_compute in Ho.
  - left. unfold initial_vars. cbv zeta.
    rewrite (bool_decide_false (cf_tool_choice cfg = u "auto")) by done.
    destruct (existing_worklists _ _ _); split_and!; try done; by left.
Qed.
End required.
End spec.

(** ** Concrete runs *)
#[local] Existing Instances Sample.names Sample.repr Sample.floats Sample.words Sample.loads.
#[local] Instance sample_digits : UnicodeDigits := λ _, None.

(** A reviewer that must read a file and then submit; the model tries plain text
    in between, and calls two tools in its first message. *)
Definition review_config : LoopConfig :=
  mkConfig 8 4 2048 (u "read_file") (Some (u "submit_review")) None None None None 1 2 0.
Definition review_script : list AssistantMessage :=
  [mkAssistant (u "reading") [mkToolCall (u "c1") (u "read_file") (PyDict [(u "path", PyStr (u "a.py"))]);
                              mkToolCall (u "c2") (u "read_file") (PyDict [(u "path", PyStr (u "b.py"))])];
   mkAssistant (u "looks fine") [];
   mkAssistant [] [mkToolCall (u "c3") (u "submit_review") (PyDict [])];
   mkAssistant (u "done") []].
Definition review_messages : list message := [[(u "role", PyStr (u "system")); (u "content", PyStr (u "review"))]].
Definition review_run : result LoopResult * @LoopState Sample.world :=
  run Sample.host Sample.registry Sample.scope Sample.context review_config review_messages (Sample.state review_script).
Definition empty_result : LoopResult := mkLoopResult false [] [] [] (mkUsage 0 0 0 0 0 0 0 0 None) [].
Definition review_result : LoopResult := match review_run.1 with Ok r => r | Err _ => empty_result end.

Lemma review_run_ok :
  run Sample.host Sample.registry Sample.scope Sample.context review_config review_messages
    (Sample.state review_script) = (Ok review_result, review_run.2).
Proof. vm_compute. reflexivity. Qed.

Lemma run_bounded_witness :
  lr_ok review_result = true ∧ length (lr_turns review_result) = 4 ∧ length (lr_turns review_result) ≤ 8 ∧
  tool_calls review_result = 3.
Proof.
  split; [vm_compute; reflexivity|]. split; [vm_compute; reflexivity|]. split; [|vm_compute; reflexivity].
  exact (proj1 (run_bounded Sample.host Sample.registry Sample.scope Sample.context review_config
                  review_messages (Sample.state review_script) review_result review_run.2 review_run_ok)).
Defined.

Lemma history_paired_witness :
  length (lr_messages review_result) = 9 ∧ well_paired (lr_messages review_result).
Proof.
  split; [vm_compute; reflexivity|].
  apply (history_paired Sample.host Sample.registry Sample.scope Sample.context review_config
           review_messages (Sample.state review_script) review_result review_run.2);
    [reflexivity|reflexivity|exact review_run_ok].
Defined.

Lemma required_delivery_witness :
  lr_ok review_result = true ∧
  ∃ t inv, t ∈ lr_turns review_result ∧ inv ∈ tn_invocations t ∧ delivers inv.
Proof.
  assert (Hok : lr_ok review_result = true) by (vm_compute; reflexivity).
  split; [exact Hok|].
  refine (required_delivery Sample.host Sample.registry Sample.scope Sample.context review_config
            _ _ eq_refl eq_refl review_messages (Sample.state review_script) review_result review_run.2
            review_run_ok Hok); vm_compute; discriminate.
Defined.

(** The log before the first execution of the run. *)
Definition until_invoke (l : list (@effect Sample.world)) : list effect :=
  (fix go (l : list (@effect Sample.world)) : list (@effect Sample.world) := match l with
     | EInvoke _ _ _ :: _ | [] => []
     | e :: l' => e :: go l'
     end) l.

Lemma run_authorised_witness :
  ∃ name args res after,
    ls_log review_run.2 = until_invoke (ls_log review_run.2) ++ EInvoke name args res :: after ∧
    authorised Sample.host Sample.registry Sample.scope Sample.context true (until_invoke (ls_log review_run.2)) name args.
Proof.
  assert (E : ∃ name args res after,
    ls_log review_run.2 = until_invoke (ls_log review_run.2) ++ EInvoke name args res :: after).
  { do 4 eexists. vm_compute. reflexivity. }
  destruct E as (name & args & res & after & E). exists name, args, res, after. split; [exact E|].
  exact (run_authorised Sample.host Sample.registry Sample.scope Sample.context review_config review_messages
           (Sample.state review_script) (Ok review_result) review_run.2 _ name args res after eq_refl review_run_ok E).
Defined.

(** Compaction keeps the last two messages only: after a message with two tool
    calls these are their answers, and the message they answer is gone. *)
Definition two_calls_history : list message :=
  review_messages ++
  [user_message (u "go");
   [(u "role", PyStr (u "assistant")); (u "content", PyStr (u "reading"));
    (u "tool_calls", PyList [PyDict [(u "id", PyStr (u "c1"))]; PyDict [(u "id", PyStr (u "c2"))]])];
   [(u "role", PyStr (u "tool")); (u "tool_call_id", PyStr (u "c1")); (u "content", PyStr (u "text"))];
   [(u "role", PyStr (u "tool")); (u "tool_call_id", PyStr (u "c2")); (u "content", PyStr (u "text"))]].
Definition compacting_config : LoopConfig := mkConfig 8 4 2048 (u "auto") None None None None None 1 0 40.

Example compaction_orphans_answers :
  well_paired two_calls_history ∧
  match (run Sample.host Sample.registry Sample.scope Sample.context compacting_config two_calls_history
           (Sample.state [mkAssistant (u "done") []])).1 with
  | Ok r => lr_ok r = true ∧ answers_in_place [] (lr_messages r) = false
  | Err _ => False
  end.
Proof. vm_compute. done. Qed.

(** A lone surrogate in the arguments of an allowed call ends the run with an
    exception, after the model's message was added and before it is answered. *)
Example surrogate_argument_escapes_run :
  (run Sample.host Sample.registry Sample.scope Sample.context compacting_config review_messages
     (Sample.state [mkAssistant [] [mkToolCall (u "c1") (u "write_file")
                       (PyDict [(u "path", PyStr (u "a.py")); (u "content", PyStr [55357%N])])]])).1
  = Err (ValueError "surrogates not allowed").
Proof. vm_compute. reflexivity. Qed.
