(* ===== verification/JsonParse.v ===== *)
(** * [json.loads]

    The decoder with the two hooks the source sets: [object_pairs_hook] that
    refuses a repeated member name, and [parse_constant] that refuses [NaN] and
    the infinities.  Numbers with a fraction or an exponent are rounded once to
    a binary64 float.  The recursion limit of the interpreter is not modelled.
    [loads_dumps] shows that the decoder inverts [Json.dumps]. *)

From Stdlib Require Import SpecFloat.
From S2P Require Import Prelude PyText PyVal Json.

Record load_opts := mkLoadOpts { lo_unique : bool; lo_finite : bool }.
Definition plain_loads : load_opts := mkLoadOpts false false.
Definition unique_loads : load_opts := mkLoadOpts true false.
Definition strict_loads : load_opts := mkLoadOpts true true.

(** ** Numbers *)
(** The longest prefix of characters in a class, and the rest. *)
Fixpoint span_cls (f : N → bool) (s : pystr) : pystr * pystr :=
  match s with
  | c :: t => if f c then let '(a, b) := span_cls f t in (c :: a, b) else ([], s)
  | [] => ([], [])
  end.

(** The binary64 value of [±n·10^e]; [k] is the count of digits of [n].  Beyond
    the exponents tested, every such number is out of the range of the floats. *)
Definition float_of_decimal (neg : bool) (n : N) (k : Z) (e : Z) : spec_float :=
  match n with
  | N0 => S754_zero neg
  | Npos p =>
    if (400 <? e + k)%Z then S754_infinity neg
    else if (e + k <? -400)%Z then S754_zero neg
    else if (0 <=? e)%Z then
      binary_normalize 53 1024 (if neg then Z.neg (p * Z.to_pos (10 ^ e)) else Z.pos (p * Z.to_pos (10 ^ e)))%Z 0 neg
    else SFdiv 53 1024 (S754_finite neg p 0) (S754_finite false (Z.to_pos (10 ^ (- e))) 0)
  end.

(** [int(text)] of ASCII digits. *)
Definition int_text (neg : bool) (ds : pystr) : result Z :=
  if 4300 <? length ds then Err (ValueError "Exceeds the limit for integer string conversion")
  else let z := Z.of_N (digits_value ds) in Ok (if neg then - z else z)%Z.

(** The integer part: one zero, or digits without a leading zero. *)
Definition scan_int (s : pystr) : option (pystr * pystr) :=
  match s with
  | c :: t =>
    if (c =? 48)%N then Some ([c], t)
    else if is_digit c then let '(a, b) := span_cls is_digit t in Some (c :: a, b)
    else None
  | [] => None
  end.

(** A point is part of the number only before a digit. *)
Definition scan_frac (s : pystr) : pystr * pystr :=
  match s with
  | c :: t =>
    if (c =? 46)%N then
      match span_cls is_digit t with ([], _) => ([], s) | (ds, r) => (ds, r) end
    else ([], s)
  | [] => ([], [])
  end.

(** An exponent is part of the number only with digits. *)
Definition scan_exp (s : pystr) : option (Z * pystr) :=
  match s with
  | c :: t =>
    if (c =? 101)%N || (c =? 69)%N then
      let '(neg, t) := match t with
                       | d :: t' => if (d =? 45)%N then (true, t') else if (d =? 43)%N then (false, t') else (false, t)
                       | [] => (false, [])
                       end in
      match span_cls is_digit t with
      | ([], _) => None
      | (ds, r) => Some ((if neg then - Z.of_N (digits_value ds) else Z.of_N (digits_value ds))%Z, r)
      end
    else None
  | [] => None
  end.

Definition scan_number (s : pystr) : option (result pyval * pystr) :=
  let '(neg, t) := match s with c :: t => if (c =? 45)%N then (true, t) else (false, s) | [] => (false, []) end in
  match scan_int t with
  | None => None
  | Some (ds, r) =>
    let '(fs, r1) := scan_frac r in
    match scan_exp r1 with
    | Some (e, r2) =>
      Some (Ok (PyFloat (float_of_decimal neg (digits_value (ds ++ fs)) (Z.of_nat (length (ds ++ fs)))
                           (e - Z.of_nat (length fs)))), r2)
    | None =>
      match fs with
      | [] => Some (z ← int_text neg ds; Ok (PyInt z), r)
      | _ => Some (Ok (PyFloat (float_of_decimal neg (digits_value (ds ++ fs)) (Z.of_nat (length (ds ++ fs)))
                                  (- Z.of_nat (length fs)))), r1)
      end
    end
  end.

(** ** Strings *)
Definition hex_digit (c : N) : option N :=
  if is_digit c then Some (c - 48)%N
  else if in_range 97 102 c then Some (c - 87)%N
  else if in_range 65 70 c then Some (c - 55)%N
  else None.
Definition hex4_value (a b c d : N) : option N :=
  match hex_digit a, hex_digit b, hex_digit c, hex_digit d with
  | Some a, Some b, Some c, Some d => Some (((a * 16 + b) * 16 + c) * 16 + d)%N
  | _, _, _, _ => None
  end.
Definition simple_escape (e : N) : option N :=
  if (e =? 34)%N || (e =? 92)%N || (e =? 47)%N then Some e
  else if (e =? 98)%N then Some 8%N
  else if (e =? 102)%N then Some 12%N
  else if (e =? 110)%N then Some 10%N
  else if (e =? 114)%N then Some 13%N
  else if (e =? 116)%N then Some 9%N
  else None.

Definition is_high (v : N) : bool := in_range 55296 56319 v.
Definition is_low (v : N) : bool := in_range 56320 57343 v.
Definition join_pair (v w : N) : N := (65536 + (v - 55296) * 1024 + (w - 56320))%N.

Section scan.
Context (o : load_opts) (doc : pystr).
Definition bad {A} (msg : string) : result A := Err (JSONDecodeError doc msg).
Definition with_char (c : N) (r : result (pystr * pystr)) : result (pystr * pystr) :=
  match r with Ok (s, t) => Ok (c :: s, t) | Err e => Err e end.

(** After the opening quote: the text of the string, and what follows it. *)
Fixpoint scan_string (s : pystr) : result (pystr * pystr) :=
  match s with
  | [] => bad "Unterminated string starting at"
  | c :: t =>
    if (c =? 34)%N then Ok ([], t)
    else if (c =? 92)%N then
      match t with
      | [] => bad "Unterminated string starting at"
      | e :: t1 =>
        if (e =? 117)%N then
          match t1 with
          | h1 :: h2 :: h3 :: h4 :: t2 =>
            match hex4_value h1 h2 h3 h4 with
            | None => bad "Invalid \uXXXX escape"
            | Some v =>
              if is_high v then
                match t2 with
                | b :: e' :: g1 :: g2 :: g3 :: g4 :: t3 =>
                  if (b =? 92)%N && (e' =? 117)%N then
                    match hex4_value g1 g2 g3 g4 with
                    | None => bad "Invalid \uXXXX escape"
                    | Some w => if is_low w then with_char (join_pair v w) (scan_string t3)
                                else with_char v (scan_string t2)
                    end
                  else with_char v (scan_string t2)
                | _ => with_char v (scan_string t2)
                end
              else with_char v (scan_string t2)
            end
          | _ => bad "Invalid \uXXXX escape"
          end
        else
          match simple_escape e with
          | Some x => with_char x (scan_string t1)
          | None => bad "Invalid \escape"
          end
      end
    else if (c <? 32)%N then bad "Invalid control character at"
    else with_char c (scan_string t)
  end.

(** ** Values *)
Definition is_ws (c : N) : bool := (c =? 32)%N || (c =? 9)%N || (c =? 10)%N || (c =? 13)%N.
Definition skip_ws (s : pystr) : pystr := lstrip_by is_ws s.

(** The dictionary of an object's members: a repeated name replaces the value
    of the first, or is refused by [_json_object_without_duplicates]. *)
Fixpoint _json_object_without_duplicates (value : dict) (pairs : list (pystr * pyval)) : result dict :=
  match pairs with
  | [] => Ok value
  | (k, v) :: rest =>
    if dhas k value then Err (ValueError "JSON 对象包含重复 JSON 成员名")
    else _json_object_without_duplicates (dset k v value) rest
  end.
Definition object_of (pairs : list (pystr * pyval)) : result dict :=
  if lo_unique o then _json_object_without_duplicates [] pairs else Ok (dupdate [] pairs).

(** [parse_constant]; the default makes a float. *)
Definition constant (v : spec_float) : result pyval :=
  if lo_finite o then Err (ValueError "JSON 含有非标准 JSON 数值常量") else Ok (PyFloat v).

Definition keyword (s : pystr) : option (result pyval * pystr) :=
  let try w v k := if startswith w s then Some (v, drop (length w) s) else k in
  try (u "null") (Ok PyNone)
    (try (u "true") (Ok (PyBool true))
       (try (u "false") (Ok (PyBool false))
          (try (u "NaN") (constant S754_nan)
             (try (u "Infinity") (constant (S754_infinity false))
                (try (u "-Infinity") (constant (S754_infinity true)) None))))).

Fixpoint scan_value (fuel : nat) (s : pystr) {struct fuel} : result (pyval * pystr) :=
  match fuel with
  | O => Err (RuntimeError "fuel")
  | S n =>
    match s with
    | [] => bad "Expecting value"
    | c :: t =>
      if (c =? 34)%N then r ← scan_string t; Ok (PyStr r.1, r.2)
      else if (c =? 123)%N then
        match skip_ws t with
        | d :: r =>
          if (d =? 125)%N then fields ← object_of []; Ok (PyDict fields, r)
          else m ← scan_members n (d :: r); fields ← object_of m.1; Ok (PyDict fields, m.2)
        | [] => bad "Expecting property name enclosed in double quotes"
        end
      else if (c =? 91)%N then
        match skip_ws t with
        | d :: r => if (d =? 93)%N then Ok (PyList [], r)
                    else m ← scan_items n (d :: r); Ok (PyList m.1, m.2)
        | [] => bad "Expecting value"
        end
      else
        match keyword s with
        | Some (v, r) => v ← v; Ok (v, r)
        | None =>
          match scan_number s with
          | Some (v, r) => v ← v; Ok (v, r)
          | None => bad "Expecting value"
          end
        end
    end
  end
with scan_members (fuel : nat) (s : pystr) {struct fuel} : result (list (pystr * pyval) * pystr) :=
  match fuel with
  | O => Err (RuntimeError "fuel")
  | S n =>
    match s with
    | c :: t =>
      if (c =? 34)%N then
        k ← scan_string t;
        match skip_ws k.2 with
        | d :: t2 =>
          if (d =? 58)%N then
            v ← scan_value n (skip_ws t2);
            match skip_ws v.2 with
            | e :: t3 =>
              if (e =? 125)%N then Ok ([(k.1, v.1)], t3)
              else if (e =? 44)%N then
                m ← scan_members n (skip_ws t3); Ok ((k.1, v.1) :: m.1, m.2)
              else bad "Expecting ',' delimiter"
            | [] => bad "Expecting ',' delimiter"
            end
          else bad "Expecting ':' delimiter"
        | [] => bad "Expecting ':' delimiter"
        end
      else bad "Expecting property name enclosed in double quotes"
    | [] => bad "Expecting property name enclosed in double quotes"
    end
  end
with scan_items (fuel : nat) (s : pystr) {struct fuel} : result (list pyval * pystr) :=
  match fuel with
  | O => Err (RuntimeError "fuel")
  | S n =>
    v ← scan_value n s;
    match skip_ws v.2 with
    | e :: t =>
      if (e =? 93)%N then Ok ([v.1], t)
      else if (e =? 44)%N then m ← scan_items n (skip_ws t); Ok (v.1 :: m.1, m.2)
      else bad "Expecting ',' delimiter"
    | [] => bad "Expecting ',' delimiter"
    end
  end.

Lemma scan_value_S n s :
  scan_value (S n) s =
    match s with
    | [] => bad "Expecting value"
    | c :: t =>
      if (c =? 34)%N then r ← scan_string t; Ok (PyStr r.1, r.2)
      else if (c =? 123)%N then
        match skip_ws t with
        | d :: r =>
          if (d =? 125)%N then fields ← object_of []; Ok (PyDict fields, r)
          else m ← scan_members n (d :: r); fields ← object_of m.1; Ok (PyDict fields, m.2)
        | [] => bad "Expecting property name enclosed in double quotes"
        end
      else if (c =? 91)%N then
        match skip_ws t with
        | d :: r => if (d =? 93)%N then Ok (PyList [], r)
                    else m ← scan_items n (d :: r); Ok (PyList m.1, m.2)
        | [] => bad "Expecting value"
        end
      else
        match keyword s with
        | Some (v, r) => v ← v; Ok (v, r)
        | None =>
          match scan_number s with
          | Some (v, r) => v ← v; Ok (v, r)
          | None => bad "Expecting value"
          end
        end
    end.
Proof. reflexivity. Qed.
Lemma scan_items_S n s :
  scan_items (S n) s =
    v ← scan_value n s;
    match skip_ws v.2 with
    | e :: t =>
      if (e =? 93)%N then Ok ([v.1], t)
      else if (e =? 44)%N then m ← scan_items n (skip_ws t); Ok (v.1 :: m.1, m.2)
      else bad "Expecting ',' delimiter"
    | [] => bad "Expecting ',' delimiter"
    end.
Proof. reflexivity. Qed.
Lemma scan_members_S n s :
  scan_members (S n) s =
    match s with
    | c :: t =>
      if (c =? 34)%N then
        k ← scan_string t;
        match skip_ws k.2 with
        | d :: t2 =>
          if (d =? 58)%N then
            v ← scan_value n (skip_ws t2);
            match skip_ws v.2 with
            | e :: t3 =>
              if (e =? 125)%N then Ok ([(k.1, v.1)], t3)
              else if (e =? 44)%N then
                m ← scan_members n (skip_ws t3); Ok ((k.1, v.1) :: m.1, m.2)
              else bad "Expecting ',' delimiter"
            | [] => bad "Expecting ',' delimiter"
            end
          else bad "Expecting ':' delimiter"
        | [] => bad "Expecting ':' delimiter"
        end
      else bad "Expecting property name enclosed in double quotes"
    | [] => bad "Expecting property name enclosed in double quotes"
    end.
Proof. reflexivity. Qed.
End scan.

Definition loads (o : load_opts) (doc : pystr) : result pyval :=
  match doc with
  | c :: _ =>
    if (c =? 65279)%N then bad doc "Unexpected UTF-8 BOM (decode using utf-8-sig)"
    else
      v ← scan_value o doc (2 * length doc + 2) (skip_ws doc);
      match skip_ws v.2 with [] => Ok v.1 | _ => bad doc "Extra data" end
  | [] => bad doc "Expecting value"
  end.


(** ** What the decoder makes *)
(** A value of JSON: no tuples and no other objects, and no name twice. *)
Inductive json_value : pyval → Prop :=
  | jv_none : json_value PyNone
  | jv_bool b : json_value (PyBool b)
  | jv_int z : json_value (PyInt z)
  | jv_float f : json_value (PyFloat f)
  | jv_str s : json_value (PyStr s)
  | jv_list l : Forall json_value l → json_value (PyList l)
  | jv_dict d : NoDup (dkeys d) → Forall (λ p, json_value p.2) d → json_value (PyDict d).

Lemma dupdate_value acc ps :
  NoDup (dkeys acc) → Forall (λ p, json_value p.2) acc → Forall (λ p, json_value p.2) ps →
  NoDup (dkeys (dupdate acc ps)) ∧ Forall (λ p, json_value p.2) (dupdate acc ps).
Proof.
  intros Hn Ha Hp. revert acc Hn Ha. unfold dupdate. induction Hp as [|[k v] ps Hv _ IH]; intros acc Hn Ha; [done|].
  cbn [foldl]. apply IH; [by apply dset_NoDup|]. cbn [fst snd].
  clear -Ha Hv. induction Ha as [|[k' v'] acc Hv' Hacc IH]; cbn; [by repeat constructor|].
  destruct (decide (k = k')); by constructor.
Qed.

Lemma object_of_value o ps d :
  Forall (λ p, json_value p.2) ps → object_of o ps = Ok d → json_value (PyDict d).
Proof.
  intros Hp Hd. assert (d = dupdate [] ps) as ->.
  { unfold object_of in Hd. destruct (lo_unique o); [|congruence].
    unfold dupdate. revert Hd. generalize (@nil (pystr * pyval)). clear Hp.
    induction ps as [|[k v] ps IH]; intros acc Hd; cbn in *; [congruence|].
    destruct (dhas k acc); [done|]. by apply IH. }
  constructor; by apply dupdate_value; [constructor|constructor|].
Qed.

Lemma keyword_value o s v r : keyword o s = Some (Ok v, r) → json_value v.
Proof.
  unfold keyword, constant.
  repeat case_match; intros [= <- _]; constructor.
Qed.
Lemma scan_number_value s v r : scan_number s = Some (Ok v, r) → json_value v.
Proof.
  unfold scan_number. destruct (match s with c :: t => _ | [] => _ end) as [neg t].
  destruct (scan_int t) as [[ds r']|]; [|done]. destruct (scan_frac r') as [fs r1].
  destruct (scan_exp r1) as [[e r2]|]; [intros [= <- _]; constructor|].
  destruct fs; [|intros [= <- _]; constructor].
  destruct (int_text neg ds); cbn; intros [= <- _]; constructor.
Qed.

Lemma scan_value_good o doc n :
  (∀ s v r, scan_value o doc n s = Ok (v, r) → json_value v) ∧
  (∀ s ps r, scan_members o doc n s = Ok (ps, r) → Forall (λ p, json_value p.2) ps) ∧
  (∀ s vs r, scan_items o doc n s = Ok (vs, r) → Forall json_value vs).
Proof.
  induction n as [|n (IHv & IHm & IHi)]; [done|]. split; [|split].
  - intros s v r. cbn [scan_value]. destruct s as [|c t]; [done|].
    destruct (c =? 34)%N.
    { intros ([s' r'] & _ & [= <- _])%bind_ok. constructor. }
    destruct (c =? 123)%N.
    { destruct (skip_ws t) as [|d t']; [done|]. destruct (d =? 125)%N.
      - intros (fields & Hf & [= <- _])%bind_ok. by eapply object_of_value; [|exact Hf].
      - intros ([ps r'] & Hm & (fields & Hf & [= <- _])%bind_ok)%bind_ok.
        eapply object_of_value; [|exact Hf]. by eapply IHm. }
    destruct (c =? 91)%N.
    { destruct (skip_ws t) as [|d t']; [done|]. destruct (d =? 93)%N.
      - intros [= <- _]. by repeat constructor.
      - intros ([vs r'] & Hm & [= <- _])%bind_ok. constructor. by eapply IHi. }
    destruct (keyword o (c :: t)) as [[v' r']|] eqn:Ek.
    { intros (v'' & -> & [= <- _])%bind_ok. by eapply keyword_value. }
    destruct (scan_number (c :: t)) as [[v' r']|] eqn:En; [|done].
    intros (v'' & -> & [= <- _])%bind_ok. by eapply scan_number_value.
  - intros s ps r. rewrite scan_members_S. destruct s as [|c t]; [done|]. destruct (c =? 34)%N; [|done].
    intros ([k r1] & _ & H)%bind_ok. cbn [fst snd] in H. destruct (skip_ws r1) as [|d t2]; [done|].
    destruct (d =? 58)%N; [|done]. revert H. intros ([v r2] & Hv & H)%bind_ok. apply IHv in Hv. cbn [fst snd] in H.
    destruct (skip_ws r2) as [|e t3]; [done|].
    destruct (e =? 125)%N; [injection H as <- _; by repeat constructor|]. destruct (e =? 44)%N; [|done].
    revert H. intros ([ps' r3] & Hm & [= <- _])%bind_ok. constructor; [done|by eapply IHm].
  - intros s vs r. cbn [scan_items]. intros ([v r2] & Hv & H)%bind_ok. apply IHv in Hv. cbn [fst snd] in H.
    destruct (skip_ws r2) as [|e t3]; [done|].
    destruct (e =? 93)%N; [injection H as <- _; by repeat constructor|]. destruct (e =? 44)%N; [|done].
    revert H. intros ([ps' r3] & Hm & [= <- _])%bind_ok. constructor; [done|by eapply IHi].
Qed.

Lemma loads_value o doc v : loads o doc = Ok v → json_value v.
Proof.
  unfold loads. destruct doc as [|c doc]; [done|]. destruct (c =? 65279)%N; [done|].
  intros ([v' r] & Hv & H)%bind_ok. cbn [fst snd] in H. destruct (skip_ws r); [|done].
  injection H as <-. by eapply scan_value_good.
Qed.

(** ** The decoder inverts the encoder *)
#[export] Instance spec_float_eq_dec : EqDecision spec_float.
Proof. solve_decision. Defined.
(** A finite float whose text ([repr]) the decoder reads back, as it does with
    the [repr] of CPython, the shortest text that rounds to the float. *)
Definition float_reads `{FloatRepr} (f : spec_float) : bool :=
  match f with
  | S754_nan | S754_infinity _ => false
  | _ => match scan_number (float_repr f) with Some (Ok (PyFloat g), []) => bool_decide (g = f) | _ => false end
  end.
(** Values whose text the decoder reads back: no infinities and no NaN, no
    tuples, no keys twice, and integers of at most 4300 digits, the most that
    CPython writes and reads. *)
Fixpoint json_plain `{FloatRepr} (v : pyval) : bool :=
  match v with
  | PyNone | PyBool _ | PyStr _ => true
  | PyInt z => length (dec (Z.abs_N z)) <=? 4300
  | PyFloat f => float_reads f
  | PyList l => forallb json_plain l
  | PyDict d => bool_decide (NoDup (dkeys d)) && forallb (λ p, json_plain p.2) d
  | _ => false
  end.

(** The value whose members are in the order [json.dumps] writes them. *)
Fixpoint canon (o : json_opts) (v : pyval) : pyval :=
  match v with
  | PyList l => PyList (map (canon o) l)
  | PyDict d => PyDict (sort_items o (map (λ p, (p.1, canon o p.2)) d))
  | _ => v
  end.

Lemma item_insert_map {V W} (f : V → W) (p : pystr * V) d :
  item_insert (p.1, f p.2) (map (λ x, (x.1, f x.2)) d) = map (λ x, (x.1, f x.2)) (item_insert p d).
Proof.
  induction d as [|x d IH]; [done|]. cbn [map item_insert fst snd].
  destruct (str_compare p.1 x.1); try done. by rewrite IH.
Qed.

Lemma sort_items_map {V W} o (f : V → W) d :
  sort_items o (map (λ x : pystr * V, (x.1, f x.2)) d) = map (λ x, (x.1, f x.2)) (sort_items o d).
Proof.
  unfold sort_items. destruct (jo_sort o); [|done].
  induction d as [|x d IH]; [done|]. cbn [map foldr]. rewrite IH. apply item_insert_map.
Qed.

Lemma item_insert_perm {V} (p : pystr * V) d : item_insert p d ≡ₚ p :: d.
Proof.
  induction d as [|x d IH]; [done|]. cbn. destruct (str_compare _ _); try done.
  rewrite IH. by constructor.
Qed.
Lemma sort_items_perm {V} o (d : list (pystr * V)) : sort_items o d ≡ₚ d.
Proof.
  unfold sort_items. destruct (jo_sort o); [|done].
  induction d as [|x d IH]; [done|]. cbn. by rewrite item_insert_perm, IH.
Qed.

Lemma object_of_nodup o d : NoDup (dkeys d) → object_of o d = Ok d.
Proof.
  intros Hd. unfold object_of. destruct (lo_unique o).
  - assert (H : ∀ acc, NoDup (dkeys (acc ++ d)) → _json_object_without_duplicates acc d = Ok (acc ++ d));
      [|by apply (H [])].
    clear Hd. induction d as [|[k v] d IH]; intros acc Hd; cbn; [by rewrite app_nil_r|].
    assert (Hk : dget k acc = None).
    { apply dget_None. intros Hin. unfold dkeys in Hd. rewrite fmap_app in Hd.
      apply NoDup_app in Hd as (_ & Hd & _). apply (Hd k Hin). left. }
    unfold dhas. rewrite Hk, dset_fresh by done. rewrite IH; [|by rewrite <- app_assoc].
    by rewrite <- app_assoc.
  - assert (H : ∀ acc, NoDup (dkeys (acc ++ d)) → dupdate acc d = acc ++ d);
      [|by rewrite (H [])].
    unfold dupdate. clear Hd. induction d as [|[k v] d IH]; intros acc Hd; cbn; [by rewrite app_nil_r|].
    assert (Hk : dget k acc = None).
    { apply dget_None. intros Hin. unfold dkeys in Hd. rewrite fmap_app in Hd.
      apply NoDup_app in Hd as (_ & Hd & _). apply (Hd k Hin). left. }
    rewrite dset_fresh by done. rewrite IH; [|by rewrite <- app_assoc].
    by rewrite <- app_assoc.
Qed.

(** *** Numbers *)
(** What may follow a value inside a document. *)
Definition delimited (rest : pystr) : Prop :=
  match rest with [] => True | c :: _ => is_digit c = false ∧ (c ≠ 46 ∧ c ≠ 101 ∧ c ≠ 69)%N end.

Lemma span_cls_app f s rest :
  Forall (λ c, f c = true) s → match rest with [] => True | c :: _ => f c = false end →
  span_cls f (s ++ rest) = (s, rest).
Proof.
  intros Hs Hr. induction Hs as [|c s Hc _ IH]; cbn.
  - destruct rest as [|c rest]; [done|]. cbn. by rewrite Hr.
  - by rewrite Hc, IH.
Qed.

Lemma dec_head n : (n ≠ 0)%N → ∃ c t, dec n = c :: t ∧ (c ≠ 48)%N.
Proof.
  assert (H : ∀ f m acc, (m < 10 ^ N.of_nat f)%N → f ≠ 0 → (m ≠ 0)%N →
            ∃ c t, dec_aux f m acc = c :: t ∧ (c ≠ 48)%N).
  { induction f as [|f IH]; intros m acc Hm Hf Hz; [done|]. cbn [dec_aux].
    pose proof (N.div_mod m 10 ltac:(lia)).
    destruct (N.eqb_spec (m / 10) 0) as [Hq|Hq].
    - eexists _, _. split; [done|]. lia.
    - apply IH; [|intros ->|done].
      + rewrite Nat2N.inj_succ, N.pow_succ_r' in Hm. apply N.Div0.div_lt_upper_bound; lia.
      + cbn in Hm. apply Hq, N.div_small. lia. }
  intros Hn. apply H; [apply size_nat_bound|lia|done].
Qed.

Lemma scan_int_dec n rest : delimited rest → scan_int (dec n ++ rest) = Some (dec n, rest).
Proof.
  intros Hr. destruct (decide (n = 0)%N) as [->|Hn]; [done|].
  destruct (dec_head n Hn) as (c & t & Ht & Hc). pose proof (dec_digits n) as Hd. rewrite Ht in *.
  inversion Hd as [|?? Hc' Ht']; subst. cbn [app scan_int].
  destruct (N.eqb_spec c 48); [done|]. rewrite Hc', span_cls_app; [done|done|].
  destruct rest; [done|]. apply Hr.
Qed.

Lemma scan_frac_delimited rest : delimited rest → scan_frac rest = ([], rest).
Proof.
  destruct rest as [|c rest]; [done|]. intros (_ & Hc & _). cbn.
  by destruct (N.eqb_spec c 46).
Qed.
Lemma scan_exp_delimited rest : delimited rest → scan_exp rest = None.
Proof.
  destruct rest as [|c rest]; [done|]. intros (_ & _ & H1 & H2). cbn.
  destruct (N.eqb_spec c 101); [done|]. by destruct (N.eqb_spec c 69).
Qed.

Lemma dec_z_split z : ∃ neg, dec_z z = (if neg : bool then [45%N] else []) ++ dec (Z.abs_N z) ∧
  z = (if neg then - Z.of_N (Z.abs_N z) else Z.of_N (Z.abs_N z))%Z.
Proof.
  unfold dec_z. destruct (Z.ltb_spec z 0).
  - exists true. replace (Z.to_N (- z)) with (Z.abs_N z) by lia. split; [done|lia].
  - exists false. replace (Z.to_N z) with (Z.abs_N z) by lia. split; [done|lia].
Qed.

Lemma dec_cons n : ∃ c t, dec n = c :: t ∧ is_digit c = true.
Proof.
  pose proof (dec_digits n) as Hd. pose proof (dec_nonempty n).
  destruct (dec n) as [|c t]; [done|]. inversion Hd; subst. by exists c, t.
Qed.

Lemma scan_number_dec z rest :
  length (dec (Z.abs_N z)) ≤ 4300 → delimited rest →
  scan_number (dec_z z ++ rest) = Some (Ok (PyInt z), rest).
Proof.
  intros Hl Hr. destruct (dec_z_split z) as (neg & -> & Hz). rewrite <- app_assoc.
  assert (Hs : match (if neg : bool then [45%N] else []) ++ dec (Z.abs_N z) ++ rest with
               | c :: t => if (c =? 45)%N then (true, t) else (false, (if neg then [45%N] else []) ++ dec (Z.abs_N z) ++ rest)
               | [] => (false, []) end = (neg, dec (Z.abs_N z) ++ rest)).
  { destruct neg; [done|]. destruct (dec_cons (Z.abs_N z)) as (c & t & -> & Hc). cbn.
    destruct (N.eqb_spec c 45) as [->|]; [by vm_compute in Hc|done]. }
  unfold scan_number. rewrite Hs, scan_int_dec, scan_frac_delimited, scan_exp_delimited by done.
  unfold int_text. destruct (Nat.ltb_spec 4300 (length (dec (Z.abs_N z)))); [lia|].
  cbn [mbind result_bind]. rewrite digits_value_dec. by rewrite <- Hz.
Qed.

(** A number of the document ends where its text does. *)
Lemma span_cls_delimited s a b rest : span_cls is_digit s = (a, b) → delimited rest → span_cls is_digit (s ++ rest) = (a, b ++ rest).
Proof.
  intros E Hr. revert a b E. induction s as [|c s IH]; intros a b; cbn [span_cls app].
  - intros [= <- <-]. apply (span_cls_app is_digit []); [constructor|]. destruct rest; [done|]. apply Hr.
  - destruct (is_digit c); [|by intros [= <- <-]]. destruct (span_cls is_digit s) as [a' b'] eqn:E. intros [= <- <-]. by rewrite (IH a' b').
Qed.
Lemma span_cls_split f s a b : span_cls f s = (a, b) → s = a ++ b ∧ Forall (λ c, f c = true) a.
Proof.
  revert a b. induction s as [|c s IH]; intros a b; cbn [span_cls]; [by intros [= <- <-]|]. destruct (f c) eqn:Ef; [|by intros [= <- <-]].
  destruct (span_cls f s) as [a' b']. intros [= <- <-]. destruct (IH a' b' eq_refl) as [-> Ha]. split; [done|by constructor].
Qed.
Lemma scan_int_app s ds r rest : scan_int s = Some (ds, r) → delimited rest → scan_int (s ++ rest) = Some (ds, r ++ rest).
Proof.
  intros E Hr. destruct s as [|c t]; [done|]. cbn [scan_int app] in *. destruct (c =? 48)%N; [by injection E as <- <-|].
  destruct (is_digit c); [|done]. destruct (span_cls is_digit t) as [a b] eqn:Es. injection E as <- <-. by rewrite (span_cls_delimited _ _ _ _ Es Hr).
Qed.
Lemma scan_frac_app s fs r rest : scan_frac s = (fs, r) → delimited rest → scan_frac (s ++ rest) = (fs, r ++ rest).
Proof.
  intros E Hr. destruct s as [|c t]; [injection E as <- <-; by apply scan_frac_delimited|]. cbn [scan_frac app] in *.
  destruct (c =? 46)%N; [|by injection E as <- <-]. destruct (span_cls is_digit t) as [a b] eqn:Es. rewrite (span_cls_delimited _ _ _ _ Es Hr).
  destruct a; by injection E as <- <-.
Qed.
Lemma scan_exp_app s e r rest : scan_exp s = Some (e, r) → delimited rest → scan_exp (s ++ rest) = Some (e, r ++ rest).
Proof.
  intros E Hr. destruct s as [|c t]; [done|]. cbn [scan_exp app] in *. destruct ((c =? 101) || (c =? 69))%N; [|done].
  destruct t as [|d t]; [done|]. cbn [app]. destruct (if (d =? 45)%N then _ else _) as [neg t'] eqn:Et.
  assert ((if (d =? 45)%N then (true, t ++ rest) else if (d =? 43)%N then (false, t ++ rest) else (false, d :: t ++ rest)) = (neg, t' ++ rest)) as ->.
  { destruct (d =? 45)%N; [|destruct (d =? 43)%N]; by injection Et as <- <-. }
  destruct (span_cls is_digit t') as [a b] eqn:Es. rewrite (span_cls_delimited _ _ _ _ Es Hr). destruct a; [done|]. by injection E as <- <-.
Qed.
Lemma scan_number_app w v rest : scan_number w = Some (v, []) → delimited rest → scan_number (w ++ rest) = Some (v, rest).
Proof.
  intros E Hr. unfold scan_number in *. destruct w as [|c t]; [done|]. cbn [app].
  destruct (if (c =? 45)%N then (true, t) else (false, c :: t)) as [neg t'] eqn:Et.
  assert ((if (c =? 45)%N then (true, t ++ rest) else (false, c :: t ++ rest)) = (neg, t' ++ rest)) as ->.
  { destruct (c =? 45)%N; by injection Et as <- <-. }
  destruct (scan_int t') as [[ds r]|] eqn:Ei; [|done]. rewrite (scan_int_app _ _ _ _ Ei Hr).
  destruct (scan_frac r) as [fs r1] eqn:Ef. rewrite (scan_frac_app _ _ _ _ Ef Hr).
  destruct (scan_exp r1) as [[e r2]|] eqn:Ee.
  { rewrite (scan_exp_app _ _ _ _ Ee Hr). by injection E as <- ->. }
  destruct fs as [|d fs].
  - injection E as <- ->. injection Ef as <-. cbn [app]. by rewrite scan_exp_delimited.
  - injection E as <- ->. cbn [app]. by rewrite scan_exp_delimited.
Qed.

(** What a number is written with. *)
Lemma ascii_digits s : Forall (λ c, is_digit c = true) s → Forall (λ c, is_ascii c = true) s.
Proof. intros H. eapply Forall_impl; [exact H|]. intros c. unfold is_digit, in_range, is_ascii. autorewrite with py. lia. Qed.
Lemma scan_int_ascii s ds r : scan_int s = Some (ds, r) → Forall (λ c, is_ascii c = true) r → Forall (λ c, is_ascii c = true) s.
Proof.
  destruct s as [|c t]; [done|]. cbn [scan_int]. destruct (N.eqb_spec c 48) as [->|]; [intros [= _ <-]; by constructor|].
  destruct (is_digit c) eqn:Ec; [|done]. destruct (span_cls is_digit t) as [a b] eqn:Es. intros [= _ <-] Hb.
  apply span_cls_split in Es as [-> Ha]. apply (Forall_app _ (c :: a)). split; [|done]. apply ascii_digits. by constructor.
Qed.
Lemma scan_frac_ascii s fs r : scan_frac s = (fs, r) → Forall (λ c, is_ascii c = true) r → Forall (λ c, is_ascii c = true) s.
Proof.
  destruct s as [|c t]; [done|]. cbn [scan_frac]. destruct (N.eqb_spec c 46) as [->|]; [|by intros [= _ <-]].
  destruct (span_cls is_digit t) as [[|x a] b] eqn:Es; intros [= _ <-] Hb; [done|].
  apply span_cls_split in Es as [-> Ha]. constructor; [done|]. apply Forall_app. split; [by apply ascii_digits|done].
Qed.
Lemma scan_exp_ascii s e r : scan_exp s = Some (e, r) → Forall (λ c, is_ascii c = true) r → Forall (λ c, is_ascii c = true) s.
Proof.
  destruct s as [|c t]; [done|]. cbn [scan_exp]. destruct ((c =? 101) || (c =? 69))%N eqn:Ec; [|done]. intros E Hr. constructor.
  { apply orb_true_iff in Ec as [->%N.eqb_eq| ->%N.eqb_eq]; done. }
  destruct t as [|d t]; [constructor|]. destruct (N.eqb_spec d 45) as [->|]; [|destruct (N.eqb_spec d 43) as [->|]].
  1-2: constructor; [done|]; destruct (span_cls is_digit t) as [[|x a] b] eqn:Es; [done|]; injection E as _ <-.
  3: destruct (span_cls is_digit (d :: t)) as [[|x a] b] eqn:Es; [done|]; injection E as _ <-.
  all: apply span_cls_split in Es as [-> Ha]; apply Forall_app; split; [by apply ascii_digits|done].
Qed.
Lemma scan_number_ascii w v : scan_number w = Some (v, []) → Forall (λ c, is_ascii c = true) w ∧
  ∃ c t, w = c :: t ∧ (c = 45%N ∧ (∃ d t', t = d :: t' ∧ d ≠ 73%N) ∨ is_digit c = true).
Proof.
  unfold scan_number. destruct w as [|c t]; [done|].
  assert (Hd : ∀ s ds r, scan_int s = Some (ds, r) → ∃ d s', s = d :: s' ∧ is_digit d = true).
  { intros [|d s] ds r; [done|]. cbn [scan_int]. destruct (N.eqb_spec d 48) as [->|]; [by eauto|]. destruct (is_digit d) eqn:Ed; [by eauto|done]. }
  destruct (if (c =? 45)%N then (true, t) else (false, c :: t)) as [neg t'] eqn:Et.
  destruct (scan_int t') as [[ds r]|] eqn:Ei; [|done]. destruct (scan_frac r) as [fs r1] eqn:Ef. intros E. split.
  - assert (Hr1 : Forall (λ c, is_ascii c = true) r1).
    { destruct (scan_exp r1) as [[e r2]|] eqn:Ee; [injection E as _ ->; by apply (scan_exp_ascii _ _ _ Ee)|].
      destruct fs; injection E as _ ->; [|constructor]. injection Ef as <-. constructor. }
    pose proof (scan_int_ascii _ _ _ Ei (scan_frac_ascii _ _ _ Ef Hr1)) as Ht.
    destruct (N.eqb_spec c 45) as [->|]; injection Et as _ <-; [by constructor|done].
  - eexists _, _. split; [reflexivity|]. destruct (Hd _ _ _ Ei) as (d & s' & Hs & Hdd).
    destruct (N.eqb_spec c 45) as [->|]; injection Et as _ <-; [left; split; [done|]|right; by injection Hs as -> _].
    eexists _, _. split; [exact Hs|]. intros ->. by vm_compute in Hdd.
Qed.

(** *** Floats *)
Lemma float_reads_text `{FloatRepr} po f : float_reads f = true →
  dumps po (PyFloat f) = Some (float_repr f) ∧ scan_number (float_repr f) = Some (Ok (PyFloat f), []).
Proof.
  unfold float_reads. intros E. assert (dumps po (PyFloat f) = Some (float_repr f)) as -> by (by destruct f). split; [done|].
  destruct f; try done; (destruct (scan_number _) as [[[[| | |g| | | | |]|] [|]]|]; try done; by apply bool_decide_eq_true in E as ->).
Qed.
Lemma float_repr_reads `{FloatRepr} f : float_reads f = true → Forall (λ c, is_ascii c = true) (float_repr f).
Proof. intros [_ E]%(float_reads_text canonical_opts). by apply scan_number_ascii in E as [? _]. Qed.

(** *** Strings *)
Lemma json_char_cases c :
  (c < 32)%N ∧ (∃ e x, json_char false c = [92; e]%N ∧ simple_escape e = Some c ∧ e ≠ 117%N ∧ x = e)
  ∨ (c < 32)%N ∧ (∃ a b, json_char false c = [92; 117; 48; 48; a; b]%N ∧ hex4_value 48 48 a b = Some c)
  ∨ (c = 34 ∨ c = 92)%N ∧ json_char false c = [92%N; c]
  ∨ (32 ≤ c)%N ∧ c ≠ 34%N ∧ c ≠ 92%N ∧ json_char false c = [c].
Proof.
  destruct (N.ltb_spec c 32) as [Hc|Hc].
  - assert (Hin : In c (N.of_nat <$> seq 0 32)).
    { apply list_elem_of_In, list_elem_of_fmap. exists (N.to_nat c). split; [lia|]. apply elem_of_seq. lia. }
    cbn in Hin. repeat (destruct Hin as [<-|Hin];
      [first [left; split; [done|]; eexists _, _; repeat split; done
             |right; left; split; [done|]; eexists _, _; split; vm_compute; reflexivity]|]). done.
  - right. right. unfold json_char.
    destruct (N.eqb_spec c 34) as [->|]; [left; split; [by left|done]|].
    destruct (N.eqb_spec c 92) as [->|]; [left; split; [by right|done]|]. right.
    destruct (N.eqb_spec c 10); [lia|]. destruct (N.eqb_spec c 13); [lia|]. destruct (N.eqb_spec c 9); [lia|].
    destruct (N.eqb_spec c 12); [lia|]. destruct (N.eqb_spec c 8); [lia|].
    destruct (N.ltb_spec c 32); [lia|]. done.
Qed.

Lemma scan_string_char doc c t :
  scan_string doc (json_char false c ++ t) = with_char c (scan_string doc t).
Proof.
  destruct (json_char_cases c) as [(_ & e & x & -> & He & Hu & _)|[(Hc & a & b & -> & Hv)|[[Hc ->]|(Hc & H34 & H92 & ->)]]];
    cbn [app scan_string].
  - change (92 =? 34)%N with false. change (92 =? 92)%N with true. cbn [orb].
    destruct (N.eqb_spec e 117); [done|]. by rewrite He.
  - change (92 =? 34)%N with false. change (92 =? 92)%N with true. change (117 =? 117)%N with true. cbn [orb].
    rewrite Hv. destruct (is_high c) eqn:E; [|done]. unfold is_high, in_range in E. autorewrite with py in E. lia.
  - by destruct Hc as [-> | ->].
  - destruct (N.eqb_spec c 34); [done|]. destruct (N.eqb_spec c 92); [done|]. destruct (N.ltb_spec c 32); [lia|done].
Qed.

Lemma scan_string_text doc s rest :
  scan_string doc (concat (json_char false <$> s) ++ 34%N :: rest) = Ok (s, rest).
Proof.
  induction s as [|c s IH]; [done|]. rewrite fmap_cons. cbn [concat].
  rewrite <- app_assoc, scan_string_char, IH. done.
Qed.

(** *** Values *)
Definition starts_value (w : pystr) : Prop :=
  ∃ c t, w = c :: t ∧ is_ws c = false ∧ (c ≠ 93 ∧ c ≠ 125 ∧ c ≠ 65279)%N.

Lemma skip_ws_start c (t : pystr) : is_ws c = false → skip_ws (c :: t) = c :: t.
Proof. intros H. unfold skip_ws. cbn. by rewrite H. Qed.

Lemma digit_start c : is_digit c = true → is_ws c = false ∧ (c ≠ 93 ∧ c ≠ 125 ∧ c ≠ 65279)%N.
Proof.
  unfold is_digit, in_range, is_ws. autorewrite with py. lia.
Qed.

Lemma dec_z_cons z : ∃ c t, dec_z z = c :: t ∧ (c = 45%N ∨ is_digit c = true).
Proof.
  destruct (dec_z_split z) as (neg & -> & _). destruct (dec_cons (Z.abs_N z)) as (c & t & -> & Hc).
  destruct neg; eexists _, _; (split; [done|]); auto.
Qed.

Section roundtrip.
Context `{FloatRepr} (po : json_opts) (lo : load_opts) (doc : pystr).
Context (Hraw : jo_ascii po = false).

Fixpoint dumps_list (l : list pyval) : option (list pystr) :=
  match l with [] => Some [] | x :: l' => w ← dumps po x; ws ← dumps_list l'; Some (w :: ws) end.
Fixpoint dumps_items (d : dict) : option (list (pystr * pystr)) :=
  match d with [] => Some [] | (k, x) :: d' => w ← dumps po x; ws ← dumps_items d'; Some ((k, w) :: ws) end.

Lemma dumps_PyList l : dumps po (PyList l) = ws ← dumps_list l; Some (u "[" ++ join (item_sep po) ws ++ u "]").
Proof. done. Qed.
Lemma dumps_PyDict d :
  dumps po (PyDict d) = ws ← dumps_items d;
    Some (u "{" ++ join (item_sep po) ((λ p, json_str (jo_ascii po) p.1 ++ key_sep po ++ p.2) <$> sort_items po ws) ++ u "}").
Proof. done. Qed.

Lemma dumps_start v w : json_plain v = true → dumps po v = Some w → starts_value w.
Proof.
  unfold starts_value. intros Hp. destruct v as [|b|z|f|s|l|l|d|i]; try done.
  - intros [= <-]. by eexists _, _.
  - intros [= <-]. destruct b; by eexists _, _.
  - intros Hw. assert (w = dec_z z) as -> by (by injection Hw).
    destruct (dec_z_cons z) as (c & t & -> & [-> |Hc]); eexists _, _; (split; [done|]); [done|by apply digit_start].
  - destruct (float_reads_text po f Hp) as [-> E]. apply scan_number_ascii in E as [_ (c & t & -> & [[-> _]|Hc])]; intros [= <-];
      eexists _, _; (split; [done|]); [done|by apply digit_start].
  - intros [= <-]. by eexists _, _.
  - rewrite dumps_PyList. destruct (dumps_list l); [|done]. intros [= <-]. by eexists _, _.
  - rewrite dumps_PyDict. destruct (dumps_items d); [|done]. intros [= <-]. by eexists _, _.
Qed.

(** What the decoder does on the text of a value. *)
Definition reads_as (v : pyval) (w : pystr) : Prop :=
  ∀ n rest, 2 * length w < n → delimited rest → scan_value lo doc n (w ++ rest) = Ok (v, rest).
Definition reads (v : pyval) (w : pystr) : Prop := reads_as (canon po v) w.

Definition blank (t : pystr) : Prop := Forall (λ c, is_ws c = true) t.
Lemma item_sep_cons : ∃ t, item_sep po = 44%N :: t ∧ blank t.
Proof. unfold item_sep. destruct (jo_compact po); eexists _; (split; [reflexivity|]); repeat constructor. Qed.
Lemma key_sep_cons : ∃ t, key_sep po = 58%N :: t ∧ blank t.
Proof. unfold key_sep. destruct (jo_compact po); eexists _; (split; [reflexivity|]); repeat constructor. Qed.

Lemma skip_ws_app t s : blank t → skip_ws (t ++ s) = skip_ws s.
Proof. unfold skip_ws. induction 1 as [|c t Hc _ IH]; cbn; [done|]. by rewrite Hc. Qed.
Lemma delimited_blank t c s : blank t → delimited (c :: s) → delimited (t ++ c :: s).
Proof.
  intros [|d t' Hd _] Hc; [exact Hc|]. cbn. unfold is_ws in Hd. autorewrite with py in Hd. unfold is_digit, in_range.
  split; [apply andb_false_iff; rewrite !N.leb_gt|]; lia.
Qed.

Lemma starts_app w s : starts_value w → starts_value (w ++ s).
Proof. intros (c & t & -> & Hc). by exists c, (t ++ s). Qed.
Lemma skip_ws_starts w : starts_value w → skip_ws w = w.
Proof. intros (c & t & -> & Hc & _). by apply skip_ws_start. Qed.

Lemma join_cons2 sep a b l : join sep (a :: b :: l) = a ++ sep ++ join sep (b :: l).
Proof. reflexivity. Qed.
Lemma starts_join (sep : pystr) ws s : ws ≠ [] → Forall starts_value ws → starts_value (join sep ws ++ s).
Proof. intros Hne Hall. destruct Hall as [|w ws' Hw _]; [by destruct Hne|]. destruct ws'; cbn [join]; rewrite <- ?app_assoc; by apply starts_app. Qed.

(** Values between commas and blanks [t], then blanks [tc] and the bracket. *)
Lemma scan_items_text t tc vs ws n rest :
  blank t → blank tc → vs ≠ [] → Forall2 (λ v w, starts_value w ∧ reads_as v w) vs ws →
  2 * length (join (44%N :: t) ws ++ tc ++ u "]") < n →
  scan_items lo doc n (join (44%N :: t) ws ++ tc ++ u "]" ++ rest) = Ok (vs, rest).
Proof.
  intros Ht Htc Hne Hvs. revert n Hne.
  induction Hvs as [|v w vs ws [Hw Hr] Hvs IH]; intros n Hne Hn; [done|].
  rewrite !length_app in Hn. change (length (u "]")) with 1 in *. change (u "]") with [93%N] in *. destruct n as [|n]; [lia|]. cbn [scan_items].
  destruct ws as [|w' ws].
  - inversion Hvs; subst vs. cbn [join app] in *. rewrite Hr; [|lia|by apply delimited_blank].
    cbn [mbind result_bind fst snd]. rewrite skip_ws_app, skip_ws_start by done. done.
  - rewrite join_cons2 in *. rewrite !length_app in Hn. cbn [length] in Hn.
    rewrite <- !app_assoc. cbn [app]. rewrite Hr; [|lia|done].
    cbn [mbind result_bind fst snd]. rewrite skip_ws_start by done.
    change (44 =? 93)%N with false. change (44 =? 44)%N with true. cbn iota.
    rewrite skip_ws_app, skip_ws_starts; [|apply starts_join; [done|]|exact Ht].
    2: { clear -Hvs. induction Hvs as [|v' x' vs' ws'' [Hx _] _ IH']; by constructor. }
    rewrite IH; [done|by inversion Hvs|]. rewrite !length_app. change (length [93%N]) with 1. lia.
Qed.

Lemma json_str_text s rest : scan_string doc (drop 1 (json_str false s) ++ rest) = Ok (s, rest).
Proof.
  change (drop 1 (json_str false s)) with (concat (json_char false <$> s) ++ [34%N]).
  rewrite <- app_assoc. apply scan_string_text.
Qed.
Lemma json_str_cons s : json_str false s = 34%N :: drop 1 (json_str false s).
Proof. done. Qed.

(** Members with blanks [tk] after the colon. *)
Definition member_text (tk : pystr) (p : pystr * pystr) : pystr := json_str false p.1 ++ (58%N :: tk) ++ p.2.
Lemma members_start tk ws : Forall starts_value (member_text tk <$> ws).
Proof. induction ws as [|w ws IH]; constructor; [|exact IH]. unfold member_text. rewrite json_str_cons. by eexists _, _. Qed.
Lemma scan_members_text t tk tc (ps : dict) ws n rest :
  blank t → blank tk → blank tc → ps ≠ [] → Forall2 (λ p w, p.1 = w.1 ∧ starts_value w.2 ∧ reads_as p.2 w.2) ps ws →
  2 * length (join (44%N :: t) (member_text tk <$> ws) ++ tc ++ u "}") < n →
  scan_members lo doc n (join (44%N :: t) (member_text tk <$> ws) ++ tc ++ u "}" ++ rest) = Ok (ps, rest).
Proof.
  intros Ht Htk Htc Hne Hvs. revert n Hne.
  induction Hvs as [|[k v] [k' w] ps ws (Hk & Hw & Hr) Hvs IH]; intros n Hne Hn; [done|].
  cbn [fst snd] in *. subst k'.
  rewrite !length_app in Hn. change (length (u "}")) with 1 in *. change (u "}") with [125%N] in *. destruct n as [|n]; [lia|].
  assert (Hm : ∀ s, 2 * length (member_text tk (k, w)) < S n + 2 → delimited s → ∃ r,
             member_text tk (k, w) ++ s = 34%N :: r ∧
             scan_string doc r = Ok (k, 58%N :: tk ++ w ++ s) ∧
             scan_value lo doc n (skip_ws (tk ++ w ++ s)) = Ok (v, s)).
  { intros s Hl Hs. unfold member_text in *. cbn [fst snd] in *. rewrite json_str_cons in *.
    eexists. split; [rewrite <- !app_assoc; reflexivity|]. split; [apply json_str_text|].
    rewrite !length_app in Hl. cbn [length] in Hl.
    rewrite skip_ws_app, skip_ws_starts by (done || by apply starts_app). apply Hr; [lia|done]. }
  rewrite scan_members_S. destruct ws as [|w' ws].
  - inversion Hvs; subst ps. cbn [join fmap list_fmap app] in *.
    destruct (Hm (tc ++ 125%N :: rest)) as (r & -> & Hs & Hv); [lia|by apply delimited_blank|].
    change (34 =? 34)%N with true. cbn iota. rewrite Hs. cbn [mbind result_bind fst snd].
    rewrite skip_ws_start by done. change (58 =? 58)%N with true. cbn iota.
    rewrite Hv. cbn [mbind result_bind fst snd]. rewrite skip_ws_app, skip_ws_start by done. done.
  - rewrite !fmap_cons in *. rewrite !join_cons2 in *. rewrite !length_app in Hn. cbn [length] in Hn.
    rewrite <- !app_assoc. cbn [app].
    destruct (Hm (44%N :: t ++ join (44%N :: t) (member_text tk w' :: (member_text tk <$> ws)) ++ tc ++ 125%N :: rest))
      as (r & -> & Hs & Hv); [lia|done|].
    change (34 =? 34)%N with true. cbn iota. rewrite Hs. cbn [mbind result_bind fst snd].
    rewrite skip_ws_start by done. change (58 =? 58)%N with true. cbn iota.
    rewrite Hv. cbn [mbind result_bind fst snd]. rewrite skip_ws_start by done.
    change (44 =? 125)%N with false. change (44 =? 44)%N with true. cbn iota.
    rewrite skip_ws_app, skip_ws_starts; [| |exact Ht].
    2: { apply starts_join; [done|]. exact (members_start tk (w' :: ws)). }
    rewrite IH; [done|by inversion Hvs|]. rewrite !length_app. change (length [125%N]) with 1. lia.
Qed.

Lemma dumps_list_reads l ws :
  Forall (λ v, json_plain v = true → ∀ w, dumps po v = Some w → reads v w) l → forallb json_plain l = true →
  dumps_list l = Some ws → Forall2 (λ v w, starts_value w ∧ reads v w) l ws.
Proof.
  intros Hl. revert ws. induction Hl as [|v l Hv _ IH]; intros ws Hp; cbn in *; [by intros [= <-]|].
  apply andb_true_iff in Hp as [Hp1 Hp2].
  destruct (dumps po v) as [w|] eqn:Ew; [|done]. cbn. destruct (dumps_list l) as [ws'|]; [|done].
  intros [= <-]. constructor; [|by apply IH]. split; [by eapply dumps_start|by apply Hv].
Qed.

Lemma dumps_items_reads (d : dict) ws :
  Forall (λ p, json_plain p.2 = true → ∀ w, dumps po p.2 = Some w → reads p.2 w) d →
  forallb (λ p, json_plain p.2) d = true →
  dumps_items d = Some ws → Forall2 (λ p w, p.1 = w.1 ∧ starts_value w.2 ∧ reads p.2 w.2) d ws.
Proof.
  intros Hl. revert ws. induction Hl as [|[k v] d Hv _ IH]; intros ws Hp; cbn in *; [by intros [= <-]|].
  apply andb_true_iff in Hp as [Hp1 Hp2].
  destruct (dumps po v) as [w|] eqn:Ew; [|done]. cbn. destruct (dumps_items d) as [ws'|]; [|done].
  intros [= <-]. constructor; [|by apply IH]. split; [done|]. split; [by eapply dumps_start|by apply Hv].
Qed.

Lemma item_insert_Forall2 {V W} (R : V → W → Prop) (p : pystr * V) (q : pystr * W) d e :
  p.1 = q.1 → R p.2 q.2 → Forall2 (λ p q, p.1 = q.1 ∧ R p.2 q.2) d e →
  Forall2 (λ p q, p.1 = q.1 ∧ R p.2 q.2) (item_insert p d) (item_insert q e).
Proof.
  intros Hk Hr. induction 1 as [|x y d e [Hxy Hxy'] Hde IH]; cbn; [by repeat constructor|].
  rewrite <- Hk, <- Hxy. destruct (str_compare p.1 x.1); by repeat constructor.
Qed.
Lemma sort_items_Forall2 {V W} (R : V → W → Prop) o (d : list (pystr * V)) (e : list (pystr * W)) :
  Forall2 (λ p q, p.1 = q.1 ∧ R p.2 q.2) d e →
  Forall2 (λ p q, p.1 = q.1 ∧ R p.2 q.2) (sort_items o d) (sort_items o e).
Proof.
  unfold sort_items. destruct (jo_sort o); [|done].
  induction 1 as [|x y d e [Hxy Hxy'] _ IH]; [constructor|]. cbn [foldr]. by apply item_insert_Forall2.
Qed.

Lemma Forall2_keys {V W} (R : V → W → Prop) (d : list (pystr * V)) (e : list (pystr * W)) :
  Forall2 (λ p q, p.1 = q.1 ∧ R p.2 q.2) d e → dkeys d = dkeys e.
Proof. unfold dkeys. induction 1 as [|x y d e [Hxy _] _ IH]; [done|]. rewrite !fmap_cons. by rewrite Hxy, IH. Qed.

Lemma keyword_none c t : c = 45%N ∧ (∀ d r, t = d :: r → d ≠ 73%N) ∨ is_digit c = true → keyword lo (c :: t) = None.
Proof.
  intros Hc. unfold keyword.
  assert (Hw : ∀ w a b, u w = a :: b → a ≠ c → startswith (u w) (c :: t) = false).
  { intros w a b -> Ha. cbn. destruct (decide (a = c)); [done|]. by destruct (N.eqb_spec a c). }
  assert (Hd : ∀ a, is_digit a = false → a ≠ 45%N → a ≠ c).
  { intros a Ha Ha' ->. destruct Hc as [[Hc _]|Hc]; congruence. }
  rewrite (Hw "null" _ _ eq_refl), (Hw "true" _ _ eq_refl), (Hw "false" _ _ eq_refl), (Hw "NaN" _ _ eq_refl),
    (Hw "Infinity" _ _ eq_refl) by by apply Hd.
  destruct Hc as [[-> Ht]|Hc].
  - destruct t as [|d r]; [done|]. specialize (Ht d r eq_refl).
    replace (startswith (u "-Infinity") (45%N :: d :: r)) with false; [done|].
    change (u "-Infinity") with (45%N :: 73%N :: u "nfinity"). cbn [startswith].
    rewrite N.eqb_refl. by destruct (N.eqb_spec 73 d).
  - rewrite (Hw "-Infinity" _ _ eq_refl); [done|]. intros <-. by vm_compute in Hc.
Qed.

Lemma scan_value_number c t n v r :
  keyword lo (c :: t) = None → c ≠ 34%N → c ≠ 123%N → c ≠ 91%N → scan_number (c :: t) = Some (Ok v, r) →
  scan_value lo doc (S n) (c :: t) = Ok (v, r).
Proof.
  intros Hk H1 H2 H3 Hn. cbn [scan_value].
  destruct (N.eqb_spec c 34); [done|]. destruct (N.eqb_spec c 123); [done|]. destruct (N.eqb_spec c 91); [done|].
  by rewrite Hk, Hn.
Qed.

Lemma dumps_int_reads z : json_plain (PyInt z) = true → reads (PyInt z) (dec_z z).
Proof.
  intros Hp n rest Hn Hr. apply Nat.leb_le in Hp. destruct n as [|n]; [lia|].
  pose proof (scan_number_dec z rest Hp Hr) as Hs.
  destruct (dec_z_split z) as (neg & E & _). rewrite E in *.
  destruct (dec_cons (Z.abs_N z)) as (c & t & Ed & Hc). rewrite Ed in *.
  assert (c ≠ 34 ∧ c ≠ 123 ∧ c ≠ 91 ∧ c ≠ 73)%N as Hne by (unfold is_digit, in_range in Hc; autorewrite with py in Hc; lia).
  destruct neg; cbn [app] in *; apply scan_value_number; try done; try apply keyword_none; try (by right); try tauto.
  left. split; [done|]. intros d r [= <- _]. tauto.
Qed.

Lemma dumps_float_reads f : json_plain (PyFloat f) = true → reads (PyFloat f) (float_repr f).
Proof.
  intros [_ Hs]%(float_reads_text po) n rest Hn Hr. destruct n as [|n]; [lia|].
  pose proof (scan_number_app _ _ _ Hs Hr) as Hs'. apply scan_number_ascii in Hs as [_ (c & t & E & Hc)]. rewrite E in *. cbn [app] in *.
  apply scan_value_number; [..|exact Hs'].
  { apply keyword_none. destruct Hc as [[-> (d & t' & -> & Hd)]|Hc]; [left|by right]. split; [done|]. by intros d' r' [= <- _]. }
  all: destruct Hc as [[-> _]|Hc]; [done|]; intros ->; by vm_compute in Hc.
Qed.

Lemma scan_value_list n s d r :
  skip_ws s = d :: r → d ≠ 93%N →
  scan_value lo doc (S n) (91%N :: s) = (m ← scan_items lo doc n (d :: r); Ok (PyList m.1, m.2)).
Proof. intros Hs Hd. cbn [scan_value]. change (91 =? 34)%N with false. change (91 =? 123)%N with false.
  change (91 =? 91)%N with true. cbn iota. rewrite Hs. by destruct (N.eqb_spec d 93). Qed.

Lemma scan_value_dict n s d r :
  skip_ws s = d :: r → d ≠ 125%N →
  scan_value lo doc (S n) (123%N :: s)
  = (m ← scan_members lo doc n (d :: r); fields ← object_of lo m.1; Ok (PyDict fields, m.2)).
Proof. intros Hs Hd. cbn [scan_value]. change (123 =? 34)%N with false. change (123 =? 123)%N with true.
  cbn iota. rewrite Hs. by destruct (N.eqb_spec d 125). Qed.

Lemma scan_value_empty n rest : scan_value lo doc (S n) (123%N :: 125%N :: rest) = Ok (PyDict [], rest).
Proof.
  cbn [scan_value]. change (123 =? 34)%N with false. change (123 =? 123)%N with true. cbn iota.
  rewrite skip_ws_start by done. change (125 =? 125)%N with true. cbn iota. by rewrite object_of_nodup by constructor.
Qed.

(** A list and an object, whatever the blanks between their parts. *)
Lemma list_reads t0 t tc vs ws :
  blank t0 → blank t → blank tc → vs ≠ [] → Forall2 (λ v w, starts_value w ∧ reads_as v w) vs ws →
  reads_as (PyList vs) (91%N :: t0 ++ join (44%N :: t) ws ++ tc ++ u "]").
Proof.
  intros H0 Ht Htc Hne Hws n rest Hn Hr. destruct n as [|n]; [lia|].
  assert (Hst : starts_value (join (44%N :: t) ws ++ tc ++ u "]" ++ rest)).
  { apply starts_join; [intros ->; by inversion Hws; subst|].
    clear -Hws. induction Hws as [|v' x' vs' ws'' [Hx _] _ IH']; by constructor. }
  cbn [app]. rewrite <-!app_assoc. destruct Hst as (c & t' & Hst & Hc & Hc93 & _).
  rewrite (scan_value_list _ _ c t') by (done || by rewrite skip_ws_app, Hst, skip_ws_start).
  rewrite <-Hst, (scan_items_text t tc vs); [done|done..|]. cbn [length] in Hn. rewrite !length_app in *. cbn [length] in *. lia.
Qed.
Lemma dict_reads t0 t tk tc (ps : dict) ws :
  blank t0 → blank t → blank tk → blank tc → ps ≠ [] → NoDup (dkeys ps) →
  Forall2 (λ p w, p.1 = w.1 ∧ starts_value w.2 ∧ reads_as p.2 w.2) ps ws →
  reads_as (PyDict ps) (123%N :: t0 ++ join (44%N :: t) (member_text tk <$> ws) ++ tc ++ u "}").
Proof.
  intros H0 Ht Htk Htc Hne Hnd Hws n rest Hn Hr. destruct n as [|n]; [lia|].
  assert (Hst : starts_value (join (44%N :: t) (member_text tk <$> ws) ++ tc ++ u "}" ++ rest)).
  { apply starts_join; [|apply members_start]. destruct Hws; [done|discriminate]. }
  cbn [app]. rewrite <-!app_assoc. destruct Hst as (c & t' & Hst & Hc & _ & Hc125 & _).
  rewrite (scan_value_dict _ _ c t') by (done || by rewrite skip_ws_app, Hst, skip_ws_start).
  rewrite <-Hst, (scan_members_text t tk tc ps); [|done..|].
  - cbn [mbind result_bind fst snd]. by rewrite object_of_nodup.
  - cbn [length] in Hn. rewrite !length_app in *. cbn [length] in *. lia.
Qed.

Lemma dumps_reads v : json_plain v = true → ∀ w, dumps po v = Some w → reads v w.
Proof.
  induction v as [|b|z|f|s|l Hl|l Hl|d Hd|i] using pyval_nested_ind; intros Hp w Hw; try done.
  1-2: unfold reads; intros [|n] rest Hn _; [lia|].
  - by injection Hw as <-.
  - injection Hw as <-. by destruct b.
  - injection Hw as <-. by apply dumps_int_reads.
  - destruct (float_reads_text po f Hp) as [E _]. rewrite E in Hw. injection Hw as <-. by apply dumps_float_reads.
  - cbn [dumps] in Hw. rewrite Hraw in Hw. injection Hw as <-. intros [|n] rest Hn _; [lia|]. rewrite json_str_cons. cbn [app scan_value].
    change (34 =? 34)%N with true. cbn iota. by rewrite json_str_text.
  - rewrite dumps_PyList in Hw. destruct (dumps_list l) as [ws|] eqn:E; [|done].
    apply (inj Some) in Hw as <-. pose proof (dumps_list_reads _ _ Hl Hp E) as Hws. destruct item_sep_cons as (t & -> & Ht).
    destruct l as [|v l]; [inversion Hws; subst ws; by intros [|n] rest Hn Hr; [lia|]|].
    apply (list_reads [] t [] _ _ (Forall_nil_2 _) Ht (Forall_nil_2 _)); [done|]. by apply Forall2_fmap_l.
  - rewrite dumps_PyDict in Hw. destruct (dumps_items d) as [ws|] eqn:E; [|done].
    apply (inj Some) in Hw as <-. cbn [json_plain] in Hp. apply andb_true_iff in Hp as [Hnd Hp]. apply bool_decide_eq_true in Hnd.
    pose proof (sort_items_Forall2 (λ v w, starts_value w ∧ reads v w) po _ _ (dumps_items_reads _ _ Hd Hp E)) as Hws.
    destruct item_sep_cons as (t & -> & Ht). destruct key_sep_cons as (tk & Hk & Htk). rewrite Hraw, Hk.
    change ((λ p : pystr * pystr, json_str false p.1 ++ (58%N :: tk) ++ p.2) <$> sort_items po ws)
      with (member_text tk <$> sort_items po ws).
    unfold reads. cbn [canon]. rewrite sort_items_map.
    assert (Hnd' : NoDup (dkeys (map (λ p, (p.1, canon po p.2)) (sort_items po d)))).
    { unfold dkeys. rewrite <- list_fmap_compose. rewrite (list_fmap_ext _ fst) by done. by rewrite sort_items_perm. }
    destruct (sort_items po d) as [|p ps] eqn:Ed.
    { apply Forall2_nil_inv_l in Hws as ->. intros [|n] rest Hn Hr; [lia|]. exact (scan_value_empty n rest). }
    apply (dict_reads [] t tk [] _ _ (Forall_nil_2 _) Ht Htk (Forall_nil_2 _)); [done|exact Hnd'|].
    by apply Forall2_fmap_l.
Qed.
End roundtrip.

Theorem loads_dumps `{FloatRepr} po lo v w :
  jo_ascii po = false → json_plain v = true → dumps po v = Some w → loads lo w = Ok (canon po v).
Proof.
  intros Hraw Hp Hw. pose proof (dumps_reads po lo w Hraw v Hp w Hw (2 * length w + 2) []) as Hr.
  rewrite app_nil_r in Hr. destruct (dumps_start po v w Hp Hw) as (c & t & E & Hc & _ & _ & Hbom).
  subst w. unfold loads. destruct (N.eqb_spec c 65279); [done|].
  rewrite skip_ws_start by done. rewrite Hr; [done|lia|done].
Qed.

(** Two values with the same text are the same up to the order of members. *)
Corollary dumps_inj `{FloatRepr} po v v' w :
  jo_ascii po = false → json_plain v = true → json_plain v' = true →
  dumps po v = Some w → dumps po v' = Some w → canon po v = canon po v'.
Proof.
  intros Hraw Hp Hp' Hw Hw'. apply (loads_dumps po plain_loads) in Hw, Hw'; try done. congruence.
Qed.

Example loads_example :
  loads strict_loads (u "{" ++ [34%N] ++ u "a" ++ [34%N] ++ u ": [1, -0, 0.1, 1e400, " ++ [34%N]
                      ++ u "\ud83d\ude00\n" ++ [34%N] ++ u "], " ++ [34%N] ++ u "b" ++ [34%N] ++ u ":null } ")
  = Ok (PyDict [(u "a", PyList [PyInt 1; PyInt 0; PyFloat (S754_finite false 7205759403792794 (-56));
                                PyFloat (S754_infinity false); PyStr [128512; 10]%N]);
                (u "b", PyNone)]) ∧
  loads strict_loads (u "[NaN]") = Err (ValueError "JSON 含有非标准 JSON 数值常量") ∧
  loads plain_loads (u "[NaN]") = Ok (PyList [PyFloat S754_nan]) ∧
  loads strict_loads (u "{" ++ [34%N] ++ u "a" ++ [34%N] ++ u ":1," ++ [34%N] ++ u "a" ++ [34%N] ++ u ":1}")
  = Err (ValueError "JSON 对象包含重复 JSON 成员名") ∧
  loads plain_loads (u "[01]") = Err (JSONDecodeError (u "[01]") "Expecting ',' delimiter").
Proof. vm_compute. repeat split. Qed.

(** ** A stricter reader reads the same *)
Section lenient.
Context (doc : pystr).
Lemma object_lenient d f : object_of strict_loads d = Ok f → object_of plain_loads d = Ok f.
Proof.
  cbn [object_of strict_loads plain_loads lo_unique]. unfold dupdate.
  assert (H : ∀ acc, _json_object_without_duplicates acc d = Ok f → foldl (λ d p, dset p.1 p.2 d) acc d = f).
  { clear. induction d as [|[k v] d IH]; intros acc; cbn [_json_object_without_duplicates foldl]; [by intros E%Ok_inj|].
    destruct (dhas k acc); [discriminate|]. apply IH. }
  intros E. f_equal. exact (H [] E).
Qed.
Lemma keyword_lenient s v r : keyword strict_loads s = Some (Ok v, r) → keyword plain_loads s = Some (Ok v, r).
Proof. unfold keyword. cbn [constant strict_loads plain_loads lo_finite]. repeat (destruct (startswith _ s); [done|]). done. Qed.
Lemma keyword_lenient_none s : keyword strict_loads s = None → keyword plain_loads s = None.
Proof. unfold keyword. repeat (destruct (startswith _ s); [done|]). done. Qed.

Lemma scan_lenient n :
  (∀ s r, scan_value strict_loads doc n s = Ok r → scan_value plain_loads doc n s = Ok r) ∧
  (∀ s r, scan_members strict_loads doc n s = Ok r → scan_members plain_loads doc n s = Ok r) ∧
  (∀ s r, scan_items strict_loads doc n s = Ok r → scan_items plain_loads doc n s = Ok r).
Proof.
  induction n as [|n (IHv & IHm & IHi)]; [done|]. split_and!; intros s r.
  - rewrite !scan_value_S. destruct s as [|c t]; [done|]. destruct (c =? 34)%N; [done|]. destruct (c =? 123)%N.
    { destruct (skip_ws t) as [|d rest]; [done|]. destruct (d =? 125)%N; [done|].
      intros (m & Hm & (f & Hf & E)%bind_ok)%bind_ok. rewrite (IHm _ _ Hm). cbn [mbind result_bind]. by rewrite (object_lenient _ _ Hf). }
    destruct (c =? 91)%N.
    { destruct (skip_ws t) as [|d rest]; [done|]. destruct (d =? 93)%N; [done|]. intros (m & Hm & E)%bind_ok. by rewrite (IHi _ _ Hm). }
    destruct (keyword strict_loads (c :: t)) as [[v rest]|] eqn:Ek.
    + intros (v' & -> & E)%bind_ok. by rewrite (keyword_lenient _ _ _ Ek).
    + by rewrite (keyword_lenient_none _ Ek).
  - rewrite !scan_members_S. destruct s as [|c t]; [done|]. destruct (c =? 34)%N; [|done].
    intros (k & Hk & E)%bind_ok. rewrite Hk. cbn [mbind result_bind]. destruct (skip_ws k.2) as [|d t2]; [done|]. destruct (d =? 58)%N; [|done].
    apply bind_ok in E as (v & Hv & E). rewrite (IHv _ _ Hv). cbn [mbind result_bind]. destruct (skip_ws v.2) as [|e t3]; [done|].
    destruct (e =? 125)%N; [done|]. destruct (e =? 44)%N; [|done]. apply bind_ok in E as (m & Hm & E). by rewrite (IHm _ _ Hm).
  - rewrite !scan_items_S. intros (v & Hv & E)%bind_ok. rewrite (IHv _ _ Hv). cbn [mbind result_bind]. destruct (skip_ws v.2) as [|e t3]; [done|].
    destruct (e =? 93)%N; [done|]. destruct (e =? 44)%N; [|done]. apply bind_ok in E as (m & Hm & E). by rewrite (IHi _ _ Hm).
Qed.
Lemma loads_lenient v : loads strict_loads doc = Ok v → loads plain_loads doc = Ok v.
Proof.
  unfold loads. destruct doc as [|c t] eqn:Ed; [done|]. destruct (c =? 65279)%N; [done|]. rewrite <-Ed. intros (m & Hm & E)%bind_ok.
  by rewrite (proj1 (scan_lenient _) _ _ Hm).
Qed.
End lenient.
