(* ===== verification/StrictJson.v ===== *)
(** * Strict JSON of evidence packs ([src/src/icode/pack_verify.py])

    The bounds and interoperability rules every JSON file of a pack must meet,
    on top of [json.loads] with its two hooks.  [strict_value] is what a value
    read under them is guaranteed to be. *)

From Stdlib Require Import SpecFloat.
From S2P Require Import Prelude PyText PyVal Hashing Json JsonParse.

Definition _MAX_JSON_CONTAINER_DEPTH : nat := 128.
Definition _MAX_JSON_STRUCTURAL_TOKENS : N := 500000.

(** ** [_check_json_structural_token_budget] *)
Record token_scan := mkScan { ts_string : bool; ts_escaped : bool; ts_count : N; ts_stack : list N; ts_depth : nat }.

Definition open_container (max_depth : option nat) (c : N) (s : token_scan) : result token_scan :=
  match max_depth with
  | None => Ok s
  | Some m =>
    if m <? S (ts_depth s) then Err (ValueError "JSON 容器嵌套深度超过安全上限")
    else Ok (mkScan (ts_string s) (ts_escaped s) (ts_count s) (c :: ts_stack s) (S (ts_depth s)))
  end.
Definition close_container (max_depth : option nat) (opened : N) (s : token_scan) : token_scan :=
  match max_depth, ts_stack s with
  | Some _, c :: rest =>
    if (c =? opened)%N then mkScan (ts_string s) (ts_escaped s) (ts_count s) rest (pred (ts_depth s)) else s
  | _, _ => s
  end.

Definition is_structural (c : N) : bool := (c ∈s u "{}[],:").

Definition scan_char (max_depth : option nat) (s : token_scan) (char : N) : result token_scan :=
  if ts_string s then
    Ok (if ts_escaped s then mkScan true false (ts_count s) (ts_stack s) (ts_depth s)
        else if (char =? 92)%N then mkScan true true (ts_count s) (ts_stack s) (ts_depth s)
        else if (char =? 34)%N then mkScan false false (ts_count s) (ts_stack s) (ts_depth s)
        else s)
  else if (char =? 34)%N then Ok (mkScan true (ts_escaped s) (ts_count s) (ts_stack s) (ts_depth s))
  else if is_structural char then
    let s := mkScan false (ts_escaped s) (ts_count s + 1) (ts_stack s) (ts_depth s) in
    if (_MAX_JSON_STRUCTURAL_TOKENS <? ts_count s)%N then Err (ValueError "JSON结构标点超过安全上限")
    else if char ∈s u "{[" then open_container max_depth char s
    else if char =s 125%N then Ok (close_container max_depth 123 s)
    else if char =s 93%N then Ok (close_container max_depth 91 s)
    else Ok s
  else Ok s.

Definition _check_json_structural_token_budget (max_depth : option nat) (text : pystr) : result unit :=
  match foldM_res (scan_char max_depth) (mkScan false false 0 [] 0) text with Ok _ => Ok () | Err e => Err e end.

(** ** [_reject_non_interoperable_values] *)
Definition is_finite (f : spec_float) : bool :=
  match f with S754_zero _ | S754_finite _ _ _ => true | _ => false end.
Definition reject_str (s : pystr) : result unit :=
  raise_if (existsb is_surrogate s) (ValueError "JSON 字符串包含孤立 UTF-16 代理项").

(** The explicit stack of the source visits the last child first, and the
    values of an object before its names. *)
Fixpoint reject_value (parent_depth : nat) (v : pyval) : result unit :=
  let container := raise_if (_MAX_JSON_CONTAINER_DEPTH <? S parent_depth)
                     (ValueError "JSON 容器嵌套深度超过安全上限") in
  match v with
  | PyStr s => reject_str s
  | PyFloat f => raise_if (negb (is_finite f)) (ValueError "JSON 数值转换为非有限 binary64")
  | PyDict d =>
    _ ← container;
    _ ← (fix go (d : dict) : result unit :=
           match d with [] => Ok () | p :: d' => _ ← go d'; reject_value (S parent_depth) p.2 end) d;
    (fix go (d : dict) : result unit :=
       match d with [] => Ok () | p :: d' => _ ← go d'; reject_str p.1 end) d
  | PyList l =>
    _ ← container;
    (fix go (l : list pyval) : result unit :=
       match l with [] => Ok () | x :: l' => _ ← go l'; reject_value (S parent_depth) x end) l
  | _ => Ok ()
  end.
Definition _reject_non_interoperable_values (value : pyval) : result unit := reject_value 0 value.

Definition loads_json_value (text : pystr) : result pyval :=
  _ ← _check_json_structural_token_budget None text;
  value ← loads strict_loads text;
  _ ← _reject_non_interoperable_values value;
  Ok value.

(** ** What a strictly read value is *)
Definition clean_str (s : pystr) : Prop := existsb is_surrogate s = false.

Inductive strict_value : nat → pyval → Prop :=
  | sv_none n : strict_value n PyNone
  | sv_bool n b : strict_value n (PyBool b)
  | sv_int n z : strict_value n (PyInt z)
  | sv_float n f : is_finite f = true → strict_value n (PyFloat f)
  | sv_str n s : clean_str s → strict_value n (PyStr s)
  | sv_list n l :
      n < _MAX_JSON_CONTAINER_DEPTH → Forall (strict_value (S n)) l → strict_value n (PyList l)
  | sv_dict n d :
      n < _MAX_JSON_CONTAINER_DEPTH → NoDup (dkeys d) → Forall clean_str (dkeys d) →
      Forall (λ p, strict_value (S n) p.2) d → strict_value n (PyDict d).

Lemma reject_value_strict v n : json_value v → reject_value n v = Ok () ↔ strict_value n v.
Proof.
  revert n. induction v as [|b|z|f|s|l IH|l IH|d IH|i] using pyval_nested_ind; intros n Hv; inversion Hv as [| | | | |l' Hl|d' Hn Hd]; subst;
    cbn [reject_value].
  - split; [constructor|done].
  - split; [constructor|done].
  - split; [constructor|done].
  - rewrite raise_if_ok, negb_false_iff. split; [by constructor|by inversion 1].
  - unfold reject_str. rewrite raise_if_ok. split; [by constructor|by inversion 1].
  - rewrite bind_ok.
    assert (Hgo : (fix go (l : list pyval) : result unit :=
       match l with [] => Ok () | x :: l' => _ ← go l'; reject_value (S n) x end) l = Ok () ↔ Forall (strict_value (S n)) l).
    { induction IH as [|x l Hx _ IHl]; [by split|]. inversion Hl; subst. rewrite bind_ok, Forall_cons, <- Hx by done.
      rewrite <- IHl; [|by constructor|done]. split; [intros ([] & ? & ?); done|intros []; by exists ()]. }
    split.
    + intros ([] & Hc & Hg). apply raise_if_ok, Nat.ltb_ge in Hc. constructor; [lia|by apply Hgo].
    + inversion 1; subst. exists (). rewrite raise_if_ok, Nat.ltb_ge. split; [lia|by apply Hgo].
  - assert (Hgo : (fix go (d : dict) : result unit :=
           match d with [] => Ok () | p :: d' => _ ← go d'; reject_value (S n) p.2 end) d = Ok () ↔
           Forall (λ p, strict_value (S n) p.2) d).
    { clear Hn Hv. induction IH as [|x l Hx _ IHl]; [by split|]. inversion Hd; subst. rewrite bind_ok, Forall_cons, <- Hx by done.
      rewrite <- IHl by done. split; [intros ([] & ? & ?); done|intros []; by exists ()]. }
    assert (Hks : (fix go (d : dict) : result unit :=
           match d with [] => Ok () | p :: d' => _ ← go d'; reject_str p.1 end) d = Ok () ↔ Forall clean_str (dkeys d)).
    { clear. induction d as [|x l IHl]; [by split|]. rewrite bind_ok. unfold dkeys in *. rewrite fmap_cons, Forall_cons, <- IHl.
      unfold reject_str. setoid_rewrite raise_if_ok. split; [intros ([] & ? & ?); done|intros []; by exists ()]. }
    rewrite bind_ok. split.
    + intros ([] & Hc & ([] & H1 & H2)%bind_ok). apply raise_if_ok, Nat.ltb_ge in Hc.
      constructor; [lia|done|by apply Hks|by apply Hgo].
    + inversion 1; subst. exists (). rewrite raise_if_ok, Nat.ltb_ge, bind_ok. split; [lia|].
      exists (). split; [by apply Hgo|by apply Hks].
Qed.

(** A value is strict when, and only when, it has no repeated name, no lone
    surrogate, no infinite number and at most 128 levels of containers. *)
Lemma loads_json_value_strict text v : loads_json_value text = Ok v → strict_value 0 v.
Proof.
  unfold loads_json_value. intros (_ & _ & (v' & Hl & ([] & Hr & Hv)%bind_ok)%bind_ok)%bind_ok.
  injection Hv as <-. apply reject_value_strict in Hr; [done|]. by eapply loads_value.
Qed.

(** ** Strict values have canonical text *)
Section text.
Context `{FloatRepr}.
(** [repr] of a float is ASCII. *)
Context (float_repr_ascii : ∀ f, Forall (λ c, is_ascii c = true) (float_repr f)).

Lemma clean_ascii s : Forall (λ c, is_ascii c = true) s → clean_str s.
Proof.
  intros Hs. apply existsb_none. eapply Forall_impl; [exact Hs|]. intros c Hc.
  unfold is_ascii in Hc. unfold is_surrogate, in_range. autorewrite with py in *. lia.
Qed.
Lemma clean_app a b : clean_str (a ++ b) ↔ clean_str a ∧ clean_str b.
Proof. unfold clean_str. by rewrite existsb_app, orb_false_iff. Qed.
Lemma clean_concat l : Forall clean_str l → clean_str (concat l).
Proof. induction 1; [done|]. cbn. by apply clean_app. Qed.
Lemma clean_join sep l : clean_str sep → Forall clean_str l → clean_str (join sep l).
Proof.
  intros Hs. induction 1 as [|a l Ha Hl IH]; [done|]. destruct l; [done|].
  rewrite join_cons2. by rewrite !clean_app.
Qed.

Lemma clean_json_char c : is_surrogate c = false → clean_str (json_char false c).
Proof.
  intros Hc. destruct (N.ltb_spec c 32) as [Hlt|Hge].
  - assert (Hall : Forall (λ c, existsb is_surrogate (json_char false c) = false) (N.of_nat <$> seq 0 32)) by by_compute.
    rewrite Forall_forall in Hall. apply Hall, list_elem_of_fmap. exists (N.to_nat c). split; [lia|]. apply elem_of_seq. lia.
  - destruct (json_char_cases c) as [(? & _)|[(? & _)|[[[-> | ->] ->]|(_ & _ & _ & ->)]]]; [lia|lia|done|done|].
    unfold clean_str. cbn. by rewrite Hc.
Qed.

Lemma clean_json_str o s : jo_ascii o = false → clean_str s → clean_str (json_str (jo_ascii o) s).
Proof.
  intros -> Hs. unfold json_str. rewrite !clean_app. split; [done|]. split; [|done].
  apply clean_concat, Forall_fmap. apply existsb_none in Hs. eapply Forall_impl; [exact Hs|]. exact clean_json_char.
Qed.

Lemma dec_z_ascii z : Forall (λ c, is_ascii c = true) (dec_z z).
Proof.
  assert (Hd : ∀ n, Forall (λ c, is_ascii c = true) (dec n)).
  { intros n. eapply Forall_impl; [apply dec_digits|]. intros c. unfold is_digit, in_range, is_ascii.
    autorewrite with py. lia. }
  unfold dec_z. case_match; [constructor; [done|]|]; apply Hd.
Qed.

Lemma strict_dumps o n v : jo_ascii o = false → strict_value n v → ∃ w, dumps o v = Some w ∧ clean_str w.
Proof.
  intros Hraw. revert n. induction v as [|b|z|f|s|l IH|l IH|d IH|i] using pyval_nested_ind; intros n Hv; inversion Hv as [| | | ? ? Hf|? ? Hs|? ? _ Hl|? ? _ Hnd Hks Hd]; subst.
  - by eexists.
  - eexists. split; [done|]. by destruct b.
  - eexists. split; [done|]. apply clean_ascii, dec_z_ascii.
  - cbn. destruct f; try done; eexists; (split; [done|]); apply clean_ascii, float_repr_ascii.
  - eexists. split; [done|]. by apply clean_json_str.
  - rewrite dumps_PyList. assert (∃ ws, dumps_list o l = Some ws ∧ Forall clean_str ws) as (ws & -> & Hws).
    { clear Hv. induction IH as [|x l Hx _ IHl]; [by eexists|]. inversion Hl; subst.
      destruct (Hx (S n)) as (w & Ew & Hw); [done|]. destruct IHl as (ws & Ews & Hws); [done|].
      exists (w :: ws). cbn. rewrite Ew. cbn. rewrite Ews. split; [done|by constructor]. }
    eexists. split; [done|]. rewrite !clean_app. split; [done|]. split; [|done].
    apply clean_join; [|done]. unfold item_sep. by destruct (jo_compact o).
  - rewrite dumps_PyDict. assert (∃ ws, dumps_items o d = Some ws ∧ Forall (λ p, clean_str p.1 ∧ clean_str p.2) ws) as (ws & -> & Hws).
    { clear Hv Hnd. induction IH as [|[k x] d Hx _ IHl]; [by eexists|]. inversion Hd; subst. inversion Hks; subst.
      destruct (Hx (S n)) as (w & Ew & Hw); [done|]. destruct IHl as (ws & Ews & Hws); [done..|]. cbn [fst snd] in *.
      exists ((k, w) :: ws). cbn. rewrite Ew. cbn. rewrite Ews. split; [done|by constructor]. }
    eexists. split; [done|]. rewrite !clean_app. split; [done|]. split; [|done].
    apply clean_join; [unfold item_sep; by destruct (jo_compact o)|].
    apply Forall_fmap. rewrite sort_items_perm. eapply Forall_impl; [exact Hws|]. intros [k w] [Hk Hw].
    change (clean_str (json_str (jo_ascii o) k ++ key_sep o ++ w)). rewrite !clean_app. split; [by apply clean_json_str|]. split; [|done]. unfold key_sep. by destruct (jo_compact o).
Qed.
End text.

(** C38: The canonical text of an acceptable value is read back as that value:
    whatever the value that [json.dumps] writes, of nulls, booleans, strings,
    lists, objects without a repeated name, integers of at most 4300 digits (the
    interpreter writes no longer ones) and finite floats whose [repr] the decoder
    rounds to the same float, as the [repr] of CPython does for every float. *)
Theorem strict_roundtrip `{FloatRepr} v w :
  dumps canonical_opts v = Some w → json_plain v = true → strict_value 0 (canon canonical_opts v) →
  _check_json_structural_token_budget None w = Ok () →
  loads_json_value w = Ok (canon canonical_opts v).
Proof.
  intros Hw Hp Hv Hb. unfold loads_json_value. rewrite Hb. cbn [mbind result_bind].
  pose proof (loads_dumps canonical_opts strict_loads v w eq_refl Hp Hw) as Hl. rewrite Hl. cbn [mbind result_bind].
  assert (_reject_non_interoperable_values (canon canonical_opts v) = Ok ()) as ->; [|done].
  apply reject_value_strict; [|done]. by eapply loads_value.
Qed.

Lemma strict_roundtrip_witness :
  loads_json_value (u "{" ++ [34%N] ++ u "a" ++ [34%N] ++ u ":" ++ [34%N] ++ u "q" ++ [34%N] ++ u "," ++ [34%N] ++ u "b" ++ [34%N]
                    ++ u ":[-3,null,0.1,-0.0]}")
  = Ok (canon canonical_opts
          (PyDict [(u "b", PyList [PyInt (-3); PyNone; PyFloat (S754_finite false 7205759403792794 (-56)); PyFloat (S754_zero true)]);
                   (u "a", PyStr (u "q"))])).
Proof.
  apply (strict_roundtrip (H := λ f, match f with S754_zero _ => u "-0.0" | _ => u "0.1" end)); [vm_compute; reflexivity|vm_compute; reflexivity| |vm_compute; reflexivity].
  refine (proj1 (reject_value_strict _ 0 _) _); [|vm_compute; reflexivity].
  vm_compute. repeat constructor; by_compute.
Defined.
