(* ===== verification/PrettyJson.v ===== *)
(** * [json.dumps(value, ensure_ascii=False, indent=2)]

    The text with a member or item on every line, and that the decoder reads it
    back. *)

From S2P Require Import Prelude PyText PyVal Hashing Utf8 Json JsonParse StrictJson.

(** A new line at a nesting level. *)
Definition newline (level : nat) : pystr := 10%N :: replicate (2 * level) 32%N.
Definition plain_opts : json_opts := mkJsonOpts false false false.

Section pretty.
Context `{FloatRepr}.

Fixpoint dumps_indent (level : nat) (v : pyval) : option pystr :=
  match v with
  | PyList l | PyTuple l =>
    ws ← (fix go (l : list pyval) : option (list pystr) :=
            match l with
            | [] => Some []
            | x :: l' => w ← dumps_indent (S level) x; ws ← go l'; Some (w :: ws)
            end) l;
    Some match ws with
         | [] => u "[]"
         | _ => u "[" ++ newline (S level) ++ join (44%N :: newline (S level)) ws ++ newline level ++ u "]"
         end
  | PyDict d =>
    ws ← (fix go (d : list (pystr * pyval)) : option (list (pystr * pystr)) :=
            match d with
            | [] => Some []
            | (k, x) :: d' => w ← dumps_indent (S level) x; ws ← go d'; Some ((k, w) :: ws)
            end) d;
    Some match ws with
         | [] => u "{}"
         | _ => u "{" ++ newline (S level) ++ join (44%N :: newline (S level)) (member_text [32%N] <$> ws) ++ newline level ++ u "}"
         end
  | _ => dumps plain_opts v
  end.

Definition indent_list (level : nat) : list pyval → option (list pystr) := fix go l :=
  match l with [] => Some [] | x :: l' => w ← dumps_indent level x; ws ← go l'; Some (w :: ws) end.
Definition indent_items (level : nat) : dict → option (list (pystr * pystr)) := fix go d :=
  match d with [] => Some [] | (k, x) :: d' => w ← dumps_indent level x; ws ← go d'; Some ((k, w) :: ws) end.
Lemma indent_PyList level l :
  dumps_indent level (PyList l) = ws ← indent_list (S level) l;
    Some match ws with
         | [] => u "[]"
         | _ => u "[" ++ newline (S level) ++ join (44%N :: newline (S level)) ws ++ newline level ++ u "]"
         end.
Proof. done. Qed.
Lemma indent_PyDict level d :
  dumps_indent level (PyDict d) = ws ← indent_items (S level) d;
    Some match ws with
         | [] => u "{}"
         | _ => u "{" ++ newline (S level) ++ join (44%N :: newline (S level)) (member_text [32%N] <$> ws) ++ newline level ++ u "}"
         end.
Proof. done. Qed.

Lemma newline_blank level : blank (newline level).
Proof. constructor; [done|]. apply Forall_replicate. done. Qed.

Lemma indent_start level v w : json_plain v = true → dumps_indent level v = Some w → starts_value w.
Proof.
  intros Hp. destruct v as [|b|z|f|s|l|l|d|i]; try exact (dumps_start plain_opts _ _ Hp); try discriminate Hp.
  - rewrite indent_PyList. destruct (indent_list (S level) l) as [[|w' ws]|]; [| |done]; intros E; injection E as <-; by eexists _, _.
  - rewrite indent_PyDict. destruct (indent_items (S level) d) as [[|w' ws]|]; [| |done]; intros E; injection E as <-; by eexists _, _.
Qed.

Section reads.
Context (lo : load_opts) (doc : pystr).
Notation reads_as := (reads_as lo doc).

Lemma indent_list_reads level l ws :
  Forall (λ v, json_plain v = true → ∀ level w, dumps_indent level v = Some w → reads_as v w) l → forallb json_plain l = true →
  indent_list level l = Some ws → Forall2 (λ v w, starts_value w ∧ reads_as v w) l ws.
Proof.
  intros Hl. revert ws. induction Hl as [|v l Hv _ IH]; intros ws Hp; cbn [indent_list forallb] in *; [by intros [= <-]|].
  apply andb_true_iff in Hp as [Hp1 Hp2].
  destruct (dumps_indent level v) as [w|] eqn:Ew; [|done]. cbn. destruct (indent_list level l) as [ws'|]; [|done].
  intros [= <-]. constructor; [|by apply IH]. split; [by eapply indent_start|by eapply Hv].
Qed.
Lemma indent_items_reads level (d : dict) ws :
  Forall (λ p, json_plain p.2 = true → ∀ level w, dumps_indent level p.2 = Some w → reads_as p.2 w) d →
  forallb (λ p, json_plain p.2) d = true →
  indent_items level d = Some ws → Forall2 (λ p w, p.1 = w.1 ∧ starts_value w.2 ∧ reads_as p.2 w.2) d ws.
Proof.
  intros Hl. revert ws. induction Hl as [|[k v] d Hv _ IH]; intros ws Hp; cbn [indent_items forallb fst snd] in *; [by intros [= <-]|].
  apply andb_true_iff in Hp as [Hp1 Hp2].
  destruct (dumps_indent level v) as [w|] eqn:Ew; [|done]. cbn. destruct (indent_items level d) as [ws'|]; [|done].
  intros [= <-]. constructor; [|by apply IH]. split; [done|]. split; [by eapply indent_start|by eapply Hv].
Qed.

Lemma indent_reads v : json_plain v = true → ∀ level w, dumps_indent level v = Some w → reads_as v w.
Proof.
  induction v as [|b|z|f|s|l Hl|l Hl|d Hd|i] using pyval_nested_ind; intros Hp level w Hw; try discriminate Hp;
    try exact (dumps_reads plain_opts lo doc eq_refl _ Hp w Hw).
  - rewrite indent_PyList in Hw. destruct (indent_list (S level) l) as [ws|] eqn:E; [|done]. apply (inj Some) in Hw as <-.
    pose proof (indent_list_reads _ _ _ Hl Hp E) as Hws. destruct ws as [|w ws].
    { inversion Hws; subst. by intros [|n] rest Hn Hr; [lia|]. }
    apply list_reads; [apply newline_blank..| |exact Hws]. by inversion Hws.
  - rewrite indent_PyDict in Hw. destruct (indent_items (S level) d) as [ws|] eqn:E; [|done]. apply (inj Some) in Hw as <-.
    cbn [json_plain] in Hp. apply andb_true_iff in Hp as [Hnd Hp]. apply bool_decide_eq_true in Hnd.
    pose proof (indent_items_reads _ _ _ Hd Hp E) as Hws. destruct ws as [|w ws].
    { inversion Hws; subst. intros [|n] rest Hn Hr; [lia|]. apply scan_value_empty. }
    apply dict_reads; [apply newline_blank..|by repeat constructor|apply newline_blank| |exact Hnd|exact Hws]. by inversion Hws.
Qed.
End reads.

(** A file written with [json.dumps(value, ensure_ascii=False, indent=2) + "\n"]
    is read back as the value, in the order of its members. *)
Theorem loads_indent lo v w :
  json_plain v = true → dumps_indent 0 v = Some w → loads lo (w ++ [10%N]) = Ok v.
Proof.
  intros Hp Hw. pose proof (indent_reads lo (w ++ [10%N]) v Hp 0 w Hw) as Hr.
  destruct (indent_start 0 v w Hp Hw) as (c & t & E & Hc & _ & _ & Hbom). subst w. unfold loads. cbn [app].
  destruct (N.eqb_spec c 65279); [done|]. rewrite skip_ws_start by done.
  change (c :: t ++ [10%N]) with ((c :: t) ++ [10%N]). rewrite Hr; [done| |done]. rewrite length_app. lia.
Qed.
End pretty.

(** ** The text is Unicode *)
Definition points (s : pystr) : Prop := Forall (λ c, is_code_point c = true) s.
Fixpoint unicode_value (v : pyval) : bool :=
  match v with
  | PyStr s => forallb is_code_point s
  | PyList l | PyTuple l => forallb unicode_value l
  | PyDict d => forallb (λ p, forallb is_code_point p.1 && unicode_value p.2) d
  | _ => true
  end.
Lemma points_app a b : points a → points b → points (a ++ b).
Proof. intros. by apply Forall_app. Qed.
Lemma points_join sep ws : points sep → Forall points ws → points (join sep ws).
Proof.
  intros Hs. induction 1 as [|w ws Hw Hws IH]; [constructor|]. destruct ws; [done|]. rewrite join_cons2. apply points_app; [done|]. by apply points_app.
Qed.
Lemma points_ascii s : Forall (λ c, is_ascii c = true) s → points s.
Proof.
  intros Hs. eapply Forall_impl; [exact Hs|]. intros c Hc. unfold is_ascii in Hc. apply N.ltb_lt in Hc. unfold is_code_point, is_surrogate, in_range.
  autorewrite with py. lia.
Qed.
Lemma points_json_str s : points s → points (json_str false s).
Proof.
  intros Hs. unfold json_str. apply points_app; [by repeat constructor|]. apply points_app; [|by repeat constructor].
  induction Hs as [|c s Hc _ IH]; [constructor|]. cbn [fmap list_fmap concat]. apply points_app; [|exact IH].
  destruct (N.ltb_spec c 32) as [Hlt|Hge].
  - assert (Hall : Forall (λ c, forallb is_code_point (json_char false c) = true) (N.of_nat <$> seq 0 32)) by by_compute.
    apply forallb_Forall. rewrite Forall_forall in Hall. apply Hall, list_elem_of_fmap. exists (N.to_nat c). split; [lia|]. apply elem_of_seq. lia.
  - destruct (json_char_cases c) as [(? & _)|[(? & _)|[[[-> | ->] ->]|(_ & _ & _ & ->)]]]; [lia|lia|by repeat constructor|by repeat constructor|].
    by repeat constructor.
Qed.

Section unicode.
Context `{FloatRepr}.
Lemma points_newline level : points (newline level).
Proof. constructor; [done|]. by apply Forall_replicate. Qed.
(** A value the decoder reads back has a text, and that is Unicode when its
    strings are. *)
Lemma indent_points v : json_plain v = true → unicode_value v = true → ∀ level, ∃ w, dumps_indent level v = Some w ∧ points w.
Proof.
  induction v as [|b|z|f|s|l IH|l IH|d IH|i] using pyval_nested_ind; intros Hp Hu level; try discriminate Hp.
  - eexists. split; [reflexivity|by repeat constructor].
  - eexists. split; [reflexivity|]. destruct b; by repeat constructor.
  - eexists. split; [reflexivity|]. by apply points_ascii, dec_z_ascii.
  - destruct (float_reads_text plain_opts f Hp) as [E _]. eexists. split; [exact E|]. by apply points_ascii, float_repr_reads.
  - eexists. split; [reflexivity|]. apply points_json_str. by apply forallb_Forall.
  - rewrite indent_PyList. assert (Hl : ∃ ws, indent_list (S level) l = Some ws ∧ Forall points ws).
    { cbn [json_plain unicode_value] in Hp, Hu. induction IH as [|v l Hv _ IHl]; [by exists []|]. cbn [forallb] in Hp, Hu.
      apply andb_true_iff in Hp as [P1 P2], Hu as [U1 U2]. destruct (Hv P1 U1 (S level)) as (w & Ew & Hw). destruct (IHl P2 U2) as (ws & Ews & Hws).
      exists (w :: ws). cbn [indent_list]. rewrite Ew. cbn. change (indent_list (S level) l = Some ws) in Ews. split; [by rewrite Ews|by constructor]. }
    destruct Hl as (ws & -> & Hws). eexists. split; [reflexivity|]. destruct ws as [|w ws]; [by repeat constructor|].
    apply points_app; [by repeat constructor|]. apply points_app; [apply points_newline|]. apply points_app; [|apply points_app; [apply points_newline|by repeat constructor]].
    apply points_join; [constructor; [done|apply points_newline]|exact Hws].
  - rewrite indent_PyDict. apply andb_true_iff in Hp as [_ Hp].
    assert (Hl : ∃ ws, indent_items (S level) d = Some ws ∧ Forall (λ p, points p.1 ∧ points p.2) ws).
    { cbn [unicode_value] in Hu. induction IH as [|[k v] d Hv _ IHl]; [by exists []|]. cbn [forallb fst snd] in Hp, Hu.
      apply andb_true_iff in Hp as [P1 P2], Hu as [U1 U2]. apply andb_true_iff in U1 as [U0 U1]. destruct (Hv P1 U1 (S level)) as (w & Ew & Hw).
      destruct (IHl P2 U2) as (ws & Ews & Hws). cbn [snd] in Ew.
      exists ((k, w) :: ws). cbn [indent_items]. rewrite Ew. cbn. change (indent_items (S level) d = Some ws) in Ews. split; [by rewrite Ews|].
      constructor; [|done]. split; [by apply forallb_Forall|done]. }
    destruct Hl as (ws & -> & Hws). eexists. split; [reflexivity|]. destruct ws as [|w ws]; [by repeat constructor|].
    apply points_app; [by repeat constructor|]. apply points_app; [apply points_newline|]. apply points_app; [|apply points_app; [apply points_newline|by repeat constructor]].
    apply points_join; [constructor; [done|apply points_newline]|]. apply Forall_fmap. eapply Forall_impl; [exact Hws|]. intros p [Hk Hv]. unfold member_text.
    cbn [compose]. apply points_app; [by apply points_json_str|]. apply points_app; [by repeat constructor|exact Hv].
Qed.
End unicode.

(** ** Files *)
Lemma points_clean s : points s → clean_str s.
Proof.
  intros Hs. apply existsb_none. eapply Forall_impl; [exact Hs|]. intros c Hc. unfold is_code_point in Hc. apply andb_true_iff in Hc as [_ Hc]. by apply negb_true_iff in Hc.
Qed.
Section file.
Context `{FloatRepr}.
(** [json.dumps(value, ensure_ascii=False, indent=2) + "\n"], encoded. *)
Definition json_file (value : dict) : result (list N) :=
  match dumps_indent 0 (PyDict value) with
  | Some text => encode_utf8 (text ++ [10%N])
  | None => Err (TypeError "not JSON serializable")
  end.
(** A value of plain Unicode is written, and every decoder reads it back. *)
Lemma json_file_text value : json_plain (PyDict value) = true → unicode_value (PyDict value) = true →
  ∃ text, json_file value = Ok (utf8_bytes text) ∧ decode_utf8 (utf8_bytes text) = Ok text ∧ ∀ lo, loads lo text = Ok (PyDict value).
Proof.
  intros Hp Hu. destruct (indent_points _ Hp Hu 0) as (w & Hw & Hpts). exists (w ++ [10%N]).
  assert (Hpts' : points (w ++ [10%N])) by (apply points_app; [done|by repeat constructor]). split_and!.
  - unfold json_file. rewrite Hw. unfold encode_utf8, utf8_encodable. by rewrite (points_clean _ Hpts').
  - unfold decode_utf8. by rewrite (proj2 (utf8_decode_iff _ (w ++ [10%N]))).
  - intros lo. exact (loads_indent lo _ _ Hp Hw).
Qed.
End file.

Example indent_example `{FloatRepr} :
  dumps_indent 0 (PyDict [(u "a", PyList [PyInt 1; PyList []]); (u "b", PyDict [(u "c", PyStr (u "é"))])]) =
  Some (u "{" ++ [10%N] ++ u "  " ++ json_str false (u "a") ++ u ": [" ++ [10%N] ++ u "    1," ++ [10%N] ++ u "    []" ++ [10%N]
        ++ u "  ]," ++ [10%N] ++ u "  " ++ json_str false (u "b") ++ u ": {" ++ [10%N] ++ u "    " ++ json_str false (u "c") ++ u ": "
        ++ json_str false (u "é") ++ [10%N] ++ u "  }" ++ [10%N] ++ u "}").
Proof. vm_compute. reflexivity. Qed.
