(* ===== verification/Problems.v ===== *)
(** * Problem reports of the verifier ([src/src/icode/pack_verify.py])

    [_ProblemCollector] and [_EventChainDiagnostics] keep a bounded sample of
    the problems found and count them all.  The verdict on a pack is whether the
    rendered report is empty, so the bounds must never hide the first problem. *)

From S2P Require Import Prelude PyText.

Definition _MAX_EVENT_CHAIN_DIAGNOSTIC_SAMPLES : nat := 32.
Definition _MAX_PACKAGE_DIAGNOSTIC_SAMPLES : nat := 32.
Definition _MAX_DIAGNOSTIC_MESSAGE_CHARS : nat := 512.
Definition _MAX_DIAGNOSTIC_SUMMARY_MESSAGES : nat := 8.

Definition dec_nat (n : nat) : pystr := dec (N.of_nat n).

Record _BoundedProblemReport := mkReport {
  rp_values : list pystr;
  rp_total_count : nat;
  rp_sample_count : nat;
  rp_summary_messages : list pystr
}.

(** ** [_ProblemCollector] *)
Record _ProblemCollector := mkCollector { pc_samples : list pystr; pc_summaries : list pystr; pc_total : nat }.
Definition collector_new : _ProblemCollector := mkCollector [] [] 0.

Definition _bounded_message (rendered : pystr) : pystr :=
  if _MAX_DIAGNOSTIC_MESSAGE_CHARS <? length rendered
  then take (_MAX_DIAGNOSTIC_MESSAGE_CHARS - 3) rendered ++ u "..." else rendered.
Definition _retain_sample (c : _ProblemCollector) (message : pystr) : _ProblemCollector :=
  if length (pc_samples c) <? _MAX_PACKAGE_DIAGNOSTIC_SAMPLES
  then mkCollector (pc_samples c ++ [_bounded_message message]) (pc_summaries c) (pc_total c) else c.
Definition _retain_summary (c : _ProblemCollector) (message : pystr) : _ProblemCollector :=
  if length (pc_summaries c) <? _MAX_DIAGNOSTIC_SUMMARY_MESSAGES
  then mkCollector (pc_samples c) (pc_summaries c ++ [_bounded_message message]) (pc_total c) else c.
Definition count_problems (n : nat) (c : _ProblemCollector) : _ProblemCollector :=
  mkCollector (pc_samples c) (pc_summaries c) (pc_total c + n).

Definition append_problem (message : pystr) (c : _ProblemCollector) : _ProblemCollector :=
  _retain_sample (count_problems 1 c) message.
(** [extend] of a plain list, and of another report. *)
Definition extend_list (messages : list pystr) (c : _ProblemCollector) : _ProblemCollector :=
  foldl (λ c m, append_problem m c) c messages.
Definition extend_report (r : _BoundedProblemReport) (c : _ProblemCollector) : _ProblemCollector :=
  foldl _retain_summary
    (foldl _retain_sample (count_problems (rp_total_count r) c) (take (rp_sample_count r) (rp_values r)))
    (rp_summary_messages r).

Definition render_collector (c : _ProblemCollector) : _BoundedProblemReport :=
  let omitted := pc_total c - length (pc_samples c) in
  mkReport
    (pc_samples c ++ pc_summaries c ++
     (if omitted =? 0 then []
      else [u "校验共发现 " ++ dec_nat (pc_total c) ++ u " 处问题；展示前 " ++ dec_nat (length (pc_samples c)) ++ u " 条，省略 "
            ++ dec_nat omitted ++ u " 条。"]))
    (pc_total c) (length (pc_samples c)) (pc_summaries c).

(** ** [_EventChainDiagnostics] *)
Record _EventChainDiagnostics := mkDiagnostics {
  ed_samples : list pystr;
  ed_counts : list (pystr * nat);
  ed_total : nat
}.
Definition diagnostics_new : _EventChainDiagnostics := mkDiagnostics [] [] 0.
Definition add_diagnostic (category message : pystr) (d : _EventChainDiagnostics) : _EventChainDiagnostics :=
  mkDiagnostics
    (if length (ed_samples d) <? _MAX_EVENT_CHAIN_DIAGNOSTIC_SAMPLES then ed_samples d ++ [message] else ed_samples d)
    (dset category (S (default 0 (dget category (ed_counts d)))) (ed_counts d))
    (S (ed_total d)).

Definition render_diagnostics (d : _EventChainDiagnostics) : _BoundedProblemReport :=
  let omitted := ed_total d - length (ed_samples d) in
  if omitted =? 0 then mkReport (ed_samples d) (ed_total d) (length (ed_samples d)) []
  else
    let categories := join (u ", ") ((λ p, p.1 ++ u "=" ++ dec_nat p.2) <$> sorted_set fst (ed_counts d)) in
    let summary := u "事件链校验发现 " ++ dec_nat (ed_total d) ++ u " 个链问题；仅展示前 "
                   ++ dec_nat (length (ed_samples d)) ++ u " 条，省略 " ++ dec_nat omitted ++ u " 条（"
                   ++ categories ++ u "）" in
    mkReport (ed_samples d ++ [summary]) (ed_total d) (length (ed_samples d)) [summary].

(** ** Nothing is hidden, and everything is bounded *)
(** A report whose sample is as full as the bound allows. *)
Definition faithful (r : _BoundedProblemReport) : Prop :=
  rp_sample_count r = rp_total_count r `min` 32 ∧ rp_sample_count r ≤ length (rp_values r) ∧
  (rp_total_count r = 0 → rp_values r = [] ∧ rp_summary_messages r = []).

Record collector_inv (c : _ProblemCollector) : Prop := mkCollectorInv {
  ci_samples : length (pc_samples c) = pc_total c `min` 32;
  ci_summaries : length (pc_summaries c) ≤ 8;
  ci_quiet : pc_total c = 0 → pc_summaries c = [];
  ci_bounded : Forall (λ m, length m ≤ 512) (pc_samples c ++ pc_summaries c)
}.

Lemma bounded_message_length m : length (_bounded_message m) ≤ 512.
Proof.
  unfold _bounded_message, _MAX_DIAGNOSTIC_MESSAGE_CHARS. destruct (Nat.ltb_spec 512 (length m)); [|lia].
  rewrite length_app, length_take. change (length (u "...")) with 3. lia.
Qed.

Lemma collector_new_inv : collector_inv collector_new.
Proof. by split; cbn; try lia. Qed.

Lemma append_problem_inv m c : collector_inv c → collector_inv (append_problem m c).
Proof.
  intros [Hs Hm Hq Hb]. unfold append_problem, _retain_sample, count_problems, _MAX_PACKAGE_DIAGNOSTIC_SAMPLES.
  cbn [pc_samples pc_summaries pc_total].
  apply Forall_app in Hb as [Hb1 Hb2].
  destruct (Nat.ltb_spec (length (pc_samples c)) 32); split; cbn [pc_samples pc_summaries pc_total];
    rewrite ?length_app, ?Forall_app; cbn [length]; try lia; try done.
  split; [|done]. split; [done|]. constructor; [apply bounded_message_length|done].
Qed.
Lemma append_problem_total m c : pc_total (append_problem m c) = S (pc_total c).
Proof. unfold append_problem, _retain_sample. case_match; cbn; lia. Qed.

Lemma extend_list_inv ms c : collector_inv c → collector_inv (extend_list ms c).
Proof. revert c. induction ms as [|m ms IH]; intros c Hc; [done|]. by apply IH, append_problem_inv. Qed.
Lemma extend_list_total ms c : pc_total (extend_list ms c) = pc_total c + length ms.
Proof.
  unfold extend_list. revert c. induction ms as [|m ms IH]; intros c; cbn; [lia|]. rewrite IH, append_problem_total. lia.
Qed.

Lemma retain_samples_spec ms c :
  let c' := foldl _retain_sample c ms in
  length (pc_samples c) ≤ 32 → Forall (λ m, length m ≤ 512) (pc_samples c) →
  length (pc_samples c') = (length (pc_samples c) + length ms) `min` 32 ∧
  pc_summaries c' = pc_summaries c ∧ pc_total c' = pc_total c ∧ Forall (λ m, length m ≤ 512) (pc_samples c').
Proof.
  revert c. induction ms as [|m ms IH]; intros c; cbn [foldl]; intros Hl Hb.
  { repeat split; try done. cbn. lia. }
  unfold _retain_sample, _MAX_PACKAGE_DIAGNOSTIC_SAMPLES at 2.
  destruct (IH (_retain_sample c m)) as (H1 & H2 & H3 & H4);
    unfold _retain_sample, _MAX_PACKAGE_DIAGNOSTIC_SAMPLES in *;
    destruct (Nat.ltb_spec (length (pc_samples c)) 32); cbn [pc_samples pc_summaries pc_total] in *;
    rewrite ?length_app, ?Forall_app in *; cbn [length] in *; try lia; try done.
  - split; [done|]. constructor; [apply bounded_message_length|done].
  - split; [etransitivity; [exact H1|]; lia|]. done.
  - split; [etransitivity; [exact H1|]; lia|]. done.
Qed.

Lemma retain_summaries_spec ms c :
  let c' := foldl _retain_summary c ms in
  length (pc_summaries c) ≤ 8 → Forall (λ m, length m ≤ 512) (pc_summaries c) →
  length (pc_summaries c') ≤ 8 ∧ pc_samples c' = pc_samples c ∧ pc_total c' = pc_total c ∧
  Forall (λ m, length m ≤ 512) (pc_summaries c').
Proof.
  revert c. induction ms as [|m ms IH]; intros c; cbn [foldl]; intros Hl Hb; [done|].
  destruct (IH (_retain_summary c m)) as (H1 & H2 & H3 & H4);
    unfold _retain_summary, _MAX_DIAGNOSTIC_SUMMARY_MESSAGES in *;
    destruct (Nat.ltb_spec (length (pc_summaries c)) 8); cbn [pc_samples pc_summaries pc_total] in *;
    rewrite ?length_app, ?Forall_app in *; cbn [length] in *; try lia; try done.
  split; [done|]. constructor; [apply bounded_message_length|done].
Qed.

Lemma extend_report_inv r c : faithful r → collector_inv c → collector_inv (extend_report r c).
Proof.
  intros (Hc & Hl & Hz) [Hs Hm Hq Hb]. unfold extend_report. apply Forall_app in Hb as [Hb1 Hb2].
  destruct (retain_samples_spec (take (rp_sample_count r) (rp_values r)) (count_problems (rp_total_count r) c))
    as (H1 & H2 & H3 & H4); [cbn; lia|done|].
  set (c1 := foldl _retain_sample _ _) in *. cbn in H1, H2, H3. rewrite length_take in H1.
  destruct (retain_summaries_spec (rp_summary_messages r) c1) as (J1 & J2 & J3 & J4); [by rewrite H2|by rewrite H2|].
  split.
  - rewrite J2, J3, H1, H3. lia.
  - done.
  - rewrite J3, H3. intros H0. destruct Hz as [_ ->]; [lia|]. cbn. rewrite H2. apply Hq. lia.
  - rewrite J2, Forall_app. done.
Qed.
Lemma extend_report_total r c :
  pc_total (extend_report r c) = pc_total c + rp_total_count r.
Proof.
  unfold extend_report.
  assert (Hsum : ∀ ms c, pc_total (foldl _retain_summary c ms) = pc_total c).
  { induction ms as [|m ms IH]; intros c'; cbn; [done|]. rewrite IH. unfold _retain_summary. by case_match. }
  assert (Hsam : ∀ ms c, pc_total (foldl _retain_sample c ms) = pc_total c).
  { induction ms as [|m ms IH]; intros c'; cbn; [done|]. rewrite IH. unfold _retain_sample. by case_match. }
  by rewrite Hsum, Hsam.
Qed.

Lemma render_collector_faithful c : collector_inv c → faithful (render_collector c).
Proof.
  intros [Hs Hm Hq Hb]. unfold render_collector, faithful. cbn. split; [done|]. rewrite !length_app. split; [lia|].
  intros H0. rewrite H0 in *. rewrite Hq by done. destruct (pc_samples c); done.
Qed.

(** The verdict: the report of a collector is empty exactly when no problem was
    counted, and it never has more than 41 messages. *)
Lemma render_collector_spec c :
  collector_inv c →
  (rp_values (render_collector c) = [] ↔ pc_total c = 0) ∧ length (rp_values (render_collector c)) ≤ 41 ∧
  rp_total_count (render_collector c) = pc_total c.
Proof.
  intros [Hs Hm Hq Hb]. unfold render_collector. cbn. split; [|split; [|done]].
  - split.
    + intros [H _]%app_nil. rewrite H in Hs. cbn in Hs. lia.
    + intros H0. rewrite H0 in *. rewrite Hq by done. destruct (pc_samples c); done.
  - rewrite !length_app. case_match; cbn; lia.
Qed.

Definition diagnostics_inv (d : _EventChainDiagnostics) : Prop := length (ed_samples d) = ed_total d `min` 32.
Lemma diagnostics_new_inv : diagnostics_inv diagnostics_new.
Proof. done. Qed.
Lemma add_diagnostic_inv k m d : diagnostics_inv d → diagnostics_inv (add_diagnostic k m d).
Proof.
  unfold diagnostics_inv, add_diagnostic, _MAX_EVENT_CHAIN_DIAGNOSTIC_SAMPLES. cbn [ed_samples ed_total]. intros H.
  destruct (Nat.ltb_spec (length (ed_samples d)) 32); rewrite ?length_app; cbn; lia.
Qed.
Lemma render_diagnostics_faithful d : diagnostics_inv d → faithful (render_diagnostics d).
Proof.
  unfold diagnostics_inv, render_diagnostics, faithful. intros H.
  destruct (Nat.eqb_spec (ed_total d - length (ed_samples d)) 0); cbn; rewrite ?length_app; cbn.
  - split; [done|]. split; [lia|]. intros H0. rewrite H0 in H. by destruct (ed_samples d).
  - split; [done|]. split; [lia|]. lia.
Qed.
Lemma render_diagnostics_total d : rp_total_count (render_diagnostics d) = ed_total d.
Proof. unfold render_diagnostics. by case_match. Qed.

Create HintDb report.
Create Rewrite HintDb report.
#[export] Hint Resolve collector_new_inv append_problem_inv extend_list_inv extend_report_inv
  render_collector_faithful diagnostics_new_inv add_diagnostic_inv render_diagnostics_faithful : report.
#[export] Hint Rewrite append_problem_total extend_list_total render_diagnostics_total : report.
