(* ===== verification/EventSchema.v ===== *)
(** * Ticket events ([src/src/icode/pack_verify.py])

    The schema of one event, its canonical hash, and the records of the ticket
    metadata that events mirror. *)

From S2P Require Import Prelude PyText PyVal Hashing Json JsonParse StrictJson.

Definition GENESIS_HASH : pystr := repeat 48%N 64.
Definition ALLOWED_FIRST_EVENT : list pystr := [u "ticket_created"; u "migration_applied"].
Definition ALLOWED_EVENT_TYPES : list pystr := [
  u "ticket_created"; u "step_started"; u "step_finished"; u "artifact_written"; u "gate_checked";
  u "operation_started"; u "operation_finished"; u "state_changed"; u "metadata_updated"; u "claim_recorded";
  u "verification_recorded"; u "skill_run_recorded"; u "snapshot_written"; u "close_phase"; u "ticket_reopened";
  u "requirement_delta"; u "agent_spawned"; u "agent_result"; u "doc_module_status"; u "index_updated";
  u "migration_applied"; u "idempotent_hit"; u "external_note"].
Definition ALLOWED_EVENT_ACTORS : list pystr := [u "icode"; u "user"; u "watch"; u "system"].
Definition EVENT_SCHEMA_VERSION : Z := 1.
Definition EVENT_REQUIRED_FIELDS : list pystr := [
  u "schema_version"; u "event_id"; u "ticket_id"; u "timestamp"; u "actor"; u "event_type"; u "payload";
  u "previous_event_hash"; u "event_hash"].
Definition EVENT_SCHEMA_FIELDS : list pystr := EVENT_REQUIRED_FIELDS ++ [u "request_id"].

(** A fixed sequence of character classes, matched from the start. *)
Fixpoint prefix_classes (cls : list (N → bool)) (s : pystr) : bool :=
  match cls, s with
  | [], _ => true
  | f :: cls', c :: s' => f c && prefix_classes cls' s'
  | _ :: _, [] => false
  end.
Definition full_classes (cls : list (N → bool)) (s : pystr) : bool :=
  (length s =? length cls) && prefix_classes cls s.
Definition just (c : N) : N → bool := N.eqb c.

Definition EVENT_ID_PATTERN : list (N → bool) :=
  repeat is_hex_lower 8 ++ [just 45] ++ repeat is_hex_lower 4 ++ [just 45; just 52] ++ repeat is_hex_lower 3
  ++ [just 45; λ c, c ∈s u "89ab"] ++ repeat is_hex_lower 3 ++ [just 45] ++ repeat is_hex_lower 12.
(** The timestamp is searched for its start only: anything may follow. *)
Definition EVENT_TIMESTAMP_PATTERN : list (N → bool) :=
  repeat is_digit 4 ++ [just 45] ++ repeat is_digit 2 ++ [just 45] ++ repeat is_digit 2 ++ [just 84]
  ++ repeat is_digit 2 ++ [just 58] ++ repeat is_digit 2 ++ [just 58] ++ repeat is_digit 2.
Definition hex64 (s : pystr) : bool := full_classes (repeat is_hex_lower 64) s.

Definition flag (bad : bool) (label : string) : list pystr := if bad then [u label] else [].
Definition str_test (f : pystr → bool) (v : pyval) : bool := match v with PyStr s => f s | _ => false end.

(** The labels of the fields that break the schema; a set in the source. *)
Definition event_schema_issues (event : dict) (expected_ticket_id : option pystr) : list pystr :=
  filter (λ k, dhas k event = false) EVENT_REQUIRED_FIELDS
  ++ flag (negb (forallb (λ k, k ∈s EVENT_SCHEMA_FIELDS) (dkeys event))) "additionalProperties"
  ++ flag (negb (bool_decide (as_exact_int (pget (u "schema_version") event) = Some EVENT_SCHEMA_VERSION))) "schema_version"
  ++ flag (negb (str_test (full_classes EVENT_ID_PATTERN) (pget (u "event_id") event))) "event_id"
  ++ flag (negb (str_test (λ t, t ≠s []) (pget (u "ticket_id") event)
                 && match expected_ticket_id with Some e => is_lit (pget (u "ticket_id") event) e | None => true end))
       "ticket_id"
  ++ flag (match dget (u "request_id") event with
           | Some PyNone | Some (PyStr _) | None => false | Some _ => true end) "request_id"
  ++ flag (negb (str_test (prefix_classes EVENT_TIMESTAMP_PATTERN) (pget (u "timestamp") event))) "timestamp"
  ++ flag (negb (str_in (pget (u "actor") event) ALLOWED_EVENT_ACTORS)) "actor"
  ++ flag (negb (str_in (pget (u "event_type") event) ALLOWED_EVENT_TYPES)) "event_type"
  ++ flag (negb (is_dict (pget (u "payload") event))) "payload"
  ++ flag (negb (str_test hex64 (pget (u "previous_event_hash") event))) "previous_event_hash"
  ++ flag (negb (str_test hex64 (pget (u "event_hash") event))) "event_hash".

(** ** What the schema promises of an event *)
Record event_form (expected_ticket_id : option pystr) (event : dict) : Prop := mkForm {
  ef_complete : ∀ k, k ∈ EVENT_REQUIRED_FIELDS → dget k event ≠ None;
  ef_closed : ∀ k, k ∈ dkeys event → k ∈ EVENT_SCHEMA_FIELDS;
  ef_version : pget (u "schema_version") event = PyInt EVENT_SCHEMA_VERSION;
  ef_id : ∃ i, pget (u "event_id") event = PyStr i ∧ full_classes EVENT_ID_PATTERN i = true;
  ef_ticket : ∃ t, pget (u "ticket_id") event = PyStr t ∧ t ≠ [] ∧ (∀ e, expected_ticket_id = Some e → t = e);
  ef_request : ∀ v, dget (u "request_id") event = Some v → v = PyNone ∨ ∃ r, v = PyStr r;
  ef_time : ∃ t, pget (u "timestamp") event = PyStr t ∧ prefix_classes EVENT_TIMESTAMP_PATTERN t = true;
  ef_actor : ∃ a, pget (u "actor") event = PyStr a ∧ a ∈ ALLOWED_EVENT_ACTORS;
  ef_type : ∃ t, pget (u "event_type") event = PyStr t ∧ t ∈ ALLOWED_EVENT_TYPES;
  ef_payload : ∃ p, pget (u "payload") event = PyDict p;
  ef_previous : ∃ h, pget (u "previous_event_hash") event = PyStr h ∧ hex64 h = true;
  ef_hash : ∃ h, pget (u "event_hash") event = PyStr h ∧ hex64 h = true
}.

Lemma flag_nil b l : flag b l = [] ↔ b = false.
Proof. by destruct b. Qed.
Lemma str_test_iff f v : str_test f v = true ↔ ∃ s, v = PyStr s ∧ f s = true.
Proof. destruct v; cbn; naive_solver. Qed.

(** An event has no issue exactly when it has the form of the schema. *)
Theorem event_schema_iff event expected :
  event_schema_issues event expected = [] ↔ event_form expected event.
Proof.
  unfold event_schema_issues. rewrite !app_nil, !flag_nil, !negb_false_iff, !str_test_iff, !str_in_iff, bool_decide_eq_true,
    as_exact_int_iff, andb_true_iff, str_test_iff.
  assert (H1 : filter (λ k, dhas k event = false) EVENT_REQUIRED_FIELDS = [] ↔
               ∀ k, k ∈ EVENT_REQUIRED_FIELDS → dget k event ≠ None).
  { generalize EVENT_REQUIRED_FIELDS. intros l. induction l as [|k l IH]; [split; [|done]; intros _ k Hk; by inversion Hk|].
    rewrite filter_cons. unfold dhas at 1. case_decide as Hd; destruct (dget k event) eqn:E; try done.
    - split; [done|]. intros H. by destruct (H k (list_elem_of_here _ _)).
    - rewrite IH. split; [|intros H k' Hk'; apply H; by right]. intros H k' [-> |Hk']%elem_of_cons; [congruence|by apply H]. }
  assert (H2 : forallb (λ k, k ∈s EVENT_SCHEMA_FIELDS) (dkeys event) = true ↔ ∀ k, k ∈ dkeys event → k ∈ EVENT_SCHEMA_FIELDS).
  { rewrite forallb_Forall, Forall_forall. split; intros H k Hk.
    - eapply bool_decide_eq_true_1, H, Hk.
    - apply bool_decide_eq_true_2, H, Hk. }
  assert (H3 : is_dict (pget (u "payload") event) = true ↔ ∃ p, pget (u "payload") event = PyDict p).
  { destruct (pget (u "payload") event); cbn; naive_solver. }
  assert (H4 : match dget (u "request_id") event with Some PyNone | Some (PyStr _) | None => false | Some _ => true end = false ↔
               ∀ v, dget (u "request_id") event = Some v → v = PyNone ∨ ∃ r, v = PyStr r).
  { destruct (dget (u "request_id") event) as [v|]; [|done]. split.
    - intros Hv w [= <-]. destruct v; try done; eauto.
    - intros H. destruct (H v eq_refl) as [-> |(r & ->)]; done. }
  rewrite H1, H2, H3, H4. clear H1 H2 H3 H4. split.
  - intros (C1 & C2 & C3 & C4 & [(t & Ht & Hne) Hexp] & C6 & C7 & C8 & C9 & C10 & C11 & C12).
    refine (mkForm _ _ C1 C2 C3 C4 _ C6 C7 C8 C9 C10 C11 C12).
    exists t. split; [exact Ht|]. split; [by apply negb_true_iff, bool_decide_eq_false in Hne|].
    intros e ->. rewrite Ht in Hexp. by apply is_lit_iff in Hexp as [= ->].
  - intros [C1 C2 C3 C4 (t & Ht & Hne & Hexp) C6 C7 C8 C9 C10 C11 C12].
    refine (conj C1 (conj C2 (conj C3 (conj C4 (conj (conj _ _) (conj C6 (conj C7 (conj C8 (conj C9 (conj C10 (conj C11 C12))))))))))).
    + exists t. split; [exact Ht|]. by apply negb_true_iff, bool_decide_eq_false.
    + destruct expected as [e|]; [|done]. rewrite Ht. apply is_lit_iff. by rewrite (Hexp e eq_refl).
Qed.

(** ** Hashes *)
Section hash.
Context `{FloatRepr}.

Definition canonical_dumps (v : pyval) : result pystr :=
  match dumps canonical_opts v with Some s => Ok s | None => Err (TypeError "not JSON serializable") end.
Definition sha256_text (v : pyval) : result pystr :=
  raw ← canonical_dumps v; bytes ← encode_utf8 raw; Ok (sha256_hex bytes).

Definition event_material (event : dict) : pyval := PyDict (ddel (u "event_hash") event).
Definition canonical_event_hash (event : dict) : result pystr := sha256_text (event_material event).
Definition _metadata_content_hash (metadata : dict) : result pystr := sha256_text (PyDict metadata).

(** ** Mirrored metadata *)
Definition _METADATA_EVENT_MIRROR_PATHS : list (pystr * list pystr) := [
  (u "verification_recorded", [u "verification_runs"]);
  (u "claim_recorded", [u "claims"]);
  (u "skill_run_recorded", [u "extensions"; u "skills"; u "runs"])].
Definition _METADATA_EVENT_MIRROR_FIELDS : list (pystr * pystr) :=
  (λ p, (p.1, join (u ".") p.2)) <$> _METADATA_EVENT_MIRROR_PATHS.
Definition _METADATA_AGENT_SPAWNS_PATH : list pystr := [u "extensions"; u "agent"; u "spawns"].
Definition _METADATA_AGENT_SPAWNS_FIELD : pystr := join (u ".") _METADATA_AGENT_SPAWNS_PATH.
(** The sentinel object of the source. *)
Definition _INVALID_METADATA_EVENT_MIRROR : pyval := PyObj 0.

Definition _event_payload_metadata_record (payload : dict) : dict := ddel (u "metadata_hash_after") payload.

Fixpoint records_at (value : pyval) (path : list pystr) : pyval :=
  match path with
  | [] => match value with PyNone => PyList [] | v => v end
  | field :: path' =>
    match value with
    | PyNone => PyList []
    | PyDict d => records_at (pget field d) path'
    | _ => _INVALID_METADATA_EVENT_MIRROR
    end
  end.
Definition _metadata_records_at_path (metadata : pyval) (path : list pystr) : pyval := records_at metadata path.
Definition _metadata_event_mirror_records (metadata : pyval) (event_type : pystr) : pyval :=
  match dget event_type _METADATA_EVENT_MIRROR_PATHS with
  | None => _INVALID_METADATA_EVENT_MIRROR
  | Some path => _metadata_records_at_path metadata path
  end.
Definition _metadata_agent_spawn_records (metadata : pyval) : pyval :=
  _metadata_records_at_path metadata _METADATA_AGENT_SPAWNS_PATH.

Definition same_text (a b : dict) : result bool :=
  x ← canonical_dumps (PyDict a); y ← canonical_dumps (PyDict b); Ok (x =s y).
Definition _event_payload_matches_metadata_record (payload metadata_record : dict) : result bool :=
  same_text (_event_payload_metadata_record payload) metadata_record.

(** The records of a list value, when all are dictionaries. *)
Fixpoint all_dicts (l : list pyval) : option (list dict) :=
  match l with
  | [] => Some []
  | PyDict d :: l' => match all_dicts l' with Some ds => Some (d :: ds) | None => None end
  | _ => None
  end.

Context (float_repr_ascii : ∀ f, Forall (λ c, is_ascii c = true) (float_repr f)).

Lemma sha256_text_total n v : strict_value n v → ∃ h, sha256_text v = Ok h.
Proof.
  intros Hv. destruct (strict_dumps float_repr_ascii canonical_opts n v eq_refl Hv) as (w & Hw & Hc).
  unfold sha256_text, canonical_dumps. rewrite Hw. cbn. unfold encode_utf8, utf8_encodable.
  unfold clean_str in Hc. rewrite Hc. by eexists.
Qed.
Lemma canonical_dumps_total n v : strict_value n v → ∃ w, canonical_dumps v = Ok w.
Proof.
  intros Hv. destruct (strict_dumps float_repr_ascii canonical_opts n v eq_refl Hv) as (w & Hw & _).
  unfold canonical_dumps. rewrite Hw. by eexists.
Qed.

Lemma strict_ddel n k d : strict_value n (PyDict d) → strict_value n (PyDict (ddel k d)).
Proof.
  inversion 1 as [| | | | | |? ? Hn Hnd Hks Hd]; subst. constructor; [done|by apply ddel_NoDup| |].
  - rewrite Forall_forall in *. intros k' [? _]%elem_dkeys_ddel. by apply Hks.
  - rewrite Forall_forall in *. intros p Hp. apply elem_ddel_iff in Hp as [Hp _]. by apply Hd.
Qed.
End hash.
