(* ===== verification/Checkpoint.v ===== *)
(** * Checkpoints of a run ([src/src/icode/checkpoint.py])

    The progress mark of a run, how it is written (a temporary file, then
    [os.replace]) and read.  [save_crash_safe]: whatever the moment of a crash,
    the next [load] finds the old mark or the new one. *)

From S2P Require Import Prelude PyText PyVal Hashing Utf8 Json JsonParse StrictJson PrettyJson EventSchema.

Definition CHECKPOINT_NAME : pystr := u ".agent_checkpoint.json".
Definition CHECKPOINT_SCHEMA_VERSION : Z := 1.
Definition default_note : pystr := u "不保存模型正文；恢复时以事件链为准重新水合上下文".

(** The dataclass: a field holds what the file says. *)
Record LoopCheckpoint := mkCheckpoint {
  cp_ticket_id : pyval; cp_step : pyval; cp_attempt : pyval; cp_turn_index : pyval; cp_tool_calls : pyval; cp_history_digest : pyval;
  cp_pending_approvals : pyval; cp_stop_reason : pyval; cp_updated_at : pyval; cp_schema_version : pyval; cp_generator : pyval; cp_note : pyval
}.

(** [asdict], and [updated_at] now when it is empty. *)
Definition as_dict (now : pystr) (c : LoopCheckpoint) : dict := [
  (u "ticket_id", cp_ticket_id c); (u "step", cp_step c); (u "attempt", cp_attempt c); (u "turn_index", cp_turn_index c);
  (u "tool_calls", cp_tool_calls c); (u "history_digest", cp_history_digest c); (u "pending_approvals", cp_pending_approvals c);
  (u "stop_reason", cp_stop_reason c); (u "updated_at", if py_truth (cp_updated_at c) then cp_updated_at c else PyStr now);
  (u "schema_version", cp_schema_version c); (u "generator", cp_generator c); (u "note", cp_note c)].
(** Unknown fields are dropped, three fields must be there. *)
Definition from_dict (data : dict) : result LoopCheckpoint :=
  match dget (u "ticket_id") data, dget (u "step") data, dget (u "attempt") data with
  | Some ticket, Some step, Some attempt =>
    Ok (mkCheckpoint ticket step attempt (pget_or (u "turn_index") (PyInt 0) data) (pget_or (u "tool_calls") (PyInt 0) data)
          (pget_or (u "history_digest") (PyStr []) data) (pget_or (u "pending_approvals") (PyInt 0) data) (pget_or (u "stop_reason") (PyStr []) data)
          (pget_or (u "updated_at") (PyStr []) data) (pget_or (u "schema_version") (PyInt CHECKPOINT_SCHEMA_VERSION) data)
          (pget_or (u "generator") (PyDict []) data) (pget_or (u "note") (PyStr default_note) data))
  | _, _, _ => Err (TypeError "missing required positional argument")
  end.

(** ** Files *)
Inductive file_state := Missing | Unreadable | Content (bytes : list N).
Definition is_file (f : file_state) : bool := match f with Missing => false | _ => true end.
(** [path.read_text(encoding="utf-8")] *)
Definition read_text (f : file_state) : result pystr :=
  match f with Content bytes => decode_utf8 bytes | _ => Err OSError end.

(** Whose progress it marks. *)
Record Checkpointer := mkCheckpointer { ck_ticket_id : pystr; ck_step : pystr; ck_attempt : pystr }.

Section checkpoint.
Context `{FloatRepr}.
Definition history_digest (history : list pyval) : result pystr := sha256_text (PyList history).

(** What [save] makes, and the bytes it writes. *)
Definition save_state (k : Checkpointer) (version now : pystr) (turn_index tool_calls : Z) (history : list pyval) (pending_approvals : Z) (stop_reason : pystr)
  : result LoopCheckpoint :=
  digest ← history_digest history;
  Ok (mkCheckpoint (PyStr (ck_ticket_id k)) (PyStr (ck_step k)) (PyStr (ck_attempt k)) (PyInt turn_index) (PyInt tool_calls) (PyStr digest)
        (PyInt pending_approvals) (PyStr stop_reason) (PyStr now) (PyInt CHECKPOINT_SCHEMA_VERSION)
        (PyDict [(u "name", PyStr (u "icode-agent")); (u "version", PyStr version)]) (PyStr default_note)).
(** The checkpoint and its temporary file. *)
Record slot := mkSlot { sl_path : file_state; sl_tmp : file_state }.
(** The states a write goes through: the temporary file grows, then takes the
    place of the checkpoint. *)
Definition _atomic_write_json (s : slot) (data : dict) : result (list slot) :=
  bytes ← json_file data;
  Ok ((s :: ((λ n, mkSlot (sl_path s) (Content (take n bytes))) <$> seq 0 (S (length bytes)))) ++ [mkSlot (Content bytes) Missing]).
Definition save (k : Checkpointer) (version now : pystr) (turn_index tool_calls : Z) (history : list pyval) (pending_approvals : Z) (stop_reason : pystr)
  (s : slot) : result (LoopCheckpoint * list slot) :=
  state ← save_state k version now turn_index tool_calls history pending_approvals stop_reason;
  states ← _atomic_write_json s (as_dict now state);
  Ok (state, states).

Definition CheckpointError : exn := RuntimeError "CheckpointError".
Definition load (f : file_state) : result (option LoopCheckpoint) :=
  if negb (is_file f) then Ok None else
  match (text ← read_text f; loads plain_loads text) with
  | Err OSError | Err (JSONDecodeError _ _) => Err CheckpointError
  | Err e => Err e
  | Ok (PyDict data) => c ← from_dict data; Ok (Some c)
  | Ok _ => Err CheckpointError
  end.
(** [unlink], of a file that is there, may be denied: only a missing file is no
    error. *)
Definition clear (denied : option exn) (f : file_state) : result file_state :=
  match f, denied with
  | Missing, _ | _, None => Ok Missing
  | _, Some e => Err e
  end.
End checkpoint.

(** ** What is saved is loaded *)
(** Numbers that [json.dumps] writes and [json.loads] reads. *)
Definition plain_int (z : Z) : Prop := length (dec (Z.abs_N z)) ≤ 4300.
Lemma from_as_dict now c : cp_updated_at c = PyStr now → now ≠ [] → from_dict (as_dict now c) = Ok c.
Proof. intros Hu Hn. unfold as_dict. rewrite Hu. destruct now as [|x now]; [done|]. cbn [py_truth]. destruct c. cbn in Hu. subst. reflexivity. Qed.

Section saved.
Context `{FloatRepr} (k : Checkpointer) (version now : pystr) (turn_index tool_calls : Z) (history : list pyval) (pending_approvals : Z) (stop_reason : pystr).
Context (Hk : points (ck_ticket_id k) ∧ points (ck_step k) ∧ points (ck_attempt k)) (Hversion : points version) (Hnow : points now ∧ now ≠ []).
Context (Hturn : plain_int turn_index) (Hcalls : plain_int tool_calls) (Hpend : plain_int pending_approvals) (Hstop : points stop_reason).
Notation save := (save k version now turn_index tool_calls history pending_approvals stop_reason).

Lemma saved_text state : save_state k version now turn_index tool_calls history pending_approvals stop_reason = Ok state →
  json_plain (PyDict (as_dict now state)) = true ∧ unicode_value (PyDict (as_dict now state)) = true ∧ from_dict (as_dict now state) = Ok state.
Proof.
  unfold save_state. intros (digest & Hd & E)%bind_ok. apply Ok_inj in E as <-. destruct Hk as (K1 & K2 & K3), Hnow as [N1 N2].
  assert (Hdig : points digest).
  { unfold history_digest, sha256_text in Hd. apply bind_ok in Hd as (raw & _ & (bs & _ & E)%bind_ok). apply Ok_inj in E as <-. apply points_ascii.
    pose proof (sha256_hex_form bs) as Hx. apply full_cls_spec in Hx as (_ & _ & Hx). eapply Forall_impl; [exact Hx|]. intros c Hc.
    unfold is_hex_lower, is_digit, in_range, is_ascii in *. autorewrite with py in *. lia. }
  split_and!.
  - unfold as_dict. cbn [json_plain]. apply andb_true_iff. split; [apply bool_decide_eq_true, (bool_decide_unpack _); vm_compute; exact I|].
    apply forallb_Forall. cbn [cp_ticket_id cp_step cp_attempt cp_turn_index cp_tool_calls cp_history_digest cp_pending_approvals cp_stop_reason cp_updated_at cp_schema_version cp_generator cp_note].
    repeat (apply Forall_cons_2; [cbn [snd]; first [exact (leb_correct _ _ Hturn)|exact (leb_correct _ _ Hcalls)|exact (leb_correct _ _ Hpend)|reflexivity|by destruct now]|]). apply Forall_nil_2.
  - unfold as_dict. cbn [unicode_value]. apply forallb_Forall.
    cbn [cp_ticket_id cp_step cp_attempt cp_turn_index cp_tool_calls cp_history_digest cp_pending_approvals cp_stop_reason cp_updated_at cp_schema_version cp_generator cp_note].
    assert (Hs : ∀ n s, forallb is_code_point (u n) = true → points s → forallb is_code_point (u n) && unicode_value (PyStr s) = true).
    { intros n s Hn Hs. rewrite Hn. by apply forallb_Forall. }
    assert (Hgen : forallb is_code_point (u "generator") && unicode_value (PyDict [(u "name", PyStr (u "icode-agent")); (u "version", PyStr version)]) = true).
    { cbn [unicode_value forallb fst snd]. rewrite (proj2 (forallb_Forall _ version) Hversion). reflexivity. }
    assert (Htime : (if py_truth (PyStr now) then PyStr now else PyStr now) = PyStr now) by (by case_match). rewrite Htime.
    repeat (apply Forall_cons_2; [cbn [fst snd]; first [reflexivity|exact Hgen|apply Hs; [reflexivity|assumption]]|]). apply Forall_nil_2.
  - by apply from_as_dict.
Qed.

(** C27: At every moment of a save the checkpoint is the one before or the one saved,
    which is what [load] then finds; after the last step it is the one saved. *)
Theorem save_crash_safe s state states :
  save s = Ok (state, states) →
  Forall (λ t, load (sl_path t) = load (sl_path s) ∨ load (sl_path t) = Ok (Some state)) states ∧
  (λ t, load (sl_path t)) <$> last states = Some (Ok (Some state)) ∧ (λ t, sl_tmp t) <$> last states = Some Missing.
Proof.
  intros (st & Hst & (sts & Hw & E)%bind_ok)%bind_ok. apply Ok_inj in E. injection E as -> ->. destruct (saved_text _ Hst) as (Hp & Hu & Hf).
  destruct (json_file_text _ Hp Hu) as (text & Ht & Hd & Hload). unfold _atomic_write_json in Hw. rewrite Ht in Hw. apply Ok_inj in Hw as <-.
  assert (Hnew : load (Content (utf8_bytes text)) = Ok (Some state)).
  { unfold load. cbn [is_file negb read_text]. rewrite Hd. cbn [mbind result_bind]. rewrite Hload. cbn [mbind result_bind]. by rewrite Hf. }
  split; [|rewrite last_snoc; cbn [fmap option_fmap option_map sl_path sl_tmp]; by rewrite Hnew]. apply Forall_app. split; [|constructor; [by right|constructor]].
  constructor; [by left|]. apply Forall_fmap, Forall_forall. intros n _. by left.
Qed.
End saved.

#[local] Instance no_floats : FloatRepr := λ _, [].
Definition sample_checkpointer : Checkpointer := mkCheckpointer (u "20260102_工单") (u "coding") (u "attempt-1").
Definition sample_slot : slot := mkSlot (Content (u "not json")) Missing.
Definition sample_save : result (LoopCheckpoint * list slot) :=
  save sample_checkpointer (u "0.1") (u "2026-01-02T03:04:05+08:00") 3 7 [PyDict [(u "role", PyStr (u "user"))]] 1 [] sample_slot.
Lemma save_crash_safe_witness :
  ∃ state states, sample_save = Ok (state, states) ∧
    Forall (λ t, load (sl_path t) = load (Content (u "not json")) ∨ load (sl_path t) = Ok (Some state)) states ∧
    (λ t, load (sl_path t)) <$> last states = Some (Ok (Some state)).
Proof.
  assert (Hok : is_ok sample_save = true) by (vm_compute; reflexivity).
  destruct sample_save as [[state states]|e] eqn:E; [|discriminate]. exists state, states. split; [reflexivity|].
  destruct (save_crash_safe sample_checkpointer (u "0.1") (u "2026-01-02T03:04:05+08:00") 3 7 [PyDict [(u "role", PyStr (u "user"))]] 1 []
              ltac:(split_and!; by_compute) ltac:(by_compute) ltac:(split; [by_compute|discriminate]) ltac:(apply Nat.leb_le; reflexivity) ltac:(apply Nat.leb_le; reflexivity) ltac:(apply Nat.leb_le; reflexivity) ltac:(constructor)
              sample_slot state states E) as (H1 & H2 & _).
  split; [exact H1|exact H2].
Defined.
