(* ===== verification/Recovery.v ===== *)
(** * Recovery after a crash ([src/src/icode/recovery.py])

    [analyze] decides from the event chain, which the control plane projects,
    and from the checkpoint how a run may go on: start afresh, resume, first
    verify a side effect, or not at all.  The event chain has the last word. *)

From S2P Require Import Prelude PyText PyVal Hashing Utf8 Json JsonParse Paths Operations Checkpoint.

Definition READ_ONLY_CLASS : pystr := u "read_only".
Definition ACTION_START_FRESH : pystr := u "start_fresh".
Definition ACTION_RESUME : pystr := u "resume".
Definition ACTION_VERIFY_SIDE_EFFECT : pystr := u "verify_side_effect_first".
Definition ACTION_BLOCKED : pystr := u "blocked".

(** An open operation, as it is listed. *)
Record open_operation := mkOpen { oo_attempt : pystr; oo_class : pystr; oo_name : pyval }.
Record RecoveryDecision := mkDecision {
  rd_action : pystr; rd_reason : pystr; rd_step : pystr; rd_open_steps : dict; rd_open_operations : dict; rd_open_agents : dict;
  rd_checkpoint : option LoopCheckpoint; rd_checkpoint_valid : bool; rd_registered_outputs : list pystr;
  rd_side_effect_operations : list open_operation; rd_warnings : list pystr
}.
Definition can_resume (d : RecoveryDecision) : bool := (rd_action d =s ACTION_RESUME) || (rd_action d =s ACTION_START_FRESH).
Definition needs_human (d : RecoveryDecision) : bool := (rd_action d =s ACTION_VERIFY_SIDE_EFFECT) || (rd_action d =s ACTION_BLOCKED).

(** ** Lines of text *)
Definition line_break (c : N) : bool := in_range 10 13 c || in_range 28 30 c || (c =? 133)%N || in_range 8232 8233 c.
(** [s.splitlines()] *)
Fixpoint lines_from (line s : pystr) : list pystr :=
  match s with
  | [] => match line with [] => [] | _ => [line] end
  | c :: t =>
    if line_break c then
      line :: match t with
              | d :: t' => if (c =? 13)%N && (d =? 10)%N then lines_from [] t' else lines_from [] t
              | [] => []
              end
    else lines_from (line ++ [c]) t
  end.
Definition splitlines : pystr → list pystr := lines_from [].

Section recovery.
Context `{PyRepr}.

(** ** Texts *)
Definition keys_text (d : dict) : pystr := py_str (PyList ((λ k, PyStr k) <$> dkeys d)).
Definition render (d : RecoveryDecision) : pystr :=
  join [10%N]
    ([u "崩溃恢复分析"; u "  步骤：" ++ match rd_step d with [] => u "（未指定）" | s => s end; u "  决策：" ++ rd_action d; u "  理由：" ++ rd_reason d]
     ++ match rd_registered_outputs d with [] => [] | l => [u "  已登记产物：" ++ join (u "、") l] end
     ++ match rd_open_steps d with [] => [] | l => [u "  未闭合步骤：" ++ keys_text l] end
     ++ match rd_open_operations d with [] => [] | l => [u "  未闭合动作：" ++ keys_text l] end
     ++ match rd_side_effect_operations d with
        | [] => []
        | l => u "  ⚠ 未终结的副作用动作（必须先核对真实状态，禁止重放）："
               :: ((λ o, u "      - attempt=" ++ oo_attempt o ++ u " class=" ++ oo_class o ++ u " name=" ++ py_str (oo_name o)) <$> l)
        end
     ++ [match rd_checkpoint d with
         | Some cp => u "  检查点：" ++ (if rd_checkpoint_valid d then u "有效" else u "无效") ++ u " （回合 " ++ py_str (cp_turn_index cp)
                      ++ u " / 工具调用 " ++ py_str (cp_tool_calls cp) ++ u " / attempt=" ++ py_str (cp_attempt cp) ++ u "）"
         | None => u "  检查点：无"
         end]
     ++ match rd_warnings d with [] => [] | l => u "  提示：" :: ((λ w, u "    - " ++ w) <$> l) end).
(** What the next turn is told, from the event chain. *)
Definition resume_brief (d : RecoveryDecision) : pystr :=
  if rd_action d =s ACTION_BLOCKED then u "**恢复被阻断**：事件链不可读或自相矛盾，请人工核对后再继续。" else
  join [10%N]
    ([u "【恢复上下文（来自事件链，非聊天记录回放）】"; u "  - 步骤：" ++ rd_step d]
     ++ match rd_checkpoint d with
        | Some cp =>
          if rd_checkpoint_valid d then
            (u "  - 上次运行进度：" ++ py_str (cp_turn_index cp) ++ u " 个回合 / " ++ py_str (cp_tool_calls cp) ++ u " 次工具调用（attempt=" ++ py_str (cp_attempt cp) ++ u "）")
            :: (if py_truth (cp_pending_approvals cp)
                then [u "  - ⚠ 有 " ++ py_str (cp_pending_approvals cp) ++ u " 项审批在中断时未决：**不会自动放行**，需要重新经人工确认"] else [])
          else []
        | None => []
        end
     ++ match rd_registered_outputs d with [] => [] | l => [u "  - 已登记产物（不要重复劳动）：" ++ join (u "、") l] end
     ++ match rd_side_effect_operations d with [] => [] | _ => [u "  - ⚠ 存在未终结的副作用动作：**禁止重放**，先核对真实状态"] end
     ++ [u "  要求：不要重放已完成的动作；直接从未完成处继续产出；若无法确认某动作是否已生效，停下来报告而不是再执行一次。"]).

(** [dict(v or {})].  A list of pairs makes a dictionary as well; pairs whose
    first item is no string are outside the model. *)
Definition pair_of (v : pyval) : result (pystr * pyval) :=
  match v with
  | PyList [PyStr k; x] => Ok (k, x)
  | PyStr [a; b] => Ok ([a], PyStr [b])
  | PyList _ | PyStr _ | PyDict _ => Err (ValueError "dictionary update sequence element has the wrong length")
  | _ => Err (TypeError "cannot convert dictionary update sequence element to a sequence")
  end.
Definition dict_or_empty (v : pyval) : result dict :=
  if negb (py_truth v) then Ok [] else
  match v with
  | PyDict d => Ok d
  | PyList l => ps ← mapM_res pair_of l; Ok (dupdate [] ps)
  | PyStr s => Err (ValueError "dictionary update sequence element has length 1; 2 is required")
  | _ => Err (TypeError "object is not iterable")
  end.

(** [str(a or b or "")], and the value itself. *)
Definition or_else (a b : pyval) : pyval := if py_truth a then a else b.
Definition operation_entry (p : pystr * pyval) : open_operation * bool :=
  let data := match p.2 with PyDict d => d | _ => [] end in
  let opclass := first_text (pget (u "class") data) (pget (u "opclass") data) in
  (mkOpen p.1 (match opclass with [] => u "unknown" | _ => opclass end)
     (or_else (pget (u "name") data) (or_else (pget (u "action") data) (PyStr []))), opclass =s READ_ONLY_CLASS).
(** The side effects, and the operations that only read. *)
Definition _classify_open_operations (ops : dict) : list open_operation * list open_operation :=
  let entries := operation_entry <$> ops in
  (fst <$> filter (λ e, e.2 = false) entries, fst <$> filter (λ e, e.2 = true) entries).
Definition _collect_attempts (open_steps : dict) : list pystr :=
  concat ((λ p, p.1 :: match p.2 with
                       | PyDict d => let inner := pget (u "attempt") d in if py_truth inner then [py_str inner] else []
                       | _ => []
                       end) <$> open_steps).

(** ** The outputs that the chain records *)
Definition artifact_name (event : pyval) : result pystr :=
  match event with
  | PyDict d =>
    if negb (is_lit (pget (u "event_type") d) (u "artifact_written")) then Ok [] else
    match or_else (pget (u "payload") d) (PyDict []) with
    | PyDict payload =>
      let raw_path := str_or [] (pget (u "path") payload) in
      Ok (match raw_path with [] => str_or [] (pget (u "output") payload) | _ => path_name (Path_of_str raw_path) end)
    | _ => Err (AttributeError "get")
    end
  | _ => Err (AttributeError "get")
  end.
Fixpoint registered_lines (out : list pystr) (lines : list pystr) : result (list pystr) :=
  match lines with
  | [] => Ok out
  | line :: rest =>
    let line := strip line in
    if line =s [] then registered_lines out rest else
    match loads plain_loads line with
    | Err (JSONDecodeError _ _) => registered_lines out rest
    | Err e => Err e
    | Ok event =>
      name ← artifact_name event;
      registered_lines (if (name =s []) || (name ∈s out) then out else out ++ [name]) rest
    end
  end.
Definition _registered_outputs (events : file_state) : result (list pystr) :=
  if negb (is_file events) then Ok [] else text ← read_text events; registered_lines [] (splitlines text).

(** ** The decision *)
Section analyze.
Context {W : Type} `{JsonLoads} (control_process : list pystr → W → result (Z * pystr) * W).
(** What unlinking a checkpoint raises, if it does. *)
Context (denied : option exn).
(** The control plane, with its [check]. *)
Definition control_trace (check : bool) (out_dir : pystr) (limit : Z) (w : W) : result ControlResult * W :=
  control_run control_process check [u "trace"; u "--dir"; out_dir; u "--limit"; dec_z limit] w.

Definition blocked (step reason : pystr) : RecoveryDecision := mkDecision ACTION_BLOCKED reason step [] [] [] None false [] [] [].
Definition trace_ok (r : ControlResult) : bool := (ct_returncode r =? 0)%Z && is_true (pget (u "ok") (ct_data r)).

(** What the checkpoint is worth: its validity, the warnings, and the file,
    which is removed when the event chain contradicts it. *)
Definition check_attempt (ticket_id : pystr) (attempts : list pystr) (cp : LoopCheckpoint) (file : file_state)
  : result (bool * list pystr * file_state) :=
  if negb (is_lit (cp_ticket_id cp) ticket_id) then Ok (false, [u "检查点属于其它工单，已忽略"], file)
  else
    let stale := u "事件链无未闭合步骤，检查点已失效；按事件链为准，丢弃检查点" in
    match attempts with
    | [] => file ← clear denied file; Ok (false, [stale], file)
    | _ =>
      found ← in_set (cp_attempt cp) attempts;
      if (found : bool) then Ok (true, [], file) else
      file ← clear denied file;
      Ok (false, [u "检查点指向的 attempt 在事件链上没有未闭合步骤（该步骤可能已终结）；按事件链为准，丢弃检查点"], file)
    end.
Definition pending_warning (cp : LoopCheckpoint) : list pystr :=
  if py_truth (cp_pending_approvals cp)
  then [u "中断时存在 " ++ py_str (cp_pending_approvals cp) ++ u " 项未决审批 —— 恢复后必须重新确认，不自动放行"] else [].
Definition check_checkpoint (ticket_id : pystr) (open_steps : dict) (file : file_state)
  : result (option LoopCheckpoint * bool * list pystr * file_state) :=
  cp ← load file;
  match cp with
  | None => Ok (None, false, [], file)
  | Some cp =>
    r ← check_attempt ticket_id (_collect_attempts open_steps) cp file;
    let '(valid, warnings, file) := r in
    Ok (Some cp, valid, warnings ++ pending_warning cp, file)
  end.

Definition operations_text (ops : list open_operation) : pystr := join (u "、") ((λ o, py_str (oo_name o) ++ u "(" ++ oo_class o ++ u ")") <$> ops).
(** Side effects first, then open steps, then open readings. *)
Definition decide_action (open_steps : dict) (side_effects read_only : list open_operation) (stale : bool) : pystr * pystr :=
  match side_effects with
  | _ :: _ =>
    (ACTION_VERIFY_SIDE_EFFECT, u "存在 " ++ dec (N.of_nat (length side_effects)) ++ u " 个未终结的副作用动作：" ++ operations_text side_effects
       ++ u "。必须先核对真实状态，再用 resolve_open_operation() 补 finish；禁止直接重放。")
  | [] =>
    match open_steps, read_only with
    | _ :: _, _ => (ACTION_RESUME, u "存在未闭合步骤 " ++ keys_text open_steps ++ u "；从事件链重新水合上下文后继续（不重放已完成动作）")
    | [], _ :: _ => (ACTION_RESUME, u "仅有未闭合的**只读**动作 " ++ py_str (PyList ((λ o, PyStr (oo_attempt o)) <$> read_only)) ++ u "，按 policy 可重新执行；继续即可")
    | [], [] => (ACTION_START_FRESH, if stale then u "事件链无未闭合项，检查点已失效并丢弃" else u "无未闭合项")
    end
  end.

(** The state of the run's directory: the checkpoint, the event chain. *)
Record run_files := mkRunFiles { rf_checkpoint : file_state; rf_events : file_state }.
(** [checkpointer]: whether there is one; [exn_text]: the text of an exception. *)
Definition analyze (exn_text : exn → pystr) (check : bool) (out_dir ticket_id step : pystr) (checkpointer : bool) (files : run_files) (w : W)
  : result (RecoveryDecision * run_files) * W :=
  match control_trace check out_dir 50 w with
  | (Err ControlError, w) => (Ok (blocked step (u "事件链不可读（trace 失败），无法安全判定恢复点：" ++ exn_text ControlError), files), w)
  | (Err e, w) => (Err e, w)
  | (Ok trace, w) =>
    (if negb (trace_ok trace) then Ok (blocked step (u "事件链不可读（trace 返回非成功），无法安全判定恢复点"), files) else
     open_steps ← dict_or_empty (pget (u "open_steps") (ct_data trace));
     open_operations ← dict_or_empty (pget (u "open_operations") (ct_data trace));
     open_agents ← dict_or_empty (pget (u "open_agents") (ct_data trace));
     let '(side_effects, read_only) := _classify_open_operations open_operations in
     outputs ← _registered_outputs (rf_events files);
     r ← (if checkpointer && is_file (rf_checkpoint files) then check_checkpoint ticket_id open_steps (rf_checkpoint files)
          else Ok (None, false, [], rf_checkpoint files));
     let '(cp, valid, warnings, file) := (r : option LoopCheckpoint * bool * list pystr * file_state) in
     let stale := match cp with Some _ => negb valid | None => false end in
     let '(action, reason) := decide_action open_steps side_effects read_only stale in
     Ok (mkDecision action reason step open_steps open_operations open_agents cp valid outputs side_effects warnings, mkRunFiles file (rf_events files)), w)
  end.

(** [operation finish] after a human has looked. *)
Definition resolve_open_operation (out_dir attempt outcome evidence check_ref : pystr) (failure : option pystr) (w : W) : result bool * W :=
  match operation_finish control_process out_dir attempt outcome evidence check_ref failure w with
  | (Err e, w) => (Err e, w)
  | (Ok r, w) => (Ok (trace_ok r), w)
  end.
End analyze.
End recovery.

(** ** What is decided *)
Section decided.
Context `{PyRepr}.
(** The class that an open operation states. *)
Definition operation_class (v : pyval) : pystr :=
  let data := match v with PyDict d => d | _ => [] end in first_text (pget (u "class") data) (pget (u "opclass") data).
Definition reads_only (p : pystr * pyval) : Prop := operation_class p.2 = READ_ONLY_CLASS.
Lemma entry_reads p : (operation_entry p).2 = true ↔ reads_only p.
Proof. unfold operation_entry, reads_only, operation_class. cbn [snd]. apply bool_decide_eq_true. Qed.
Lemma filter_nil {A} (P : A → Prop) `{∀ x, Decision (P x)} (l : list A) : filter P l = [] ↔ Forall (λ x, ¬ P x) l.
Proof.
  induction l as [|x l IH]; [by split|]. rewrite filter_cons, Forall_cons. case_decide as Hx; [split; [done|by intros [? _]]|]. rewrite IH. tauto.
Qed.
Lemma entries_split (l : list (open_operation * bool)) b : fst <$> filter (λ e, e.2 = b) l = [] ↔ Forall (λ e, e.2 = negb b) l.
Proof.
  assert (Hf : ∀ k : list (open_operation * bool), fst <$> k = [] ↔ k = []) by (by intros []). rewrite Hf, filter_nil. split; intros Hl; (eapply Forall_impl; [exact Hl|]); intros [o c]; cbn; by destruct b, c.
Qed.
Lemma side_effects_nil ops : (_classify_open_operations ops).1 = [] ↔ Forall reads_only ops.
Proof.
  unfold _classify_open_operations. cbn [fst]. rewrite entries_split, Forall_fmap. split; intros Hl; (eapply Forall_impl; [exact Hl|]); intros p; apply entry_reads.
Qed.
Lemma read_only_nil ops : (_classify_open_operations ops).2 = [] ↔ Forall (λ p, ¬ reads_only p) ops.
Proof.
  unfold _classify_open_operations. cbn [snd]. rewrite entries_split, Forall_fmap. split; intros Hl; (eapply Forall_impl; [exact Hl|]); intros p; cbn [compose];
    rewrite <-entry_reads; destruct (operation_entry p).2; done.
Qed.

(** The decision, of what is open. *)
Record decides (action : pystr) (steps ops : dict) : Prop := mkDecides {
  de_verify : action = ACTION_VERIFY_SIDE_EFFECT ↔ ∃ p, p ∈ ops ∧ ¬ reads_only p;
  de_resume : action = ACTION_RESUME ↔ Forall reads_only ops ∧ (steps ≠ [] ∨ ops ≠ []);
  de_fresh : action = ACTION_START_FRESH ↔ steps = [] ∧ ops = [];
  de_not_blocked : action ≠ ACTION_BLOCKED
}.
Lemma actions_distinct : NoDup [ACTION_VERIFY_SIDE_EFFECT; ACTION_RESUME; ACTION_START_FRESH; ACTION_BLOCKED].
Proof. by_compute. Qed.
Lemma decide_action_spec steps ops stale :
  decides (decide_action steps (_classify_open_operations ops).1 (_classify_open_operations ops).2 stale).1 steps ops.
Proof.
  assert (Hd : ACTION_VERIFY_SIDE_EFFECT ≠ ACTION_RESUME ∧ ACTION_VERIFY_SIDE_EFFECT ≠ ACTION_START_FRESH ∧ ACTION_RESUME ≠ ACTION_START_FRESH ∧
    ACTION_VERIFY_SIDE_EFFECT ≠ ACTION_BLOCKED ∧ ACTION_RESUME ≠ ACTION_BLOCKED ∧ ACTION_START_FRESH ≠ ACTION_BLOCKED) by (split_and!; discriminate).
  destruct Hd as (D1 & D2 & D3 & D4 & D5 & D6). unfold decide_action. pose proof (side_effects_nil ops) as Hs. pose proof (read_only_nil ops) as Hr.
  destruct (_classify_open_operations ops).1 as [|o os].
  - pose proof (proj1 Hs eq_refl) as Hall. assert (Hno : ¬ ∃ p, p ∈ ops ∧ ¬ reads_only p) by (intros (p & Hin & Hn); apply Hn; exact (proj1 (Forall_forall _ _) Hall p Hin)).
    destruct steps as [|st steps]; [destruct (_classify_open_operations ops).2 as [|r rs]|]; cbn [fst].
    + assert (ops = []) as -> by (destruct ops as [|p ops]; [done|]; pose proof (proj1 Hr eq_refl) as Hn; apply Forall_cons in Hn as [Hn _]; apply Forall_cons in Hall as [Hp _]; done).
      split; [split; [by intros ?%symmetry|by intros]|split; [by intros ?%symmetry|by intros (_ & [|])]|done|done].
    + assert (Hops : ops ≠ []) by (intros ->; by pose proof (proj2 Hr ltac:(constructor))).
      split; [done|split; [auto|done]|split; [done|by intros [_ ?]]|done].
    + split; [done|split; [auto|done]|split; [done|by intros [? _]]|done].
  - assert (Hex : ∃ p, p ∈ ops ∧ ¬ reads_only p).
    { destruct (decide (Exists (λ p, ¬ reads_only p) ops)) as [He|He]; [by apply Exists_exists in He|]. exfalso. assert (Hall : Forall reads_only ops); [|by apply Hs in Hall].
      apply not_Exists_Forall in He; [|intros p; unfold reads_only; apply _]. eapply Forall_impl; [exact He|]. intros p Hp. cbn in Hp. unfold reads_only in *. by destruct (decide (operation_class p.2 = READ_ONLY_CLASS)). }
    cbn [fst]. destruct Hex as (p & Hin & Hn). split; [split; [by intros _; exists p|done]|split; [done|]|split; [done|]|done].
    + intros [Hall _]. by destruct (Hn (proj1 (Forall_forall _ _) Hall p Hin)).
    + intros [_ ->]. by apply not_elem_of_nil in Hin.
Qed.

(** What the checkpoint was worth. *)
Record checkpoint_ok (ticket_id : pystr) (steps : dict) (before after : file_state) (cp : option LoopCheckpoint) (valid : bool) (warnings : list pystr) : Prop := mkCheckpointOk {
  co_valid : valid = true → ∃ c a, cp = Some c ∧ cp_ticket_id c = PyStr ticket_id ∧ cp_attempt c = PyStr a ∧ a ∈ _collect_attempts steps ∧ after = before;
  co_discarded : ∀ c, cp = Some c → valid = false → cp_ticket_id c = PyStr ticket_id → after = Missing;
  co_kept : ∀ c, cp = Some c → cp_ticket_id c ≠ PyStr ticket_id → valid = false ∧ after = before;
  co_loaded : ∀ c, cp = Some c → load before = Ok (Some c);
  co_pending : ∀ c, cp = Some c → py_truth (cp_pending_approvals c) = true → pending_warning c ≠ [] ∧ ∀ x, x ∈ pending_warning c → x ∈ warnings
}.
Lemma clear_ok denied f f' : clear denied f = Ok f' → f' = Missing.
Proof. unfold clear. destruct f, denied; try discriminate; by intros E%Ok_inj. Qed.
Lemma check_checkpoint_ok denied ticket_id steps file cp valid warnings file' :
  check_checkpoint denied ticket_id steps file = Ok (cp, valid, warnings, file') → checkpoint_ok ticket_id steps file file' cp valid warnings.
Proof.
  unfold check_checkpoint. intros (o & Hl & Hr)%bind_ok. destruct o as [c|].
  2: { apply Ok_inj in Hr. injection Hr as <- <- <- <-. by split. }
  apply bind_ok in Hr as ([[v ws] f] & Ha & Hr). apply Ok_inj in Hr. injection Hr as <- <- <- <-. unfold check_attempt in Ha.
  assert (Hp : py_truth (cp_pending_approvals c) = true → pending_warning c ≠ [] ∧ ∀ x, x ∈ pending_warning c → x ∈ ws ++ pending_warning c).
  { intros Ht. unfold pending_warning. rewrite Ht. split; [done|]. intros x Hx. apply elem_of_app. by right. }
  destruct (is_lit (cp_ticket_id c) ticket_id) eqn:Et; cbn [negb] in Ha.
  2: { apply Ok_inj in Ha. injection Ha as <- <- <-. assert (Hne : cp_ticket_id c ≠ PyStr ticket_id) by (intros E; rewrite E in Et; cbn in Et; by case_bool_decide).
       split; [done|by intros ? [= <-]|by intros ? [= <-]|by intros ? [= <-]|intros ? [= <-]; exact Hp]. }
  apply is_lit_iff in Et. destruct (_collect_attempts steps) as [|a attempts] eqn:Es.
  { apply bind_ok in Ha as (f' & ->%clear_ok & Ha). apply Ok_inj in Ha. injection Ha as <- <- <-.
    split; [done|by intros ? [= <-]|intros ? [= <-]; done|by intros ? [= <-]|intros ? [= <-]; exact Hp]. }
  apply bind_ok in Ha as (found & Hf & Ha). destruct found.
  - apply Ok_inj in Ha. injection Ha as <- <- <-. split; [intros _|done|by intros ? [= <-]|by intros ? [= <-]|intros ? [= <-]; exact Hp].
    unfold in_set in Hf. destruct (unhashable _); [discriminate|]. apply Ok_inj in Hf. destruct (cp_attempt c) as [| | | |x| | | |] eqn:Ec; try discriminate.
    exists c, x. rewrite Es. split_and!; try done. cbn [str_in] in Hf. by apply bool_decide_eq_true in Hf.
  - apply bind_ok in Ha as (f' & ->%clear_ok & Ha). apply Ok_inj in Ha. injection Ha as <- <- <-.
    split; [done|by intros ? [= <-]|intros ? [= <-]; done|by intros ? [= <-]|intros ? [= <-]; exact Hp].
Qed.
End decided.

Section decision.
Context `{PyRepr} {W : Type} `{JsonLoads} (control_process : list pystr → W → result (Z * pystr) * W) (denied : option exn) (exn_text : exn → pystr).
(** The trace of the control plane, when it was one. *)
Definition traced (check : bool) (out_dir : pystr) (w : W) (r : ControlResult) : Prop :=
  (control_trace control_process check out_dir 50 w).1 = Ok r ∧ trace_ok r = true.
(** What an answer of [analyze] rests on. *)
Record decision_ok (check : bool) (out_dir ticket_id step : pystr) (w : W) (before after : run_files) (d : RecoveryDecision) : Prop := mkDecisionOk {
  do_blocked : rd_action d = ACTION_BLOCKED → (∀ r, ¬ traced check out_dir w r) ∧ after = before;
  do_traced : rd_action d ≠ ACTION_BLOCKED → ∃ r, traced check out_dir w r ∧
    dict_or_empty (pget (u "open_steps") (ct_data r)) = Ok (rd_open_steps d) ∧ dict_or_empty (pget (u "open_operations") (ct_data r)) = Ok (rd_open_operations d) ∧
    decides (rd_action d) (rd_open_steps d) (rd_open_operations d) ∧
    _registered_outputs (rf_events before) = Ok (rd_registered_outputs d) ∧
    checkpoint_ok ticket_id (rd_open_steps d) (rf_checkpoint before) (rf_checkpoint after) (rd_checkpoint d) (rd_checkpoint_valid d) (rd_warnings d);
  do_events : rf_events after = rf_events before
}.

(** C26: Recovery never replays a side effect and obeys the event chain.  An
    answer is [blocked] exactly when the control plane gave no trace; otherwise
    it is [verify_side_effect_first] exactly when some open operation does not
    state the class [read_only], [resume] exactly when all open operations do and
    something is open, [start_fresh] exactly when nothing is.  A checkpoint is
    valid only for this ticket and an attempt that the chain has open; one of this
    ticket that is not valid is removed; open approvals are always reported. *)
Theorem analyze_decides check out_dir ticket_id step checkpointer files w d files' w' :
  analyze control_process denied exn_text check out_dir ticket_id step checkpointer files w = (Ok (d, files'), w') →
  decision_ok check out_dir ticket_id step w files files' d.
Proof.
  unfold analyze. destruct (control_trace control_process check out_dir 50 w) as [[trace|e] w1] eqn:Et.
  2: { destruct e; try discriminate. intros E. injection E as <- <- _. split; [intros _|done|done]. split; [|done]. intros r [Hr _]. rewrite Et in Hr. discriminate. }
  intros E. injection E as E _. destruct (trace_ok trace) eqn:Ek; cbn [negb] in E.
  2: { apply Ok_inj in E. injection E as <- <-. split; [intros _|done|done]. split; [|done]. intros r [Hr Hk]. rewrite Et in Hr. apply Ok_inj in Hr as ->. congruence. }
  apply bind_ok in E as (steps & Hst & E). apply bind_ok in E as (ops & Hops & E). apply bind_ok in E as (agents & _ & E).
  unfold _classify_open_operations in E. apply bind_ok in E as (outputs & Hout & E). apply bind_ok in E as ([[[cp valid] ws] file] & Hcp & E).
  set (stale := match cp with Some _ => negb valid | None => false end) in E. pose proof (decide_action_spec steps ops stale) as Hd. unfold _classify_open_operations in Hd. cbn [fst snd] in Hd.
  destruct (decide_action steps _ _ stale) as [action reason]. cbn [fst] in Hd. apply Ok_inj in E. injection E as <- <-.
  split; cbn [rd_action]; [intros Hb; by destruct (de_not_blocked _ _ _ Hd)| |done]. intros _. exists trace. cbn [rd_open_steps rd_open_operations rd_checkpoint rd_checkpoint_valid rd_warnings rd_registered_outputs rf_checkpoint].
  split; [split; [by rewrite Et|exact Ek]|]. split_and!; try done.
  destruct (checkpointer && is_file (rf_checkpoint files)); [by apply (check_checkpoint_ok denied)|]. apply Ok_inj in Hcp. injection Hcp as <- <- <- <-. by split.
Qed.
End decision.

(** ** Runs that were cut off *)
Module RecoverySample.
#[export] Instance repr : PyRepr := λ _, u "[...]".
#[export] Instance loads_text : JsonLoads := λ text, match loads plain_loads text with Ok v => Some v | Err _ => None end.
Definition q (s : string) : pystr := (λ c, if (c =? 39)%N then 34%N else c) <$> u s.
(** The control plane answers with this text. *)
Definition answers (code : Z) (text : pystr) (args : list pystr) (n : nat) : result (Z * pystr) * nat := (Ok (code, text), S n).
Definition open_trace : pystr :=
  q "{'ok': true, 'open_steps': {'coding': {'attempt': 'a1'}}, 'open_operations': {'op1': {'class': 'read_only'}, 'op2': {'opclass': 'managed_write', 'name': 'write'}}}".
Definition saved : file_state := Content (utf8_bytes (q "{'ticket_id': 'T1', 'step': 'coding', 'attempt': 'a1', 'turn_index': 4, 'pending_approvals': 2}")).
Definition events : file_state := Content (utf8_bytes (q "{'event_type': 'artifact_written', 'payload': {'path': 'out/report.md'}}" ++ [10%N])).
Definition no_text (_ : exn) : pystr := [].
Definition decision (denied : option exn) (trace : pystr) (checkpoint events : file_state) : result (RecoveryDecision * run_files) :=
  (analyze (answers 0 trace) denied no_text true (u "out") (u "T1") (u "coding") true (mkRunFiles checkpoint events) 0).1.
End RecoverySample.
Import RecoverySample.
Lemma analyze_decides_witness :
  ∃ d files', decision None open_trace saved events = Ok (d, files') ∧ rd_action d = ACTION_VERIFY_SIDE_EFFECT ∧ rd_checkpoint_valid d = true ∧
    decision_ok (answers 0 open_trace) true (u "out") (u "T1") (u "coding") 0 (mkRunFiles saved events) files' d.
Proof.
  eexists _, _. split; [vm_compute; reflexivity|]. split; [vm_compute; reflexivity|]. split; [vm_compute; reflexivity|].
  eapply (analyze_decides (answers 0 open_trace) None no_text true (u "out") (u "T1") (u "coding") true). vm_compute. reflexivity.
Defined.

(** Inputs for which none of the four answers is given: a checkpoint that cannot
    be read, which is to be discarded when it contradicts the chain, and a line
    of the chain that is JSON but no object, which should block the recovery. *)
Example unreadable_checkpoint_raises : decision None open_trace (Content (u "not json")) events = Err CheckpointError.
Proof. vm_compute. reflexivity. Qed.
Example odd_event_raises : decision None open_trace saved (Content (u "[]")) = Err (AttributeError "get").
Proof. vm_compute. reflexivity. Qed.
(** Nor is it when a stale checkpoint may not be removed. *)
Example undeletable_checkpoint_raises :
  decision (Some OSError) (q "{'ok': true}") saved events = Err OSError ∧
  is_ok (decision None (q "{'ok': true}") saved events) = true.
Proof. split; vm_compute; reflexivity. Qed.
(** A recorded output is forgotten when its path has a character that ends a
    line for [splitlines] and not for JSON. *)
Example output_with_line_separator :
  _registered_outputs (Content (utf8_bytes (q "{'event_type': 'artifact_written', 'payload': {'path': 'a" ++ [8232%N] ++ q "b.md'}}"))) = Ok [] ∧
  (v ← loads plain_loads (q "{'event_type': 'artifact_written', 'payload': {'path': 'a" ++ [8232%N] ++ q "b.md'}}"); artifact_name v) = Ok (u "a" ++ [8232%N] ++ u "b.md").
Proof. split; vm_compute; reflexivity. Qed.
