(* ===== verification/Sequential.v ===== *)
(** * Structured deliberation ([src/src/icode/sequential.py])

    [SequentialThinking]: a bounded number of short model calls, each building
    on the steps before, until the model wants no further one, the limit of the
    tier is met, the budget is spent or a call fails. *)

From S2P Require Import Prelude PyText PyVal Hashing Utf8 Json JsonParse Budget Tools.

Definition MIN_STEPS : list (pystr * nat) := [(u "L2", 3); (u "L3", 4)].
Definition MAX_STEPS : list (pystr * nat) := [(u "L2", 5); (u "L3", 8)].
Definition min_steps (tier : pystr) : nat := default 3 (dget tier MIN_STEPS).
Definition max_steps (tier : pystr) : nat := default 5 (dget tier MAX_STEPS).
Definition _SYSTEM : pystr :=
  u "你正在进行一次**结构化的分步推演**（sequential thinking）。" ++ [10%N] ++ u "规则：" ++ [10%N]
  ++ u "  1. 每次只推进**一步**，内容简短（不超过 120 字），聚焦一个明确结论或一个待验证问题；" ++ [10%N]
  ++ u "  2. 后续步骤必须建立在前面的结论之上，不得重复；" ++ [10%N] ++ u "  3. 已能收敛时，把 next_thought_needed 置为 false；" ++ [10%N]
  ++ u "  4. **只输出 JSON**，不要输出其它文字。" ++ [10%N]
  ++ u "格式：{" ++ [34%N] ++ u "step" ++ [34%N] ++ u ": " ++ [34%N] ++ u "<本步内容>" ++ [34%N] ++ u ", " ++ [34%N] ++ u "next_thought_needed" ++ [34%N] ++ u ": true|false}".

Record Deliberation := mkDeliberation {
  db_tier : pystr; db_steps : list pystr; db_converged : bool; db_truncated : bool; db_empty_responses : nat; db_error : pystr; db_budget_exceeded : bool
}.
Definition step_count (d : Deliberation) : nat := length (db_steps d).
Definition digest (d : Deliberation) : result pystr := bytes ← encode_utf8 (join [10%N] (db_steps d)); Ok (take 16 (sha256_hex bytes)).
Definition dec_nat (n : nat) : pystr := dec (N.of_nat n).
Definition summary (d : Deliberation) : pystr :=
  db_tier d ++ u " 推演 " ++ dec_nat (step_count d) ++ u " 步" ++ (if db_converged d then u "（已收敛）" else u "（到上限）")
  ++ (if db_empty_responses d =? 0 then [] else u "，其中 " ++ dec_nat (db_empty_responses d) ++ u " 次空响应")
  ++ match db_error d with [] => [] | e => u "，中断：" ++ e end.

(** ** The answer of the model *)
(** [re.search(r"\{.*\}", raw, re.S)]: from the first brace that opens to the
    last that closes. *)
Fixpoint from_char (c : N) (s : pystr) : pystr := match s with [] => [] | d :: t => if (d =? c)%N then s else from_char c t end.
Definition braces (raw : pystr) : option pystr :=
  match reverse (from_char 125 (reverse (from_char 123 raw))) with [] => None | m => Some m end.
Section parse.
Context `{PyRepr}.
Definition _parse (text : pystr) : result (pystr * bool) :=
  let raw := strip text in
  let plain := Ok (replace_char 10 32 (take 200 raw), true) in
  match braces raw with
  | None => plain
  | Some m =>
    match loads plain_loads m with
    | Ok (PyDict d) => Ok (strip (str_or [] (pget (u "step") d)), py_truth (pget_or (u "next_thought_needed") (PyBool true) d))
    | Ok _ => Err (AttributeError "get")
    | Err (JSONDecodeError _ _) | Err (TypeError _) | Err (ValueError _) => plain
    | Err e => Err e
    end
  end.
End parse.

Definition numbered_step (i : nat) (s : pystr) : pystr := u "  " ++ dec_nat (S i) ++ u ". " ++ s.
Definition _prompt (question : pystr) (history : list pystr) (index lo hi : nat) : pystr :=
  join [10%N]
    ([u "【推演目标】" ++ question; u "【进度】第 " ++ dec_nat index ++ u " 步（本等级最少 " ++ dec_nat lo ++ u " 步、最多 " ++ dec_nat hi ++ u " 步）"]
     ++ match history with
        | [] => [u "请给出第一步。"]
        | _ => u "【已完成步骤】" :: imap numbered_step history ++ [u "请在此基础上前进一步（不要重复上面的内容）。"]
        end).

(** ** The run *)
Section run.
Context {W : Type} `{PyRepr} `{ExnText}.
(** One call of the model on system and user message (whose content may be
    absent), and the usage it leaves. *)
Context (complete : pystr → pystr → Z → W → result (option pystr) * W) (last_usage : W → option Usage).

Definition over_budget (tracker : option BudgetTracker) : result bool :=
  match tracker with None => Ok false | Some t => v ← tracker_verdict t; Ok (v =s u "over_budget") end.
Definition charge (tracker : option BudgetTracker) (w : W) : option BudgetTracker :=
  match tracker, last_usage w with Some t, Some usage => Some (record t usage) | t, _ => t end.
Definition stopped (tier : pystr) (steps : list pystr) (error : pystr) : Deliberation := mkDeliberation tier steps false false 0 error false.
Definition out_of_budget (tier : pystr) (steps : list pystr) : Deliberation := mkDeliberation tier steps false false 0 (u "budget_exceeded") true.
Definition empty_answer : pystr := u "模型返回空内容（可能是 max_tokens 不足或未按 JSON 格式回复）".

(** How a run ends (or the exception it lets through), the tracker as the run
    leaves it, and the world. *)
Definition run_state : Type := result Deliberation * option BudgetTracker * W.
(** The [turns] of the loop that remain, from turn [index]. *)
Fixpoint run_from (turns index : nat) (question tier : pystr) (max_tokens : Z) (steps : list pystr) (tracker : option BudgetTracker) (w : W) : run_state :=
  let lo := min_steps tier in
  let hi := max_steps tier in
  match turns with
  | O => (Ok (mkDeliberation tier steps false true 0 [] false), tracker, w)
  | S turns =>
    match over_budget tracker with
    | Err e => (Err e, tracker, w)
    | Ok true => (Ok (out_of_budget tier steps), tracker, w)
    | Ok false =>
      match complete _SYSTEM (_prompt question steps index lo hi) max_tokens w with
      | (Err e, w) => (Ok (stopped tier steps (exn_name e ++ u ": " ++ exn_text e)), tracker, w)
      | (Ok content, w) =>
        let tracker := charge tracker w in
        match over_budget tracker with
        | Err e => (Err e, tracker, w)
        | Ok true => (Ok (out_of_budget tier steps), tracker, w)
        | Ok false =>
          match _parse (default [] content) with
          | Err e => (Err e, tracker, w)
          | Ok ([], _) => (Ok (mkDeliberation tier steps false false 1 empty_answer false), tracker, w)
          | Ok (step, more) =>
            let steps := steps ++ [step] in
            if (lo <=? index) && negb more then (Ok (mkDeliberation tier steps true false 0 [] false), tracker, w)
            else run_from turns (S index) question tier max_tokens steps tracker w
          end
        end
      end
    end
  end.
Definition run (question tier : pystr) (max_tokens : Z) (tracker : option BudgetTracker) (w : W) : run_state :=
  run_from (max_steps tier) 1 question tier max_tokens [] tracker w.
End run.

(** What one result of a run promises. *)
Definition ends_well (tier : pystr) (d : Deliberation) : Prop :=
  (db_converged d = true ∧ db_truncated d = false ∧ db_error d = [] ∧ min_steps tier ≤ step_count d)
  ∨ (db_converged d = false ∧ db_truncated d = true ∧ db_error d = [] ∧ step_count d = max_steps tier)
  ∨ (db_converged d = false ∧ db_truncated d = false ∧ db_error d ≠ [] ∧ step_count d < max_steps tier).
Record honest (tier : pystr) (d : Deliberation) : Prop := {
  honest_steps : Forall (λ s, s ≠ []) (db_steps d);
  honest_bound : step_count d ≤ max_steps tier;
  honest_end : ends_well tier d;
  honest_budget : db_budget_exceeded d = true → db_error d = u "budget_exceeded";
  honest_empty : db_empty_responses d = 0 ∨ db_empty_responses d = 1 ∧ db_error d = empty_answer
}.

#[local] Arguments max_steps : simpl never.
#[local] Arguments min_steps : simpl never.
(** The five ways out of the loop are honest. *)
Lemma honest_stop tier steps empty error exceeded :
  Forall (λ s, s ≠ []) steps → length steps < max_steps tier → error ≠ [] →
  (exceeded = true → error = u "budget_exceeded") → (empty = 0 ∨ empty = 1 ∧ error = empty_answer) →
  honest tier (mkDeliberation tier steps false false empty error exceeded).
Proof. intros Hs Hl He Hx Hm. split; unfold ends_well, step_count; cbn; [done|lia|by do 2 right|done|done]. Qed.
Lemma honest_full tier steps : Forall (λ s, s ≠ []) steps → length steps = max_steps tier → honest tier (mkDeliberation tier steps false true 0 [] false).
Proof. intros Hs Hl. split; unfold ends_well, step_count; cbn; [done|lia|right; left; auto|discriminate|auto]. Qed.
Lemma honest_converged tier steps :
  Forall (λ s, s ≠ []) steps → length steps ≤ max_steps tier → min_steps tier ≤ length steps → honest tier (mkDeliberation tier steps true false 0 [] false).
Proof. intros Hs Hl Hm. split; unfold ends_well, step_count; cbn; [done|lia|left; auto|discriminate|auto]. Qed.

Section spec.
Context {W : Type} `{PyRepr} `{ExnText}.
Context (complete : pystr → pystr → Z → W → result (option pystr) * W) (last_usage : W → option Usage) (calls : W → nat).
Hypothesis one_call : ∀ system user n w, calls (complete system user n w).2 = S (calls w).

(** A loop that has [turns] left has taken one step for every turn before: it
    ends as [honest] says, and calls the model at least once for each further
    step and at most once more. *)
Lemma run_from_honest question tier n : ∀ turns index steps tracker w d tracker' w',
  run_from complete last_usage turns index question tier n steps tracker w = (Ok d, tracker', w') →
  index = S (length steps) → length steps + turns = max_steps tier → Forall (λ s, s ≠ []) steps →
  honest tier d ∧ step_count d + calls w ≤ calls w' + length steps ∧ calls w' + length steps ≤ S (step_count d + calls w) ∧ calls w' ≤ calls w + turns.
Proof.
  induction turns as [|turns IH]; intros index steps tracker w d tracker' w'; cbn [run_from]; intros Hrun Hindex Hturns Hsteps.
  { injection Hrun as <- _ <-. split; [apply honest_full; [done|lia]|cbn; unfold step_count; cbn; lia]. }
  destruct (over_budget tracker) as [[]|] eqn:E1; [|clear E1|discriminate].
  { injection Hrun as <- _ <-. split; [apply honest_stop; [done|lia|discriminate|reflexivity|by left]|unfold step_count; cbn; lia]. }
  pose proof (one_call _SYSTEM (_prompt question steps index (min_steps tier) (max_steps tier)) n w) as Hcall.
  destruct (complete _ _ _ _) as [[content|e] w1]; cbn in Hcall.
  2:{ injection Hrun as <- _ <-. split; [apply honest_stop; [done|lia|by destruct (exn_name e)|discriminate|by left]|unfold step_count; cbn; lia]. }
  cbn zeta in Hrun. destruct (over_budget (charge _ _ _)) as [[]|] eqn:E1; [|clear E1|discriminate].
  { injection Hrun as <- _ <-. split; [apply honest_stop; [done|lia|discriminate|reflexivity|by left]|unfold step_count; cbn; lia]. }
  destruct (_parse _) as [[[|c step] more]|] eqn:Eparse; [|clear Eparse|discriminate].
  { injection Hrun as <- _ <-. split; [apply honest_stop; [done|lia|discriminate|discriminate|right; split; reflexivity]|unfold step_count; cbn; lia]. }
  assert (Forall (λ s : pystr, s ≠ []) (steps ++ [c :: step])) as Hsteps' by (apply Forall_app; auto).
  assert (length (steps ++ [c :: step]) = S (length steps)) as Hlen by (rewrite length_app; cbn; lia).
  destruct ((min_steps tier <=? index) && negb more) eqn:Elo; cbv zeta beta in Hrun; rewrite ?Elo in Hrun.
  { apply andb_true_iff in Elo as [Elo _]. injection Hrun as <- _ <-. apply Nat.leb_le in Elo. split; [apply honest_converged; [done|lia..]|unfold step_count; cbn; lia]. }
  destruct (IH _ _ _ _ _ _ _ Hrun) as (?&?&?&?); [lia..|done|split; [done|lia]].
Qed.

(** C36: A deliberation is bounded and says how it ended.  Whatever the model
    answers, a run that returns has at most [MAX_STEPS] steps, none of them
    empty, and is exactly one of: converged, with at least [MIN_STEPS] steps;
    truncated, with [MAX_STEPS]; or stopped by the error it names, with fewer.
    It called the model once for each step and at most once more, and never
    more than [MAX_STEPS] times; with the budget spent at the start it did not
    call it at all. *)
Theorem deliberation_spec question tier n tracker w d tracker' w' :
  run complete last_usage question tier n tracker w = (Ok d, tracker', w') →
  honest tier d
  ∧ step_count d + calls w ≤ calls w' ≤ S (step_count d + calls w)
  ∧ calls w' ≤ max_steps tier + calls w
  ∧ (over_budget tracker = Ok true → d = out_of_budget tier [] ∧ tracker' = tracker ∧ w' = w).
Proof.
  intros Hrun. destruct (run_from_honest _ _ _ _ _ _ _ _ _ _ _ Hrun) as (?&?&?&?); [done|done|constructor|].
  split_and!; [done|cbn in *; lia..|]. intros Hover. unfold run in Hrun.
  destruct (max_steps tier) eqn:Emax; [|cbn in Hrun; rewrite Hover in Hrun; by injection Hrun as <- <- <-].
  exfalso. revert Emax. unfold max_steps, MAX_STEPS. cbn [dget]. by repeat case_match.
Qed.
End spec.

(** Step "a", then "b", then "c", never asking for another: the model is
    called three times, the minimum of L2. *)
Module SequentialSample.
#[export] Instance names : ExnText := {| exn_name _ := u "Exception"; exn_text _ := [] |}.
#[export] Instance repr : PyRepr := λ _, [].
Definition answer (n : nat) : pystr :=
  u "{" ++ [34%N] ++ u "step" ++ [34%N] ++ u ": " ++ [34%N; 97 + N.of_nat n; 34]%N ++ u ", " ++ [34%N] ++ u "next_thought_needed" ++ [34%N] ++ u ": false}".
Definition model (_ _ : pystr) (_ : Z) (n : nat) : result (option pystr) * nat := (Ok (Some (answer n)), S n).
Definition outcome : Deliberation := mkDeliberation (u "L2") [u "a"; u "b"; u "c"] true false 0 [] false.
End SequentialSample.
Import SequentialSample.

Lemma deliberation_spec_witness :
  run model (λ _, None) (u "q") (u "L2") 3000 None 0 = (Ok outcome, None, 3) ∧ honest (u "L2") outcome.
Proof.
  assert (run model (λ _, None) (u "q") (u "L2") 3000 None 0 = (Ok outcome, None, 3)) as E by (vm_compute; reflexivity).
  split; [exact E|]. exact (proj1 (deliberation_spec model (λ _, None) (λ n, n) (λ _ _ _ _, eq_refl) _ _ _ _ _ _ _ _ E)).
Defined.
