(* ===== verification/AgentMirror.v ===== *)
(** * The lifecycle of agents in the event chain ([_AgentLifecycleMirror],
    [src/src/icode/pack_verify.py])

    The mirror replays [agent_spawned] and [agent_result] events against the
    array of spawns in the ticket metadata, keeping only the open calls.
    [materialise] is the specification: the array the events make, as a whole. *)

From S2P Require Import Prelude PyText PyVal Hashing Json JsonParse StrictJson EventSchema.

Definition _AGENT_SPAWN_REQUIRED_FIELDS : list pystr := [
  u "spawn_id"; u "at"; u "task_scope"; u "expected_artifact"; u "evidence_boundary"; u "join_condition";
  u "backend"; u "model"; u "capabilities"].
Definition _AGENT_SPAWN_ALLOWED_FIELDS : list pystr := _AGENT_SPAWN_REQUIRED_FIELDS ++ [u "exclusive_key"].
Definition _AGENT_RESULT_REQUIRED_FIELDS : list pystr := [
  u "spawn_id"; u "result"; u "adopted"; u "adoption_reason"; u "result_at"; u "evidence_refs"; u "summary_digest"].
Definition _AGENT_RESULT_ALLOWED_FIELDS : list pystr := _AGENT_RESULT_REQUIRED_FIELDS ++ [u "error_class"].
Definition _AGENT_CAPABILITIES : list pystr := [u "text"; u "image"; u "tools"; u "reasoning"].
Definition _AGENT_RESULTS : list pystr := [u "joined"; u "timed_out"; u "stopped"; u "failed"].
Definition _AGENT_ADOPTION_VALUES : list pystr := [u "yes"; u "partial"; u "no"].
Definition _MAX_OPEN_AGENT_SPAWNS : nat := 3.

Definition _has_nonempty_text (v : pyval) : bool := str_test (λ s, strip s ≠s []) v.
Definition spawn_text_fields : list pystr := [
  u "spawn_id"; u "at"; u "task_scope"; u "expected_artifact"; u "evidence_boundary"; u "join_condition";
  u "backend"; u "model"].

Definition has_fields (names : list pystr) (d : dict) : bool := forallb (λ k, dhas k d) names.
Definition only_fields (names : list pystr) (d : dict) : bool := forallb (λ k, k ∈s names) (dkeys d).

Definition _valid_spawn_payload (payload : dict) : bool :=
  has_fields _AGENT_SPAWN_REQUIRED_FIELDS payload && only_fields _AGENT_SPAWN_ALLOWED_FIELDS payload
  && forallb (λ k, _has_nonempty_text (pget k payload)) spawn_text_fields
  && match dget (u "exclusive_key") payload with
     | None => true
     | Some v => _has_nonempty_text v && str_test (λ s, length s <=? 80) v
     end
  && match pget (u "capabilities") payload with
     | PyList l =>
       match l, all_strs l with
       | _ :: _, Some caps =>
         (u "text" ∈s caps) && forallb (λ c, c ∈s _AGENT_CAPABILITIES) caps && bool_decide (NoDup caps)
       | _, _ => false
       end
     | _ => false
     end.

Definition _valid_result_payload (payload : dict) : bool :=
  has_fields _AGENT_RESULT_REQUIRED_FIELDS payload && only_fields _AGENT_RESULT_ALLOWED_FIELDS payload
  && _has_nonempty_text (pget (u "spawn_id") payload)
  && str_in (pget (u "result") payload) _AGENT_RESULTS
  && str_in (pget (u "adopted") payload) _AGENT_ADOPTION_VALUES
  && (is_lit (pget (u "result") payload) (u "joined") || is_lit (pget (u "adopted") payload) (u "no"))
  && _has_nonempty_text (pget (u "adoption_reason") payload)
  && _has_nonempty_text (pget (u "result_at") payload)
  && match pget (u "evidence_refs") payload with
     | PyList l => negb (length l =? 0) && forallb _has_nonempty_text l
     | _ => false
     end
  && str_test hex64 (pget (u "summary_digest") payload)
  && match dget (u "error_class") payload with None => true | Some v => _has_nonempty_text v end.

(** ** The mirror *)
Record _AgentLifecycleMirror := mkAgentMirror {
  am_structurally_valid : bool;
  am_records : list dict;
  am_index : nat;
  am_open : list (pystr * (dict * dict));
  am_valid : bool
}.

Fixpoint repeated_spawn_id (seen : list pystr) (records : list dict) : bool :=
  match records with
  | [] => false
  | r :: rest =>
    match pget (u "spawn_id") r with
    | PyStr i => (i ∈s seen) || repeated_spawn_id (i :: seen) rest
    | _ => repeated_spawn_id seen rest
    end
  end.

Definition agent_mirror_new (metadata_records : pyval) : _AgentLifecycleMirror :=
  match metadata_records with
  | PyList l =>
    match all_dicts l with
    | Some records => mkAgentMirror true records 0 [] (negb (repeated_spawn_id [] records))
    | None => mkAgentMirror false [] 0 [] false
    end
  | _ => mkAgentMirror false [] 0 [] false
  end.

Definition invalid (m : _AgentLifecycleMirror) : _AgentLifecycleMirror :=
  mkAgentMirror (am_structurally_valid m) (am_records m) (am_index m) (am_open m) false.
Definition is_lifecycle (event_type : pystr) : bool := event_type ∈s [u "agent_spawned"; u "agent_result"].

Section mirror.
Context `{FloatRepr}.

Definition consume_spawn (record : dict) (m : _AgentLifecycleMirror) : _AgentLifecycleMirror :=
  if negb (_valid_spawn_payload record) then invalid m
  else match pget (u "spawn_id") record with
  | PyStr spawn_id =>
    if _MAX_OPEN_AGENT_SPAWNS <=? length (am_open m) then invalid m
    else match am_records m !! am_index m with
    | None => invalid m
    | Some expected =>
      mkAgentMirror (am_structurally_valid m) (am_records m) (S (am_index m))
        (dset spawn_id (record, expected) (am_open m))
        (am_valid m && is_lit (pget (u "spawn_id") expected) spawn_id)
    end
  | _ => invalid m
  end.

(** [reconstructed.update(...)] *)
Definition closed_record (reconstructed record : dict) : dict := dupdate reconstructed (ddel (u "spawn_id") record).

Definition consume_result (record : dict) (m : _AgentLifecycleMirror) : result _AgentLifecycleMirror :=
  if negb (_valid_result_payload record) then Ok (invalid m)
  else match pget (u "spawn_id") record with
  | PyStr spawn_id =>
    match dget spawn_id (am_open m) with
    | None => Ok (invalid m)
    | Some (reconstructed, expected) =>
      same ← _event_payload_matches_metadata_record (closed_record reconstructed record) expected;
      Ok (mkAgentMirror (am_structurally_valid m) (am_records m) (am_index m) (ddel spawn_id (am_open m))
            (am_valid m && (same : bool)))
    end
  | _ => Ok (invalid m)
  end.

Definition agent_consume (m : _AgentLifecycleMirror) (event : pystr * pyval) : result _AgentLifecycleMirror :=
  if negb (am_structurally_valid m) || negb (is_lifecycle event.1) then Ok m
  else match event.2 with
  | PyDict payload =>
    let record := _event_payload_metadata_record payload in
    if event.1 =s u "agent_spawned" then Ok (consume_spawn record m) else consume_result record m
  | _ => Ok (invalid m)
  end.

Definition agent_finish (m : _AgentLifecycleMirror) : result bool :=
  if negb (am_structurally_valid m) then Ok false
  else
    foldM_res (λ (valid : bool) p,
                 same ← _event_payload_matches_metadata_record p.2.1 p.2.2; Ok (valid && (same : bool)))
      (am_valid m && (am_index m =? length (am_records m))) (am_open m).

(** ** The specification: the array of spawns the events make *)
Definition open_count (rs : list (dict * bool)) : nat := length (filter (λ r, r.2 = true) rs).
Definition opens (spawn_id : pystr) (r : dict * bool) : bool := r.2 && is_lit (pget (u "spawn_id") r.1) spawn_id.

Fixpoint close_first (spawn_id : pystr) (record : dict) (rs : list (dict * bool)) : option (list (dict * bool)) :=
  match rs with
  | [] => None
  | r :: rest =>
    if opens spawn_id r then Some ((closed_record r.1 record, false) :: rest)
    else match close_first spawn_id record rest with Some rest' => Some (r :: rest') | None => None end
  end.

Definition materialise_step (rs : list (dict * bool)) (event : pystr * pyval) : option (list (dict * bool)) :=
  if negb (is_lifecycle event.1) then Some rs
  else match event.2 with
  | PyDict payload =>
    let record := ddel (u "metadata_hash_after") payload in
    if event.1 =s u "agent_spawned" then
      if _valid_spawn_payload record && (open_count rs <? _MAX_OPEN_AGENT_SPAWNS) then Some (rs ++ [(record, true)])
      else None
    else if _valid_result_payload record then
      match pget (u "spawn_id") record with PyStr i => close_first i record rs | _ => None end
    else None
  | _ => None
  end.
Fixpoint materialise (rs : list (dict * bool)) (events : list (pystr * pyval)) : option (list (dict * bool)) :=
  match events with
  | [] => Some rs
  | e :: rest => match materialise_step rs e with Some rs' => materialise rs' rest | None => None end
  end.

(** A materialised record is the metadata record at its place. *)
Definition named_as (r e : dict) : Prop := ∃ i, pget (u "spawn_id") r = PyStr i ∧ pget (u "spawn_id") e = PyStr i.
Definition written_as (r e : dict) : Prop := _event_payload_matches_metadata_record r e = Ok true.

Definition good (ds : list dict) (rs : list (dict * bool)) : Prop :=
  ∀ j r b, rs !! j = Some (r, b) → ∃ e, ds !! j = Some e ∧ named_as r e ∧ (b = false → written_as r e).

Record link (ds : list dict) (m : _AgentLifecycleMirror) (rs : list (dict * bool)) : Prop := mkLink {
  lk_valid : am_structurally_valid m = true;
  lk_records : am_records m = ds;
  lk_index : am_index m = length rs;
  lk_nodup : NoDup (dkeys (am_open m));
  lk_open : ∀ i r e, dget i (am_open m) = Some (r, e) ↔
            ∃ j, rs !! j = Some (r, true) ∧ ds !! j = Some e ∧ pget (u "spawn_id") r = PyStr i;
  lk_count : length (am_open m) = open_count rs
}.

Lemma repeated_spawn_id_spec seen ds :
  repeated_spawn_id seen ds = false →
  (∀ j e i, ds !! j = Some e → pget (u "spawn_id") e = PyStr i → i ∉ seen) ∧
  (∀ j k e e' i, ds !! j = Some e → ds !! k = Some e' → pget (u "spawn_id") e = PyStr i →
     pget (u "spawn_id") e' = PyStr i → j = k).
Proof.
  revert seen. induction ds as [|d ds IH]; intros seen; cbn [repeated_spawn_id]; [by intros _; split|].
  assert (Hnot : ∀ seen', repeated_spawn_id seen' ds = false →
            (∀ i, pget (u "spawn_id") d = PyStr i → i ∈ seen' ∧ i ∉ seen) → (∀ i, i ∈ seen → i ∈ seen') →
            (∀ j e i, (d :: ds) !! j = Some e → pget (u "spawn_id") e = PyStr i → i ∉ seen) ∧
            (∀ j k e e' i, (d :: ds) !! j = Some e → (d :: ds) !! k = Some e' → pget (u "spawn_id") e = PyStr i →
               pget (u "spawn_id") e' = PyStr i → j = k)).
  { intros seen' Hr Hd Hsub. destruct (IH _ Hr) as [H1 H2]. split.
    - intros [|j] e i He Hi; cbn in He; [injection He as <-; by apply Hd|].
      intros Hin. exact (H1 j e i He Hi (Hsub _ Hin)).
    - intros [|j] [|k] e e' i He He' Hi Hi'; cbn in He, He'; [done| | |f_equal; by eapply H2].
      + injection He as <-. destruct (Hd i Hi) as [Hin _]. by destruct (H1 k e' i He' Hi').
      + injection He' as <-. destruct (Hd i Hi') as [Hin _]. by destruct (H1 j e i He Hi). }
  destruct (pget (u "spawn_id") d) as [| | | |i| | | |] eqn:Ed.
  5: { intros [Hi Hr]%orb_false_iff. apply bool_decide_eq_false in Hi. apply (Hnot _ Hr).
       - intros i' [= <-]. split; [by left|done].
       - intros i' Hi'. by right. }
  all: intros Hr; apply (Hnot _ Hr); [by intros|done].
Qed.

Lemma closed_record_id r record : pget (u "spawn_id") (closed_record r record) = pget (u "spawn_id") r.
Proof.
  unfold closed_record, dupdate.
  assert (Hk : Forall (λ p : pystr * pyval, p.1 ≠ u "spawn_id") (ddel (u "spawn_id") record)).
  { apply Forall_forall. intros p Hp. by apply elem_ddel in Hp as [_ Hp]. }
  revert r. induction Hk as [|[k v] l Hk _ IH]; intros r; [done|]. cbn [foldl]. rewrite IH. cbn [fst snd] in *.
  apply pget_dset_ne. congruence.
Qed.

Lemma opens_iff i r b : opens i (r, b) = true ↔ b = true ∧ pget (u "spawn_id") r = PyStr i.
Proof. unfold opens. cbn. by rewrite andb_true_iff, is_lit_iff. Qed.

Lemma close_first_spec i record rs :
  match close_first i record rs with
  | Some rs1 => ∃ j r, rs !! j = Some (r, true) ∧ pget (u "spawn_id") r = PyStr i ∧
                       rs1 = <[j := (closed_record r record, false)]> rs
  | None => ∀ j r, rs !! j = Some (r, true) → pget (u "spawn_id") r ≠ PyStr i
  end.
Proof.
  induction rs as [|[r b] rs IH]; cbn [close_first]; [done|].
  destruct (opens i (r, b)) eqn:E.
  - apply opens_iff in E as [-> E]. exists 0, r. done.
  - destruct (close_first i record rs) as [rs'|].
    + destruct IH as (j & r' & Hj & Hr' & ->). by exists (S j), r'.
    + intros [|j] r' Hj Hr'; [|by eapply IH]. cbn in Hj. injection Hj as -> ->.
      assert (opens i (r', true) = true) by by apply opens_iff. congruence.
Qed.

Lemma open_count_cons r b rs : open_count ((r, b) :: rs) = if b then S (open_count rs) else open_count rs.
Proof. unfold open_count. rewrite filter_cons. by destruct b. Qed.
Lemma open_count_snoc rs r : open_count (rs ++ [(r, true)]) = S (open_count rs).
Proof. unfold open_count. rewrite filter_app, length_app. change (filter (λ r : dict * bool, r.2 = true) [(r, true)]) with [(r, true)]. cbn. lia. Qed.

Lemma open_count_insert rs j r x :
  rs !! j = Some (r, true) → open_count rs = S (open_count (<[j := (x, false)]> rs)).
Proof.
  revert j. induction rs as [|[r' b] rs IH]; intros [|j] Hj; cbn in Hj; try done.
  - injection Hj as -> ->. cbn [insert list_insert]. by rewrite !open_count_cons.
  - specialize (IH j Hj). cbn [insert list_insert] in *. rewrite !open_count_cons, IH. by destruct b.
Qed.

Lemma valid_spawn_id record : _valid_spawn_payload record = true → ∃ i, pget (u "spawn_id") record = PyStr i.
Proof.
  unfold _valid_spawn_payload. rewrite !andb_true_iff. intros [[[_ Hf] _] _].
  apply forallb_Forall in Hf. inversion Hf as [|? ? H0 _]. apply str_test_iff in H0 as (i & Hi & _). by exists i.
Qed.
Lemma valid_result_id record : _valid_result_payload record = true → ∃ i, pget (u "spawn_id") record = PyStr i.
Proof.
  unfold _valid_result_payload. rewrite !andb_true_iff. intros [[[[[[[[[[_ _] Hf] _] _] _] _] _] _] _] _].
  apply str_test_iff in Hf as (i & Hi & _). by exists i.
Qed.

(** What one step of the mirror means for the array, while all is well. *)
Definition step_agrees (ds : list dict) (o : option (list (dict * bool))) (m1 : _AgentLifecycleMirror) : Prop :=
  match o with
  | Some rs1 => (am_valid m1 = true ↔ good ds rs1) ∧ (good ds rs1 → link ds m1 rs1)
  | None => am_valid m1 = false
  end.

Lemma good_snoc ds rs r :
  good ds rs → good ds (rs ++ [(r, true)]) ↔ ∃ e, ds !! length rs = Some e ∧ named_as r e.
Proof.
  intros Hg. split.
  - intros Hg1. destruct (Hg1 (length rs) r true) as (e & He & Hn & _); [by rewrite list_lookup_middle|]. by exists e.
  - intros (e & He & Hn) j r' b [[_ Hj]|[-> [= <- <-]]]%lookup_snoc_Some; [by apply Hg|]. by exists e.
Qed.

Lemma spawn_agrees ds rs m record :
  repeated_spawn_id [] ds = false → good ds rs → link ds m rs → am_valid m = true →
  step_agrees ds (if _valid_spawn_payload record && (open_count rs <? _MAX_OPEN_AGENT_SPAWNS)
                  then Some (rs ++ [(record, true)]) else None) (consume_spawn record m).
Proof.
  intros Hrep Hg [L1 L2 L3 L4 L5 L6] Hv. unfold consume_spawn. rewrite L6.
  destruct (_valid_spawn_payload record) eqn:Ep; cbn [negb andb]; [|done].
  destruct (valid_spawn_id _ Ep) as (i & Hi). rewrite Hi.
  destruct (Nat.leb_spec _MAX_OPEN_AGENT_SPAWNS (open_count rs)) as [Hle|Hlt];
    destruct (Nat.ltb_spec (open_count rs) _MAX_OPEN_AGENT_SPAWNS); try lia; [done|].
  rewrite L2, L3. cbn [step_agrees]. rewrite good_snoc by done.
  destruct (ds !! length rs) as [e|] eqn:Ee.
  2: { split; [split; [done|by intros (e & [=] & _)]|by intros (e & [=] & _)]. }
  assert (Hiff : is_lit (pget (u "spawn_id") e) i = true ↔ ∃ e', Some e = Some e' ∧ named_as record e').
  { rewrite is_lit_iff. unfold named_as. rewrite Hi. split; [by intros ?; exists e; split; [|exists i]|].
    intros (e' & [= <-] & j & [= <-] & Hj). done. }
  split; [cbn [am_valid]; by rewrite Hv, <- Hiff|]. rewrite <- Hiff. intros Hl%is_lit_iff.
  assert (Hfresh : dget i (am_open m) = None).
  { destruct (dget i (am_open m)) as [[r e']|] eqn:Eo; [|done]. apply L5 in Eo as (j & Hj & He' & Hr).
    destruct (Hg j r true Hj) as (e'' & He'' & (i' & Hi' & Hi'') & _).
    assert (j = length rs) as ->.
    { eapply (repeated_spawn_id_spec [] ds Hrep); [exact He''|exact Ee| |exact Hl]. congruence. }
    apply lookup_lt_Some in Hj. lia. }
  rewrite (dset_fresh i (record, e)) by done. split; cbn.
  - done.
  - done.
  - rewrite length_app. cbn. lia.
  - unfold dkeys. rewrite fmap_app. apply NoDup_app. split; [done|]. split; [|apply NoDup_singleton].
    intros k Hk ->%list_elem_of_singleton. by apply dget_None in Hfresh.
  - intros i' r e'. rewrite <- (dset_fresh i (record, e)) by done. destruct (decide (i' = i)) as [->|Hne].
    + rewrite dget_dset_eq. split.
      * intros [= <- <-]. exists (length rs). by rewrite list_lookup_middle.
      * intros (j & [[_ Hj]|[-> [= <-]]]%lookup_snoc_Some & He' & Hr); [|congruence].
        assert (dget i (am_open m) = Some (r, e')) by (apply L5; by exists j). congruence.
    + rewrite dget_dset_ne, L5 by done. split.
      * intros (j & Hj & He' & Hr). exists j. split; [|done]. by apply lookup_app_l_Some.
      * intros (j & [[_ Hj]|[-> [= <-]]]%lookup_snoc_Some & He' & Hr); [by exists j|congruence].
  - rewrite length_app, open_count_snoc. cbn. lia.
Qed.

Lemma ddel_length {V} k (d : list (pystr * V)) v :
  NoDup (dkeys d) → dget k d = Some v → length d = S (length (ddel k d)).
Proof.
  induction d as [|[k' v'] d IH]; cbn; [done|]. intros [Hni Hnd]%NoDup_cons.
  destruct (decide (k = k')) as [->|Hne]; [|intros Hg; cbn; by rewrite (IH Hnd Hg) at 1].
  intros _. f_equal. clear IH. induction d as [|[k v0] d IH]; [done|]. cbn in *.
  destruct (decide (k' = k)) as [->|]; [by destruct Hni; left|]. cbn. rewrite <- IH; [done| |by inversion Hnd].
  intros Hin. apply Hni. by right.
Qed.

Lemma good_close ds rs j r e record :
  good ds rs → rs !! j = Some (r, true) → ds !! j = Some e →
  good ds (<[j := (closed_record r record, false)]> rs) ↔ written_as (closed_record r record) e.
Proof.
  intros Hg Hj He. pose proof (lookup_lt_Some _ _ _ Hj) as Hlt. split.
  - intros Hg1. destruct (Hg1 j (closed_record r record) false) as (e' & He' & _ & Hw).
    { by apply list_lookup_insert_eq. } assert (e' = e) as -> by congruence. by apply Hw.
  - intros Hw k r' b Hk. destruct (decide (k = j)) as [->|Hne].
    + rewrite list_lookup_insert_eq in Hk by done. injection Hk as <- <-. exists e. split; [done|]. split; [|done].
      destruct (Hg j r true Hj) as (e' & He' & (i & Hi & Hi') & _). assert (e' = e) as -> by congruence.
      exists i. by rewrite closed_record_id.
    + rewrite list_lookup_insert_ne in Hk by done. by apply Hg.
Qed.

Lemma result_agrees ds rs m record m1 :
  repeated_spawn_id [] ds = false → good ds rs → link ds m rs → am_valid m = true →
  consume_result record m = Ok m1 →
  step_agrees ds (if _valid_result_payload record
                  then match pget (u "spawn_id") record with PyStr i => close_first i record rs | _ => None end else None) m1.
Proof.
  intros Hrep Hg [L1 L2 L3 L4 L5 L6] Hv. unfold consume_result.
  destruct (_valid_result_payload record) eqn:Ep; cbn [negb]; [|by intros [= <-]].
  destruct (valid_result_id _ Ep) as (i & Hi). rewrite Hi. pose proof (close_first_spec i record rs) as Hc.
  destruct (dget i (am_open m)) as [[r e]|] eqn:Eo.
  - apply L5 in Eo as (j & Hj & He & Hr).
    destruct (close_first i record rs) as [rs1|]; [|by destruct (Hc j r)].
    destruct Hc as (j' & r' & Hj' & Hr' & ->).
    assert (j' = j) as ->.
    { destruct (Hg j' r' true Hj') as (e' & He' & (i1 & H1 & H2) & _).
      destruct (Hg j r true Hj) as (e'' & He'' & (i2 & H3 & H4) & _).
      eapply (repeated_spawn_id_spec [] ds Hrep); [exact He'|exact He''|exact H2|]. congruence. }
    assert (r' = r) as -> by congruence.
    intros (same & Hs & [= <-])%bind_ok. cbn [step_agrees am_valid]. rewrite (good_close ds rs j r e) by done.
    assert (same = true ↔ written_as (closed_record r record) e) as Hw.
    { unfold written_as. rewrite Hs. split; congruence. }
    rewrite Hv, <- Hw. split; [done|]. intros _. pose proof (lookup_lt_Some _ _ _ Hj) as Hlt.
    assert (Hopen : ∀ i' r0 e0, dget i' (ddel i (am_open m)) = Some (r0, e0) ↔
              ∃ k, <[j := (closed_record r record, false)]> rs !! k = Some (r0, true) ∧ ds !! k = Some e0 ∧
                   pget (u "spawn_id") r0 = PyStr i').
    { intros i' r0 e0. destruct (decide (i' = i)) as [->|Hne].
      - rewrite dget_ddel_eq. split; [done|]. intros (k & Hk & Hek & Hrk). exfalso.
        assert (k ≠ j) as Hkj by (intros ->; rewrite list_lookup_insert_eq in Hk by done; congruence).
        rewrite list_lookup_insert_ne in Hk by done. apply Hkj.
        destruct (Hg k r0 true Hk) as (e' & He' & (i1 & H1 & H2) & _).
        destruct (Hg j r true Hj) as (e'' & He'' & (i2 & H3 & H4) & _).
        eapply (repeated_spawn_id_spec [] ds Hrep); [exact He'|exact He''|exact H2|]. congruence.
      - rewrite dget_ddel_ne, L5 by done. split.
        + intros (k & Hk & Hek & Hrk). exists k. rewrite list_lookup_insert_ne; [done|]. intros ->. congruence.
        + intros (k & Hk & Hek & Hrk). exists k.
          assert (k ≠ j) as Hkj by (intros ->; rewrite list_lookup_insert_eq in Hk by done; congruence).
          by rewrite list_lookup_insert_ne in Hk by done. }
    split; cbn; [done|done|by rewrite length_insert|by apply ddel_NoDup|exact Hopen|].
    assert (Hd : dget i (am_open m) = Some (r, e)) by (apply L5; by exists j).
    pose proof (ddel_length i (am_open m) (r, e) L4 Hd) as Hlen.
    pose proof (open_count_insert rs j r (closed_record r record) Hj). lia.
  - intros [= <-]. destruct (close_first i record rs) as [rs1|]; [|done].
    destruct Hc as (j & r & Hj & Hr & ->). exfalso.
    destruct (Hg j r true Hj) as (e & He & _). assert (dget i (am_open m) = Some (r, e)) by (apply L5; by exists j).
    congruence.
Qed.

Lemma consume_invalid m e m1 : agent_consume m e = Ok m1 → am_valid m = false → am_valid m1 = false.
Proof.
  unfold agent_consume, consume_spawn, consume_result. intros Hc Hv. revert Hc.
  destruct (negb (am_structurally_valid m) || negb (is_lifecycle e.1)); [congruence|].
  destruct e.2; try by intros [= <-].
  case_bool_decide.
  - intros [= <-]. repeat case_match; cbn; rewrite ?Hv; done.
  - case_match; [by intros [= <-]|]. case_match; try by intros [= <-].
    destruct (dget _ (am_open m)) as [[r ex]|]; [|by intros [= <-]].
    intros (same & _ & [= <-])%bind_ok. cbn. by rewrite Hv.
Qed.
Lemma consume_all_invalid es m m1 : foldM_res agent_consume m es = Ok m1 → am_valid m = false → am_valid m1 = false.
Proof.
  revert m. induction es as [|e es IH]; intros m; cbn [foldM_res]; [congruence|].
  intros (m' & He & Hes)%bind_ok Hv. eapply IH; [exact Hes|]. by eapply consume_invalid.
Qed.

Lemma consume_agrees ds rs m e m1 :
  repeated_spawn_id [] ds = false → good ds rs → link ds m rs → am_valid m = true →
  agent_consume m e = Ok m1 → step_agrees ds (materialise_step rs e) m1.
Proof.
  intros Hrep Hg Hl Hv. unfold agent_consume, materialise_step. rewrite (lk_valid _ _ _ Hl). cbn [negb orb].
  destruct (is_lifecycle e.1); cbn [negb]; [|by intros [= <-]].
  destruct e.2; try by intros [= <-]. case_bool_decide.
  - intros [= <-]. by apply spawn_agrees.
  - by apply result_agrees.
Qed.

(** What is not good stays not good, and no event undoes it. *)
Lemma materialise_good_back ds rs es rs' : materialise rs es = Some rs' → good ds rs' → good ds rs.
Proof.
  revert rs. induction es as [|e es IH]; intros rs; cbn [materialise]; [by intros [= ->]|].
  destruct (materialise_step rs e) as [rs1|] eqn:E; [|done]. intros Hm Hg. specialize (IH _ Hm Hg). clear Hm Hg.
  revert E. unfold materialise_step. destruct (is_lifecycle e.1); cbn [negb]; [|by intros [= ->]].
  destruct e.2; try done. case_bool_decide.
  - case_match; [|done]. intros [= <-]. intros j r b Hj. apply (IH j). by apply lookup_app_l_Some.
  - case_match; [|done]. case_match; try done. intros Hc.
    pose proof (close_first_spec s (ddel (u "metadata_hash_after") d) rs) as Hs. rewrite Hc in Hs.
    destruct Hs as (j & r & Hj & Hr & ->). pose proof (lookup_lt_Some _ _ _ Hj). intros k r' b Hk.
    destruct (decide (k = j)) as [->|Hne].
    + destruct (IH j (closed_record r (ddel (u "metadata_hash_after") d)) false) as (e' & He' & (i & Hi & Hi') & _).
      { by apply list_lookup_insert_eq. }
      exists e'. assert (b = true ∧ r' = r) as [-> ->] by (split; congruence).
      split; [done|]. split; [|done]. exists i. by rewrite closed_record_id in Hi.
    + apply (IH k). by rewrite list_lookup_insert_ne.
Qed.

Lemma consume_all_agrees ds es rs m m' :
  repeated_spawn_id [] ds = false → good ds rs → link ds m rs → am_valid m = true →
  foldM_res agent_consume m es = Ok m' →
  step_agrees ds (materialise rs es) m'.
Proof.
  intros Hrep. revert rs m. induction es as [|e es IH]; intros rs m Hg Hl Hv; cbn [foldM_res materialise].
  { intros [= <-]. done. }
  intros (m1 & He & Hes)%bind_ok. pose proof (consume_agrees _ _ _ _ _ Hrep Hg Hl Hv He) as Hs.
  destruct (materialise_step rs e) as [rs1|]; cbn [step_agrees] in Hs.
  - destruct Hs as [Hs1 Hs2]. destruct (am_valid m1) eqn:Ev1.
    + apply (IH rs1 m1); [by apply Hs1|by apply Hs2, Hs1|done|done].
    + assert (am_valid m' = false) as Hv' by (by eapply consume_all_invalid).
      destruct (materialise rs1 es) as [rs'|] eqn:Em; cbn [step_agrees]; [|done]. rewrite Hv'.
      assert (¬ good ds rs') as Hng.
      { intros Hg'. assert (false = true); [|done]. apply Hs1. by eapply materialise_good_back. }
      split; [split; [done|by intros]|by intros].
  - by eapply consume_all_invalid.
Qed.

Lemma finish_spec (os : list (pystr * (dict * dict))) v b :
  foldM_res (λ (valid : bool) p,
               same ← _event_payload_matches_metadata_record p.2.1 p.2.2; Ok (valid && (same : bool))) v os = Ok b →
  b = true ↔ v = true ∧ Forall (λ p, written_as p.2.1 p.2.2) os.
Proof.
  revert v. induction os as [|p os IH]; intros v; cbn [foldM_res].
  { intros [= ->]. split; [intros ->; done|by intros []]. }
  intros (v1 & (same & Hs & [= <-])%bind_ok & Hf)%bind_ok. rewrite (IH _ Hf), Forall_cons, andb_true_iff.
  assert (same = true ↔ written_as p.2.1 p.2.2) by (unfold written_as; rewrite Hs; split; congruence). tauto.
Qed.

Lemma good_nil ds : good ds [].
Proof. intros j r b Hj. by rewrite lookup_nil in Hj. Qed.

(** The mirror accepts a chain of events exactly when the metadata array names
    its spawns once each and is, record for record, the array the events make. *)
Theorem agent_mirror_iff ds es m b :
  foldM_res agent_consume (agent_mirror_new (PyList (PyDict <$> ds))) es = Ok m → agent_finish m = Ok b →
  b = true ↔
    repeated_spawn_id [] ds = false ∧
    ∃ rs, materialise [] es = Some rs ∧ Forall2 (λ r e, named_as r.1 e ∧ written_as r.1 e) rs ds.
Proof.
  assert (Hall : all_dicts (PyDict <$> ds) = Some ds).
  { induction ds as [|d ds IH]; [done|]. rewrite fmap_cons. cbn [all_dicts]. by rewrite IH. }
  unfold agent_mirror_new. rewrite Hall. intros Hm.
  assert (Hst : ∀ m0, am_structurally_valid m0 = true → am_records m0 = ds → foldM_res agent_consume m0 es = Ok m →
                am_structurally_valid m = true ∧ am_records m = ds).
  { clear. induction es as [|e es IH]; intros m0 H1 H2; cbn [foldM_res]; [by intros [= <-]|].
    intros (m1 & He & Hes)%bind_ok. revert He. unfold agent_consume, consume_spawn, consume_result. rewrite H1. cbn [negb orb].
    intros He. eapply (IH m1); [| |exact Hes]; revert He; repeat (case_match; try (by intros [= <-])).
    all: try by intros (same & _ & [= <-])%bind_ok. }
  destruct (λ H1 H2, Hst _ H1 H2 Hm) as [Hsv Hrec]; [done|done|]. clear Hst Hall.
  unfold agent_finish. rewrite Hsv, Hrec. cbn [negb]. intros Hf. rewrite (finish_spec _ _ _ Hf), andb_true_iff, Nat.eqb_eq. clear Hf b.
  destruct (repeated_spawn_id [] ds) eqn:Er.
  { split; [|by intros []]. intros [[Hv _] _].
    by rewrite (consume_all_invalid _ _ _ Hm) in Hv. }
  pose proof (consume_all_agrees ds es [] _ _ Er (good_nil ds) (mkLink ds (mkAgentMirror true ds 0 [] true) [] eq_refl eq_refl
    eq_refl (NoDup_nil_2) ltac:(intros; split; [done|intros (j & Hj & _); by rewrite lookup_nil in Hj]) eq_refl) eq_refl Hm) as Ha.
  destruct (materialise [] es) as [rs|]; cbn [step_agrees] in Ha.
  2: { rewrite Ha. split; [by intros [[] _]|by intros (_ & rs & [=] & _)]. }
  destruct Ha as [Hv Hl]. rewrite Hv. split.
  - intros [[Hg Hi] Hw]. specialize (Hl Hg) as [L1 L2 L3 L4 L5 L6]. split; [done|]. exists rs. split; [done|].
    apply Forall2_same_length_lookup. split; [lia|]. intros j [r b] e Hj He.
    destruct (Hg j r b Hj) as (e' & He' & Hn & Hc). assert (e' = e) as -> by congruence. split; [done|]. cbn [fst].
    destruct b; [|by apply Hc]. destruct Hn as (i & Hi' & _).
    assert (dget i (am_open m) = Some (r, e)) as Hd by (apply L5; by exists j).
    apply dget_Some_elem in Hd. rewrite Forall_forall in Hw. exact (Hw _ Hd).
  - intros (_ & rs' & [= <-] & Hf). pose proof (Forall2_length _ _ _ Hf) as Hlen.
    apply Forall2_same_length_lookup in Hf as [_ Hf].
    assert (Hg : good ds rs).
    { intros j r b Hj. destruct (lookup_lt_is_Some_2 ds j) as [e He].
      { apply lookup_lt_Some in Hj. lia. }
      destruct (Hf j (r, b) e Hj He) as [Hn Hw]. by exists e. }
    specialize (Hl Hg) as [L1 L2 L3 L4 L5 L6]. split; [split; [done|lia]|]. apply Forall_forall.
    intros [i [r e]] Hin. cbn [fst snd]. apply elem_dget in Hin; [|done]. apply L5 in Hin as (j & Hj & He & _).
    by destruct (Hf j (r, true) e Hj He).
Qed.
End mirror.

(** ** A spawn and its result *)
Module Sample.
#[export] Instance no_floats : FloatRepr := λ _, [].
Definition text (k : string) (v : string) : pystr * pyval := (u k, PyStr (u v)).
Definition spawned : dict := [
  text "spawn_id" "s1"; text "at" "t0"; text "task_scope" "scan"; text "expected_artifact" "a.md";
  text "evidence_boundary" "b"; text "join_condition" "j"; text "backend" "fake"; text "model" "m";
  (u "capabilities", PyList [PyStr (u "text")]); text "metadata_hash_after" "h1"].
Definition finished : dict := [
  text "spawn_id" "s1"; text "result" "joined"; text "adopted" "yes"; text "adoption_reason" "ok";
  text "result_at" "t1"; (u "evidence_refs", PyList [PyStr (u "a.md")]); (u "summary_digest", PyStr GENESIS_HASH)].
Definition stored : dict := closed_record (_event_payload_metadata_record spawned) finished.
Definition events : list (pystr * pyval) :=
  [(u "agent_spawned", PyDict spawned); (u "step_started", PyNone); (u "agent_result", PyDict finished)].

Definition replayed : _AgentLifecycleMirror :=
  match foldM_res agent_consume (agent_mirror_new (PyList (PyDict <$> [stored]))) events with
  | Ok m => m | Err _ => agent_mirror_new PyNone
  end.
End Sample.

Lemma agent_mirror_iff_witness :
  foldM_res (agent_consume (H := Sample.no_floats)) (agent_mirror_new (PyList (PyDict <$> [Sample.stored]))) Sample.events
  = Ok Sample.replayed ∧
  agent_finish (H := Sample.no_floats) Sample.replayed = Ok true ∧
  (true = true ↔
    repeated_spawn_id [] [Sample.stored] = false ∧
    ∃ rs, materialise [] Sample.events = Some rs ∧
          Forall2 (λ r e, named_as r.1 e ∧ written_as (H := Sample.no_floats) r.1 e) rs [Sample.stored]).
Proof.
  split; [vm_compute; reflexivity|]. split; [vm_compute; reflexivity|].
  apply (agent_mirror_iff (H := Sample.no_floats) [Sample.stored] Sample.events Sample.replayed true).
  - vm_compute. reflexivity.
  - vm_compute. reflexivity.
Defined.
