(* ===== verification/TicketMirror.v ===== *)
(** * Ticket states in the event chain ([_TicketStateMirror],
    [src/src/icode/pack_verify.py])

    The state machine of the contracts in its normal form, and the mirror that
    replays the chain against it.  The mirror goes on after a problem and
    reports all of them; [ticket_step] is the state machine it checks, in which
    a wrong event has no step. *)

From S2P Require Import Prelude PyText PyVal Problems EventSchema.

Definition _MAX_TICKET_STATES : nat := 256.
Definition _MAX_TICKET_TRANSITIONS : N := 4096.
Definition _MAX_CLOSE_PHASES : nat := 64.
Definition _DELIVERY_VERDICTS : list pystr := [u "verified"; u "verification_pending"; u "blocked"; u "not_applicable"].
Definition _TICKET_INITIAL_STATES : list (pystr * pystr) := [
  (u "init", u "init_in_progress"); (u "plan", u "init_in_progress"); (u "log", u "log_in_progress");
  (u "debug-init", u "debug_in_progress"); (u "debug-log", u "debug_in_progress")].

(** ** The normal form of a state machine *)
Record state_machine := mkMachine {
  sm_states : list pystr;
  sm_transitions : list (pystr * pystr);
  sm_close_phases : list pystr
}.

(** Distinct non-empty names of bounded length, in bounded number. *)
Definition bounded_names (max_len lo hi : nat) (v : pyval) : option (list pystr) :=
  match v with
  | PyList l =>
    match all_strs l with
    | Some names =>
      if (lo <=? length names) && (length names <=? hi)
         && forallb (λ s : pystr, (1 <=? length s) && (length s <=? max_len)) names && bool_decide (NoDup names)
      then Some names else None
    | None => None
    end
  | _ => None
  end.

Definition normalize_transition (states : list pystr) (v : pyval) : result (pystr * pystr) :=
  match v with
  | PyDict t =>
    match pget (u "from") t, pget (u "to") t with
    | PyStr source, PyStr target =>
      if (source ∈s states) && (target ∈s states) then Ok (source, target)
      else Err (ValueError "state_machine.transitions 引用未知状态")
    | _, _ => Err (ValueError "state_machine.transitions 引用未知状态")
    end
  | _ => Err (ValueError "state_machine.transitions 项必须是对象")
  end.

Definition _normalize_ticket_state_machine (value : pyval) : result state_machine :=
  match value with
  | PyDict d =>
    match bounded_names 128 1 _MAX_TICKET_STATES (pget (u "states") d) with
    | None => Err (ValueError "state_machine.states 结构无效")
    | Some states =>
      match pget (u "transitions") d with
      | PyList ts =>
        if (_MAX_TICKET_TRANSITIONS <? N.of_nat (length ts))%N
        then Err (ValueError "state_machine.transitions 结构无效")
        else
          transitions ← mapM_res (normalize_transition states) ts;
          match bounded_names 128 1 _MAX_CLOSE_PHASES (pget (u "close_phases") d) with
          | Some phases =>
            if bool_decide (last phases = Some (u "closed")) then Ok (mkMachine states transitions phases)
            else Err (ValueError "state_machine.close_phases 结构无效")
          | None => Err (ValueError "state_machine.close_phases 结构无效")
          end
      | _ => Err (ValueError "state_machine.transitions 结构无效")
      end
    end
  | _ => Err (ValueError "state_machine 必须是对象")
  end.

(** The dictionary the source returns. *)
Definition machine_value (m : state_machine) : pyval :=
  PyDict [(u "states", PyList (PyStr <$> sm_states m));
          (u "transitions", PyList ((λ t, PyDict [(u "from", PyStr t.1); (u "to", PyStr t.2)]) <$> sm_transitions m));
          (u "close_phases", PyList (PyStr <$> sm_close_phases m))].

(** ** The mirror *)
Record _TicketStateMirror := mkTicketMirror {
  tm_enabled : bool;
  tm_metadata : dict;
  tm_problems : _ProblemCollector;
  tm_current : option pystr;
  tm_close : option pystr;
  tm_births : nat;
  tm_migrations : nat;
  tm_machine : option state_machine
}.

(** [None] stands for the source's sentinel of an argument not given. *)
Definition ticket_mirror_new (machine : option pyval) (metadata : pyval) : _TicketStateMirror :=
  let meta := match metadata with PyDict d => d | _ => [] end in
  let enabled := is_dict metadata && bool_decide (as_exact_int (pget (u "schema_version") meta) = Some 3%Z)
                 && match machine with None | Some PyNone => false | Some _ => true end in
  let make problems m := mkTicketMirror enabled meta problems None None 0 0 m in
  match enabled, machine with
  | true, Some v =>
    match _normalize_ticket_state_machine v with
    | Ok m => make collector_new (Some m)
    | Err _ => make (append_problem (u "contracts.json state_machine 结构无效") collector_new) None
    end
  | _, _ => make collector_new None
  end.

Definition note (bad : bool) (message : pystr) (m : _TicketStateMirror) : _TicketStateMirror :=
  if bad then mkTicketMirror (tm_enabled m) (tm_metadata m) (append_problem message (tm_problems m)) (tm_current m)
                (tm_close m) (tm_births m) (tm_migrations m) (tm_machine m)
  else m.
Definition set_current (s : option pystr) (m : _TicketStateMirror) : _TicketStateMirror :=
  mkTicketMirror (tm_enabled m) (tm_metadata m) (tm_problems m) s (tm_close m) (tm_births m) (tm_migrations m) (tm_machine m).
Definition set_close (s : option pystr) (m : _TicketStateMirror) : _TicketStateMirror :=
  mkTicketMirror (tm_enabled m) (tm_metadata m) (tm_problems m) (tm_current m) s (tm_births m) (tm_migrations m) (tm_machine m).
Definition count_origin (births migrations : nat) (m : _TicketStateMirror) : _TicketStateMirror :=
  mkTicketMirror (tm_enabled m) (tm_metadata m) (tm_problems m) (tm_current m) (tm_close m) (tm_births m + births)
    (tm_migrations m + migrations) (tm_machine m).

Definition nth_event (i : nat) (rest : string) : pystr := u "第 " ++ dec_nat i ++ u " 条" ++ u rest.
(** [v == s] for an optional [str]. *)
Definition is_opt (v : pyval) (o : option pystr) : bool :=
  match o with None => match v with PyNone => true | _ => false end | Some s => is_lit v s end.

Definition two_origins : pystr := u "事件链同时含 ticket_created 与 migration_applied，工单来源多义".

Definition initial_state (payload : dict) : option pystr :=
  match pget (u "birth_kind") payload with PyStr k => dget k _TICKET_INITIAL_STATES | _ => None end.
Definition born_debug (payload : dict) : bool := str_test (startswith (u "debug-")) (pget (u "birth_kind") payload).

Definition consume_created (payload : dict) (i : nat) (m : _TicketStateMirror) : _TicketStateMirror :=
  let m := count_origin 1 0 m in
  let m := note (1 <? tm_births m) (u "ticket_created 事件只能出现一次") m in
  let m := note (negb (tm_migrations m =? 0)) two_origins m in
  let m := note (negb (i =? 1)) (u "ticket_created 必须是事件链首事件") m in
  let m := note (match initial_state payload with None => true | Some _ => false end)
             (u "ticket_created.birth_kind 非法或缺失") m in
  let m := set_current (initial_state payload) m in
  note (xorb (py_truth (pget (u "debug") (tm_metadata m))) (born_debug payload))
    (u "ticket_created.birth_kind 与 metadata.debug 不一致") m.

Definition consume_migration (m : _TicketStateMirror) : _TicketStateMirror :=
  let m := count_origin 0 1 m in
  let m := note (1 <? tm_migrations m) (u "migration_applied 事件只能出现一次") m in
  note (negb (tm_births m =? 0)) two_origins m.

Definition consume_change (sm : state_machine) (payload : dict) (i : nat) (m : _TicketStateMirror) : _TicketStateMirror :=
  match pget (u "from") payload, pget (u "to") payload with
  | PyStr source, PyStr target =>
    if (source ∈s sm_states sm) && (target ∈s sm_states sm) then
      let delivery := pget (u "delivery_verdict") payload in
      let m := note (match tm_current m with Some c => c ≠s source | None => false end)
                 (nth_event i " state_changed.from 与事件序列当前状态不一致") m in
      let m := note (negb ((source, target) ∈s sm_transitions sm)) (nth_event i " state_changed 记录非法状态流转") m in
      let m := note ((target =s u "completed") && negb (str_in delivery _DELIVERY_VERDICTS))
                 (nth_event i " completed 流转缺合法 delivery_verdict") m in
      let m := note ((target ≠s u "completed") && negb (is_opt delivery None))
                 (nth_event i " 非 completed 流转携带 delivery_verdict") m in
      set_current (Some target) m
    else note true (nth_event i " state_changed.from/to 不在状态词表") m
  | _, _ => note true (nth_event i " state_changed.from/to 不在状态词表") m
  end.

Fixpoint index_of (x : pystr) (l : list pystr) : nat :=
  match l with [] => 0 | y :: l' => if x =s y then 0 else S (index_of x l') end.
Definition next_phase (sm : state_machine) (close : option pystr) : option pystr :=
  sm_close_phases sm !! match close with None => 0 | Some c => S (index_of c (sm_close_phases sm)) end.

(** What comes after a phase of closing, said without indices. *)
Inductive close_follows (phases : list pystr) : option pystr → option pystr → Prop :=
  | follows_first c rest : phases = c :: rest → close_follows phases None (Some c)
  | follows_next pre c d rest : phases = pre ++ c :: d :: rest → close_follows phases (Some c) (Some d)
  | follows_last pre c : phases = pre ++ [c] → close_follows phases (Some c) None.
Lemma index_of_app pre c rest : c ∉ pre → index_of c (pre ++ c :: rest) = length pre.
Proof.
  induction pre as [|x pre IH]; intros Hc; cbn [app index_of length].
  - by rewrite bool_decide_eq_true_2.
  - apply not_elem_of_cons in Hc as [Hx Hc]. rewrite bool_decide_eq_false_2 by done. by rewrite IH.
Qed.
Lemma next_phase_follows sm close next :
  sm_close_phases sm ≠ [] → NoDup (sm_close_phases sm) → (∀ c, close = Some c → c ∈ sm_close_phases sm) →
  next_phase sm close = next ↔ close_follows (sm_close_phases sm) close next.
Proof.
  unfold next_phase. generalize (sm_close_phases sm). intros phases Hne Hnd Hin.
  assert (Hat : ∀ pre c rest, phases = pre ++ c :: rest → phases !! S (index_of c phases) = head rest).
  { intros pre c rest ->. apply NoDup_app in Hnd as (_ & Hnd & _). rewrite index_of_app.
    - rewrite lookup_app_r by lia. replace (S (length pre) - length pre) with 1 by lia. by destruct rest.
    - intros Hc. by apply (Hnd c Hc); left. }
  split.
  - intros <-. destruct close as [c|]; [|destruct phases as [|x rest]; [done|by eapply follows_first]].
    destruct (list_elem_of_split _ _ (Hin c eq_refl)) as (pre & rest & E). rewrite (Hat _ _ _ E).
    destruct rest; [by eapply follows_last|by eapply follows_next].
  - destruct 1 as [c rest E|pre c d rest E|pre c E]; [by rewrite E|by rewrite (Hat _ _ _ E)|by rewrite (Hat _ _ _ E)].
Qed.

Definition consume_close (sm : state_machine) (payload : dict) (i : nat) (m : _TicketStateMirror) : _TicketStateMirror :=
  let m' := note (negb (is_opt (pget (u "from") payload) (tm_close m))
                  || negb (is_opt (pget (u "to") payload) (next_phase sm (tm_close m))))
              (nth_event i " close_phase 顺序非法") m in
  match pget (u "to") payload with
  | PyStr target => if target ∈s sm_close_phases sm then set_close (Some target) m' else m'
  | _ => m'
  end.

Definition consume_reopen (payload : dict) (i : nat) (m : _TicketStateMirror) : _TicketStateMirror :=
  set_close None
    (note (negb (bool_decide (tm_close m = Some (u "closed"))) || negb (is_lit (pget (u "from") payload) (u "closed"))
           || negb (is_opt (pget (u "to") payload) None))
       (nth_event i " ticket_reopened 只能从 closed 原子解冻到 null") m).

Definition ticket_consume (event : dict) (i : nat) (m : _TicketStateMirror) : _TicketStateMirror :=
  match tm_enabled m, tm_machine m, pget (u "payload") event with
  | true, Some sm, PyDict payload =>
    let t := pget (u "event_type") event in
    let m := note ((i =? 1) && negb (str_in t ALLOWED_FIRST_EVENT))
               (u "首条事件必须是 ticket_created 或 migration_applied") m in
    let m := if is_lit t (u "ticket_created") then consume_created payload i m
             else if is_lit t (u "migration_applied") then consume_migration m else m in
    if is_lit t (u "state_changed") then consume_change sm payload i m
    else if is_lit t (u "close_phase") then consume_close sm payload i m
    else if is_lit t (u "ticket_reopened") then consume_reopen payload i m
    else m
  | _, _, _ => m
  end.

(** [None]: the mirror is disabled and returns the empty list. *)
Definition ticket_finish (m : _TicketStateMirror) : option _BoundedProblemReport :=
  if negb (tm_enabled m) then None
  else
    let m := match tm_machine m with
             | None => m
             | Some _ =>
               let m := note (match tm_current m with
                              | Some c => negb (is_lit (pget (u "status") (tm_metadata m)) c) | None => false end)
                          (u "事件序列最终状态与 metadata.status 不一致") m in
               note (negb (is_opt (pget (u "close_state") (tm_metadata m)) (tm_close m)))
                 (u "事件序列最终 close_state 与 metadata.close_state 不一致") m
             end in
    Some (render_collector (tm_problems m)).

Fixpoint ticket_replay (events : list dict) (i : nat) (m : _TicketStateMirror) : _TicketStateMirror :=
  match events with [] => m | e :: es => ticket_replay es (S i) (ticket_consume e i m) end.

(** ** The normal form is one *)
Lemma bounded_names_spec k lo hi v names :
  bounded_names k lo hi v = Some names → v = PyList (PyStr <$> names) ∧ lo ≤ length names ≤ hi ∧
  Forall (λ s : pystr, 1 ≤ length s ≤ k) names ∧ NoDup names.
Proof.
  unfold bounded_names. destruct v as [| | | | |l| | |]; try done. destruct (all_strs l) as [ss|] eqn:E; [|done].
  apply all_strs_inv in E as ->. case_match eqn:Et; [|done]. intros [= <-].
  rewrite !andb_true_iff, !Nat.leb_le, forallb_Forall, bool_decide_eq_true in Et.
  destruct Et as [[[? ?] Hf] ?]. split_and!; try done. eapply Forall_impl; [exact Hf|].
  intros s. rewrite andb_true_iff, !Nat.leb_le. done.
Qed.
Lemma bounded_names_intro k lo hi names :
  lo ≤ length names ≤ hi → Forall (λ s : pystr, 1 ≤ length s ≤ k) names → NoDup names →
  bounded_names k lo hi (PyList (PyStr <$> names)) = Some names.
Proof.
  intros [? ?] Hf Hn. unfold bounded_names. rewrite all_strs_fmap.
  rewrite (proj2 (Nat.leb_le _ _)), (proj2 (Nat.leb_le _ _)), bool_decide_eq_true_2 by done.
  rewrite (proj2 (forallb_Forall _ _)); [done|]. eapply Forall_impl; [exact Hf|].
  intros s. rewrite andb_true_iff, !Nat.leb_le. done.
Qed.

Record machine_ok (m : state_machine) : Prop := mkMachineOk {
  mo_states : 1 ≤ length (sm_states m) ≤ _MAX_TICKET_STATES ∧ Forall (λ s : pystr, 1 ≤ length s ≤ 128) (sm_states m) ∧
              NoDup (sm_states m);
  mo_transitions : (N.of_nat (length (sm_transitions m)) <= _MAX_TICKET_TRANSITIONS)%N ∧
                   Forall (λ t, t.1 ∈ sm_states m ∧ t.2 ∈ sm_states m) (sm_transitions m);
  mo_phases : 1 ≤ length (sm_close_phases m) ≤ _MAX_CLOSE_PHASES ∧ Forall (λ s : pystr, 1 ≤ length s ≤ 128) (sm_close_phases m) ∧
              NoDup (sm_close_phases m) ∧ last (sm_close_phases m) = Some (u "closed")
}.

Lemma machine_normalized_ok v m : _normalize_ticket_state_machine v = Ok m → machine_ok m.
Proof.
  unfold _normalize_ticket_state_machine. destruct v as [| | | | | | |d|]; try done.
  destruct (bounded_names 128 1 _MAX_TICKET_STATES _) as [states|] eqn:Es; [|done].
  apply bounded_names_spec in Es as (_ & ? & ? & ?).
  destruct (pget (u "transitions") d) as [| | | | |ts| | |]; try done.
  destruct (N.ltb_spec _MAX_TICKET_TRANSITIONS (N.of_nat (length ts))); [done|].
  intros (transitions & Ht & Hp)%bind_ok. destruct (bounded_names 128 1 _MAX_CLOSE_PHASES _) as [phases|] eqn:Ep; [|done].
  apply bounded_names_spec in Ep as (_ & ? & ? & ?). case_bool_decide; [|done]. injection Hp as <-.
  assert (length transitions = length ts ∧ Forall (λ t, t.1 ∈ states ∧ t.2 ∈ states) transitions) as [Hl Hf].
  { revert transitions Ht. clear. induction ts as [|t ts IH]; intros trs; cbn; [by intros [= <-]|].
    intros (x & Hx & (xs & Hxs & [= <-])%bind_ok)%bind_ok. destruct (IH _ Hxs) as [IH1 IH2]. cbn. split; [by rewrite IH1|].
    constructor; [|done]. revert Hx. unfold normalize_transition.
    destruct t as [| | | | | | |t|]; try done. destruct (pget _ t); try done. destruct (pget _ t); try done.
    case_match eqn:E; [|done]. intros [= <-]. by rewrite andb_true_iff, !bool_decide_eq_true in E. }
  split; cbn; [done| |done]. split; [by rewrite Hl|done].
Qed.

(** The result of [_normalize_ticket_state_machine] is a fixed point of it. *)
Lemma normalize_machine m : machine_ok m → _normalize_ticket_state_machine (machine_value m) = Ok m.
Proof.
  destruct m as [states transitions phases]. intros [(S1 & S2 & S3) (T1 & T2) (P1 & P2 & P3 & P4)].
  cbn [sm_states sm_transitions sm_close_phases] in *. unfold machine_value. cbn [sm_states sm_transitions sm_close_phases].
  unfold _normalize_ticket_state_machine.
  change (pget (u "states") _) with (PyList (PyStr <$> states)). rewrite bounded_names_intro by done.
  change (pget (u "transitions") _) with
    (PyList ((λ t : pystr * pystr, PyDict [(u "from", PyStr t.1); (u "to", PyStr t.2)]) <$> transitions)).
  change (pget (u "close_phases") _) with (PyList (PyStr <$> phases)).
  cbv iota. rewrite length_fmap. destruct (N.ltb_spec _MAX_TICKET_TRANSITIONS (N.of_nat (length transitions))); [lia|].
  assert (mapM_res (normalize_transition states)
            ((λ t : pystr * pystr, PyDict [(u "from", PyStr t.1); (u "to", PyStr t.2)]) <$> transitions) = Ok transitions) as ->.
  { clear -T2. induction T2 as [|[s t] ts [Hs Ht] _ IH]; [done|]. rewrite fmap_cons. cbn [mapM_res].
    change (normalize_transition states (PyDict [(u "from", PyStr (s, t).1); (u "to", PyStr (s, t).2)]))
      with (if (s ∈s states) && (t ∈s states) then Ok (s, t) else Err (ValueError "state_machine.transitions 引用未知状态")).
    rewrite !bool_decide_eq_true_2 by done. cbn [andb mbind result_bind]. by rewrite IH. }
  cbn [mbind result_bind]. rewrite bounded_names_intro by done. by rewrite bool_decide_eq_true_2.
Qed.

(** ** The state machine of a ticket *)
Record ticket_state := mkTicket { ts_current : option pystr; ts_close : option pystr; ts_births : nat; ts_migrations : nat }.
Definition ticket_start : ticket_state := mkTicket None None 0 0.

Definition kind_of (e : dict) : pyval := pget (u "event_type") e.
Definition opt_val (o : option pystr) : pyval := match o with Some s => PyStr s | None => PyNone end.

(** [ticket_step sm debug i s e s']: the [i]th event [e] takes state [s] to
    [s'].  A ticket is created once, first, in the initial state of its kind; its
    state then moves along the transitions, with a delivery verdict exactly when
    it is completed; close phases come one after another, and only a closed
    ticket is reopened. *)
Inductive ticket_step (sm : state_machine) (debug : bool) (i : nat) (s : ticket_state) (e : dict) : ticket_state → Prop :=
  | step_unread :
      (∀ p, pget (u "payload") e ≠ PyDict p) → ticket_step sm debug i s e s
  | step_created p k s0 :
      pget (u "payload") e = PyDict p → kind_of e = PyStr (u "ticket_created") →
      i = 1 → ts_births s = 0 → ts_migrations s = 0 →
      pget (u "birth_kind") p = PyStr k → dget k _TICKET_INITIAL_STATES = Some s0 → debug = startswith (u "debug-") k →
      ticket_step sm debug i s e (mkTicket (Some s0) (ts_close s) 1 0)
  | step_migrated p :
      pget (u "payload") e = PyDict p → kind_of e = PyStr (u "migration_applied") →
      ts_births s = 0 → ts_migrations s = 0 →
      ticket_step sm debug i s e (mkTicket (ts_current s) (ts_close s) 0 1)
  | step_changed p source target :
      pget (u "payload") e = PyDict p → kind_of e = PyStr (u "state_changed") → i ≠ 1 →
      pget (u "from") p = PyStr source → pget (u "to") p = PyStr target →
      source ∈ sm_states sm → target ∈ sm_states sm → (source, target) ∈ sm_transitions sm →
      (∀ c, ts_current s = Some c → c = source) →
      (target = u "completed" → ∃ d, pget (u "delivery_verdict") p = PyStr d ∧ d ∈ _DELIVERY_VERDICTS) →
      (target ≠ u "completed" → pget (u "delivery_verdict") p = PyNone) →
      ticket_step sm debug i s e (mkTicket (Some target) (ts_close s) (ts_births s) (ts_migrations s))
  | step_closed p :
      pget (u "payload") e = PyDict p → kind_of e = PyStr (u "close_phase") → i ≠ 1 →
      pget (u "from") p = opt_val (ts_close s) → pget (u "to") p = opt_val (next_phase sm (ts_close s)) →
      ticket_step sm debug i s e
        (mkTicket (ts_current s) (match next_phase sm (ts_close s) with Some c => Some c | None => ts_close s end)
           (ts_births s) (ts_migrations s))
  | step_reopened p :
      pget (u "payload") e = PyDict p → kind_of e = PyStr (u "ticket_reopened") → i ≠ 1 →
      ts_close s = Some (u "closed") → pget (u "from") p = PyStr (u "closed") → pget (u "to") p = PyNone →
      ticket_step sm debug i s e (mkTicket (ts_current s) None (ts_births s) (ts_migrations s))
  | step_other p :
      pget (u "payload") e = PyDict p → i ≠ 1 →
      (∀ t, kind_of e = PyStr t →
            t ∉ [u "ticket_created"; u "migration_applied"; u "state_changed"; u "close_phase"; u "ticket_reopened"]) →
      ticket_step sm debug i s e s.

Inductive ticket_steps (sm : state_machine) (debug : bool) : nat → ticket_state → list dict → ticket_state → Prop :=
  | steps_nil i s : ticket_steps sm debug i s [] s
  | steps_cons i s e s1 es s2 :
      ticket_step sm debug i s e s1 → ticket_steps sm debug (S i) s1 es s2 → ticket_steps sm debug i s (e :: es) s2.

(** ** The mirror checks that state machine *)
Definition abstract (m : _TicketStateMirror) : ticket_state :=
  mkTicket (tm_current m) (tm_close m) (tm_births m) (tm_migrations m).
Definition problems (m : _TicketStateMirror) : nat := pc_total (tm_problems m).

Lemma problems_note b msg m : problems (note b msg m) = (if b then 1 else 0) + problems m.
Proof. unfold problems, note. destruct b; [|done]. cbn [tm_problems]. by rewrite append_problem_total. Qed.
Lemma note_current b msg m : tm_current (note b msg m) = tm_current m.
Proof. by destruct b. Qed.
Lemma note_close b msg m : tm_close (note b msg m) = tm_close m.
Proof. by destruct b. Qed.
Lemma note_births b msg m : tm_births (note b msg m) = tm_births m.
Proof. by destruct b. Qed.
Lemma note_migrations b msg m : tm_migrations (note b msg m) = tm_migrations m.
Proof. by destruct b. Qed.
Lemma note_metadata b msg m : tm_metadata (note b msg m) = tm_metadata m.
Proof. by destruct b. Qed.
Lemma problems_set_current s m : problems (set_current s m) = problems m.
Proof. done. Qed.
Lemma problems_set_close s m : problems (set_close s m) = problems m.
Proof. done. Qed.
Lemma problems_count_origin a b m : problems (count_origin a b m) = problems m.
Proof. done. Qed.
Create Rewrite HintDb mirror.
#[local] Hint Rewrite problems_note note_current note_close note_births note_migrations note_metadata problems_set_current
  problems_set_close problems_count_origin : mirror.

Lemma is_opt_iff v o : is_opt v o = true ↔ v = opt_val o.
Proof. destruct o; cbn; [by rewrite is_lit_iff|]. by destruct v. Qed.

(** The outcome of one event: problems only grow, and stay the same exactly when
    the event is a step, which then leads to the mirror's new state. *)
Definition step_outcome (sm : state_machine) (debug : bool) (i : nat) (e : dict) (m m' : _TicketStateMirror) : Prop :=
  problems m ≤ problems m' ∧
  (problems m' = problems m → ticket_step sm debug i (abstract m) e (abstract m')) ∧
  (∀ s', ticket_step sm debug i (abstract m) e s' → problems m' = problems m).

Lemma first_event_names : u "state_changed" ∉ ALLOWED_FIRST_EVENT ∧ u "close_phase" ∉ ALLOWED_FIRST_EVENT ∧
  u "ticket_reopened" ∉ ALLOWED_FIRST_EVENT.
Proof. by_compute. Qed.

Ltac mirror_simpl :=
  cbv zeta; repeat (progress (autorewrite with mirror;
                      cbn [tm_births tm_migrations tm_metadata tm_current tm_close count_origin set_current set_close])).

(** Flags are counted: a step is right when every flag is down. *)
Definition down (b : bool) : nat := if b then 1 else 0.
Lemma down_0 b : down b = 0 ↔ b = false.
Proof. by destruct b. Qed.

Lemma created_problems p i m :
  problems (consume_created p i m) =
    down (xorb (py_truth (pget (u "debug") (tm_metadata m))) (born_debug p)) +
    (down (match initial_state p with None => true | Some _ => false end) + (down (negb (i =? 1)) +
    (down (negb (tm_migrations m + 0 =? 0)) + (down (1 <? tm_births m + 1) + problems m)))) ∧
  abstract (consume_created p i m) = mkTicket (initial_state p) (tm_close m) (tm_births m + 1) (tm_migrations m + 0).
Proof. unfold consume_created, abstract. mirror_simpl. done. Qed.

Lemma literal_clash v a b : v = PyStr (u a) → v = PyStr (u b) → bool_decide (u a = u b) = false → False.
Proof. intros -> [= E] H. by rewrite bool_decide_eq_true_2 in H. Qed.

(** The rules for other kinds of events do not apply. *)
Ltac step_inv Hs Hp Hk :=
  let P := fresh "P" in let K := fresh "K" in
  inversion Hs as [P|? ? ? P K|? P K|? ? ? P K|? P K|? P K|? P ? K]; subst;
  first [ exfalso; exact (P _ Hp)
        | exfalso; refine (literal_clash _ _ _ Hk K _); vm_compute; reflexivity
        | exfalso; refine (K _ Hk _); by_compute
        | pose proof (eq_trans (eq_sym Hp) P) as [= <-] ].

Lemma created_outcome sm e p i m :
  pget (u "payload") e = PyDict p → kind_of e = PyStr (u "ticket_created") →
  step_outcome sm (py_truth (pget (u "debug") (tm_metadata m))) i e m (consume_created p i m).
Proof.
  intros Hp Hk. unfold step_outcome. destruct (created_problems p i m) as [-> ->].
  split; [lia|]. split.
  - intros Hz. assert (xorb (py_truth (pget (u "debug") (tm_metadata m))) (born_debug p) = false ∧
      match initial_state p with None => true | Some _ => false end = false ∧ negb (i =? 1) = false ∧
      negb (tm_migrations m + 0 =? 0) = false ∧ (1 <? tm_births m + 1) = false) as (H1 & H2 & H3 & H4 & H5).
    { rewrite <- !down_0. lia. }
    apply xorb_eq in H1. apply negb_false_iff, Nat.eqb_eq in H3, H4. apply Nat.ltb_ge in H5.
    unfold initial_state, born_debug in *. destruct (pget (u "birth_kind") p) as [| | | |k| | | |] eqn:Ek; try done.
    destruct (dget k _TICKET_INITIAL_STATES) as [s0|] eqn:E0; [|done].
    replace (tm_births m + 1) with 1 by lia. replace (tm_migrations m + 0) with 0 by lia.
    eapply (step_created sm _ i (abstract m) e p k s0); try done; cbn; lia.
  - intros s' Hs. step_inv Hs Hp Hk. cbn [ts_births ts_migrations abstract] in *.
    unfold initial_state, born_debug.
    repeat match goal with H : ?x = _ |- _ => rewrite H in * |- end.
    repeat match goal with H : pget _ p = _ |- _ => rewrite H | H : dget _ _ = _ |- _ => rewrite H
                         | H : tm_births _ = _ |- _ => rewrite H | H : tm_migrations _ = _ |- _ => rewrite H
                         | H : py_truth _ = _ |- _ => rewrite H end.
    cbn [str_test]. by rewrite xorb_nilpotent.
Qed.

Lemma migration_outcome sm debug e p i m :
  pget (u "payload") e = PyDict p → kind_of e = PyStr (u "migration_applied") →
  step_outcome sm debug i e m (consume_migration m).
Proof.
  intros Hp Hk. unfold step_outcome.
  assert (problems (consume_migration m) = down (negb (tm_births m + 0 =? 0)) + (down (1 <? tm_migrations m + 1) + problems m) ∧
          abstract (consume_migration m) = mkTicket (tm_current m) (tm_close m) (tm_births m + 0) (tm_migrations m + 1)) as [-> ->].
  { unfold consume_migration, abstract. mirror_simpl. done. }
  split; [lia|]. split.
  - intros Hz. assert (negb (tm_births m + 0 =? 0) = false ∧ (1 <? tm_migrations m + 1) = false) as [H1 H2].
    { rewrite <- !down_0. lia. }
    apply negb_false_iff, Nat.eqb_eq in H1. apply Nat.ltb_ge in H2.
    replace (tm_births m + 0) with 0 by lia. replace (tm_migrations m + 1) with 1 by lia.
    eapply (step_migrated sm debug i (abstract m) e p); try done; cbn; lia.
  - intros s' Hs. step_inv Hs Hp Hk. cbn [ts_births ts_migrations abstract] in *.
    repeat match goal with H : tm_births _ = _ |- _ => rewrite H | H : tm_migrations _ = _ |- _ => rewrite H end. done.
Qed.

Lemma change_outcome sm debug e p i m :
  pget (u "payload") e = PyDict p → kind_of e = PyStr (u "state_changed") → i ≠ 1 →
  step_outcome sm debug i e m (consume_change sm p i m).
Proof.
  intros Hp Hk Hi. unfold step_outcome, consume_change.
  assert (Hbad : ∀ msg, (∀ source target, pget (u "from") p = PyStr source → pget (u "to") p = PyStr target →
            ¬ (source ∈ sm_states sm ∧ target ∈ sm_states sm)) → step_outcome sm debug i e m (note true msg m)).
  { intros msg Hno. unfold step_outcome. rewrite problems_note. split; [lia|]. split; [lia|].
    intros s' Hs. step_inv Hs Hp Hk. by edestruct Hno. }
  destruct (pget (u "from") p) as [| | | |source| | | |] eqn:Ef; try by apply Hbad.
  destruct (pget (u "to") p) as [| | | |target| | | |] eqn:Et; try by apply Hbad.
  destruct ((source ∈s sm_states sm) && (target ∈s sm_states sm)) eqn:Es.
  2: { apply Hbad. intros ? ? [= <-] [= <-] [H1 H2]. by rewrite !bool_decide_eq_true_2 in Es. }
  rewrite andb_true_iff, !bool_decide_eq_true in Es. destruct Es as [Es1 Es2]. clear Hbad.
  unfold abstract. mirror_simpl. split; [lia|]. split.
  - intros Hz. assert (match tm_current m with Some c => c ≠s source | None => false end = false ∧
      negb ((source, target) ∈s sm_transitions sm) = false ∧
      ((target =s u "completed") && negb (str_in (pget (u "delivery_verdict") p) _DELIVERY_VERDICTS)) = false ∧
      ((target ≠s u "completed") && negb (is_opt (pget (u "delivery_verdict") p) None)) = false) as (H1 & H2 & H3 & H4).
    { rewrite <- !down_0. unfold down. lia. }
    apply negb_false_iff, bool_decide_eq_true in H2.
    eapply (step_changed sm debug i (abstract m) e p source target); try done.
    + intros c Hc. cbn in Hc. rewrite Hc in H1. by apply negb_false_iff, bool_decide_eq_true in H1.
    + intros ->. rewrite bool_decide_eq_true_2 in H3 by done. cbn [andb] in H3. by apply negb_false_iff, str_in_iff in H3.
    + intros Hne. rewrite bool_decide_eq_false_2 in H4 by done. cbn [andb negb] in H4.
      apply negb_false_iff, is_opt_iff in H4. done.
  - intros s' Hs. step_inv Hs Hp Hk.
    match goal with H1 : pget (u "from") p = PyStr _, H2 : pget (u "to") p = PyStr _ |- _ =>
      rewrite Ef in H1; rewrite Et in H2; injection H1 as <-; injection H2 as <- end.
    match goal with Hc : ∀ c, ts_current _ = Some c → c = _, Hy : _ → ∃ _, _, Hn : _ → _ = PyNone, Ht : (_, _) ∈ _ |- _ =>
      rename Hc into C1; rename Hy into C2; rename Hn into C3; rename Ht into C4 end.
    cbn [ts_current abstract] in C1.
    assert (match tm_current m with Some c => c ≠s source | None => false end = false) as ->.
    { destruct (tm_current m) as [c|]; [|done]. rewrite (C1 c eq_refl). by rewrite bool_decide_eq_true_2. }
    rewrite (bool_decide_eq_true_2 _ C4). destruct (decide (target = u "completed")) as [E|E].
    + rewrite (bool_decide_eq_true_2 _ E). cbn [andb negb]. by rewrite (proj2 (str_in_iff _ _) (C2 E)).
    + rewrite (bool_decide_eq_false_2 _ E). cbn [andb negb]. by rewrite (proj2 (is_opt_iff _ None) (C3 E)).
Qed.

Lemma close_outcome sm debug e p i m :
  pget (u "payload") e = PyDict p → kind_of e = PyStr (u "close_phase") → i ≠ 1 →
  step_outcome sm debug i e m (consume_close sm p i m).
Proof.
  intros Hp Hk Hi. unfold step_outcome, consume_close.
  set (bad := negb (is_opt (pget (u "from") p) (tm_close m)) || negb (is_opt (pget (u "to") p) (next_phase sm (tm_close m)))).
  assert (Hbad : bad = false ↔ pget (u "from") p = opt_val (tm_close m) ∧ pget (u "to") p = opt_val (next_phase sm (tm_close m))).
  { unfold bad. by rewrite orb_false_iff, !negb_false_iff, !is_opt_iff. }
  set (m1 := note _ _ m).
  assert (Hpr : problems (match pget (u "to") p with
                          | PyStr target => if target ∈s sm_close_phases sm then set_close (Some target) m1 else m1
                          | _ => m1 end) = down bad + problems m).
  { transitivity (problems m1); [|apply problems_note]. destruct (pget (u "to") p); try done. by case_bool_decide. }
  rewrite Hpr. split; [lia|]. split.
  - intros Hz. assert (bad = false) as Hb by (apply down_0; lia). pose proof (proj1 Hbad Hb) as [H1 H2].
    assert (abstract (match pget (u "to") p with
                      | PyStr target => if target ∈s sm_close_phases sm then set_close (Some target) m1 else m1
                      | _ => m1 end)
            = mkTicket (tm_current m) (match next_phase sm (tm_close m) with Some c => Some c | None => tm_close m end)
                (tm_births m) (tm_migrations m)) as ->.
    { unfold m1. rewrite Hb, H2. destruct (next_phase sm (tm_close m)) as [c|] eqn:En; [|done]. cbn [opt_val].
      rewrite bool_decide_eq_true_2; [done|]. by eapply list_elem_of_lookup_2. }
    exact (step_closed sm debug i (abstract m) e p Hp Hk Hi H1 H2).
  - intros s' Hs. step_inv Hs Hp Hk. rewrite (proj2 Hbad); done.
Qed.

Lemma reopen_outcome sm debug e p i m :
  pget (u "payload") e = PyDict p → kind_of e = PyStr (u "ticket_reopened") → i ≠ 1 →
  step_outcome sm debug i e m (consume_reopen p i m).
Proof.
  intros Hp Hk Hi. unfold step_outcome, consume_reopen. set (bad := _ || _ || _).
  assert (Hbad : bad = false ↔ tm_close m = Some (u "closed") ∧ pget (u "from") p = PyStr (u "closed") ∧
                               pget (u "to") p = PyNone).
  { unfold bad. rewrite !orb_false_iff, !negb_false_iff, bool_decide_eq_true, is_lit_iff, is_opt_iff. tauto. }
  clearbody bad. unfold abstract. mirror_simpl. change (if bad then 1 else 0) with (down bad). split; [lia|]. split.
  - intros Hz. assert (bad = false) as (H1 & H2 & H3)%Hbad by (apply down_0; lia).
    exact (step_reopened sm debug i (abstract m) e p Hp Hk Hi H1 H2 H3).
  - intros s' Hs. step_inv Hs Hp Hk. rewrite (proj2 Hbad); done.
Qed.

Lemma note_false msg m : note false msg m = m.
Proof. done. Qed.

(** The names the mirror distinguishes. *)
Lemma kind_cases v :
  v = PyStr (u "ticket_created") ∨ v = PyStr (u "migration_applied") ∨ v = PyStr (u "state_changed") ∨
  v = PyStr (u "close_phase") ∨ v = PyStr (u "ticket_reopened") ∨
  ∀ t, v = PyStr t → t ∉ [u "ticket_created"; u "migration_applied"; u "state_changed"; u "close_phase"; u "ticket_reopened"].
Proof.
  destruct v as [| | | |t| | | |]; try (do 5 right; by intros t).
  destruct (decide (t ∈ [u "ticket_created"; u "migration_applied"; u "state_changed"; u "close_phase"; u "ticket_reopened"])) as [Hin|Hni].
  - rewrite !elem_of_cons in Hin. destruct Hin as [-> |[-> |[-> |[-> |[-> |Hin]]]]]; [tauto..|by inversion Hin].
  - do 5 right. by intros t' [= <-].
Qed.

Lemma change_grows sm p i m : problems m ≤ problems (consume_change sm p i m).
Proof.
  assert (Hn : ∀ msg, problems m ≤ problems (note true msg m)) by (intros; rewrite problems_note; lia).
  unfold consume_change. destruct (pget (u "from") p); try apply Hn. destruct (pget (u "to") p); try apply Hn.
  case_match; [|apply Hn]. mirror_simpl. lia.
Qed.
Lemma close_grows sm p i m : problems m ≤ problems (consume_close sm p i m).
Proof.
  unfold consume_close. set (m1 := note _ _ m). assert (problems m ≤ problems m1) by (unfold m1; rewrite problems_note; lia).
  destruct (pget (u "to") p); try done. by case_bool_decide.
Qed.
Lemma reopen_grows p i m : problems m ≤ problems (consume_reopen p i m).
Proof. unfold consume_reopen. mirror_simpl. lia. Qed.

(** At the first place only the two kinds of origin have a step. *)
Lemma late_outcome sm debug e p msg m m' :
  pget (u "payload") e = PyDict p → (∀ t, kind_of e = PyStr t → t ∉ ALLOWED_FIRST_EVENT) →
  problems (note true msg m) ≤ problems m' → step_outcome sm debug 1 e m m'.
Proof.
  intros Hp Hk Hle. rewrite problems_note in Hle. split; [lia|]. split; [lia|].
  intros s' Hs. inversion Hs as [P|? ? ? P K|? P K|? ? ? P K N|? P K N|? P K N|? P N K]; subst; try done.
  - by destruct (P p).
  - destruct (Hk _ K). by_compute.
  - destruct (Hk _ K). by_compute.
Qed.

Lemma consume_outcome sm e i m :
  tm_enabled m = true → tm_machine m = Some sm →
  step_outcome sm (py_truth (pget (u "debug") (tm_metadata m))) i e m (ticket_consume e i m).
Proof.
  intros He Hm. unfold ticket_consume. rewrite He, Hm.
  destruct (pget (u "payload") e) as [| | | | | | |p|] eqn:Hp.
  8: fold (kind_of e).
  1-7, 9: split; [lia|]; split; [intros _; apply step_unread; intros p; congruence|done].
  assert (Hlit : ∀ a b, kind_of e = PyStr (u a) → is_lit (kind_of e) (u b) = bool_decide (u a = u b)).
  { intros a b ->. done. }
  assert (Hlate : ∀ a, kind_of e = PyStr (u a) → bool_decide (u a ∈ ALLOWED_FIRST_EVENT) = false →
            ∀ t, kind_of e = PyStr t → t ∉ ALLOWED_FIRST_EVENT).
  { intros a Ha Hn t Ht. rewrite Ha in Ht. injection Ht as <-. by apply bool_decide_eq_false in Hn. }
  destruct (kind_cases (kind_of e)) as [Hk|[Hk|[Hk|[Hk|[Hk|Hk]]]]].
  - rewrite !(Hlit _ _ Hk), Hk. cbn [str_in].
    change (u "ticket_created" ∈s ALLOWED_FIRST_EVENT) with true. rewrite andb_false_r. exact (created_outcome sm e p i m Hp Hk).
  - rewrite !(Hlit _ _ Hk), Hk. cbn [str_in].
    change (u "migration_applied" ∈s ALLOWED_FIRST_EVENT) with true. rewrite andb_false_r. exact (migration_outcome sm _ e p i m Hp Hk).
  - specialize (Hlate _ Hk eq_refl). rewrite !(Hlit _ _ Hk), Hk. cbn [str_in].
    change (u "state_changed" ∈s ALLOWED_FIRST_EVENT) with false. rewrite andb_true_r.
    destruct (Nat.eqb_spec i 1) as [-> |Hi]; [|exact (change_outcome sm _ e p i m Hp Hk Hi)].
    eapply (late_outcome sm _ e p); [exact Hp|exact Hlate|apply change_grows].
  - specialize (Hlate _ Hk eq_refl). rewrite !(Hlit _ _ Hk), Hk. cbn [str_in].
    change (u "close_phase" ∈s ALLOWED_FIRST_EVENT) with false. rewrite andb_true_r.
    destruct (Nat.eqb_spec i 1) as [-> |Hi]; [|exact (close_outcome sm _ e p i m Hp Hk Hi)].
    eapply (late_outcome sm _ e p); [exact Hp|exact Hlate|apply close_grows].
  - specialize (Hlate _ Hk eq_refl). rewrite !(Hlit _ _ Hk), Hk. cbn [str_in].
    change (u "ticket_reopened" ∈s ALLOWED_FIRST_EVENT) with false. rewrite andb_true_r.
    destruct (Nat.eqb_spec i 1) as [-> |Hi]; [|exact (reopen_outcome sm _ e p i m Hp Hk Hi)].
    eapply (late_outcome sm _ e p); [exact Hp|exact Hlate|apply reopen_grows].
  - assert (Hno : ∀ a, u a ∈ [u "ticket_created"; u "migration_applied"; u "state_changed"; u "close_phase"; u "ticket_reopened"] →
              is_lit (kind_of e) (u a) = false).
    { intros a Ha. apply not_true_iff_false. rewrite is_lit_iff. intros Hx. by destruct (Hk _ Hx). }
    rewrite !Hno by by_compute.
    assert (Hfirst : str_in (kind_of e) ALLOWED_FIRST_EVENT = false).
    { apply not_true_iff_false. rewrite str_in_iff. intros (t & Ht & Hin). apply (Hk t Ht).
      unfold ALLOWED_FIRST_EVENT in Hin. rewrite !elem_of_cons in *. tauto. }
    rewrite Hfirst. cbn [negb]. rewrite andb_true_r. destruct (Nat.eqb_spec i 1) as [-> |Hi].
    + eapply (late_outcome sm _ e p); [exact Hp| |reflexivity].
      intros t Ht Hin. apply not_true_iff_false in Hfirst. apply Hfirst, str_in_iff. by exists t.
    + rewrite note_false. split; [lia|]. split; [|done]. intros _. exact (step_other sm _ i (abstract m) e p Hp Hi Hk).
Qed.

(** A state and an event have at most one next state. *)
Lemma step_unique sm debug i s e s1 s2 : ticket_step sm debug i s e s1 → ticket_step sm debug i s e s2 → s1 = s2.
Proof.
  destruct (pget (u "payload") e) as [| | | | | | |p|] eqn:Hp.
  8: destruct (kind_cases (kind_of e)) as [Hk|[Hk|[Hk|[Hk|[Hk|Hk]]]]].
  8-12: intros H1 H2; step_inv H1 Hp Hk; step_inv H2 Hp Hk; congruence.
  8: { intros H1 H2. inversion H1 as [P|? ? ? P K|? P K|? ? ? P K|? P K|? P K|? P]; subst; try (exfalso; refine (Hk _ K _); by_compute).
       - by destruct (P p).
       - inversion H2 as [P'|? ? ? P' K|? P' K|? ? ? P' K|? P' K|? P' K|? P']; subst; try done; exfalso; refine (Hk _ K _); by_compute. }
  all: intros H1 H2; inversion H1; subst; try congruence; inversion H2; subst; congruence.
Qed.

(** *** Whole chains *)
(** What no event changes, and the collector's own invariant. *)
Record kept (m m' : _TicketStateMirror) : Prop := mkKept {
  kp_enabled : tm_enabled m' = tm_enabled m;
  kp_metadata : tm_metadata m' = tm_metadata m;
  kp_machine : tm_machine m' = tm_machine m;
  kp_problems : collector_inv (tm_problems m) → collector_inv (tm_problems m')
}.
Lemma kept_refl m : kept m m.
Proof. by split. Qed.
Lemma kept_trans m1 m2 m3 : kept m1 m2 → kept m2 m3 → kept m1 m3.
Proof. intros [? ? ? ?] [? ? ? ?]. split; [congruence..|auto]. Qed.
Lemma kept_note b msg m : kept m (note b msg m).
Proof. destruct b; [|apply kept_refl]. split; try done. cbn. apply append_problem_inv. Qed.
Lemma kept_current s m : kept m (set_current s m).
Proof. by split. Qed.
Lemma kept_close s m : kept m (set_close s m).
Proof. by split. Qed.
Lemma kept_origin a b m : kept m (count_origin a b m).
Proof. by split. Qed.
Ltac kept :=
  lazymatch goal with
  | |- kept ?m ?m => apply kept_refl
  | |- kept _ (note _ _ _) => eapply kept_trans; [|apply kept_note]; kept
  | |- kept _ (set_current _ _) => eapply kept_trans; [|apply kept_current]; kept
  | |- kept _ (set_close _ _) => eapply kept_trans; [|apply kept_close]; kept
  | |- kept _ (count_origin _ _ _) => eapply kept_trans; [|apply kept_origin]; kept
  end.

Lemma consume_kept e i m : kept m (ticket_consume e i m).
Proof.
  unfold ticket_consume. destruct (tm_enabled m), (tm_machine m) as [sm|]; try apply kept_refl.
  destruct (pget (u "payload") e) as [| | | | | | |p|]; try apply kept_refl.
  set (t := pget _ e). set (m0 := note _ _ m).
  assert (H0 : kept m m0) by apply kept_note. clearbody m0 t.
  set (m1 := if is_lit t (u "ticket_created") then _ else _).
  assert (H1 : kept m m1).
  { unfold m1, consume_created, consume_migration. cbv zeta. eapply kept_trans; [exact H0|]. repeat case_match; kept. }
  clearbody m1. unfold consume_change, consume_close, consume_reopen. cbv zeta.
  eapply kept_trans; [exact H1|]. repeat case_match; kept.
Qed.

Lemma replay_kept es i m : kept m (ticket_replay es i m).
Proof.
  revert i m. induction es as [|e es IH]; intros i m; [apply kept_refl|].
  eapply kept_trans; [apply consume_kept|apply IH].
Qed.

Lemma replay_outcome sm debug es i m :
  tm_enabled m = true → tm_machine m = Some sm → py_truth (pget (u "debug") (tm_metadata m)) = debug →
  problems m ≤ problems (ticket_replay es i m) ∧
  (problems (ticket_replay es i m) = problems m →
     ticket_steps sm debug i (abstract m) es (abstract (ticket_replay es i m))) ∧
  (∀ s', ticket_steps sm debug i (abstract m) es s' →
     problems (ticket_replay es i m) = problems m ∧ s' = abstract (ticket_replay es i m)).
Proof.
  revert i m. induction es as [|e es IH]; intros i m He Hm Hd; cbn [ticket_replay].
  { split; [lia|]. split; [intros _; constructor|]. intros s'. by inversion 1. }
  destruct (consume_kept e i m) as [K1 K2 K3 _].
  pose proof (consume_outcome sm e i m He Hm) as (O1 & O2 & O3). rewrite Hd in O2, O3.
  destruct (IH (S i) (ticket_consume e i m)) as (I1 & I2 & I3); [congruence..|]. split; [lia|]. split.
  - intros Hz. econstructor; [apply O2; lia|]. apply I2. lia.
  - intros s' Hs. inversion Hs as [|? ? ? s1 ? ? Hstep Hrest]; subst. specialize (O3 _ Hstep).
    assert (s1 = abstract (ticket_consume e i m)) as -> by (eapply step_unique; [exact Hstep|by apply O2]).
    destruct (I3 _ Hrest) as [I4 I5]. split; [lia|done].
Qed.

(** C21: The mirror's report on a chain is empty exactly when the machine has a normal
    form and the chain is a run of it from the start to the stored state. *)
Theorem ticket_mirror_iff v d events :
  v ≠ PyNone → pget (u "schema_version") d = PyInt 3 →
  ∃ r, ticket_finish (ticket_replay events 1 (ticket_mirror_new (Some v) (PyDict d))) = Some r ∧
       (rp_values r = [] ↔
        ∃ sm s, _normalize_ticket_state_machine v = Ok sm ∧
          ticket_steps sm (py_truth (pget (u "debug") d)) 1 ticket_start events s ∧
          (∀ c, ts_current s = Some c → pget (u "status") d = PyStr c) ∧
          pget (u "close_state") d = opt_val (ts_close s)).
Proof.
  intros Hv Hver. set (m0 := ticket_mirror_new (Some v) (PyDict d)).
  assert (Hm0 : tm_enabled m0 = true ∧ tm_metadata m0 = d ∧ collector_inv (tm_problems m0) ∧ abstract m0 = ticket_start ∧
                match _normalize_ticket_state_machine v with
                | Ok sm => tm_machine m0 = Some sm ∧ problems m0 = 0 | Err _ => tm_machine m0 = None ∧ problems m0 = 1 end).
  { unfold m0, ticket_mirror_new. cbn [is_dict]. rewrite Hver. cbn [as_exact_int andb].
    rewrite bool_decide_eq_true_2 by done.
    assert (match v with PyNone => false | _ => true end = true) as -> by by destruct v.
    destruct (_normalize_ticket_state_machine v); cbn; split_and!; try done; try apply collector_new_inv.
    exact (append_problem_inv _ _ collector_new_inv). }
  clearbody m0. destruct Hm0 as (He & Hd & Hc & Ha & Hn).
  pose proof (replay_kept events 1 m0) as [K1 K2 K3 K4]. specialize (K4 Hc).
  set (m := ticket_replay events 1 m0) in *. unfold ticket_finish. rewrite K1, He, K3. cbn [negb].
  destruct (_normalize_ticket_state_machine v) as [sm|]; destruct Hn as [Hn1 Hn2]; rewrite Hn1.
  - eexists. split; [reflexivity|]. set (b1 := match tm_current m with Some _ => _ | None => _ end).
    rewrite note_close, note_metadata. set (b2 := negb (is_opt _ _)).
    match goal with |- context [render_collector (tm_problems ?x)] => set (mf := x) end.
    assert (Hk : kept m mf) by (unfold mf; kept).
    rewrite (proj1 (render_collector_spec _ (kp_problems _ _ Hk K4))).
    assert (Hmf : pc_total (tm_problems mf) = (if b2 then 1 else 0) + ((if b1 then 1 else 0) + problems m)).
    { change (pc_total (tm_problems mf)) with (problems mf). unfold mf. by rewrite !problems_note. }
    clearbody mf. rewrite Hmf. clear Hk Hmf mf.
    destruct (replay_outcome sm _ events 1 m0 He Hn1 eq_refl) as (R1 & R2 & R3). fold m in R1, R2, R3. rewrite Ha in R2, R3.
    assert (Hmd : tm_metadata m = d) by congruence. rewrite Hn2, Hd in *.
    assert (Hb1 : b1 = false ↔ ∀ c, tm_current m = Some c → pget (u "status") d = PyStr c).
    { unfold b1. rewrite Hmd. destruct (tm_current m) as [c|]; [|by split].
      rewrite negb_false_iff, is_lit_iff. split; [by intros ? ? [= <-]|intros Hx; by apply Hx]. }
    assert (Hb2 : b2 = false ↔ pget (u "close_state") d = opt_val (tm_close m)).
    { unfold b2. rewrite Hmd. by rewrite negb_false_iff, is_opt_iff. }
    change (if b1 then 1 else 0) with (down b1). change (if b2 then 1 else 0) with (down b2). split.
    + intros Hz. exists sm, (abstract m). split; [done|]. split; [apply R2; lia|].
      split; [apply Hb1, down_0; lia|apply Hb2, down_0; lia].
    + intros (sm' & s & [= <-] & Hs & H1 & H2). destruct (R3 _ Hs) as [Hz ->].
      rewrite (proj2 (down_0 b1)) by by apply Hb1. rewrite (proj2 (down_0 b2)) by by apply Hb2. lia.
  - eexists. split; [reflexivity|]. rewrite (proj1 (render_collector_spec _ K4)).
    split; [|intros (sm & s & [=] & _)].
    assert (m = m0) as ->.
    { unfold m. clear -Hn1. generalize 1. induction events as [|e es IH]; intros i; [done|]. cbn [ticket_replay].
      assert (ticket_consume e i m0 = m0) as -> by (unfold ticket_consume; rewrite Hn1; by destruct (tm_enabled m0)).
      apply IH. }
    change (pc_total (tm_problems m0)) with (problems m0). by rewrite Hn2.
Qed.

Module Sample.
Definition machine : pyval := machine_value
  (mkMachine [u "init_in_progress"; u "plan_done"; u "completed"]
     [(u "init_in_progress", u "plan_done"); (u "plan_done", u "completed")] [u "reviewed"; u "closed"]).
Definition event (kind : string) (payload : dict) : dict := [(u "event_type", PyStr (u kind)); (u "payload", PyDict payload)].
Definition change (a b : string) (more : dict) : dict :=
  event "state_changed" ((u "from", PyStr (u a)) :: (u "to", PyStr (u b)) :: more).
Definition chain : list dict := [
  event "ticket_created" [(u "birth_kind", PyStr (u "plan"))];
  change "init_in_progress" "plan_done" [];
  change "plan_done" "completed" [(u "delivery_verdict", PyStr (u "verified"))];
  event "close_phase" [(u "from", PyNone); (u "to", PyStr (u "reviewed"))]].
Definition metadata : dict :=
  [(u "schema_version", PyInt 3); (u "status", PyStr (u "completed")); (u "close_state", PyStr (u "reviewed"))].
End Sample.

Lemma ticket_mirror_iff_witness :
  option_map rp_values (ticket_finish (ticket_replay Sample.chain 1 (ticket_mirror_new (Some Sample.machine) (PyDict Sample.metadata))))
  = Some [] ∧
  ∃ r, ticket_finish (ticket_replay Sample.chain 1 (ticket_mirror_new (Some Sample.machine) (PyDict Sample.metadata))) = Some r ∧
       (rp_values r = [] ↔
        ∃ sm s, _normalize_ticket_state_machine Sample.machine = Ok sm ∧
          ticket_steps sm (py_truth (pget (u "debug") Sample.metadata)) 1 ticket_start Sample.chain s ∧
          (∀ c, ts_current s = Some c → pget (u "status") Sample.metadata = PyStr c) ∧
          pget (u "close_state") Sample.metadata = opt_val (ts_close s)).
Proof.
  split; [vm_compute; reflexivity|]. apply (ticket_mirror_iff Sample.machine Sample.metadata Sample.chain); [discriminate|reflexivity].
Defined.

(** Beyond the last close phase nothing is expected, and [null] is accepted. *)
Example close_phase_after_closed :
  let chain := Sample.chain ++ [Sample.event "close_phase" [(u "from", PyStr (u "reviewed")); (u "to", PyStr (u "closed"))];
                                Sample.event "close_phase" [(u "from", PyStr (u "closed")); (u "to", PyNone)]] in
  option_map rp_values (ticket_finish (ticket_replay chain 1 (ticket_mirror_new (Some Sample.machine)
    (PyDict (dset (u "close_state") (PyStr (u "closed")) Sample.metadata))))) = Some [].
Proof. vm_compute. reflexivity. Qed.
