(* ===== verification/BindingMirror.v ===== *)
(** * The binding of an execution root ([execution_binding_shape_ok],
    [ExecutionBindingMirror], [src/src/icode/pack_verify.py])

    A ticket may be bound once to a directory, given by the identities of the
    directory and all its ancestors, at a moment when nothing is running.  The
    path is a POSIX or a Windows path, parsed as [pathlib] does. *)

From S2P Require Import Prelude PyText PyVal Paths EventSchema.

Definition MAX_EXECUTION_BINDING_ANCESTORS : nat := 256.

(** ** [PureWindowsPath] *)
Definition backslash : N := 92.
Record win_path := mkWinPath { wp_drive : pystr; wp_root : pystr; wp_tail : list pystr }.

Definition find_char (c : N) (start : nat) (s : pystr) : option nat :=
  match find_sub [c] (drop start s) with Some i => Some (start + i) | None => None end.
Definition upper_az (c : N) : N := if is_lower_az c then (c - 32)%N else c.

(** [ntpath.splitroot] of a text without slashes. *)
Definition splitroot (p : pystr) : pystr * pystr * pystr :=
  if take 1 p =s [backslash] then
    if take 1 (drop 1 p) =s [backslash] then
      let start := if (upper_az <$> take 8 p) =s u "\\?\UNC\" then 8 else 2 in
      match find_char backslash start p with
      | None => (p, [], [])
      | Some i =>
        match find_char backslash (i + 1) p with
        | None => (p, [], [])
        | Some j => (take j p, take 1 (drop j p), drop (j + 1) p)
        end
      end
    else ([], take 1 p, drop 1 p)
  else if take 1 (drop 1 p) =s u ":" then
    if take 1 (drop 2 p) =s [backslash] then (take 2 p, [backslash], drop 3 p) else (take 2 p, [], drop 2 p)
  else ([], [], p).

Definition WinPath_of_str (s : pystr) : win_path :=
  let '(drv, rt, rel) := splitroot (replace_char slash backslash s) in
  let rt :=
    match rt with
    | [] =>
      if startswith [backslash] drv && negb (endswith [backslash] drv) then
        match split_on backslash drv with
        | [_; _; c; _] => if contains c (u "?.") then [] else [backslash]
        | [_; _; _; _; _; _] => [backslash]
        | _ => []
        end
      else []
    | _ => rt
    end in
  mkWinPath drv rt (filter (λ w, w ≠ [] ∧ w ≠ [dot]) (split_on backslash rel)).

Definition win_is_absolute (p : win_path) : bool := (wp_drive p ≠s []) && (wp_root p ≠s []).

(** An absolute path of either kind: its anchor and the rest. *)
Record pure_path := mkPure { pp_anchor : pystr; pp_sep : N; pp_tail : list pystr }.
Definition pure_str (p : pure_path) : pystr := pp_anchor p ++ join [pp_sep p] (pp_tail p).

Definition pure_path_of (raw : pystr) : option pure_path :=
  let w := WinPath_of_str raw in
  if win_is_absolute w then Some (mkPure (wp_drive w ++ wp_root w) backslash (wp_tail w))
  else
    let p := Path_of_str raw in
    if is_absolute p then Some (mkPure (root p) slash (parts p)) else None.

(** The anchor, every ancestor, and the path itself. *)
Definition ancestors (p : pure_path) : list pystr :=
  (λ n, pure_str (mkPure (pp_anchor p) (pp_sep p) (take n (pp_tail p)))) <$> seq 0 (S (length (pp_tail p))).

(** [set(d) == {...}] for distinct names. *)
Definition exact_fields (names : list string) (d : dict) : bool :=
  forallb (λ k, k ∈s (u <$> names)) (dkeys d) && forallb (λ n, dhas (u n) d) names.

Definition binding_row_ok (row : pyval) (expected : pystr) : bool :=
  match row with
  | PyDict r =>
    exact_fields ["path"; "device"; "inode"] r && is_lit (pget (u "path") r) expected
    && match as_exact_int (pget (u "device") r) with Some z => (0 <=? z)%Z | None => false end
    && match as_exact_int (pget (u "inode") r) with Some z => (0 <? z)%Z | None => false end
  | _ => false
  end.

Fixpoint all2 {A B} (f : A → B → bool) (l : list A) (k : list B) : bool :=
  match l, k with
  | [], [] => true
  | a :: l', b :: k' => f a b && all2 f l' k'
  | _, _ => false
  end.

Definition execution_binding_shape_ok (binding : pyval) : bool :=
  match binding with
  | PyDict b =>
    exact_fields ["version"; "path"; "ancestors"] b
    && bool_decide (as_exact_int (pget (u "version") b) = Some 1%Z)
    && match pget (u "path") b with
       | PyStr raw =>
         (raw ≠s []) && negb (has_char 0 raw)
         && match pure_path_of raw with
            | Some p =>
              (pure_str p =s raw) && negb (u ".." ∈s pp_tail p)
              && (S (length (pp_tail p)) <=? MAX_EXECUTION_BINDING_ANCESTORS)
              && match pget (u "ancestors") b with
                 | PyList rows => all2 binding_row_ok rows (ancestors p)
                 | _ => false
                 end
            | None => false
            end
       | _ => false
       end
  | _ => false
  end.

Definition is_active (row : pyval) : bool := match row with PyDict r => is_lit (pget (u "state") r) (u "active") | _ => false end.

Definition execution_binding_topology_ok (meta : dict) : bool :=
  match dget (u "execution_binding") meta with
  | None => true
  | Some b =>
    let history := let h := pget (u "checkout_history") meta in if py_truth h then h else PyList [] in
    execution_binding_shape_ok b
    && match pget (u "active_checkout") meta with PyNone => true | _ => false end
    && match history with PyList l => negb (existsb is_active l) | _ => false end
  end.

(** ** The mirror *)
Record ExecutionBindingMirror := mkBinding {
  bm_metadata : pyval;
  bm_binding : pyval;
  bm_seen : bool;
  bm_open_steps : list (option pystr);
  bm_open_operations : list (option pystr);
  bm_open_agents : list (option pystr);
  bm_closed : bool;
  bm_issues : list pystr
}.
Definition binding_new (metadata : pyval) : ExecutionBindingMirror := mkBinding metadata PyNone false [] [] [] false [].

(** The identities that are open; one without identity never closes. *)
Definition track (start finish key : string) (kind : pyval) (payload : dict) (opened : list (option pystr))
  : list (option pystr) :=
  let identity := pget (u key) payload in
  if is_lit kind (u start) then
    let i := match identity with PyStr [] => None | PyStr s => Some s | _ => None end in
    if bool_decide (i ∈ opened) then opened else i :: opened
  else if is_lit kind (u finish) then
    match identity with PyStr s => filter (λ o, o ≠ Some s) opened | _ => opened end
  else opened.

Definition issue (bad : bool) (label : string) (issues : list pystr) : list pystr :=
  if bad && negb (u label ∈s issues) then issues ++ [u label] else issues.

Definition dict_of (v : pyval) : option dict := as_dict v.
Definition dict_has (k : string) (v : pyval) : bool := match v with PyDict d => dhas (u k) d | _ => false end.
Definition activates (change : pyval) : bool :=
  match change with
  | PyDict d =>
    negb match pget (u "active_checkout") d with PyNone => true | _ => false end
    || match pget (u "checkout_history") d with PyList l => existsb is_active l | _ => false end
  | _ => false
  end.

(** The form a binding event must have. *)
Definition binding_event_ok (event payload : dict) : bool :=
  bool_decide (as_exact_int (pget (u "execution_root_binding") payload) = Some 1%Z)
  && exact_fields ["execution_root_binding"; "set"; "append"; "metadata_hash_after"] payload
  && str_test hex64 (pget (u "metadata_hash_after") payload)
  && match pget (u "set") payload with PyDict d => exact_fields ["execution_binding"] d | _ => false end
  && py_eq (pget (u "append") payload) (PyDict [])
  && str_test (λ s, strip s ≠s []) (pget (u "request_id") event)
  && is_lit (pget (u "actor") event) (u "icode").

Definition event_payload (event : dict) : dict := match pget (u "payload") event with PyDict p => p | _ => [] end.
Definition touches (payload : dict) : bool :=
  dict_has "execution_binding" (pget (u "set") payload) || dict_has "execution_binding" (pget (u "append") payload).
Definition marked (payload : dict) : bool := dhas (u "execution_root_binding") payload.
Definition candidate (payload : dict) : pyval :=
  match pget (u "set") payload with PyDict d => pget (u "execution_binding") d | _ => PyNone end.

Definition with_issues (iss : list pystr) (m : ExecutionBindingMirror) : ExecutionBindingMirror :=
  mkBinding (bm_metadata m) (bm_binding m) (bm_seen m) (bm_open_steps m) (bm_open_operations m) (bm_open_agents m)
    (bm_closed m) iss.

Definition track_all (event : dict) (m : ExecutionBindingMirror) : ExecutionBindingMirror :=
  let kind := pget (u "event_type") event in
  let payload := event_payload event in
  mkBinding (bm_metadata m) (bm_binding m) (bm_seen m)
    (track "step_started" "step_finished" "attempt" kind payload (bm_open_steps m))
    (track "operation_started" "operation_finished" "attempt" kind payload (bm_open_operations m))
    (track "agent_spawned" "agent_result" "spawn_id" kind payload (bm_open_agents m))
    (if is_lit kind (u "close_phase") then true else if is_lit kind (u "ticket_reopened") then false else bm_closed m)
    (issue (negb (is_lit kind (u "close_phase")) && is_lit kind (u "ticket_reopened") && bm_seen m)
       "binding_checkout_conflict" (bm_issues m)).

Definition busy (m : ExecutionBindingMirror) : bool :=
  match bm_open_steps m, bm_open_operations m, bm_open_agents m with [], [], [] => bm_closed m | _, _, _ => true end.

Definition binding_consume (event : dict) (m : ExecutionBindingMirror) : ExecutionBindingMirror :=
  let payload := event_payload event in
  let m := track_all event m in
  if negb (is_lit (pget (u "event_type") event) (u "metadata_updated")) then
    with_issues (issue (marked payload) "binding_wrong_event_type" (bm_issues m)) m
  else if negb (touches payload) && negb (marked payload) then
    with_issues (issue (bm_seen m && (activates (pget (u "set") payload) || activates (pget (u "append") payload)))
                   "binding_checkout_conflict" (bm_issues m)) m
  else
    let iss := issue (negb (binding_event_ok event payload)) "binding_event_shape" (bm_issues m) in
    let iss := issue (bm_seen m) "binding_event_duplicate" iss in
    let iss := issue (busy m) "binding_not_quiescent" iss in
    let iss := issue (negb (execution_binding_shape_ok (candidate payload))) "binding_shape" iss in
    mkBinding (bm_metadata m) (candidate payload) true (bm_open_steps m) (bm_open_operations m) (bm_open_agents m)
      (bm_closed m) iss.

Definition binding_issues (m : ExecutionBindingMirror) : list pystr :=
  match bm_metadata m with
  | PyDict meta =>
    let iss := issue (negb (execution_binding_topology_ok meta)) "binding_checkout_conflict" (bm_issues m) in
    issue (match dget (u "execution_binding") meta with
           | None => bm_seen m
           | Some b => negb (bm_seen m) || negb (py_eq b (bm_binding m))
           end) "binding_metadata_mismatch" iss
  | _ => bm_issues m
  end.
Definition binding_finish (m : ExecutionBindingMirror) : list pystr := sorted_strs (binding_issues m).

Definition binding_replay (events : list dict) (m : ExecutionBindingMirror) : ExecutionBindingMirror :=
  foldl (λ m e, binding_consume e m) m events.

(** ** What the mirror accepts *)
(** The open identities and the close state after a chain. *)
Definition opened_after (start finish key : string) (events : list dict) : list (option pystr) :=
  foldl (λ o e, track start finish key (pget (u "event_type") e) (event_payload e) o) [] events.
Definition closed_after (events : list dict) : bool :=
  foldl (λ c e, if is_lit (pget (u "event_type") e) (u "close_phase") then true
                else if is_lit (pget (u "event_type") e) (u "ticket_reopened") then false else c) false events.

(** Nothing is running and the ticket is open. *)
Definition quiescent (events : list dict) : Prop :=
  opened_after "step_started" "step_finished" "attempt" events = [] ∧
  opened_after "operation_started" "operation_finished" "attempt" events = [] ∧
  opened_after "agent_spawned" "agent_result" "spawn_id" events = [] ∧
  closed_after events = false.

Definition is_update (e : dict) : Prop := pget (u "event_type") e = PyStr (u "metadata_updated").
(** An event that says nothing of the binding. *)
Definition silent (e : dict) : Prop :=
  marked (event_payload e) = false ∧ (is_update e → touches (event_payload e) = false).
(** The event that binds, with its candidate. *)
Definition binds (e : dict) : Prop :=
  is_update e ∧ binding_event_ok e (event_payload e) = true ∧
  execution_binding_shape_ok (candidate (event_payload e)) = true.
(** After the binding: no new checkout, and no reopening. *)
Definition settled (e : dict) : Prop :=
  silent e ∧ pget (u "event_type") e ≠ PyStr (u "ticket_reopened") ∧
  (is_update e → activates (pget (u "set") (event_payload e)) = false ∧ activates (pget (u "append") (event_payload e)) = false).

Lemma issue_nil bad label iss : issue bad label iss = [] ↔ bad = false ∧ iss = [].
Proof.
  unfold issue. destruct bad; cbn [andb]; [|tauto]. case_bool_decide as Hin; cbn [negb].
  - split; [intros ->; by inversion Hin|by intros [[=] _]].
  - split; [by intros []%app_nil|by intros [[=] _]].
Qed.

Lemma replay_snoc es e m : binding_replay (es ++ [e]) m = binding_consume e (binding_replay es m).
Proof. unfold binding_replay. by rewrite foldl_app. Qed.

Lemma consume_tracks e m :
  bm_open_steps (binding_consume e m) = bm_open_steps (track_all e m) ∧
  bm_open_operations (binding_consume e m) = bm_open_operations (track_all e m) ∧
  bm_open_agents (binding_consume e m) = bm_open_agents (track_all e m) ∧
  bm_closed (binding_consume e m) = bm_closed (track_all e m) ∧
  bm_metadata (binding_consume e m) = bm_metadata m.
Proof. unfold binding_consume. cbv zeta. repeat case_match; done. Qed.

Lemma replay_tracks es md :
  let m := binding_replay es (binding_new md) in
  bm_open_steps m = opened_after "step_started" "step_finished" "attempt" es ∧
  bm_open_operations m = opened_after "operation_started" "operation_finished" "attempt" es ∧
  bm_open_agents m = opened_after "agent_spawned" "agent_result" "spawn_id" es ∧
  bm_closed m = closed_after es ∧ bm_metadata m = md.
Proof.
  cbv zeta. induction es as [|e es IH] using rev_ind; [done|].
  rewrite replay_snoc. destruct (consume_tracks e (binding_replay es (binding_new md))) as (-> & -> & -> & -> & ->).
  destruct IH as (H1 & H2 & H3 & H4 & H5). unfold opened_after, closed_after in *. rewrite !foldl_app. cbn [foldl track_all].
  rewrite <- H1, <- H2, <- H3, <- H4, H5. done.
Qed.

Lemma busy_quiescent es e md :
  busy (track_all e (binding_replay es (binding_new md))) = false ↔ quiescent (es ++ [e]).
Proof.
  pose proof (replay_tracks (es ++ [e]) md) as (H1 & H2 & H3 & H4 & _). rewrite replay_snoc in *.
  destruct (consume_tracks e (binding_replay es (binding_new md))) as (E1 & E2 & E3 & E4 & _).
  unfold busy, quiescent. rewrite <- H1, <- H2, <- H3, <- H4, E1, E2, E3, E4.
  destruct (bm_open_steps (track_all _ _)), (bm_open_operations (track_all _ _)), (bm_open_agents (track_all _ _));
    (split; [intros Hb|intros (A1 & A2 & A3 & A4)]); try done; by repeat split.
Qed.

Lemma update_dec e : {is_update e} + {¬ is_update e}.
Proof. unfold is_update. destruct (is_lit (pget (u "event_type") e) (u "metadata_updated")) eqn:E.
  - left. by apply is_lit_iff. - right. rewrite <- is_lit_iff. congruence. Qed.

Lemma track_seen e m : bm_seen (track_all e m) = bm_seen m.
Proof. done. Qed.
Lemma track_issues e m : bm_seen m = false → bm_issues (track_all e m) = bm_issues m.
Proof. intros Hs. cbn. rewrite Hs, andb_false_r. done. Qed.

(** Before a binding: the event is silent, or it binds. *)
Lemma consume_unseen e m :
  bm_seen m = false →
  (bm_issues (binding_consume e m) = [] ∧ bm_seen (binding_consume e m) = false ↔ bm_issues m = [] ∧ silent e) ∧
  (bm_issues (binding_consume e m) = [] ∧ bm_seen (binding_consume e m) = true ↔
     bm_issues m = [] ∧ binds e ∧ busy (track_all e m) = false) ∧
  (bm_seen (binding_consume e m) = true → bm_binding (binding_consume e m) = candidate (event_payload e)).
Proof.
  intros Hs. unfold binding_consume, silent, binds. cbv zeta. set (p := event_payload e).
  pose proof (track_issues e m Hs) as Ht.
  destruct (update_dec e) as [Hu|Hu]; unfold is_update in *.
  - assert (is_lit (pget (u "event_type") e) (u "metadata_updated") = true) as -> by by apply is_lit_iff.
    cbn [negb]. destruct (marked p) eqn:Em; [|destruct (touches p) eqn:Et]; cbn [negb]; rewrite ?andb_false_r; cbn [andb].
    + cbn [bm_issues bm_seen bm_binding with_issues]. rewrite !issue_nil, track_seen, Hs, Ht, !negb_false_iff.
      split; [|split; [|done]]; [split; [by intros [_ [=]]|by intros (_ & [=] & _)]|tauto].
    + cbn [bm_issues bm_seen bm_binding with_issues]. rewrite !issue_nil, track_seen, Hs, Ht, !negb_false_iff.
      split; [|split; [|done]]; [split; [by intros [_ [=]]|intros (_ & _ & Hx); by specialize (Hx Hu)]|tauto].
    + cbn [bm_issues bm_seen bm_binding with_issues]. rewrite !issue_nil, track_seen, Hs, Ht. cbn [andb].
      split; [|split; [|done]]; [tauto|]. split; [by intros [_ [=]]|]. intros (_ & (_ & Hok & _) & _). exfalso.
      unfold binding_event_ok, exact_fields in Hok. rewrite !andb_true_iff in Hok. destruct Hok as [[[[[[_ [_ Hf]] _] _] _] _] _].
      cbn [forallb] in Hf. rewrite andb_true_iff in Hf. destruct Hf as [Hf _]. unfold marked in Em. congruence.
  - assert (is_lit (pget (u "event_type") e) (u "metadata_updated") = false) as ->.
    { apply not_true_iff_false. by rewrite is_lit_iff. }
    cbn [negb bm_issues bm_seen bm_binding with_issues]. rewrite !issue_nil, track_seen, Hs, Ht.
    split; [|split; [|done]]; [|split; [by intros [_ [=]]|by intros (_ & (? & _) & _)]]. split; [|tauto].
    intros [[? ?] _]. split; [done|]. split; [done|]. by intros ?.
Qed.

(** After it: the event is settled, or there is an issue. *)
Lemma consume_seen e m :
  bm_seen m = true →
  (bm_issues (binding_consume e m) = [] ↔ bm_issues m = [] ∧ settled e) ∧ bm_seen (binding_consume e m) = true ∧
  (settled e → bm_binding (binding_consume e m) = bm_binding m).
Proof.
  intros Hs. unfold binding_consume, settled, silent. cbv zeta. set (p := event_payload e).
  assert (Ht : bm_issues (track_all e m) = [] ↔ bm_issues m = [] ∧ pget (u "event_type") e ≠ PyStr (u "ticket_reopened")).
  { cbn [track_all bm_issues]. rewrite issue_nil, Hs, andb_true_r, andb_false_iff, negb_false_iff, is_lit_iff.
    rewrite <- (is_lit_iff _ (u "ticket_reopened")), not_true_iff_false. split; [|tauto]. intros [[Hc|Hc] Hi]; [|done].
    split; [done|]. by rewrite Hc. }
  destruct (update_dec e) as [Hu|Hu]; unfold is_update in *.
  - assert (is_lit (pget (u "event_type") e) (u "metadata_updated") = true) as -> by by apply is_lit_iff.
    cbn [negb]. destruct (marked p) eqn:Em; [|destruct (touches p) eqn:Et]; cbn [negb]; rewrite ?andb_false_r; cbn [andb].
    + cbn [bm_issues bm_seen bm_binding with_issues]. rewrite !issue_nil, track_seen, Hs.
      split; [|split; [done|]]; [split; [by intros (_ & _ & [=] & _)|by intros (_ & ([=] & _) & _)]|by intros (([=] & _) & _)].
    + cbn [bm_issues bm_seen bm_binding with_issues]. rewrite !issue_nil, track_seen, Hs.
      split; [|split; [done|]]; [split; [by intros (_ & _ & [=] & _)|intros (_ & (_ & Hx) & _); by specialize (Hx Hu)]|intros ((_ & Hx) & _); by specialize (Hx Hu)].
    + cbn [bm_issues bm_seen bm_binding with_issues]. rewrite !issue_nil, track_seen, Hs, Ht. cbn [andb].
      split; [|done]. rewrite orb_false_iff. split.
      * intros [Hab [Hi Hn]]. exact (conj Hi (conj (conj eq_refl (λ _, eq_refl)) (conj Hn (λ _, Hab)))).
      * intros (Hi & _ & Hn & Hab). exact (conj (Hab Hu) (conj Hi Hn)).
  - assert (is_lit (pget (u "event_type") e) (u "metadata_updated") = false) as ->.
    { apply not_true_iff_false. by rewrite is_lit_iff. }
    cbn [negb bm_issues bm_seen bm_binding with_issues]. rewrite !issue_nil, track_seen, Hs, Ht.
    split; [|done]. split.
    + intros [Hm [Hi Hn]]. refine (conj Hi (conj (conj Hm _) (conj Hn _))); by intros ?.
    + intros (Hi & (Hm & _) & Hn & _). exact (conj Hm (conj Hi Hn)).
Qed.

Lemma replay_seen post m :
  bm_seen m = true →
  (bm_issues (binding_replay post m) = [] ↔ bm_issues m = [] ∧ Forall settled post) ∧
  bm_seen (binding_replay post m) = true ∧
  (Forall settled post → bm_binding (binding_replay post m) = bm_binding m).
Proof.
  revert m. induction post as [|e post IH]; intros m Hs; cbn [binding_replay foldl].
  { split; [|done]. split; [by intros|by intros []]. }
  destruct (consume_seen e m Hs) as (H1 & H2 & H3). destruct (IH _ H2) as (I1 & I2 & I3). unfold binding_replay in *.
  rewrite I1, H1, Forall_cons. split; [tauto|]. split; [done|]. intros [He Hp]. by rewrite I3, H3.
Qed.

Lemma replay_cons e es m : binding_replay (e :: es) m = binding_replay es (binding_consume e m).
Proof. done. Qed.

Lemma replay_app es1 es2 m : binding_replay (es1 ++ es2) m = binding_replay es2 (binding_replay es1 m).
Proof. unfold binding_replay. by rewrite foldl_app. Qed.

Lemma not_update_lit e : ¬ is_update e → is_lit (pget (u "event_type") e) (u "metadata_updated") = false.
Proof. intros Hu. apply not_true_iff_false. by rewrite is_lit_iff. Qed.
Lemma update_lit e : is_update e → is_lit (pget (u "event_type") e) (u "metadata_updated") = true.
Proof. intros Hu. by apply is_lit_iff. Qed.

Lemma silent_unseen es m : bm_seen m = false → Forall silent es → bm_seen (binding_replay es m) = false.
Proof.
  intros Hs Hf. revert m Hs. induction Hf as [|e es [He1 He2] _ IH]; intros m Hs; [done|]. rewrite replay_cons. apply IH.
  unfold binding_consume. cbv zeta. rewrite He1. destruct (update_dec e) as [Hu|Hu].
  - by rewrite (update_lit _ Hu), (He2 Hu).
  - by rewrite (not_update_lit _ Hu).
Qed.

Lemma binds_seen e m :
  binds e → bm_seen (binding_consume e m) = true ∧ bm_binding (binding_consume e m) = candidate (event_payload e).
Proof.
  intros (Hu & Hok & _). unfold binding_consume. cbv zeta. rewrite (update_lit _ Hu). cbn [negb].
  assert (marked (event_payload e) = true) as ->; [|by rewrite andb_false_r].
  unfold binding_event_ok, exact_fields in Hok. rewrite !andb_true_iff in Hok. destruct Hok as [[[[[[_ [_ Hf]] _] _] _] _] _].
  cbn [forallb] in Hf. rewrite andb_true_iff in Hf. apply Hf.
Qed.

(** A chain that binds once, at rest. *)
Definition bound_once (pre es : list dict) (e : dict) : Prop :=
  ∃ es1 es2, es = es1 ++ e :: es2 ∧ Forall silent es1 ∧ binds e ∧ quiescent (pre ++ es1 ++ [e]) ∧ Forall settled es2.

Lemma bound_seen pre es e m :
  bound_once pre es e →
  bm_seen (binding_replay es m) = true ∧ bm_binding (binding_replay es m) = candidate (event_payload e).
Proof.
  intros (es1 & es2 & -> & _ & Hb & _ & Hst). rewrite replay_app, replay_cons.
  destruct (binds_seen e (binding_replay es1 m) Hb) as [H1 H2].
  destruct (replay_seen es2 _ H1) as (_ & R2 & R3). split; [done|]. by rewrite R3.
Qed.

(** An accepted chain, from its start: all silent, or bound once. *)
Lemma replay_unseen md pre es :
  let m := binding_replay pre (binding_new md) in
  bm_seen m = false →
  bm_issues (binding_replay es m) = [] ↔ bm_issues m = [] ∧ (Forall silent es ∨ ∃ e, bound_once pre es e).
Proof.
  cbv zeta. revert pre. induction es as [|e es IH]; intros pre Hs.
  { split.
    - intros Hi. split; [exact Hi|]. by left.
    - by intros [Hi _]. }
  rewrite replay_cons. set (m := binding_replay pre (binding_new md)) in *.
  assert (Hm1 : binding_replay (pre ++ [e]) (binding_new md) = binding_consume e m) by apply replay_snoc.
  destruct (consume_unseen e m Hs) as (C1 & C2 & _).
  destruct (bm_seen (binding_consume e m)) eqn:Es1.
  - destruct (replay_seen es _ Es1) as (R1 & _ & _). rewrite R1. split.
    + intros [Hi Hf]. destruct (proj1 C2 (conj Hi eq_refl)) as (H1 & H2 & H3). split; [done|]. right.
      exists e, [], es. split; [done|]. split; [constructor|]. split; [done|]. split; [by apply (busy_quiescent _ _ md)|done].
    + intros [Hi [Hf|(e' & es1 & es2 & He & Hsil & Hb & Hq & Hst)]].
      * inversion Hf as [|? ? He1 _]; subst. destruct (proj2 C1 (conj Hi He1)) as [_ H1]. congruence.
      * destruct es1 as [|e1 es1]; injection He as -> ->.
        -- apply (busy_quiescent _ _ md) in Hq. destruct (proj2 C2 (conj Hi (conj Hb Hq))) as [H1 _]. done.
        -- inversion Hsil as [|? ? He1 _]; subst. destruct (proj2 C1 (conj Hi He1)) as [_ H1]. congruence.
  - rewrite <- Hm1 in *. rewrite IH by done. rewrite Hm1 in *. split.
    + intros [Hi Hor]. destruct (proj1 C1 (conj Hi eq_refl)) as [H1 H2]. split; [done|].
      destruct Hor as [Hf|(e' & es1 & es2 & -> & Hsil & Hb & Hq & Hst)]; [left; by constructor|].
      right. exists e', (e :: es1), es2. rewrite <- app_assoc in Hq. split_and!; try done. by constructor.
    + intros [Hi [Hf|(e' & es1 & es2 & He & Hsil & Hb & Hq & Hst)]].
      * inversion Hf as [|? ? He1 Hf1]; subst. destruct (proj2 C1 (conj Hi He1)) as [H1 _]. split; [done|]. by left.
      * destruct es1 as [|e1 es1]; injection He as -> ->.
        -- apply (busy_quiescent _ _ md) in Hq. destruct (proj2 C2 (conj Hi (conj Hb Hq))) as [_ H1]. congruence.
        -- inversion Hsil as [|? ? He1 Hf1]; subst. destruct (proj2 C1 (conj Hi He1)) as [H1 _]. split; [done|]. right.
           exists e', es1, es2. rewrite <- app_assoc. split_and!; done.
Qed.

Lemma sorted_strs_nil l : sorted_strs l = [] ↔ l = [].
Proof.
  destruct l as [|x l]; [done|]. split; [|done]. unfold sorted_strs. cbn [foldr]. intros Hn. exfalso. revert Hn.
  destruct (foldr str_insert [] l) as [|y k]; cbn; [done|]. by destruct (str_compare x y).
Qed.

(** The mirror is content exactly when the metadata and the chain agree that the
    ticket was never bound, or bound once, at rest, to the recorded root. *)
Theorem binding_mirror_iff meta events :
  binding_finish (binding_replay events (binding_new (PyDict meta))) = [] ↔
  execution_binding_topology_ok meta = true ∧
  ((dget (u "execution_binding") meta = None ∧ Forall silent events) ∨
   ∃ e b, bound_once [] events e ∧ dget (u "execution_binding") meta = Some b ∧
          py_eq b (candidate (event_payload e)) = true).
Proof.
  unfold binding_finish, binding_issues. rewrite sorted_strs_nil.
  assert (bm_metadata (binding_replay events (binding_new (PyDict meta))) = PyDict meta) as -> by apply replay_tracks.
  rewrite !issue_nil, negb_false_iff. pose proof (replay_unseen (PyDict meta) [] events eq_refl) as Hr. cbv zeta in Hr.
  change (binding_replay [] (binding_new (PyDict meta))) with (binding_new (PyDict meta)) in Hr. rewrite Hr. clear Hr.
  set (m := binding_replay events _). split.
  - intros (Hm & Ht & _ & [Hf|(e & Hb)]); (split; [done|]).
    + left. split; [|done]. pose proof (silent_unseen events (binding_new (PyDict meta)) eq_refl Hf) as Hs. fold m in Hs.
      rewrite Hs in Hm. by destruct (dget (u "execution_binding") meta).
    + right. destruct (bound_seen [] events e (binding_new (PyDict meta)) Hb) as [H1 H2]. fold m in H1, H2. rewrite H1, H2 in Hm.
      destruct (dget (u "execution_binding") meta) as [b|]; [|done]. apply negb_false_iff in Hm. by exists e, b.
  - intros (Ht & [[Hn Hf]|(e & b & Hb & Hd & Heq)]).
    + rewrite Hn. split; [exact (silent_unseen events (binding_new (PyDict meta)) eq_refl Hf)|]. split; [done|]. split; [done|by left].
    + rewrite Hd. destruct (bound_seen [] events e (binding_new (PyDict meta)) Hb) as [H1 H2]. fold m in H1, H2. rewrite H1, H2.
      cbn [negb orb]. rewrite Heq. split; [done|]. split; [done|]. split; [done|]. right. by exists e.
Qed.

Example windows_binding :
  let row p := PyDict [(u "path", PyStr p); (u "device", PyInt 3); (u "inode", PyInt 5)] in
  execution_binding_shape_ok
    (PyDict [(u "version", PyInt 1); (u "path", PyStr (u "C:\work\repo"));
             (u "ancestors", PyList [row (u "C:\"); row (u "C:\work"); row (u "C:\work\repo")])]) = true ∧
  pure_str <$> pure_path_of (u "\\host\share\x") = Some (u "\\host\share\x") ∧
  pure_path_of (u "C:rel") = None.
Proof. vm_compute. repeat split. Qed.
