(* ===== verification/ExecutionMirror.v ===== *)
(** * Execution pairing in the event chain ([_ExecutionEventMirror],
    [src/src/icode/pack_verify.py])

    Steps and operations are started, checked and finished in pairs named by an
    attempt; the ticket's state may not move while an operation with side
    effects is open, and a completed ticket needs the receipt of its last step.
    Attempts are remembered by their SHA-256 digest only. *)

From S2P Require Import Prelude PyText PyVal Hashing Problems EventSchema TicketMirror BindingMirror.

Definition _MAX_EXECUTION_MODEL_STEPS : nat := N.to_nat 4096.
Definition _MAX_EXECUTION_MODEL_ENUM_VALUES : nat := 256.
Definition _MAX_EXECUTION_MODEL_NAME_CHARS : nat := 128.

(** ** The catalog of the execution model *)
Record execution_model := mkModel {
  xm_steps : list pystr;
  xm_boundaries : list pystr;
  xm_step_outcomes : list pystr;
  xm_operation_classes : list pystr;
  xm_failure_classes : option (list pystr);
  xm_success_version : bool
}.

Definition normalize_names (field_name : string) (raw_names : pyval) (maximum : nat) : result (list pystr) :=
  match bounded_names _MAX_EXECUTION_MODEL_NAME_CHARS 1 maximum raw_names with
  | Some names => Ok names
  | None => Err (ValueError ("execution_model." ++ field_name ++ " 结构无效"))
  end.
(** [list(d)] of an object, or the value itself in a snapshot. *)
Definition names_of (snapshot : bool) (v : pyval) (error : string) : result pyval :=
  if snapshot then Ok v
  else match v with PyDict d => Ok (PyList (PyStr <$> dkeys d)) | _ => Err (ValueError error) end.

Definition _normalize_execution_model (value : pyval) (snapshot : bool) : result execution_model :=
  match value with
  | PyDict d =>
    _ ← raise_if (negb (bool_decide (as_exact_int (pget (u "schema_version") d) = Some 1%Z)))
          (ValueError "execution_model.schema_version 必须为 1");
    raw_steps ← (if snapshot then
                   match pget (u "steps") d with
                   | PyList l => Ok (PyList l) | _ => Err (ValueError "execution_model.steps 必须是数组") end
                 else names_of false (pget (u "step_contracts") d) "execution_model.step_contracts 必须是对象");
    steps ← normalize_names "steps" raw_steps _MAX_EXECUTION_MODEL_STEPS;
    boundaries ← normalize_names "boundaries" (pget (u "boundaries") d) _MAX_EXECUTION_MODEL_ENUM_VALUES;
    step_outcomes ← normalize_names "step_outcomes" (pget (u "step_outcomes") d) _MAX_EXECUTION_MODEL_ENUM_VALUES;
    raw_classes ← names_of snapshot (pget (u "operation_classes") d) "execution_model.operation_classes 必须是对象";
    operation_classes ← normalize_names "operation_classes" raw_classes _MAX_EXECUTION_MODEL_ENUM_VALUES;
    failure_classes ← match dget (u (if snapshot then "failure_classes" else "failure_policies")) d with
                      | None => Ok None
                      | Some raw =>
                        raw_names ← names_of snapshot raw "execution_model.failure_policies 必须是对象";
                        names ← normalize_names "failure_classes" raw_names _MAX_EXECUTION_MODEL_ENUM_VALUES;
                        Ok (Some (sorted_strs names))
                      end;
    success ← (if snapshot && dhas (u "success_decision_version") d then
                 _ ← raise_if (negb (bool_decide (as_exact_int (pget (u "success_decision_version") d) = Some 1%Z)))
                       (ValueError "execution_model.success_decision_version 必须为 1");
                 Ok true
               else Ok false);
    Ok (mkModel (sorted_strs steps) boundaries step_outcomes (sorted_strs operation_classes) failure_classes success)
  | _ => Err (ValueError "execution_model 必须是对象")
  end.

(** The dictionary the source returns. *)
Definition model_value (m : execution_model) : pyval :=
  PyDict ([(u "schema_version", PyInt 1); (u "steps", PyList (PyStr <$> xm_steps m));
           (u "boundaries", PyList (PyStr <$> xm_boundaries m)); (u "step_outcomes", PyList (PyStr <$> xm_step_outcomes m));
           (u "operation_classes", PyList (PyStr <$> xm_operation_classes m))]
          ++ match xm_failure_classes m with Some fs => [(u "failure_classes", PyList (PyStr <$> fs))] | None => [] end
          ++ (if xm_success_version m then [(u "success_decision_version", PyInt 1)] else [])).

Definition _execution_model_snapshot_from_raw (raw_contracts : dict) : result (option execution_model) :=
  match pget (u "execution_model") raw_contracts with
  | PyDict d =>
    if bool_decide (as_exact_int (pget (u "schema_version") d) = Some 1%Z) then
      m ← _normalize_execution_model (PyDict d) false;
      Ok (Some (mkModel (xm_steps m) (xm_boundaries m) (xm_step_outcomes m) (xm_operation_classes m)
                  (xm_failure_classes m) true))
    else Ok None
  | _ => Ok None
  end.

(** ** The receipt that completes a ticket *)
Record completion_policy := mkPolicy { cp_step : pystr; cp_required_checks : list pystr }.

Definition short_name (v : pyval) : option pystr :=
  match v with
  | PyStr s => if (s ≠s []) && (length s <=? _MAX_EXECUTION_MODEL_NAME_CHARS) then Some s else None
  | _ => None
  end.

Definition _normalize_completion_receipt (value : pyval) : result completion_policy :=
  match value with
  | PyDict d =>
    _ ← raise_if (negb (exact_fields ["schema_version"; "target"; "step"; "required_checks"] d))
          (ValueError "completion_receipt 字段集合无效");
    _ ← raise_if (negb (bool_decide (as_exact_int (pget (u "schema_version") d) = Some 1%Z)))
          (ValueError "completion_receipt.schema_version 必须为 1");
    _ ← raise_if (negb (is_lit (pget (u "target") d) (u "completed"))) (ValueError "completion_receipt.target 必须为 completed");
    match short_name (pget (u "step") d) with
    | None => Err (ValueError "completion_receipt.step 结构无效")
    | Some step =>
      match bounded_names _MAX_EXECUTION_MODEL_NAME_CHARS 1 _MAX_EXECUTION_MODEL_ENUM_VALUES (pget (u "required_checks") d) with
      | None => Err (ValueError "completion_receipt.required_checks 结构无效")
      | Some checks => Ok (mkPolicy step checks)
      end
    end
  | _ => Err (ValueError "completion_receipt 必须是对象")
  end.

Definition _completion_receipt_snapshot_from_raw (raw_contracts : dict) : result (option completion_policy) :=
  match pget (u "state_machine") raw_contracts with
  | PyDict machine =>
    match pget (u "gate_policy") machine with
    | PyDict gate_policy =>
      match pget (u "step_by_target") gate_policy with
      | PyDict step_by_target =>
        match dget (u "completed") step_by_target with
        | None => Ok None
        | Some v =>
          match short_name v, pget (u "execution_model") raw_contracts with
          | None, _ => Err (ValueError "state_machine.gate_policy.step_by_target.completed 结构无效")
          | Some step, PyDict model =>
            _ ← raise_if (negb (bool_decide (as_exact_int (pget (u "schema_version") model) = Some 1%Z)))
                  (ValueError "completed 映射要求 execution_model v1 契约");
            match as_dict (pget (u "step_contracts") model) ≫= dget step with
            | None => Err (ValueError "completed 映射步骤缺 execution_model.step_contracts")
            | Some (PyDict contract) =>
              match as_list (pget (u "boundaries") model) ≫= all_strs with
              | None => Err (ValueError "execution_model.boundaries 结构无效")
              | Some boundaries =>
                policy ← _normalize_completion_receipt
                           (PyDict [(u "schema_version", PyInt 1); (u "target", PyStr (u "completed")); (u "step", PyStr step);
                                    (u "required_checks", pget (u "required_checks") contract)]);
                if forallb (λ b, b ∈s boundaries) (cp_required_checks policy) then Ok (Some policy)
                else Err (ValueError "completion_receipt.required_checks 含未知 boundary")
              end
            | Some _ => Err (ValueError "completed 映射步骤契约结构无效")
            end
          | Some _, _ => Err (ValueError "completed 映射要求 execution_model v1 契约")
          end
        end
      | _ => Err (ValueError "state_machine.gate_policy.step_by_target 结构无效")
      end
    | _ => Ok None
    end
  | _ => Ok None
  end.

(** ** The mirror *)
Definition fingerprint : Type := list N.
Definition _fingerprint (value : pystr) : fingerprint := sha256_digest (utf8_bytes value).

Record step_entry := mkStep { se_step : option pystr; se_finished : bool }.
Record operation_entry := mkOperation { oe_name : option fingerprint; oe_class : option pystr; oe_finished : bool }.
(** The latest attempt of the step that completes a ticket. *)
Record completion_attempt := mkAttempt {
  ca_attempt : fingerprint;
  ca_gate_results : list (pystr * pystr);
  ca_outcome : pyval;
  ca_checks : pyval;
  ca_finished_at : option nat
}.

Record _ExecutionEventMirror := mkExecution {
  xe_enabled : bool;
  xe_problems : _ProblemCollector;
  xe_steps : list (fingerprint * step_entry);
  xe_operations : list (fingerprint * operation_entry);
  xe_open : list fingerprint;
  xe_policy : option completion_policy;
  xe_versioned_birth : bool;
  xe_latest : option completion_attempt;
  xe_model : execution_model
}.

Definition empty_model : execution_model := mkModel [] [] [] [] None false.

(** The arguments are [None] where the source has its sentinels. *)
Definition execution_mirror_new (model : option pyval) (receipt : option pyval) : _ExecutionEventMirror :=
  let enabled := match model with None | Some PyNone => false | Some _ => true end in
  let '(policy, problems) :=
    match receipt with
    | None => (None, collector_new)
    | Some v =>
      match _normalize_completion_receipt v with
      | Ok p => (Some p, collector_new)
      | Err _ => (None, append_problem (u "contracts.json completion_receipt 结构无效") collector_new)
      end
    end in
  let problems :=
    match policy, enabled with
    | Some _, false => append_problem (u "contracts.json completion_receipt 缺 execution_model 快照") problems
    | _, _ => problems
    end in
  let make enabled problems m := mkExecution enabled problems [] [] [] policy false None m in
  match enabled, model with
  | true, Some v =>
    match _normalize_execution_model v true with
    | Err _ => make false (append_problem (u "contracts.json execution_model 结构无效") problems) empty_model
    | Ok m =>
      let agrees := match policy with
                    | None => true
                    | Some p => (cp_step p ∈s xm_steps m) && forallb (λ b, b ∈s xm_boundaries m) (cp_required_checks p)
                    end in
      make true (if agrees then problems
                 else append_problem (u "contracts.json completion_receipt 与 execution_model 不一致") problems) m
    end
  | _, _ => make false problems empty_model
  end.

Definition add_issue (bad : bool) (message : pystr) (m : _ExecutionEventMirror) : _ExecutionEventMirror :=
  if bad then mkExecution (xe_enabled m) (append_problem message (xe_problems m)) (xe_steps m) (xe_operations m) (xe_open m)
                (xe_policy m) (xe_versioned_birth m) (xe_latest m) (xe_model m)
  else m.
Definition with_steps s (m : _ExecutionEventMirror) : _ExecutionEventMirror :=
  mkExecution (xe_enabled m) (xe_problems m) s (xe_operations m) (xe_open m) (xe_policy m) (xe_versioned_birth m) (xe_latest m) (xe_model m).
Definition with_ops o op (m : _ExecutionEventMirror) : _ExecutionEventMirror :=
  mkExecution (xe_enabled m) (xe_problems m) (xe_steps m) o op (xe_policy m) (xe_versioned_birth m) (xe_latest m) (xe_model m).
Definition with_latest l (m : _ExecutionEventMirror) : _ExecutionEventMirror :=
  mkExecution (xe_enabled m) (xe_problems m) (xe_steps m) (xe_operations m) (xe_open m) (xe_policy m) (xe_versioned_birth m) l (xe_model m).
Definition with_birth (m : _ExecutionEventMirror) : _ExecutionEventMirror :=
  mkExecution (xe_enabled m) (xe_problems m) (xe_steps m) (xe_operations m) (xe_open m) (xe_policy m) true (xe_latest m) (xe_model m).

Definition set_add (k : fingerprint) (s : list fingerprint) : list fingerprint := if bool_decide (k ∈ s) then s else k :: s.
Definition set_discard (k : fingerprint) (s : list fingerprint) : list fingerprint := filter (λ x, x ≠ k) s.

(** The attempt of a payload, when it is non-empty text. *)
Definition attempt_of (payload : dict) : option pystr :=
  match pget (u "attempt") payload with PyStr (c :: s) => Some (c :: s) | _ => None end.

Definition _track_completion_attempt (event_type : pyval) (payload : dict) (event_index : nat) (m : _ExecutionEventMirror)
  : _ExecutionEventMirror :=
  match xe_policy m, attempt_of payload with
  | Some policy, Some attempt =>
    let key := _fingerprint attempt in
    let same_step := is_lit (pget (u "step") payload) (cp_step policy) in
    if is_lit event_type (u "step_started") && same_step then with_latest (Some (mkAttempt key [] PyNone PyNone None)) m
    else
      match xe_latest m with
      | Some a =>
        if bool_decide (key = ca_attempt a) && same_step then
          if is_lit event_type (u "gate_checked") then
            match pget (u "boundary") payload, pget (u "result") payload with
            | PyStr b, PyStr r =>
              with_latest (Some (mkAttempt (ca_attempt a) (dset b r (ca_gate_results a)) (ca_outcome a) (ca_checks a) (ca_finished_at a))) m
            | _, _ => m
            end
          else if is_lit event_type (u "step_finished") then
            with_latest (Some (mkAttempt (ca_attempt a) (ca_gate_results a) (pget (u "outcome") payload) (pget (u "checks") payload)
                                 (Some event_index))) m
          else m
        else m
      | None => m
      end
  | _, _ => m
  end.

Definition receipt_message (i : nat) (rest : string) : pystr := nth_event i " state_changed.completed " ++ u rest.

Definition missing_check (results : list (pystr * pystr)) (boundary : pystr) : bool :=
  negb (bool_decide (dget boundary results = Some (u "pass"))).

Definition _check_completion_receipt (payload : dict) (event_index : nat) (m : _ExecutionEventMirror) : _ExecutionEventMirror :=
  match xe_policy m with
  | None => m
  | Some policy =>
    let skipped := match pget (u "gates_skipped_for_test") payload with PyBool true => true | _ => false end in
    match xe_latest m with
    | None =>
      if xe_versioned_birth m && negb skipped then
        add_issue true (receipt_message event_index "缺 completion_receipt " ++ cp_step policy ++ u " step_started") m
      else m
    | Some a =>
      if match ca_finished_at a with Some f => event_index <=? f | None => true end then
        add_issue true (receipt_message event_index "缺先于迁移的 completion_receipt " ++ cp_step policy ++ u " step_finished") m
      else
        let m := add_issue (negb (str_in (ca_outcome a) [u "success"; u "degraded"]))
                   (receipt_message event_index "的 completion_receipt outcome 不可推进") m in
        let m := add_issue (negb (is_dict (ca_checks a) && py_eq (ca_checks a) (PyDict ((λ p, (p.1, PyStr p.2)) <$> ca_gate_results a))))
                   (receipt_message event_index "的 completion_receipt finish checks 与 gate_checked 不一致") m in
        foldl (λ m b, add_issue (missing_check (ca_gate_results a) b)
                        (receipt_message event_index "的 completion_receipt 最新必需检查未通过：" ++ b) m)
          m (cp_required_checks policy)
    end
  end.

Definition _valid_digest : pyval → bool := str_test hex64.

Definition _has_pinned_success_decision (decision : dict) : bool :=
  exact_fields ["action"; "reason"; "conclusion_ceiling"; "auto_retry"] decision
  && is_lit (pget (u "action") decision) (u "complete")
  && is_lit (pget (u "reason") decision) (u "operation_succeeded")
  && is_lit (pget (u "conclusion_ceiling") decision) (u "verified")
  && match pget (u "auto_retry") decision with PyBool false => true | _ => false end.

Definition py_type_name (v : pyval) : pystr :=
  match v with
  | PyNone => u "NoneType" | PyBool _ => u "bool" | PyInt _ => u "int" | PyFloat _ => u "float" | PyStr _ => u "str"
  | PyList _ => u "list" | PyTuple _ => u "tuple" | PyDict _ => u "dict" | PyObj _ => u "object"
  end.
Definition type_label (event_type : pyval) : pystr :=
  match event_type with PyStr s => take 64 s | v => py_type_name v end.

(** [isinstance(v, int) and v >= 0] *)
Definition is_duration (v : pyval) : bool := match as_int v with Some z => (0 <=? z)%Z | None => false end.

Definition consume_step_started (payload : dict) (key : fingerprint) (i : nat) (m : _ExecutionEventMirror) : _ExecutionEventMirror :=
  let step := pget (u "step") payload in
  let m := add_issue (negb (str_in step (xm_steps (xe_model m)))) (nth_event i " step_started.step 非法") m in
  let m := add_issue (dhas key (xe_steps m)) (nth_event i " step_started attempt 重复启动") m in
  let m := add_issue (negb (_valid_digest (pget (u "input_digest") payload))) (nth_event i " step_started.input_digest 非法") m in
  let m := add_issue (negb (_valid_digest (pget (u "contract_digest") payload))) (nth_event i " step_started.contract_digest 非法") m in
  with_steps (dset key (mkStep (as_str step) false) (xe_steps m)) m.

Definition consume_step_event (event_type : pyval) (payload : dict) (key : fingerprint) (i : nat) (m : _ExecutionEventMirror)
  : _ExecutionEventMirror :=
  let label := type_label event_type in
  match dget key (xe_steps m) with
  | None => add_issue true (nth_event i " " ++ label ++ u " 引用不存在的 step attempt") m
  | Some state =>
    let m := add_issue (se_finished state)
               (if is_lit event_type (u "step_finished") then nth_event i " step attempt 重复终结"
                else nth_event i " " ++ label ++ u " 出现在 step_finished 之后") m in
    let m := add_issue (negb (is_opt (pget (u "step") payload) (se_step state)))
               (nth_event i " " ++ label ++ u ".step 与启动事件不一致") m in
    if is_lit event_type (u "gate_checked") then
      let m := add_issue (negb (str_in (pget (u "boundary") payload) (xm_boundaries (xe_model m))))
                 (nth_event i " gate_checked.boundary 非法") m in
      let m := add_issue (negb (str_in (pget (u "result") payload) [u "pass"; u "blocked"])) (nth_event i " gate_checked.result 非法") m in
      let m := add_issue (negb (_valid_digest (pget (u "captured_digest") payload))) (nth_event i " gate_checked.captured_digest 非法") m in
      add_issue (negb (_valid_digest (pget (u "current_digest") payload))) (nth_event i " gate_checked.current_digest 非法") m
    else if is_lit event_type (u "artifact_written") then
      add_issue (negb (_valid_digest (pget (u "sha256") payload))) (nth_event i " artifact_written.sha256 非法") m
    else
      let m := add_issue (negb (str_in (pget (u "outcome") payload) (xm_step_outcomes (xe_model m))))
                 (nth_event i " step_finished.outcome 非法") m in
      let m := add_issue (negb (is_duration (pget (u "duration_ms") payload))) (nth_event i " step_finished.duration_ms 非法") m in
      with_steps (dset key (mkStep (se_step state) true) (xe_steps m)) m
  end.

Definition consume_operation_started (payload : dict) (key : fingerprint) (i : nat) (m : _ExecutionEventMirror) : _ExecutionEventMirror :=
  let name := pget (u "name") payload in
  let op_class := pget (u "class") payload in
  let m := add_issue (negb (str_test (λ s, s ≠s []) name)) (nth_event i " operation_started.name 非法") m in
  let m := add_issue (negb (str_in op_class (xm_operation_classes (xe_model m)))) (nth_event i " operation_started.class 非法") m in
  let m := add_issue (negb (_valid_digest (pget (u "input_digest") payload))) (nth_event i " operation_started.input_digest 非法") m in
  let m := add_issue (negb (is_bool (pget (u "idempotency_provided") payload)))
             (nth_event i " operation_started.idempotency_provided 非布尔") m in
  let m := add_issue (dhas key (xe_operations m)) (nth_event i " operation attempt 重复启动") m in
  with_ops (dset key (mkOperation (_fingerprint <$> as_str name) (as_str op_class) false) (xe_operations m))
    (if is_lit op_class (u "read_only") then xe_open m else set_add key (xe_open m)) m.

(** The failure a finished operation names. *)
Definition failure_issue (classes : list pystr) (outcome failure : pyval) (i : nat) (m : _ExecutionEventMirror) : _ExecutionEventMirror :=
  if is_lit outcome (u "success") then
    add_issue (negb (is_opt failure None) && negb (is_lit failure [])) (nth_event i " operation_finished.failure 与 success 冲突") m
  else if negb (str_test (λ s, strip s ≠s []) failure) then add_issue true (nth_event i " operation_finished.failure 缺失") m
  else add_issue (negb (str_in failure classes)) (nth_event i " operation_finished.failure 未登记") m.

Definition consume_operation_finished (payload : dict) (key : fingerprint) (i : nat) (m : _ExecutionEventMirror) : _ExecutionEventMirror :=
  match dget key (xe_operations m) with
  | None => add_issue true (nth_event i " operation_finished 引用不存在的 attempt") m
  | Some state =>
    let outcome := pget (u "outcome") payload in
    let m := add_issue (oe_finished state) (nth_event i " operation attempt 重复终结") m in
    let m := add_issue (match pget (u "name") payload with
                        | PyStr n => negb (bool_decide (Some (_fingerprint n) = oe_name state)) | _ => true end
                        || negb (is_opt (pget (u "class") payload) (oe_class state)))
               (nth_event i " operation_finished 与启动事件身份不一致") m in
    let m := add_issue (negb (str_in outcome (xm_step_outcomes (xe_model m)))) (nth_event i " operation_finished.outcome 非法") m in
    let m := add_issue (negb (is_duration (pget (u "duration_ms") payload))) (nth_event i " operation_finished.duration_ms 非法") m in
    let m := add_issue (negb (str_test (λ s, strip s ≠s []) (pget (u "evidence") payload)))
               (nth_event i " operation_finished 缺 evidence") m in
    let m := add_issue (negb (str_test (λ s, strip s ≠s []) (pget (u "after_check") payload)))
               (nth_event i " operation_finished 缺 after_check") m in
    let decision := pget (u "decision") payload in
    let m := add_issue (negb (is_dict decision)) (nth_event i " operation_finished 缺 decision 对象") m in
    let m := match xm_failure_classes (xe_model m) with
             | Some classes => failure_issue classes outcome (pget (u "failure") payload) i m
             | None => m
             end in
    let m := add_issue (xm_success_version (xe_model m) && is_lit outcome (u "success")
                        && match decision with PyDict d => negb (_has_pinned_success_decision d) | _ => false end)
               (nth_event i " operation_finished.decision 与 success policy 不一致") m in
    with_ops (dset key (mkOperation (oe_name state) (oe_class state) true) (xe_operations m))
      (if bool_decide (oe_class state = Some (u "read_only")) then xe_open m else set_discard key (xe_open m)) m
  end.

(** An event that carries the version of the execution model.  The test for the
    three kinds of step events is membership in a set, which hashes the type of
    the event: a list or an object raises. *)
Definition consume_versioned (event_type : pyval) (payload : dict) (i : nat) (m : _ExecutionEventMirror)
  : result _ExecutionEventMirror :=
  let m := _track_completion_attempt event_type payload i m in
  match xe_enabled m, attempt_of payload with
  | false, None => Ok m
  | false, Some attempt =>
    Ok (if is_lit event_type (u "operation_started") then
          if is_lit (pget (u "class") payload) (u "read_only") then m
          else with_ops (xe_operations m) (set_add (_fingerprint attempt) (xe_open m)) m
        else if is_lit event_type (u "operation_finished") then
          with_ops (xe_operations m) (set_discard (_fingerprint attempt) (xe_open m)) m
        else m)
  | true, None => Ok (add_issue true (nth_event i " " ++ type_label event_type ++ u " 缺非空 attempt") m)
  | true, Some attempt =>
    let key := _fingerprint attempt in
    if is_lit event_type (u "step_started") then Ok (consume_step_started payload key i m)
    else
      step_event ← in_set event_type [u "gate_checked"; u "artifact_written"; u "step_finished"];
      Ok (if (step_event : bool) then consume_step_event event_type payload key i m
          else if is_lit event_type (u "operation_started") then consume_operation_started payload key i m
          else if is_lit event_type (u "operation_finished") then consume_operation_finished payload key i m
          else m)
  end.

Definition execution_consume (event : dict) (i : nat) (m : _ExecutionEventMirror) : result _ExecutionEventMirror :=
  let event_type := pget (u "event_type") event in
  match pget (u "payload") event with
  | PyDict payload =>
    if is_lit event_type (u "ticket_created") then
      Ok (if bool_decide (as_exact_int (pget (u "execution_contract_version") payload) = Some 1%Z) then with_birth m else m)
    else if is_lit event_type (u "state_changed") then
      let m := add_issue (match xe_open m with [] => false | _ => true end)
                 (nth_event i " state_changed 在有副作用 operation 未终结时推进状态") m in
      Ok (if is_lit (pget (u "to") payload) (u "completed") then _check_completion_receipt payload i m else m)
    else if negb (py_eq (pget (u "execution_model_version") payload) (PyInt 1)) then Ok m
    else consume_versioned event_type payload i m
  | _ => Ok m
  end.

Definition execution_finish (m : _ExecutionEventMirror) : _BoundedProblemReport := render_collector (xe_problems m).

Fixpoint execution_replay (events : list dict) (i : nat) (m : _ExecutionEventMirror) : result _ExecutionEventMirror :=
  match events with [] => Ok m | e :: es => m ← execution_consume e i m; execution_replay es (S i) m end.

(** The events that make the mirror raise when it replays a model: a versioned
    event of an attempt whose type cannot be hashed. *)
Definition unhashable_type (event : dict) : bool :=
  match pget (u "payload") event with
  | PyDict payload =>
    unhashable (pget (u "event_type") event) && py_eq (pget (u "execution_model_version") payload) (PyInt 1)
    && match attempt_of payload with Some _ => true | None => false end
  | _ => false
  end.

(** ** What an accepted chain guarantees *)
Definition issues (m : _ExecutionEventMirror) : nat := pc_total (xe_problems m).
Lemma issues_add b msg m : issues (add_issue b msg m) = down b + issues m.
Proof. unfold issues, add_issue. destruct b; [|done]. cbn [xe_problems]. by rewrite append_problem_total. Qed.
Lemma add_issue_false msg m : add_issue false msg m = m.
Proof. done. Qed.
Lemma issues_steps s m : issues (with_steps s m) = issues m.
Proof. done. Qed.
Lemma issues_ops o op m : issues (with_ops o op m) = issues m.
Proof. done. Qed.
Lemma add_steps b msg m : xe_steps (add_issue b msg m) = xe_steps m.
Proof. by destruct b. Qed.
Lemma add_operations b msg m : xe_operations (add_issue b msg m) = xe_operations m.
Proof. by destruct b. Qed.
Lemma add_open b msg m : xe_open (add_issue b msg m) = xe_open m.
Proof. by destruct b. Qed.
Lemma add_model b msg m : xe_model (add_issue b msg m) = xe_model m.
Proof. by destruct b. Qed.
Lemma add_enabled b msg m : xe_enabled (add_issue b msg m) = xe_enabled m.
Proof. by destruct b. Qed.
Create Rewrite HintDb execution.
#[local] Hint Rewrite issues_add issues_steps issues_ops add_steps add_operations add_open add_model add_enabled : execution.
Ltac exec_simpl :=
  cbv zeta; repeat (progress (autorewrite with execution; cbn [xe_steps xe_operations xe_open xe_model xe_enabled with_steps with_ops])).

Lemma track_frame t p i m :
  let m' := _track_completion_attempt t p i m in
  issues m' = issues m ∧ xe_steps m' = xe_steps m ∧ xe_operations m' = xe_operations m ∧ xe_open m' = xe_open m ∧
  xe_model m' = xe_model m ∧ xe_enabled m' = xe_enabled m.
Proof. unfold _track_completion_attempt. repeat case_match; done. Qed.

Lemma check_frame p i m :
  let m' := _check_completion_receipt p i m in
  issues m ≤ issues m' ∧ xe_steps m' = xe_steps m ∧ xe_operations m' = xe_operations m ∧ xe_open m' = xe_open m ∧
  xe_model m' = xe_model m ∧ xe_enabled m' = xe_enabled m.
Proof.
  unfold _check_completion_receipt. destruct (xe_policy m) as [policy|]; [|done].
  destruct (xe_latest m) as [a|].
  2: { destruct (xe_versioned_birth m && _); [|done]. exec_simpl. split_and!; try done. lia. }
  case_match; [exec_simpl; split_and!; try done; lia|]. cbv zeta. set (m1 := add_issue _ _ (add_issue _ _ m)).
  assert (Hm1 : issues m ≤ issues m1 ∧ xe_steps m1 = xe_steps m ∧ xe_operations m1 = xe_operations m ∧ xe_open m1 = xe_open m ∧
                xe_model m1 = xe_model m ∧ xe_enabled m1 = xe_enabled m).
  { unfold m1. exec_simpl. split_and!; try done. lia. }
  clearbody m1. revert m1 Hm1. induction (cp_required_checks policy) as [|b bs IH]; intros m1 Hm1; [done|]. cbn [foldl].
  apply IH. destruct Hm1 as (? & ? & ? & ? & ? & ?). exec_simpl. split_and!; try done. lia.
Qed.

(** An event of kind [kind] about the attempt of digest [k]. *)
Definition emits (kind : string) (k : fingerprint) (e : dict) (p : dict) : Prop :=
  pget (u "payload") e = PyDict p ∧ pget (u "event_type") e = PyStr (u kind) ∧
  py_eq (pget (u "execution_model_version") p) (PyInt 1) = true ∧ ∃ a, attempt_of p = Some a ∧ k = _fingerprint a.
Definition emitted (kind : string) (k : fingerprint) (es : list dict) : Prop := ∃ e p, e ∈ es ∧ emits kind k e p.

(** What holds of the event [e] after the events [before]. *)
Record paired (m : execution_model) (before : list dict) (e : dict) : Prop := mkPaired {
  pa_step_started : ∀ k p, emits "step_started" k e p →
    str_in (pget (u "step") p) (xm_steps m) = true ∧ ¬ emitted "step_started" k before;
  pa_step_event : ∀ kind k p, kind ∈ ["gate_checked"; "artifact_written"; "step_finished"]%string → emits kind k e p →
    (∃ e' p', e' ∈ before ∧ emits "step_started" k e' p' ∧ pget (u "step") p = pget (u "step") p') ∧
    ¬ emitted "step_finished" k before;
  pa_operation_started : ∀ k p, emits "operation_started" k e p →
    str_in (pget (u "class") p) (xm_operation_classes m) = true ∧ ¬ emitted "operation_started" k before;
  pa_operation_finished : ∀ k p, emits "operation_finished" k e p →
    (∃ e' p' n n', e' ∈ before ∧ emits "operation_started" k e' p' ∧ pget (u "class") p = pget (u "class") p' ∧
       pget (u "name") p = PyStr n ∧ pget (u "name") p' = PyStr n' ∧ _fingerprint n = _fingerprint n') ∧
    ¬ emitted "operation_finished" k before;
  pa_state_changed : pget (u "event_type") e = PyStr (u "state_changed") → is_dict (pget (u "payload") e) = true →
    ∀ k e' p', e' ∈ before → emits "operation_started" k e' p' → is_lit (pget (u "class") p') (u "read_only") = false →
    emitted "operation_finished" k before
}.

(** How the mirror's tables reflect the events before. *)
Record reflects (before : list dict) (m : _ExecutionEventMirror) : Prop := mkReflects {
  rf_step : ∀ k s, dget k (xe_steps m) = Some s →
    ∃ e p n, e ∈ before ∧ emits "step_started" k e p ∧ pget (u "step") p = PyStr n ∧ se_step s = Some n;
  rf_step_started : ∀ k, emitted "step_started" k before → dget k (xe_steps m) ≠ None;
  rf_step_finished : ∀ k, emitted "step_finished" k before → ∃ s, dget k (xe_steps m) = Some s ∧ se_finished s = true;
  rf_operation : ∀ k o, dget k (xe_operations m) = Some o →
    ∃ e p n c, e ∈ before ∧ emits "operation_started" k e p ∧ pget (u "name") p = PyStr n ∧ pget (u "class") p = PyStr c ∧
      oe_name o = Some (_fingerprint n) ∧ oe_class o = Some c ∧
      (oe_finished o = true → emitted "operation_finished" k before) ∧
      (oe_finished o = false → c ≠ u "read_only" → k ∈ xe_open m);
  rf_operation_started : ∀ k e p, e ∈ before → emits "operation_started" k e p →
    ∃ o, dget k (xe_operations m) = Some o ∧ oe_class o = as_str (pget (u "class") p);
  rf_operation_finished : ∀ k, emitted "operation_finished" k before → ∃ o, dget k (xe_operations m) = Some o ∧ oe_finished o = true
}.

(** Every flag of a quiet step is down. *)
Ltac flags H :=
  repeat match type of H with
  | context [down ?b] => let E := fresh "F" in revert H; destruct b eqn:E; intros H; [exfalso; cbn [down] in H; lia|];
                         cbn [down] in H
  end.

Lemma step_started_quiet p k i m :
  issues (consume_step_started p k i m) = issues m →
  ∃ n, pget (u "step") p = PyStr n ∧ n ∈ xm_steps (xe_model m) ∧ dget k (xe_steps m) = None ∧
       consume_step_started p k i m = with_steps (dset k (mkStep (Some n) false) (xe_steps m)) m.
Proof.
  unfold consume_step_started. intros Hq. revert Hq. exec_simpl. intros Hq. flags Hq. rewrite !add_issue_false.
  apply negb_false_iff, str_in_iff in F2 as (n & Hn & Hin). exists n. rewrite Hn. split_and!; try done.
  unfold dhas in F1. by destruct (dget k (xe_steps m)).
Qed.
Lemma step_started_grows p k i m : issues m ≤ issues (consume_step_started p k i m).
Proof. unfold consume_step_started. exec_simpl. lia. Qed.

Lemma step_event_quiet t p k i m :
  issues (consume_step_event t p k i m) = issues m →
  ∃ s, dget k (xe_steps m) = Some s ∧ se_finished s = false ∧ is_opt (pget (u "step") p) (se_step s) = true ∧
       consume_step_event t p k i m =
       if is_lit t (u "gate_checked") || is_lit t (u "artifact_written") then m
       else with_steps (dset k (mkStep (se_step s) true) (xe_steps m)) m.
Proof.
  unfold consume_step_event. destruct (dget k (xe_steps m)) as [s|]; [|exec_simpl; intros Hq; exfalso; cbn [down] in Hq; lia].
  destruct (is_lit t (u "gate_checked")); cbn [orb]; [|destruct (is_lit t (u "artifact_written")); cbn [orb]];
    exec_simpl; intros Hq; flags Hq; rewrite ?add_issue_false; exists s; split_and!; try done;
    repeat match goal with F : negb _ = false |- _ => apply negb_false_iff in F end; done.
Qed.
Lemma step_event_grows t p k i m : issues m ≤ issues (consume_step_event t p k i m).
Proof. unfold consume_step_event. repeat case_match; exec_simpl; lia. Qed.

Lemma operation_started_quiet p k i m :
  issues (consume_operation_started p k i m) = issues m →
  ∃ n c, pget (u "name") p = PyStr n ∧ pget (u "class") p = PyStr c ∧ c ∈ xm_operation_classes (xe_model m) ∧
         dget k (xe_operations m) = None ∧
         consume_operation_started p k i m =
         with_ops (dset k (mkOperation (Some (_fingerprint n)) (Some c) false) (xe_operations m))
           (if c =s u "read_only" then xe_open m else set_add k (xe_open m)) m.
Proof.
  unfold consume_operation_started. exec_simpl. intros Hq. flags Hq. rewrite ?add_issue_false.
  apply negb_false_iff, str_test_iff in F3 as (n & Hn & _). apply negb_false_iff, str_in_iff in F2 as (c & Hc & Hin).
  exists n, c. rewrite Hn, Hc. split_and!; try done. unfold dhas in F. by destruct (dget k (xe_operations m)).
Qed.
Lemma operation_started_grows p k i m : issues m ≤ issues (consume_operation_started p k i m).
Proof. unfold consume_operation_started. exec_simpl. lia. Qed.

Lemma failure_frame cs o f i m :
  issues m ≤ issues (failure_issue cs o f i m) ∧ (issues (failure_issue cs o f i m) = issues m → failure_issue cs o f i m = m).
Proof.
  unfold failure_issue. case_match; [|case_match]; exec_simpl; (split; [lia|]); intros Hq; flags Hq; by rewrite ?add_issue_false.
Qed.

Lemma operation_finished_quiet p k i m :
  issues (consume_operation_finished p k i m) = issues m →
  ∃ o n, dget k (xe_operations m) = Some o ∧ oe_finished o = false ∧ pget (u "name") p = PyStr n ∧
         oe_name o = Some (_fingerprint n) ∧ is_opt (pget (u "class") p) (oe_class o) = true ∧
         consume_operation_finished p k i m =
         with_ops (dset k (mkOperation (oe_name o) (oe_class o) true) (xe_operations m))
           (if bool_decide (oe_class o = Some (u "read_only")) then xe_open m else set_discard k (xe_open m)) m.
Proof.
  unfold consume_operation_finished. destruct (dget k (xe_operations m)) as [o|]; [|exec_simpl; intros Hq; exfalso; cbn [down] in Hq; lia].
  cbv zeta.
  match goal with |- context [match xm_failure_classes _ with Some _ => _ | None => ?x end] => set (m1 := x) end.
  assert (Hm1 : issues m ≤ issues m1 ∧ (issues m1 = issues m →
            m1 = m ∧ oe_finished o = false ∧
            ((match pget (u "name") p with PyStr n => negb (bool_decide (Some (_fingerprint n) = oe_name o)) | _ => true end
             || negb (is_opt (pget (u "class") p) (oe_class o))) = false))).
  { unfold m1. exec_simpl. split; [lia|]. intros Hq. flags Hq. rewrite ?add_issue_false. done. }
  clearbody m1. set (m2 := match xm_failure_classes (xe_model m1) with Some _ => _ | None => m1 end).
  assert (Hm2 : issues m1 ≤ issues m2 ∧ (issues m2 = issues m1 → m2 = m1)).
  { unfold m2. destruct (xm_failure_classes (xe_model m1)); [apply failure_frame|done]. }
  clearbody m2. exec_simpl. intros Hq. destruct Hm1 as [G1 Q1]. destruct Hm2 as [G2 Q2].
  destruct (Q2 ltac:(lia)). destruct (Q1 ltac:(lia)) as (-> & Hf & Hid). flags Hq. rewrite add_issue_false.
  apply orb_false_iff in Hid as [Hid Hc]. apply negb_false_iff in Hc.
  destruct (pget (u "name") p) as [| | | |n| | | |]; try done. apply negb_false_iff, bool_decide_eq_true in Hid.
  exists o, n. split_and!; done.
Qed.
Lemma operation_finished_grows p k i m : issues m ≤ issues (consume_operation_finished p k i m).
Proof.
  unfold consume_operation_finished. destruct (dget k (xe_operations m)) as [o|]; [|exec_simpl; lia].
  cbv zeta. rewrite issues_ops, issues_add.
  match goal with |- context [match xm_failure_classes _ with Some _ => _ | None => ?x end] => set (m1 := x) end.
  assert (issues m ≤ issues m1) by (unfold m1; exec_simpl; lia). clearbody m1.
  destruct (xm_failure_classes (xe_model m1)) as [cs|]; [|lia].
  pose proof (failure_frame cs (pget (u "outcome") p) (pget (u "failure") p) i m1) as [? _]. lia.
Qed.

Lemma emits_same a b k k' e p p' : emits a k e p → emits b k' e p' → k' = k ∧ p' = p ∧ u a = u b.
Proof.
  intros (H1 & H2 & _ & x & Hx & ->) (H3 & H4 & _ & y & Hy & ->).
  assert (p' = p) as -> by congruence. assert (y = x) as -> by congruence.
  assert (PyStr (u b) = PyStr (u a)) as [= <-] by congruence. done.
Qed.
(** Two kinds of one event are the same. *)
Ltac clash :=
  match goal with
  | H1 : emits ?a _ ?e _, H2 : emits ?b _ ?e _ |- _ =>
    exfalso; refine (literal_clash (pget (u "event_type") e) a b (proj1 (proj2 H1)) (proj1 (proj2 H2)) _);
    vm_compute; reflexivity
  end.

Lemma emitted_snoc kind k es e :
  emitted kind k (es ++ [e]) ↔ emitted kind k es ∨ ∃ p, emits kind k e p.
Proof.
  unfold emitted. split.
  - intros (e' & p & [Hin| ->%list_elem_of_singleton]%elem_of_app & Hp); [left; by exists e', p|right; by exists p].
  - intros [(e' & p & Hin & Hp)|(p & Hp)]; [exists e', p|exists e, p]; (split; [|done]); apply elem_of_app; [by left|].
    right. by apply list_elem_of_singleton.
Qed.
Lemma emitted_old kind k es e : (∀ p, ¬ emits kind k e p) → emitted kind k (es ++ [e]) ↔ emitted kind k es.
Proof. intros Hn. rewrite emitted_snoc. split; [intros [?|(p & Hp)]; [done|by destruct (Hn p)]|by left]. Qed.
Lemma in_old (e' e : dict) es : e' ∈ es → e' ∈ es ++ [e].
Proof. intros. apply elem_of_app. by left. Qed.

(** An event of none of the four kinds that leaves the tables alone. *)
Lemma reflects_same before e m m' :
  xe_steps m' = xe_steps m → xe_operations m' = xe_operations m → xe_open m' = xe_open m →
  (∀ kind k p, kind ∈ ["step_started"; "step_finished"; "operation_started"; "operation_finished"]%string → ¬ emits kind k e p) →
  reflects before m → reflects (before ++ [e]) m'.
Proof.
  intros E1 E2 E3 Hno [R1 R2 R3 R4 R5 R6].
  assert (Hold : ∀ kind k, kind ∈ ["step_started"; "step_finished"; "operation_started"; "operation_finished"]%string →
            emitted kind k (before ++ [e]) ↔ emitted kind k before).
  { intros kind k Hk. apply emitted_old. intros p. by apply Hno. }
  split; rewrite ?E1, ?E2, ?E3.
  - intros k s Hs. destruct (R1 k s Hs) as (e' & p & n & Hin & Hx). exists e', p, n. split; [by apply in_old|done].
  - intros k Hk%Hold; [|by_compute]. by apply R2.
  - intros k Hk%Hold; [|by_compute]. by apply R3.
  - intros k o Ho. destruct (R4 k o Ho) as (e' & p & n & c & Hin & H1 & H2 & H3 & H4 & H5 & H6 & H7).
    exists e', p, n, c. split_and!; try done; [by apply in_old|]. intros Hf. apply Hold; [by_compute|by apply H6].
  - intros k e' p [Hin| ->%list_elem_of_singleton]%elem_of_app Hp; [by eapply R5|]. destruct (Hno "operation_started"%string k p); [by_compute|done].
  - intros k Hk%Hold; [|by_compute]. by apply R6.
Qed.

Section one_event.
Context (before : list dict) (e : dict) (m : _ExecutionEventMirror) (p : dict) (k : fingerprint).

(** An event of one kind adds nothing to the others. *)
Lemma other_kind kind kind' k' :
  emits kind k e p → bool_decide (u kind = u kind') = false → emitted kind' k' (before ++ [e]) ↔ emitted kind' k' before.
Proof.
  intros He Hk. apply emitted_old. intros p' Hp'. destruct (emits_same _ _ _ _ _ _ _ He Hp') as (_ & _ & E).
  by rewrite bool_decide_eq_true_2 in Hk.
Qed.
Lemma other_attempt kind k' : emits kind k e p → k' ≠ k → emitted kind k' (before ++ [e]) ↔ emitted kind k' before.
Proof.
  intros He Hk. apply emitted_old. intros p' Hp'. by destruct (emits_same _ _ _ _ _ _ _ He Hp') as (-> & _).
Qed.
Lemma in_new : e ∈ before ++ [e].
Proof. apply elem_of_app. right. by apply list_elem_of_singleton. Qed.

Lemma reflects_step_started n :
  emits "step_started" k e p → pget (u "step") p = PyStr n → dget k (xe_steps m) = None →
  reflects before m → reflects (before ++ [e]) (with_steps (dset k (mkStep (Some n) false) (xe_steps m)) m).
Proof.
  intros He Hn Hnone [R1 R2 R3 R4 R5 R6]. pose proof (other_kind "step_started") as Hold.
  split; cbn [xe_steps xe_operations xe_open with_steps].
  - intros k' s. destruct (decide (k' = k)) as [->|Hne].
    + rewrite dget_dset_eq. intros [= <-]. exists e, p, n. split; [apply in_new|done].
    + rewrite dget_dset_ne by done. intros Hs. destruct (R1 k' s Hs) as (e' & p' & n' & Hin & Hx). exists e', p', n'. split; [by apply in_old|done].
  - intros k' Hk'. destruct (decide (k' = k)) as [->|Hne]; [by rewrite dget_dset_eq|]. rewrite dget_dset_ne by done.
    apply R2. by apply (other_attempt "step_started").
  - intros k' (s & Hs & Hf)%Hold%R3; [|done..]. exists s. rewrite dget_dset_ne; [done|]. congruence.
  - intros k' o Ho. destruct (R4 k' o Ho) as (e' & p' & n' & c & Hin & H1 & H2 & H3 & H4 & H5 & H6 & H7).
    exists e', p', n', c. split_and!; try done; [by apply in_old|]. intros Hf. apply Hold; [done|done|by apply H6].
  - intros k' e' p' [Hin| ->%list_elem_of_singleton]%elem_of_app Hp'; [by eapply R5|clash].
  - intros k' Hk'%Hold; [|done..]. by apply R6.
Qed.

Lemma reflects_step_finished s :
  emits "step_finished" k e p → dget k (xe_steps m) = Some s →
  reflects before m → reflects (before ++ [e]) (with_steps (dset k (mkStep (se_step s) true) (xe_steps m)) m).
Proof.
  intros He Hs [R1 R2 R3 R4 R5 R6]. pose proof (other_kind "step_finished") as Hold.
  split; cbn [xe_steps xe_operations xe_open with_steps].
  - intros k' s'. destruct (decide (k' = k)) as [->|Hne].
    + rewrite dget_dset_eq. intros [= <-]. destruct (R1 k s Hs) as (e' & p' & n' & Hin & Hx). exists e', p', n'. split; [by apply in_old|done].
    + rewrite dget_dset_ne by done. intros Hs'. destruct (R1 k' s' Hs') as (e' & p' & n' & Hin & Hx). exists e', p', n'. split; [by apply in_old|done].
  - intros k' Hk'%Hold; [|done..]. destruct (decide (k' = k)) as [->|Hne]; [by rewrite dget_dset_eq|]. rewrite dget_dset_ne by done.
    by apply R2.
  - intros k' Hk'. destruct (decide (k' = k)) as [->|Hne]; [rewrite dget_dset_eq; by eexists|]. rewrite dget_dset_ne by done.
    apply R3. by apply (other_attempt "step_finished").
  - intros k' o Ho. destruct (R4 k' o Ho) as (e' & p' & n' & c & Hin & H1 & H2 & H3 & H4 & H5 & H6 & H7).
    exists e', p', n', c. split_and!; try done; [by apply in_old|]. intros Hf. apply Hold; [done|done|by apply H6].
  - intros k' e' p' [Hin| ->%list_elem_of_singleton]%elem_of_app Hp'; [by eapply R5|clash].
  - intros k' Hk'%Hold; [|done..]. by apply R6.
Qed.

Lemma elem_set_add (a b : fingerprint) l : a ∈ set_add b l ↔ a = b ∨ a ∈ l.
Proof. unfold set_add. case_bool_decide; [|by rewrite elem_of_cons]. split; [by right|by intros [-> |]]. Qed.
Lemma elem_set_discard (a b : fingerprint) l : a ∈ set_discard b l ↔ a ≠ b ∧ a ∈ l.
Proof. unfold set_discard. by rewrite list_elem_of_filter. Qed.

Lemma reflects_operation_started n c :
  emits "operation_started" k e p → pget (u "name") p = PyStr n → pget (u "class") p = PyStr c →
  dget k (xe_operations m) = None → reflects before m →
  reflects (before ++ [e])
    (with_ops (dset k (mkOperation (Some (_fingerprint n)) (Some c) false) (xe_operations m))
       (if c =s u "read_only" then xe_open m else set_add k (xe_open m)) m).
Proof.
  intros He Hn Hc Hnone [R1 R2 R3 R4 R5 R6]. pose proof (other_kind "operation_started") as Hold.
  split; cbn [xe_steps xe_operations xe_open with_ops].
  - intros k' s Hs. destruct (R1 k' s Hs) as (e' & p' & n' & Hin & Hx). exists e', p', n'. split; [by apply in_old|done].
  - intros k' Hk'%Hold; [|done..]. by apply R2.
  - intros k' Hk'%Hold; [|done..]. by apply R3.
  - intros k' o. destruct (decide (k' = k)) as [->|Hne].
    + rewrite dget_dset_eq. intros [= <-]. exists e, p, n, c. split_and!; try done; [apply in_new|].
      intros _ Hro. rewrite bool_decide_eq_false_2 by done. apply elem_set_add. by left.
    + rewrite dget_dset_ne by done. intros Ho.
      destruct (R4 k' o Ho) as (e' & p' & n' & c' & Hin & H1 & H2 & H3 & H4 & H5 & H6 & H7).
      exists e', p', n', c'. split_and!; try done; [by apply in_old| |].
      * intros Hf. apply Hold; [done|done|by apply H6].
      * intros Hf Hro. specialize (H7 Hf Hro). case_bool_decide; [done|]. apply elem_set_add. by right.
  - intros k' e' p' [Hin| ->%list_elem_of_singleton]%elem_of_app Hp'.
    + destruct (R5 k' e' p' Hin Hp') as (o & Ho & Hcl). exists o. rewrite dget_dset_ne; [done|]. congruence.
    + destruct (emits_same _ _ _ _ _ _ _ He Hp') as (-> & -> & _). rewrite dget_dset_eq, Hc. by eexists.
  - intros k' (o & Ho & Hf)%Hold%R6; [|done..]. exists o. rewrite dget_dset_ne; [done|]. congruence.
Qed.

Lemma reflects_operation_finished o :
  emits "operation_finished" k e p → dget k (xe_operations m) = Some o → reflects before m →
  reflects (before ++ [e])
    (with_ops (dset k (mkOperation (oe_name o) (oe_class o) true) (xe_operations m))
       (if bool_decide (oe_class o = Some (u "read_only")) then xe_open m else set_discard k (xe_open m)) m).
Proof.
  intros He Ho [R1 R2 R3 R4 R5 R6]. pose proof (other_kind "operation_finished") as Hold.
  split; cbn [xe_steps xe_operations xe_open with_ops].
  - intros k' s Hs. destruct (R1 k' s Hs) as (e' & p' & n' & Hin & Hx). exists e', p', n'. split; [by apply in_old|done].
  - intros k' Hk'%Hold; [|done..]. by apply R2.
  - intros k' Hk'%Hold; [|done..]. by apply R3.
  - intros k' o'. destruct (decide (k' = k)) as [->|Hne].
    + rewrite dget_dset_eq. intros [= <-].
      destruct (R4 k o Ho) as (e' & p' & n' & c' & Hin & H1 & H2 & H3 & H4 & H5 & H6 & H7).
      exists e', p', n', c'. split_and!; try done; [by apply in_old|]. intros _. exists e, p. split; [apply in_new|done].
    + rewrite dget_dset_ne by done. intros Ho'.
      destruct (R4 k' o' Ho') as (e' & p' & n' & c' & Hin & H1 & H2 & H3 & H4 & H5 & H6 & H7).
      exists e', p', n', c'. split_and!; try done; [by apply in_old| |].
      * intros Hf. apply (other_attempt "operation_finished"); [done|done|by apply H6].
      * intros Hf Hro. specialize (H7 Hf Hro). case_bool_decide; [done|]. by apply elem_set_discard.
  - intros k' e' p' [Hin| ->%list_elem_of_singleton]%elem_of_app Hp'; [|clash].
    destruct (R5 k' e' p' Hin Hp') as (o' & Ho' & Hcl). destruct (decide (k' = k)) as [->|Hne].
    + rewrite dget_dset_eq. eexists. split; [done|]. cbn. congruence.
    + rewrite dget_dset_ne by done. by exists o'.
  - intros k' Hk'. destruct (decide (k' = k)) as [->|Hne]; [rewrite dget_dset_eq; by eexists|]. rewrite dget_dset_ne by done.
    apply R6. by apply (other_attempt "operation_finished").
Qed.
End one_event.

(** *** The report stays within its bounds *)
Definition healthy (m : _ExecutionEventMirror) : Prop := collector_inv (xe_problems m).
Lemma healthy_add b msg m : healthy m → healthy (add_issue b msg m).
Proof. destruct b; [apply append_problem_inv|done]. Qed.
Lemma healthy_steps s m : healthy m → healthy (with_steps s m).
Proof. done. Qed.
Lemma healthy_ops o op m : healthy m → healthy (with_ops o op m).
Proof. done. Qed.
Lemma healthy_same m m' : xe_problems m' = xe_problems m → healthy m → healthy m'.
Proof. unfold healthy. by intros ->. Qed.
Ltac healthy := repeat first [assumption | apply healthy_add | apply healthy_steps | apply healthy_ops].

Lemma healthy_track t p i m : healthy m → healthy (_track_completion_attempt t p i m).
Proof. apply healthy_same. unfold _track_completion_attempt. repeat case_match; reflexivity. Qed.
Lemma healthy_check p i m : healthy m → healthy (_check_completion_receipt p i m).
Proof.
  intros Hm. unfold _check_completion_receipt. cbv zeta. destruct (xe_policy m) as [policy|]; [|done].
  destruct (xe_latest m) as [a|]; case_match; healthy.
  assert (H1 : ∀ bs m, healthy m → healthy (foldl (λ m b, add_issue (missing_check (ca_gate_results a) b)
                        (receipt_message i "的 completion_receipt 最新必需检查未通过：" ++ b) m) m bs)).
  { induction bs as [|b bs IH]; intros m1 Hm1; [done|]. apply IH. healthy. }
  apply H1. healthy.
Qed.
Lemma healthy_step_event t p k i m : healthy m → healthy (consume_step_event t p k i m).
Proof.
  intros Hm. unfold consume_step_event. cbv zeta. destruct (dget k (xe_steps m)); [|healthy].
  destruct (is_lit t (u "gate_checked")); [healthy|]. destruct (is_lit t (u "artifact_written")); healthy.
Qed.
Lemma healthy_operation_finished p k i m : healthy m → healthy (consume_operation_finished p k i m).
Proof.
  intros Hm. unfold consume_operation_finished. destruct (dget k (xe_operations m)); [|healthy]. cbv zeta.
  apply healthy_ops, healthy_add. unfold failure_issue.
  match goal with |- context [match xm_failure_classes _ with Some _ => _ | None => ?x end] => set (m1 := x) end.
  assert (healthy m1) by (unfold m1; healthy). clearbody m1.
  destruct (xm_failure_classes (xe_model m1)); [|done]. repeat case_match; healthy.
Qed.
Lemma healthy_consume e i m m' : execution_consume e i m = Ok m' → healthy m → healthy m'.
Proof.
  intros He Hm. revert He. unfold execution_consume.
  destruct (pget (u "payload") e) as [| | | | | | |p|]; try (intros E; apply Ok_inj in E as <-; done). cbv zeta.
  destruct (is_lit _ (u "ticket_created")); [intros E; apply Ok_inj in E as <-; by case_match|].
  destruct (is_lit _ (u "state_changed")).
  { intros E; apply Ok_inj in E as <-. destruct (is_lit _ (u "completed")); [apply healthy_check|]; healthy. }
  destruct (negb _); [intros E; by apply Ok_inj in E as <-|]. unfold consume_versioned.
  pose proof (healthy_track (pget (u "event_type") e) p i m Hm) as Ht. revert Ht.
  generalize (_track_completion_attempt (pget (u "event_type") e) p i m) as m1. intros m1 Ht.
  destruct (xe_enabled m1), (attempt_of p); cbv zeta; try (intros E; apply Ok_inj in E as <-; healthy; fail).
  - destruct (is_lit _ (u "step_started")).
    { intros E; apply Ok_inj in E as <-. unfold consume_step_started; cbv zeta; healthy. }
    intros (b & _ & E)%bind_ok. apply Ok_inj in E as <-. destruct b; [by apply healthy_step_event|].
    destruct (is_lit _ (u "operation_started")); [unfold consume_operation_started; cbv zeta; healthy|].
    destruct (is_lit _ (u "operation_finished")); [by apply healthy_operation_finished|done].
  - intros E; apply Ok_inj in E as <-.
    destruct (is_lit _ (u "operation_started")); [destruct (is_lit _ _); healthy|]. destruct (is_lit _ _); healthy.
Qed.

(** *** One event *)
Lemma emits_payload kind k e p p' : pget (u "payload") e = PyDict p → emits kind k e p' → p' = p.
Proof. intros H (H' & _). congruence. Qed.
Lemma emits_type kind k e p : emits kind k e p → pget (u "event_type") e = PyStr (u kind).
Proof. by intros (_ & H & _). Qed.

Definition kinds : list string :=
  ["step_started"; "gate_checked"; "artifact_written"; "step_finished"; "operation_started"; "operation_finished"].
Lemma kinds_member l k : forallb (λ k, bool_decide (k ∈ kinds)) l = true → k ∈ l → k ∈ kinds.
Proof. rewrite forallb_Forall, Forall_forall. intros H Hk. specialize (H k Hk). by apply bool_decide_eq_true in H. Qed.
Definition silent (e : dict) : Prop := ∀ kind k p, kind ∈ kinds → ¬ emits kind k e p.
Lemma silent_type e : (∀ kind, kind ∈ kinds → is_lit (pget (u "event_type") e) (u kind) = false) → silent e.
Proof. intros H kind k p Hk (_ & Ht & _). specialize (H kind Hk). by apply is_lit_iff in Ht as Ht'; congruence. Qed.
Lemma silent_other e kind :
  pget (u "event_type") e = PyStr (u kind) → forallb (λ k, negb (bool_decide (u kind = u k))) kinds = true → silent e.
Proof.
  intros Ht Hall kind' k p Hk (_ & Ht' & _). rewrite Ht in Ht'. apply forallb_Forall in Hall.
  rewrite Forall_forall in Hall. specialize (Hall _ Hk). apply negb_true_iff, bool_decide_eq_false in Hall.
  apply Hall. congruence.
Qed.

(** An event without a kind is paired as soon as the state stands still. *)
Lemma paired_silent m before e :
  silent e →
  (pget (u "event_type") e = PyStr (u "state_changed") → is_dict (pget (u "payload") e) = true →
   ∀ k e' p', e' ∈ before → emits "operation_started" k e' p' → is_lit (pget (u "class") p') (u "read_only") = false →
   emitted "operation_finished" k before) →
  paired m before e.
Proof.
  intros Hno Hs. refine (mkPaired _ _ _ _ _ _ _ Hs); intros; exfalso;
    (match goal with Hk : emits _ _ _ _ |- _ => refine (Hno _ _ _ _ Hk) end); try by_compute.
  eapply kinds_member; [|eassumption]; reflexivity.
Qed.

(** A state change finds every operation with side effects finished. *)
Lemma reflects_open before m k e' p' :
  reflects before m → xe_open m = [] → e' ∈ before → emits "operation_started" k e' p' →
  is_lit (pget (u "class") p') (u "read_only") = false → emitted "operation_finished" k before.
Proof.
  intros R Ho Hin He Hc. destruct (rf_operation_started _ _ R _ _ _ Hin He) as (o & Hk & Hcl).
  destruct (rf_operation _ _ R _ _ Hk) as (_ & _ & n & c & _ & _ & _ & _ & _ & Hcl' & Hf & Hopen).
  destruct (oe_finished o) eqn:E; [by apply Hf|]. exfalso. rewrite Hcl' in Hcl.
  destruct (pget (u "class") p') as [| | | |c'| | | |]; try discriminate Hcl.
  assert (c' = c) as -> by (cbn in Hcl; congruence).
  assert (Hx : k ∈ xe_open m). { apply Hopen; [reflexivity|]. intros ->. cbn [is_lit] in Hc. by rewrite bool_decide_eq_true_2 in Hc. }
  rewrite Ho in Hx. by apply not_elem_of_nil in Hx.
Qed.

Section kinds.
Context (before : list dict) (e : dict) (m : _ExecutionEventMirror) (p : dict) (k : fingerprint) (xm : execution_model).

(** The pairing of the one kind an event has: the other clauses are void. *)
Ltac own_kind He :=
  split;
  [intros ? ? ?; try clash
  |intros ? ? ? Hkind ?; exfalso;
   apply elem_of_cons in Hkind as [->|[->|[->|[]%not_elem_of_nil]%elem_of_cons]%elem_of_cons]; clash
  |intros ? ? ?; try clash
  |intros ? ? ?; try clash
  |intros Ht; exfalso; rewrite (emits_type _ _ _ _ He) in Ht; revert Ht; vm_compute; discriminate];
  match goal with Hx : emits _ _ _ ?p' |- _ =>
    destruct (emits_same _ _ _ _ _ _ _ He Hx) as (-> & -> & _) end.

Lemma paired_step_started :
  emits "step_started" k e p → str_in (pget (u "step") p) (xm_steps xm) = true → dget k (xe_steps m) = None →
  reflects before m → paired xm before e.
Proof.
  intros He Hs Hk R. own_kind He. split; [exact Hs|]. intros Hem. by destruct (rf_step_started _ _ R _ Hem).
Qed.

Lemma paired_step_event kind s :
  kind ∈ ["gate_checked"; "artifact_written"; "step_finished"]%string → emits kind k e p → dget k (xe_steps m) = Some s →
  se_finished s = false → is_opt (pget (u "step") p) (se_step s) = true → reflects before m → paired xm before e.
Proof.
  intros Hkind He Hs Hf Hst R.
  assert (Hown : (∃ e' p', e' ∈ before ∧ emits "step_started" k e' p' ∧ pget (u "step") p = pget (u "step") p') ∧
                 ¬ emitted "step_finished" k before).
  { split.
    - destruct (rf_step _ _ R _ _ Hs) as (e' & p' & n & Hin & He' & Hn & Hse). exists e', p'. split; [exact Hin|]. split; [exact He'|].
      rewrite Hse in Hst. apply is_opt_iff in Hst. rewrite Hst, Hn. reflexivity.
    - intros Hem. destruct (rf_step_finished _ _ R _ Hem) as (s' & Hs' & Hf'). congruence. }
  split.
  1,3,4: intros k' p' Hx; exfalso;
    apply elem_of_cons in Hkind as [->|[->|[->|[]%not_elem_of_nil]%elem_of_cons]%elem_of_cons]; clash.
  - intros kind' k' p' _ Hx. destruct (emits_same _ _ _ _ _ _ _ He Hx) as (-> & -> & _). exact Hown.
  - intros Ht. exfalso. rewrite (emits_type _ _ _ _ He) in Ht.
    apply elem_of_cons in Hkind as [->|[->|[->|[]%not_elem_of_nil]%elem_of_cons]%elem_of_cons]; revert Ht; vm_compute; discriminate.
Qed.

Lemma paired_operation_started :
  emits "operation_started" k e p → str_in (pget (u "class") p) (xm_operation_classes xm) = true →
  dget k (xe_operations m) = None → reflects before m → paired xm before e.
Proof.
  intros He Hs Hk R. own_kind He. split; [exact Hs|].
  intros (e' & p' & Hin & He'). destruct (rf_operation_started _ _ R _ _ _ Hin He') as (o & Ho & _). congruence.
Qed.

Lemma paired_operation_finished o n :
  emits "operation_finished" k e p → dget k (xe_operations m) = Some o → oe_finished o = false →
  pget (u "name") p = PyStr n → oe_name o = Some (_fingerprint n) → is_opt (pget (u "class") p) (oe_class o) = true →
  reflects before m → paired xm before e.
Proof.
  intros He Ho Hf Hn Hon Hc R. own_kind He. split.
  - destruct (rf_operation _ _ R _ _ Ho) as (e' & p' & n' & c & Hin & He' & Hn' & Hc' & Hon' & Hoc & _).
    exists e', p', n, n'. split; [exact Hin|]. split; [exact He'|].
    split; [rewrite Hoc in Hc; apply is_opt_iff in Hc; rewrite Hc, Hc'; reflexivity|].
    split; [exact Hn|]. split; [exact Hn'|]. congruence.
  - intros Hem. destruct (rf_operation_finished _ _ R _ Hem) as (o' & Ho' & Hf'). congruence.
Qed.
End kinds.

(** The outcome of one event of an enabled mirror. *)
Definition accounts (before : list dict) (e : dict) (m m' : _ExecutionEventMirror) : Prop :=
  issues m ≤ issues m' ∧ xe_enabled m' = xe_enabled m ∧ xe_model m' = xe_model m ∧
  (issues m' = issues m → reflects before m → reflects (before ++ [e]) m' ∧ paired (xe_model m) before e).

(** An event with no kind, or of a kind the pairing does not speak of. *)
Lemma accounts_silent before e m m' :
  issues m ≤ issues m' → xe_enabled m' = xe_enabled m → xe_model m' = xe_model m →
  xe_steps m' = xe_steps m → xe_operations m' = xe_operations m → xe_open m' = xe_open m →
  silent e →
  (pget (u "event_type") e = PyStr (u "state_changed") → is_dict (pget (u "payload") e) = true → issues m' = issues m →
   xe_open m = []) →
  accounts before e m m'.
Proof.
  intros Hi He Hx E1 E2 E3 Hno Hs. split; [exact Hi|]. split; [exact He|]. split; [exact Hx|]. intros Hq R. split.
  - refine (reflects_same before e m m' E1 E2 E3 _ R). intros kind k p Hk. apply Hno. revert Hk. by apply kinds_member.
  - apply (paired_silent _ _ _ Hno). intros Ht Hd k e' p' Hin Hem Hc.
    exact (reflects_open before m k e' p' R (Hs Ht Hd Hq) Hin Hem Hc).
Qed.

(** [m'] with [track]ing in between. *)
Lemma accounts_frame before e m m1 m' :
  issues m1 = issues m → xe_steps m1 = xe_steps m → xe_operations m1 = xe_operations m → xe_open m1 = xe_open m →
  xe_model m1 = xe_model m → xe_enabled m1 = xe_enabled m → accounts before e m1 m' → accounts before e m m'.
Proof.
  intros H1 H2 H3 H4 H5 H6 (A1 & A2 & A3 & A4). unfold accounts. rewrite <-H1, <-H5, <-H6.
  split; [exact A1|]. split; [exact A2|]. split; [exact A3|]. intros Hq [R1 R2 R3 R4 R5 R6]. apply (A4 Hq).
  split; rewrite ?H2, ?H3, ?H4; assumption.
Qed.

Section accounting.
Context (before : list dict) (e : dict) (i : nat) (p : dict) (a : pystr) (kind : string).
Hypothesis Hp : pget (u "payload") e = PyDict p.
Hypothesis Ht : pget (u "event_type") e = PyStr (u kind).
Hypothesis Hv : py_eq (pget (u "execution_model_version") p) (PyInt 1) = true.
Hypothesis Ha : attempt_of p = Some a.

Lemma kind_emits : emits kind (_fingerprint a) e p.
Proof using Hp Ht Hv Ha. split; [exact Hp|]. split; [exact Ht|]. split; [exact Hv|]. by exists a. Qed.

Lemma accounts_step_started m :
  kind = "step_started"%string → accounts before e m (consume_step_started p (_fingerprint a) i m).
Proof using Hp Ht Hv Ha.
  pose proof kind_emits as He. intros ->. split; [apply step_started_grows|].
  split; [unfold consume_step_started; by exec_simpl|]. split; [unfold consume_step_started; by exec_simpl|].
  intros Hq R. destruct (step_started_quiet _ _ _ _ Hq) as (n & Hn & Hin & Hk & ->). split.
  - exact (reflects_step_started before e m p _ n He Hn Hk R).
  - apply (paired_step_started before e m p (_fingerprint a)); try assumption. rewrite Hn. apply str_in_iff. by exists n.
Qed.

Lemma step_event_frame t k m :
  xe_enabled (consume_step_event t p k i m) = xe_enabled m ∧ xe_model (consume_step_event t p k i m) = xe_model m.
Proof using. unfold consume_step_event. repeat case_match; by exec_simpl. Qed.

Lemma accounts_step_event m :
  kind ∈ ["gate_checked"; "artifact_written"; "step_finished"]%string →
  accounts before e m (consume_step_event (PyStr (u kind)) p (_fingerprint a) i m).
Proof using Hp Ht Hv Ha.
  pose proof kind_emits as He. intros Hkind. split; [apply step_event_grows|].
  split; [apply step_event_frame|]. split; [apply step_event_frame|].
  intros Hq R. destruct (step_event_quiet _ _ _ _ _ Hq) as (s & Hs & Hf & Hst & ->). split.
  2: exact (paired_step_event before e m p _ _ kind s Hkind He Hs Hf Hst R).
  assert (Hother : ∀ k2 k p', k2 ∈ ["step_started"; "step_finished"; "operation_started"; "operation_finished"]%string →
            kind = "gate_checked"%string ∨ kind = "artifact_written"%string → ¬ emits k2 k e p').
  { intros k2 k p' Hk2 Hk Hx.
    apply elem_of_cons in Hk2 as [->|[->|[->|[->|[]%not_elem_of_nil]%elem_of_cons]%elem_of_cons]%elem_of_cons];
      destruct Hk as [->| ->]; clash. }
  apply elem_of_cons in Hkind as [->|[->|[->|[]%not_elem_of_nil]%elem_of_cons]%elem_of_cons].
  - change (reflects (before ++ [e]) m). apply (reflects_same before e m m); try done. intros k2 k p' Hk2. apply Hother; [done|by left].
  - change (reflects (before ++ [e]) m). apply (reflects_same before e m m); try done. intros k2 k p' Hk2. apply Hother; [done|by right].
  - exact (reflects_step_finished before e m p _ s He Hs R).
Qed.

Lemma accounts_operation_started m :
  kind = "operation_started"%string → accounts before e m (consume_operation_started p (_fingerprint a) i m).
Proof using Hp Ht Hv Ha.
  pose proof kind_emits as He. intros ->. split; [apply operation_started_grows|].
  split; [unfold consume_operation_started; by exec_simpl|]. split; [unfold consume_operation_started; by exec_simpl|].
  intros Hq R. destruct (operation_started_quiet _ _ _ _ Hq) as (n & c & Hn & Hc & Hin & Hk & ->). split.
  - exact (reflects_operation_started before e m p _ n c He Hn Hc Hk R).
  - apply (paired_operation_started before e m p (_fingerprint a)); try assumption. rewrite Hc. apply str_in_iff. by exists c.
Qed.

Lemma accounts_operation_finished m :
  kind = "operation_finished"%string → accounts before e m (consume_operation_finished p (_fingerprint a) i m).
Proof using Hp Ht Hv Ha.
  pose proof kind_emits as He. intros ->. split; [apply operation_finished_grows|].
  assert (Hfr : xe_enabled (consume_operation_finished p (_fingerprint a) i m) = xe_enabled m ∧
                xe_model (consume_operation_finished p (_fingerprint a) i m) = xe_model m).
  { unfold consume_operation_finished. destruct (dget _ _) as [o|]; [|by rewrite add_enabled, add_model]. cbv zeta.
    cbn [with_ops xe_enabled xe_model]. rewrite !add_enabled, !add_model.
    match goal with |- context [match xm_failure_classes _ with Some _ => _ | None => ?x end] => set (m1 := x) end.
    assert (xe_enabled m1 = xe_enabled m ∧ xe_model m1 = xe_model m) as [E1 E2]
      by (unfold m1; by rewrite !add_enabled, !add_model).
    clearbody m1. rewrite <-E1, <-E2. destruct (xm_failure_classes (xe_model m1)); [|done].
    unfold failure_issue. destruct (is_lit _ _); [|destruct (negb _)]; by rewrite add_enabled, add_model. }
  destruct Hfr as [Hf1 Hf2]. split; [exact Hf1|]. split; [exact Hf2|].
  intros Hq R. destruct (operation_finished_quiet _ _ _ _ Hq) as (o & n & Ho & Hf & Hn & Hon & Hc & ->). split.
  - exact (reflects_operation_finished before e m p _ o He Ho R).
  - exact (paired_operation_finished before e m p _ _ o n He Ho Hf Hn Hon Hc R).
Qed.
End accounting.

Lemma not_lit_type e t : is_lit (pget (u "event_type") e) (u t) = false → pget (u "event_type") e ≠ PyStr (u t).
Proof. intros H E. rewrite E in H. cbn [is_lit] in H. by rewrite bool_decide_eq_true_2 in H. Qed.

Lemma consume_accounts before e i m m' :
  xe_enabled m = true → execution_consume e i m = Ok m' → accounts before e m m'.
Proof.
  intros Hen. unfold execution_consume.
  destruct (pget (u "payload") e) as [| | | | | | |p|] eqn:Hp.
  1-7,9: intros E; apply Ok_inj in E as <-; apply accounts_silent; try done; [intros kind k p' _ (Hx & _); congruence|intros _; by rewrite Hp].
  cbv zeta. destruct (is_lit (pget (u "event_type") e) (u "ticket_created")) eqn:Hc.
  { intros E; apply Ok_inj in E as <-. apply is_lit_iff in Hc. pose proof (silent_other e _ Hc eq_refl) as Hno.
    assert (Hx : pget (u "event_type") e = PyStr (u "state_changed") → False).
    { intros Hx. exact (literal_clash _ _ _ Hc Hx eq_refl). }
    case_match; apply accounts_silent; try done; intros; by destruct Hx. }
  destruct (is_lit (pget (u "event_type") e) (u "state_changed")) eqn:Hs.
  { intros E; apply Ok_inj in E as <-. apply is_lit_iff in Hs. pose proof (silent_other e _ Hs eq_refl) as Hno. clear Hc.
    set (m1 := add_issue _ _ m).
    assert (H1 : issues m ≤ issues m1 ∧ (issues m1 = issues m → xe_open m = [])).
    { unfold m1. rewrite issues_add. destruct (xe_open m); cbn [down]; split; intros; try done; lia. }
    assert (F1 : xe_enabled m1 = xe_enabled m ∧ xe_model m1 = xe_model m ∧ xe_steps m1 = xe_steps m ∧
                 xe_operations m1 = xe_operations m ∧ xe_open m1 = xe_open m) by (unfold m1; split_and!; by exec_simpl).
    clearbody m1. destruct H1 as [G1 G2]. destruct F1 as (F1 & F2 & F3 & F4 & F5).
    destruct (check_frame p i m1) as (C1 & C2 & C3 & C4 & C5 & C6).
    case_match; apply accounts_silent; try assumption; rewrite ?C2, ?C3, ?C4, ?C5, ?C6; try assumption; try lia;
      intros _ _ Hq; apply G2; lia. }
  assert (Hsc : pget (u "event_type") e = PyStr (u "state_changed") → False) by by apply not_lit_type.
  assert (Hstill : ∀ m, silent e → accounts before e m m).
  { intros m1 Hno. apply accounts_silent; try done; intros; by destruct Hsc. }
  destruct (py_eq (pget (u "execution_model_version") p) (PyInt 1)) eqn:Hv; cbn [negb].
  2: { intros E; apply Ok_inj in E as <-. apply Hstill. intros kind k p' _ (Hp' & _ & Hv' & _). congruence. }
  unfold consume_versioned. set (m1 := _track_completion_attempt _ _ _ _).
  destruct (track_frame (pget (u "event_type") e) p i m) as (T1 & T2 & T3 & T4 & T5 & T6).
  intros E. apply (accounts_frame before e m m1 _ T1 T2 T3 T4 T5 T6). fold m1 in T6. revert E. rewrite T6, Hen. clearbody m1.
  destruct (attempt_of p) as [a|] eqn:Ha.
  2: { intros E; apply Ok_inj in E as <-. split; [rewrite issues_add; lia|]. split; [apply add_enabled|]. split; [apply add_model|].
       rewrite issues_add. cbn [down]. lia. }
  cbv zeta. destruct (is_lit (pget (u "event_type") e) (u "step_started")) eqn:K1.
  { intros E; apply Ok_inj in E as <-. apply is_lit_iff in K1. by apply (accounts_step_started before e i p a "step_started"). }
  intros (b & K2 & E)%bind_ok. apply Ok_inj in E as <-. unfold in_set in K2.
  destruct (unhashable _); [discriminate|]. apply Ok_inj in K2. destruct b.
  { apply str_in_iff in K2 as (t & K2 & Hin). rewrite K2.
    apply elem_of_cons in Hin as [->|[->|[->|[]%not_elem_of_nil]%elem_of_cons]%elem_of_cons];
      (apply accounts_step_event; try assumption); by_compute. }
  destruct (is_lit (pget (u "event_type") e) (u "operation_started")) eqn:K3.
  { apply is_lit_iff in K3. by apply (accounts_operation_started before e i p a "operation_started"). }
  destruct (is_lit (pget (u "event_type") e) (u "operation_finished")) eqn:K4.
  { apply is_lit_iff in K4. by apply (accounts_operation_finished before e i p a "operation_finished"). }
  apply Hstill. intros kind k p' Hkind (_ & Ht & _). rewrite Ht in K1, K2, K3, K4.
  revert K1 K2 K3 K4. revert Hkind. clear. intros Hk.
  repeat (apply elem_of_cons in Hk as [->|Hk]; [vm_compute; discriminate|]). by apply not_elem_of_nil in Hk.
Qed.

(** The mirror raises on the events of an unhashable type alone. *)
Lemma in_set_literal v t names : is_lit v t = true → in_set v names = Ok (str_in v names).
Proof. by intros ->%is_lit_iff. Qed.
Lemma track_enabled t p i m : xe_enabled (_track_completion_attempt t p i m) = xe_enabled m.
Proof. by apply (track_frame t p i m). Qed.
Lemma consume_raises e i m x :
  execution_consume e i m = Err x → x = TypeError "unhashable type" ∧ xe_enabled m = true ∧ unhashable_type e = true.
Proof.
  unfold execution_consume, unhashable_type. destruct (pget (u "payload") e) as [| | | | | | |p|]; try discriminate. cbv zeta.
  destruct (is_lit _ (u "ticket_created")); [discriminate|]. destruct (is_lit _ (u "state_changed")); [discriminate|].
  destruct (py_eq _ _); cbn [negb]; [|discriminate]. unfold consume_versioned. rewrite track_enabled.
  destruct (xe_enabled m), (attempt_of p); try discriminate. cbv zeta. destruct (is_lit _ (u "step_started")); [discriminate|].
  unfold in_set. destruct (unhashable _); [|discriminate]. by intros [= <-].
Qed.
Lemma consume_enabled e i m m' : execution_consume e i m = Ok m' → xe_enabled m' = xe_enabled m.
Proof.
  destruct (xe_enabled m) eqn:Hen; [intros He; rewrite <-Hen; by apply (consume_accounts [] e i m m')|].
  unfold execution_consume. destruct (pget (u "payload") e) as [| | | | | | |p|]; try (intros E; by apply Ok_inj in E as <-). cbv zeta.
  destruct (is_lit _ (u "ticket_created")); [intros E; apply Ok_inj in E as <-; by case_match|].
  destruct (is_lit _ (u "state_changed")).
  { intros E; apply Ok_inj in E as <-. rewrite <-Hen. set (m1 := add_issue _ _ m).
    assert (E1 : xe_enabled m1 = xe_enabled m) by apply add_enabled. rewrite <-E1. case_match; [|done]. by apply (check_frame p i m1). }
  destruct (negb _); [intros E; by apply Ok_inj in E as <-|]. unfold consume_versioned. rewrite track_enabled, Hen.
  destruct (attempt_of p); intros E; apply Ok_inj in E as <-; repeat case_match; cbn [with_ops xe_enabled]; by rewrite track_enabled.
Qed.

(** *** The whole chain *)
Lemma replay_accounts events before i m m' :
  xe_enabled m = true → execution_replay events i m = Ok m' →
  issues m ≤ issues m' ∧
  (issues m' = issues m → reflects before m →
   ∀ pre e post, events = pre ++ e :: post → paired (xe_model m) (before ++ pre) e).
Proof.
  revert before i m. induction events as [|e es IH]; intros before i m Hen; cbn [execution_replay].
  { intros E; apply Ok_inj in E as <-. split; [done|]. intros _ _ pre e post E. by destruct pre. }
  intros (m1 & H1 & Hrun)%bind_ok.
  destruct (consume_accounts before e i m m1 Hen H1) as (A1 & A2 & A3 & A4). rewrite Hen in A2.
  destruct (IH (before ++ [e]) (S i) m1 A2 Hrun) as [G IH']. split; [lia|].
  intros Hq R. destruct (A4 ltac:(lia) R) as [R' P]. rewrite A3 in IH'.
  intros [|e0 pre] e1 post [= <- E]; [by rewrite app_nil_r|].
  specialize (IH' ltac:(lia) R' pre e1 post E). by rewrite <-app_assoc in IH'.
Qed.

Lemma healthy_replay events i m m' : execution_replay events i m = Ok m' → healthy m → healthy m'.
Proof.
  revert i m. induction events as [|e es IH]; intros i m; cbn [execution_replay]; [intros E; by apply Ok_inj in E as <-|].
  intros (m1 & H1 & Hrun)%bind_ok Hm. by eapply IH, healthy_consume.
Qed.

Lemma execution_new_spec model xm receipt :
  _normalize_execution_model model true = Ok xm →
  let m := execution_mirror_new (Some model) receipt in
  xe_enabled m = true ∧ xe_model m = xm ∧ healthy m ∧ reflects [] m.
Proof.
  intros Hx. unfold execution_mirror_new. destruct model as [| | | | | | |d|]; try discriminate Hx. cbn [negb]. cbv zeta.
  rewrite Hx. set (pr := match receipt with None => _ | Some _ => _ end).
  assert (Hpr : collector_inv pr.2).
  { unfold pr. destruct receipt as [v|]; [destruct (_normalize_completion_receipt v)|]; cbn [snd];
      try apply append_problem_inv; apply collector_new_inv. }
  clearbody pr. destruct pr as [policy problems]. cbn [snd] in Hpr.
  assert (Hem : ∀ kind k, ¬ emitted kind k []). { intros kind k (e & p & Hin & _). by apply not_elem_of_nil in Hin. }
  destruct policy as [policy|]; cbn [xe_enabled xe_model]; (split; [done|]; split; [done|]; split).
  1,3: unfold healthy; cbn [xe_problems]; try case_match; try apply append_problem_inv; exact Hpr.
  all: split; cbn [xe_steps xe_operations]; try done; intros k; try (intros Hk; by destruct (Hem _ _ Hk)).
  all: intros e p Hin; by apply not_elem_of_nil in Hin.
Qed.

(** C22: when the mirror takes a chain and reports nothing, every event of the chain is paired with
    the events before it: an attempt starts once, with a step or an operation
    class of the catalog; a check, an artifact or an end names an attempt that
    was started for the same step and not yet ended; an operation ends once,
    under the name and class it started with; and no state change happens while
    an operation with side effects is open. *)
Theorem execution_pairing model xm receipt events m :
  _normalize_execution_model model true = Ok xm →
  execution_replay events 1 (execution_mirror_new (Some model) receipt) = Ok m → rp_values (execution_finish m) = [] →
  ∀ before e after, events = before ++ e :: after → paired xm before e.
Proof.
  intros Hx Hrun Hr before e after E. destruct (execution_new_spec model xm receipt Hx) as (Hen & Hm & Hh & R).
  set (m0 := execution_mirror_new (Some model) receipt) in *.
  destruct (replay_accounts events [] 1 m0 m Hen Hrun) as [G P]. rewrite Hm in P.
  apply (P ltac:(apply (render_collector_spec _ (healthy_replay events 1 m0 m Hrun Hh)) in Hr; unfold issues in *; lia) R _ _ _ E).
Qed.

Module ExecutionSample.
Definition model : pyval := model_value
  (mkModel [u "delivery"] [u "tests"] [u "success"; u "failed"] [u "read_only"; u "write"] (Some [u "timeout"]) true).
Definition receipt : pyval := PyDict
  [(u "schema_version", PyInt 1); (u "target", PyStr (u "completed")); (u "step", PyStr (u "delivery"));
   (u "required_checks", PyList [PyStr (u "tests")])].
Definition digest : pyval := PyStr (repeat 97%N 64).
Definition versioned (kind : string) (attempt : string) (payload : dict) : dict :=
  [(u "event_type", PyStr (u kind));
   (u "payload", PyDict ((u "execution_model_version", PyInt 1) :: (u "attempt", PyStr (u attempt)) :: payload))].
Definition pair_of (a b : string) : pystr * pyval := (u a, PyStr (u b)).
Definition chain : list dict := [
  [(u "event_type", PyStr (u "ticket_created")); (u "payload", PyDict [(u "execution_contract_version", PyInt 1)])];
  versioned "step_started" "s1" [pair_of "step" "delivery"; (u "input_digest", digest); (u "contract_digest", digest)];
  versioned "operation_started" "o1" [pair_of "name" "apply patch"; pair_of "class" "write"; (u "input_digest", digest);
                                      (u "idempotency_provided", PyBool true)];
  versioned "operation_finished" "o1" [pair_of "name" "apply patch"; pair_of "class" "write"; pair_of "outcome" "success";
    (u "duration_ms", PyInt 12); pair_of "evidence" "diff"; pair_of "after_check" "status";
    (u "decision", PyDict [pair_of "action" "complete"; pair_of "reason" "operation_succeeded";
                           pair_of "conclusion_ceiling" "verified"; (u "auto_retry", PyBool false)])];
  versioned "gate_checked" "s1" [pair_of "step" "delivery"; pair_of "boundary" "tests"; pair_of "result" "pass";
                                 (u "captured_digest", digest); (u "current_digest", digest)];
  versioned "step_finished" "s1" [pair_of "step" "delivery"; pair_of "outcome" "success"; (u "duration_ms", PyInt 30);
                                  (u "checks", PyDict [pair_of "tests" "pass"])];
  [(u "event_type", PyStr (u "state_changed"));
   (u "payload", PyDict [pair_of "from" "plan_done"; pair_of "to" "completed"])]].
Definition replayed (chain : list dict) (receipt : option pyval) : result _ExecutionEventMirror :=
  execution_replay chain 1 (execution_mirror_new (Some model) receipt).
Definition last_mirror : _ExecutionEventMirror := Eval vm_compute in
  match replayed chain (Some receipt) with Ok m => m | Err _ => execution_mirror_new None None end.
End ExecutionSample.

Lemma execution_pairing_witness :
  ExecutionSample.replayed ExecutionSample.chain (Some ExecutionSample.receipt) = Ok ExecutionSample.last_mirror ∧
  rp_values (execution_finish ExecutionSample.last_mirror) = [] ∧
  paired (mkModel [u "delivery"] [u "tests"] [u "success"; u "failed"] [u "read_only"; u "write"] (Some [u "timeout"]) true)
    (take 6 ExecutionSample.chain) (nth 6 ExecutionSample.chain []).
Proof.
  split; [vm_compute; reflexivity|]. split; [vm_compute; reflexivity|].
  apply (execution_pairing ExecutionSample.model _ (Some ExecutionSample.receipt) ExecutionSample.chain ExecutionSample.last_mirror
           ltac:(vm_compute; reflexivity) ltac:(vm_compute; reflexivity) ltac:(vm_compute; reflexivity) _ _ []).
  reflexivity.
Defined.

(** Without the end of the operation the state change is reported. *)
Example open_operation_reported :
  let chain := take 3 ExecutionSample.chain ++ drop 6 ExecutionSample.chain in
  (m ← ExecutionSample.replayed chain None; Ok (rp_values (execution_finish m)))
  = Ok [nth_event 4 " state_changed 在有副作用 operation 未终结时推进状态"].
Proof. vm_compute. reflexivity. Qed.

(** An event whose type is a list makes the replay raise. *)
Example unhashable_event_type_raises :
  ExecutionSample.replayed
    [[(u "event_type", PyList []);
      (u "payload", PyDict [(u "execution_model_version", PyInt 1); (u "attempt", PyStr (u "a1"))])]] None
  = Err (TypeError "unhashable type").
Proof. vm_compute. reflexivity. Qed.
