(* ===== verification/EventChain.v ===== *)
(** * The event chain of a pack ([_verify_event_chain], [src/src/icode/pack_verify.py])

    One pass over the physical lines of [events.jsonl]: every event is checked
    against the schema, linked to the one before by its hash, and replayed
    through the four mirrors; problems are collected within bounds.  The file
    system is an argument: [event_file] is what [stat], [open] and the decoding
    reader deliver.  [event_chain_iff] says what an empty report means, and
    [chain_tamper_evident] what the hashes are worth. *)

From Stdlib Require Import SpecFloat.
From S2P Require Import Prelude PyText PyVal Hashing Json JsonParse StrictJson Problems EventSchema.
From S2P Require Import Utf8 AgentMirror TicketMirror BindingMirror ExecutionMirror.

Definition _MAX_EVENT_CHAIN_LINE_BYTES : N := 1024 * 1024.
Definition _MAX_EVENT_CHAIN_TOTAL_BYTES : N := 64 * 1024 * 1024.
Definition _MAX_EVENT_CHAIN_EVENT_COUNT : N := 100000.

(** ** The file

    [evf_stat] and [evf_open] may fail with an [OSError] or [UnicodeError], whose
    class name is all the code uses; [evf_text] is the text the reader decodes, up
    to the end of the file or to the failure [evf_fault]. *)
Record event_file := mkEventFile {
  evf_stat : N + pystr;
  evf_open : option pystr;
  evf_text : pystr;
  evf_fault : option pystr
}.

(** Lines with their terminator, as [readline] returns them with [newline=""]:
    CR, LF and CR LF end a line.  The size limit passed to [readline] cuts only
    lines that the next test refuses. *)
Fixpoint physical_lines (line : pystr) (text : pystr) : list pystr :=
  match text with
  | [] => match line with [] => [] | _ => [reverse line] end
  | c :: rest =>
    if (c =? 10)%N then reverse (c :: line) :: physical_lines [] rest
    else if (c =? 13)%N then
      match rest with
      | d :: rest' => if (d =? 10)%N then reverse (d :: c :: line) :: physical_lines [] rest'
                      else reverse (c :: line) :: physical_lines [] rest
      | [] => [reverse (c :: line)]
      end
    else physical_lines (c :: line) rest
  end.

(** ** The state of the pass, one part per concern *)

(** Identity and linkage. *)
Record links := mkLinks {
  lk_seen : list pystr;
  lk_previous : pyval;
  lk_diagnostics : _EventChainDiagnostics
}.
(** The categories that are reported once. *)
Record shapes := mkShapes {
  sh_first_valid : bool;
  sh_first_label : pystr;
  sh_payload_kinds : list pystr;
  sh_bad_type : bool;
  sh_schema : list pystr
}.
(** The records of the metadata that events mirror. *)
Record mirrored := mkMirrored {
  mi_records : list (pystr * list dict);
  mi_indexes : list (pystr * nat);
  mi_mismatches : list pystr
}.
Record chain_state := mkChainState {
  st_problems : _ProblemCollector;
  st_links : links;
  st_shapes : shapes;
  st_metadata_hash : option pyval;
  st_facts : list (pystr * (pystr * pystr));
  st_mirrored : mirrored;
  st_agents : option _AgentLifecycleMirror;
  st_ticket : _TicketStateMirror;
  st_binding : ExecutionBindingMirror;
  st_execution : _ExecutionEventMirror;
  st_events : N
}.

(** The keyword arguments; [None] is the sentinel of the source. *)
Record expectations := mkExpect {
  ex_ticket_id : option pystr;
  ex_event_mirrors : option pyval;
  ex_agent_spawns : option pyval;
  ex_metadata_hash : option pyval;
  ex_state_machine : option pyval;
  ex_execution_model : option pyval;
  ex_completion_receipt : option pyval;
  ex_metadata : option pyval
}.

Definition str_add (x : pystr) (s : list pystr) : list pystr := if x ∈s s then s else s ++ [x].
Definition event_number (n : N) (rest : string) : pystr := u "第 " ++ dec n ++ u rest.

Section verify.
Context `{FloatRepr} `{PyRepr}.
(** The text of an exception, [f"{exc}"]. *)
Context (exn_text : exn → pystr).

Definition add_link (bad : bool) (category : string) (message : pystr) (d : _EventChainDiagnostics) : _EventChainDiagnostics :=
  if bad then add_diagnostic (u category) message d else d.

Definition consume_links (event : dict) (schema_issues : list pystr) (n : N) (l : links) : result links :=
  let id := pget (u "event_id") event in
  let '(seen, d) :=
    match id with
    | PyStr (c :: i) =>
      if u "event_id" ∈s schema_issues then (lk_seen l, lk_diagnostics l)
      else if (c :: i) ∈s lk_seen l then
        (lk_seen l, add_link true "event_id_duplicate" (event_number n " 条事件 event_id 重复：" ++ py_repr id) (lk_diagnostics l))
      else ((c :: i) :: lk_seen l, lk_diagnostics l)
    | _ => (lk_seen l, add_link true "event_id" (event_number n " 条事件 event_id 结构无效（必须是非空字符串）") (lk_diagnostics l))
    end in
  let d := add_link (negb (py_eq (pget (u "previous_event_hash") event) (lk_previous l))) "previous_event_hash"
             (event_number n " 条事件 previous_event_hash 断链（疑似删改事件）") d in
  hash ← canonical_event_hash event;
  let d := add_link (negb (is_lit (pget (u "event_hash") event) hash)) "event_hash"
             (event_number n " 条事件 event_hash 与内容不符（疑似篡改）") d in
  Ok (mkLinks seen (match dget (u "event_hash") event with Some h => h | None => lk_previous l end) d).

(** [repr(first_type[:160])] with its ellipsis. *)
Definition first_label (event_type : pyval) : pystr :=
  match event_type with
  | PyStr s => py_repr (PyStr (take 160 s)) ++ (if 160 <? length s then u "..." else [])
  | v => u "<" ++ py_type_name v ++ u ">"
  end.

Definition consume_shapes (event : dict) (schema_issues : list pystr) (n : N) (s : shapes) : shapes :=
  let event_type := pget (u "event_type") event in
  let first := (n =? 1)%N in
  mkShapes
    (if first then str_in event_type ALLOWED_FIRST_EVENT else sh_first_valid s)
    (if first then first_label event_type else sh_first_label s)
    (match pget (u "payload") event with
     | PyDict _ => sh_payload_kinds s
     | _ => str_add (if is_lit event_type (u "artifact_written") then u "artifact_written" else u "event") (sh_payload_kinds s)
     end)
    (sh_bad_type s || negb (str_in event_type ALLOWED_EVENT_TYPES))
    (foldl (λ s x, str_add x s) (sh_schema s) schema_issues).

Definition consume_metadata_hash (event : dict) (last : option pyval) : option pyval :=
  match pget (u "payload") event with
  | PyDict payload => let marker := pget (u "metadata_hash_after") payload in if py_truth marker then Some marker else last
  | _ => last
  end.

Definition consume_facts (event : dict) (facts : list (pystr * (pystr * pystr))) : list (pystr * (pystr * pystr)) :=
  match pget (u "payload") event with
  | PyDict payload =>
    if is_lit (pget (u "event_type") event) (u "artifact_written") then
      let digest := pget (u "sha256") payload in
      if py_truth digest then
        dset (py_str digest) (py_str (pget (u "event_id") event), str_or [] (pget (u "path") payload)) facts
      else facts
    else facts
  | _ => facts
  end.

Definition consume_agents (event : dict) (m : option _AgentLifecycleMirror) : result (option _AgentLifecycleMirror) :=
  match m, pget (u "event_type") event with
  | Some m, PyStr t =>
    if is_lifecycle t then m' ← agent_consume m (t, pget (u "payload") event); Ok (Some m') else Ok (Some m)
  | m, _ => Ok m
  end.

Definition mirror_message (event_type : pystr) : pystr :=
  event_type ++ u " 事件与 metadata." ++ default [] (dget event_type _METADATA_EVENT_MIRROR_FIELDS) ++ u " 不一致".

(** Also the problems the event adds. *)
Definition consume_mirrored (event : dict) (m : mirrored) : result (mirrored * list pystr) :=
  match pget (u "event_type") event with
  | PyStr t =>
    match dget t (mi_records m) with
    | None => Ok (m, [])
    | Some records =>
      let index := default 0 (dget t (mi_indexes m)) in
      mismatch ← match records !! index with
                 | None => Ok true
                 | Some record =>
                   match pget (u "payload") event with
                   | PyDict payload => same ← _event_payload_matches_metadata_record payload record; Ok (negb same)
                   | _ => Ok false
                   end
                 end;
      let fresh := mismatch && negb (t ∈s mi_mismatches m) in
      Ok (mkMirrored (mi_records m) (dset t (S index) (mi_indexes m)) (if fresh then t :: mi_mismatches m else mi_mismatches m),
          if fresh then [mirror_message t] else [])
    end
  | _ => Ok (m, [])
  end.

(** The body of the loop, for one parsed event. *)
Definition consume_event (ex : expectations) (event : dict) (s : chain_state) : result chain_state :=
  let n := (st_events s + 1)%N in
  let schema_issues := event_schema_issues event (ex_ticket_id ex) in
  l ← consume_links event schema_issues n (st_links s);
  x ← execution_consume event (N.to_nat n) (st_execution s);
  a ← consume_agents event (st_agents s);
  mp ← consume_mirrored event (st_mirrored s);
  Ok (mkChainState (extend_list mp.2 (st_problems s)) l (consume_shapes event schema_issues n (st_shapes s))
        (consume_metadata_hash event (st_metadata_hash s)) (consume_facts event (st_facts s)) mp.1 a
        (ticket_consume event (N.to_nat n) (st_ticket s)) (binding_consume event (st_binding s)) x n).

(** ** Reports *)
Definition outcome : Type := list (pystr * (pystr * pystr)) * _BoundedProblemReport.
Definition chain_report (s : chain_state) : _BoundedProblemReport := render_diagnostics (lk_diagnostics (st_links s)).

Definition shape_problems (s : shapes) : list pystr :=
  (if u "event" ∈s sh_payload_kinds s then [u "事件 payload 结构无效（必须是对象）"] else [])
  ++ (if u "artifact_written" ∈s sh_payload_kinds s then [u "artifact_written 事件 payload 结构无效（必须是对象）"] else [])
  ++ (if sh_bad_type s then [u "事件 event_type 无效（不属于允许类型）"] else [])
  ++ (if bool_decide (sh_schema s = []) then []
      else [u "事件不符合 pinned ticket-event schema（字段：" ++ join (u ", ") (sorted_strs (sh_schema s)) ++ u "）"]).

(** The reader gives up: a limit is exceeded, or a line is no event. *)
Definition over_limit (message : pystr) (s : chain_state) : outcome :=
  ([], render_collector (append_problem message (extend_report (chain_report s) (st_problems s)))).
Definition bad_line (message : pystr) (s : chain_state) : outcome :=
  (st_facts s, render_collector (extend_list (shape_problems (st_shapes s))
                 (extend_report (chain_report s) (append_problem message (st_problems s))))).
Definition unreadable (name : pystr) (s : chain_state) : outcome :=
  ([], render_collector
         (extend_list (if bool_decide (sh_schema (st_shapes s) = []) then []
                       else [u "事件不符合 pinned ticket-event schema（字段：" ++ join (u ", ") (sorted_strs (sh_schema (st_shapes s))) ++ u "）"])
            (extend_report (chain_report s) (append_problem (u "事件链无法读取：" ++ name) (st_problems s))))).

(** The loop: [inl] when the pass is over early. *)
Fixpoint consume_lines (ex : expectations) (lines : list pystr) (lineno total : N) (s : chain_state) : result (outcome + chain_state) :=
  match lines with
  | [] => Ok (inr s)
  | line :: rest =>
    let lineno := (lineno + 1)%N in
    let line_bytes := N.of_nat (length (utf8_bytes line)) in
    if (_MAX_EVENT_CHAIN_LINE_BYTES <? N.of_nat (length line))%N || (_MAX_EVENT_CHAIN_LINE_BYTES <? line_bytes)%N then
      Ok (inl (over_limit (u "事件链第 " ++ dec lineno ++ u " 行超过单条物理行字节数上限") s))
    else
      let total := (total + line_bytes)%N in
      if (_MAX_EVENT_CHAIN_TOTAL_BYTES <? total)%N then Ok (inl (over_limit (u "事件链超过总输入字节数上限") s))
      else match strip line with
      | [] => consume_lines ex rest lineno total s
      | text =>
        if (_MAX_EVENT_CHAIN_EVENT_COUNT <=? st_events s)%N then Ok (inl (over_limit (u "事件链超过最大事件条数上限") s))
        else match loads_json_value text with
        | Err e => Ok (inl (bad_line (u "事件链第 " ++ dec lineno ++ u " 行 JSON 不可解析（疑似截断/篡改）：" ++ exn_text e) s))
        | Ok (PyDict event) => s ← consume_event ex event s; consume_lines ex rest lineno total s
        | Ok _ => Ok (inl (bad_line (u "事件链第 " ++ dec lineno ++ u " 行结构无效（必须是对象）") s))
        end
      end
  end.

(** ** Before the loop *)
(** [expected_event_mirrors.get(event_type, [])], [None] read as empty. *)
Definition records_of (d : dict) (t : pystr) : pyval := match dget t d with None | Some PyNone => PyList [] | Some v => v end.
Definition mirrored_new (mirrors : dict) : mirrored * list pystr :=
  foldl (λ acc p,
           match match records_of mirrors p.1 with PyList l => all_dicts l | _ => None end with
           | Some ds => (mkMirrored (dset p.1 ds (mi_records acc.1)) (dset p.1 0 (mi_indexes acc.1)) [], acc.2)
           | None => (acc.1, acc.2 ++ [u "工单 metadata." ++ p.2 ++ u " 结构无效 （必须是仅含对象的数组或 null）"])
           end)
    (mkMirrored [] [] [], []) _METADATA_EVENT_MIRROR_FIELDS.

Definition chain_state_new (ex : expectations) : chain_state :=
  let '(mirrors, p1) :=
    match ex_event_mirrors ex with
    | None => (mkMirrored [] [] [], [])
    | Some (PyDict d) => mirrored_new d
    | Some _ => (mkMirrored [] [] [], [u "工单 metadata 事件镜像结构无效"])
    end in
  let agents := agent_mirror_new <$> ex_agent_spawns ex in
  let p2 := match agents with
            | Some a => if am_structurally_valid a then []
                        else [u "工单 metadata." ++ _METADATA_AGENT_SPAWNS_FIELD ++ u " 结构无效 （必须是仅含对象的数组或 null）"]
            | None => []
            end in
  let metadata := default (PyObj 0) (ex_metadata ex) in
  mkChainState (extend_list (p1 ++ p2) collector_new) (mkLinks [] (PyStr GENESIS_HASH) diagnostics_new)
    (mkShapes false [] [] false []) None [] mirrors agents (ticket_mirror_new (ex_state_machine ex) metadata)
    (binding_new metadata) (execution_mirror_new (ex_execution_model ex) (ex_completion_receipt ex)) 0.

(** ** After the loop *)
Definition leftover (m : mirrored) : list pystr :=
  mirror_message <$> filter (λ t, bool_decide (dget t (mi_indexes m) = length <$> dget t (mi_records m)) = false ∧ t ∉ mi_mismatches m)
                       (dkeys (mi_records m)).

Definition last_problems (ex : expectations) (s : chain_state) : result (list pystr) :=
  bad_agents ← match st_agents s with
               | Some a => if am_structurally_valid a then ok ← agent_finish a; Ok (negb ok) else Ok false
               | None => Ok false
               end;
  Ok ((if (st_events s =? 0)%N || sh_first_valid (st_shapes s) then []
       else [u "首条事件类型为 " ++ sh_first_label (st_shapes s) ++ u "，应为 ['migration_applied', 'ticket_created'] 之一"])
      ++ shape_problems (st_shapes s)
      ++ match st_metadata_hash s, ex_metadata_hash ex with
         | Some last, Some expected =>
           if py_eq last expected then [] else [u "事件链最终 metadata_hash_after 与工单 metadata 摘要不一致"]
         | _, _ => []
         end
      ++ leftover (st_mirrored s)
      ++ (if bad_agents : bool then [u "agent_spawned/agent_result 事件与 metadata." ++ _METADATA_AGENT_SPAWNS_FIELD ++ u " 不一致"] else [])).

Definition finish_chain (ex : expectations) (s : chain_state) : result outcome :=
  ps ← last_problems ex s;
  let problems := extend_list ps (extend_report (chain_report s) (st_problems s)) in
  let problems := match ticket_finish (st_ticket s) with Some r => extend_report r problems | None => problems end in
  let problems := extend_list (binding_finish (st_binding s)) problems in
  Ok (st_facts s, render_collector (extend_report (execution_finish (st_execution s)) problems)).

Definition _verify_event_chain (ex : expectations) (file : event_file) : result outcome :=
  let s := chain_state_new ex in
  match evf_stat file with
  | inr name => Ok ([], render_collector (append_problem (u "事件链无法读取：" ++ name) (extend_report (chain_report s) (st_problems s))))
  | inl size =>
    if (_MAX_EVENT_CHAIN_TOTAL_BYTES <? size)%N then
      Ok ([], render_collector (append_problem (u "事件链超过总输入字节数上限") (st_problems s)))
    else match evf_open file with
    | Some name => Ok (st_facts s, render_collector (append_problem (u "事件链无法读取：" ++ name) (extend_report (chain_report s) (st_problems s))))
    | None =>
      r ← consume_lines ex (physical_lines [] (evf_text file)) 0 0 s;
      match r with
      | inl o => Ok o
      | inr s => match evf_fault file with Some name => Ok (unreadable name s) | None => finish_chain ex s end
      end
    end
  end.
End verify.

(** ** What an accepted chain is *)
Section accepted.
Context `{FloatRepr} `{PyRepr}.

(** Every event names the hash of the one before, and carries its own. *)
Fixpoint linked (previous : pystr) (events : list dict) : Prop :=
  match events with
  | [] => True
  | e :: rest =>
    pget (u "previous_event_hash") e = PyStr previous ∧
    ∃ h, canonical_event_hash e = Ok h ∧ pget (u "event_hash") e = PyStr h ∧ linked h rest
  end.

(** The one event of a type against the record of the metadata. *)
Definition written (e record : dict) : Prop :=
  ∀ payload, pget (u "payload") e = PyDict payload → _event_payload_matches_metadata_record payload record = Ok true.
Definition of_type (t : pystr) (e : dict) : Prop := is_lit (pget (u "event_type") e) t = true.
#[export] Instance of_type_dec t e : Decision (of_type t e).
Proof. unfold of_type. apply _. Defined.

Definition typed (events : list dict) : list (pystr * pyval) :=
  omap (λ e, match pget (u "event_type") e with
             | PyStr t => if is_lifecycle t then Some (t, pget (u "payload") e) else None | _ => None end) events.

Definition metadata_of (ex : expectations) : pyval := default (PyObj 0) (ex_metadata ex).

(** Records of the metadata are the events of their type, in order. *)
Definition mirrors_agree (ex : expectations) (es : list dict) : Prop :=
  ∀ v, ex_event_mirrors ex = Some v → ∃ d, v = PyDict d ∧
    ∀ t, t ∈ dkeys _METADATA_EVENT_MIRROR_FIELDS →
    ∃ records, records_of d t = PyList (PyDict <$> records) ∧ Forall2 written (filter (of_type t) es) records.

Record chain_ok (ex : expectations) (events : list dict) : Prop := mkChainOk {
  ck_form : Forall (event_form (ex_ticket_id ex)) events;
  ck_ids : NoDup ((λ e, pget (u "event_id") e) <$> events);
  ck_first : ∀ e, head events = Some e → str_in (pget (u "event_type") e) ALLOWED_FIRST_EVENT = true;
  ck_linked : linked GENESIS_HASH events;
  ck_metadata_hash : ∀ last expected, foldl (λ l e, consume_metadata_hash e l) None events = Some last →
    ex_metadata_hash ex = Some expected → py_eq last expected = true;
  ck_mirrored : mirrors_agree ex events;
  ck_agents : ∀ v, ex_agent_spawns ex = Some v → am_structurally_valid (agent_mirror_new v) = true ∧
    ∃ m, foldM_res agent_consume (agent_mirror_new v) (typed events) = Ok m ∧ agent_finish m = Ok true;
  ck_ticket : ∀ r, ticket_finish (ticket_replay events 1 (ticket_mirror_new (ex_state_machine ex) (metadata_of ex))) = Some r →
    rp_values r = [];
  ck_binding : binding_finish (binding_replay events (binding_new (metadata_of ex))) = [];
  ck_execution : ∃ m, execution_replay events 1 (execution_mirror_new (ex_execution_model ex) (ex_completion_receipt ex)) = Ok m ∧
    rp_values (execution_finish m) = []
}.

(** *** One event *)
Definition quiet_shapes (s : shapes) : Prop := sh_payload_kinds s = [] ∧ sh_bad_type s = false ∧ sh_schema s = [].
Definition loud (l : links) : nat := ed_total (lk_diagnostics l).
Definition quiet (s : chain_state) : Prop := loud (st_links s) = 0 ∧ quiet_shapes (st_shapes s).

Lemma add_link_total b k m d : ed_total (add_link b k m d) = down b + ed_total d.
Proof. by destruct b. Qed.
Lemma add_link_inv b k m d : diagnostics_inv d → diagnostics_inv (add_link b k m d).
Proof. destruct b; [apply add_diagnostic_inv|done]. Qed.

Lemma consume_links_grows e iss n l l' :
  consume_links e iss n l = Ok l' →
  loud l ≤ loud l' ∧ (diagnostics_inv (lk_diagnostics l) → diagnostics_inv (lk_diagnostics l')).
Proof.
  unfold consume_links. set (p := match pget (u "event_id") e with PyStr _ => _ | _ => _ end).
  assert (Hp : ed_total (lk_diagnostics l) ≤ ed_total p.2 ∧ (diagnostics_inv (lk_diagnostics l) → diagnostics_inv p.2)).
  { unfold p. repeat case_match; cbn [snd]; rewrite ?add_link_total; cbn [down];
      (split; [lia|]); try done; intros; by apply add_link_inv. }
  clearbody p. destruct p as [seen d]. cbn [snd] in Hp. intros (h & _ & E)%bind_ok. apply Ok_inj in E as <-.
  unfold loud. cbn [lk_diagnostics]. rewrite !add_link_total. split; [lia|]. intros Hd. by apply add_link_inv, add_link_inv, Hp.
Qed.

Lemma consume_links_quiet t e n l l' prev :
  consume_links e [] n l = Ok l' → event_form t e → loud l = 0 → lk_previous l = PyStr prev →
  ∃ i h, pget (u "event_id") e = PyStr i ∧ canonical_event_hash e = Ok h ∧
    (loud l' = 0 ↔ i ∉ lk_seen l ∧ pget (u "previous_event_hash") e = PyStr prev ∧ pget (u "event_hash") e = PyStr h) ∧
    (loud l' = 0 → lk_seen l' = i :: lk_seen l ∧ lk_previous l' = PyStr h).
Proof.
  intros Hc Hform Hl Hprev. destruct (ef_id _ _ Hform) as (i & Hi & Hpat). destruct i as [|c i]; [discriminate Hpat|].
  unfold consume_links in Hc. rewrite Hi in Hc. rewrite (bool_decide_eq_false_2 (u "event_id" ∈ [])) in Hc by apply not_elem_of_nil.
  rewrite Hprev, py_eq_str in Hc.
  set (p := if (c :: i) ∈s lk_seen l then _ else _) in Hc.
  assert (Hp : ed_total p.2 = 0 ↔ (c :: i) ∉ lk_seen l).
  { unfold p. case_bool_decide; cbn [snd]; [rewrite add_link_total; cbn [down]; split; [lia|done]|]. unfold loud in Hl. done. }
  assert (Hs : (c :: i) ∉ lk_seen l → p.1 = (c :: i) :: lk_seen l).
  { intros Hn. unfold p. by rewrite bool_decide_eq_false_2. }
  clearbody p. destruct p as [seen d]. cbn [fst snd] in *. apply bind_ok in Hc as (h & Hh & E). apply Ok_inj in E as <-.
  exists (c :: i), h. split; [exact Hi|]. split; [exact Hh|]. unfold loud. cbn [lk_diagnostics lk_seen lk_previous].
  rewrite !add_link_total. set (b1 := negb (is_lit (pget (u "event_hash") e) h)). set (b2 := negb _).
  assert (H1 : down b1 = 0 ↔ pget (u "event_hash") e = PyStr h) by (unfold b1; by rewrite down_0, negb_false_iff, is_lit_iff).
  assert (H2 : down b2 = 0 ↔ pget (u "previous_event_hash") e = PyStr prev) by (unfold b2; by rewrite down_0, negb_false_iff, is_lit_iff).
  rewrite <-H1, <-H2, <-Hp. split; [lia|]. intros Hz. split; [apply Hs, Hp; lia|].
  assert (Hh' : pget (u "event_hash") e = PyStr h) by (apply H1; lia). unfold pget in Hh'.
  destruct (dget (u "event_hash") e); [exact Hh'|discriminate Hh'].
Qed.

Lemma str_add_nil x l : str_add x l ≠ [].
Proof. unfold str_add. case_bool_decide as Hx; [by intros ->; apply not_elem_of_nil in Hx|]. by destruct l. Qed.
Lemma str_adds_nil xs l : foldl (λ s x, str_add x s) l xs = [] ↔ l = [] ∧ xs = [].
Proof.
  revert l. induction xs as [|x xs IH]; intros l; cbn [foldl]; [by split; [|intros []]|].
  rewrite IH. split; [intros [E _]; by apply str_add_nil in E|intros []; done].
Qed.

Lemma consume_shapes_quiet ex e n s :
  quiet_shapes (consume_shapes e (event_schema_issues e ex) n s) ↔ quiet_shapes s ∧ event_form ex e.
Proof.
  rewrite <-event_schema_iff. unfold quiet_shapes, consume_shapes. cbn [sh_payload_kinds sh_bad_type sh_schema].
  rewrite str_adds_nil, orb_false_iff, negb_false_iff. split.
  - intros (H1 & [H2 _] & H3 & H4). split; [|exact H4]. split; [|split; [exact H2|exact H3]].
    destruct (pget (u "payload") e); try (by apply str_add_nil in H1). exact H1.
  - intros ((H1 & H2 & H3) & H4). pose proof (proj1 (event_schema_iff e ex) H4) as Hf.
    destruct (ef_payload _ _ Hf) as (p & ->). destruct (ef_type _ _ Hf) as (t & Ht & Hin).
    split; [exact H1|]. split; [|split; [exact H3|exact H4]]. split; [exact H2|]. apply str_in_iff. by exists t.
Qed.

(** *** Mirrored records *)
Definition index (m : mirrored) (t : pystr) : nat := default 0 (dget t (mi_indexes m)).
(** Every mirrored type has its index, within its records. *)
Definition indexed (m : mirrored) : Prop :=
  ∀ t rs, dget t (mi_records m) = Some rs → ∃ i, dget t (mi_indexes m) = Some i ∧ i ≤ length rs.

Definition mirror_step (m : mirrored) (e : dict) : result mirrored := mp ← consume_mirrored e m; Ok mp.1.

(** What an event must be to keep the mirror quiet. *)
Definition matched (m : mirrored) (e : dict) : Prop :=
  ∀ t rs, of_type t e → dget t (mi_records m) = Some rs → ∃ r, rs !! index m t = Some r ∧ written e r.

Lemma consume_mirrored_spec e m mp :
  consume_mirrored e m = Ok mp →
  mi_records mp.1 = mi_records m ∧
  length (mi_mismatches mp.1) = length (mi_mismatches m) + length mp.2 ∧
  (mi_mismatches m = [] → mi_mismatches mp.1 = [] ↔ matched m e) ∧
  ∀ t, index mp.1 t = (if is_lit (pget (u "event_type") e) t && dhas t (mi_records m) then S (index m t) else index m t) ∧
       (dget t (mi_indexes m) ≠ None → dget t (mi_indexes mp.1) ≠ None).
Proof.
  unfold consume_mirrored, matched, of_type.
  destruct (pget (u "event_type") e) as [| | | |t| | | |] eqn:Et.
  1-4,6-9: intros E; apply Ok_inj in E as <-; cbn [fst snd length is_lit andb]; split_and!; try done; lia.
  destruct (dget t (mi_records m)) as [rs|] eqn:Er.
  2: { intros E; apply Ok_inj in E as <-. cbn [fst snd length]. split_and!; [done|lia| |].
       - intros Hm0. split; [|intros _; exact Hm0]. intros _ t' rs Ht'. cbn [is_lit] in Ht'. apply bool_decide_eq_true in Ht' as <-. congruence.
       - intros t'. split; [|done]. cbn [is_lit]. case_bool_decide as Ht; cbn [andb]; [|done]. subst t'. unfold dhas. by rewrite Er. }
  intros (b & Hb & E)%bind_ok. apply Ok_inj in E as <-. fold (index m t) in *. cbn [fst snd mi_records mi_mismatches mi_indexes].
  split; [done|]. split; [by destruct b, (bool_decide (t ∈ mi_mismatches m)); cbn; lia|]. split.
  - intros Hm. rewrite Hm. rewrite (bool_decide_eq_false_2 (t ∈ [])) by apply not_elem_of_nil.
    assert (Hx : b = false ↔ ∃ r, rs !! index m t = Some r ∧ written e r).
    { destruct (rs !! index m t) as [r|].
      2: { apply Ok_inj in Hb as <-. split; [done|by intros (r & ? & _)]. }
      unfold written. destruct (pget (u "payload") e) as [| | | | | | |p|];
        try (apply Ok_inj in Hb as <-; split; [intros _; by exists r|done]).
      apply bind_ok in Hb as (same & Hs & E). apply Ok_inj in E as <-. rewrite negb_false_iff. split.
      - intros ->. exists r. split; [done|]. intros p' Hp'. assert (p' = p) as -> by congruence. exact Hs.
      - intros (r' & [= <-] & Hw). specialize (Hw p eq_refl). congruence. }
    destruct b; cbn [andb negb]; split; try done.
    + intros Hw. enough (true = false) by done. apply Hx. apply (Hw t rs); [|done]. cbn [is_lit]. by apply bool_decide_eq_true.
    + intros _ t' rs' Ht' Hr'. cbn [is_lit] in Ht'. apply bool_decide_eq_true in Ht' as <-. assert (rs' = rs) as -> by congruence.
      by apply Hx.
  - intros t'. unfold index. cbn [mi_indexes is_lit]. case_bool_decide as Ht.
    + subst t'. unfold dhas. rewrite Er. rewrite dget_dset_eq. done.
    + rewrite dget_dset_ne by congruence. done.
Qed.

Lemma leftover_nil m :
  indexed m → mi_mismatches m = [] →
  leftover m = [] ↔ ∀ t rs, dget t (mi_records m) = Some rs → index m t = length rs.
Proof.
  intros Hi Hm. unfold leftover. rewrite Hm. split.
  - intros E t rs Hr. destruct (Hi t rs Hr) as (i & Hx & _). unfold index. rewrite Hx. cbn.
    apply fmap_nil_inv in E. destruct (decide (i = length rs)) as [|Hne]; [done|]. exfalso.
    assert (Ht : t ∈ filter (λ t, bool_decide (dget t (mi_indexes m) = length <$> dget t (mi_records m)) = false ∧ t ∉ [])
                   (dkeys (mi_records m))).
    { apply list_elem_of_filter. split.
      - split; [|apply not_elem_of_nil]. rewrite Hx, Hr. apply bool_decide_eq_false_2. cbn. congruence.
      - destruct (decide (t ∈ dkeys (mi_records m))) as [|Hn]; [done|]. apply dget_None in Hn. congruence. }
    rewrite E in Ht. by apply not_elem_of_nil in Ht.
  - intros Hall. match goal with |- mirror_message <$> ?l = [] => assert (l = []) as ->; [|done] end.
    apply elem_of_nil_inv. intros t ([Hb _] & Ht)%list_elem_of_filter.
    apply bool_decide_eq_false in Hb. apply Hb. destruct (dget t (mi_records m)) as [rs|] eqn:Er.
    + specialize (Hall t rs Er). destruct (Hi t rs Er) as (i & Hx & _). unfold index in Hall. rewrite Hx in *. cbn in *. congruence.
    + by apply dget_None in Er.
Qed.

Lemma mirror_step_spec e m m' :
  mirror_step m e = Ok m' → mi_records m' = mi_records m ∧
  (mi_mismatches m = [] → mi_mismatches m' = [] ↔ matched m e) ∧ (mi_mismatches m ≠ [] → mi_mismatches m' ≠ []) ∧
  (indexed m → mi_mismatches m = [] → mi_mismatches m' = [] → indexed m').
Proof.
  intros ((m1 & msgs) & Hc & E)%bind_ok. apply Ok_inj in E as <-. cbn [fst].
  destruct (consume_mirrored_spec _ _ _ Hc) as (H1 & H2 & H3 & H4). cbn [fst snd] in *.
  split; [exact H1|]. split; [exact H3|]. split.
  - intros Hm Hm'. rewrite Hm' in H2. cbn in H2. apply Hm. apply length_zero_iff_nil. lia.
  - intros Hi Hm Hm'. apply (H3 Hm) in Hm'. intros t rs Hr. rewrite H1 in Hr. destruct (Hi t rs Hr) as (i & Hx & Hle).
    destruct (H4 t) as [Hidx Hsome]. destruct (dget t (mi_indexes m1)) as [j|] eqn:Ej; [|by destruct (Hsome ltac:(congruence))].
    exists j. split; [done|]. unfold index in Hidx. rewrite Ej, Hx in Hidx. cbn in Hidx. subst j.
    case_match eqn:Et; [|done]. apply andb_prop in Et as [Et _]. destruct (Hm' t rs Et Hr) as (r & Hr' & _).
    apply lookup_lt_Some in Hr'. unfold index in Hr'. rewrite Hx in Hr'. cbn in Hr'. lia.
Qed.

Lemma mirrored_run es m m' :
  foldM_res mirror_step m es = Ok m' → indexed m → mi_mismatches m = [] →
  mi_mismatches m' = [] ∧ leftover m' = [] ↔
  ∀ t rs, dget t (mi_records m) = Some rs → Forall2 written (filter (of_type t) es) (drop (index m t) rs).
Proof.
  revert m. induction es as [|e es IH]; intros m.
  { intros E Hi Hm. apply Ok_inj in E as <-. rewrite (leftover_nil m Hi Hm). split.
    - intros [_ Hl] t rs Hr. rewrite (Hl t rs Hr), drop_all. constructor.
    - intros Hall. split; [done|]. intros t rs Hr. specialize (Hall t rs Hr). apply Forall2_nil_inv_l in Hall.
      apply (f_equal length) in Hall. rewrite length_drop in Hall. cbn in Hall.
      destruct (Hi t rs Hr) as (i & Hx & Hle). unfold index in *. rewrite Hx in *. cbn in *. lia. }
  cbn [foldM_res]. intros (m1 & Hs & Hrun)%bind_ok Hi Hm.
  destruct (mirror_step_spec _ _ _ Hs) as (S1 & S2 & S3 & S4). specialize (S2 Hm).
  pose proof Hs as Hs'. apply bind_ok in Hs' as ((m1' & msgs) & Hc & E). apply Ok_inj in E. cbn in E. subst m1'.
  destruct (consume_mirrored_spec _ _ _ Hc) as (_ & _ & _ & Hidx). cbn [fst] in Hidx.
  assert (Hall : ∀ t rs, dget t (mi_records m) = Some rs →
            Forall2 written (filter (of_type t) (e :: es)) (drop (index m t) rs) ↔
            (of_type t e → ∃ r, rs !! index m t = Some r ∧ written e r) ∧
            Forall2 written (filter (of_type t) es) (drop (index m1 t) rs)).
  { intros t rs Hr. rewrite (proj1 (Hidx t)). unfold dhas. rewrite Hr, andb_true_r. rewrite filter_cons.
    case_decide as Ht; unfold of_type in Ht; [rewrite Ht|apply not_true_is_false in Ht as Hf; rewrite Hf; naive_solver].
    destruct (rs !! index m t) as [r|] eqn:Er.
    - rewrite (drop_S _ _ _ Er), Forall2_cons. split; [intros []; split; [intros _; by exists r|done]|].
      intros [Hw Hf]. destruct (Hw Ht) as (r' & [= <-] & ?). done.
    - rewrite (drop_ge rs (index m t)) by by apply lookup_ge_None. split; [by intros ?%Forall2_nil_inv_r|].
      intros [Hw _]. by destruct (Hw Ht) as (r & ? & _). }
  destruct (decide (mi_mismatches m1 = [])) as [Hq|Hq].
  - rewrite (IH m1 Hrun (S4 Hi Hm Hq) Hq), S1. apply S2 in Hq. split.
    + intros Hx t rs Hr. apply (Hall t rs Hr). split; [intros Ht; by apply (Hq t rs)|by apply Hx].
    + intros Hx t rs Hr. by apply (Hall t rs Hr), Hx.
  - assert (Hloud : mi_mismatches m' ≠ []).
    { clear -Hrun Hq. revert m1 Hrun Hq. induction es as [|e es IH]; intros m1; [intros E; by apply Ok_inj in E as <-|].
      cbn [foldM_res]. intros (m2 & Hs & Hrun)%bind_ok Hq. apply (IH m2 Hrun).
      destruct (mirror_step_spec _ _ _ Hs) as (_ & _ & S3 & _). by apply S3. }
    split; [by intros [? _]|]. intros Hx. exfalso. apply Hq, S2. intros t rs Ht Hr.
    destruct (proj1 (Hall t rs Hr) (Hx t rs Hr)) as [Hw _]. exact (Hw Ht).
Qed.

(** *** The payload kinds are the two that are reported *)
Definition known_kinds (s : shapes) : Prop := ∀ k, k ∈ sh_payload_kinds s → k = u "event" ∨ k = u "artifact_written".
Lemma elem_str_add k x l : k ∈ str_add x l → k = x ∨ k ∈ l.
Proof. unfold str_add. case_bool_decide; [by right|]. intros [?| ->%list_elem_of_singleton]%elem_of_app; [by right|by left]. Qed.
Lemma shape_problems_nil s : known_kinds s → shape_problems s = [] ↔ quiet_shapes s.
Proof.
  intros Hk. unfold shape_problems, quiet_shapes. rewrite !app_nil. split.
  - intros (H1 & H2 & H3 & H4). repeat case_bool_decide; destruct (sh_bad_type s); try done. split; [|done].
    apply elem_of_nil_inv. intros k Hin. destruct (Hk k Hin) as [->| ->]; contradiction.
  - intros (-> & -> & ->). done.
Qed.

(** *** All events *)
Definition consume_all (ex : expectations) (s : chain_state) (events : list dict) : result chain_state :=
  foldM_res (λ s e, consume_event ex e s) s events.

Record advanced (es : list dict) (s s' : chain_state) : Prop := mkAdvanced {
  ad_ticket : st_ticket s' = ticket_replay es (S (N.to_nat (st_events s))) (st_ticket s);
  ad_binding : st_binding s' = binding_replay es (st_binding s);
  ad_execution : execution_replay es (S (N.to_nat (st_events s))) (st_execution s) = Ok (st_execution s');
  ad_events : st_events s' = (st_events s + N.of_nat (length es))%N;
  ad_hash : st_metadata_hash s' = foldl (λ l e, consume_metadata_hash e l) (st_metadata_hash s) es;
  ad_facts : st_facts s' = foldl (λ f e, consume_facts e f) (st_facts s) es;
  ad_mirrored : foldM_res mirror_step (st_mirrored s) es = Ok (st_mirrored s');
  ad_agents : match st_agents s with
              | None => st_agents s' = None
              | Some a => ∃ a', foldM_res agent_consume a (typed es) = Ok a' ∧ st_agents s' = Some a'
              end;
  ad_problems : pc_total (st_problems s') + length (mi_mismatches (st_mirrored s))
                = pc_total (st_problems s) + length (mi_mismatches (st_mirrored s'));
  ad_collector : collector_inv (st_problems s) → collector_inv (st_problems s');
  ad_diagnostics : diagnostics_inv (lk_diagnostics (st_links s)) → diagnostics_inv (lk_diagnostics (st_links s'));
  ad_kinds : known_kinds (st_shapes s) → known_kinds (st_shapes s');
  ad_first : sh_first_valid (st_shapes s') =
             match es with
             | e :: _ => if (st_events s =? 0)%N then str_in (pget (u "event_type") e) ALLOWED_FIRST_EVENT else sh_first_valid (st_shapes s)
             | [] => sh_first_valid (st_shapes s)
             end
}.

Lemma advanced_nil s : advanced [] s s.
Proof.
  split; try done; [cbn; lia|]. destruct (st_agents s) as [a|]; [by exists a|done].
Qed.

Lemma advanced_cons ex e es s s1 s' :
  consume_event ex e s = Ok s1 → advanced es s1 s' → advanced (e :: es) s s'.
Proof.
  intros Hc [A1 A2 A3 A4 A5 A6 A7 A8 A9 A10 A11 A13 A12].
  apply bind_ok in Hc as (l & Hl & Hc). apply bind_ok in Hc as (x & Hexec & Hc). apply bind_ok in Hc as (a & Ha & Hc). apply bind_ok in Hc as (mp & Hm & E).
  apply Ok_inj in E as <-. cbn [st_problems st_links st_shapes st_metadata_hash st_facts st_mirrored st_agents st_ticket st_binding
    st_execution st_events] in *.
  replace (S (N.to_nat (st_events s + 1))) with (S (S (N.to_nat (st_events s)))) in A1, A3 by lia.
  replace (N.to_nat (st_events s + 1)) with (S (N.to_nat (st_events s))) in A1, Hexec by lia.
  destruct (consume_mirrored_spec _ _ _ Hm) as (M1 & M2 & _).
  split; try assumption.
  - cbn [execution_replay]. by rewrite Hexec.
  - rewrite A4. cbn [length]. lia.
  - cbn [foldM_res]. assert (mirror_step (st_mirrored s) e = Ok mp.1) as -> by (unfold mirror_step; by rewrite Hm). exact A7.
  - unfold consume_agents in Ha. destruct (st_agents s) as [m|]; [|by apply Ok_inj in Ha as <-].
    unfold typed. cbn [omap list_omap]. fold (typed es).
    destruct (pget (u "event_type") e) as [| | | |t| | | |]; try (apply Ok_inj in Ha as <-; exact A8).
    destruct (is_lifecycle t); [|by apply Ok_inj in Ha as <-].
    apply bind_ok in Ha as (m1 & Hm1 & E). apply Ok_inj in E as <-. destruct A8 as (a' & Ha' & ->).
    exists a'. split; [|done]. cbn [foldM_res]. by rewrite Hm1.
  - rewrite extend_list_total in A9. lia.
  - intros Hc. by apply A10, extend_list_inv.
  - intros Hd. apply A11. by apply (consume_links_grows _ _ _ _ _ Hl).
  - intros Hk. apply A13. unfold known_kinds, consume_shapes. cbn [sh_payload_kinds]. intros k.
    destruct (pget (u "payload") e); try exact (Hk k);
      (intros [Hx|Hin]%elem_str_add; [|by apply Hk]);
      (destruct (is_lit (pget (u "event_type") e) (u "artifact_written")); [right; exact Hx|left; exact Hx]).
  - rewrite A12. unfold consume_shapes. cbn [sh_first_valid].
    replace (st_events s + 1 =? 1)%N with (st_events s =? 0)%N by (destruct (N.eqb_spec (st_events s) 0), (N.eqb_spec (st_events s + 1) 1); lia).
    replace (st_events s + 1 =? 0)%N with false by (symmetry; apply N.eqb_neq; lia). by destruct es.
Qed.

Lemma run_advanced ex es s s' : consume_all ex s es = Ok s' → advanced es s s'.
Proof.
  revert s. induction es as [|e es IH]; intros s; cbn [consume_all foldM_res].
  - intros E. apply Ok_inj in E as <-. apply advanced_nil.
  - intros (s1 & H1 & Hrun)%bind_ok. by eapply advanced_cons, IH.
Qed.

Lemma run_loud ex es s s' : consume_all ex s es = Ok s' → quiet s' → quiet s.
Proof.
  revert s. induction es as [|e es IH]; intros s; cbn [consume_all foldM_res].
  - intros E. by apply Ok_inj in E as <-.
  - intros (s1 & H1 & Hrun)%bind_ok Hq. specialize (IH s1 Hrun Hq).
    apply bind_ok in H1 as (l & Hl & H1). apply bind_ok in H1 as (x & Hx & H1). apply bind_ok in H1 as (a & Ha & H1). apply bind_ok in H1 as (mp & Hm & E).
    apply Ok_inj in E as <-. destruct IH as [Q1 Q2]. cbn [st_links st_shapes] in *.
    apply consume_shapes_quiet in Q2 as [Q2 _]. split; [|exact Q2].
    pose proof (proj1 (consume_links_grows _ _ _ _ _ Hl)). lia.
Qed.

(** The events are fine given the identifiers seen and the last hash. *)
Definition sound (ex : expectations) (seen : list pystr) (previous : pystr) (es : list dict) : Prop :=
  Forall (event_form (ex_ticket_id ex)) es ∧ NoDup (((λ e, pget (u "event_id") e) <$> es) ++ (PyStr <$> seen)) ∧ linked previous es.

Lemma run_quiet ex es s s' prev :
  consume_all ex s es = Ok s' → quiet s → NoDup (lk_seen (st_links s)) → lk_previous (st_links s) = PyStr prev →
  quiet s' ↔ sound ex (lk_seen (st_links s)) prev es.
Proof.
  revert s prev. induction es as [|e es IH]; intros s prev; cbn [consume_all foldM_res].
  { intros E Hq Hn Hp. apply Ok_inj in E as <-. split; [|done]. intros _. split; [constructor|]. split; [|done].
    cbn. apply NoDup_fmap_2; [intros ? ? [=]; done|done]. }
  intros (s1 & H1 & Hrun)%bind_ok Hq Hn Hp. pose proof H1 as H1'.
  apply bind_ok in H1 as (l & Hl & H1). apply bind_ok in H1 as (x & Hx & H1). apply bind_ok in H1 as (a & Ha & H1). apply bind_ok in H1 as (mp & Hm & E).
  apply Ok_inj in E. destruct Hq as [Q1 Q2].
  assert (Hshape : quiet_shapes (st_shapes s1) ↔ event_form (ex_ticket_id ex) e).
  { rewrite <-E. cbn [st_shapes]. rewrite consume_shapes_quiet. split; [by intros []|by split]. }
  assert (Hlink : st_links s1 = l) by by rewrite <-E. clear E Hm Ha.
  assert (Hstep : event_form (ex_ticket_id ex) e → ∃ i h,
            pget (u "event_id") e = PyStr i ∧ canonical_event_hash e = Ok h ∧
            (quiet s1 ↔ i ∉ lk_seen (st_links s) ∧ pget (u "previous_event_hash") e = PyStr prev ∧ pget (u "event_hash") e = PyStr h) ∧
            (quiet s1 → lk_seen (st_links s1) = i :: lk_seen (st_links s) ∧ lk_previous (st_links s1) = PyStr h)).
  { intros Hf. pose proof (proj2 (event_schema_iff e (ex_ticket_id ex)) Hf) as Hz. rewrite Hz in Hl.
    destruct (consume_links_quiet _ _ _ _ _ prev Hl Hf Q1 Hp) as (i & h & L1 & L2 & L3 & L4).
    exists i, h. split; [exact L1|]. split; [exact L2|]. unfold quiet. rewrite Hlink. split.
    - rewrite <-L3. split; [by intros []|]. intros Hz'. split; [exact Hz'|by apply Hshape].
    - intros [Hz' _]. by apply L4. }
  split.
  - intros Hq'. pose proof (run_loud _ _ _ _ Hrun Hq') as Hq1. pose proof (proj1 Hshape (proj2 Hq1)) as Hf. destruct (Hstep Hf) as (i & h & Hi & Hh & [Hiff _] & Hnext).
    destruct (Hiff Hq1) as (Hni & Hpe & Hhe). destruct (Hnext Hq1) as [Hs1 Hp1].
    apply (IH s1 h Hrun Hq1) in Hq' as (F & N1 & L); [|rewrite Hs1; by constructor|exact Hp1].
    split; [by constructor|]. split; [|split; [exact Hpe|by exists h]].
    rewrite Hs1 in N1. rewrite fmap_cons, Hi. rewrite fmap_cons in N1. cbn [app]. by rewrite Permutation_middle.
  - intros (F & N1 & L). apply Forall_cons in F as [Hf F]. destruct L as (Hpe & h' & Hh' & Hhe & L).
    destruct (Hstep Hf) as (i & h & Hi & Hh & [_ Hiff] & Hnext). assert (h' = h) as -> by congruence.
    rewrite fmap_cons, Hi in N1. cbn [app] in N1. pose proof N1 as N2. apply NoDup_cons in N1 as [Hni N1].
    assert (Hq1 : quiet s1).
    { apply Hiff. split; [|split; [exact Hpe|exact Hhe]]. intros Hin. apply Hni, elem_of_app. right.
      by apply list_elem_of_fmap_2. }
    destruct (Hnext Hq1) as [Hs1 Hp1].
    apply (IH s1 h Hrun Hq1); [rewrite Hs1; constructor; [|done]|exact Hp1|].
    + intros Hin. apply Hni, elem_of_app. right. by apply list_elem_of_fmap_2.
    + split; [exact F|]. split; [|exact L]. rewrite Hs1, fmap_cons. by rewrite <-Permutation_middle.
Qed.

(** *** The mirrors at their ends *)
Lemma agent_consume_valid m e m1 :
  agent_consume m e = Ok m1 → am_structurally_valid m1 = am_structurally_valid m.
Proof.
  unfold agent_consume. destruct (_ || _); [intros E; by apply Ok_inj in E as <-|].
  destruct e.2; try (intros E; apply Ok_inj in E as <-; reflexivity). cbv zeta.
  case_bool_decide; [intros E; apply Ok_inj in E as <-; unfold consume_spawn; by repeat case_match|].
  unfold consume_result. repeat case_match; try (intros E; apply Ok_inj in E as <-; reflexivity).
  intros (same & _ & E)%bind_ok. by apply Ok_inj in E as <-.
Qed.
Lemma agent_run_valid es m m1 :
  foldM_res agent_consume m es = Ok m1 → am_structurally_valid m1 = am_structurally_valid m.
Proof.
  revert m. induction es as [|e es IH]; intros m; cbn [foldM_res]; [intros E; by apply Ok_inj in E as <-|].
  intros (m2 & H2 & Hrun)%bind_ok. rewrite (IH m2 Hrun). by eapply agent_consume_valid.
Qed.

Lemma ticket_finish_rendered m r :
  collector_inv (tm_problems m) → ticket_finish m = Some r → ∃ c, collector_inv c ∧ r = render_collector c.
Proof.
  intros Hc. unfold ticket_finish. destruct (negb (tm_enabled m)); [discriminate|]. intros Hr. apply (inj Some) in Hr as <-.
  eexists. split; [|reflexivity]. destruct (tm_machine m); [|exact Hc]. unfold note. repeat case_match; cbn [tm_problems];
    repeat apply append_problem_inv; exact Hc.
Qed.

Lemma rendered_zero c : collector_inv c → rp_values (render_collector c) = [] ↔ rp_total_count (render_collector c) = 0.
Proof. intros Hc. by apply render_collector_spec. Qed.

Lemma ticket_new_inv v md : collector_inv (tm_problems (ticket_mirror_new v md)).
Proof.
  unfold ticket_mirror_new. cbv zeta. repeat case_match; cbn [tm_problems]; try apply append_problem_inv; apply collector_new_inv.
Qed.
Lemma execution_new_inv v r : healthy (execution_mirror_new v r).
Proof.
  unfold execution_mirror_new, healthy. cbv zeta.
  set (pr := match r with None => _ | Some _ => _ end).
  assert (Hpr : collector_inv pr.2).
  { unfold pr. destruct r as [v'|]; [destruct (_normalize_completion_receipt v')|]; cbn [snd];
      try apply append_problem_inv; apply collector_new_inv. }
  clearbody pr. destruct pr as [policy problems]. cbn [snd] in Hpr.
  repeat case_match; cbn [xe_problems]; repeat apply append_problem_inv; exact Hpr.
Qed.

Lemma all_dicts_iff l ds : all_dicts l = Some ds ↔ l = PyDict <$> ds.
Proof.
  revert ds. induction l as [|v l IH]; intros ds.
  { cbn. split; [by intros [= <-]|]. by destruct ds. }
  destruct v; try (split; [discriminate|by destruct ds]). cbn [all_dicts]. split.
  - destruct (all_dicts l) as [ds'|]; [|discriminate]. intros [= <-]. by rewrite fmap_cons, (proj1 (IH ds') eq_refl).
  - destruct ds as [|d0 ds]; [discriminate|]. rewrite fmap_cons. intros [= -> E]. by rewrite (proj2 (IH ds) E).
Qed.
Lemma dict_records_iff v ds : match v with PyList l => all_dicts l | _ => None end = Some ds ↔ v = PyList (PyDict <$> ds).
Proof. destruct v; try (split; discriminate). rewrite all_dicts_iff. split; [by intros ->|by intros [= ->]]. Qed.
Lemma dicts_inj (rs rs' : list dict) : PyList (PyDict <$> rs) = PyList (PyDict <$> rs') → rs = rs'.
Proof. intros E. apply dict_records_iff in E. rewrite (proj2 (all_dicts_iff _ rs) eq_refl) in E. congruence. Qed.

Lemma mirrored_new_spec d :
  let r := mirrored_new d in
  mi_mismatches r.1 = [] ∧
  (∀ t rs, dget t (mi_records r.1) = Some rs ↔
     t ∈ dkeys _METADATA_EVENT_MIRROR_FIELDS ∧ records_of d t = PyList (PyDict <$> rs)) ∧
  (∀ t rs, dget t (mi_records r.1) = Some rs → dget t (mi_indexes r.1) = Some 0) ∧
  (r.2 = [] ↔ ∀ t, t ∈ dkeys _METADATA_EVENT_MIRROR_FIELDS → ∃ rs, dget t (mi_records r.1) = Some rs).
Proof.
  unfold mirrored_new. cbv zeta. assert (Hn : NoDup (dkeys _METADATA_EVENT_MIRROR_FIELDS)) by by_compute. revert Hn.
  generalize _METADATA_EVENT_MIRROR_FIELDS as l. intros l. induction l as [|p l IH] using rev_ind; intros Hn.
  { cbn. split; [done|]. split; [|split; [done|]].
    - intros t rs. split; [done|]. intros [Ht _]. by apply not_elem_of_nil in Ht.
    - split; [|done]. intros _ t Ht. by apply not_elem_of_nil in Ht. }
  unfold dkeys in Hn. rewrite fmap_app in Hn. apply NoDup_app in Hn as (Hn & Hd & _). rewrite foldl_app. cbn [foldl].
  destruct (IH Hn) as (I1 & I2 & I3 & I4). clear IH. set (acc := foldl _ _ l) in *. clearbody acc. destruct acc as [m ps]. cbn [fst snd] in *.
  assert (Hfresh : ∀ t, t ∈ dkeys l → t ≠ p.1).
  { intros t Ht ->. apply (Hd _ Ht). cbn. by apply list_elem_of_singleton. }
  assert (Hnone : ∀ rs, dget p.1 (mi_records m) ≠ Some rs).
  { intros rs E. apply I2 in E as (Hin & _). by apply (Hfresh _ Hin). }
  assert (Hkeys : ∀ t, t ∈ dkeys (l ++ [p]) ↔ t ∈ dkeys l ∨ t = p.1).
  { intros t. unfold dkeys. rewrite fmap_app, elem_of_app. cbn. by rewrite list_elem_of_singleton. }
  destruct (match records_of d p.1 with PyList _ => _ | _ => _ end) as [ds|] eqn:E; cbn [fst snd mi_records mi_indexes mi_mismatches].
  - apply dict_records_iff in E. split; [done|]. split; [|split].
    + intros t rs. rewrite Hkeys. destruct (decide (t = p.1)) as [->|Hne].
      * rewrite dget_dset_eq, E. split; [intros [= <-]; split; [by right|done]|intros [_ E2%dicts_inj]; by subst].
      * rewrite dget_dset_ne, I2 by done. split; [intros [Ht Hr]; split; [by left|exact Hr]|]. intros [[Ht|?] Hr]; done.
    + intros t rs. destruct (decide (t = p.1)) as [->|Hne]; [by rewrite !dget_dset_eq|]. rewrite !dget_dset_ne by done. apply I3.
    + rewrite I4. split.
      * intros Hall t [Ht| ->]%Hkeys; [|rewrite dget_dset_eq; by eexists]. rewrite dget_dset_ne by by apply Hfresh. by apply Hall.
      * intros Hall t Ht. destruct (Hall t (proj2 (Hkeys t) (or_introl Ht))) as (rs & Hr).
        rewrite dget_dset_ne in Hr by by apply Hfresh. by exists rs.
  - split; [exact I1|]. split; [|split; [exact I3|]].
    + intros t rs. rewrite Hkeys, I2. split; [intros [Ht Hr]; split; [by left|exact Hr]|]. intros [[Ht| ->] Hr]; [done|].
      apply dict_records_iff in Hr. congruence.
    + split; [intros []%app_nil; done|]. intros Hall. destruct (Hall p.1) as (rs & Hr); [apply Hkeys; by right|].
      by destruct (Hnone rs).
Qed.

(** The start of the pass. *)
Definition start_problems (ex : expectations) : nat :=
  length match ex_event_mirrors ex with
         | None => [] | Some (PyDict d) => (mirrored_new d).2 | Some _ => [u "工单 metadata 事件镜像结构无效"] end
  + match ex_agent_spawns ex with Some v => down (negb (am_structurally_valid (agent_mirror_new v))) | None => 0 end.

Lemma start_spec ex :
  let s := chain_state_new ex in
  collector_inv (st_problems s) ∧ pc_total (st_problems s) = start_problems ex ∧
  quiet s ∧ diagnostics_inv (lk_diagnostics (st_links s)) ∧ known_kinds (st_shapes s) ∧
  lk_seen (st_links s) = [] ∧ lk_previous (st_links s) = PyStr GENESIS_HASH ∧ st_events s = 0%N ∧
  st_metadata_hash s = None ∧ st_facts s = [] ∧ st_agents s = agent_mirror_new <$> ex_agent_spawns ex ∧
  st_ticket s = ticket_mirror_new (ex_state_machine ex) (metadata_of ex) ∧ st_binding s = binding_new (metadata_of ex) ∧
  st_execution s = execution_mirror_new (ex_execution_model ex) (ex_completion_receipt ex) ∧
  st_mirrored s = match ex_event_mirrors ex with Some (PyDict d) => (mirrored_new d).1 | _ => mkMirrored [] [] [] end.
Proof.
  unfold chain_state_new, start_problems, quiet, quiet_shapes, known_kinds. cbv zeta.
  set (mp := match ex_event_mirrors ex with None => _ | Some _ => _ end).
  assert (Hmp : mp.1 = match ex_event_mirrors ex with Some (PyDict d) => (mirrored_new d).1 | _ => mkMirrored [] [] [] end ∧
                mp.2 = match ex_event_mirrors ex with None => [] | Some (PyDict d) => (mirrored_new d).2
                       | Some _ => [u "工单 metadata 事件镜像结构无效"] end).
  { unfold mp. destruct (ex_event_mirrors ex) as [[]|]; done. }
  clearbody mp. destruct mp as [m p1]. cbn [fst snd] in Hmp. destruct Hmp as [-> ->].
  cbn [st_problems st_links st_shapes st_events st_metadata_hash st_facts st_agents st_ticket st_binding st_execution st_mirrored
       lk_seen lk_previous lk_diagnostics sh_payload_kinds sh_bad_type sh_schema].
  split; [apply extend_list_inv, collector_new_inv|]. split.
  { rewrite extend_list_total, length_app. cbn [collector_new pc_total]. destruct (ex_agent_spawns ex) as [v|]; cbn [fmap option_fmap option_map];
      [|done]. destruct (am_structurally_valid (agent_mirror_new v)); reflexivity. }
  split_and!; try done. intros k Hk. by apply not_elem_of_nil in Hk.
Qed.

(** *** The end of the pass *)
Record settled_state (s : chain_state) : Prop := mkSettled {
  ss_problems : collector_inv (st_problems s);
  ss_diagnostics : diagnostics_inv (lk_diagnostics (st_links s));
  ss_kinds : known_kinds (st_shapes s);
  ss_ticket : collector_inv (tm_problems (st_ticket s));
  ss_execution : healthy (st_execution s)
}.

Lemma report_collector s c : settled_state s → collector_inv c →
  collector_inv (extend_report (chain_report s) c) ∧
  pc_total (extend_report (chain_report s) c) = pc_total c + loud (st_links s).
Proof.
  intros Hs Hc. split.
  - apply extend_report_inv; [|done]. apply render_diagnostics_faithful, ss_diagnostics, Hs.
  - rewrite extend_report_total. unfold chain_report. by rewrite render_diagnostics_total.
Qed.
Lemma extend_rendered c c' : collector_inv c → collector_inv c' →
  collector_inv (extend_report (render_collector c) c') ∧
  pc_total (extend_report (render_collector c) c') = pc_total c' + rp_total_count (render_collector c).
Proof.
  intros Hc Hc'. split; [apply extend_report_inv; [by apply render_collector_faithful|done]|].
  apply extend_report_total.
Qed.

Definition agents_end (s : chain_state) : Prop :=
  ∀ a, st_agents s = Some a → am_structurally_valid a = true → agent_finish a = Ok true.
Definition hash_end (ex : expectations) (s : chain_state) : Prop :=
  ∀ last expected, st_metadata_hash s = Some last → ex_metadata_hash ex = Some expected → py_eq last expected = true.
Definition first_end (s : chain_state) : Prop := st_events s = 0%N ∨ sh_first_valid (st_shapes s) = true.

Lemma last_problems_nil ex s ps :
  settled_state s → last_problems ex s = Ok ps →
  ps = [] ↔ first_end s ∧ quiet_shapes (st_shapes s) ∧ hash_end ex s ∧ leftover (st_mirrored s) = [] ∧ agents_end s.
Proof.
  intros Hs (bad & Hbad & E)%bind_ok. apply Ok_inj in E as <-.
  assert (Hb : bad = false ↔ agents_end s).
  { unfold agents_end. destruct (st_agents s) as [a|]; [|apply Ok_inj in Hbad as <-; done].
    destruct (am_structurally_valid a) eqn:Ev; [|apply Ok_inj in Hbad as <-; split; [|done]; intros _ a' [= <-]; congruence].
    apply bind_ok in Hbad as (ok & Hok & E). apply Ok_inj in E as <-. rewrite negb_false_iff. split.
    - intros -> a' [= <-] _. exact Hok.
    - intros Hx. specialize (Hx a eq_refl Ev). congruence. }
  assert (Hh : match st_metadata_hash s, ex_metadata_hash ex with
         | Some last, Some expected =>
           if py_eq last expected then [] else [u "事件链最终 metadata_hash_after 与工单 metadata 摘要不一致"]
         | _, _ => [] end = [] ↔ hash_end ex s).
  { unfold hash_end. destruct (st_metadata_hash s) as [l|], (ex_metadata_hash ex) as [x|]; try done.
    destruct (py_eq l x) eqn:El; split; try done; [by intros _ l' x' [= <-] [= <-]|]. intros Hx. by rewrite (Hx l x) in El. }
  rewrite !app_nil, Hh, <-Hb, (shape_problems_nil _ (ss_kinds _ Hs)). unfold first_end.
  assert (Hf : (if (st_events s =? 0)%N || sh_first_valid (st_shapes s) then []
       else [u "首条事件类型为 " ++ sh_first_label (st_shapes s) ++ u "，应为 ['migration_applied', 'ticket_created'] 之一"]) = [] ↔
       st_events s = 0%N ∨ sh_first_valid (st_shapes s) = true).
  { rewrite <-N.eqb_eq, <-orb_true_iff. by destruct (_ || _). }
  rewrite Hf. match goal with |- context [(if bad then ?l else []) = []] => assert (Hl : (if bad then l else []) = [] ↔ bad = false) by by destruct bad end.
  by rewrite Hl.
Qed.

Lemma finish_verdict ex s facts report :
  settled_state s → finish_chain ex s = Ok (facts, report) →
  facts = st_facts s ∧
  (rp_values report = [] ↔
   pc_total (st_problems s) = 0 ∧ quiet s ∧ first_end s ∧ hash_end ex s ∧ leftover (st_mirrored s) = [] ∧ agents_end s ∧
   (∀ r, ticket_finish (st_ticket s) = Some r → rp_values r = []) ∧ binding_finish (st_binding s) = [] ∧
   rp_values (execution_finish (st_execution s)) = []).
Proof.
  intros Hs (ps & Hps & E)%bind_ok. pose proof (last_problems_nil _ _ _ Hs Hps) as Hnil. apply Ok_inj in E.
  pose proof (f_equal fst E) as E1. pose proof (f_equal snd E) as E2. cbn [fst snd] in E1, E2. clear E.
  split; [by symmetry|].
  destruct (report_collector s _ Hs (ss_problems _ Hs)) as [I1 T1].
  pose proof (extend_list_inv ps _ I1) as I2. pose proof (extend_list_total ps (extend_report (chain_report s) (st_problems s))) as T2.
  set (c2 := extend_list ps _) in *.
  set (c3 := match ticket_finish (st_ticket s) with Some r => extend_report r c2 | None => c2 end) in *.
  assert (H3 : collector_inv c3 ∧ (pc_total c3 = 0 ↔ pc_total c2 = 0 ∧ ∀ r, ticket_finish (st_ticket s) = Some r → rp_values r = [])).
  { unfold c3. destruct (ticket_finish (st_ticket s)) as [r|] eqn:Er; [|by split; [|split; [intros ?; split|intros []]]].
    destruct (ticket_finish_rendered _ _ (ss_ticket _ Hs) Er) as (c & Hc & ->).
    destruct (extend_rendered c c2 Hc I2) as [I3 T3]. split; [exact I3|]. pose proof (rendered_zero c Hc) as Hz. split.
    - intros H3. split; [lia|]. intros r Hr. apply (inj Some) in Hr as <-. apply Hz. lia.
    - intros [H3 Hr]. specialize (Hr _ eq_refl). apply Hz in Hr. lia. }
  clearbody c3. destruct H3 as [I3 H3].
  pose proof (extend_list_inv (binding_finish (st_binding s)) c3 I3) as I4.
  pose proof (extend_list_total (binding_finish (st_binding s)) c3) as T4. set (c4 := extend_list _ c3) in *.
  destruct (extend_rendered (xe_problems (st_execution s)) c4 (ss_execution _ Hs) I4) as [I5 T5].
  pose proof (rendered_zero _ (ss_execution _ Hs)) as Hz. unfold execution_finish in *.
  rewrite <-E2, (proj1 (render_collector_spec _ I5)), T5. clear E1 E2.
  assert (Hp : length ps = 0 ↔ ps = []) by apply length_zero_iff_nil.
  assert (Hb : length (binding_finish (st_binding s)) = 0 ↔ binding_finish (st_binding s) = []) by apply length_zero_iff_nil.
  rewrite Hz, <-Hb. unfold quiet. rewrite T4. split.
  - intros Hall. assert (pc_total c3 = 0) as H30 by lia. apply H3 in H30 as [H20 Ht].
    assert (ps = []) as (Q1 & Q2 & Q3 & Q4 & Q5)%Hnil by (apply Hp; lia).
    split; [lia|]. split; [split; [lia|exact Q2]|]. split; [exact Q1|]. split; [exact Q3|]. split; [exact Q4|]. split; [exact Q5|].
    split; [exact Ht|]. split; lia.
  - intros (P0 & [P1 P2] & P3 & P4 & P5 & P6 & P7 & P8 & P9).
    assert (ps = []) as Hps0 by (apply Hnil; exact (conj P3 (conj P2 (conj P4 (conj P5 P6))))). apply Hp in Hps0.
    assert (pc_total c3 = 0) by (apply H3; split; [lia|exact P7]). lia.
Qed.

(** *** Verdict on the events *)
Lemma head_first ex es s :
  consume_all ex (chain_state_new ex) es = Ok s →
  first_end s ↔ ∀ e, head es = Some e → str_in (pget (u "event_type") e) ALLOWED_FIRST_EVENT = true.
Proof.
  intros Hrun. pose proof (run_advanced _ _ _ _ Hrun) as A. destruct (start_spec ex) as (_ & _ & _ & _ & _ & _ & _ & S0 & _).
  unfold first_end. rewrite (ad_events _ _ _ A), (ad_first _ _ _ A), S0. destruct es as [|e es]; cbn [length head].
  - split; [done|by left].
  - cbn [N.eqb]. split; [intros [|Hf]; [lia|]; by intros e' [= <-]|]. intros Hx. right. by apply Hx.
Qed.

Lemma start_mirrored ex es :
  let p := match ex_event_mirrors ex with
           | None => [] | Some (PyDict d) => (mirrored_new d).2 | Some _ => [u "工单 metadata 事件镜像结构无效"] end in
  let m := st_mirrored (chain_state_new ex) in
  indexed m ∧ mi_mismatches m = [] ∧
  (p = [] ∧ (∀ t rs, dget t (mi_records m) = Some rs → Forall2 written (filter (of_type t) es) (drop (index m t) rs)) ↔
   mirrors_agree ex es).
Proof.
  destruct (start_spec ex) as (_ & _ & _ & _ & _ & _ & _ & _ & _ & _ & _ & _ & _ & _ & Hm). cbv zeta. rewrite Hm. clear Hm.
  unfold mirrors_agree. destruct (ex_event_mirrors ex) as [v|].
  2: { split; [by intros t rs|]. split; [done|]. split; [by intros _ v|]. intros _. split; [done|by intros t rs]. }
  destruct (is_dict v) eqn:Ev.
  2: { assert (match v with PyDict d => (mirrored_new d).1 | _ => mkMirrored [] [] [] end = mkMirrored [] [] []) as -> by by destruct v.
       assert (match v with PyDict d => (mirrored_new d).2 | _ => [u "工单 metadata 事件镜像结构无效"] end
               = [u "工单 metadata 事件镜像结构无效"]) as -> by by destruct v.
       split; [by intros t rs|]. split; [done|]. split; [by intros []|]. intros Hx. destruct (Hx v eq_refl) as (d & -> & _). discriminate Ev. }
  destruct v as [| | | | | | |d|]; try discriminate Ev. destruct (mirrored_new_spec d) as (N1 & N2 & N3 & N4).
  set (m := (mirrored_new d).1) in *.
  assert (Hidx : ∀ t rs, dget t (mi_records m) = Some rs → index m t = 0).
  { intros t rs Hr. unfold index. by rewrite (N3 t rs Hr). }
  split; [intros t rs Hr; exists 0; split; [by eapply N3|lia]|]. split; [exact N1|]. split.
  - intros [Hp Hx] v E. apply (inj Some) in E as <-. exists d. split; [done|]. intros t Ht. destruct (proj1 N4 Hp t Ht) as (rs & Hr).
    exists rs. split; [by apply N2|]. specialize (Hx t rs Hr). by rewrite (Hidx t rs Hr) in Hx.
  - intros Hx. destruct (Hx _ eq_refl) as (d' & E & Hx'). assert (d' = d) as -> by congruence. split.
    + apply N4. intros t Ht. destruct (Hx' t Ht) as (rs & Hr & _). exists rs. by apply N2.
    + intros t rs Hr. rewrite (Hidx t rs Hr). apply N2 in Hr as (Ht & Hro). destruct (Hx' t Ht) as (rs' & Hro' & Hf).
      rewrite Hro in Hro'. apply dicts_inj in Hro' as ->. exact Hf.
Qed.

Lemma agents_verdict ex es s :
  consume_all ex (chain_state_new ex) es = Ok s →
  (match ex_agent_spawns ex with Some v => down (negb (am_structurally_valid (agent_mirror_new v))) | None => 0 end = 0 ∧ agents_end s) ↔
  ∀ v, ex_agent_spawns ex = Some v → am_structurally_valid (agent_mirror_new v) = true ∧
    ∃ m, foldM_res agent_consume (agent_mirror_new v) (typed es) = Ok m ∧ agent_finish m = Ok true.
Proof.
  intros Hrun. pose proof (ad_agents _ _ _ (run_advanced _ _ _ _ Hrun)) as A.
  destruct (start_spec ex) as (_ & _ & _ & _ & _ & _ & _ & _ & _ & _ & Ha & _). rewrite Ha in A. unfold agents_end.
  destruct (ex_agent_spawns ex) as [v|]; cbn [fmap option_fmap option_map] in A.
  2: { rewrite A. done. }
  destruct A as (a & Hrun' & ->). pose proof (agent_run_valid _ _ _ Hrun') as Hv. rewrite down_0, negb_false_iff. split.
  - intros [H1 H2] v' E. apply (inj Some) in E as <-. split; [exact H1|]. exists a. split; [exact Hrun'|].
    apply (H2 a); [done|congruence].
  - intros Hx. destruct (Hx v eq_refl) as (H1 & m & Hm & Hf). split; [exact H1|]. intros a' E _. apply (inj Some) in E as <-.
    congruence.
Qed.

Lemma run_settled ex es s : consume_all ex (chain_state_new ex) es = Ok s → settled_state s.
Proof.
  intros Hrun. pose proof (run_advanced _ _ _ _ Hrun) as A.
  destruct (start_spec ex) as (S1 & _ & _ & S4 & S5 & _ & _ & _ & _ & _ & _ & S12 & _ & S14 & _).
  split; [by apply (ad_collector _ _ _ A)|by apply (ad_diagnostics _ _ _ A)|by apply (ad_kinds _ _ _ A)| |].
  - rewrite (ad_ticket _ _ _ A). apply (kp_problems _ _ (replay_kept _ _ _)). rewrite S12. apply ticket_new_inv.
  - eapply healthy_replay; [exact (ad_execution _ _ _ A)|]. rewrite S14. apply execution_new_inv.
Qed.

Lemma events_verdict ex es s facts report :
  consume_all ex (chain_state_new ex) es = Ok s → finish_chain ex s = Ok (facts, report) →
  facts = foldl (λ f e, consume_facts e f) [] es ∧ (rp_values report = [] ↔ chain_ok ex es).
Proof.
  intros Hrun Hfin. pose proof (run_advanced _ _ _ _ Hrun) as A. pose proof (run_settled _ _ _ Hrun) as Hsettled.
  destruct (start_spec ex) as (S1 & S2 & S3 & S4 & S5 & S6 & S7 & S8 & S9 & S10 & S11 & S12 & S13 & S14 & S15).
  destruct (finish_verdict ex s facts report Hsettled Hfin) as [-> Hiff]. rewrite (ad_facts _ _ _ A), S10. split; [done|].
  rewrite Hiff. clear Hiff Hfin.
  pose proof (ad_execution _ _ _ A) as Hx. rewrite S8, S14 in Hx. change (S (N.to_nat 0)) with 1 in Hx.
  assert (Hexec : rp_values (execution_finish (st_execution s)) = [] ↔
    ∃ m, execution_replay es 1 (execution_mirror_new (ex_execution_model ex) (ex_completion_receipt ex)) = Ok m ∧
         rp_values (execution_finish m) = []).
  { rewrite Hx. split; [by exists (st_execution s)|]. intros (m & <-%Ok_inj & Hm). exact Hm. }
  rewrite Hexec. clear Hexec Hx. rewrite (ad_ticket _ _ _ A), (ad_binding _ _ _ A), S8, S12, S13.
  change (S (N.to_nat 0)) with 1.
  assert (Hnd : NoDup (lk_seen (st_links (chain_state_new ex)))) by (rewrite S6; constructor).
  rewrite (run_quiet ex es _ s _ Hrun S3 Hnd S7), S6. unfold sound. cbn [fmap list_fmap]. rewrite app_nil_r.
  rewrite (head_first ex es s Hrun). unfold hash_end. rewrite (ad_hash _ _ _ A), S9.
  pose proof (agents_verdict ex es s Hrun) as Hag. pose proof (ad_problems _ _ _ A) as Hpr. rewrite S2 in Hpr. unfold start_problems in Hpr.
  destruct (start_mirrored ex es) as (M1 & M2 & M3). rewrite M2 in Hpr. cbn [length] in Hpr.
  pose proof (mirrored_run es _ _ (ad_mirrored _ _ _ A) M1 M2) as Hmi.
  pose proof (length_zero_iff_nil (mi_mismatches (st_mirrored s))) as Hq.
  clear S1 S2 S3 S4 S5 S6 S7 S8 S9 S10 S11 S12 S13 S14 S15 Hnd A M1 M2.
  match type of Hpr with _ = length ?l + ?n + _ => set (p1 := l) in *; set (p2 := n) in * end.
  pose proof (length_zero_iff_nil p1) as Hp1. split.
  - intros (P0 & (Q1 & Q2 & Q3) & P3 & P4 & P5 & P6 & P7 & P8 & P9).
    refine (mkChainOk ex es Q1 Q2 P3 Q3 P4 _ _ P7 P8 P9).
    + apply M3. split; [apply Hp1; lia|]. apply Hmi. split; [apply Hq; lia|exact P5].
    + apply Hag. split; [lia|exact P6].
  - intros [C1 C2 C3 C4 C5 C6 C7 C8 C9 C10]. apply M3 in C6 as [Hp C6]. apply Hmi in C6 as [Hm C6]. apply Hag in C7 as [Hp2 C7].
    apply Hq in Hm. apply Hp1 in Hp. split; [lia|]. exact (conj (conj C1 (conj C2 C4)) (conj C3 (conj C5 (conj C6 (conj C7 (conj C8 (conj C9 C10))))))).
Qed.
End accepted.

(** ** The file *)
Section file.
Context `{FloatRepr} `{PyRepr} (exn_text : exn → pystr).

(** The events of the lines that are not blank. *)
Fixpoint line_events (lines : list pystr) : option (list dict) :=
  match lines with
  | [] => Some []
  | line :: rest =>
    match strip line with
    | [] => line_events rest
    | text => match loads_json_value text with
              | Ok (PyDict event) => match line_events rest with Some es => Some (event :: es) | None => None end
              | _ => None
              end
    end
  end.
Definition line_bytes (line : pystr) : N := N.of_nat (length (utf8_bytes line)).
Fixpoint lines_bounded (total : N) (lines : list pystr) : Prop :=
  match lines with
  | [] => True
  | line :: rest =>
    (N.of_nat (length line) ≤ _MAX_EVENT_CHAIN_LINE_BYTES)%N ∧ (line_bytes line ≤ _MAX_EVENT_CHAIN_LINE_BYTES)%N ∧
    (total + line_bytes line ≤ _MAX_EVENT_CHAIN_TOTAL_BYTES)%N ∧ lines_bounded (total + line_bytes line) rest
  end.

Lemma consume_event_count ex e s s' : consume_event ex e s = Ok s' → st_events s' = (st_events s + 1)%N.
Proof.
  intros (l & _ & (x & _ & (a & _ & (mp & _ & E)%bind_ok)%bind_ok)%bind_ok)%bind_ok. by apply Ok_inj in E as <-.
Qed.

(** On a readable file the loop is the replay of its events. *)
Lemma consume_lines_good ex lines lineno total s es :
  lines_bounded total lines → line_events lines = Some es →
  (st_events s + N.of_nat (length es) ≤ _MAX_EVENT_CHAIN_EVENT_COUNT)%N →
  consume_lines exn_text ex lines lineno total s = (s' ← consume_all ex s es; Ok (inr s')).
Proof.
  revert lineno total s es. induction lines as [|line rest IH]; intros lineno total s es; cbn [lines_bounded line_events consume_lines].
  { intros _ [= <-] _. done. }
  intros (B1 & B2 & B3 & B4) Hes Hn. fold (line_bytes line).
  assert ((_MAX_EVENT_CHAIN_LINE_BYTES <? N.of_nat (length line))%N = false) as -> by by apply N.ltb_ge.
  assert ((_MAX_EVENT_CHAIN_LINE_BYTES <? line_bytes line)%N = false) as -> by by apply N.ltb_ge.
  assert ((_MAX_EVENT_CHAIN_TOTAL_BYTES <? total + line_bytes line)%N = false) as -> by by apply N.ltb_ge. cbn [orb].
  destruct (strip line) as [|c t]; [by apply IH|].
  destruct (loads_json_value (c :: t)) as [[| | | | | | |e|]|]; try discriminate Hes.
  destruct (line_events rest) as [es'|] eqn:El; [|discriminate Hes]. apply (inj Some) in Hes as <-. cbn [length] in Hn.
  assert ((_MAX_EVENT_CHAIN_EVENT_COUNT <=? st_events s)%N = false) as -> by (apply N.leb_gt; lia).
  cbn [consume_all foldM_res]. destruct (consume_event ex e s) as [s1|err] eqn:Hs; [|done]. cbn [mbind result_bind].
  rewrite (IH (lineno + 1)%N (total + line_bytes line)%N s1 es' B4 eq_refl); [done|]. rewrite (consume_event_count _ _ _ _ Hs). lia.
Qed.

(** A loop that gets to the end found a readable file. *)
Lemma consume_lines_done ex lines lineno total s s' :
  (st_events s ≤ _MAX_EVENT_CHAIN_EVENT_COUNT)%N →
  consume_lines exn_text ex lines lineno total s = Ok (inr s') →
  lines_bounded total lines ∧ ∃ es, line_events lines = Some es ∧
    (st_events s + N.of_nat (length es) ≤ _MAX_EVENT_CHAIN_EVENT_COUNT)%N ∧ consume_all ex s es = Ok s'.
Proof.
  revert lineno total s. induction lines as [|line rest IH]; intros lineno total s Hn; cbn [lines_bounded line_events consume_lines].
  { intros E. apply Ok_inj in E. injection E as <-. split; [done|]. exists []. split; [done|]. split; [cbn; lia|done]. }
  fold (line_bytes line). destruct (N.ltb_spec _MAX_EVENT_CHAIN_LINE_BYTES (N.of_nat (length line))) as [|B1]; [discriminate|].
  destruct (N.ltb_spec _MAX_EVENT_CHAIN_LINE_BYTES (line_bytes line)) as [|B2]; [discriminate|]. cbn [orb].
  destruct (N.ltb_spec _MAX_EVENT_CHAIN_TOTAL_BYTES (total + line_bytes line)) as [|B3]; [discriminate|].
  destruct (strip line) as [|c t].
  { intros Hc. destruct (IH _ _ _ Hn Hc) as (B4 & Hes). split; [|exact Hes]. exact (conj B1 (conj B2 (conj B3 B4))). }
  destruct (N.leb_spec _MAX_EVENT_CHAIN_EVENT_COUNT (st_events s)) as [|Hlt]; [discriminate|].
  destruct (loads_json_value (c :: t)) as [[| | | | | | |e|]|]; try discriminate.
  intros (s1 & Hs & Hc)%bind_ok. pose proof (consume_event_count _ _ _ _ Hs) as Hcount.
  destruct (IH _ _ s1 ltac:(lia) Hc) as (B4 & es & Hes & Hle & Hrun). split; [exact (conj B1 (conj B2 (conj B3 B4)))|].
  exists (e :: es). rewrite Hes. split; [done|]. cbn [length]. split; [lia|]. cbn [consume_all foldM_res]. by rewrite Hs.
Qed.

(** Every early return reports its reason. *)
Lemma reported c : collector_inv c → 0 < pc_total c → rp_values (render_collector c) ≠ [].
Proof. intros Hc Hp Hz. apply render_collector_spec in Hz; [lia|done]. Qed.
(** What a collector renders, of problems that were counted. *)
Definition rendered (least : nat) (report : _BoundedProblemReport) : Prop :=
  ∃ c, collector_inv c ∧ least ≤ pc_total c ∧ report = render_collector c.

Lemma over_limit_rendered msg s :
  collector_inv (st_problems s) → diagnostics_inv (lk_diagnostics (st_links s)) → rendered 1 (over_limit msg s).2.
Proof.
  intros Hc Hd%render_diagnostics_faithful. eexists. split; [|split; [|reflexivity]].
  - by apply append_problem_inv, extend_report_inv.
  - rewrite append_problem_total. lia.
Qed.
Lemma bad_line_rendered msg s :
  collector_inv (st_problems s) → diagnostics_inv (lk_diagnostics (st_links s)) → rendered 1 (bad_line msg s).2.
Proof.
  intros Hc Hd%render_diagnostics_faithful. pose proof (append_problem_inv msg _ Hc) as Hc1. eexists. split; [|split; [|reflexivity]].
  - by apply extend_list_inv, extend_report_inv.
  - rewrite extend_list_total, extend_report_total. rewrite append_problem_total. lia.
Qed.
Lemma unreadable_rendered name s :
  collector_inv (st_problems s) → diagnostics_inv (lk_diagnostics (st_links s)) → rendered 1 (unreadable name s).2.
Proof.
  intros Hc Hd%render_diagnostics_faithful. pose proof (append_problem_inv (u "事件链无法读取：" ++ name) _ Hc) as Hc1.
  eexists. split; [|split; [|reflexivity]].
  - by apply extend_list_inv, extend_report_inv.
  - rewrite extend_list_total, extend_report_total. rewrite append_problem_total. lia.
Qed.

Lemma consume_lines_stop ex lines lineno total s o :
  collector_inv (st_problems s) → diagnostics_inv (lk_diagnostics (st_links s)) →
  consume_lines exn_text ex lines lineno total s = Ok (inl o) → rendered 1 o.2.
Proof.
  revert lineno total s. induction lines as [|line rest IH]; intros lineno total s Hc Hd; cbn [consume_lines]; [discriminate|].
  assert (Hover : ∀ msg o, Ok (inl (over_limit msg s)) = @Ok (outcome + chain_state) (inl o) → rendered 1 o.2).
  { intros msg o' E. apply Ok_inj in E. injection E as <-. by apply over_limit_rendered. }
  assert (Hbad : ∀ msg o, Ok (inl (bad_line msg s)) = @Ok (outcome + chain_state) (inl o) → rendered 1 o.2).
  { intros msg o' E. apply Ok_inj in E. injection E as <-. by apply bad_line_rendered. }
  destruct (_ || _); [apply Hover|]. destruct (_ <? _)%N; [apply Hover|].
  destruct (strip line) as [|c t]; [by apply IH|]. destruct (_ <=? _)%N; [apply Hover|].
  destruct (loads_json_value (c :: t)) as [[| | | | | | |e|]|]; try apply Hbad.
  intros (s1 & Hs & Hrest)%bind_ok. pose proof (advanced_cons ex e [] s s1 s1 Hs (advanced_nil s1)) as A.
  apply (IH _ _ s1 (ad_collector _ _ _ A Hc) (ad_diagnostics _ _ _ A Hd) Hrest).
Qed.

Lemma finish_rendered ex s facts report :
  settled_state s → finish_chain ex s = Ok (facts, report) → rendered 0 report.
Proof.
  intros Hs (ps & _ & E)%bind_ok. apply Ok_inj in E. pose proof (f_equal snd E) as E2. cbn [snd] in E2. clear E.
  eexists. split; [|split; [|exact (eq_sym E2)]]; [|lia]. apply extend_rendered; [exact (ss_execution _ Hs)|]. apply extend_list_inv.
  pose proof (extend_list_inv ps _ (proj1 (report_collector s _ Hs (ss_problems _ Hs)))) as I2.
  destruct (ticket_finish (st_ticket s)) as [r|] eqn:Er; [|exact I2].
  destruct (ticket_finish_rendered _ _ (ss_ticket _ Hs) Er) as (c & Hc & ->). by apply extend_rendered.
Qed.
(** Every report comes out of a collector. *)
Lemma chain_rendered ex file facts report : _verify_event_chain exn_text ex file = Ok (facts, report) → rendered 0 report.
Proof.
  intros Hv. destruct (start_spec ex) as (S1 & _ & _ & S4 & _ & _ & _ & S8 & _). unfold _verify_event_chain in Hv. cbv zeta in Hv.
  pose proof (render_diagnostics_faithful _ S4) as Hf. fold (chain_report (chain_state_new ex)) in Hf.
  assert (H1 : ∀ r, rendered 1 r → rendered 0 r) by (intros r (c & Hc & _ & ->); exists c; split; [exact Hc|split; [lia|done]]).
  destruct (evf_stat file) as [size|name].
  2: { apply Ok_inj in Hv. injection Hv as _ <-. eexists. split; [|split; [|reflexivity]]; [by apply append_problem_inv, extend_report_inv|lia]. }
  destruct (_ <? _)%N.
  { apply Ok_inj in Hv. injection Hv as _ <-. eexists. split; [|split; [|reflexivity]]; [by apply append_problem_inv|lia]. }
  destruct (evf_open file) as [name|].
  { apply Ok_inj in Hv. injection Hv as _ <-. eexists. split; [|split; [|reflexivity]]; [by apply append_problem_inv, extend_report_inv|lia]. }
  apply bind_ok in Hv as (r & Hlines & Hv). destruct r as [o|s'].
  { apply Ok_inj in Hv. subst o. exact (H1 _ (consume_lines_stop ex _ _ _ _ _ S1 S4 Hlines)). }
  destruct (consume_lines_done ex _ 0 0 _ s' ltac:(rewrite S8; lia) Hlines) as (_ & es & _ & _ & Hrun). pose proof (run_settled _ _ _ Hrun) as Hs.
  destruct (evf_fault file) as [name|]; [|exact (finish_rendered _ _ _ _ Hs Hv)].
  apply Ok_inj in Hv. pose proof (f_equal snd Hv) as E. cbn [snd] in E. rewrite <-E. apply H1. exact (unreadable_rendered name s' (ss_problems _ Hs) (ss_diagnostics _ Hs)).
Qed.

(** A file that can be read to the end, within the limits, as the events [es]. *)
Definition file_events (file : event_file) (es : list dict) : Prop :=
  (∃ size, evf_stat file = inl size ∧ (size ≤ _MAX_EVENT_CHAIN_TOTAL_BYTES)%N) ∧ evf_open file = None ∧ evf_fault file = None ∧
  lines_bounded 0 (physical_lines [] (evf_text file)) ∧
  line_events (physical_lines [] (evf_text file)) = Some es ∧ (N.of_nat (length es) ≤ _MAX_EVENT_CHAIN_EVENT_COUNT)%N.

(** What the report says of the file. *)
Lemma chain_verdict ex file facts report :
  _verify_event_chain exn_text ex file = Ok (facts, report) →
  (rp_values report = [] ↔ ∃ es, file_events file es ∧ chain_ok ex es) ∧
  (∀ es, file_events file es → facts = foldl (λ f e, consume_facts e f) [] es).
Proof.
  intros Hv. destruct (start_spec ex) as (S1 & _ & _ & S4 & _ & _ & _ & S8 & _). unfold _verify_event_chain in Hv. cbv zeta in Hv.
  set (s0 := chain_state_new ex) in *. pose proof (render_diagnostics_faithful _ S4) as Hf. fold (chain_report s0) in Hf.
  assert (Hno : ∀ c, collector_inv c → 0 < pc_total c → report = render_collector c → (∀ es, ¬ file_events file es) →
            (rp_values report = [] ↔ ∃ es, file_events file es ∧ chain_ok ex es) ∧
            (∀ es, file_events file es → facts = foldl (λ f e, consume_facts e f) [] es)).
  { intros c Hc Hp -> Hn. split; [|intros es Hes; by destruct (Hn es)]. split; [intros Hz; by destruct (reported c Hc Hp)|].
    intros (es & Hes & _). by destruct (Hn es). }
  destruct (evf_stat file) as [size|name] eqn:Est.
  2: { apply Ok_inj in Hv. injection Hv as _ Hr. eapply Hno; [| |by symmetry|].
       - by apply append_problem_inv, extend_report_inv.
       - rewrite append_problem_total. lia.
       - intros es ((size & E & _) & _). congruence. }
  destruct (N.ltb_spec _MAX_EVENT_CHAIN_TOTAL_BYTES size) as [Hbig|Hsize].
  { apply Ok_inj in Hv. injection Hv as _ Hr. eapply Hno; [| |by symmetry|].
    - by apply append_problem_inv.
    - rewrite append_problem_total. lia.
    - intros es ((size' & E & Hle) & _). assert (size' = size) as -> by congruence. lia. }
  destruct (evf_open file) as [name|] eqn:Eop.
  { apply Ok_inj in Hv. injection Hv as _ Hr. eapply Hno; [| |by symmetry|].
    - by apply append_problem_inv, extend_report_inv.
    - rewrite append_problem_total. lia.
    - intros es (_ & E & _). congruence. }
  apply bind_ok in Hv as (r & Hlines & Hv).
  assert (Hgood : ∀ es, file_events file es → ∃ s', consume_all ex s0 es = Ok s' ∧ r = inr s' ∧ evf_fault file = None).
  { intros es (_ & _ & Hfault & Hb & He & Hn).
    rewrite (consume_lines_good ex _ 0 0 s0 es Hb He) in Hlines by (rewrite S8; lia).
    apply bind_ok in Hlines as (s' & Hs & E). apply Ok_inj in E as <-. by exists s'. }
  destruct r as [o|s'].
  { apply Ok_inj in Hv. subst o. destruct (consume_lines_stop ex _ _ _ s0 _ S1 S4 Hlines) as (c & Hc & Hp & Hr). cbn [snd] in Hr. split.
    - split; [rewrite Hr; intros Hz; by destruct (reported c Hc Hp)|]. intros (es & Hes & _). destruct (Hgood es Hes) as (? & _ & E & _). discriminate E.
    - intros es Hes. destruct (Hgood es Hes) as (? & _ & E & _). discriminate E. }
  destruct (consume_lines_done ex _ 0 0 s0 s' ltac:(rewrite S8; lia) Hlines) as (Hb & es & He & Hn & Hrun).
  pose proof (run_advanced _ _ _ _ Hrun) as A.
  destruct (evf_fault file) as [name|] eqn:Efa.
  { apply Ok_inj in Hv. injection Hv as _ Hr. pose proof (append_problem_inv (u "事件链无法读取：" ++ name) _ (ad_collector _ _ _ A S1)) as Hc1.
    eapply Hno; [| |by symmetry|].
    - apply extend_list_inv, extend_report_inv; [|exact Hc1]. by apply render_diagnostics_faithful, (ad_diagnostics _ _ _ A).
    - rewrite extend_list_total, extend_report_total. rewrite append_problem_total. lia.
    - intros es' (_ & _ & E & _). congruence. }
  destruct (events_verdict ex es s' facts report Hrun Hv) as [Hfacts Hiff].
  assert (Hes : file_events file es).
  { split; [by exists size|]. split; [exact Eop|]. split; [exact Efa|]. split; [exact Hb|]. split; [exact He|]. rewrite S8 in Hn. lia. }
  assert (Huniq : ∀ es', file_events file es' → es' = es) by (intros es' (_ & _ & _ & _ & E & _); congruence).
  split; [|intros es' Hes'; by rewrite (Huniq es' Hes')].
  rewrite Hiff. split; [intros Hok; by exists es|]. intros (es' & Hes' & Hok). by rewrite (Huniq es' Hes') in Hok.
Qed.

(** C5: a pack's event chain is accepted, with an empty report, exactly when the
    file is read to its end within the limits and every non-blank line is an
    event, the events have the form of the schema and identifiers of their own,
    the first creates or migrates the ticket, each names the hash of the one
    before it (the first the genesis hash) and carries the SHA-256 of its own
    canonical text, the metadata hash is the last one recorded, the records of
    the metadata are the events of their type in order, and the four mirrors are
    content; the artifact facts are then those of the events. *)
Theorem event_chain_iff ex file facts report :
  _verify_event_chain exn_text ex file = Ok (facts, report) →
  (rp_values report = [] ↔ ∃ es, file_events file es ∧ chain_ok ex es) ∧
  (∀ es, file_events file es → facts = foldl (λ f e, consume_facts e f) [] es).
Proof. exact (chain_verdict ex file facts report). Qed.
End file.

(** ** What the hashes are worth *)
Section tamper.
Context `{FloatRepr}.

Definition chain_end (previous : pystr) (events : list dict) : pyval :=
  match last events with Some e => pget (u "event_hash") e | None => PyStr previous end.

Lemma linked_snoc previous events e :
  linked previous (events ++ [e]) ↔
  linked previous events ∧ pget (u "previous_event_hash") e = chain_end previous events ∧
  ∃ h, canonical_event_hash e = Ok h ∧ pget (u "event_hash") e = PyStr h.
Proof.
  unfold chain_end. revert previous. induction events as [|e0 events IH]; intros previous; cbn [app linked last].
  - split; [intros (Hp & h & Hh & Hhe & _); split; [done|]; split; [exact Hp|by exists h]|].
    intros (_ & Hp & h & Hh & Hhe). split; [exact Hp|]. by exists h.
  - assert (Hend : ∀ h, pget (u "event_hash") e0 = PyStr h →
              match last (e0 :: events) with Some e => pget (u "event_hash") e | None => PyStr previous end =
              match last events with Some e => pget (u "event_hash") e | None => PyStr h end).
    { intros h Hh. rewrite last_cons. by destruct (last events). }
    cbn [last] in Hend. split.
    + intros (Hp & h & Hh & Hhe & (L1 & L2 & L3)%IH). rewrite (Hend h Hhe). split; [|split; [exact L2|exact L3]].
      split; [exact Hp|]. exists h. exact (conj Hh (conj Hhe L1)).
    + intros ((Hp & h & Hh & Hhe & L1) & L2 & L3). rewrite (Hend h Hhe) in L2. split; [exact Hp|]. exists h.
      split; [exact Hh|]. split; [exact Hhe|]. apply IH. exact (conj L1 (conj L2 L3)).
Qed.

(** The same event, up to the order in which members are written. *)
Definition same_event (e e' : dict) : Prop :=
  canon canonical_opts (event_material e) = canon canonical_opts (event_material e') ∧
  pget (u "event_hash") e = pget (u "event_hash") e'.
(** Two values whose canonical texts differ and have one SHA-256 hash. *)
Definition text_collision (v v' : pyval) : Prop :=
  ∃ t t' b b', canonical_dumps v = Ok t ∧ canonical_dumps v' = Ok t' ∧ t ≠ t' ∧
    encode_utf8 t = Ok b ∧ encode_utf8 t' = Ok b' ∧ b ≠ b' ∧ sha256_hex b = sha256_hex b'.
Definition collision (e e' : dict) : Prop := text_collision (event_material e) (event_material e').
(** An event whose hash is the genesis hash, 64 zeros. *)
Definition genesis_preimage (e : dict) : Prop := canonical_event_hash e = Ok GENESIS_HASH.

Lemma same_text_hash v v' h :
  sha256_text v = Ok h → sha256_text v' = Ok h → json_plain v = true → json_plain v' = true →
  canon canonical_opts v = canon canonical_opts v' ∨ text_collision v v'.
Proof.
  unfold sha256_text. intros (t & Ht & (b & Hb & E)%bind_ok)%bind_ok (t' & Ht' & (b' & Hb' & E')%bind_ok)%bind_ok P P'.
  apply Ok_inj in E. apply Ok_inj in E'. destruct (decide (t = t')) as [->|Hne].
  - left. unfold canonical_dumps in *.
    destruct (dumps canonical_opts v) as [x|] eqn:Ex; [|discriminate]. apply Ok_inj in Ht.
    destruct (dumps canonical_opts v') as [x'|] eqn:Ex'; [|discriminate]. apply Ok_inj in Ht'. subst x x'.
    by eapply (dumps_inj canonical_opts _ _ t').
  - right. exists t, t', b, b'. split_and!; try assumption; [|congruence].
    unfold encode_utf8 in Hb, Hb'. destruct (utf8_encodable t); [|discriminate]. destruct (utf8_encodable t'); [|discriminate].
    apply Ok_inj in Hb as <-. apply Ok_inj in Hb' as <-. intros E2. apply Hne. by apply utf8_bytes_inj.
Qed.

Lemma canon_member k d d' :
  canon canonical_opts (PyDict d) = canon canonical_opts (PyDict d') → NoDup (dkeys d) → NoDup (dkeys d') →
  ∀ s, pget k d = PyStr s → pget k d' = PyStr s.
Proof.
  cbn [canon]. intros E N N' s Hs.
  assert (Hin : (k, PyStr s) ∈ map (λ p, (p.1, canon canonical_opts p.2)) d').
  { rewrite <-(sort_items_perm canonical_opts (map _ d')). injection E as <-. rewrite sort_items_perm.
    apply list_elem_of_fmap. unfold pget in Hs. destruct (dget k d) as [v|] eqn:Ek; [|discriminate]. cbn in Hs. subst v.
    exists (k, PyStr s). split; [done|]. by apply dget_Some_elem. }
  apply list_elem_of_fmap in Hin as ((k' & v) & Ev & Hin). cbn [fst snd] in Ev. injection Ev as -> Hv.
  apply elem_dget in Hin; [|done]. unfold pget. rewrite Hin. cbn. destruct v; try discriminate Hv. exact (eq_sym Hv).
Qed.

Lemma same_previous e e' s :
  canon canonical_opts (event_material e) = canon canonical_opts (event_material e') →
  json_plain (event_material e) = true → json_plain (event_material e') = true →
  pget (u "previous_event_hash") e = PyStr s → pget (u "previous_event_hash") e' = PyStr s.
Proof.
  unfold event_material. intros E P P' Hs.
  assert (Hne : u "previous_event_hash" ≠ u "event_hash") by by_compute.
  cbn [json_plain] in P, P'. apply andb_true_iff in P as [P _]. apply andb_true_iff in P' as [P' _].
  rewrite <-(pget_ddel_ne _ (u "event_hash")) by done. eapply (canon_member _ _ _ E); [by apply bool_decide_eq_true in P|by apply bool_decide_eq_true in P'|].
  by rewrite pget_ddel_ne.
Qed.

(** Every event hash of a linked chain is a string. *)
Lemma chain_end_str previous events : linked previous events → ∃ s, chain_end previous events = PyStr s.
Proof.
  destruct events as [|e events] using rev_ind; [by exists previous|].
  rewrite linked_snoc. intros (_ & _ & h & _ & Hh). exists h. unfold chain_end. by rewrite last_snoc.
Qed.

(** C6: the hash of the last event commits to the whole chain: two linked chains
    that end in the same hash consist of the same events, in the same order, up
    to the order of members, unless one of them exhibits two texts with the same
    SHA-256 hash or a text whose hash is all zeros.  The events are those whose
    text the decoder reads back ([json_plain]): names that do not repeat, integers
    of at most 4300 digits, which are all CPython writes, and finite floats whose
    [repr] is rounded back to the same float, which every [repr] of CPython is;
    an infinity or a NaN is refused by the verifier. *)
Theorem chain_tamper_evident es es' :
  linked GENESIS_HASH es → linked GENESIS_HASH es' →
  Forall (λ e, json_plain (event_material e) = true) es → Forall (λ e, json_plain (event_material e) = true) es' →
  chain_end GENESIS_HASH es = chain_end GENESIS_HASH es' →
  Forall2 same_event es es' ∨ (∃ e e', e ∈ es ∧ e' ∈ es' ∧ collision e e') ∨ (∃ e, e ∈ es ++ es' ∧ genesis_preimage e).
Proof.
  revert es'. induction es as [|e es IH] using rev_ind; intros es' L L' P P' E.
  - destruct es' as [|e' es' _] using rev_ind; [by left|]. right. right. apply linked_snoc in L' as (_ & _ & h & Hh & Hhe).
    unfold chain_end in E. rewrite last_snoc, Hhe in E. cbn [last] in E. assert (h = GENESIS_HASH) as -> by congruence.
    exists e'. split; [|exact Hh]. cbn [app]. apply elem_of_app. right. by apply list_elem_of_singleton.
  - apply linked_snoc in L as (L & Hp & h & Hh & Hhe). destruct es' as [|e' es' _] using rev_ind.
    { right. right. unfold chain_end in E. rewrite last_snoc, Hhe in E. cbn [last] in E. assert (h = GENESIS_HASH) as -> by congruence.
      exists e. split; [|exact Hh]. rewrite app_nil_r. apply elem_of_app. right. by apply list_elem_of_singleton. }
    apply linked_snoc in L' as (L' & Hp' & h' & Hh' & Hhe'). unfold chain_end in E. rewrite !last_snoc, Hhe, Hhe' in E.
    assert (h' = h) as -> by congruence. apply Forall_app in P as [P Pe]. apply Forall_app in P' as [P' Pe'].
    apply Forall_cons in Pe as [Pe _]. apply Forall_cons in Pe' as [Pe' _].
    destruct (same_text_hash _ _ h Hh Hh' Pe Pe') as [Hc|Hc].
    2: { right. left. exists e, e'. split; [|split; [|exact Hc]]; apply elem_of_app; right; by apply list_elem_of_singleton. }
    destruct (chain_end_str _ _ L) as (s & Hs). rewrite Hs in Hp. pose proof (same_previous e e' s Hc Pe Pe' Hp) as Hp2.
    destruct (IH es' L L' P P') as [Hsame|[(x & x' & Hx & Hx' & Hcol)|(x & Hx & Hg)]].
    + congruence.
    + left. apply Forall2_app; [exact Hsame|]. constructor; [|constructor]. split; [exact Hc|congruence].
    + right. left. exists x, x'. split; [|split; [|exact Hcol]]; apply elem_of_app; by left.
    + right. right. exists x. split; [|exact Hg]. apply elem_of_app in Hx as [Hx|Hx]; apply elem_of_app; [left|right];
        apply elem_of_app; by left.
Qed.
End tamper.

(** ** What escapes the verifier

    Values read from a pack are strict, so every hash and every comparison of
    canonical texts succeeds; what is left is the membership test of the
    execution mirror. *)
Section total.
Context `{FloatRepr} `{PyRepr} (exn_text : exn → pystr).
Context (float_repr_ascii : ∀ f, Forall (λ c, is_ascii c = true) (float_repr f)).

Lemma strict_down n v : strict_value (S n) v → strict_value n v.
Proof.
  revert n. induction v as [|b|z|f|s|l IH|l IH|d IH|i] using pyval_nested_ind; intros n Hv;
    inversion Hv as [| | |? ? Hf|? ? Hs|? ? Hn Hl|? ? Hn Hnd Hks Hd]; subst; try by constructor.
  - constructor; [lia|]. rewrite Forall_forall in *. intros x Hx. by apply IH, Hl.
  - constructor; [lia|done|done|]. rewrite Forall_forall in *. intros x Hx. by apply IH, Hd.
Qed.
Definition strict_dict (d : dict) : Prop := strict_value 0 (PyDict d).
Lemma strict_inner n d : strict_value n (PyDict d) → strict_dict d.
Proof. induction n as [|n IH]; [done|]. intros Hd. by apply IH, strict_down. Qed.

Lemma strict_get k d v : strict_dict d → dget k d = Some v → strict_value 1 v.
Proof.
  inversion 1 as [| | | | | |? ? _ _ _ Hd]; subst. intros Hv%dget_Some_elem. rewrite Forall_forall in Hd. exact (Hd _ Hv).
Qed.
Lemma strict_payload e p : strict_dict e → pget (u "payload") e = PyDict p → strict_dict p.
Proof.
  intros He. unfold pget. destruct (dget (u "payload") e) as [v|] eqn:E; [|discriminate]. cbn. intros ->.
  apply (strict_inner 1). by eapply strict_get.
Qed.

Lemma strict_dset k v d : strict_dict d → strict_value 1 v → clean_str k → strict_dict (dset k v d).
Proof.
  inversion 1 as [| | | | | |? ? Hn Hnd Hks Hd]; subst. intros Hv Hk. constructor; [done|by apply dset_NoDup| |].
  - rewrite Forall_forall in *. intros k' [-> |Hk']%elem_dkeys_dset; [done|by apply Hks].
  - rewrite Forall_forall in *. intros p [-> |Hp]%elem_dset; [exact Hv|by apply Hd].
Qed.
Lemma strict_update d kvs : strict_dict d → strict_dict kvs → strict_dict (dupdate d kvs).
Proof.
  intros Hd Hkvs. inversion Hkvs as [| | | | | |? ? _ _ Hks Hv]; subst. clear Hkvs. unfold dupdate. revert d Hd Hks Hv.
  induction kvs as [|[k v] kvs IH]; intros d Hd Hks Hv; [done|]. cbn [foldl].
  apply Forall_cons in Hks as [Hk Hks]. apply Forall_cons in Hv as [Hv Hvs].
  apply IH; [by apply strict_dset|exact Hks|exact Hvs].
Qed.

Lemma matches_total p r : strict_dict p → strict_dict r → ∃ b, _event_payload_matches_metadata_record p r = Ok b.
Proof.
  intros Hp Hr. unfold _event_payload_matches_metadata_record, same_text, _event_payload_metadata_record.
  destruct (canonical_dumps_total float_repr_ascii 0 _ (strict_ddel 0 (u "metadata_hash_after") p Hp)) as (x & ->).
  destruct (canonical_dumps_total float_repr_ascii 0 _ Hr) as (y & ->). by eexists.
Qed.

(** *** Agents *)
Record strict_agents (m : _AgentLifecycleMirror) : Prop := mkStrictAgents {
  sa_records : Forall strict_dict (am_records m);
  sa_open : Forall (λ o, strict_dict o.2.1 ∧ strict_dict o.2.2) (am_open m)
}.
Lemma strict_invalid m : strict_agents m → strict_agents (invalid m).
Proof. by intros []. Qed.
Lemma strict_record p : strict_dict p → strict_dict (_event_payload_metadata_record p).
Proof. apply strict_ddel. Qed.

Lemma strict_open m i r x : strict_agents m → dget i (am_open m) = Some (r, x) → strict_dict r ∧ strict_dict x.
Proof.
  intros [_ Ho] Hi%dget_Some_elem. rewrite Forall_forall in Ho. exact (Ho _ Hi).
Qed.

Lemma agent_consume_total m t v :
  strict_agents m → (∀ p, v = PyDict p → strict_dict p) → ∃ m', agent_consume m (t, v) = Ok m' ∧ strict_agents m'.
Proof using float_repr_ascii.
  intros Hm Hv. unfold agent_consume. cbn [fst snd]. destruct (_ || _); [by exists m|].
  destruct v as [| | | | | | |p|]; try (eexists; split; [reflexivity|by apply strict_invalid]).
  pose proof (strict_record p (Hv p eq_refl)) as Hp. set (record := _event_payload_metadata_record p) in *. clearbody record.
  case_bool_decide as Hkind.
  - eexists. split; [reflexivity|]. unfold consume_spawn. destruct (negb _); [by apply strict_invalid|].
    destruct (pget (u "spawn_id") record); try by apply strict_invalid. destruct (_ <=? _); [by apply strict_invalid|].
    destruct (am_records m !! am_index m) as [x|] eqn:Ex; [|by apply strict_invalid].
    destruct Hm as [H1 H2]. split; [exact H1|]. cbn [am_open]. apply Forall_forall. intros o [-> |Ho]%elem_dset.
    + split; [exact Hp|]. apply (proj1 (Forall_forall _ _) H1). by apply list_elem_of_lookup_2 in Ex.
    + by apply (proj1 (Forall_forall _ _) H2).
  - unfold consume_result. destruct (negb _); [eexists; split; [reflexivity|by apply strict_invalid]|].
    destruct (pget (u "spawn_id") record) as [| | | |i| | | |]; try (eexists; split; [reflexivity|by apply strict_invalid]).
    destruct (dget i (am_open m)) as [[r x]|] eqn:Ei; [|eexists; split; [reflexivity|by apply strict_invalid]].
    destruct (strict_open m i r x Hm Ei) as [Hr Hx].
    destruct (matches_total (closed_record r record) x) as (b & ->); [by apply strict_update, strict_ddel|exact Hx|].
    eexists. split; [reflexivity|]. destruct Hm as [H1 H2]. split; [exact H1|]. cbn [am_open].
    apply Forall_forall. intros o [Ho _]%elem_ddel. by apply (proj1 (Forall_forall _ _) H2).
Qed.

Lemma agent_finish_total m : strict_agents m → ∃ b, agent_finish m = Ok b.
Proof using float_repr_ascii.
  intros [_ Ho]. unfold agent_finish. destruct (negb _); [by eexists|].
  generalize (am_valid m && (am_index m =? length (am_records m))) as b. induction Ho as [|o os [H1 H2] _ IH]; intros b; [by eexists|].
  cbn [foldM_res]. destruct (matches_total o.2.1 o.2.2 H1 H2) as (same & ->). cbn [mbind result_bind]. apply IH.
Qed.

(** *** One event, and all of them *)
Definition strict_mirrored (m : mirrored) : Prop := ∀ t rs, dget t (mi_records m) = Some rs → Forall strict_dict rs.
Definition replays_model (ex : expectations) : bool :=
  xe_enabled (execution_mirror_new (ex_execution_model ex) (ex_completion_receipt ex)).
Definition strict_state (ex : expectations) (s : chain_state) : Prop :=
  strict_mirrored (st_mirrored s) ∧ (∀ a, st_agents s = Some a → strict_agents a) ∧ xe_enabled (st_execution s) = replays_model ex.
(** The one way an event makes the verifier raise. *)
Definition raised_by (ex : expectations) (e : dict) (x : exn) : Prop :=
  x = TypeError "unhashable type" ∧ replays_model ex = true ∧ unhashable_type e = true.

Lemma consume_event_total ex e s :
  strict_dict e → strict_state ex s →
  match consume_event ex e s with Ok s' => strict_state ex s' | Err x => raised_by ex e x end.
Proof using float_repr_ascii.
  intros He (Hm & Ha & Hen). unfold consume_event.
  assert (Hl : ∀ iss n l, ∃ l', consume_links e iss n l = Ok l').
  { intros iss n l. unfold consume_links. case_match. unfold canonical_event_hash, event_material.
    destruct (sha256_text_total float_repr_ascii 0 _ (strict_ddel 0 (u "event_hash") e He)) as (h & ->). by eexists. }
  destruct (Hl (event_schema_issues e (ex_ticket_id ex)) (st_events s + 1)%N (st_links s)) as (l & ->). clear Hl. cbn [mbind result_bind].
  destruct (execution_consume e _ _) as [m1|x] eqn:Ex; cbn [mbind result_bind].
  2: { apply consume_raises in Ex as (-> & E2 & E3). split; [done|]. split; [congruence|done]. }
  apply consume_enabled in Ex. rewrite Hen in Ex.
  assert (Hag : ∃ a', consume_agents e (st_agents s) = Ok a' ∧ ∀ a, a' = Some a → strict_agents a).
  { unfold consume_agents. destruct (st_agents s) as [a|]; [|by exists None].
    destruct (pget (u "event_type") e) as [| | | |t| | | |]; try (exists (Some a); split; [reflexivity|exact Ha]).
    destruct (is_lifecycle t); [|exists (Some a); split; [reflexivity|exact Ha]].
    destruct (agent_consume_total a t (pget (u "payload") e)) as (a' & -> & Ha'); [by apply Ha|intros p Hp; by apply (strict_payload e)|].
    exists (Some a'). split; [reflexivity|]. intros a2 E. apply (inj Some) in E as <-. exact Ha'. }
  destruct Hag as (a' & -> & Ha'). cbn [mbind result_bind].
  assert (Hmi : ∃ mp, consume_mirrored e (st_mirrored s) = Ok mp).
  { unfold consume_mirrored. destruct (pget (u "event_type") e) as [| | | |t| | | |]; try by eexists.
    destruct (dget t (mi_records (st_mirrored s))) as [rs|] eqn:Er; [|by eexists].
    destruct (rs !! default 0 (dget t (mi_indexes (st_mirrored s)))) as [r|] eqn:Ei; [|by eexists].
    destruct (pget (u "payload") e) as [| | | | | | |p|] eqn:Ep; try by eexists.
    destruct (matches_total p r) as (b & ->); [by apply (strict_payload e)| |by eexists].
    pose proof (Hm t rs Er) as Hrs. rewrite Forall_forall in Hrs. apply Hrs. by apply list_elem_of_lookup_2 in Ei. }
  destruct Hmi as (mp & Hmp). rewrite Hmp. split; [|split; [exact Ha'|exact Ex]]. cbn [st_mirrored].
  destruct (consume_mirrored_spec _ _ _ Hmp) as (E & _). unfold strict_mirrored. rewrite E. exact Hm.
Qed.

Lemma consume_lines_total ex lines lineno total s :
  strict_state ex s →
  match consume_lines exn_text ex lines lineno total s with
  | Ok r => ∀ s', r = inr s' → strict_state ex s'
  | Err x => ∃ line e, line ∈ lines ∧ loads_json_value (strip line) = Ok (PyDict e) ∧ raised_by ex e x
  end.
Proof using float_repr_ascii.
  revert lineno total s. induction lines as [|line rest IH]; intros lineno total s Hs; cbn [consume_lines].
  { intros s' E. by injection E as <-. }
  repeat (match goal with |- context [if ?b then Ok (inl _) else _] => destruct b; [done|] end).
  assert (Hrest : ∀ lineno total s, strict_state ex s → match consume_lines exn_text ex rest lineno total s with
    | Ok r => ∀ s', r = inr s' → strict_state ex s'
    | Err x => ∃ l e, l ∈ line :: rest ∧ loads_json_value (strip l) = Ok (PyDict e) ∧ raised_by ex e x end).
  { intros lineno1 total1 s1 Hs1. specialize (IH lineno1 total1 s1 Hs1). destruct (consume_lines _ _ rest _ _ _); [exact IH|].
    destruct IH as (l & e1 & Hin & Hx). exists l, e1. split; [by apply elem_of_cons; right|exact Hx]. }
  destruct (strip line) as [|c t] eqn:Et; [by apply Hrest|]. destruct (_ <=? _)%N; [done|].
  destruct (loads_json_value (c :: t)) as [v|] eqn:Ev; [|done]. pose proof (loads_json_value_strict _ _ Ev) as Hv.
  destruct v as [| | | | | | |e|]; try done.
  pose proof (consume_event_total ex e s Hv Hs) as He. destruct (consume_event ex e s) as [s1|x]; cbn [mbind result_bind].
  - by apply Hrest.
  - exists line, e. rewrite Et. split; [by apply elem_of_cons; left|done].
Qed.

(** The records of the metadata were read strictly, too. *)
Record strict_expectations (ex : expectations) : Prop := mkStrictEx {
  se_mirrors : ∀ d t rs, ex_event_mirrors ex = Some (PyDict d) → records_of d t = PyList (PyDict <$> rs) → Forall strict_dict rs;
  se_agents : ∀ rs, ex_agent_spawns ex = Some (PyList (PyDict <$> rs)) → Forall strict_dict rs
}.

(** C23: what can escape the verifier of the event chain.  Whatever the file
    holds, it returns the artifact facts and a report, or raises TypeError, and
    this only when an execution model is replayed and a line of the file is a
    versioned event of an attempt whose event_type is a list or an object (which
    the test for membership in a set does not hash). *)
Theorem event_chain_raises ex file :
  strict_expectations ex →
  match _verify_event_chain exn_text ex file with
  | Ok _ => True
  | Err x => ∃ line e, line ∈ physical_lines [] (evf_text file) ∧ loads_json_value (strip line) = Ok (PyDict e) ∧ raised_by ex e x
  end.
Proof using float_repr_ascii.
  intros [Hmi Hag]. unfold _verify_event_chain. cbv zeta. destruct (evf_stat file); [|done].
  destruct (_ <? _)%N; [done|]. destruct (evf_open file); [done|].
  assert (Hs : strict_state ex (chain_state_new ex)).
  { destruct (start_spec ex) as (_ & _ & _ & _ & _ & _ & _ & _ & _ & _ & Ha & _ & _ & Hx & Hm). split; [|split].
    - rewrite Hm. destruct (ex_event_mirrors ex) as [[| | | | | | |d|]|]; try by intros t rs.
      intros t rs Hr. apply (mirrored_new_spec d) in Hr as [_ Hr]. by eapply Hmi.
    - intros a. rewrite Ha. destruct (ex_agent_spawns ex) as [v|]; [|discriminate]. cbn. intros E. apply (inj Some) in E as <-.
      unfold agent_mirror_new. destruct v as [| | | | |vs| | |]; try (split; constructor).
      destruct (all_dicts vs) as [rs|] eqn:Er; [|split; constructor]. apply all_dicts_iff in Er as ->.
      split; [cbn; by apply Hag|constructor].
    - by rewrite Hx. }
  pose proof (consume_lines_total ex (physical_lines [] (evf_text file)) 0 0 _ Hs) as Hl.
  destruct (consume_lines _ _ _ _ _ _) as [r|x]; cbn [mbind result_bind]; [|exact Hl].
  destruct r as [o|s]; [done|]. destruct (evf_fault file); [done|]. destruct (Hl s eq_refl) as (_ & Ha & _).
  unfold finish_chain, last_problems.
  destruct (st_agents s) as [a|]; [|done]. destruct (am_structurally_valid a); [|done].
  destruct (agent_finish_total a (Ha a eq_refl)) as (b & ->). done.
Qed.
End total.

(** ** A chain of four events *)
Module ChainSample.
#[export] Instance no_repr : PyRepr := λ _, [].
Definition no_text (_ : exn) : pystr := [].
Definition id (k : N) : pystr := u "0000000" ++ [(48 + k)%N] ++ u "-0000-4000-8000-000000000000".
Definition draft (k : N) (body : dict) (previous : pystr) : dict :=
  [(u "schema_version", PyInt 1); (u "event_id", PyStr (id k)); (u "ticket_id", PyStr (u "T1"));
   (u "timestamp", PyStr (u "2026-01-02T03:04:05Z")); (u "actor", PyStr (u "icode"))] ++ body
  ++ [(u "previous_event_hash", PyStr previous)].
Definition seal `{FloatRepr} (e : dict) : dict * pystr :=
  match canonical_event_hash e with Ok h => (e ++ [(u "event_hash", PyStr h)], h) | Err _ => (e, []) end.
Fixpoint seal_all `{FloatRepr} (k : N) (previous : pystr) (bodies : list dict) : list dict :=
  match bodies with
  | [] => []
  | b :: rest => let '(e, h) := seal (draft k b previous) in e :: seal_all (k + 1) h rest
  end.
(** Two events with floats in the payload, and a [repr] that writes them. *)
Definition tenths : FloatRepr := λ f, match f with S754_zero true => u "-0.0" | _ => u "0.1" end.
Definition timed : list dict :=
  Eval vm_compute in seal_all (H := tenths) 0 GENESIS_HASH
    [[(u "event_type", PyStr (u "measured")); (u "payload", PyDict [(u "seconds", PyFloat (S754_finite false 7205759403792794 (-56)))])];
     [(u "event_type", PyStr (u "measured")); (u "payload", PyDict [(u "seconds", PyFloat (S754_zero true)); (u "turns", PyInt 3)])]].
(** The same events with their members in another order. *)
Definition timed_reordered : list dict := Eval vm_compute in @reverse _ <$> timed.
#[export] Instance no_floats : FloatRepr := λ _, [].
Definition events : list dict := Eval vm_compute in seal_all 0 GENESIS_HASH TicketMirror.Sample.chain.
Definition text : pystr :=
  Eval vm_compute in concat ((λ e, match dumps canonical_opts (PyDict e) with Some t => t ++ [13; 10]%N | None => [] end) <$> events).
Definition file : event_file := mkEventFile (inl (N.of_nat (length text))) None text None.
Definition expected : expectations :=
  mkExpect (Some (u "T1")) (Some (PyDict [])) (Some (PyList [])) None (Some TicketMirror.Sample.machine) None None
    (Some (PyDict TicketMirror.Sample.metadata)).
Definition verdict : outcome :=
  Eval vm_compute in match _verify_event_chain no_text expected file with Ok o => o | Err _ => ([], render_collector collector_new) end.
End ChainSample.
Import ChainSample.

Lemma event_chain_iff_witness :
  _verify_event_chain no_text expected file = Ok (verdict.1, verdict.2) ∧ rp_values verdict.2 = [] ∧
  (rp_values verdict.2 = [] ↔ ∃ es, file_events file es ∧ chain_ok expected es) ∧
  (∀ es, file_events file es → verdict.1 = foldl (λ f e, consume_facts e f) [] es).
Proof.
  split; [vm_compute; reflexivity|]. split; [vm_compute; reflexivity|].
  apply (event_chain_iff no_text expected file verdict.1 verdict.2). vm_compute. reflexivity.
Defined.

(** A changed payload is found at its event, and nowhere else. *)
Example tampered_payload :
  let forged := match events with e :: es => dset (u "actor") (PyStr (u "user")) e :: es | [] => [] end in
  let text := concat ((λ e, match dumps canonical_opts (PyDict e) with Some t => t ++ [10%N] | None => [] end) <$> forged) in
  match _verify_event_chain no_text expected (mkEventFile (inl 0%N) None text None) with
  | Ok (_, r) => rp_values r = [event_number 1 " 条事件 event_hash 与内容不符（疑似篡改）"]
  | Err _ => False
  end.
Proof. vm_compute. reflexivity. Qed.

(** One line with such an event, and a model to replay. *)
Definition hostile_event : dict :=
  [(u "event_type", PyList []); (u "payload", PyDict [(u "execution_model_version", PyInt 1); (u "attempt", PyStr (u "a1"))])].
Definition hostile_line : pystr :=
  Eval vm_compute in match dumps canonical_opts (PyDict hostile_event) with Some t => t | None => [] end.
Definition hostile_file : event_file := mkEventFile (inl 0%N) None hostile_line None.
Definition replaying : expectations := mkExpect None None None None None (Some ExecutionMirror.ExecutionSample.model) None None.
Lemma event_chain_raises_witness :
  (∀ f, Forall (λ c, is_ascii c = true) (float_repr (FloatRepr := no_floats) f)) ∧ strict_expectations replaying ∧
  _verify_event_chain no_text replaying hostile_file = Err (TypeError "unhashable type") ∧
  ∃ line e, line ∈ physical_lines [] hostile_line ∧ loads_json_value (strip line) = Ok (PyDict e) ∧
    raised_by replaying e (TypeError "unhashable type").
Proof.
  assert (Hf : ∀ f, Forall (λ c, is_ascii c = true) (float_repr (FloatRepr := no_floats) f)) by (intros f; constructor).
  assert (Hs : strict_expectations replaying) by (split; done).
  assert (E : _verify_event_chain no_text replaying hostile_file = Err (TypeError "unhashable type")) by (vm_compute; reflexivity).
  split; [exact Hf|]. split; [exact Hs|]. split; [exact E|].
  pose proof (event_chain_raises no_text Hf replaying hostile_file Hs) as H. rewrite E in H. exact H.
Defined.

Lemma chain_tamper_evident_witness :
  let F : FloatRepr := tenths in
  linked (H := F) GENESIS_HASH timed ∧ linked (H := F) GENESIS_HASH timed_reordered ∧
  chain_end GENESIS_HASH timed = chain_end GENESIS_HASH timed_reordered ∧
  (Forall2 same_event timed timed_reordered ∨ (∃ e e', e ∈ timed ∧ e' ∈ timed_reordered ∧ collision (H := F) e e') ∨
   (∃ e, e ∈ timed ++ timed_reordered ∧ genesis_preimage (H := F) e)).
Proof.
  intros F. assert (L1 : linked (H := F) GENESIS_HASH timed).
  { repeat (split; [vm_compute; reflexivity|eexists; split; [vm_compute; reflexivity|split; [vm_compute; reflexivity|]]]).
    exact I. }
  assert (L2 : linked (H := F) GENESIS_HASH timed_reordered).
  { repeat (split; [vm_compute; reflexivity|eexists; split; [vm_compute; reflexivity|split; [vm_compute; reflexivity|]]]).
    exact I. }
  assert (E : chain_end GENESIS_HASH timed = chain_end GENESIS_HASH timed_reordered) by (vm_compute; reflexivity).
  split; [exact L1|]. split; [exact L2|]. split; [exact E|].
  apply (chain_tamper_evident (H := F) timed timed_reordered L1 L2); [..|exact E]; apply forallb_Forall; vm_compute; reflexivity.
Defined.
