(* ===== verification/Receipts.v ===== *)
(** * Engineering receipts ([src/src/icode/pack_verify.py])

    A receipt reports what an engineering check run observed: the plan, the
    binding to the source, the result of every check.  [engineering_receipt_values]
    validates the closed form and derives the verdict and the digests from the
    observations, trusting no label; [validate_engineering_receipt] compares them
    with what the receipt claims. *)

From Stdlib Require Import SpecFloat.
From S2P Require Import Prelude PyText PyVal Hashing Json JsonParse StrictJson EventSchema BindingMirror.

Definition _MAX_VERIFICATION_RECEIPTS : N := 10000.
Definition _ENGINEERING_COVERAGE : dict := [
  (u "record_scope", PyStr (u "engineering_result_snapshot")); (u "session_replay", PyStr (u "not_included"));
  (u "unrecorded_side_effects", PyStr (u "not_proven")); (u "execution_source", PyStr (u "not_authenticated"));
  (u "test_quality", PyStr (u "not_authenticated"))].
Definition _ENGINEERING_BINDING_TEXT_FIELDS : list string := [
  "step"; "attempt"; "execution_attempt"; "verify_kind"; "environment_fingerprint";
  "diff_fingerprint"; "base_commit_sha"; "initial_worktree_fingerprint";
  "tested_worktree_fingerprint"; "git_object_format"; "test_head_before_sha";
  "test_head_after_sha"; "test_head_status"; "tested_git_tree_oid"; "tested_git_tree_status";
  "result_commit_sha"; "result_commit_tree_oid"; "result_commit_tree_status";
  "result_commit_timing_status"; "result_commit_checked_at"; "captured_at"].
Definition _ENGINEERING_REPAIR_BINDING_FIELDS : list string := [
  "environment_fingerprint"; "artifact_hashes_sha256"; "diff_fingerprint"; "base_commit_sha";
  "initial_worktree_fingerprint"; "tested_worktree_fingerprint"; "git_object_format"; "tested_git_tree_oid"].
Definition _ENGINEERING_MIN_EXIT_CODE : Z := - 2 ^ 31.
Definition _ENGINEERING_MAX_EXIT_CODE : Z := 2 ^ 32 - 1.
Definition _ENGINEERING_CHECK_STATUSES : list pystr := [
  u "passed"; u "failed"; u "not_run"; u "tool_changed"; u "missing_command"; u "execution_unavailable"; u "output_incomplete"].
Definition _ENGINEERING_RUN_STATUSES : list pystr := [
  u "passed"; u "failed"; u "tool_changed"; u "missing_command"; u "execution_unavailable"; u "output_incomplete";
  u "source_changed"; u "source_unavailable"; u "binding_changed"; u "cache_cleanup_unconfirmed"].
Definition _ENGINEERING_FIXED_ERRORS : list pystr := [
  []; u "invalid_cwd"; u "binding_changed"; u "isolation_unavailable"; u "execution_receipt_incomplete";
  u "VerificationOutputError"; u "VerificationOutputLimitError"; u "VerificationOutputCaptureError"; u "TimeoutExpired";
  u "OSError"; u "BlockingIOError"; u "ChildProcessError"; u "ConnectionError"; u "BrokenPipeError";
  u "ConnectionAbortedError"; u "ConnectionRefusedError"; u "ConnectionResetError"; u "FileExistsError";
  u "FileNotFoundError"; u "InterruptedError"; u "IsADirectoryError"; u "NotADirectoryError";
  u "PermissionError"; u "ProcessLookupError"; u "TimeoutError"].

(** ** Fields *)
(** [if not ok: raise ValueError(...)] *)
Definition demand (ok : bool) (message : string) : result unit :=
  raise_if (negb ok) (ValueError ("engineering_verification " ++ message)).

Definition _engineering_shape (value : pyval) (fields : list string) : result dict :=
  match value with
  | PyDict d => _ ← demand (exact_fields fields d) "字段集合无效"; Ok d
  | _ => Err (ValueError "engineering_verification 字段集合无效")
  end.
Definition _engineering_text (value : pyval) (required : bool) (maximum : nat) : result unit :=
  match value with
  | PyStr s =>
    _ ← demand (negb (0%N ∈s s) && negb (required && (s =s []))) "文本字段无效";
    _ ← demand (length s <=? maximum) "文本超过安全上限";
    bytes ← encode_utf8 s;
    demand (length bytes <=? maximum) "文本超过安全上限"
  | _ => Err (ValueError "engineering_verification 文本字段无效")
  end.
Definition _engineering_hash (value : pyval) (empty : bool) : result unit :=
  demand (str_test (λ s, (empty && (s =s [])) || hex64 s) value) "SHA256 无效".

Definition field (d : dict) (k : string) : pyval := pget (u k) d.
Fixpoint each (f : string → result unit) (fields : list string) : result unit :=
  match fields with [] => Ok () | k :: rest => _ ← f k; each f rest end.

(** [None], or exactly of class [bool]. *)
Definition bool_or_none (v : pyval) : bool := match v with PyNone | PyBool _ => true | _ => false end.
Definition is_true (v : pyval) : bool := match v with PyBool true => true | _ => false end.
Definition is_false (v : pyval) : bool := match v with PyBool false => true | _ => false end.
(** Within bounds, and exactly of class [int]. *)
Definition int_within (lo hi : Z) (v : pyval) : bool :=
  match v with PyInt z => (lo <=? z)%Z && (z <=? hi)%Z | _ => false end.

(** ** Sums of [int] and [float] *)
Definition float_of_int (z : Z) : spec_float := binary_normalize 53 1024 z 0 false.
Definition num_add (a b : pyval) : pyval :=
  match a, b with
  | PyInt x, PyInt y => PyInt (x + y)
  | PyInt x, PyFloat g => PyFloat (SFadd 53 1024 (float_of_int x) g)
  | PyFloat f, PyInt y => PyFloat (SFadd 53 1024 f (float_of_int y))
  | PyFloat f, PyFloat g => PyFloat (SFadd 53 1024 f g)
  | _, _ => a
  end.
(** [v <= bound] and [0 < v], of exactly an [int] or a [float]. *)
Definition num_le (v : pyval) (bound : Z) : bool :=
  match v with PyInt z => (z <=? bound)%Z | PyFloat f => SFleb f (float_of_int bound) | _ => false end.
Definition num_pos (v : pyval) : bool :=
  match v with PyInt z => (0 <? z)%Z | PyFloat f => SFltb (S754_zero false) f | _ => false end.

(** ** The plan *)
Definition check_id_form (s : pystr) : bool :=
  match s with
  | c :: rest => is_alnum_ascii c && (length rest <=? 63)
                 && forallb (λ c, is_alnum_ascii c || (c ∈s u "_.-")) rest
  | [] => false
  end.

Definition scope_ok (allowed : list pystr) (v : pyval) : bool :=
  match v with
  | PyList l =>
    match all_strs l with
    | Some ss => (1 <=? length ss) && (length ss <=? 3) && forallb (λ s, s ∈s allowed) ss && bool_decide (NoDup ss)
    | None => false
    end
  | _ => false
  end.

Record plan_totals := mkTotals { pt_ids : list pystr; pt_timeout : pyval; pt_output : Z }.

Definition check_plan_item (t : plan_totals) (v : pyval) : result plan_totals :=
  check ← _engineering_shape v ["check_id"; "kind"; "adapter"; "required"; "tool_sha256"; "parameters_sha256";
                                "timeout_seconds"; "output_limit_bytes"];
  match field check "check_id" with
  | PyStr identity =>
    _ ← demand (check_id_form identity && negb (identity ∈s pt_ids t)) "检查身份重复或无效";
    _ ← demand (str_in (field check "kind") [u "test"; u "lint"; u "build"] && is_bool (field check "required")) "检查类型无效";
    _ ← demand (str_in (field check "adapter")
                  (if is_lit (field check "kind") (u "test") then [u "unittest_summary_v1"; u "go_test_json_v1"]
                   else [u "exit_status_v1"])) "adapter 无效";
    _ ← each (λ k, _engineering_hash (field check k) false) ["tool_sha256"; "parameters_sha256"];
    let timeout := field check "timeout_seconds" in
    match field check "output_limit_bytes" with
    | PyInt limit =>
      _ ← demand (num_pos timeout && num_le timeout 1800 && (1 <=? limit)%Z && (limit <=? 8 * 1024 * 1024)%Z) "检查限额无效";
      Ok (mkTotals (identity :: pt_ids t) (num_add (pt_timeout t) timeout) (pt_output t + limit)%Z)
    | _ => Err (ValueError "engineering_verification 检查限额无效")
    end
  | _ => Err (ValueError "engineering_verification 检查身份重复或无效")
  end.

Definition required_test (v : pyval) : bool :=
  match v with PyDict c => is_true (field c "required") && is_lit (field c "kind") (u "test") | _ => false end.

Definition check_plan (v : pyval) : result (dict * list pyval) :=
  plan ← _engineering_shape v ["run_id"; "ticket_id"; "workspace_sha256"; "environment_sha256"; "steps"; "platforms"; "checks"];
  _ ← each (λ k, _engineering_text (field plan k) true 256) ["run_id"; "ticket_id"];
  _ ← each (λ k, _engineering_hash (field plan k) false) ["workspace_sha256"; "environment_sha256"];
  _ ← demand (scope_ok [u "task"; u "code"; u "deepcheck"] (field plan "steps")) "适用范围无效";
  _ ← demand (scope_ok [u "Linux"; u "Darwin"; u "Windows"] (field plan "platforms")) "适用范围无效";
  match field plan "checks" with
  | PyList checks =>
    _ ← demand ((1 <=? length checks) && (length checks <=? 16)) "检查数量无效";
    t ← foldM_res check_plan_item (mkTotals [] (PyInt 0) 0) checks;
    _ ← demand (num_le (pt_timeout t) 1800 && (pt_output t <=? 8 * 1024 * 1024)%Z && existsb required_test checks)
          "计划限额或必需测试无效";
    Ok (plan, checks)
  | _ => Err (ValueError "engineering_verification 检查数量无效")
  end.

(** ** The results *)
Record failure := mkFailure {
  fl_check_id : pyval; fl_kind : pyval; fl_status : pystr; fl_exit_code : pyval; fl_tests_passed : Z; fl_error : pyval
}.
Definition failure_value (f : failure) : pyval :=
  PyDict [(u "check_id", fl_check_id f); (u "kind", fl_kind f); (u "status", PyStr (fl_status f)); (u "exit_code", fl_exit_code f);
          (u "tests_passed", PyInt (fl_tests_passed f)); (u "error", fl_error f)].
Record progress := mkProgress { pg_unknown : bool; pg_failed : list failure; pg_stopped : bool }.

(** Every process and cache the check used is known to be gone. *)
Definition closed_run (r : dict) : bool :=
  is_true (field r "cleanup_ok") && is_true (field r "cache_owner_cleanup_confirmed")
  && (is_lit (field r "cleanup_scope") (u "job_tree") && negb (is_false (field r "scope_cleanup_ok"))
      && is_lit (field r "resource_channel_status") (u "not_required")
      && is_lit (field r "violation_observer_status") (u "not_required") && negb (py_truth (field r "resource_receipt_sha256"))
      || is_lit (field r "cleanup_scope") (u "linux_task_scope") && is_true (field r "scope_cleanup_ok")
         && is_lit (field r "resource_channel_status") (u "complete")
         && is_lit (field r "violation_observer_status") (u "complete") && py_truth (field r "resource_receipt_sha256")).

Definition result_fields : list string := [
  "check_id"; "status"; "exit_code"; "tests_passed"; "output_sha256"; "output_bytes"; "cleanup_ok"; "cleanup_scope";
  "cache_owner_cleanup_confirmed"; "scope_cleanup_ok"; "resource_channel_status"; "violation_observer_status";
  "resource_receipt_sha256"; "error"].

(** The closed form of one result. *)
Definition check_result_form (check r : dict) : result unit :=
  _ ← demand (py_eq (field r "check_id") (field check "check_id") && str_in (field r "status") _ENGINEERING_CHECK_STATUSES)
        "结果身份或状态无效";
  _ ← demand (match field r "exit_code" with
              | PyNone => true | v => int_within _ENGINEERING_MIN_EXIT_CODE _ENGINEERING_MAX_EXIT_CODE v end) "退出码无效";
  _ ← demand (int_within 0 10000000 (field r "tests_passed")
              && (is_lit (field check "kind") (u "test") || py_eq (field r "tests_passed") (PyInt 0))) "测试计数无效";
  _ ← demand (match field check "output_limit_bytes" with PyInt limit => int_within 0 limit (field r "output_bytes") | _ => false end)
        "输出限额无效";
  _ ← each (λ k, _engineering_hash (field r k) true) ["output_sha256"; "resource_receipt_sha256"];
  _ ← each (λ k, demand (bool_or_none (field r k)) "清理状态无效") ["cleanup_ok"; "scope_cleanup_ok"; "cache_owner_cleanup_confirmed"];
  _ ← demand (str_in (field r "cleanup_scope") [u "unknown"; u "not_started"; u "process_group"; u "job_tree"; u "linux_task_scope"])
        "清理范围无效";
  _ ← each (λ k, demand (str_in (field r k) [u "not_required"; u "complete"; u "incomplete"]) "通道状态无效")
        ["resource_channel_status"; "violation_observer_status"];
  demand (str_in (field r "error") _ENGINEERING_FIXED_ERRORS) "固定错误无效".

Definition check_result (p : progress) (cr : pyval * pyval) : result progress :=
  r ← _engineering_shape cr.2 result_fields;
  let check := match cr.1 with PyDict c => c | _ => [] end in
  _ ← check_result_form check r;
  let status := match field r "status" with PyStr s => s | _ => [] end in
  let code := field r "exit_code" in
  let count := match field r "tests_passed" with PyInt z => z | _ => 0%Z end in
  let evidence := py_truth (field r "output_sha256") in
  let nothing := negb (Z.eqb count 0) || evidence || py_truth (field r "output_bytes") in
  _ ← demand (negb (pg_stopped p && (status ≠s u "not_run"))) "首败后仍执行检查";
  if status =s u "not_run" then
    _ ← demand (match code with PyNone => negb nothing | _ => false end) "未运行检查含结果信用";
    Ok (mkProgress (pg_unknown p) (pg_failed p) true)
  else
    let complete := (status =s u "passed") || (status =s u "failed") in
    _ ← (if complete then
           _ ← demand (match code with PyNone => false | _ => evidence end) "完整结果缺退出或输出";
           let expected_pass := py_eq code (PyInt 0) && (negb (is_lit (field check "kind") (u "test")) || (0 <? count)%Z) in
           demand (Bool.eqb (status =s u "passed") expected_pass && negb ((status =s u "failed") && negb (Z.eqb count 0)))
             "passed/exit/count 矛盾"
         else demand (negb nothing) "未知执行含完整结果信用");
    let unknown := pg_unknown p || negb (closed_run r) || negb complete || py_truth (field r "error") in
    if status =s u "passed" then Ok (mkProgress unknown (pg_failed p) (pg_stopped p))
    else Ok (mkProgress unknown
               (pg_failed p ++ [mkFailure (field check "check_id") (field check "kind") status code count (field r "error")]) true).

(** ** The receipt *)
Record observed := mkObserved {
  ob_row : dict; ob_binding : dict; ob_plan : dict; ob_run : dict; ob_failed : list failure;
  ob_category : pystr; ob_passed : bool; ob_exit_code : pyval
}.

Definition check_binding (v : pyval) : result dict :=
  binding ← _engineering_shape v (_ENGINEERING_BINDING_TEXT_FIELDS
                                  ++ ["exit_code"; "command_sha256"; "artifact_hashes_sha256"; "output_sha256"]);
  _ ← each (λ k, _engineering_text (field binding k) (bool_decide (k ∈ ["step"; "attempt"; "execution_attempt"]%string)) 8192)
        _ENGINEERING_BINDING_TEXT_FIELDS;
  _ ← each (λ k, _engineering_hash (field binding k) false) ["command_sha256"; "artifact_hashes_sha256"; "output_sha256"];
  _ ← demand (match field binding "exit_code" with PyNone | PyInt _ => true | _ => false end) "exit_code 无效";
  Ok binding.

Definition sources_differ (run : dict) : bool :=
  negb (py_truth (field run "source_before")) || negb (py_truth (field run "source_after"))
  || negb (py_eq (field run "source_before") (field run "source_after")).

Definition check_run (binding plan : dict) (v : pyval) : result dict :=
  run ← _engineering_shape v ["plan_digest"; "step"; "attempt"; "status"; "source_before"; "source_after"; "os_enforced"; "checks"];
  _ ← _engineering_hash (field run "plan_digest") false;
  _ ← each (λ k, _engineering_text (field run k) true 256) ["step"; "attempt"];
  _ ← demand (py_eq (field run "step") (field binding "step")
              && match field plan "steps" with PyList steps => existsb (py_eq (field run "step")) steps | _ => false end
              && py_eq (field run "attempt") (field binding "execution_attempt")) "执行身份不一致";
  _ ← each (λ k, _engineering_hash (field run k) true) ["source_before"; "source_after"];
  _ ← demand (py_eq (field binding "tested_worktree_fingerprint") (field run "source_after")) "受测源码绑定不一致";
  _ ← demand (str_in (field run "status") _ENGINEERING_RUN_STATUSES && is_bool (field run "os_enforced")) "执行状态无效";
  _ ← demand (negb (is_lit (field run "status") (u "passed") && py_truth (field run "source_before")
                    && py_truth (field run "source_after")
                    && negb (py_eq (field run "source_before") (field run "source_after")))) "passed 与源码变化矛盾";
  Ok run.

Definition result_passed (v : pyval) : bool := match v with PyDict r => is_lit (field r "status") (u "passed") | _ => false end.
(** [next((f["exit_code"] for f in failed if ... is not None), None)] *)
Definition first_exit_code (failed : list failure) : pyval :=
  match filter (λ f, negb (match fl_exit_code f with PyNone => true | _ => false end)) failed with
  | f :: _ => fl_exit_code f | [] => PyNone
  end.

(** Everything before the digests. *)
Definition observe (receipt : pyval) : result observed :=
  row ← _engineering_shape receipt ["kind"; "schema_version"; "coverage"; "binding"; "public_plan"; "public_projection_digest"; "run";
                                    "category"; "passed"; "fingerprint"; "repair_fingerprint"];
  _ ← demand (is_lit (field row "kind") (u "engineering_verification")
              && bool_decide (as_exact_int (field row "schema_version") = Some 1%Z)) "schema_version 必须为严格整数 1";
  _ ← demand (py_eq (field row "coverage") (PyDict _ENGINEERING_COVERAGE)) "coverage 无效";
  binding ← check_binding (field row "binding");
  pc ← check_plan (field row "public_plan");
  run ← check_run binding pc.1 (field row "run");
  match field run "checks" with
  | PyList results =>
    _ ← demand (length results =? length pc.2) "结果数量不一致";
    p ← foldM_res check_result (mkProgress (sources_differ run) [] false) (zip pc.2 results);
    let all_passed := forallb result_passed results in
    let status := field run "status" in
    _ ← demand (negb (is_lit status (u "passed") && negb all_passed)
                && negb (is_lit status (u "failed") && match pg_failed p with [] => true | _ => false end)) "聚合状态矛盾";
    let unknown := pg_unknown p || negb (str_in status [u "passed"; u "failed"]) in
    let passed := is_lit status (u "passed") && all_passed && negb unknown in
    Ok (mkObserved row binding pc.1 run (pg_failed p)
          (if unknown then u "side_effect_unknown" else match pg_failed p with [] => u "test" | _ => u "code" end)
          passed (if passed then PyInt 0 else first_exit_code (pg_failed p)))
  | _ => Err (ValueError "engineering_verification 结果数量不一致")
  end.

Section digests.
Context `{FloatRepr}.

Definition _engineering_digest (value : pyval) : result pystr := sha256_text value.

Definition without (keys : list string) (d : dict) : dict := filter (λ p, p.1 ∉ u <$> keys) d.

Record receipt_values := mkReceiptValues {
  rv_projection : pystr; rv_fingerprint : pystr; rv_repair : pystr; rv_category : pystr; rv_passed : bool; rv_exit_code : pyval
}.

Definition audit_material (o : observed) : pyval :=
  PyDict [(u "domain", PyStr (u "icode.engineering.audit.v1")); (u "schema_version", PyInt 1);
          (u "coverage", field (ob_row o) "coverage");
          (u "binding", PyDict (without ["attempt"; "execution_attempt"; "captured_at"; "result_commit_checked_at"] (ob_binding o)));
          (u "public_plan", PyDict (ob_plan o)); (u "run", PyDict (without ["attempt"] (ob_run o)));
          (u "category", PyStr (ob_category o)); (u "passed", PyBool (ob_passed o))].
Definition repair_material (o : observed) : pyval :=
  PyDict [(u "domain", PyStr (u "icode.engineering.repair.v1")); (u "schema_version", PyInt 1); (u "step", field (ob_run o) "step");
          (u "public_plan", PyDict (without ["run_id"; "ticket_id"] (ob_plan o)));
          (u "source_before", field (ob_run o) "source_before"); (u "source_after", field (ob_run o) "source_after");
          (u "binding", PyDict ((λ k, (u k, field (ob_binding o) k)) <$> _ENGINEERING_REPAIR_BINDING_FIELDS));
          (u "status", field (ob_run o) "status"); (u "category", PyStr (ob_category o));
          (u "failures", PyList (failure_value <$> ob_failed o))].

Definition engineering_receipt_values (receipt : pyval) : result receipt_values :=
  o ← observe receipt;
  projection ← _engineering_digest (PyDict (ob_plan o));
  fingerprint ← _engineering_digest (audit_material o);
  repair ← _engineering_digest (repair_material o);
  Ok (mkReceiptValues projection fingerprint repair (ob_category o) (ob_passed o) (ob_exit_code o)).

(** [None]: a receipt of another kind carries no engineering credit. *)
Definition validate_engineering_receipt (receipt : pyval) (expected_ticket_id : option pystr) : result (option receipt_values) :=
  match receipt with
  | PyDict d =>
    if is_lit (field d "kind") (u "engineering_verification") then
      values ← engineering_receipt_values receipt;
      let plan := match field d "public_plan" with PyDict p => p | _ => [] end in
      let binding := match field d "binding" with PyDict b => b | _ => [] end in
      _ ← demand (match expected_ticket_id with Some t => is_lit (field plan "ticket_id") t | None => true end) "ticket_id 与工单不一致";
      _ ← demand (py_eq (field binding "exit_code") (rv_exit_code values)
                  && is_lit (field d "public_projection_digest") (rv_projection values)
                  && is_lit (field d "fingerprint") (rv_fingerprint values)
                  && is_lit (field d "repair_fingerprint") (rv_repair values)
                  && is_lit (field d "category") (rv_category values)
                  && (if rv_passed values then is_true else is_false) (field d "passed")) "语义或摘要不一致";
      Ok (Some values)
    else Ok None
  | _ => Ok None
  end.

(** [load_verifications_json] of the decoded text: two containers more than a
    receipt may have. *)
Definition load_verifications_json (text : pystr) (expected_ticket_id : option pystr) : result dict :=
  _ ← _check_json_structural_token_budget (Some (_MAX_JSON_CONTAINER_DEPTH + 2)) text;
  value ← loads strict_loads text;
  d ← _engineering_shape value ["schema_version"; "receipts"];
  match field d "receipts" with
  | PyList receipts =>
    _ ← raise_if (negb (bool_decide (as_exact_int (field d "schema_version") = Some 1%Z)
                        && (N.of_nat (length receipts) <=? _MAX_VERIFICATION_RECEIPTS)%N))
          (ValueError "verifications.json 包装结构无效");
    _ ← foldM_res (λ (_ : unit) receipt,
                     _ ← _reject_non_interoperable_values receipt;
                     _ ← validate_engineering_receipt receipt expected_ticket_id; Ok ()) () receipts;
    Ok d
  | _ => Err (ValueError "verifications.json 包装结构无效")
  end.
End digests.

(** ** What a receipt that passes stands for *)
(** One result that counts for a pass. *)
Record clear_result (check r : dict) : Prop := mkClear {
  cl_id : field r "check_id" = field check "check_id";
  cl_status : field r "status" = PyStr (u "passed");
  cl_exit : field r "exit_code" = PyInt 0;
  cl_tests : field check "kind" = PyStr (u "test") → ∃ n, field r "tests_passed" = PyInt n ∧ (0 < n)%Z;
  cl_output : ∃ h, field r "output_sha256" = PyStr h ∧ hex64 h = true;
  cl_closed : closed_run r = true;
  cl_error : field r "error" = PyStr []
}.

Definition clear_pair (cv rv : pyval) : Prop := ∃ c r, cv = PyDict c ∧ rv = PyDict r ∧ clear_result c r.

(** A run that counts for a pass: it says so, the source did not change, every
    check of the plan has a clear result and a required one is a test. *)
Record clear_run (o : observed) : Prop := mkClearRun {
  cr_status : field (ob_run o) "status" = PyStr (u "passed");
  cr_source : ∃ h, field (ob_run o) "source_before" = PyStr h ∧ field (ob_run o) "source_after" = PyStr h ∧ hex64 h = true;
  cr_results : ∃ checks results, field (ob_plan o) "checks" = PyList checks ∧ field (ob_run o) "checks" = PyList results ∧
    Forall2 clear_pair checks results ∧
    ∃ c, PyDict c ∈ checks ∧ field c "required" = PyBool true ∧ field c "kind" = PyStr (u "test")
}.

Lemma demand_ok b msg : demand b msg = Ok () ↔ b = true.
Proof. unfold demand. by rewrite raise_if_ok, negb_false_iff. Qed.
Lemma demand_unit b msg t : demand b msg = Ok t → b = true.
Proof. destruct t. apply demand_ok. Qed.
(** The next statement of a run that succeeded. *)
Ltac next H :=
  let H1 := fresh "S" in apply bind_ok in H as (? & H1 & H); try apply demand_unit in H1.

Lemma shape_ok v fields d : _engineering_shape v fields = Ok d → v = PyDict d ∧ exact_fields fields d = true.
Proof.
  unfold _engineering_shape. destruct v; try discriminate. intros H. next H. apply Ok_inj in H as <-. done.
Qed.
Lemma hash_ok v e t : _engineering_hash v e = Ok t → ∃ s, v = PyStr s ∧ (s = [] ∧ e = true ∨ hex64 s = true).
Proof.
  intros H%demand_unit. apply str_test_iff in H as (s & -> & Hs). exists s. split; [done|].
  apply orb_true_iff in Hs as [Hs|]; [|by right]. apply andb_true_iff in Hs as [-> Hs]. left. by apply bool_decide_eq_true in Hs.
Qed.
Lemma each_ok f ks t : each f ks = Ok t → ∀ k, k ∈ ks → ∃ t, f k = Ok t.
Proof.
  induction ks as [|k0 ks IH]; cbn [each]; [by intros _ k ?%not_elem_of_nil|].
  intros H. apply bind_ok in H as (t0 & H0 & H). intros k [->|Hk]%elem_of_cons; [by exists t0|by apply IH].
Qed.

Record result_form (check r : dict) : Prop := mkResultForm {
  rf_id : py_eq (field r "check_id") (field check "check_id") = true;
  rf_code : field r "exit_code" = PyNone ∨ ∃ z, field r "exit_code" = PyInt z;
  rf_count : ∃ z, field r "tests_passed" = PyInt z;
  rf_output : ∃ s, field r "output_sha256" = PyStr s ∧ (s = [] ∨ hex64 s = true);
  rf_error : ∃ s, field r "error" = PyStr s
}.
Lemma result_form_ok check r t : check_result_form check r = Ok t → result_form check r.
Proof.
  unfold check_result_form. intros H. next H. next H. next H. next H. next H. next H. next H. next H. apply demand_unit in H.
  apply andb_true_iff in S as [S _]. split.
  - exact S.
  - destruct (field r "exit_code"); try discriminate; [by left|right; by eexists].
  - apply andb_true_iff in S1 as [S1 _]. destruct (field r "tests_passed"); try discriminate. by eexists.
  - destruct (each_ok _ _ _ S3 "output_sha256"%string) as (t' & Ht); [by_compute|].
    apply hash_ok in Ht as (s & Hs & [[-> _]|Hx]); exists s || exists []; (split; [exact Hs|]); [by left|by right].
  - apply str_in_iff in H as (s & Hs & _). by exists s.
Qed.

Lemma py_eq_int v n : v = PyNone ∨ (∃ z, v = PyInt z) → py_eq v (PyInt n) = true → v = PyInt n.
Proof. intros [-> | (z0 & ->)]; cbn; [done|]. intros H. f_equal. by apply Z.eqb_eq in H. Qed.

(** A passed result, and what it adds to the doubts. *)
Lemma check_result_passed p check s rv p' :
  field check "check_id" = PyStr s → check_result p (PyDict check, rv) = Ok p' →
  result_passed rv = true ∧ pg_unknown p' = false ↔ pg_unknown p = false ∧ clear_pair (PyDict check) rv.
Proof.
  intros Hid. unfold check_result. cbn [fst snd]. intros H. apply bind_ok in H as (r & Hr & H). apply shape_ok in Hr as [-> _].
  next H. apply result_form_ok in S as [F1 F2 F3 F4 F5]. destruct F3 as (n & Hn). destruct F4 as (h & Hh & Hhex). destruct F5 as (er & Hx).
  rewrite Hid, py_eq_str, is_lit_iff, <-Hid in F1. cbn [result_passed]. rewrite is_lit_iff.
  destruct (is_lit (field r "status") (u "passed")) eqn:Hp; [apply is_lit_iff in Hp|].
  2: { assert (Hn' : field r "status" ≠ PyStr (u "passed")) by (intros E; by rewrite (proj2 (is_lit_iff _ _) E) in Hp).
       split; [by intros []|]. intros (_ & c & r' & [= <-] & [= <-] & []). done. }
  rewrite Hp, Hn, Hh, Hx in H. cbn [py_truth] in H. next H.
  rewrite (bool_decide_eq_false_2 (u "passed" = u "not_run")) in H by by_compute.
  rewrite (bool_decide_eq_true_2 (u "passed" = u "passed")) in H by reflexivity. cbn [orb negb] in H.
  next H. next S0. apply Ok_inj in H as <-. apply demand_unit in S0. cbn [pg_unknown].
  apply andb_true_iff in S0 as [S0 _]. apply eqb_prop in S0. symmetry in S0. apply andb_true_iff in S0 as [Hc Ht].
  rewrite orb_false_r, !orb_false_iff, !negb_false_iff. apply py_eq_int in Hc; [|exact F2].
  rewrite Hc in S1. apply negb_true_iff, bool_decide_eq_false in S1. split.
  - intros (_ & (Hu & Hcl) & He%bool_decide_eq_true). split; [exact Hu|]. exists check, r. split_and!; [done..|].
    split; [done..| |by exists h; destruct Hhex|done|by subst].
    intros Hk. exists n. split; [exact Hn|]. rewrite Hk in Ht. cbn in Ht. by apply Z.ltb_lt in Ht.
  - intros (Hu & c & r' & [= <-] & [= <-] & []). split_and!; [done..|]. apply bool_decide_eq_true.
    rewrite Hx in cl_error0. by injection cl_error0.
Qed.

Lemma check_results_passed checks results : ∀ p p',
  Forall (λ v, ∃ c s, v = PyDict c ∧ field c "check_id" = PyStr s) checks → length results = length checks →
  foldM_res check_result p (zip checks results) = Ok p' →
  forallb result_passed results = true ∧ pg_unknown p' = false ↔ pg_unknown p = false ∧ Forall2 clear_pair checks results.
Proof.
  revert results. induction checks as [|cv checks IH]; intros [|rv results] p p' Hall Hlen H; try done.
  { apply Ok_inj in H as <-. cbn. split; intros []; by split. }
  apply Forall_cons in Hall as [(c & s & -> & Hs) Hall]. cbn in H. apply bind_ok in H as (p1 & H1 & H).
  pose proof (check_result_passed _ _ _ _ _ Hs H1) as E1.
  pose proof (IH _ _ _ Hall (Nat.succ_inj _ _ Hlen) H) as E2. cbn [forallb]. rewrite andb_true_iff, Forall2_cons. tauto.
Qed.

Lemma plan_item_ok t v t' : check_plan_item t v = Ok t' → ∃ c s, v = PyDict c ∧ field c "check_id" = PyStr s.
Proof.
  unfold check_plan_item. intros H. apply bind_ok in H as (c & Hc & H). apply shape_ok in Hc as [-> _].
  exists c. destruct (field c "check_id"); try discriminate. by eexists.
Qed.
Lemma plan_items_ok checks : ∀ t t', foldM_res check_plan_item t checks = Ok t' →
  Forall (λ v, ∃ c s, v = PyDict c ∧ field c "check_id" = PyStr s) checks.
Proof.
  induction checks as [|v checks IH]; intros t t' H; [constructor|]. cbn in H. apply bind_ok in H as (t1 & H1 & H).
  constructor; [by eapply plan_item_ok|by eapply IH].
Qed.
Lemma check_plan_ok v plan checks : check_plan v = Ok (plan, checks) →
  field plan "checks" = PyList checks ∧ Forall (λ v, ∃ c s, v = PyDict c ∧ field c "check_id" = PyStr s) checks ∧
  ∃ c, PyDict c ∈ checks ∧ field c "required" = PyBool true ∧ field c "kind" = PyStr (u "test").
Proof.
  unfold check_plan. intros H. do 5 next H. destruct (field x "checks") as [| | | | |l| | |] eqn:El; try discriminate.
  next H. apply bind_ok in H as (t & Ht & H). next H. apply Ok_inj in H as [= <- <-].
  split; [exact El|]. split; [by eapply plan_items_ok|]. apply andb_true_iff in S5 as [_ Hr].
  apply existsb_Exists in Hr as (v' & Hv & Hr). destruct v'; try discriminate. exists d. split; [exact Hv|].
  cbn in Hr. apply andb_true_iff in Hr as [Hr Hk]. apply is_lit_iff in Hk. split; [|exact Hk]. by destruct (field d "required") as [|[]| | | | | | |].
Qed.

Lemma check_run_ok binding plan v run : check_run binding plan v = Ok run →
  (∃ s, field run "source_before" = PyStr s ∧ (s = [] ∨ hex64 s = true)) ∧ (∃ s, field run "source_after" = PyStr s).
Proof.
  unfold check_run. intros H. do 8 next H. apply Ok_inj in H as <-.
  destruct (each_ok _ _ _ S3 "source_before"%string) as (t & Ht); [by_compute|].
  destruct (each_ok _ _ _ S3 "source_after"%string) as (t' & Ht'); [by_compute|].
  apply hash_ok in Ht as (s & Hs & Hx), Ht' as (s' & Hs' & _). split; [exists s|by exists s'].
  split; [exact Hs|]. destruct Hx as [[]|]; auto.
Qed.

Lemma sources_agree run s s' : field run "source_before" = PyStr s → field run "source_after" = PyStr s' →
  s = [] ∨ hex64 s = true → sources_differ run = false ↔ s = s' ∧ hex64 s = true.
Proof.
  intros E E' Hs. unfold sources_differ. rewrite E, E', py_eq_str. cbn [py_truth is_lit].
  rewrite !orb_false_iff, !negb_false_iff, !negb_true_iff, !bool_decide_eq_false, bool_decide_eq_true. split.
  - intros [[]]. destruct Hs; [done|]. done.
  - intros [-> Hh]. assert (s' ≠ []) by (intros ->; discriminate Hh). done.
Qed.

(** A receipt the checks accept counts as passed exactly when its run is clear. *)
Lemma observe_passed_iff receipt o : observe receipt = Ok o → ob_passed o = true ↔ clear_run o.
Proof.
  unfold observe. intros H. do 4 next H. apply bind_ok in H as ([plan checks] & Hplan & H). apply bind_ok in H as (run & Hrun & H).
  apply check_plan_ok in Hplan as (Hchecks & Hids & Hreq). apply check_run_ok in Hrun as ((s & Hb & Hs) & s' & Ha). cbn [fst snd] in H.
  destruct (field run "checks") as [| | | | |results| | |] eqn:Hresults; try discriminate. next H. apply bind_ok in H as (p & Hp & H).
  next H. apply Ok_inj in H as <-. cbn [ob_passed]. apply Nat.eqb_eq in S3.
  pose proof (check_results_passed _ _ _ _ Hids S3 Hp) as Hall. cbn [pg_unknown] in Hall.
  rewrite (sources_agree _ _ _ Hb Ha Hs) in Hall.
  rewrite !andb_true_iff, negb_true_iff, orb_false_iff, negb_false_iff, is_lit_iff. split.
  - intros ((Hst & Hpassed) & Hun & _). destruct (proj1 Hall (conj Hpassed Hun)) as ((<- & Hhex) & Hc).
    split; cbn; [done|by exists s|by exists checks, results].
  - intros [Hst (h & Hh & Hh' & Hhex) (checks' & results' & Hc & Hr & Hall' & _)]. cbn in *.
    assert (checks' = checks) as -> by congruence. assert (results' = results) as -> by congruence.
    destruct (proj2 Hall) as [Hpassed Hun]. { split; [|done]. split; congruence. }
    rewrite Hst. split_and!; [done|done|done|by vm_compute].
Qed.

Lemma observe_exit_code receipt o : observe receipt = Ok o → ob_passed o = true → ob_exit_code o = PyInt 0.
Proof.
  unfold observe. intros H. do 4 next H. apply bind_ok in H as ([plan checks] & Hplan & H). apply bind_ok in H as (run & Hrun & H).
  cbn [fst snd] in H. destruct (field run "checks") as [| | | | |results| | |]; try discriminate. next H.
  apply bind_ok in H as (p & Hp & H). next H. apply Ok_inj in H as <-. cbn [ob_passed ob_exit_code]. by intros ->.
Qed.

Lemma binding_ok v b : check_binding v = Ok b →
  v = PyDict b ∧ (field b "exit_code" = PyNone ∨ ∃ z, field b "exit_code" = PyInt z).
Proof.
  unfold check_binding. intros H. apply bind_ok in H as (b' & Hb & H). apply shape_ok in Hb as [-> _]. do 3 next H.
  apply Ok_inj in H as <-. split; [done|]. destruct (field b' "exit_code"); try discriminate; [by left|right; by eexists].
Qed.
Lemma plan_ok v plan checks : check_plan v = Ok (plan, checks) → v = PyDict plan.
Proof.
  unfold check_plan. intros H. apply bind_ok in H as (d & Hd & H). apply shape_ok in Hd as [-> _]. do 4 next H.
  destruct (field d "checks"); try discriminate. next H. next H. next H. by apply Ok_inj in H as [= <- _].
Qed.
Lemma observe_parts d o : observe (PyDict d) = Ok o → field d "public_plan" = PyDict (ob_plan o) ∧ field d "binding" = PyDict (ob_binding o) ∧
  (field (ob_binding o) "exit_code" = PyNone ∨ ∃ z, field (ob_binding o) "exit_code" = PyInt z).
Proof.
  unfold observe. intros H. apply bind_ok in H as (row & Hrow & H). apply shape_ok in Hrow as [[= <-] _]. next H. next H.
  apply bind_ok in H as (b & Hb & H). apply bind_ok in H as ([plan checks] & Hplan & H). apply bind_ok in H as (run & Hrun & H).
  cbn [fst snd] in H. destruct (field run "checks") as [| | | | |results| | |]; try discriminate. next H.
  apply bind_ok in H as (p & Hp & H). next H. apply Ok_inj in H as <-. cbn. split; [by eapply plan_ok|by apply binding_ok].
Qed.

(** *** The exit code that is recorded *)
(** A check that ran and did not pass. *)
Definition failing (v : pyval) : bool :=
  match v with PyDict r => negb (is_lit (field r "status") (u "passed")) && negb (is_lit (field r "status") (u "not_run")) | _ => false end.
Definition exit_of (v : pyval) : pyval := match v with PyDict r => field r "exit_code" | _ => PyNone end.
Definition present (v : pyval) : bool := match v with PyNone => false | _ => true end.
Definition first_present (vs : list pyval) : pyval := default PyNone (head (filter (λ v, present v = true) vs)).
(** The first exit code there is, of the checks that ran and did not pass. *)
Definition recorded_exit (results : list pyval) : pyval := first_present (exit_of <$> filter (λ v, failing v = true) results).

Lemma first_exit_code_present failed : first_exit_code failed = first_present (fl_exit_code <$> failed).
Proof.
  unfold first_exit_code, first_present. induction failed as [|f fs IH]; [done|]. rewrite fmap_cons, !filter_cons.
  destruct (fl_exit_code f) eqn:E; cbn [present negb]; repeat case_decide; try done; cbn; by rewrite E.
Qed.

Lemma check_result_failed p cv rv p' : check_result p (cv, rv) = Ok p' →
  fl_exit_code <$> pg_failed p' = (fl_exit_code <$> pg_failed p) ++ (exit_of <$> filter (λ v, failing v = true) [rv]) ∧
  (exit_of rv = PyNone ∨ ∃ z, exit_of rv = PyInt z).
Proof.
  unfold check_result. cbn [fst snd]. intros H. apply bind_ok in H as (r & Hr & H). apply shape_ok in Hr as [-> _].
  next H. pose proof (rf_code _ _ (result_form_ok _ _ _ S)) as Hc. split; [|exact Hc]. clear Hc.
  unfold check_result_form in S. next S. apply andb_true_iff in S0 as [_ Hs]. apply str_in_iff in Hs as (t & Ht & _).
  rewrite Ht in H. rewrite filter_cons, filter_nil. cbn [failing is_lit]. rewrite Ht. cbn [is_lit].
  next H. destruct (bool_decide (t = u "not_run")) eqn:En.
  { next H. apply Ok_inj in H as <-. rewrite andb_false_r, decide_False by done. by rewrite app_nil_r. }
  next H. rewrite andb_true_r. destruct (bool_decide (t = u "passed")) eqn:Ep; apply Ok_inj in H as <-; cbn [pg_failed negb].
  - rewrite decide_False by done. by rewrite app_nil_r.
  - rewrite decide_True by done. by rewrite fmap_app.
Qed.

Lemma check_results_failed checks results : ∀ p p', length results = length checks →
  foldM_res check_result p (zip checks results) = Ok p' →
  fl_exit_code <$> pg_failed p' = (fl_exit_code <$> pg_failed p) ++ (exit_of <$> filter (λ v, failing v = true) results) ∧
  Forall (λ v, exit_of v = PyNone ∨ ∃ z, exit_of v = PyInt z) results.
Proof.
  revert results. induction checks as [|cv checks IH]; intros [|rv results] p p' Hlen H; try done.
  { apply Ok_inj in H as <-. by rewrite app_nil_r. }
  cbn in H. apply bind_ok in H as (p1 & H1 & H). apply check_result_failed in H1 as [E1 F1].
  destruct (IH _ _ _ (Nat.succ_inj _ _ Hlen) H) as [E2 F2]. split; [|by constructor].
  rewrite E2, E1, <-app_assoc, <-fmap_app, <-filter_app. done.
Qed.

Lemma recorded_form results : Forall (λ v, exit_of v = PyNone ∨ ∃ z, exit_of v = PyInt z) results →
  recorded_exit results = PyNone ∨ ∃ z, recorded_exit results = PyInt z.
Proof.
  unfold recorded_exit, first_present. induction 1 as [|v vs Hv _ IH]; [by left|].
  rewrite filter_cons. case_decide; [|exact IH]. rewrite fmap_cons, filter_cons. case_decide; [|exact IH]. exact Hv.
Qed.

(** The parts of the receipt that were observed, and the exit code. *)
Record of_receipt (d : dict) (o : observed) : Prop := mkOfReceipt {
  or_plan : field d "public_plan" = PyDict (ob_plan o);
  or_binding : field d "binding" = PyDict (ob_binding o);
  or_run : field d "run" = PyDict (ob_run o);
  or_coverage : ob_row o = d
}.
Lemma run_dict binding plan v run : check_run binding plan v = Ok run → v = PyDict run.
Proof. unfold check_run. intros H. apply bind_ok in H as (r & Hr & H). apply shape_ok in Hr as [-> _]. do 7 next H. by apply Ok_inj in H as <-. Qed.
Lemma observe_receipt d o : observe (PyDict d) = Ok o → of_receipt d o ∧
  ∃ results, field (ob_run o) "checks" = PyList results ∧
    ob_exit_code o = (if ob_passed o then PyInt 0 else recorded_exit results) ∧
    (ob_exit_code o = PyNone ∨ ∃ z, ob_exit_code o = PyInt z).
Proof.
  intros Ho. destruct (observe_parts _ _ Ho) as (Hp & Hb & _). revert Ho.
  unfold observe. intros H. apply bind_ok in H as (row & Hrow & H). apply shape_ok in Hrow as [[= <-] _]. next H. next H.
  apply bind_ok in H as (b & _ & H). apply bind_ok in H as ([plan checks] & _ & H). apply bind_ok in H as (run & Hrun & H).
  cbn [fst snd] in H. apply run_dict in Hrun. destruct (field run "checks") as [| | | | |results| | |] eqn:Er; try discriminate. next H.
  apply bind_ok in H as (p & Hf & H). next H. apply Ok_inj in H as <-. cbn [ob_plan ob_binding] in Hp, Hb.
  split; [by split|]. exists results. cbn [ob_run ob_exit_code ob_passed]. split; [exact Er|].
  apply Nat.eqb_eq in S1. destruct (check_results_failed _ _ _ _ S1 Hf) as [E F]. cbn [pg_failed fmap list_fmap app] in E.
  rewrite first_exit_code_present, E. split; [done|]. destruct (_ && _ && _); [right; by eexists|by apply recorded_form].
Qed.

Lemma py_eq_exit v w : v = PyNone ∨ (∃ z, v = PyInt z) → w = PyNone ∨ (∃ z, w = PyInt z) → py_eq v w = true → v = w.
Proof.
  intros Hv [->|(n & ->)]; [|by apply py_eq_int]. destruct Hv as [->|(z & ->)]; [done|]. discriminate.
Qed.

(** What a receipt for [ticket] with these observations and results must say. *)
Record self_consistent `{FloatRepr} (d : dict) (ticket : pystr) (o : observed) (results : list pyval) : Prop := mkConsistent {
  sc_parts : of_receipt d o;
  sc_results : field (ob_run o) "checks" = PyList results;
  sc_ticket : field (ob_plan o) "ticket_id" = PyStr ticket;
  sc_passed : field d "passed" = PyBool (ob_passed o);
  sc_clear : ob_passed o = true ↔ clear_run o;
  sc_category : field d "category" = PyStr (ob_category o);
  sc_exit : field (ob_binding o) "exit_code" = (if ob_passed o then PyInt 0 else recorded_exit results);
  sc_projection : ∃ h, sha256_text (PyDict (ob_plan o)) = Ok h ∧ field d "public_projection_digest" = PyStr h;
  sc_fingerprint : ∃ h, sha256_text (audit_material o) = Ok h ∧ field d "fingerprint" = PyStr h;
  sc_repair : ∃ h, sha256_text (repair_material o) = Ok h ∧ field d "repair_fingerprint" = PyStr h
}.

(** C24: an engineering receipt the verifier accepts for a ticket claims of itself
    nothing but what its own observations give.  Its plan is of that ticket; it is
    labelled as passed exactly when its run is clear: every check of the plan, in
    order, passed with exit code zero and recorded output, a test having run at
    least one test, every process and cache accounted for, no error, the source
    the same before and after, a required check of the plan being a test.  Its
    category is the one derived; its binding's exit code is zero when it passed,
    and else the first one recorded by a check that ran and did not pass; and its
    three digests are the SHA-256 of its plan, of what is audited and of what a
    repair goes by. *)
Theorem accepted_receipt_verdict `{FloatRepr} d ticket v :
  validate_engineering_receipt (PyDict d) (Some ticket) = Ok (Some v) →
  ∃ o results, observe (PyDict d) = Ok o ∧ self_consistent d ticket o results.
Proof.
  unfold validate_engineering_receipt. destruct (is_lit (field d "kind") _); [|discriminate].
  intros H0. apply bind_ok in H0 as (rv & Hrv & H0). apply bind_ok in Hrv as (o & Ho & Hrv).
  destruct (observe_receipt _ _ Ho) as (Hof & results & Hr & Hexit & Hform). exists o, results.
  destruct (observe_parts _ _ Ho) as (Hp & Hb & Hx'). rewrite Hp, Hb in H0. next H0. next H0. apply is_lit_iff in S.
  apply bind_ok in Hrv as (h1 & D1 & Hrv). apply bind_ok in Hrv as (h2 & D2 & Hrv). apply bind_ok in Hrv as (h3 & D3 & Hrv).
  apply Ok_inj in Hrv as <-. cbn [rv_passed rv_exit_code rv_projection rv_fingerprint rv_repair rv_category] in S0.
  rewrite !andb_true_iff, !is_lit_iff in S0. destruct S0 as [[[[[Hx E1] E2] E3] E4] Hpass].
  apply (py_eq_exit _ _ Hx' Hform) in Hx. rewrite Hexit in Hx.
  split; [exact Ho|]. split; [exact Hof|exact Hr|exact S| |exact (observe_passed_iff _ _ Ho)|exact E4|exact Hx|by exists h1|by exists h2|by exists h3].
  by destruct (ob_passed o), (field d "passed") as [|[]| | | | | | |].
Qed.

(** ** A sample receipt *)
Module ReceiptSample.
Definition hash64 (c : N) : pystr := replicate 64 (48 + c)%N.
Definition text (s : string) : pyval := PyStr (u s).
Definition unit_check : dict := [
  (u "check_id", text "unit"); (u "kind", text "test"); (u "adapter", text "unittest_summary_v1"); (u "required", PyBool true);
  (u "tool_sha256", PyStr (hash64 1)); (u "parameters_sha256", PyStr (hash64 2)); (u "timeout_seconds", PyInt 60);
  (u "output_limit_bytes", PyInt 4096)].
Definition unit_result (status : string) (code count : Z) : dict := [
  (u "check_id", text "unit"); (u "status", text status); (u "exit_code", PyInt code); (u "tests_passed", PyInt count);
  (u "output_sha256", PyStr (hash64 3)); (u "output_bytes", PyInt 120); (u "cleanup_ok", PyBool true);
  (u "cleanup_scope", text "job_tree"); (u "cache_owner_cleanup_confirmed", PyBool true); (u "scope_cleanup_ok", PyBool true);
  (u "resource_channel_status", text "not_required"); (u "violation_observer_status", text "not_required");
  (u "resource_receipt_sha256", text ""); (u "error", text "")].
Definition sample_plan : dict := [
  (u "run_id", text "run-1"); (u "ticket_id", text "T-1"); (u "workspace_sha256", PyStr (hash64 4));
  (u "environment_sha256", PyStr (hash64 5)); (u "steps", PyList [text "code"]); (u "platforms", PyList [text "Linux"]);
  (u "checks", PyList [PyDict unit_check])].
Definition sample_run (status : string) (results : list dict) : dict := [
  (u "plan_digest", PyStr (hash64 6)); (u "step", text "code"); (u "attempt", text "a1"); (u "status", text status);
  (u "source_before", PyStr (hash64 7)); (u "source_after", PyStr (hash64 7)); (u "os_enforced", PyBool true);
  (u "checks", PyList (PyDict <$> results))].
Definition sample_binding (exit_code : Z) : dict :=
  dset (u "tested_worktree_fingerprint") (PyStr (hash64 7)) (dset (u "step") (text "code")
    (dset (u "execution_attempt") (text "a1") ((λ k, (u k, text "x")) <$> _ENGINEERING_BINDING_TEXT_FIELDS)))
  ++ [(u "exit_code", PyInt exit_code); (u "command_sha256", PyStr (hash64 1)); (u "artifact_hashes_sha256", PyStr (hash64 2));
      (u "output_sha256", PyStr (hash64 3))].
Definition draft (run : dict) (exit_code : Z) : dict := [
  (u "kind", text "engineering_verification"); (u "schema_version", PyInt 1); (u "coverage", PyDict _ENGINEERING_COVERAGE);
  (u "binding", PyDict (sample_binding exit_code)); (u "public_plan", PyDict sample_plan);
  (u "public_projection_digest", text ""); (u "run", PyDict run); (u "category", text ""); (u "passed", PyBool false);
  (u "fingerprint", text ""); (u "repair_fingerprint", text "")].
#[export] Instance no_floats : FloatRepr := λ _, [].
(** The receipt with the labels its own values derive. *)
Definition sealed (d : dict) : dict :=
  match engineering_receipt_values (PyDict d) with
  | Ok v => dset (u "public_projection_digest") (PyStr (rv_projection v)) (dset (u "fingerprint") (PyStr (rv_fingerprint v))
              (dset (u "repair_fingerprint") (PyStr (rv_repair v)) (dset (u "category") (PyStr (rv_category v))
                (dset (u "passed") (PyBool (rv_passed v)) d))))
  | Err _ => d
  end.
Definition passing : dict := sealed (draft (sample_run "passed" [unit_result "passed" 0 3]) 0).
Definition failing : dict := sealed (draft (sample_run "failed" [unit_result "failed" 1 0]) 1).
(** The values a receipt is accepted with. *)
Definition accepted (d : dict) : option receipt_values :=
  match validate_engineering_receipt (PyDict d) (Some (u "T-1")) with Ok v => v | Err _ => None end.
Lemma accepted_ok d v : accepted d = Some v → validate_engineering_receipt (PyDict d) (Some (u "T-1")) = Ok (Some v).
Proof. unfold accepted. destruct (validate_engineering_receipt _ _); by intros [= ->]. Qed.
End ReceiptSample.
Import ReceiptSample.

(** The failing receipt: its exit code is the one its check recorded. *)
Lemma accepted_receipt_verdict_witness :
  match accepted failing with
  | Some v => rv_passed v = false ∧ ∃ o results, observe (PyDict failing) = Ok o ∧ self_consistent failing (u "T-1") o results
  | None => False
  end.
Proof.
  assert (Hp : option_map rv_passed (accepted failing) = Some false) by (vm_compute; reflexivity).
  destruct (accepted failing) as [v|] eqn:E; [|discriminate Hp]. apply accepted_ok in E.
  split; [by injection Hp|exact (accepted_receipt_verdict failing (u "T-1") v E)].
Defined.

(** A passing run has one as well. *)
Example passing_receipt :
  (λ v, (rv_passed v, rv_category v, rv_exit_code v)) <$> accepted passing = Some (true, u "test", PyInt 0).
Proof. vm_compute. reflexivity. Qed.
(** A receipt whose [passed] label is forged is refused. *)
Example failing_receipt :
  (λ v, (rv_passed v, rv_category v, rv_exit_code v)) <$> accepted failing = Some (false, u "code", PyInt 1) ∧
  accepted (dset (u "passed") (PyBool true) failing) = None.
Proof. split; vm_compute; reflexivity. Qed.
