(* ===== verification/Sha512.v ===== *)
(** * SHA-512

    [hashlib.sha512(...).digest()], executable. *)

From S2P Require Import Prelude Hashing.

Definition mask64 (x : N) : N := N.land x 18446744073709551615.
Definition add64 (a b : N) : N := mask64 (a + b).
Definition rotr64 (n x : N) : N := N.lor (N.shiftr x n) (mask64 (N.shiftl x (64 - n))).
Definition not64 (x : N) : N := N.lxor x 18446744073709551615.

(** The constants are the first 64 bits of the fractional parts of the cube
    roots, and of the square roots, of the first primes. *)
Definition sha512_k : list N := Eval vm_compute in (λ p, mask64 (cbrt_bits 68 0 (p * 2 ^ 192))) <$> primes_below 410.
Definition sha512_init : sha_state := Eval vm_compute in sha_of_words ((λ p, mask64 (N.sqrt (p * 2 ^ 128))) <$> primes_below 20).

Definition sha512_round (st : sha_state) (kw : N * N) : sha_state :=
  let '(mkSha a b c d e f g h) := st in
  let s1 := N.lxor (N.lxor (rotr64 14 e) (rotr64 18 e)) (rotr64 41 e) in
  let ch := N.lxor (N.land e f) (N.land (not64 e) g) in
  let t1 := mask64 (h + s1 + ch + kw.1 + kw.2) in
  let s0 := N.lxor (N.lxor (rotr64 28 a) (rotr64 34 a)) (rotr64 39 a) in
  let maj := N.lxor (N.lxor (N.land a b) (N.land a c)) (N.land b c) in
  mkSha (add64 t1 (add64 s0 maj)) a b c (add64 d t1) e f g.

(** The message schedule, newest word first. *)
Fixpoint sha512_schedule (n : nat) (ws : list N) : list N :=
  match n with
  | O => ws
  | S n' =>
    let w2 := nth 1 ws 0%N in let w7 := nth 6 ws 0%N in
    let w15 := nth 14 ws 0%N in let w16 := nth 15 ws 0%N in
    let s0 := N.lxor (N.lxor (rotr64 1 w15) (rotr64 8 w15)) (N.shiftr w15 7) in
    let s1 := N.lxor (N.lxor (rotr64 19 w2) (rotr64 61 w2)) (N.shiftr w2 6) in
    sha512_schedule n' (mask64 (w16 + s0 + w7 + s1) :: ws)
  end.

(** Big-endian 64-bit words, as pairs of 32-bit ones. *)
Fixpoint pair_words (ws : list N) : list N :=
  match ws with hi :: lo :: ws' => (hi * 4294967296 + lo)%N :: pair_words ws' | _ => [] end.

Definition sha512_block (st : sha_state) (block : list N) : sha_state :=
  let ws := reverse (sha512_schedule 64 (reverse (pair_words (words_be block)))) in
  let r := foldl sha512_round st (zip sha512_k ws) in
  mkSha (add64 (sha_a st) (sha_a r)) (add64 (sha_b st) (sha_b r))
        (add64 (sha_c st) (sha_c r)) (add64 (sha_d st) (sha_d r))
        (add64 (sha_e st) (sha_e r)) (add64 (sha_f st) (sha_f r))
        (add64 (sha_g st) (sha_g r)) (add64 (sha_h st) (sha_h r)).

Definition sha512_pad (m : list N) : list N :=
  let l := length m in
  let z := Nat.modulo (239 - Nat.modulo l 128) 128 in
  m ++ [128%N] ++ replicate z 0%N ++ bytes_be 16 (8 * N.of_nat l).

Fixpoint sha512_blocks (n : nat) (st : sha_state) (m : list N) : sha_state :=
  match n with
  | O => st
  | S n' => sha512_blocks n' (sha512_block st (take 128 m)) (drop 128 m)
  end.

Definition sha512 (m : list N) : list N :=
  let p := sha512_pad m in
  concat (bytes_be 8 <$> sha_words (sha512_blocks (Nat.div (length p) 128) sha512_init p)).

(** ** Sixty-four bytes *)
Lemma length_bytes_be n x : length (bytes_be n x) = n.
Proof. unfold bytes_be. by rewrite length_fmap, length_seq. Qed.
Lemma bytes_be_range n x : Forall (λ b, (b < 256)%N) (bytes_be n x).
Proof.
  unfold bytes_be. apply Forall_fmap, Forall_true. intros k. cbn. change 255%N with (N.ones 8).
  rewrite N.land_ones. by apply N.mod_lt.
Qed.
Lemma length_words n ws : length (concat (bytes_be n <$> ws)) = n * length ws.
Proof. induction ws as [|w ws IH]; cbn [fmap list_fmap concat length]; [lia|]. rewrite length_app, length_bytes_be, IH. lia. Qed.
Lemma length_sha512 m : length (sha512 m) = 64.
Proof. unfold sha512. apply (length_words 8 (sha_words _)). Qed.
Lemma sha512_bytes m : Forall (λ b, (b < 256)%N) (sha512 m).
Proof. unfold sha512. apply Forall_concat, Forall_fmap, Forall_true. intros. apply bytes_be_range. Qed.

(** Test vector: SHA-512 of "abc". *)
Example sha512_abc : hex_of_bytes (sha512 (u "abc"))
  = u "ddaf35a193617abacc417349ae20413112e6fa4e89a97ea20a9eeee64b55d39a2192992a274fc1a836ba3c23a3feebbd454d4423643ce80e2a9ac94fa54ca49f".
Proof. vm_compute. reflexivity. Qed.
