(* ===== verification/ModArith.v ===== *)
(** * Modular arithmetic

    Python's three-argument [pow] on a non-negative exponent, a copy of it over
    machine words for evaluation, Pocklington's criterion and the primality of
    the two primes of Ed25519. *)

From Bignums Require Import BigZ.
From Stdlib Require Import ZArith Zmod Zdivisibility.
From S2P Require Import Prelude.

Local Open Scope Z_scope.

(** ** [pow(b, e, m)] *)
Fixpoint powmod_pos (b m : Z) (e : positive) : Z :=
  match e with
  | xH => b mod m
  | xO e => let r := powmod_pos b m e in (r * r) mod m
  | xI e => let r := powmod_pos b m e in (b * (r * r mod m)) mod m
  end.
Definition powmod (b e m : Z) : Z := match e with Zpos e => powmod_pos b m e | _ => 1 mod m end.

Lemma powmod_pos_spec b m e : powmod_pos b m e = b ^ Zpos e mod m.
Proof.
  induction e as [e IH|e IH|]; cbn [powmod_pos].
  - rewrite IH, <-Zmult_mod, Zmult_mod_idemp_r.
    f_equal. rewrite Pos2Z.inj_xI, Z.pow_add_r, Z.pow_1_r, (Z.mul_comm 2), Z.pow_mul_r, Z.pow_2_r by lia. ring.
  - rewrite IH, <-Zmult_mod. f_equal. rewrite Pos2Z.inj_xO, (Z.mul_comm 2), Z.pow_mul_r by lia. by rewrite Z.pow_2_r.
  - by rewrite Z.pow_1_r.
Qed.
Lemma powmod_spec b e m : 0 <= e → powmod b e m = b ^ e mod m.
Proof. intros He. destruct e; [done|apply powmod_pos_spec|lia]. Qed.

(** The same over machine words. *)
Fixpoint big_powmod_pos (b m : BigZ.t) (e : positive) : BigZ.t :=
  match e with
  | xH => BigZ.modulo b m
  | xO e => let r := big_powmod_pos b m e in BigZ.modulo (BigZ.mul r r) m
  | xI e => let r := big_powmod_pos b m e in BigZ.modulo (BigZ.mul b (BigZ.modulo (BigZ.mul r r) m)) m
  end.
Lemma big_powmod_pos_spec b m e : BigZ.to_Z (big_powmod_pos b m e) = powmod_pos (BigZ.to_Z b) (BigZ.to_Z m) e.
Proof. induction e; cbn [big_powmod_pos powmod_pos]; rewrite ?BigZ.spec_modulo, ?BigZ.spec_mul, ?BigZ.spec_modulo, ?BigZ.spec_mul, ?IHe; done. Qed.

(** ** Pocklington's criterion *)
Lemma mod_1_coprime a r : 1 < r → a mod r = 1 → Z.coprime a r.
Proof. intros Hr Ha. apply Z.coprime_mod_l_iff. rewrite Ha. apply Z.coprime_1_l. Qed.

(** A prime factor [q] of [n - 1] that the certificate [a] handles divides
    [r - 1] for every prime factor [r] of [n]. *)
Lemma pocklington_factor n q a r :
  Z.prime q → (q | n - 1) → a ^ (n - 1) mod n = 1 → Z.coprime (a ^ ((n - 1) / q) - 1) n →
  Z.prime r → (r | n) → 1 < n → (q | r - 1).
Proof.
  intros Hq [k Hk] Ha Hg Hr [t Ht] Hn. pose proof (Z.prime_ge_2 _ Hq) as Hq2. pose proof (Z.prime_ge_2 _ Hr) as Hr2.
  rewrite Hk, Z.div_mul in Hg by lia. assert (Hk0 : 0 < k) by nia. set (b := a ^ k) in *.
  assert (Hbq : b ^ q mod r = 1).
  { assert (E : a ^ (n - 1) = b ^ q). { unfold b. rewrite <-Z.pow_mul_r by lia. by rewrite Hk. }
    rewrite <-E. assert (H : (a ^ (n - 1)) mod n mod r = a ^ (n - 1) mod r).
    { apply Z.mod_mod_divide. by exists t. }
    rewrite <-H, Ha. apply Z.mod_small. lia. }
  assert (Hb1 : b mod r ≠ 1).
  { intros H. assert ((r | b - 1)).
    { apply Z.mod_divide; [lia|]. rewrite Zminus_mod, H, (Z.mod_small 1 r) by lia. by rewrite Z.sub_diag, Z.mod_0_l by lia. }
    assert (Hx : (r | 1)). { rewrite <-Hg. apply Z.gcd_greatest; [done|by exists t]. }
    apply Z.divide_pos_le in Hx; lia. }
  destruct (Z.BoolSpec_divide q (r - 1)) as [|Hnd]; [done|]. exfalso. apply Hb1.
  pose proof (Z.coprime_prime_l _ _ Hq Hnd) as Hc. apply Z.Bezout_coprime_iff in Hc as (c & e & Hce).
  assert (Hb0 : Zmod.of_Z r b ≠ Zmod.zero).
  { intros H. apply (f_equal Zmod.to_Z) in H. rewrite Zmod.to_Z_of_Z, Zmod.to_Z_0 in H.
    rewrite <-Z.mod_pow_l, H, Z.pow_0_l, Z.mod_0_l in Hbq; lia. }
  pose proof (Zmod.fermat_nz _ Hb0 Hr) as Hf.
  assert (Hg' : Z.coprime (Zmod.to_Z (Zmod.of_Z r b)) r).
  { unfold Z.coprime. rewrite Z.gcd_comm. apply Z.coprime_prime_small; [done|].
    pose proof (Zmod.to_Z_pos_bound (Zmod.of_Z r b) ltac:(lia)). pose proof (Zmod.to_Z_nz _ Hb0). lia. }
  assert (Hone : Zmod.of_Z r b = Zmod.one).
  { rewrite <-(Zmod.pow_1_r (Zmod.of_Z r b)), <-Hce, Zmod.pow_add_r_coprime, (Z.mul_comm c), (Z.mul_comm e), !Zmod.pow_mul_r_coprime by done.
    assert (Zmod.pow (Zmod.of_Z r b) q = Zmod.one) as ->.
    { apply Zmod.to_Z_inj. rewrite Zmod.to_Z_pow_nonneg_r, Zmod.to_Z_of_Z, Z.mod_pow_l, Hbq, Zmod.to_Z_1_pos by lia. done. }
    rewrite <-Z.sub_1_r in Hf. by rewrite Hf, !Zmod.pow_1_l, Zmod.mul_1_l. }
  apply (f_equal Zmod.to_Z) in Hone. rewrite Zmod.to_Z_of_Z, Zmod.to_Z_1_pos in Hone by lia. done.
Qed.

(** Trial division. *)
Definition trial_prime (n : Z) : bool := (1 <? n) && forallb (λ d, negb (n mod d =? 0)) (seqZ 2 (Z.sqrt n - 1)).
Lemma trial_prime_sound n : trial_prime n = true → Z.prime n.
Proof.
  unfold trial_prime. intros [Hn Hd]%andb_true_iff. apply Z.ltb_lt in Hn. split; [exact Hn|].
  assert (Hsmall : ∀ d, 1 < d → d * d <= n → ¬ (d | n)).
  { intros d Hd1 Hd2 Hdiv. apply forallb_Forall in Hd. pose proof (proj1 (Forall_forall _ _) Hd d) as Hx. cbn beta in Hx.
    apply Z.mod_divide in Hdiv; [|lia]. rewrite Hdiv in Hx. discriminate Hx. apply elem_of_seqZ.
    apply Z.sqrt_le_square in Hd2; lia. }
  intros d Hdn [k Hk]. destruct (Z.le_ge_cases (d * d) n); [by apply (Hsmall d); [lia|done|exists k]|].
  apply (Hsmall k); [nia|nia|exists d; lia].
Qed.
Lemma trial_prime_complete n : 1 < n → trial_prime n = false → ∃ d, 1 < d < n ∧ (d | n).
Proof.
  unfold trial_prime. intros Hn H. rewrite (proj2 (Z.ltb_lt 1 n) Hn) in H. cbn [andb] in H.
  assert (He : existsb (λ d, n mod d =? 0) (seqZ 2 (Z.sqrt n - 1)) = true).
  { clear Hn. induction (seqZ 2 (Z.sqrt n - 1)) as [|d l IH]; cbn in *; [discriminate|].
    destruct (n mod d =? 0); [done|by apply IH]. }
  apply existsb_Exists in He as (d & Hd%elem_of_seqZ & E%Z.eqb_eq). pose proof (Z.sqrt_lt_lin n Hn).
  exists d. split; [lia|]. apply Z.mod_divide; [lia|exact E].
Qed.

Lemma prime_divisor n : 1 < n → ∃ r, Z.prime r ∧ (r | n).
Proof.
  intros Hn. assert (H0 : 0 <= n) by lia. revert Hn. pattern n. apply Z_lt_induction; [|exact H0]. clear n H0.
  intros n IH Hn. destruct (trial_prime n) eqn:Hp.
  - exists n. split; [by apply trial_prime_sound|apply Z.divide_refl].
  - destruct (trial_prime_complete n Hn Hp) as (m & Hm & Hd). destruct (IH m ltac:(lia) ltac:(lia)) as (r & Hr & Hrm).
    exists r. split; [exact Hr|by eapply Z.divide_trans].
Qed.

(** Its prime divisors all exceed its square root: a prime. *)
Lemma prime_by_divisors n : 1 < n → (∀ r, Z.prime r → (r | n) → n < r * r) → Z.prime n.
Proof.
  intros Hn H. split; [exact Hn|]. intros k Hk [j Hj].
  assert (1 < j) by nia.
  assert (Hm : 1 < Z.min j k) by lia. destruct (prime_divisor _ Hm) as (r & Hr & Hd).
  assert (Hdn : (r | n)). { eapply Z.divide_trans; [exact Hd|]. destruct (Z.min_spec j k) as [[_ ->] | [_ ->]]; [by exists k; lia|by exists j]. }
  specialize (H r Hr Hdn). apply Z.divide_pos_le in Hd; [|lia]. assert (r * r <= j * k); [|lia].
  apply Z.mul_le_mono_nonneg; pose proof (Z.prime_ge_2 _ Hr); lia.
Qed.

Lemma primes_product qs m : Forall Z.prime qs → NoDup qs → (∀ q, q ∈ qs → (q | m)) → (foldr Z.mul 1 qs | m).
Proof.
  induction qs as [|q qs IH]; intros Hqs Hnd Hm; cbn [foldr]; [apply Z.divide_1_l|].
  apply Forall_cons in Hqs as [Hq Hqs]. apply NoDup_cons in Hnd as [Hni Hnd].
  assert (Hc : Z.coprime q (foldr Z.mul 1 qs)).
  { clear IH Hnd Hm. induction qs as [|q' qs IH]; cbn [foldr]; [apply Z.coprime_1_r|].
    apply Forall_cons in Hqs as [Hq' Hqs]. apply not_elem_of_cons in Hni as [Hne Hni].
    apply Z.coprime_mul_r; [|by apply IH]. apply Z.coprime_prime_l; [done|]. intros Hd. by apply Hne, Z.divide_prime_prime. }
  destruct (IH Hqs Hnd ltac:(intros; apply Hm; by right)) as [k Hk]. destruct (Hm q ltac:(by left)) as [j Hj].
  rewrite Hk in Hj. assert (Hd : (q | k * foldr Z.mul 1 qs)) by by exists j. rewrite Z.mul_comm in Hd.
  apply Z.gauss in Hd; [|exact Hc]. destruct Hd as [i Hi]. exists i. rewrite Hk, Hi. ring.
Qed.

(** A certificate: prime factors of [n - 1] whose product exceeds the square
    root of [n]; the base is 2. *)
Definition certifies (n : Z) (q : Z) : bool :=
  ((n - 1) mod q =? 0) && (powmod 2 (n - 1) n =? 1) && (Z.gcd (powmod 2 ((n - 1) / q) n - 1) n =? 1).
Definition big_certifies (n : Z) (q : Z) : bool :=
  let pw e := match e with Zpos e => BigZ.to_Z (big_powmod_pos (BigZ.of_Z 2) (BigZ.of_Z n) e) | _ => 1 mod n end in
  ((n - 1) mod q =? 0) && (pw (n - 1) =? 1) && (Z.gcd (pw ((n - 1) / q) - 1) n =? 1).
Lemma big_certifies_eq n q : big_certifies n q = certifies n q.
Proof.
  unfold big_certifies, certifies, powmod. destruct (n - 1); rewrite ?big_powmod_pos_spec, ?BigZ.spec_of_Z; try done;
    destruct (_ / q); by rewrite ?big_powmod_pos_spec, ?BigZ.spec_of_Z.
Qed.

Lemma pocklington n qs :
  1 < n → Forall Z.prime qs → NoDup qs → forallb (big_certifies n) qs = true → n < foldr Z.mul 1 qs ^ 2 → Z.prime n.
Proof.
  intros Hn Hqs Hnd Hc Hbig. apply prime_by_divisors; [exact Hn|]. intros r Hr Hd.
  assert (Hfac : ∀ q, q ∈ qs → (q | r - 1)).
  { intros q Hq. apply forallb_Forall in Hc. pose proof (proj1 (Forall_forall _ _) Hc q Hq) as Hx. cbn beta in Hx.
    pose proof (proj1 (Forall_forall _ _) Hqs q Hq) as Hqp. cbn beta in Hqp. pose proof (Z.prime_ge_2 _ Hqp).
    rewrite big_certifies_eq in Hx. unfold certifies in Hx. rewrite !andb_true_iff, !Z.eqb_eq in Hx. destruct Hx as [[H1 H2] H3].
    assert (0 <= (n - 1) / q) by (apply Z.div_pos; lia). rewrite powmod_spec in H2, H3 by lia.
    apply (pocklington_factor n q 2 r); try done; [by apply Z.mod_divide; [lia|]|].
    apply Z.coprime_mod_l_iff. rewrite <-Zminus_mod_idemp_l. by apply Z.coprime_mod_l_iff. }
  pose proof (Z.prime_ge_2 _ Hr). pose proof (primes_product _ _ Hqs Hnd Hfac) as Hp. apply Z.divide_pos_le in Hp; [|lia].
  assert (0 <= foldr Z.mul 1 qs); [|nia]. clear -Hqs. induction Hqs as [|q qs Hq _ IH]; cbn [foldr]; [lia|].
  pose proof (Z.prime_ge_2 _ Hq). nia.
Qed.

(** ** Chains of certificates

    A prime factor a certificate uses is certified earlier in the chain or small
    enough for trial division. *)
Definition known_prime (known : list Z) (q : Z) : bool := bool_decide (q ∈ known) || (if q <? 5000 then trial_prime q else false).
Definition certificate_ok (known : list Z) (c : Z * list Z) : bool :=
  (1 <? c.1) && forallb (known_prime known) c.2 && bool_decide (NoDup c.2) && forallb (big_certifies c.1) c.2
  && (c.1 <? foldr Z.mul 1 c.2 ^ 2).
Fixpoint chain_ok (known : list Z) (chain : list (Z * list Z)) : bool :=
  match chain with [] => true | c :: rest => certificate_ok known c && chain_ok (c.1 :: known) rest end.

Lemma chain_sound known chain n : Forall Z.prime known → chain_ok known chain = true → n ∈ chain.*1 → Z.prime n.
Proof.
  revert known. induction chain as [|[m qs] chain IH]; intros known Hk; cbn [chain_ok]; [by intros _ ?%not_elem_of_nil|].
  intros [Hc Hrest]%andb_true_iff Hin. unfold certificate_ok in Hc. cbn [fst snd] in *.
  rewrite !andb_true_iff in Hc. destruct Hc as [[[[H1 H2] H3] H4] H5].
  assert (Hm : Z.prime m).
  { apply (pocklington m qs); [by apply Z.ltb_lt| |by apply bool_decide_eq_true in H3|done|by apply Z.ltb_lt].
    apply forallb_Forall in H2. apply (Forall_impl _ _ _ H2). intros q [Hq|Hq]%orb_true_iff.
    - apply bool_decide_eq_true in Hq. exact (proj1 (Forall_forall _ _) Hk q Hq).
    - destruct (q <? 5000); [by apply trial_prime_sound|done]. }
  cbn in Hin. apply elem_of_cons in Hin as [-> |Hin]; [done|]. apply (IH (m :: known)); [by constructor|done..].
Qed.

(** ** The field and the group order of Ed25519 *)
Definition ed25519_chain : list (Z * list Z) := [
  (430751, [1723]); (531581, [3797]); (569003, [419; 97]); (1224481, [2551]); (8574133, [991; 103]);
  (2773320623, [569003]); (72106336199, [2773320623]); (1257559732178653, [1224481; 531581]);
  (1919519569386763, [8574133; 127]); (31757755568855353, [430751; 4153]); (4434155615661930479, [1257559732178653]);
  (172054593956031949258510691, [4434155615661930479]);
  (75445702479781427272750846543864801, [1919519569386763; 72106336199]);
  (19757330305831588566944191468367130476339, [172054593956031949258510691]);
  (276602624281642239937218680557139826668747, [19757330305831588566944191468367130476339]);
  (74058212732561358302231226437062788676166966415465897661863160754340907,
   [75445702479781427272750846543864801; 31757755568855353]);
  (2 ^ 252 + 27742317777372353535851937790883648493, [276602624281642239937218680557139826668747]);
  (2 ^ 255 - 19, [74058212732561358302231226437062788676166966415465897661863160754340907])].

Lemma ed25519_chain_ok : chain_ok [] ed25519_chain = true.
Proof. vm_compute. reflexivity. Qed.
Lemma prime_25519 : Z.prime (2 ^ 255 - 19).
Proof. apply (chain_sound [] ed25519_chain); [constructor|exact ed25519_chain_ok|by_compute]. Qed.
Lemma prime_group_order : Z.prime (2 ^ 252 + 27742317777372353535851937790883648493).
Proof. apply (chain_sound [] ed25519_chain); [constructor|exact ed25519_chain_ok|by_compute]. Qed.
