(* ===== verification/Edwards.v ===== *)
(** * Twisted Edwards curves

    The group Ed25519 computes in: the points of [-x^2 + y^2 = 1 + d x^2 y^2]
    over a field in which [-1] is a square and [d] is not, under the complete
    addition law. *)

From Stdlib Require Import ZArith Zdivisibility NsatzTactic Ncring Cring Integral_domain Ring.
From S2P Require Import Prelude.

(** A field by its operations; the ring classes are those [nsatz] works with. *)
Class Field (R : Type) := {
  r0 : R; r1 : R; radd : R → R → R; rmul : R → R → R; rsub : R → R → R; ropp : R → R; rinv : R → R;
  field_ops :: Ring_ops (T := R) (ring0 := r0) (ring1 := r1) (add := radd) (mul := rmul) (sub := rsub) (opp := ropp) (ring_eq := @eq R);
  field_ring :: Ring (Ro := field_ops);
  field_cring :: Cring (Rr := field_ring);
  field_domain :: Integral_domain (Rcr := field_cring);
  rinv_mul : ∀ x : R, x ≠ r0 → rmul (rinv x) x = r1;
  field_eq_dec :: EqDecision R
}.
Declare Scope field_scope.
Delimit Scope field_scope with field.
Local Open Scope field_scope.
Infix "+" := radd : field_scope.
Infix "*" := rmul : field_scope.
Infix "-" := rsub : field_scope.
Notation "- x" := (ropp x) : field_scope.
Notation "0" := r0 : field_scope.
Notation "1" := r1 : field_scope.
Notation "x / y" := (rmul x (rinv y)) : field_scope.

Lemma field_ring_theory {R} `{Field R} : ring_theory (R := R) 0 1 radd rmul rsub ropp eq.
Proof. split; intros; nsatz. Qed.

Section curve.
Context {R : Type} `{Field R}.
Add Ring field : (field_ring_theory (R := R)).

Lemma mul_nonzero (x y : R) : x ≠ 0 → y ≠ 0 → x * y ≠ 0.
Proof. intros Hx Hy E. by destruct (integral_domain_product x y E). Qed.
Lemma mul_div (a b : R) : b ≠ 0 → a / b * b = a.
Proof. intros Hb%rinv_mul. nsatz. Qed.
Lemma div_iff (a b c : R) : b ≠ 0 → a * b = c ↔ a = c / b.
Proof. intros Hb%rinv_mul. split; intros E; nsatz. Qed.
Lemma sub_zero (a b : R) : a = b → a - b = 0.
Proof. intros ->. ring. Qed.
Lemma mul_cancel (c a b : R) : c ≠ 0 → c * a = c * b → a = b.
Proof.
  intros Hc E. assert (E0 : c * (a - b) = 0) by nsatz. apply integral_domain_product in E0 as [|E0]; [done|].
  cbn in E0. nsatz.
Qed.

Context (i d : R) (two_nonzero : (1 : R) + 1 ≠ 0) (i_square : i * i = - (1)) (d_nonsquare : ∀ x : R, x * x ≠ d).

Definition curve (x y : R) : Prop := - (x * x) + y * y = 1 + d * x * x * y * y.

(** ** The denominators of the addition law do not vanish *)
Lemma no_square (x y u : R) : x * x = d * (y * y) * (u * u) → y * u = 0.
Proof.
  intros E. destruct (decide (y * u = 0)) as [|Hn]; [done|]. destruct (d_nonsquare (x / (y * u))).
  apply (mul_cancel ((y * u) * (y * u))); [by apply mul_nonzero|]. apply rinv_mul in Hn. nsatz.
Qed.

Lemma denominator_square x1 y1 x2 y2 (j e : R) :
  curve x1 y1 → curve x2 y2 → e = d * x1 * x2 * y1 * y2 → e * e = 1 → j * j = - (1) →
  (j * x1 + e * y1) * (j * x1 + e * y1) = d * ((x1 * y1) * (x1 * y1)) * ((j * x2 + y2) * (j * x2 + y2)).
Proof.
  intros C1%sub_zero C2%sub_zero He E%sub_zero J%sub_zero.
  transitivity (d * ((x1 * y1) * (x1 * y1)) * ((j * x2 + y2) * (j * x2 + y2))
    + (j * j - - (1)) * (x1 * x1 - d * x1 * x1 * y1 * y1 * x2 * x2) + (e * e - 1) * (y1 * y1 - 1)
    + (- (x1 * x1) + y1 * y1 - (1 + d * x1 * x1 * y1 * y1))
    - (- (x2 * x2) + y2 * y2 - (1 + d * x2 * x2 * y2 * y2)) * (d * x1 * x1 * y1 * y1)).
  { rewrite He. ring. }
  rewrite C1, C2, E, J. ring.
Qed.

Lemma denominators x1 y1 x2 y2 : curve x1 y1 → curve x2 y2 → let e := d * x1 * x2 * y1 * y2 in e * e ≠ 1.
Proof.
  intros C1 C2 e He. assert (Hone : (1 : R) ≠ 0) by (intros E; apply two_nonzero; rewrite E; ring).
  assert (x1 * y1 ≠ 0 ∧ y2 ≠ 0) as [Hxy Hy].
  { split; intros E; apply Hone; rewrite <-He; unfold e.
    - transitivity (d * d * x2 * x2 * y2 * y2 * (x1 * y1) * (x1 * y1)); [ring|]. rewrite E. ring.
    - rewrite E. ring. }
  assert (Hz : ∀ j, j * j = - (1) → (x1 * y1) * (j * x2 + y2) = 0).
  { intros j Hj. apply (no_square (j * x1 + e * y1)). by apply denominator_square. }
  apply (mul_nonzero _ _ (mul_nonzero _ _ Hxy Hy) two_nonzero).
  transitivity ((x1 * y1) * (i * x2 + y2) + (x1 * y1) * (- i * x2 + y2)); [ring|].
  rewrite !Hz; [ring|rewrite <-i_square; ring|exact i_square].
Qed.
Lemma plus_minus_nonzero (e : R) : e * e ≠ 1 → 1 + e ≠ 0 ∧ 1 - e ≠ 0.
Proof. intros He. split; intros E; apply He; nsatz. Qed.

(** ** Square roots *)
Lemma den_nonzero (y : R) : d * y * y + 1 ≠ 0.
Proof.
  intros E. assert (Hy : y ≠ 0).
  { intros ->. apply two_nonzero. assert (E1 : (1 : R) = 0) by (rewrite <-E; ring). rewrite E1. ring. }
  apply rinv_mul in Hy. apply (d_nonsquare (i * rinv y)). nsatz.
Qed.
Lemma curve_square x y : curve x y ↔ x * x * (d * y * y + 1) = y * y - 1.
Proof. clear two_nonzero i_square d_nonsquare. unfold curve. split; intros E; nsatz. Qed.
Lemma opposite_square (x y : R) : x * x = y * y → x = y ∨ x = - y.
Proof.
  clear two_nonzero i_square d_nonsquare. intros E. assert (E0 : (x - y) * (x + y) = 0) by nsatz.
  apply integral_domain_product in E0 as [E0|E0]; [left|right]; cbn in E0; nsatz.
Qed.
(** A fourth root candidate is right up to a root of [-1]. *)
Lemma root_step (x y v : R) : x * x = y * y * v → (y ≠ 0 → v * v = 1) → x * x ≠ y * y → (x * i) * (x * i) = y * y.
Proof.
  intros E Hv Hn. destruct (decide (y = 0)) as [-> |Hy]; [destruct Hn; rewrite E; ring|].
  assert (Hvv : v * v = 1 * 1) by (rewrite Hv by done; ring). clear Hv two_nonzero d_nonsquare.
  apply opposite_square in Hvv as [-> | ->]; [destruct Hn; rewrite E; ring|].
  transitivity (x * x * (i * i)); [ring|]. rewrite E, i_square. ring.
Qed.

(** ** The addition law *)
Definition point : Type := R * R.
Definition on_curve (P : point) : Prop := curve P.1 P.2.
Definition neutral : point := (0, 1).
Definition cross (P Q : point) : R := d * P.1 * Q.1 * P.2 * Q.2.
Definition sum_x (P Q : point) : R := P.1 * Q.2 + P.2 * Q.1.
Definition sum_y (P Q : point) : R := P.2 * Q.2 + P.1 * Q.1.
Definition edwards_add (P Q : point) : point := (sum_x P Q / (1 + cross P Q), sum_y P Q / (1 - cross P Q)).

Lemma add_denominators P Q : on_curve P → on_curve Q → 1 + cross P Q ≠ 0 ∧ 1 - cross P Q ≠ 0.
Proof. intros HP HQ. by apply plus_minus_nonzero, denominators. Qed.
Lemma add_equations P Q : on_curve P → on_curve Q →
  (edwards_add P Q).1 * (1 + cross P Q) = sum_x P Q ∧ (edwards_add P Q).2 * (1 - cross P Q) = sum_y P Q.
Proof. intros HP HQ. destruct (add_denominators P Q HP HQ). by split; apply mul_div. Qed.
(** The equations determine the sum. *)
Lemma add_unique P Q x y : on_curve P → on_curve Q →
  x * (1 + cross P Q) = sum_x P Q → y * (1 - cross P Q) = sum_y P Q → edwards_add P Q = (x, y).
Proof.
  intros HP HQ X Y. destruct (add_denominators P Q HP HQ) as [N1 N2], (add_equations P Q HP HQ) as [X' Y'].
  rewrite (surjective_pairing (edwards_add P Q)). f_equal;
    [apply (mul_cancel (1 + cross P Q))|apply (mul_cancel (1 - cross P Q))]; try done; nsatz.
Qed.

Lemma neutral_on : on_curve neutral.
Proof. unfold on_curve, curve. cbn [neutral fst snd]. ring. Qed.
Lemma add_comm P Q : edwards_add P Q = edwards_add Q P.
Proof.
  unfold edwards_add. assert (cross P Q = cross Q P) as -> by (unfold cross; ring).
  assert (sum_x P Q = sum_x Q P) as -> by (unfold sum_x; ring). by assert (sum_y P Q = sum_y Q P) as -> by (unfold sum_y; ring).
Qed.
Lemma add_neutral P : on_curve P → edwards_add neutral P = P.
Proof. destruct P as [x y]. intros HP. apply add_unique; [apply neutral_on|done|..]; unfold cross, sum_x, sum_y; cbn [neutral fst snd]; ring. Qed.

Lemma curve_sum x1 y1 x2 y2 (e n m x3 y3 : R) :
  e = d * x1 * x2 * y1 * y2 → n = x1 * y2 + y1 * x2 → m = y1 * y2 + x1 * x2 →
  curve x1 y1 → curve x2 y2 → 1 + e ≠ 0 → 1 - e ≠ 0 → x3 * (1 + e) = n → y3 * (1 - e) = m → curve x3 y3.
Proof.
  intros He Hn Hm C1 C2 N1 N2 X Y. unfold curve. apply (mul_cancel ((1 + e) * (1 + e) * ((1 - e) * (1 - e)))).
  { repeat apply mul_nonzero; assumption. }
  transitivity (- ((x3 * (1 + e)) * (x3 * (1 + e)) * ((1 - e) * (1 - e)))
                + (y3 * (1 - e)) * (y3 * (1 - e)) * ((1 + e) * (1 + e))); [ring|].
  transitivity ((1 + e) * (1 + e) * ((1 - e) * (1 - e))
                + d * ((x3 * (1 + e)) * (x3 * (1 + e))) * ((y3 * (1 - e)) * (y3 * (1 - e)))); [|ring].
  rewrite X, Y. unfold curve in *. clear N1 N2 X Y two_nonzero i_square d_nonsquare. subst e n m. nsatz.
Qed.
Lemma add_on P Q : on_curve P → on_curve Q → on_curve (edwards_add P Q).
Proof.
  intros HP HQ. destruct (add_denominators P Q HP HQ) as [N1 N2], (add_equations P Q HP HQ) as [X Y].
  eapply (curve_sum P.1 P.2 Q.1 Q.2); [reflexivity..|exact HP|exact HQ|exact N1|exact N2|exact X|exact Y].
Qed.

(** *** Associativity *)
(** The sum of a sum over the denominators of both. *)
Lemma double_sum S P Q T : edwards_add P Q = S → on_curve P → on_curve Q → on_curve T →
  let e := cross P Q in
  let f := d * sum_x P Q * sum_y P Q * T.1 * T.2 in
  let D1 := (1 + e) * (1 - e) + f in
  let D2 := (1 + e) * (1 - e) - f in
  D1 ≠ 0 ∧ D2 ≠ 0 ∧
  (edwards_add S T).1 * D1 = sum_x P Q * (1 - e) * T.2 + sum_y P Q * (1 + e) * T.1 ∧
  (edwards_add S T).2 * D2 = sum_y P Q * (1 + e) * T.2 + sum_x P Q * (1 - e) * T.1.
Proof.
  intros HS HP HQ HT e f D1 D2. destruct (add_denominators P Q HP HQ) as [N1 N2], (add_equations P Q HP HQ) as [X Y].
  pose proof (add_on P Q HP HQ) as Hon. rewrite HS in X, Y, Hon.
  destruct (add_denominators S T Hon HT) as [M1 M2], (add_equations S T Hon HT) as [U V]. fold e in N1, N2, X, Y.
  set (a := (edwards_add S T).1) in *. set (b := (edwards_add S T).2) in *.
  assert (E1 : D1 = (1 + e) * (1 - e) * (1 + cross S T)).
  { unfold D1, f, cross at 1. rewrite <-X, <-Y. ring. }
  assert (E2 : D2 = (1 + e) * (1 - e) * (1 - cross S T)).
  { unfold D2, f, cross at 1. rewrite <-X, <-Y. ring. }
  rewrite <-X, <-Y. split_and!.
  - rewrite E1. repeat apply mul_nonzero; assumption.
  - rewrite E2. repeat apply mul_nonzero; assumption.
  - transitivity (((1 + e) * (1 - e)) * (a * (1 + cross S T))); [rewrite E1; ring|]. rewrite U. unfold sum_x. ring.
  - transitivity (((1 + e) * (1 - e)) * (b * (1 - cross S T))); [rewrite E2; ring|]. rewrite V. unfold sum_y. ring.
Qed.

Lemma cross_cancel (x x' D D' N N' : R) : D ≠ 0 → D' ≠ 0 → x * D = N → x' * D' = N' → N * D' = N' * D → x = x'.
Proof. intros HD HD' E E' EE. apply (mul_cancel (D * D')); [by apply mul_nonzero|]. nsatz. Qed.

Section assoc.
Context (x1 y1 x2 y2 x3 y3 : R) (C1 : curve x1 y1) (C2 : curve x2 y2) (C3 : curve x3 y3).
Let e12 := d * x1 * x2 * y1 * y2.
Let e32 := d * x3 * x2 * y3 * y2.
Let n12 := x1 * y2 + y1 * x2.
Let m12 := y1 * y2 + x1 * x2.
Let n32 := x3 * y2 + y3 * x2.
Let m32 := y3 * y2 + x3 * x2.
Lemma assoc_x :
  (n12 * (1 - e12) * y3 + m12 * (1 + e12) * x3) * ((1 + e32) * (1 - e32) + d * n32 * m32 * x1 * y1)
  = (n32 * (1 - e32) * y1 + m32 * (1 + e32) * x1) * ((1 + e12) * (1 - e12) + d * n12 * m12 * x3 * y3).
Proof. clear two_nonzero i_square d_nonsquare. unfold curve in *. subst e12 e32 n12 m12 n32 m32. nsatz. Qed.
Lemma assoc_y :
  (m12 * (1 + e12) * y3 + n12 * (1 - e12) * x3) * ((1 + e32) * (1 - e32) - d * n32 * m32 * x1 * y1)
  = (m32 * (1 + e32) * y1 + n32 * (1 - e32) * x1) * ((1 + e12) * (1 - e12) - d * n12 * m12 * x3 * y3).
Proof. clear two_nonzero i_square d_nonsquare. unfold curve in *. subst e12 e32 n12 m12 n32 m32. nsatz. Qed.
End assoc.

Lemma add_assoc P Q T : on_curve P → on_curve Q → on_curve T →
  edwards_add (edwards_add P Q) T = edwards_add P (edwards_add Q T).
Proof.
  intros HP HQ HT. rewrite (add_comm P (edwards_add Q T)), (add_comm Q T).
  destruct (double_sum _ P Q T eq_refl HP HQ HT) as (D1 & D2 & X & Y).
  destruct (double_sum _ T Q P eq_refl HT HQ HP) as (D1' & D2' & X' & Y').
  apply injective_projections.
  - exact (cross_cancel _ _ _ _ _ _ D1 D1' X X' (assoc_x P.1 P.2 Q.1 Q.2 T.1 T.2 HP HQ HT)).
  - exact (cross_cancel _ _ _ _ _ _ D2 D2' Y Y' (assoc_y P.1 P.2 Q.1 Q.2 T.1 T.2 HP HQ HT)).
Qed.

(** *** Multiples *)
Definition times (n : N) (P : point) : point := N.iter n (edwards_add P) neutral.
Lemma times_0 P : times 0 P = neutral.
Proof. done. Qed.
Lemma times_succ n P : times (N.succ n) P = edwards_add P (times n P).
Proof. apply N.iter_succ. Qed.
Lemma times_on n P : on_curve P → on_curve (times n P).
Proof.
  intros HP. induction n as [|n IH] using N.peano_ind; [apply neutral_on|]. rewrite times_succ. by apply add_on.
Qed.
Lemma times_1 P : on_curve P → times 1 P = P.
Proof. intros HP. change 1%N with (N.succ 0). rewrite times_succ, times_0, add_comm. by apply add_neutral. Qed.
Lemma times_add n m P : on_curve P → times (n + m) P = edwards_add (times n P) (times m P).
Proof.
  intros HP. induction n as [|n IH] using N.peano_ind; [by rewrite times_0, add_neutral by by apply times_on|].
  rewrite N.add_succ_l, !times_succ, IH, add_assoc; try done; by apply times_on.
Qed.
Lemma times_neutral n : times n neutral = neutral.
Proof.
  induction n as [|n IH] using N.peano_ind; [done|]. rewrite times_succ, IH. apply add_neutral, neutral_on.
Qed.
Lemma times_mul n m P : on_curve P → times (n * m) P = times n (times m P).
Proof.
  intros HP. induction n as [|n IH] using N.peano_ind; [done|]. by rewrite N.mul_succ_l, N.add_comm, times_add, IH, times_succ.
Qed.
(** Multiples of a point of finite order depend on the remainder only. *)
Lemma times_mod n l P : on_curve P → times l P = neutral → times (n mod l) P = times n P.
Proof.
  intros HP Hl. rewrite (N.div_mod' n l) at 2. rewrite times_add, N.mul_comm, times_mul, Hl, times_neutral by done.
  symmetry. by apply add_neutral, times_on.
Qed.

(** *** Inverses *)
Definition negate (P : point) : point := (- P.1, P.2).
Lemma negate_on P : on_curve P → on_curve (negate P).
Proof. unfold on_curve, curve. cbn [negate fst snd]. intros E. transitivity (- (P.1 * P.1) + P.2 * P.2); [ring|]. rewrite E. ring. Qed.
Lemma add_negate P : on_curve P → edwards_add P (negate P) = neutral.
Proof.
  intros HP. apply add_unique; [done|by apply negate_on|..]; unfold cross, sum_x, sum_y; cbn [negate fst snd]; [ring|].
  unfold on_curve, curve in HP. clear two_nonzero i_square d_nonsquare. nsatz.
Qed.
Lemma add_cancel P Q T : on_curve P → on_curve Q → on_curve T → edwards_add P Q = edwards_add P T → Q = T.
Proof.
  intros HP HQ HT E. assert (Hx : ∀ X, on_curve X → X = edwards_add (negate P) (edwards_add P X)).
  { intros X HX. rewrite <-add_assoc, (add_comm (negate P) P), add_negate by (done || by apply negate_on). symmetry. by apply add_neutral. }
  by rewrite (Hx Q), (Hx T), E by done.
Qed.

(** A point of prime order has distinct multiples below it. *)
Lemma times_inj_le l P a b :
  Z.prime (Z.of_N l) → on_curve P → times l P = neutral → P ≠ neutral →
  (a <= b)%N → (b < l)%N → times a P = times b P → a = b.
Proof.
  intros Hl HP Hz HP0 Hab Hb E. destruct (N.eq_dec a b) as [|Hne]; [done|]. destruct HP0.
  assert (Hd : times (b - a) P = neutral).
  { apply (add_cancel (times a P)); [by apply times_on..|by apply neutral_on|].
    rewrite <-times_add by done. replace (a + (b - a))%N with b by lia. rewrite <-E, add_comm. symmetry. by apply add_neutral, times_on. }
  assert (Hc : Z.coprime (Z.of_N (b - a)) (Z.of_N l)).
  { unfold Z.coprime. rewrite Z.gcd_comm. apply Z.coprime_prime_small; [done|lia]. }
  apply Z.Bezout_coprime_iff in Hc as (u & v & Huv).
  (* [u] modulo [l] inverts [b - a]. *)
  set (w := Z.to_N (u mod Z.of_N l)). assert (Hl0 : (0 < Z.of_N l)%Z) by lia.
  assert (Hw : ((w * (b - a)) mod l = 1 mod l)%N).
  { apply N2Z.inj. rewrite !N2Z.inj_mod, N2Z.inj_mul. unfold w. rewrite Z2N.id by (apply Z.mod_pos_bound; lia).
    rewrite Zmult_mod_idemp_l. replace (u * Z.of_N (b - a))%Z with (1 + - v * Z.of_N l)%Z by lia. by rewrite Z_mod_plus_full. }
  rewrite <-(times_1 P), <-(times_mod 1 l), <-Hw, times_mod, times_mul, Hd by done. apply times_neutral.
Qed.
Lemma times_inj l P a b :
  Z.prime (Z.of_N l) → on_curve P → times l P = neutral → P ≠ neutral →
  (a < l)%N → (b < l)%N → times a P = times b P → a = b.
Proof.
  intros ? ? ? ? Ha Hb E. destruct (N.le_ge_cases a b); [by apply (times_inj_le l P)|symmetry; by apply (times_inj_le l P)].
Qed.

(** ** Extended coordinates *)
Definition ext : Type := R * R * R * R.
Definition ext_neutral : ext := (0, 1, 1, 0).
Definition ext_add (p q : ext) : ext :=
  let '(x1, y1, z1, t1) := p in
  let '(x2, y2, z2, t2) := q in
  let a := (y1 - x1) * (y2 - x2) in
  let b := (y1 + x1) * (y2 + x2) in
  let c := (1 + 1) * t1 * t2 * d in
  let dd := (1 + 1) * z1 * z2 in
  let e := b - a in let f := dd - c in let g := dd + c in let h := b + a in
  (e * f, g * h, f * g, e * h).
(** [p] are coordinates of [P]. *)
Definition represents (p : ext) (P : point) : Prop :=
  let '(x, y, z, t) := p in z ≠ 0 ∧ x = P.1 * z ∧ y = P.2 * z ∧ t = P.1 * P.2 * z.

Lemma neutral_represents : represents ext_neutral neutral.
Proof. cbn. split_and!; try ring. intros E. apply two_nonzero. rewrite E. ring. Qed.
Lemma ext_add_represents p q P Q : on_curve P → on_curve Q → represents p P → represents q Q →
  represents (ext_add p q) (edwards_add P Q).
Proof.
  intros HP HQ. destruct p as [[[x1 y1] z1] t1], q as [[[x2 y2] z2] t2].
  intros (Z1 & X1 & Y1 & T1) (Z2 & X2 & Y2 & T2). subst x1 y1 t1 x2 y2 t2.
  destruct (add_denominators P Q HP HQ) as [N1 N2], (add_equations P Q HP HQ) as [U V].
  set (a := (edwards_add P Q).1) in *. set (b := (edwards_add P Q).2) in *.
  cbn [ext_add represents]. fold a b. set (e := cross P Q) in *. pose (k := (1 + 1) * z1 * z2).
  assert (F : (1 + 1) * z1 * z2 - (1 + 1) * (P.1 * P.2 * z1) * (Q.1 * Q.2 * z2) * d = k * (1 - e)) by (unfold k, e, cross; ring).
  assert (G : (1 + 1) * z1 * z2 + (1 + 1) * (P.1 * P.2 * z1) * (Q.1 * Q.2 * z2) * d = k * (1 + e)) by (unfold k, e, cross; ring).
  assert (E : (P.2 * z1 + P.1 * z1) * (Q.2 * z2 + Q.1 * z2) - (P.2 * z1 - P.1 * z1) * (Q.2 * z2 - Q.1 * z2) = k * (a * (1 + e)))
    by (rewrite U; unfold k, sum_x; ring).
  assert (S : (P.2 * z1 + P.1 * z1) * (Q.2 * z2 + Q.1 * z2) + (P.2 * z1 - P.1 * z1) * (Q.2 * z2 - Q.1 * z2) = k * (b * (1 - e)))
    by (rewrite V; unfold k, sum_y; ring).
  rewrite F, G, E, S. split_and!; [|ring..].
  assert (k ≠ 0) by (repeat apply mul_nonzero; assumption). repeat apply mul_nonzero; assumption.
Qed.
(** The point of given coordinates is unique. *)
Lemma represents_unique x y z t P : represents (x, y, z, t) P → P = (x / z, y / z).
Proof.
  clear two_nonzero i_square d_nonsquare. intros (Hz & -> & -> & _). apply rinv_mul in Hz. apply injective_projections; cbn [fst snd]; nsatz.
Qed.

(** ** Double and add

    Over any representation of points that adds: the multiple of the addend is
    accumulated in the result. *)
Section ladder.
Context {C : Type} (cadd : C → C → C) (rep : C → point → Prop).
Context (cadd_rep : ∀ p q P Q, on_curve P → on_curve Q → rep p P → rep q Q → rep (cadd p q) (edwards_add P Q)).
Fixpoint double_add (n : positive) (result addend : C) : C :=
  match n with
  | xH => cadd result addend
  | xO n => double_add n result (cadd addend addend)
  | xI n => double_add n (cadd result addend) (cadd addend addend)
  end.
Lemma times_double n P : on_curve P → times (2 * n) P = times n (edwards_add P P).
Proof. intros HP. rewrite N.mul_comm, times_mul by done. change 2%N with (1 + 1)%N. by rewrite times_add, times_1. Qed.
Lemma double_add_rep n : ∀ r q A P, on_curve A → on_curve P → rep r A → rep q P →
  rep (double_add n r q) (edwards_add A (times (Npos n) P)).
Proof.
  induction n as [n IH|n IH|]; intros r q A P HA HP Hr Hq; cbn [double_add].
  - change (Npos (xI n)) with (1 + 2 * Npos n)%N || replace (Npos (xI n)) with (1 + 2 * Npos n)%N by lia.
    rewrite times_add, times_1, times_double, <-add_assoc by (done || by apply times_on, add_on).
    apply IH; [by apply add_on..|by apply cadd_rep|by apply cadd_rep].
  - replace (Npos (xO n)) with (2 * Npos n)%N by lia. rewrite times_double by done.
    apply IH; [done|by apply add_on|done|by apply cadd_rep].
  - rewrite times_1 by done. by apply cadd_rep.
Qed.
End ladder.
End curve.
