(* ===== verification/Ed25519.v ===== *)
(** * Ed25519 signatures ([src/src/icode/pack_verify.py])

    The signature scheme of RFC 8032 as the verifier computes it, on integers
    and bytes: points in extended coordinates, their encodings, signing and
    verifying.  The computations are proved to be those of the curve group of
    [Edwards]: a signature the signer makes verifies, encodings are canonical,
    and a message has one signature for a given first half. *)

From Bignums Require Import BigZ.
From Stdlib Require Import ZArith Zmod Zdivisibility.
From S2P Require Import Prelude Hashing Sha512 ModArith Edwards.

Local Open Scope Z_scope.

Definition _ED_P : Z := 2 ^ 255 - 19.
Definition _ED_L : Z := 2 ^ 252 + 27742317777372353535851937790883648493.
Definition _ED_D : Z := (-121665 * powmod 121666 (_ED_P - 2) _ED_P) mod _ED_P.
Definition _ED_I : Z := powmod 2 ((_ED_P - 1) / 4) _ED_P.
Definition _ED_GX : Z := 15112221349535400772501151409588531511454012693041857206046113283949847762202.
Definition _ED_GY : Z := 46316835694926478169428394003475163141307993866256225615783033603165251855960.
(** The extended coordinates [(x, y, z, t)] of a point. *)
Definition coords : Type := Z * Z * Z * Z.
Definition _ED_G : coords := (_ED_GX, _ED_GY, 1, (_ED_GX * _ED_GY) mod _ED_P).
Definition _ED_IDENTITY : coords := (0, 1, 1, 0).
Definition _DOM4_PREFIX : list N := u "SigEd25519 no Ed25519 collisions".

(** ** Bytes *)
(** [int.from_bytes(bs, "little")] and [n.to_bytes(k, "little")] of a number below [256 ^ k]. *)
Fixpoint from_bytes_le (bs : list N) : Z :=
  match bs with [] => 0 | b :: bs => Z.of_N b + 256 * from_bytes_le bs end.
Fixpoint to_bytes_le (k : nat) (n : Z) : list N :=
  match k with O => [] | S k => Z.to_N (n mod 256) :: to_bytes_le k (n / 256) end.

(** ** The curve *)
Definition _ed_inv (x : Z) : Z := powmod x (_ED_P - 2) _ED_P.

Definition _ed_point_add (p q : coords) : coords :=
  let '(x1, y1, z1, t1) := p in
  let '(x2, y2, z2, t2) := q in
  let a := ((y1 - x1) * (y2 - x2)) mod _ED_P in
  let b := ((y1 + x1) * (y2 + x2)) mod _ED_P in
  let c := (2 * t1 * t2 * _ED_D) mod _ED_P in
  let d := (2 * z1 * z2) mod _ED_P in
  let e := b - a in let f := d - c in let g := d + c in let h := b + a in
  ((e * f) mod _ED_P, (g * h) mod _ED_P, (f * g) mod _ED_P, (e * h) mod _ED_P).

(** [while scalar > 0: ...; scalar >>= 1] *)
Fixpoint mul_loop (scalar : positive) (result addend : coords) : coords :=
  match scalar with
  | xH => _ed_point_add result addend
  | xO rest => mul_loop rest result (_ed_point_add addend addend)
  | xI rest => mul_loop rest (_ed_point_add result addend) (_ed_point_add addend addend)
  end.
Definition _ed_point_mul (scalar : Z) (point : coords) : coords :=
  match scalar with Zpos s => mul_loop s _ED_IDENTITY point | _ => _ED_IDENTITY end.

Definition _ed_compress (point : coords) : list N :=
  let '(x, y, z, _) := point in
  let zinv := _ed_inv z in
  let x := (x * zinv) mod _ED_P in
  let y := (y * zinv) mod _ED_P in
  to_bytes_le 32 (Z.lor y (Z.shiftl (Z.land x 1) 255)).

Definition _ed_recover_x (y sign : Z) : option Z :=
  if _ED_P <=? y then None else
  let x2 := ((y * y - 1) * _ed_inv (_ED_D * y * y + 1)) mod _ED_P in
  if x2 =? 0 then (if sign =? 0 then Some 0 else None) else
  let x := powmod x2 ((_ED_P + 3) / 8) _ED_P in
  let x := if (x * x - x2) mod _ED_P =? 0 then x else (x * _ED_I) mod _ED_P in
  if (x * x - x2) mod _ED_P =? 0 then Some (if Z.land x 1 =? sign then x else _ED_P - x) else None.

Definition _ed_decompress (encoded : list N) : option coords :=
  if negb (length encoded =? 32)%nat then None else
  let val := from_bytes_le encoded in
  let sign := Z.land (Z.shiftr val 255) 1 in
  let y := Z.land val (Z.shiftl 1 255 - 1) in
  x ← _ed_recover_x y sign; Some (x, y, 1, (x * y) mod _ED_P).

(** ** Signing *)
Definition _ed_secret_expand (seed : list N) : result (Z * list N) :=
  if negb (length seed =? 32)%nat then Err (ValueError "Ed25519 种子必须是 32 字节") else
  let h := sha512 seed in
  let a := from_bytes_le (take 32 h) in
  let a := Z.land a (Z.shiftl 1 254 - 8) in
  Ok (Z.lor a (Z.shiftl 1 254), drop 32 h).

(** [bytes([flag_x, len(context)])] refuses a number above 255. *)
Definition _ed_dom4 (flag_x : N) (context : list N) : result (list N) :=
  let n := N.of_nat (length context) in
  if (n <? 256)%N then Ok (_DOM4_PREFIX ++ [flag_x; n] ++ context)
  else Err (ValueError "bytes must be in range(0, 256)").

Definition ed25519_public_key (seed : list N) : result (list N) :=
  ap ← _ed_secret_expand seed; Ok (_ed_compress (_ed_point_mul ap.1 _ED_G)).

Definition ed25519_sign (seed message : list N) : result (list N) :=
  ap ← _ed_secret_expand seed;
  let '(a, prefix) := ap in
  let public := _ed_compress (_ed_point_mul a _ED_G) in
  let r := from_bytes_le (sha512 (prefix ++ message)) mod _ED_L in
  let r_enc := _ed_compress (_ed_point_mul r _ED_G) in
  let k := from_bytes_le (sha512 (r_enc ++ public ++ message)) mod _ED_L in
  let s := (r + k * a) mod _ED_L in
  Ok (r_enc ++ to_bytes_le 32 s).

(** ** Verifying *)
Definition _ed_verify_core (public_key message signature dom : list N) : bool :=
  if negb ((length public_key =? 32)%nat && (length signature =? 64)%nat) then false else
  match _ed_decompress public_key with
  | None => false
  | Some a_point =>
    let r_enc := take 32 signature in
    let s := from_bytes_le (drop 32 signature) in
    if _ED_L <=? s then false else
    match _ed_decompress r_enc with
    | None => false
    | Some r_point =>
      let k := from_bytes_le (sha512 (dom ++ r_enc ++ public_key ++ message)) mod _ED_L in
      let lhs := _ed_point_mul s _ED_G in
      let rhs := _ed_point_add r_point (_ed_point_mul k a_point) in
      bool_decide (_ed_compress lhs = _ed_compress rhs)
    end
  end.
Definition ed25519_verify (public_key message signature : list N) : bool :=
  _ed_verify_core public_key message signature [].

(** *** With a context, and of a digest of the message *)
Definition _ed_ctx_sign (seed context message : list N) (flag_x : N) : result (list N * list N) :=
  ap ← _ed_secret_expand seed;
  let '(a, prefix) := ap in
  let public := _ed_compress (_ed_point_mul a _ED_G) in
  dom ← _ed_dom4 flag_x context;
  let m := if (flag_x =? 0)%N then message else sha512 message in
  let r := from_bytes_le (sha512 (dom ++ prefix ++ m)) mod _ED_L in
  let r_enc := _ed_compress (_ed_point_mul r _ED_G) in
  let k := from_bytes_le (sha512 (dom ++ r_enc ++ public ++ m)) mod _ED_L in
  let s := (r + k * a) mod _ED_L in
  Ok (public, r_enc ++ to_bytes_le 32 s).
Definition ed25519ctx_sign (seed context message : list N) : result (list N) := snd <$> _ed_ctx_sign seed context message 0.
Definition ed25519ph_sign (seed context message : list N) : result (list N) := snd <$> _ed_ctx_sign seed context message 1.
Definition ed25519ctx_verify (public_key context message signature : list N) : result bool :=
  dom ← _ed_dom4 0 context; Ok (_ed_verify_core public_key message signature dom).
Definition ed25519ph_verify (public_key context message signature : list N) : result bool :=
  dom ← _ed_dom4 1 context; Ok (_ed_verify_core public_key (sha512 message) signature dom).

(** ** The field of the curve *)
Local Notation F := (Zmod _ED_P).
Definition emb (x : Z) : F := Zmod.of_Z _ED_P x.

Lemma prime_P : Z.prime _ED_P.
Proof. exact prime_25519. Qed.
Lemma P_bound : 2 < _ED_P.
Proof. done. Qed.

#[export] Instance zmod_eq_dec m : EqDecision (Zmod m).
Proof. intros x y. destruct (decide (Zmod.to_Z x = Zmod.to_Z y)) as [E|E]; [left; by apply Zmod.to_Z_inj|right; congruence]. Defined.
#[export] Instance field_25519 : Field F := {
  r0 := Zmod.zero; r1 := Zmod.one; radd := Zmod.add; rmul := Zmod.mul; rsub := Zmod.sub; ropp := Zmod.opp; rinv := Zmod.inv;
  field_ops := ZmodNsatz.Ring_ops_Zmod _ED_P; field_ring := ZmodNsatz.Ring_Zmod _ED_P; field_cring := ZmodNsatz.Cring_ZMod _ED_P;
  field_domain := ZmodNsatz.Integral_domain_Zmod _ED_P prime_P;
  rinv_mul := λ x Hx, Zmod.mul_inv_same_l_prime x prime_P Hx
}.

Local Open Scope field_scope.
Lemma emb_mod x : emb (x mod _ED_P) = emb x.
Proof. apply Zmod.of_Z_mod. Qed.
Lemma emb_add x y : emb (x + y)%Z = emb x + emb y.
Proof. apply Zmod.of_Z_add. Qed.
Lemma emb_sub x y : emb (x - y)%Z = emb x - emb y.
Proof. apply Zmod.of_Z_sub. Qed.
Lemma emb_mul x y : emb (x * y)%Z = emb x * emb y.
Proof. apply Zmod.of_Z_mul. Qed.
Lemma emb_opp x : emb (- x)%Z = - emb x.
Proof. apply Zmod.of_Z_opp. Qed.
Lemma emb_0 : emb 0 = 0.
Proof. apply Zmod.of_Z_0. Qed.
Lemma emb_1 : emb 1 = 1.
Proof. apply Zmod.of_Z_1. Qed.
Lemma emb_2 : emb 2 = 1 + 1.
Proof. change 2%Z with (1 + 1)%Z. by rewrite emb_add, emb_1. Qed.
Lemma emb_to_Z (x : F) : emb (Zmod.to_Z x) = x.
Proof. apply Zmod.of_Z_to_Z. Qed.
Lemma to_Z_emb x : Zmod.to_Z (emb x) = (x mod _ED_P)%Z.
Proof. apply Zmod.to_Z_of_Z. Qed.
Lemma emb_eq x y : emb x = emb y ↔ (x mod _ED_P = y mod _ED_P)%Z.
Proof. apply Zmod.of_Z_inj. Qed.
Lemma to_Z_range (x : F) : (0 <= Zmod.to_Z x < _ED_P)%Z.
Proof. by apply Zmod.to_Z_pos_bound. Qed.
Create Rewrite HintDb emb.
#[export] Hint Rewrite emb_mod emb_add emb_sub emb_mul emb_opp emb_0 emb_1 emb_2 : emb.

Lemma emb_powmod x e : (0 <= e)%Z → emb (powmod x e _ED_P) = Zmod.pow (emb x) e.
Proof.
  intros He. rewrite powmod_spec, emb_mod by done. apply Zmod.to_Z_inj.
  rewrite Zmod.to_Z_pow_nonneg_r, !to_Z_emb by done. by rewrite Z.mod_pow_l.
Qed.
Lemma emb_inv x : emb x ≠ 0 → emb (_ed_inv x) = rinv (emb x).
Proof. intros Hx. unfold _ed_inv. rewrite emb_powmod by done. by apply (Zmod.fermat_inv _ Hx prime_P). Qed.

(** *** Its constants, evaluated over machine words *)
Lemma big_powmod x e m : powmod_pos x m e = BigZ.to_Z (big_powmod_pos (BigZ.of_Z x) (BigZ.of_Z m) e).
Proof. by rewrite big_powmod_pos_spec, !BigZ.spec_of_Z. Qed.
Lemma ED_D_value : _ED_D = 37095705934669439343138083508754565189542113879843219016388785533085940283555%Z.
Proof.
  unfold _ED_D, powmod. change (_ED_P - 2)%Z with (Zpos (Z.to_pos (_ED_P - 2))). cbv iota beta. rewrite big_powmod. vm_compute. reflexivity.
Qed.
Lemma ED_I_value : _ED_I = 19681161376707505956807079304988542015446066515923890162744021073123829784752%Z.
Proof.
  unfold _ED_I, powmod. change ((_ED_P - 1) / 4)%Z with (Zpos (Z.to_pos ((_ED_P - 1) / 4))). cbv iota beta. rewrite big_powmod. vm_compute. reflexivity.
Qed.

Definition sqrt_m1 : F := emb _ED_I.
Definition dd : F := emb _ED_D.
Lemma two_nonzero : (1 : F) + 1 ≠ 0.
Proof. rewrite <-emb_2, <-emb_0, emb_eq. done. Qed.
Lemma sqrt_m1_square : sqrt_m1 * sqrt_m1 = - (1).
Proof.
  unfold sqrt_m1. rewrite <-emb_mul, <-emb_1, <-emb_opp. apply emb_eq. rewrite ED_I_value. vm_compute. reflexivity.
Qed.

(** Euler's criterion. *)
Definition half : Z := ((_ED_P - 1) / 2)%Z.
Lemma half_bounds : (0 <= half ∧ 2 * half = _ED_P - 1)%Z.
Proof. split; [by apply Z.leb_le; vm_compute|vm_compute; reflexivity]. Qed.
Lemma pow_double (x : F) e : (0 <= e)%Z → Zmod.pow (x * x)%field e = Zmod.pow x (2 * e)%Z.
Proof. intros He. by rewrite Zmod.pow_mul_r_nonneg, Zmod.pow_2_r by lia. Qed.
Lemma pow_square (x : F) e : (0 <= e)%Z → (Zmod.pow x e * Zmod.pow x e)%field = Zmod.pow x (2 * e)%Z.
Proof. intros He. rewrite <-Z.add_diag, Zmod.pow_add_r_nonneg by exact He. reflexivity. Qed.
Lemma half_power_square (x : F) : x ≠ 0 → Zmod.pow (x * x)%field half = 1.
Proof.
  intros Hx. destruct half_bounds as [H0 H1]. rewrite pow_double, H1, Z.sub_1_r by exact H0. exact (Zmod.fermat_nz x Hx prime_P).
Qed.
Lemma dd_half_power : powmod _ED_D half _ED_P = (_ED_P - 1)%Z.
Proof.
  rewrite ED_D_value. unfold powmod. change half with (Zpos (Z.to_pos half)). cbv iota beta. rewrite big_powmod. vm_compute. reflexivity.
Qed.
Lemma dd_nonsquare (x : F) : x * x ≠ dd.
Proof.
  intros E. destruct (decide (x = 0)) as [-> |Hx].
  { assert (E0 : dd = 0) by (rewrite <-E; apply Zmod.mul_0_l). unfold dd in E0. rewrite <-emb_0 in E0. apply emb_eq in E0.
    rewrite ED_D_value in E0. vm_compute in E0. discriminate E0. }
  apply half_power_square in Hx. rewrite E in Hx. unfold dd in Hx.
  rewrite <-emb_powmod, dd_half_power, <-emb_1 in Hx by apply half_bounds. apply emb_eq in Hx. vm_compute in Hx. discriminate Hx.
Qed.

(** The theorems of [Edwards] for this curve. *)
Definition Gp : point := (emb _ED_GX, emb _ED_GY).
Notation on_ed := (on_curve dd).
Notation ed_add := (edwards_add dd).
Notation ed_times := (times dd).
Notation reps := (represents (R := F)).
Lemma Gp_on : on_ed Gp.
Proof.
  unfold on_curve, curve, dd. cbn [Gp fst snd]. rewrite <-emb_1, <-!emb_mul, <-emb_opp, <-!emb_add. apply emb_eq.
  rewrite ED_D_value. vm_compute. reflexivity.
Qed.

Definition emb4 (p : coords) : ext := let '(x, y, z, t) := p in (emb x, emb y, emb z, emb t).
Lemma emb4_add p q : emb4 (_ed_point_add p q) = ext_add dd (emb4 p) (emb4 q).
Proof.
  destruct p as [[[x1 y1] z1] t1], q as [[[x2 y2] z2] t2]. unfold _ed_point_add, emb4, ext_add.
  autorewrite with emb. done.
Qed.
Lemma point_add_reps p q P Q : on_ed P → on_ed Q → reps (emb4 p) P → reps (emb4 q) Q → reps (emb4 (_ed_point_add p q)) (ed_add P Q).
Proof.
  intros HP HQ Hp Hq. rewrite emb4_add.
  exact (ext_add_represents sqrt_m1 dd two_nonzero sqrt_m1_square dd_nonsquare _ _ P Q HP HQ Hp Hq).
Qed.
Definition ed_add_on := add_on sqrt_m1 dd two_nonzero sqrt_m1_square dd_nonsquare.
Definition ed_add_comm := add_comm dd.
Definition ed_add_neutral := add_neutral sqrt_m1 dd two_nonzero sqrt_m1_square dd_nonsquare.
Definition ed_add_assoc := add_assoc sqrt_m1 dd two_nonzero sqrt_m1_square dd_nonsquare.
Definition ed_times_on := times_on sqrt_m1 dd two_nonzero sqrt_m1_square dd_nonsquare.
Definition ed_times_add := times_add sqrt_m1 dd two_nonzero sqrt_m1_square dd_nonsquare.
Definition ed_times_mul := times_mul sqrt_m1 dd two_nonzero sqrt_m1_square dd_nonsquare.
Definition ed_times_mod := times_mod sqrt_m1 dd two_nonzero sqrt_m1_square dd_nonsquare.
Definition ed_times_inj := times_inj sqrt_m1 dd two_nonzero sqrt_m1_square dd_nonsquare.

Lemma identity_reps : reps (emb4 _ED_IDENTITY) neutral.
Proof.
  unfold emb4, _ED_IDENTITY. rewrite emb_0, emb_1. exact (neutral_represents two_nonzero).
Qed.
Lemma G_reps : reps (emb4 _ED_G) Gp.
Proof.
  unfold emb4, _ED_G, represents. autorewrite with emb. cbn [Gp fst snd]. split_and!.
  - rewrite <-emb_0, <-emb_1. intros E%emb_eq. vm_compute in E. discriminate E.
  - symmetry. apply Zmod.mul_1_r.
  - symmetry. apply Zmod.mul_1_r.
  - symmetry. apply Zmod.mul_1_r.
Qed.

(** Double and add multiplies. *)
Lemma mul_loop_eq s : ∀ r q, mul_loop s r q = double_add _ed_point_add s r q.
Proof. induction s as [s IH|s IH|]; intros r q; cbn [mul_loop double_add]; [apply IH..|reflexivity]. Qed.
Definition ed_double_add := double_add_rep sqrt_m1 dd two_nonzero sqrt_m1_square dd_nonsquare _ed_point_add (λ p, reps (emb4 p)) point_add_reps.
Lemma point_mul_reps n q Q : (0 <= n)%Z → on_ed Q → reps (emb4 q) Q → reps (emb4 (_ed_point_mul n q)) (ed_times (Z.to_N n) Q).
Proof.
  intros Hn HQ Hq. destruct n as [|n|n]; [exact identity_reps| |exact (False_ind _ (Hn eq_refl))].
  cbn [_ed_point_mul Z.to_N]. rewrite mul_loop_eq, <-(ed_add_neutral (ed_times (N.pos n) Q)) by exact (ed_times_on _ Q HQ).
  exact (ed_double_add n _ _ _ _ (neutral_on dd) HQ identity_reps Hq).
Qed.

(** *** The order of the base point, over machine words *)
Definition big_P : BigZ.t := Eval vm_compute in BigZ.of_Z _ED_P.
Definition big_D : BigZ.t := Eval vm_compute in BigZ.of_Z 37095705934669439343138083508754565189542113879843219016388785533085940283555.
Lemma big_P_value : BigZ.to_Z big_P = _ED_P.
Proof. vm_compute. reflexivity. Qed.
Lemma big_D_value : BigZ.to_Z big_D = _ED_D.
Proof. rewrite ED_D_value. vm_compute. reflexivity. Qed.
Definition big_coords : Type := BigZ.t * BigZ.t * BigZ.t * BigZ.t.
Definition of_big (p : big_coords) : coords := let '(x, y, z, t) := p in (BigZ.to_Z x, BigZ.to_Z y, BigZ.to_Z z, BigZ.to_Z t).
Definition to_big (p : coords) : big_coords := let '(x, y, z, t) := p in (BigZ.of_Z x, BigZ.of_Z y, BigZ.of_Z z, BigZ.of_Z t).
Lemma of_to_big p : of_big (to_big p) = p.
Proof. destruct p as [[[x y] z] t]. cbn [to_big of_big]. by rewrite !BigZ.spec_of_Z. Qed.
Definition big_add (p q : big_coords) : big_coords :=
  let '(x1, y1, z1, t1) := p in
  let '(x2, y2, z2, t2) := q in
  let m a b := BigZ.modulo (BigZ.mul a b) big_P in
  let a := m (BigZ.sub y1 x1) (BigZ.sub y2 x2) in
  let b := m (BigZ.add y1 x1) (BigZ.add y2 x2) in
  let c := m (BigZ.mul (BigZ.mul BigZ.two t1) t2) big_D in
  let d := m (BigZ.mul BigZ.two z1) z2 in
  let e := BigZ.sub b a in let f := BigZ.sub d c in let g := BigZ.add d c in let h := BigZ.add b a in
  (m e f, m g h, m f g, m e h).
Lemma of_big_add p q : of_big (big_add p q) = _ed_point_add (of_big p) (of_big q).
Proof.
  destruct p as [[[x1 y1] z1] t1], q as [[[x2 y2] z2] t2]. unfold big_add, _ed_point_add, of_big.
  repeat (rewrite BigZ.spec_modulo || rewrite BigZ.spec_mul || rewrite BigZ.spec_sub || rewrite BigZ.spec_add).
  rewrite BigZ.spec_2, big_P_value, big_D_value. reflexivity.
Qed.
Definition big_mul (n : Z) (p : coords) : coords :=
  match n with Zpos s => of_big (double_add big_add s (to_big _ED_IDENTITY) (to_big p)) | _ => _ED_IDENTITY end.
Lemma double_add_big s : ∀ r q, of_big (double_add big_add s r q) = mul_loop s (of_big r) (of_big q).
Proof. induction s as [s IH|s IH|]; intros r q; cbn [mul_loop double_add]; rewrite ?IH, ?of_big_add; reflexivity. Qed.
Lemma big_mul_eq n p : big_mul n p = _ed_point_mul n p.
Proof. destruct n; [reflexivity| |reflexivity]. cbn [big_mul _ed_point_mul]. by rewrite double_add_big, !of_to_big. Qed.

Definition coords_neutral (p : coords) : bool :=
  let '(x, y, z, _) := p in (x mod _ED_P =? 0)%Z && (y mod _ED_P =? z mod _ED_P)%Z.
Lemma neutral_coords p P : reps (emb4 p) P → coords_neutral p = true → P = neutral.
Proof.
  destruct p as [[[x y] z] t]. cbn [coords_neutral]. intros Hr [Hx%Z.eqb_eq Hy%Z.eqb_eq]%andb_true_iff.
  cbn [emb4 represents] in Hr. destruct Hr as (Hz & X & Y & _). apply rinv_mul in Hz as Hi.
  assert (Ex : emb x = 0) by (rewrite <-emb_0; apply emb_eq; rewrite Hx; reflexivity). rewrite <-emb_eq in Hy. rewrite Ex in X. rewrite Hy in Y.
  apply injective_projections.
  - apply (mul_cancel (emb z)); [exact Hz|]. transitivity (P.1 * emb z); [apply Zmod.mul_comm|]. rewrite <-X. symmetry. apply Zmod.mul_0_r.
  - apply (mul_cancel (emb z)); [exact Hz|]. transitivity (P.2 * emb z); [apply Zmod.mul_comm|]. rewrite <-Y. symmetry. apply Zmod.mul_1_r.
Qed.
Lemma order_computed : coords_neutral (_ed_point_mul _ED_L _ED_G) = true.
Proof. rewrite <-big_mul_eq. vm_compute. reflexivity. Qed.
Lemma L_nonneg : (0 <= _ED_L)%Z.
Proof. apply Z.leb_le. vm_compute. reflexivity. Qed.
Lemma base_order : ed_times (Z.to_N _ED_L) Gp = neutral.
Proof. exact (neutral_coords _ _ (point_mul_reps _ _ _ L_nonneg Gp_on G_reps) order_computed). Qed.

(** ** Encodings *)
Local Open Scope Z_scope.
Lemma from_to_bytes k n : 0 <= n < 256 ^ Z.of_nat k → from_bytes_le (to_bytes_le k n) = n.
Proof.
  revert n. induction k as [|k IH]; intros n Hn; [cbn in *; lia|]. cbn [to_bytes_le from_bytes_le].
  rewrite Nat2Z.inj_succ, Z.pow_succ_r in Hn by lia. pose proof (Z.mod_pos_bound n 256 eq_refl).
  rewrite IH; [rewrite Z2N.id by lia; pose proof (Z.div_mod n 256); lia|].
  split; [apply Z.div_pos; lia|apply Z.div_lt_upper_bound; lia].
Qed.
Lemma to_bytes_length k n : length (to_bytes_le k n) = k.
Proof. revert n. induction k as [|k IH]; intros n; cbn; [done|]. by rewrite IH. Qed.
Lemma to_bytes_range k n : Forall (λ b, (b < 256)%N) (to_bytes_le k n).
Proof.
  revert n. induction k as [|k IH]; intros n; cbn; constructor; [|done]. pose proof (Z.mod_pos_bound n 256 eq_refl). lia.
Qed.
Lemma from_bytes_range bs : Forall (λ b, (b < 256)%N) bs → 0 <= from_bytes_le bs < 256 ^ Z.of_nat (length bs).
Proof.
  induction 1 as [|b bs Hb _ IH]; [cbn; lia|]. cbn [from_bytes_le length]. rewrite Nat2Z.inj_succ, Z.pow_succ_r by lia. lia.
Qed.
Lemma to_from_bytes bs : Forall (λ b, (b < 256)%N) bs → to_bytes_le (length bs) (from_bytes_le bs) = bs.
Proof.
  induction 1 as [|b bs Hb Hbs IH]; [done|]. cbn [from_bytes_le length to_bytes_le].
  rewrite (Z.mul_comm 256), Z_mod_plus_full, Z_div_plus_full, Z.mod_small, Z.div_small, N2Z.id, Z.add_0_l, IH by lia. done.
Qed.

Lemma land_1 x : Z.land x 1 = x mod 2.
Proof. change 1 with (Z.ones 1). by rewrite Z.land_ones. Qed.
Lemma lor_shift y b n : 0 <= n → 0 <= y < 2 ^ n → Z.lor y (Z.shiftl b n) = y + b * 2 ^ n.
Proof.
  intros Hn Hy. assert (E : Z.land y (Z.shiftl b n) = 0).
  { apply Z.bits_inj'. intros k Hk. rewrite Z.land_spec, Z.bits_0. destruct (Z.lt_ge_cases k n).
    - by rewrite (Z.shiftl_spec_low b n k), andb_false_r.
    - rewrite <-(Z.mod_small y (2 ^ n)), Z.mod_pow2_bits_high by lia. done. }
  rewrite <-Z.lxor_lor, <-Z.add_nocarry_lxor, Z.shiftl_mul_pow2 by done. done.
Qed.
(** The number a point is encoded by. *)
Definition point_value (P : point (R := F)) : Z := Zmod.to_Z P.2 + (Zmod.to_Z P.1 mod 2) * 2 ^ 255.
Definition encode (P : point (R := F)) : list N := to_bytes_le 32 (point_value P).
Lemma P_below : _ED_P < 2 ^ 255.
Proof. by apply Z.ltb_lt; vm_compute. Qed.
Lemma P_odd : _ED_P mod 2 = 1.
Proof. by vm_compute. Qed.
Lemma point_value_range P : 0 <= point_value P < 2 ^ 256.
Proof.
  unfold point_value. pose proof (to_Z_range P.2). pose proof (Z.mod_pos_bound (Zmod.to_Z P.1) 2 eq_refl). pose proof P_below.
  change (2 ^ 256) with (2 * 2 ^ 255). lia.
Qed.
Lemma point_value_parts P :
  Z.land (Z.shiftr (point_value P) 255) 1 = Zmod.to_Z P.1 mod 2 ∧ Z.land (point_value P) (Z.shiftl 1 255 - 1) = Zmod.to_Z P.2.
Proof.
  unfold point_value. pose proof (to_Z_range P.2) as Hy. pose proof (Z.mod_pos_bound (Zmod.to_Z P.1) 2 eq_refl). pose proof P_below.
  rewrite land_1, Z.shiftr_div_pow2 by lia. change (Z.shiftl 1 255 - 1) with (Z.ones 255). rewrite Z.land_ones by lia.
  split.
  - rewrite Z_div_plus_full by lia. rewrite (Z.div_small (Zmod.to_Z P.2)) by lia. apply Z.mod_mod. lia.
  - rewrite Z_mod_plus_full. apply Z.mod_small. lia.
Qed.
Lemma encode_value P : from_bytes_le (encode P) = point_value P.
Proof. apply from_to_bytes, point_value_range. Qed.

Lemma compress_reps p P : reps (emb4 p) P → _ed_compress p = encode P.
Proof.
  destruct p as [[[x y] z] t]. cbn [emb4]. intros Hr. pose proof Hr as E. apply represents_unique in E.
  cbn [represents] in Hr. destruct Hr as [Hz _]. unfold _ed_compress.
  assert (H : ∀ c : Z, (c * _ed_inv z) mod _ED_P = Zmod.to_Z (rmul (emb c) (rinv (emb z)))).
  { intros c. rewrite <-to_Z_emb, emb_mul, emb_inv by exact Hz. reflexivity. }
  rewrite !H. unfold encode, point_value. rewrite E. cbn [fst snd]. rewrite land_1, lor_shift; [reflexivity|lia|].
  pose proof (to_Z_range (rmul (emb y) (rinv (emb z)))). pose proof P_below. lia.
Qed.

(** *** Square roots *)
(** The candidate root of a square. *)
Definition root (x2 : Z) : Z :=
  let x := powmod x2 ((_ED_P + 3) / 8) _ED_P in
  if (x * x - x2) mod _ED_P =? 0 then x else (x * _ED_I) mod _ED_P.
Lemma square_test x x2 : (x * x - x2) mod _ED_P = 0 ↔ (emb x * emb x = emb x2)%field.
Proof.
  rewrite <-emb_mul, emb_eq. split.
  - intros E. replace (x * x) with (x * x - x2 + x2) by lia. rewrite Zplus_mod, E. cbn [Z.add]. apply Z.mod_mod. done.
  - intros E. rewrite Zminus_mod, E, Z.sub_diag. done.
Qed.
Lemma root_spec x2 (X : F) : (X * X = emb x2)%field → (emb (root x2) * emb (root x2) = emb x2)%field.
Proof.
  intros HX. unfold root. set (x := powmod x2 ((_ED_P + 3) / 8) _ED_P).
  destruct (Z.eqb_spec ((x * x - x2) mod _ED_P) 0) as [E|E]; [by apply square_test|]. rewrite square_test in E.
  assert (He : 0 <= (_ED_P + 3) / 8) by (apply Z.leb_le; vm_compute; reflexivity).
  assert (Hx : (emb x * emb x = X * X * Zmod.pow X half)%field).
  { unfold x. rewrite emb_powmod, <-HX, pow_double by exact He.
    assert (H4 : 2 * ((_ED_P + 3) / 8) + 2 * ((_ED_P + 3) / 8) = 2 + half) by (vm_compute; reflexivity).
    change ((Zmod.pow X (2 * ((_ED_P + 3) / 8))) * (Zmod.pow X (2 * ((_ED_P + 3) / 8))) = X * X * Zmod.pow X half)%Zmod.
    rewrite <-Zmod.pow_add_r_nonneg, H4, Zmod.pow_add_r_nonneg, Zmod.pow_2_r by (apply half_bounds || lia). reflexivity. }
  pose proof (root_step sqrt_m1 sqrt_m1_square (emb x) X (Zmod.pow X half) Hx) as H.
  rewrite emb_mod, emb_mul. fold sqrt_m1. rewrite <-HX in *. apply H; [|exact E]. intros HX0.
  rewrite <-(half_power_square X HX0), pow_double by apply half_bounds. exact (pow_square X half (proj1 half_bounds)).
Qed.

(** *** Decoding *)
Definition x_square (y : Z) : Z := ((y * y - 1) * _ed_inv (_ED_D * y * y + 1)) mod _ED_P.
Lemma recover_x_eq y sign : _ed_recover_x y sign =
  if _ED_P <=? y then None else
  if x_square y =? 0 then (if sign =? 0 then Some 0 else None) else
  if (root (x_square y) * root (x_square y) - x_square y) mod _ED_P =? 0
  then Some (if Z.land (root (x_square y)) 1 =? sign then root (x_square y) else _ED_P - root (x_square y)) else None.
Proof. unfold _ed_recover_x, root, x_square. cbv zeta. reflexivity. Qed.
Lemma x_square_curve (X : F) y : curve dd X (emb y) ↔ (X * X = emb (x_square y))%field.
Proof.
  pose proof (den_nonzero sqrt_m1 dd two_nonzero sqrt_m1_square dd_nonsquare (emb y)) as Hd.
  assert (Hden : emb (_ED_D * y * y + 1) = (dd * emb y * emb y + 1)%field) by (rewrite emb_add, !emb_mul, emb_1; reflexivity).
  rewrite <-Hden in Hd. pose proof (emb_inv _ Hd) as Hi.
  assert (Hx : emb (x_square y) = ((emb y * emb y - 1) / (emb (_ED_D * y * y + 1)))%field).
  { unfold x_square. rewrite emb_mod, emb_mul, Hi, emb_sub, emb_mul, emb_1. reflexivity. }
  rewrite Hx, curve_square, <-Hden. exact (div_iff _ _ _ Hd).
Qed.
Lemma x_square_range y : 0 <= x_square y < _ED_P.
Proof. apply Z.mod_pos_bound. reflexivity. Qed.
Lemma root_range x2 : 0 <= root x2 < _ED_P.
Proof.
  unfold root. destruct (_ =? 0); [|apply Z.mod_pos_bound; reflexivity]. rewrite powmod_spec by (apply Z.leb_le; vm_compute; reflexivity).
  apply Z.mod_pos_bound. reflexivity.
Qed.
Lemma emb_small x : 0 <= x < _ED_P → Zmod.to_Z (emb x) = x.
Proof. intros Hx. rewrite to_Z_emb. by apply Z.mod_small. Qed.
Lemma emb_zero x : 0 <= x < _ED_P → emb x = 0%field ↔ x = 0.
Proof. intros Hx. rewrite <-emb_0, emb_eq, Z.mod_small by exact Hx. reflexivity. Qed.
(** Negation changes the parity of a nonzero number. *)
Lemma negated_parity x : 0 < x < _ED_P → (_ED_P - x) mod 2 = 1 - x mod 2.
Proof. intros Hx. pose proof P_odd. rewrite Zminus_mod, P_odd. pose proof (Z.mod_pos_bound x 2 eq_refl).
  assert (x mod 2 = 0 ∨ x mod 2 = 1) as [-> | ->] by lia; reflexivity. Qed.

Lemma recover_x_sound y sign x : 0 <= sign < 2 → _ed_recover_x y sign = Some x →
  curve dd (emb x) (emb y) ∧ 0 <= x < _ED_P ∧ x mod 2 = sign ∧ y < _ED_P.
Proof.
  intros Hs. rewrite recover_x_eq. destruct (Z.leb_spec _ED_P y) as [|Hy]; [discriminate|].
  pose proof (x_square_range y) as R2. pose proof (root_range (x_square y)) as Rx. set (x2 := x_square y) in *. set (r := root x2) in *.
  destruct (Z.eqb_spec x2 0) as [E0|E0].
  { destruct (Z.eqb_spec sign 0) as [-> |]; [|discriminate]. intros [= <-]. split_and!; [|lia|done|done|done].
    apply x_square_curve. fold x2. rewrite E0, !emb_0. apply Zmod.mul_0_l. }
  destruct (Z.eqb_spec ((r * r - x2) mod _ED_P) 0) as [E|]; [|discriminate]. apply square_test in E.
  assert (Hr0 : r ≠ 0).
  { intros Hr. rewrite Hr in E. apply E0. apply (emb_zero _ R2). rewrite <-E, emb_0. apply Zmod.mul_0_l. }
  intros Hx. apply (inj Some) in Hx as <-. rewrite land_1. pose proof (Z.mod_pos_bound r 2 eq_refl).
  destruct (Z.eqb_spec (r mod 2) sign) as [Ep|Ep].
  - split_and!; [|lia|lia|done|done]. apply x_square_curve. exact E.
  - split_and!; [|lia|lia| |done].
    + apply x_square_curve. fold x2. rewrite <-E. rewrite emb_sub.
      assert (emb _ED_P = 0%field) as -> by (rewrite <-emb_0; apply emb_eq; vm_compute; reflexivity).
      assert (∀ z : F, ((0 - z) * (0 - z) = z * z)%field) as H'; [|apply H']. clear. intros z.
      change ((Zmod.zero - z) * (Zmod.zero - z) = z * z)%Zmod. rewrite !Zmod.sub_0_l. apply Zmod.mul_opp_opp.
    + rewrite negated_parity by lia. lia.
Qed.

Lemma recover_x_complete (P : point) : on_ed P → _ed_recover_x (Zmod.to_Z P.2) (Zmod.to_Z P.1 mod 2) = Some (Zmod.to_Z P.1).
Proof.
  destruct P as [X Y]. unfold on_curve. cbn [fst snd]. intros HP. rewrite <-(emb_to_Z Y) in HP. apply x_square_curve in HP.
  pose proof (to_Z_range Y) as RY. pose proof (to_Z_range X) as RX. rewrite recover_x_eq. rewrite (proj2 (Z.leb_gt _ED_P (Zmod.to_Z Y))) by lia.
  set (x2 := x_square (Zmod.to_Z Y)) in *. pose proof (x_square_range (Zmod.to_Z Y)) as R2. fold x2 in R2.
  pose proof (root_range x2) as Rx. pose proof (root_spec x2 X HP) as Hr. set (r := root x2) in *.
  assert (HX : Zmod.to_Z X = 0 ↔ X = 0%field) by apply Zmod.to_Z_0_iff.
  destruct (Z.eqb_spec x2 0) as [E0|E0].
  { rewrite E0, emb_0 in HP. apply Integral_domain.integral_domain_product in HP.
    assert (E : Zmod.to_Z X = 0) by (apply HX; by destruct HP). rewrite E. reflexivity. }
  assert (HX0 : Zmod.to_Z X ≠ 0).
  { rewrite HX. intros E. rewrite E in HP. apply E0, (emb_zero _ R2). rewrite <-HP. apply Zmod.mul_0_l. }
  rewrite (proj2 (Z.eqb_eq _ 0) (proj2 (square_test r x2) Hr)), land_1. f_equal.
  rewrite <-HP in Hr. apply opposite_square in Hr as [E|E].
  - assert (r = Zmod.to_Z X) as -> by (rewrite <-E; symmetry; by apply emb_small). by rewrite Z.eqb_refl.
  - assert (Er : r = _ED_P - Zmod.to_Z X).
    { rewrite <-(emb_small r Rx), E. cbn [ropp field_25519]. rewrite Zmod.to_Z_opp.
      rewrite <-(Z.mod_small (_ED_P - Zmod.to_Z X) _ED_P) by lia. rewrite <-(Z_mod_plus_full (- _) 1). f_equal. lia. }
    rewrite Er, negated_parity by lia. pose proof (Z.mod_pos_bound (Zmod.to_Z X) 2 eq_refl).
    destruct (Z.eqb_spec (1 - Zmod.to_Z X mod 2) (Zmod.to_Z X mod 2)); lia.
Qed.

Lemma decompress_encode P : on_ed P → ∃ p, _ed_decompress (encode P) = Some p ∧ reps (emb4 p) P.
Proof.
  intros HP. unfold _ed_decompress, encode at 1. rewrite to_bytes_length. cbn [Nat.eqb negb].
  rewrite encode_value. destruct (point_value_parts P) as [-> ->]. rewrite (recover_x_complete P HP).
  eexists. split; [reflexivity|]. cbn [emb4 represents]. rewrite emb_mod, emb_mul, !emb_to_Z, emb_1. split_and!.
  - exact (λ E, two_nonzero (eq_ind_r (λ z, (z + z = 0)%field) (Zmod.add_0_l _) E)).
  - symmetry. apply Zmod.mul_1_r.
  - symmetry. apply Zmod.mul_1_r.
  - symmetry. apply Zmod.mul_1_r.
Qed.

Definition bytes_ok (bs : list N) : Prop := Forall (λ b, (b < 256)%N) bs.
Lemma decompress_sound bs p : bytes_ok bs → _ed_decompress bs = Some p → ∃ P, on_ed P ∧ reps (emb4 p) P ∧ encode P = bs.
Proof.
  intros Hbs. unfold _ed_decompress. destruct (Nat.eqb_spec (length bs) 32) as [Hlen|]; [|discriminate]. cbn [negb].
  pose proof (from_bytes_range bs Hbs) as Hv. pose proof (to_from_bytes bs Hbs) as Hback. rewrite Hlen in Hv, Hback.
  set (v := from_bytes_le bs) in *. rewrite land_1. change (Z.shiftl 1 255 - 1) with (Z.ones 255). rewrite Z.land_ones by lia.
  pose proof (Z.mod_pos_bound (Z.shiftr v 255) 2 eq_refl) as Hs. pose proof (Z.mod_pos_bound v (2 ^ 255) eq_refl) as Hy.
  destruct (_ed_recover_x (v mod 2 ^ 255) (Z.shiftr v 255 mod 2)) as [x|] eqn:Ex; [|discriminate].
  apply recover_x_sound in Ex as (HC & Hx & Hpar & HyP); [|exact Hs]. intros Hp. apply (inj Some) in Hp as <-.
  exists (emb x, emb (v mod 2 ^ 255)). split; [exact HC|]. split.
  - cbn [emb4 represents fst snd]. rewrite emb_mod, emb_mul, emb_1. split_and!.
    + exact (λ E, two_nonzero (eq_ind_r (λ z, (z + z = 0)%field) (Zmod.add_0_l _) E)).
    + symmetry. apply Zmod.mul_1_r.
    + symmetry. apply Zmod.mul_1_r.
    + symmetry. apply Zmod.mul_1_r.
  - unfold encode, point_value. cbn [fst snd]. rewrite !emb_small, Hpar by lia.
    assert (E : v mod 2 ^ 255 + Z.shiftr v 255 mod 2 * 2 ^ 255 = v); [|rewrite E; exact Hback].
    rewrite Z.shiftr_div_pow2 by lia. pose proof (Z.div_mod v (2 ^ 255) ltac:(lia)) as Hd.
    assert (0 <= v / 2 ^ 255 < 2) by (split; [apply Z.div_pos; lia|apply Z.div_lt_upper_bound; [lia|]; exact (proj2 Hv)]).
    rewrite (Z.mod_small (v / 2 ^ 255)) by lia. lia.
Qed.
Lemma encode_inj P Q : on_ed P → on_ed Q → encode P = encode Q → P = Q.
Proof.
  intros HP HQ E. apply (f_equal from_bytes_le) in E. rewrite !encode_value in E.
  destruct (point_value_parts P) as [X Y], (point_value_parts Q) as [X' Y']. rewrite E in X, Y.
  pose proof (recover_x_complete P HP) as H1. pose proof (recover_x_complete Q HQ) as H2.
  rewrite <-X, <-Y in H1. rewrite <-X', <-Y' in H2. rewrite H1 in H2. apply (inj Some) in H2.
  apply injective_projections; apply Zmod.to_Z_inj; congruence.
Qed.
Lemma encode_length P : length (encode P) = 32%nat.
Proof. apply to_bytes_length. Qed.

(** ** What verification decides *)
Definition challenge (dom r_enc public_key message : list N) : Z :=
  from_bytes_le (sha512 (dom ++ r_enc ++ public_key ++ message)) mod _ED_L.
Lemma challenge_range dom r pk m : 0 <= challenge dom r pk m < _ED_L.
Proof. apply Z.mod_pos_bound. reflexivity. Qed.

(** A signature of [message]: a point [R] and a reduced scalar [s] with
    [s G = R + k A], [k] the challenge. *)
Record valid_signature (dom public_key message signature : list N) (A R : point (R := F)) (s : Z) : Prop := mkValid {
  vs_key : on_ed A ∧ public_key = encode A;
  vs_commitment : on_ed R;
  vs_scalar : 0 <= s < _ED_L;
  vs_bytes : signature = encode R ++ to_bytes_le 32 s;
  vs_equation : ed_times (Z.to_N s) Gp = ed_add R (ed_times (Z.to_N (challenge dom (encode R) public_key message)) A)
}.
Lemma L_below : _ED_L < 256 ^ 32.
Proof. by apply Z.ltb_lt; vm_compute. Qed.

Lemma verify_equation s a_point r_point k A R :
  0 <= s → 0 <= k → on_ed A → on_ed R → reps (emb4 a_point) A → reps (emb4 r_point) R →
  _ed_compress (_ed_point_mul s _ED_G) = _ed_compress (_ed_point_add r_point (_ed_point_mul k a_point)) ↔
  ed_times (Z.to_N s) Gp = ed_add R (ed_times (Z.to_N k) A).
Proof.
  intros Hs Hk HA HR Ha Hr. pose proof (ed_times_on (Z.to_N k) A HA) as Hon. pose proof (ed_times_on (Z.to_N s) Gp Gp_on) as Hon'.
  rewrite (compress_reps _ _ (point_mul_reps s _ _ Hs Gp_on G_reps)).
  rewrite (compress_reps _ _ (point_add_reps _ _ _ _ HR Hon Hr (point_mul_reps k _ _ Hk HA Ha))).
  split; [|intros E; exact (f_equal encode E)]. intros E. exact (encode_inj _ _ Hon' (ed_add_on _ _ HR Hon) E).
Qed.
Lemma verify_core_iff public_key message signature dom :
  bytes_ok public_key → bytes_ok signature →
  _ed_verify_core public_key message signature dom = true ↔ ∃ A R s, valid_signature dom public_key message signature A R s.
Proof.
  intros Hpk Hsig. unfold _ed_verify_core. split.
  - destruct (Nat.eqb_spec (length public_key) 32) as [L1|]; [|discriminate].
    destruct (Nat.eqb_spec (length signature) 64) as [L2|]; [|discriminate]. cbn [andb negb].
    destruct (_ed_decompress public_key) as [a_point|] eqn:Ea; [|discriminate].
    apply (decompress_sound _ _ Hpk) in Ea as (A & HA & Ra & EA).
    assert (Hr : bytes_ok (take 32 signature)) by exact (Forall_take _ 32 _ Hsig). assert (Hd : bytes_ok (drop 32 signature)) by exact (Forall_drop _ 32 _ Hsig).
    match goal with |- (if _ED_L <=? ?s then _ else _) = true → _ => destruct (Z.leb_spec _ED_L s) as [|Hs]; [discriminate|] end.
    destruct (_ed_decompress (take 32 signature)) as [r_point|] eqn:Er; [|discriminate].
    apply (decompress_sound _ _ Hr) in Er as (R & HR & Rr & ER). intros E%bool_decide_eq_true.
    pose proof (from_bytes_range _ Hd) as Hs0. exists A, R, (from_bytes_le (drop 32 signature)).
    split; [exact (conj HA (eq_sym EA))|exact HR|exact (conj (proj1 Hs0) Hs)|..].
    + rewrite ER. rewrite <-(take_drop 32 signature) at 1. f_equal. rewrite <-(to_from_bytes _ Hd) at 1. f_equal. rewrite length_drop, L2. reflexivity.
    + fold (challenge dom (take 32 signature) public_key message) in E. rewrite <-ER in E.
      exact (proj1 (verify_equation _ a_point r_point _ A R (proj1 Hs0) (proj1 (challenge_range _ _ _ _)) HA HR Ra Rr) E).
  - intros (A & R & s & [[HA ->] HR Hs -> E]). rewrite encode_length, length_app, encode_length, to_bytes_length. cbn [Nat.eqb Nat.add andb negb].
    destruct (decompress_encode A HA) as (a_point & -> & Ra). 
    rewrite (take_app_length' (encode R)), (drop_app_length' (encode R)) by exact (eq_sym (encode_length R)).
    rewrite from_to_bytes by (pose proof L_below; cbn; lia). rewrite (proj2 (Z.leb_gt _ED_L s)) by lia.
    destruct (decompress_encode R HR) as (r_point & -> & Rr). apply bool_decide_eq_true.
    exact (proj2 (verify_equation s a_point r_point _ A R (proj1 Hs) (proj1 (challenge_range _ _ _ _)) HA HR Ra Rr) E).
Qed.

(** ** Signing makes valid signatures *)
Lemma secret_expand_ok seed a prefix : _ed_secret_expand seed = Ok (a, prefix) → 0 <= a.
Proof.
  unfold _ed_secret_expand. destruct (negb _); [discriminate|]. intros E. apply Ok_inj in E. apply (f_equal fst) in E. cbn [fst] in E.
  rewrite <-E. apply Z.lor_nonneg. split; [apply Z.land_nonneg; right|]; apply Z.leb_le; vm_compute; reflexivity.
Qed.
Lemma public_encode a : 0 <= a → _ed_compress (_ed_point_mul a _ED_G) = encode (ed_times (Z.to_N a) Gp).
Proof. intros Ha. exact (compress_reps _ _ (point_mul_reps a _ _ Ha Gp_on G_reps)). Qed.

Lemma reduced_times a : 0 <= a → ed_times (Z.to_N (a mod _ED_L)) Gp = ed_times (Z.to_N a) Gp.
Proof.
  intros Ha. rewrite Z2N.inj_mod by (exact Ha || exact L_nonneg). exact (ed_times_mod _ _ _ Gp_on base_order).
Qed.
(** The equation of a signature made from a nonce [r] and a secret [a]. *)
Lemma signed_equation r k a : 0 <= r → 0 <= k → 0 <= a →
  ed_times (Z.to_N ((r + k * a) mod _ED_L)) Gp = ed_add (ed_times (Z.to_N r) Gp) (ed_times (Z.to_N k) (ed_times (Z.to_N a) Gp)).
Proof.
  intros Hr Hk Ha. pose proof (Z.mul_nonneg_nonneg _ _ Hk Ha) as Hka. rewrite reduced_times by lia.
  rewrite Z2N.inj_add, Z2N.inj_mul by assumption. 
  exact (eq_trans (ed_times_add (Z.to_N r) (Z.to_N k * Z.to_N a) Gp Gp_on)
                  (f_equal (ed_add (ed_times (Z.to_N r) Gp)) (ed_times_mul (Z.to_N k) (Z.to_N a) Gp Gp_on))).
Qed.
Lemma signed_valid dom r a message :
  0 <= r → 0 <= a →
  let public := encode (ed_times (Z.to_N a) Gp) in
  let r_enc := encode (ed_times (Z.to_N r) Gp) in
  valid_signature dom public message (r_enc ++ to_bytes_le 32 ((r + challenge dom r_enc public message * a) mod _ED_L))
    (ed_times (Z.to_N a) Gp) (ed_times (Z.to_N r) Gp) ((r + challenge dom r_enc public message * a) mod _ED_L).
Proof.
  intros Hr Ha public r_enc. split.
  - exact (conj (ed_times_on _ _ Gp_on) eq_refl).
  - exact (ed_times_on _ _ Gp_on).
  - apply Z.mod_pos_bound. reflexivity.
  - reflexivity.
  - apply signed_equation; [exact Hr|apply challenge_range|exact Ha].
Qed.
Lemma encode_bytes P : bytes_ok (encode P).
Proof. apply to_bytes_range. Qed.
Lemma signed_verifies dom r a message :
  0 <= r → 0 <= a →
  let public := encode (ed_times (Z.to_N a) Gp) in
  let r_enc := encode (ed_times (Z.to_N r) Gp) in
  _ed_verify_core public message (r_enc ++ to_bytes_le 32 ((r + challenge dom r_enc public message * a) mod _ED_L)) dom = true.
Proof.
  intros Hr Ha public r_enc. apply verify_core_iff.
  - apply encode_bytes.
  - apply Forall_app. split; [apply encode_bytes|apply to_bytes_range].
  - eexists _, _, _. exact (signed_valid dom r a message Hr Ha).
Qed.
Lemma nonce_range h : 0 <= from_bytes_le h mod _ED_L.
Proof. apply Z.mod_pos_bound. reflexivity. Qed.

(** A seed signs every message with a signature that verifies. *)
Lemma seed_signs seed message :
  length seed = 32%nat →
  ∃ public signature, ed25519_public_key seed = Ok public ∧ ed25519_sign seed message = Ok signature ∧
    length public = 32%nat ∧ length signature = 64%nat ∧ ed25519_verify public message signature = true.
Proof.
  intros Hseed. unfold ed25519_public_key, ed25519_sign. destruct (_ed_secret_expand seed) as [[a prefix]|e] eqn:Es.
  2: { unfold _ed_secret_expand in Es. rewrite Hseed in Es. discriminate. }
  apply secret_expand_ok in Es as Ha. cbn [mbind result_bind fst]. rewrite public_encode, public_encode by (exact Ha || apply nonce_range).
  eexists _, _. split; [reflexivity|]. split; [reflexivity|]. split; [apply encode_length|].
  split; [rewrite length_app, encode_length, to_bytes_length; reflexivity|].
  apply (signed_verifies [] _ a message); [apply nonce_range|exact Ha].
Qed.

(** C7: Signing and verifying agree.  For every seed of 32 bytes and every
    message a public key and a signature exist, of 32 and 64 bytes, and the
    signature verifies under the key. *)
Theorem ed25519_sign_verify seed message :
  length seed = 32%nat →
  ∃ public signature, ed25519_public_key seed = Ok public ∧ ed25519_sign seed message = Ok signature ∧
    length public = 32%nat ∧ length signature = 64%nat ∧ ed25519_verify public message signature = true.
Proof. exact (seed_signs seed message). Qed.

(** C9: What verification decides, for any bytes: the key and the first half of
    the signature are the canonical encodings of points [A] and [R] of the
    curve, the second half is a scalar below the group order, and
    [s G = R + k A] in the group, [k] the challenge of the message. *)
Theorem ed25519_verify_iff public_key message signature :
  bytes_ok public_key → bytes_ok signature →
  ed25519_verify public_key message signature = true ↔ ∃ A R s, valid_signature [] public_key message signature A R s.
Proof. exact (λ Hpk Hsig, verify_core_iff public_key message signature [] Hpk Hsig). Qed.

Lemma Gp_nonzero : Gp ≠ neutral.
Proof.
  intros E. apply (f_equal fst) in E. cbn [Gp neutral fst] in E. rewrite <-emb_0 in E. apply emb_eq in E. vm_compute in E. discriminate E.
Qed.
Lemma scalar_unique s s' : 0 <= s < _ED_L → 0 <= s' < _ED_L → ed_times (Z.to_N s) Gp = ed_times (Z.to_N s') Gp → s = s'.
Proof.
  intros Hs Hs' E. apply Z2N.inj; [lia..|]. assert (Hp : Z.prime (Z.of_N (Z.to_N _ED_L))).
  { rewrite Z2N.id by exact L_nonneg. exact prime_group_order. }
  refine (ed_times_inj _ _ _ _ Hp Gp_on base_order Gp_nonzero _ _ E); apply Z2N.inj_lt; lia.
Qed.

(** C8: Signatures are not malleable.  Two signatures that verify for the same
    key and message and start with the same 32 bytes are equal: the scalar of
    the second half is the only one, the base point having prime order. *)
Theorem ed25519_not_malleable public_key message signature signature' :
  bytes_ok public_key → bytes_ok signature → bytes_ok signature' →
  ed25519_verify public_key message signature = true → ed25519_verify public_key message signature' = true →
  take 32 signature = take 32 signature' → signature = signature'.
Proof.
  intros Hpk Hsig Hsig' V V' Ht. apply (verify_core_iff _ _ _ [] Hpk Hsig) in V as (A & R & s & [[HA EA] HR Hs -> E]).
  apply (verify_core_iff _ _ _ [] Hpk Hsig') in V' as (A' & R' & s' & [[HA' EA'] HR' Hs' -> E']).
  rewrite (take_app_length' (encode R)), (take_app_length' (encode R')) in Ht by (symmetry; apply encode_length).
  assert (A' = A) as -> by (apply encode_inj; [exact HA'|exact HA|congruence]).
  apply encode_inj in Ht as <-; [|exact HR|exact HR']. f_equal. f_equal. apply scalar_unique; [exact Hs|exact Hs'|].
  exact (eq_trans E (eq_sym E')).
Qed.

(** *** With a context, and of a digest *)
Lemma dom4_ok flag context : (length context <= 255)%nat → _ed_dom4 flag context = Ok (_DOM4_PREFIX ++ [flag; N.of_nat (length context)] ++ context).
Proof. intros Hc. unfold _ed_dom4. by rewrite (proj2 (N.ltb_lt _ _)) by lia. Qed.
Lemma ctx_sign_ok seed context message flag :
  length seed = 32%nat → (length context <= 255)%nat →
  ∃ public signature dom, ed25519_public_key seed = Ok public ∧ _ed_dom4 flag context = Ok dom ∧
    _ed_ctx_sign seed context message flag = Ok (public, signature) ∧
    _ed_verify_core public (if (flag =? 0)%N then message else sha512 message) signature dom = true.
Proof.
  intros Hseed Hc. unfold ed25519_public_key, _ed_ctx_sign. destruct (_ed_secret_expand seed) as [[a prefix]|e] eqn:Es.
  2: { unfold _ed_secret_expand in Es. rewrite Hseed in Es. discriminate. }
  apply secret_expand_ok in Es as Ha. cbn [mbind result_bind fst]. rewrite (dom4_ok flag context Hc). cbn [mbind result_bind].
  rewrite public_encode, public_encode by (exact Ha || apply nonce_range).
  eexists _, _, _. split; [reflexivity|]. split; [reflexivity|]. split; [reflexivity|].
  apply (signed_verifies _ _ a); [apply nonce_range|exact Ha].
Qed.
(** The two variants verify what they sign; a context of more than 255 bytes
    has no signature. *)
Theorem ed25519ctx_sign_verify seed context message :
  length seed = 32%nat → (length context <= 255)%nat →
  ∃ public signature, ed25519_public_key seed = Ok public ∧ ed25519ctx_sign seed context message = Ok signature ∧
    ed25519ctx_verify public context message signature = Ok true.
Proof.
  intros Hs Hc. destruct (ctx_sign_ok seed context message 0 Hs Hc) as (pk & sg & dom & Hp & Hd & Hg & Hv).
  exists pk, sg. unfold ed25519ctx_sign, ed25519ctx_verify. rewrite Hg, Hd. split; [exact Hp|]. split; [reflexivity|]. cbn in *. by rewrite Hv.
Qed.
Theorem ed25519ph_sign_verify seed context message :
  length seed = 32%nat → (length context <= 255)%nat →
  ∃ public signature, ed25519_public_key seed = Ok public ∧ ed25519ph_sign seed context message = Ok signature ∧
    ed25519ph_verify public context message signature = Ok true.
Proof.
  intros Hs Hc. destruct (ctx_sign_ok seed context message 1 Hs Hc) as (pk & sg & dom & Hp & Hd & Hg & Hv).
  exists pk, sg. unfold ed25519ph_sign, ed25519ph_verify. rewrite Hg, Hd. split; [exact Hp|]. split; [reflexivity|].
  cbn [fmap result_fmap snd mbind result_bind N.eqb] in *. by rewrite Hv.
Qed.

(** ** Test vectors, over machine words *)
Definition big_inv (x : Z) : Z := BigZ.to_Z (big_powmod_pos (BigZ.of_Z x) big_P (Z.to_pos (_ED_P - 2))).
Lemma big_inv_eq x : big_inv x = _ed_inv x.
Proof.
  unfold big_inv, _ed_inv, powmod. rewrite big_powmod_pos_spec, BigZ.spec_of_Z, big_P_value.
  change (_ED_P - 2) with (Zpos (Z.to_pos (_ED_P - 2))). reflexivity.
Qed.
Definition big_compress (point : coords) : list N :=
  let '(x, y, z, _) := point in
  let zinv := big_inv z in
  let x := (x * zinv) mod _ED_P in
  let y := (y * zinv) mod _ED_P in
  to_bytes_le 32 (Z.lor y (Z.shiftl (Z.land x 1) 255)).
Lemma big_compress_eq p : big_compress p = _ed_compress p.
Proof. destruct p as [[[x y] z] t]. unfold big_compress, _ed_compress. by rewrite big_inv_eq. Qed.
Definition big_sign (seed message : list N) : result (list N * list N) :=
  ap ← _ed_secret_expand seed;
  let '(a, prefix) := ap in
  let public := big_compress (big_mul a _ED_G) in
  let r := from_bytes_le (sha512 (prefix ++ message)) mod _ED_L in
  let r_enc := big_compress (big_mul r _ED_G) in
  let k := from_bytes_le (sha512 (r_enc ++ public ++ message)) mod _ED_L in
  let s := (r + k * a) mod _ED_L in
  Ok (public, r_enc ++ to_bytes_le 32 s).
Lemma big_sign_eq seed message :
  ed25519_public_key seed = fst <$> big_sign seed message ∧ ed25519_sign seed message = snd <$> big_sign seed message.
Proof.
  unfold big_sign, ed25519_public_key, ed25519_sign. destruct (_ed_secret_expand seed) as [[a prefix]|e]; [|done].
  cbn [mbind result_bind fmap result_fmap fst snd]. rewrite !big_compress_eq, !big_mul_eq. done.
Qed.
(** RFC 8032, 7.1, test 1. *)
Definition rfc_seed : list N := bytes_be 32 71185727259945196030657158393116523760833600269775786460544228200423405551456.
Example rfc8032_test_1 :
  ed25519_public_key rfc_seed = Ok (bytes_be 32 97407327787400415639667502615603022372991571135152837278227918677548317757722) ∧
  hex_of_bytes <$> ed25519_sign rfc_seed [] =
    Ok (u "e5564300c360ac729086e2cc806e828a84877f1eb8e5d974d873e065224901555fb8821590a33bacc61e39701cf9b46bd25bf5f0595bbe24655141438e7a100b").
Proof. destruct (big_sign_eq rfc_seed []) as [-> ->]. vm_compute. done. Qed.

Definition rfc_public : list N := bytes_be 32 97407327787400415639667502615603022372991571135152837278227918677548317757722.
Lemma ed25519_sign_verify_witness :
  length rfc_seed = 32%nat ∧
  ∃ public signature, ed25519_public_key rfc_seed = Ok public ∧ ed25519_sign rfc_seed [] = Ok signature ∧
    length public = 32%nat ∧ length signature = 64%nat ∧ ed25519_verify public [] signature = true.
Proof. split; [reflexivity|]. exact (ed25519_sign_verify rfc_seed [] eq_refl). Defined.
Lemma ed25519_verify_iff_witness :
  bytes_ok rfc_public ∧ bytes_ok (bytes_be 64 12) ∧
  (ed25519_verify rfc_public [] (bytes_be 64 12) = true ↔ ∃ A R s, valid_signature [] rfc_public [] (bytes_be 64 12) A R s).
Proof.
  assert (H1 : bytes_ok rfc_public) by exact (bytes_be_range 32 _). assert (H2 : bytes_ok (bytes_be 64 12)) by exact (bytes_be_range 64 _).
  split; [exact H1|]. split; [exact H2|]. exact (ed25519_verify_iff rfc_public [] (bytes_be 64 12) H1 H2).
Defined.
(** The signature of a message by the secret 1 with the nonce 1. *)
Definition unit_public : list N := encode (ed_times (Z.to_N 1) Gp).
Definition unit_signature (message : list N) : list N :=
  unit_public ++ to_bytes_le 32 ((1 + challenge [] unit_public unit_public message * 1) mod _ED_L).
Lemma unit_signature_verifies message :
  bytes_ok unit_public ∧ bytes_ok (unit_signature message) ∧ ed25519_verify unit_public message (unit_signature message) = true.
Proof.
  split; [apply encode_bytes|]. split; [apply Forall_app; split; [apply encode_bytes|apply to_bytes_range]|].
  apply (signed_verifies [] 1 1 message); lia.
Qed.
Lemma ed25519_not_malleable_witness :
  ed25519_verify unit_public (u "abc") (unit_signature (u "abc")) = true ∧ unit_signature (u "abc") = unit_signature (u "abc").
Proof.
  destruct (unit_signature_verifies (u "abc")) as (H1 & H2 & V). split; [exact V|].
  exact (ed25519_not_malleable unit_public (u "abc") _ _ H1 H2 H2 V V eq_refl).
Defined.
