(* ===== verification/PackTree.v ===== *)
(** * The files of an evidence pack ([src/src/icode/pack_verify.py])

    A pack is a directory as the verifier finds it: [node] is what [lstat],
    [open] and [scandir] deliver.  Here are the operations on it: the lookup of
    a member that refuses links and escapes, the walk over every entry, the
    bounded readers and the file digest with its shared budget. *)

From S2P Require Import Prelude PyText PyVal Hashing Json JsonParse StrictJson Utf8 EventChain.

Definition _SHA256_FILE_READ_SIZE : N := 1024 * 1024.
Definition _JSON_FILE_READ_SIZE : N := 64 * 1024.
Definition _MAX_PACKAGE_ENTRY_COUNT : N := 100000.

(** ** The tree

    [size] is what [stat] reports, [content] what reading delivers, or the class
    of the [OSError] that [open] raises.  A directory is searched ([lstat] of a
    child) and listed ([scandir]) by permission; its names are distinct.  A link
    is a symbolic link or a Windows reparse point. *)
Inductive node : Type :=
  | NFile (size : N) (content : list N + pystr)
  | NDir (search listing : bool) (entries : list (pystr * node))
  | NLink
  | NSpecial.

(** ** Members *)
(** The parts of a canonical relative path. *)
Definition windows_drive (relative : pystr) : bool := match relative with _ :: c :: _ => (c =? 58)%N | _ => false end.
Definition member_parts (relative : pystr) : option (list pystr) :=
  let parts := split_on 47 relative in
  if bool_decide (relative = []) || (0%N ∈s relative) || (92%N ∈s relative) || windows_drive relative
     || existsb (λ part, part ∈s [[]; u "."; u ".."]) parts
  then None else Some parts.

(** The components one by one: [None] when one of them is a link or cannot be
    examined, [Some None] when there is nothing of that name. *)
Fixpoint descend (n : node) (parts : list pystr) : option (option node) :=
  match parts with
  | [] => Some (Some n)
  | part :: rest =>
    match n with
    | NDir true _ entries =>
      match dget part entries with
      | None => Some None
      | Some NLink => None
      | Some child => descend child rest
      end
    | _ => None
    end
  end.
Definition _package_member_path (pack : node) (relative : pystr) : option (option node) :=
  match member_parts relative with None => None | Some parts => descend pack parts end.
(** [path.is_file()], and what is there. *)
Definition is_file (found : option node) : bool := match found with Some (NFile _ _) => true | _ => false end.

(** ** The walk *)
Inductive entry_kind := KLink | KFile | KSpecial.
#[export] Instance entry_kind_eq_dec : EqDecision entry_kind.
Proof. solve_decision. Defined.
Definition leaf_kind (n : node) : option entry_kind :=
  match n with NFile _ _ => Some KFile | NDir _ _ _ => None | NLink => Some KLink | NSpecial => Some KSpecial end.

(** [sorted(l, key=...)], stable. *)
Section sort.
Context {A : Type} (key : A → pystr).
Fixpoint sort_insert (x : A) (l : list A) : list A :=
  match l with
  | [] => [x]
  | y :: l' => match str_compare (key x) (key y) with Gt => y :: sort_insert x l' | _ => x :: l end
  end.
Definition sort_by (l : list A) : list A := foldr sort_insert [] l.
Lemma sort_insert_perm x l : sort_insert x l ≡ₚ x :: l.
Proof.
  induction l as [|y l IH]; cbn; [done|]. destruct (str_compare (key x) (key y)); [done..|]. rewrite IH. apply Permutation_swap.
Qed.
Lemma sort_by_perm l : sort_by l ≡ₚ l.
Proof. induction l as [|x l IH]; cbn; [done|]. by rewrite sort_insert_perm, IH. Qed.
Lemma elem_sort_by x l : x ∈ sort_by l ↔ x ∈ l.
Proof. by rewrite sort_by_perm. Qed.
End sort.

(** The entries delivered, and the entry count or the exception that ends it. *)
Definition walked : Type := list (list pystr * entry_kind) * (N + exn).
Definition walker : Type := list pystr → N → walked.
(** Sub-directories in turn: the stack of the source is a preorder. *)
Fixpoint walk_directories (dirs : list (pystr * walker)) (prefix : list pystr) (count : N) : walked :=
  match dirs with
  | [] => ([], inl count)
  | (name, w) :: rest =>
    match w (prefix ++ [name]) count with
    | (found, inr e) => (found, inr e)
    | (found, inl count) => let '(more, stop) := walk_directories rest prefix count in (found ++ more, stop)
    end
  end.
Definition directory_walk (search listing : bool) (entries : list (pystr * (option entry_kind * walker))) : walker := λ prefix count,
  if negb listing then ([], inr OSError) else
  let count := (count + N.of_nat (length entries))%N in
  if (_MAX_PACKAGE_ENTRY_COUNT <? count)%N then ([], inr PackageEntryLimitExceeded)
  else if negb search && negb (length entries =? 0) then ([], inr OSError)
  else
    let sorted := sort_by fst entries in
    let here := omap (λ e, match e.2.1 with Some k => Some (prefix ++ [e.1], k) | None => None end) sorted in
    let directories := omap (λ e, match e.2.1 with Some _ => None | None => Some (e.1, e.2.2) end) sorted in
    let '(below, stop) := walk_directories directories prefix count in (here ++ below, stop).
Fixpoint walk (n : node) : walker :=
  match n with
  | NDir search listing entries => directory_walk search listing (map (λ e, (e.1, (leaf_kind e.2, walk e.2))) entries)
  | _ => λ _ count, ([], inl count)
  end.
Definition _walk_package_entries (pack : node) : walked := walk pack [] 0%N.

(** ** Reading *)
Fixpoint split_at (n : N) (l : list N) : list N * list N :=
  match l with
  | [] => ([], [])
  | x :: t => if (n =? 0)%N then ([], l) else let '(a, b) := split_at (n - 1) t in (x :: a, b)
  end.

Record _HashReadBudget := mkBudget { max_bytes : N; bytes_read : N }.
Definition remaining (b : _HashReadBudget) : N := (max_bytes b - bytes_read b)%N.
Definition consume (amount : N) (b : _HashReadBudget) : option _HashReadBudget :=
  if (remaining b <? amount)%N then None else Some (mkBudget (max_bytes b) (bytes_read b + amount)).

Definition read_size (limit : option N) (total : N) (budget : option _HashReadBudget) : N :=
  let r := _SHA256_FILE_READ_SIZE in
  let r := match limit with Some m => N.min r (m - total + 1) | None => r end in
  match budget with Some b => N.min r (remaining b + 1) | None => r end.

(** [while True: chunk = stream.read(read_size); ...]; [digested] is what the
    digest was updated with.  A chunk takes at least one byte, so one turn for
    every byte left and one more are enough. *)
Fixpoint hash_loop (fuel : nat) (limit : option N) (budget : option _HashReadBudget) (total : N) (digested rest : list N)
  : result (list N) * option _HashReadBudget :=
  match fuel with
  | O => (Err (RuntimeError "fuel"), budget)
  | S fuel =>
    let '(chunk, rest) := split_at (read_size limit total budget) rest in
    match chunk with
    | [] => (Ok digested, budget)
    | _ =>
      let n := N.of_nat (length chunk) in
      let total := (total + n)%N in
      if match limit with Some m => (m <? total)%N | None => false end then (Err FileSizeLimitExceeded, budget)
      else match budget with
      | None => hash_loop fuel limit None total (digested ++ chunk) rest
      | Some b => match consume n b with
                  | None => (Err HashReadBudgetExceeded, budget)
                  | Some b => hash_loop fuel limit (Some b) total (digested ++ chunk) rest
                  end
      end
    end
  end.
Definition sha256_file (n : node) (limit : option N) (budget : option _HashReadBudget) : result pystr * option _HashReadBudget :=
  match n with
  | NFile _ (inl content) =>
    let '(r, budget) := hash_loop (S (length content)) limit budget 0 [] content in (sha256_hex <$> r, budget)
  | _ => (Err OSError, budget)
  end.

Fixpoint bounded_loop (fuel : nat) (limit total : N) (chunks rest : list N) : result (list N) :=
  match fuel with
  | O => Err (RuntimeError "fuel")
  | S fuel =>
    let '(chunk, rest) := split_at (N.min _JSON_FILE_READ_SIZE (limit - total + 1)) rest in
    match chunk with
    | [] => Ok chunks
    | _ =>
      let total := (total + N.of_nat (length chunk))%N in
      if (limit <? total)%N then Err (ValueError "控制JSON超过输入字节上限") else bounded_loop fuel limit total (chunks ++ chunk) rest
    end
  end.
Definition read_bounded_bytes (n : node) (limit : N) : result (list N) :=
  match n with
  | NFile _ (inl content) => bounded_loop (S (length content)) limit 0 [] content
  | _ => Err OSError
  end.

Definition load_json_value (n : node) (limit : N) : result pyval :=
  raw ← read_bounded_bytes n limit; text ← decode_utf8 raw; loads_json_value text.
Definition _load_json (n : node) (limit : N) : result dict :=
  value ← load_json_value n limit;
  match value with PyDict d => Ok d | _ => Err (ValueError "JSON 根节点必须是对象") end.
(** No check of the values: a contract snapshot may hold a NaN. *)
Definition _load_contract_snapshot (n : node) (limit : N) : result dict :=
  raw ← read_bounded_bytes n limit; text ← decode_utf8 raw;
  _ ← _check_json_structural_token_budget (Some _MAX_JSON_CONTAINER_DEPTH) text;
  value ← loads unique_loads text;
  match value with PyDict d => Ok d | _ => Err (ValueError "contracts.json 根节点必须是对象") end.

(** ** The tree, as mathematics *)
(** What is at a path, permissions aside. *)
Fixpoint at_path (n : node) (parts : list pystr) : option node :=
  match parts with
  | [] => Some n
  | part :: rest =>
    match n with
    | NDir _ _ entries => match dget part entries with Some child => at_path child rest | None => None end
    | _ => None
    end
  end.
(** Names are distinct in every directory. *)
Fixpoint well_formed (n : node) : Prop :=
  match n with
  | NDir _ _ entries => NoDup (dkeys entries) ∧ foldr (λ e P, well_formed e.2 ∧ P) True entries
  | _ => True
  end.
Section node_ind.
Context (P : node → Prop) (Hfile : ∀ s c, P (NFile s c)) (Hlink : P NLink) (Hspecial : P NSpecial).
Context (Hdir : ∀ s l entries, Forall (λ e, P e.2) entries → P (NDir s l entries)).
Fixpoint node_nested_ind (n : node) : P n :=
  match n with
  | NFile s c => Hfile s c
  | NLink => Hlink
  | NSpecial => Hspecial
  | NDir s l entries =>
    Hdir s l entries ((fix go es := match es return Forall (λ e, P e.2) es with
                                    | [] => Forall_nil_2 _
                                    | e :: es => Forall_cons_2 _ _ _ (node_nested_ind e.2) (go es)
                                    end) entries)
  end.
End node_ind.

Lemma well_formed_entries s l entries : well_formed (NDir s l entries) ↔ NoDup (dkeys entries) ∧ Forall (λ e, well_formed e.2) entries.
Proof.
  cbn [well_formed]. split; intros [H1 H2]; (split; [exact H1|]); clear H1.
  - induction entries as [|e entries IH]; cbn in *; [constructor|]. destruct H2. constructor; [done|by apply IH].
  - induction H2 as [|e entries He _ IH]; cbn; [done|by split].
Qed.

(** A found member is in the tree, with no link on the way to it. *)
Lemma descend_at n parts m : descend n parts = Some (Some m) → at_path n parts = Some m.
Proof.
  revert n. induction parts as [|part rest IH]; intros n; cbn [descend at_path]; [by intros [= ->]|].
  destruct n as [| [] l entries| |]; try discriminate. destruct (dget part entries) as [c|]; [|discriminate].
  destruct c; try discriminate; apply IH.
Qed.
Definition canonical (parts : list pystr) : Prop := parts ≠ [] ∧ Forall (λ p, p ≠ [] ∧ p ≠ u "." ∧ p ≠ u ".." ∧ 47%N ∉ p) parts.
Lemma split_on_parts c s : Forall (λ p, c ∉ p) (split_on c s).
Proof.
  induction s as [|d s IH]; cbn; [repeat constructor; apply not_elem_of_nil|].
  destruct (N.eqb_spec d c) as [->|Hne]; [constructor; [apply not_elem_of_nil|done]|].
  destruct (split_on c s) as [|w ws]; [repeat constructor; set_solver|]. apply Forall_cons in IH as [Hw Hws].
  constructor; [set_solver|done].
Qed.
(** A member's path is its parts joined, and stays inside the pack. *)
Lemma member_parts_ok relative parts : member_parts relative = Some parts → relative = join (u "/") parts ∧ canonical parts.
Proof.
  unfold member_parts. destruct (_ || _) eqn:E; [discriminate|]. intros Hp. apply (inj Some) in Hp as <-.
  split; [symmetry; apply (join_split 47)|]. split; [apply split_on_nonempty|].
  rewrite !orb_false_iff in E. destruct E as [_ E]. apply existsb_none in E. apply Forall_forall. intros p Hp.
  pose proof (proj1 (Forall_forall _ _) E p Hp) as Hx. apply bool_decide_eq_false in Hx.
  pose proof (proj1 (Forall_forall _ _) (split_on_parts 47 relative) p Hp) as Hs. cbn beta in Hs.
  split_and!; [| | |exact Hs]; intros ->; apply Hx; by_compute.
Qed.

(** ** The walk is complete *)
Lemma walk_directories_ok dirs prefix count found count' :
  walk_directories dirs prefix count = (found, inl count') →
  ∃ parts, length parts = length dirs ∧ found = concat parts ∧
    Forall2 (λ d part, ∃ c c', d.2 (prefix ++ [d.1]) c = (part, inl c')) dirs parts.
Proof.
  revert count found. induction dirs as [|[name w] dirs IH]; intros count found; cbn [walk_directories].
  { intros [= <- _]. by exists []. }
  destruct (w (prefix ++ [name]) count) as [found1 [c1|e]] eqn:Ew; [|discriminate].
  destruct (walk_directories dirs prefix c1) as [more stop] eqn:Er. intros [= <- ->].
  destruct (IH _ _ Er) as (parts & Hl & -> & HF). exists (found1 :: parts). split; [cbn; lia|]. split; [done|].
  constructor; [by exists count, c1|done].
Qed.

Definition leaf_at (n : node) (parts : list pystr) (k : entry_kind) : Prop := ∃ m, at_path n parts = Some m ∧ leaf_kind m = Some k.

(** An enumeration that comes to its end delivers every entry that is not a
    directory, under its path, and nothing else. *)
Lemma entries_delivered n : well_formed n → ∀ prefix count found count',
  leaf_kind n = None → walk n prefix count = (found, inl count') →
  ∀ path k, (path, k) ∈ found ↔ ∃ parts, path = prefix ++ parts ∧ leaf_at n parts k.
Proof.
  induction n as [s c| | |s l entries IH] using node_nested_ind; try discriminate. intros Hwf prefix count found count' _ Hw path k.
  apply well_formed_entries in Hwf as [Hnd Hwf]. cbn [walk] in Hw. unfold directory_walk in Hw.
  destruct l; [|discriminate]. cbn [negb] in Hw. destruct (_ <? _)%N; [discriminate|]. destruct (_ && _); [discriminate|].
  set (es := map (λ e, (e.1, (leaf_kind e.2, walk e.2))) entries) in *. set (sorted := sort_by fst es) in *.
  set (dirs := omap (λ e, match e.2.1 with Some _ => None | None => Some (e.1, e.2.2) end) sorted) in *.
  match type of Hw with context [walk_directories dirs prefix ?c] => destruct (walk_directories dirs prefix c) as [below stop] eqn:Eb end.
  injection Hw as <- ->. destruct (walk_directories_ok _ _ _ _ _ Eb) as (parts & Hlen & -> & HF).
  assert (Hes : ∀ name kw, (name, kw) ∈ sorted ↔ ∃ m, (name, m) ∈ entries ∧ kw = (leaf_kind m, walk m)).
  { intros name kw. unfold sorted. rewrite elem_sort_by. unfold es. rewrite list_elem_of_fmap. split.
    - intros ([nm m] & [= -> ->] & Hin). by exists m.
    - intros (m & Hin & ->). by exists (name, m). }
  rewrite elem_of_app. split.
  - intros [Hh|Hb].
    + apply list_elem_of_omap in Hh as ([name [kk w]] & Hin & Hk). cbn [fst snd] in Hk. destruct kk as [kk|]; [|discriminate].
      injection Hk as <- <-. apply Hes in Hin as (m & Hin & [= Hk _]). exists [name]. split; [done|]. exists m.
      cbn [at_path]. by rewrite (elem_dget _ _ _ Hnd Hin).
    + apply list_elem_of_In, in_concat in Hb as (part & Hpart & Hin). apply list_elem_of_In in Hpart, Hin.
      apply list_elem_of_lookup in Hpart as (j & Hj). destruct (Forall2_lookup_r _ _ _ _ _ HF Hj) as ([name w] & Hd & c1 & c2 & Hw).
      apply list_elem_of_lookup_2 in Hd. apply list_elem_of_omap in Hd as ([name' [kk w']] & Hd & Hk). cbn [fst snd] in Hk, Hw.
      destruct kk; [discriminate|]. injection Hk as -> ->. apply Hes in Hd as (m & Hm & [= Hk ->]). symmetry in Hk.
      pose proof (proj1 (Forall_forall _ _) IH _ Hm) as IHm. pose proof (proj1 (Forall_forall _ _) Hwf _ Hm) as Hwm. cbn [snd] in IHm, Hwm.
      destruct (proj1 (IHm Hwm _ _ _ _ Hk Hw path k) Hin) as (rest & -> & leaf & Hat & Hlk). exists (name :: rest). split; [by rewrite <-app_assoc|].
      exists leaf. cbn [at_path]. by rewrite (elem_dget _ _ _ Hnd Hm).
  - intros ([|name rest] & -> & leaf & Hat & Hlk).
    { cbn [at_path] in Hat. injection Hat as <-. discriminate Hlk. }
    cbn [at_path] in Hat. destruct (dget name entries) as [m|] eqn:Em; [|discriminate]. apply dget_Some_elem in Em as Hm.
    destruct (leaf_kind m) as [km|] eqn:Ek.
    + left. destruct rest as [|r rest]; [|by destruct m]. cbn [at_path] in Hat. injection Hat as <-.
      assert (km = k) as -> by congruence. apply list_elem_of_omap. exists (name, (Some k, walk m)). split; [|done].
      apply Hes. exists m. by rewrite Ek.
    + right. assert (Hd : (name, walk m) ∈ dirs).
      { apply list_elem_of_omap. exists (name, (None, walk m)). split; [|done]. apply Hes. exists m. by rewrite Ek. }
      apply list_elem_of_lookup in Hd as (j & Hj). destruct (Forall2_lookup_l _ _ _ _ _ HF Hj) as (part & Hp & c1 & c2 & Hw). cbn [fst snd] in Hw.
      apply list_elem_of_lookup_2 in Hp. apply list_elem_of_In, in_concat. exists part. split; [by apply list_elem_of_In|]. apply list_elem_of_In.
      pose proof (proj1 (Forall_forall _ _) IH _ Hm) as IHm. pose proof (proj1 (Forall_forall _ _) Hwf _ Hm) as Hwm. cbn [snd] in IHm, Hwm.
      apply (IHm Hwm _ _ _ _ Ek Hw). exists rest. split; [by rewrite <-app_assoc|]. by exists leaf.
Qed.

(** ** The digest is of the whole file, or a limit was met *)
Lemma split_at_spec n l : split_at n l = (take (N.to_nat n) l, drop (N.to_nat n) l).
Proof.
  revert n. induction l as [|x t IH]; intros n; cbn [split_at]; [by rewrite take_nil, drop_nil|].
  destruct (N.eqb_spec n 0) as [->|Hn]; [done|]. rewrite IH.
  replace (N.to_nat n) with (S (N.to_nat (n - 1))) by lia. done.
Qed.
Definition spend (n : N) (budget : option _HashReadBudget) : option _HashReadBudget :=
  (λ b, mkBudget (max_bytes b) (bytes_read b + n)) <$> budget.
(** What is left to read before a limit is met. *)
Definition fits (limit : option N) (budget : option _HashReadBudget) (total n : N) : Prop :=
  (∀ m, limit = Some m → (total + n ≤ m)%N) ∧ (∀ b, budget = Some b → (n ≤ remaining b)%N).
Definition over_error (limit : option N) (budget : option _HashReadBudget) (total : N) : exn :=
  match limit, budget with
  | Some m, Some b => if (m - total <=? remaining b)%N then FileSizeLimitExceeded else HashReadBudgetExceeded
  | Some _, None => FileSizeLimitExceeded
  | None, _ => HashReadBudgetExceeded
  end.

Lemma hash_loop_ok fuel limit budget total digested rest :
  length rest < fuel → fits limit budget total (N.of_nat (length rest)) →
  hash_loop fuel limit budget total digested rest = (Ok (digested ++ rest), spend (N.of_nat (length rest)) budget).
Proof.
  revert budget total digested rest. induction fuel as [|fuel IH]; intros budget total digested rest Hf [F1 F2]; [lia|].
  cbn [hash_loop]. rewrite split_at_spec. destruct rest as [|x rest].
  { rewrite take_nil, app_nil_r. cbn [length]. f_equal. destruct budget as [[m r]|]; [|done]. cbn. do 2 f_equal. lia. }
  assert (Hr : (0 < read_size limit total budget)%N).
  { unfold read_size, _SHA256_FILE_READ_SIZE. destruct limit, budget; lia. }
  set (l := x :: rest) in *. assert (Hl : 0 < length l) by (cbn; lia). set (r := read_size limit total budget) in *.
  pose proof (length_take l (N.to_nat r)) as Hc. pose proof (length_drop l (N.to_nat r)) as Hd. pose proof (take_drop (N.to_nat r) l) as Htd.
  set (chunk := take (N.to_nat r) l) in *. set (rest' := drop (N.to_nat r) l) in *. clearbody chunk rest' l r.
  destruct chunk as [|c cs]; [cbn in Hc; lia|]. set (chunk := c :: cs) in *. clearbody chunk.
  assert (Hsum : N.of_nat (length l) = (N.of_nat (length chunk) + N.of_nat (length rest'))%N) by (rewrite <-Htd, length_app; lia).
  assert (Happ : digested ++ l = (digested ++ chunk) ++ rest') by (by rewrite <-app_assoc, Htd).
  assert (Hlim : match limit with Some m => (m <? total + N.of_nat (length chunk))%N | None => false end = false).
  { destruct limit as [m|]; [|done]. apply N.ltb_ge. specialize (F1 m eq_refl). lia. }
  rewrite Hlim. destruct budget as [b|].
  - unfold consume. specialize (F2 b eq_refl). rewrite (proj2 (N.ltb_ge _ _)) by lia. rewrite IH; [|lia|].
    + rewrite Hsum, Happ. cbn [spend fmap option_fmap option_map max_bytes bytes_read]. by rewrite N.add_assoc.
    + split; [intros m Hm; specialize (F1 m Hm); lia|]. intros b' [= <-]. unfold remaining in *. cbn [max_bytes bytes_read]. lia.
  - rewrite IH; [|lia|].
    + by rewrite Happ.
    + split; [intros m Hm; specialize (F1 m Hm); lia|done].
Qed.

Lemma hash_loop_over fuel limit budget total digested rest :
  length rest < fuel → (∀ m, limit = Some m → (total ≤ m)%N) → ¬ fits limit budget total (N.of_nat (length rest)) →
  (hash_loop fuel limit budget total digested rest).1 = Err (over_error limit budget total).
Proof.
  revert budget total digested rest. induction fuel as [|fuel IH]; intros budget total digested rest Hf Hm Hn; [lia|].
  cbn [hash_loop]. rewrite split_at_spec. destruct rest as [|x rest].
  { destruct Hn. split; [intros m E; specialize (Hm m E); cbn; lia|intros; cbn; lia]. }
  assert (Hr : (0 < read_size limit total budget)%N).
  { unfold read_size, _SHA256_FILE_READ_SIZE. destruct limit, budget; lia. }
  assert (Hchunk : N.of_nat (length (take (N.to_nat (read_size limit total budget)) (x :: rest)))
                   = N.min (read_size limit total budget) (N.of_nat (length (x :: rest)))) by (rewrite length_take; lia).
  set (chunk := take (N.to_nat (read_size limit total budget)) (x :: rest)) in *.
  destruct (N.to_nat (read_size limit total budget)) as [|k] eqn:Ek; [lia|]. 
  assert (Hc : ∃ c cs, chunk = c :: cs) by (unfold chunk; cbn [take]; by eexists _, _).
  destruct Hc as (c & cs & Hc). rewrite Hc. rewrite Hc in Hchunk.
  set (n := N.of_nat (length (c :: cs))) in *. set (rest' := drop (S k) (x :: rest)).
  assert (Hrest : N.of_nat (length rest') = (N.of_nat (length (x :: rest)) - n)%N).
  { unfold rest'. rewrite length_drop. lia. }
  assert (Hrs : (read_size limit total budget ≤ match limit with Some m => m - total + 1 | None => read_size limit total budget end)%N ∧
                (read_size limit total budget ≤ match budget with Some b => remaining b + 1 | None => read_size limit total budget end)%N).
  { unfold read_size. destruct limit, budget; lia. }
  destruct Hrs as [R1 R2].
  assert (Hlt : length rest' < fuel) by (cbn [length] in *; lia).
  destruct limit as [m|].
  - specialize (Hm m eq_refl). destruct (N.ltb_spec m (total + n)%N) as [Hover|Hle].
    + cbn [fst]. unfold over_error. destruct budget as [b|]; [|done]. by rewrite (proj2 (N.leb_le _ _)) by lia.
    + destruct budget as [b|].
      * unfold consume. destruct (N.ltb_spec (remaining b) n) as [Hb|Hb].
        { cbn [fst]. unfold over_error. by rewrite (proj2 (N.leb_gt _ _)) by lia. }
        rewrite IH; [|exact Hlt|intros m' [= <-]; lia|].
        { unfold over_error, remaining in *. cbn [max_bytes bytes_read]. repeat match goal with |- context [(?a <=? ?b)%N] => destruct (N.leb_spec a b) end; (done || lia). }
        intros [G1 G2]. destruct Hn. split; [intros m' [= <-]; specialize (G1 m eq_refl); lia|].
        intros b' [= <-]. specialize (G2 _ eq_refl). unfold remaining in *. cbn [max_bytes bytes_read] in *. lia.
      * rewrite IH; [done|exact Hlt|intros m' [= <-]; lia|]. intros [G1 _]. destruct Hn.
        split; [intros m' [= <-]; specialize (G1 m eq_refl); lia|done].
  - destruct budget as [b|].
    + unfold consume. destruct (N.ltb_spec (remaining b) n) as [Hb|Hb]; [done|]. rewrite IH; [done|exact Hlt|done|].
      intros [_ G2]. destruct Hn. split; [done|]. intros b' [= <-]. specialize (G2 _ eq_refl).
      unfold remaining in *. cbn [max_bytes bytes_read] in *. lia.
    + destruct Hn. by split.
Qed.

Lemma fits_dec limit budget total n : fits limit budget total n ∨ ¬ fits limit budget total n.
Proof.
  destruct (match limit with Some m => (total + n <=? m)%N | None => true end && match budget with Some b => (n <=? remaining b)%N | None => true end) eqn:E.
  - left. apply andb_true_iff in E as [E1 E2]. split; [intros m ->|intros b ->]; by apply N.leb_le.
  - right. intros [F1 F2]. apply andb_false_iff in E as [E|E].
    + destruct limit as [m|]; [|discriminate]. apply N.leb_gt in E. specialize (F1 m eq_refl). lia.
    + destruct budget as [b|]; [|discriminate]. apply N.leb_gt in E. specialize (F2 b eq_refl). lia.
Qed.

(** The file digest: of the whole content when that fits the limits, which the
    budget is then charged for; the error of the nearer limit otherwise. *)
Lemma sha256_file_spec size content limit budget :
  (fits limit budget 0 (N.of_nat (length content)) ∧
   sha256_file (NFile size (inl content)) limit budget = (Ok (sha256_hex content), spend (N.of_nat (length content)) budget)) ∨
  (¬ fits limit budget 0 (N.of_nat (length content)) ∧
   (sha256_file (NFile size (inl content)) limit budget).1 = Err (over_error limit budget 0)).
Proof.
  unfold sha256_file. destruct (fits_dec limit budget 0 (N.of_nat (length content))) as [Hf|Hf]; [left|right]; (split; [exact Hf|]).
  - rewrite hash_loop_ok by (exact Hf || lia). done.
  - pose proof (hash_loop_over (S (length content)) limit budget 0 [] content ltac:(lia) ltac:(lia) Hf) as H.
    destruct (hash_loop _ _ _ _ _ _) as [r b]. cbn [fst] in *. by rewrite H.
Qed.
Lemma sha256_file_ok n limit budget h budget' :
  sha256_file n limit budget = (Ok h, budget') → ∃ size content, n = NFile size (inl content) ∧ h = sha256_hex content.
Proof.
  destruct n as [size [content|]| | |]; try discriminate. intros H. exists size, content. split; [done|].
  destruct (sha256_file_spec size content limit budget) as [[_ E]|[_ E]]; rewrite H in E; [by injection E|discriminate E].
Qed.

Lemma bounded_loop_spec fuel limit total chunks rest :
  length rest < fuel → (total ≤ limit)%N →
  bounded_loop fuel limit total chunks rest =
  if (total + N.of_nat (length rest) <=? limit)%N then Ok (chunks ++ rest) else Err (ValueError "控制JSON超过输入字节上限").
Proof.
  revert total chunks rest. induction fuel as [|fuel IH]; intros total chunks rest Hf Ht; [lia|].
  cbn [bounded_loop]. rewrite split_at_spec. destruct rest as [|x rest].
  { rewrite take_nil, app_nil_r. cbn [length]. by rewrite (proj2 (N.leb_le _ _)) by lia. }
  set (r := N.min _JSON_FILE_READ_SIZE (limit - total + 1)). assert (Hr : (0 < r ∧ r ≤ limit - total + 1)%N) by (unfold r, _JSON_FILE_READ_SIZE; lia).
  set (l := x :: rest) in *. assert (Hl : 0 < length l) by (cbn; lia).
  pose proof (length_take l (N.to_nat r)) as Hc. pose proof (length_drop l (N.to_nat r)) as Hd. pose proof (take_drop (N.to_nat r) l) as Htd.
  set (chunk := take (N.to_nat r) l) in *. set (rest' := drop (N.to_nat r) l) in *. clearbody chunk rest' l.
  destruct chunk as [|c cs]; [cbn in Hc; lia|]. destruct (N.ltb_spec limit (total + N.of_nat (length (c :: cs)))) as [Ho|Ho].
  - rewrite (proj2 (N.leb_gt _ _)) by lia. done.
  - rewrite IH by lia. rewrite <-Htd, <-app_assoc, length_app.
    replace (total + N.of_nat (length (c :: cs)) + N.of_nat (length rest'))%N with (total + N.of_nat (length (c :: cs) + length rest'))%N by lia. done.
Qed.
Lemma read_bounded_ok n limit bs : read_bounded_bytes n limit = Ok bs →
  ∃ size, n = NFile size (inl bs) ∧ (N.of_nat (length bs) ≤ limit)%N.
Proof.
  destruct n as [size [content|]| | |]; try discriminate. unfold read_bounded_bytes. rewrite bounded_loop_spec by lia.
  destruct (N.leb_spec (0 + N.of_nat (length content)) limit); [|discriminate]. cbn [app]. intros E. apply Ok_inj in E as <-. exists size. split; [done|lia].
Qed.
