(* ===== verification/PackSignature.v ===== *)
(** * The signature and the anchors of a pack ([src/src/icode/pack_verify.py])

    [_signature_problems] checks [signature.json] against the bytes of the
    manifest and of the anchors, [validate_anchor_bundle] the anchor records. *)

From S2P Require Import Prelude PyText PyVal Hashing Json StrictJson EventSchema EventChain Ed25519 PackTree.

Definition MANIFEST_NAME : pystr := u "manifest.json".
Definition SIGNATURE_NAME : pystr := u "signature.json".
Definition ANCHORS_NAME : pystr := u "anchors.json".
Definition SIGNATURE_MESSAGE_PREFIX : list N := u "icode-pack-signature-v1" ++ [10%N].
Definition SIGNATURE_ALGORITHM : pystr := u "ed25519".
Definition _SIGNATURE_SCHEMA_VERSION : Z := 1.
Definition _ANCHORS_SCHEMA_VERSION : Z := 1.
Definition _MAX_MANIFEST_JSON_BYTES : N := 16 * 1024 * 1024.
Definition _MAX_SIGNATURE_JSON_BYTES : N := 64 * 1024.
Definition _MAX_ANCHORS_JSON_BYTES : N := 256 * 1024.
Definition _MAX_ANCHOR_RECORDS : nat := 256.
Definition _ANCHOR_FIELD_VALUE_MAX_CHARS : nat := 512.

Definition _SIGNATURE_FIELDS : list pystr := [
  u "schema_version"; u "algorithm"; u "public_key"; u "signature"; u "key_fingerprint"; u "signed_object"; u "signed_digest";
  u "anchors_included"; u "signed_at"].

(** ** [bytes.fromhex] *)
Definition hex_value (c : N) : option N :=
  if is_digit c then Some (c - 48)%N else if in_range 97 102 c then Some (c - 87)%N else if in_range 65 70 c then Some (c - 55)%N else None.
(** ASCII white space may stand between the pairs. *)
Definition hex_space (c : N) : bool := (c =? 32)%N || in_range 9 13 c.
Fixpoint fromhex (s : pystr) : option (list N) :=
  match s with
  | [] => Some []
  | c :: rest =>
    if hex_space c then fromhex rest else
    match rest with
    | [] => None
    | d :: rest' =>
      match hex_value c, hex_value d, fromhex rest' with
      | Some a, Some b, Some bs => Some ((16 * a + b)%N :: bs)
      | _, _, _ => None
      end
    end
  end.
Definition bytes_fromhex (s : pystr) : result (list N) :=
  match fromhex s with Some bs => Ok bs | None => Err (ValueError "non-hexadecimal number found in fromhex() arg") end.

Definition _hex_bytes (value : pyval) (byte_len : nat) : option (list N) :=
  match value with
  | PyStr s => if (length s =? byte_len * 2) && forallb is_hex_lower s && negb (length s =? 0) then fromhex s else None
  | _ => None
  end.

(** Fields that are missing and fields that are unknown, in order. *)
Definition missing_fields (known : list pystr) (d : dict) : list pystr := sorted_strs (filter (λ k, k ∉ dkeys d) known).
Definition extra_fields (known : list pystr) (d : dict) : list pystr := sorted_strs (filter (λ k, k ∉ known) (dkeys d)).
Definition field_problems (known : list pystr) (d : dict) (missing extra : pystr) : list pystr :=
  (if bool_decide (missing_fields known d = []) then [] else [missing ++ join (u ",") (missing_fields known d)])
  ++ (if bool_decide (extra_fields known d = []) then [] else [extra ++ join (u ",") (extra_fields known d)]).

Definition when (bad : bool) (message : string) : list pystr := if bad then [u message] else [].

(** The class of what reading a file raises. *)
Definition exn_class (n : node) (e : exn) : pystr :=
  match e with
  | OSError => match n with NFile _ (inr name) => name | _ => u "OSError" end
  | ValueError "invalid utf-8" => u "UnicodeDecodeError"
  | JSONDecodeError _ _ => u "JSONDecodeError"
  | _ => u "ValueError"
  end.

(** ** [signature.json] *)
(** The anchors bytes the signature must cover, or the report that ends the check. *)
Definition signed_anchors (included : pyval) (anchors : option node) : list pystr * (option (list N) + pystr) :=
  match included with
  | PyBool true =>
    match anchors with
    | None => ([u "签名声明包含 anchors.json 但包内缺失"], inl None)
    | Some n => match read_bounded_bytes n _MAX_ANCHORS_JSON_BYTES with
                | Ok bs => ([], inl (Some bs))
                | Err e => ([], inr (u "anchors.json 读取失败：" ++ exn_class n e))
                end
    end
  | PyBool false => (when (match anchors with Some _ => true | None => false end) "包内存在 anchors.json 但签名未声明包含（签名覆盖不完整）", inl None)
  | _ => ([u "签名记录 anchors_included 无效（必须是布尔）"], inl None)
  end.

Definition signature_message (manifest_bytes : list N) (anchors_bytes : option (list N)) : list N :=
  SIGNATURE_MESSAGE_PREFIX ++ manifest_bytes
  ++ match anchors_bytes with Some bs => [10%N] ++ u "anchors.json" ++ [10%N] ++ bs | None => [] end.

(** [anchors]: [anchors.json], when it is a file. *)
Definition _signature_problems (manifest : dict) (signature manifest_file : node) (anchors : option node) (public_key : option pystr)
  : result (list pystr) :=
  match public_key with
  | Some key =>
    if negb (hex64 key) then Ok [u "包已携带签名但未提供有效的 --public-key（64 位小写 hex），无法验签"] else
    match load_json_value signature _MAX_SIGNATURE_JSON_BYTES with
    | Err e => Ok [u "签名文件不可解析：" ++ exn_class signature e]
    | Ok (PyDict record) =>
      let fields := field_problems _SIGNATURE_FIELDS record (u "签名记录缺少字段：") (u "签名记录含未知字段：") in
      if negb (bool_decide (fields = [])) then Ok fields else
      let get k := pget (u k) record in
      let p1 := when (negb (py_eq (get "schema_version"%string) (PyInt _SIGNATURE_SCHEMA_VERSION))) "签名记录 schema_version 不受支持"
                ++ when (negb (is_lit (get "algorithm"%string) SIGNATURE_ALGORITHM)) "签名算法不受支持（仅 ed25519）"
                ++ when (negb (is_lit (get "signed_object"%string) MANIFEST_NAME)) "签名对象不受支持（仅 manifest.json）" in
      match get "public_key"%string with
      | PyStr embedded_key =>
        let p2 := p1 ++ (if negb (hex64 embedded_key) then [u "签名记录 public_key 无效（必须 64 位 hex）"]
                         else when (embedded_key ≠s key) "签名公钥与提供公钥不一致（疑似换钥重签）") in
        match read_bounded_bytes manifest_file _MAX_MANIFEST_JSON_BYTES with
        | Err e => Ok (p2 ++ [u "manifest 读取失败：" ++ exn_class manifest_file e])
        | Ok manifest_bytes =>
          let '(p3, covered) := signed_anchors (get "anchors_included"%string) anchors in
          match covered with
          | inr failure => Ok (p2 ++ p3 ++ [failure])
          | inl anchors_bytes =>
            let p4 := p2 ++ p3
              ++ when (negb (py_eq (get "signed_digest"%string) (pget (u "pack_digest") manifest))) "签名记录 signed_digest 与清单 pack_digest 不一致"
              ++ when (negb (str_test (λ s, (1 <=? length s) && (length s <=? 64)) (get "signed_at"%string))) "签名记录 signed_at 无效" in
            key_bytes ← bytes_fromhex embedded_key;
            let p5 := p4 ++ when (negb (is_lit (get "key_fingerprint"%string) (take 16 (sha256_hex key_bytes)))) "签名记录 key_fingerprint 与 public_key 不符" in
            match _hex_bytes (get "signature"%string) 64 with
            | None => Ok (p5 ++ [u "签名记录 signature 无效（必须是 128 位 hex）"])
            | Some sig_bytes =>
              if negb (bool_decide (p5 = [])) then Ok p5 else
              public ← bytes_fromhex key;
              Ok (when (negb (ed25519_verify public (signature_message manifest_bytes anchors_bytes) sig_bytes))
                    "签名验证失败（manifest 或 anchors.json 被改动，或签名不匹配）")
            end
          end
        end
      | _ => Err (TypeError "expected string or bytes-like object")
      end
    | Ok _ => Ok [u "签名文件结构无效（必须是 JSON 对象）"]
    end
  | None => Ok [u "包已携带签名但未提供有效的 --public-key（64 位小写 hex），无法验签"]
  end.

(** ** [anchors.json] *)
Definition ANCHOR_TYPES : list pystr := [u "git-tag"; u "ci-run"; u "rfc3161-file"; u "transparency-log-entry"].
Definition _ANCHOR_RECORD_FIELDS : list pystr := [u "type"; u "anchor_target"; u "anchor_time"; u "evidence"].
Definition _ANCHOR_REQUIRED_EVIDENCE : list (pystr * list pystr) := [
  (u "git-tag", [u "tag"; u "repository"]); (u "ci-run", [u "run_url"; u "run_id"; u "conclusion"]);
  (u "rfc3161-file", [u "file_fingerprint"; u "hash_algorithm"]); (u "transparency-log-entry", [u "log_id"; u "entry_url"])].
Definition _ANCHOR_HTTPS_FIELDS : list pystr := [u "run_url"; u "entry_url"].
Definition field_text_ok : pyval → bool := str_test (λ s, (1 <=? length s) && (length s <=? _ANCHOR_FIELD_VALUE_MAX_CHARS)).

Section anchors.
Context `{PyRepr}.
Definition anchor_record_problems (pack_digest : pystr) (index : nat) (record : pyval) : list pystr :=
  let label := u "第 " ++ dec_z (Z.of_nat index) ++ u " 条锚定记录" in
  match record with
  | PyDict d =>
    let fields := field_problems _ANCHOR_RECORD_FIELDS d (label ++ u "缺少字段：") (label ++ u "含未知字段：") in
    if negb (bool_decide (fields = [])) then fields else
    match pget (u "type") d with
    | PyStr t =>
      match dget t _ANCHOR_REQUIRED_EVIDENCE with
      | None => [label ++ u "类型不在封闭词表内：" ++ py_repr (PyStr t)]
      | Some required =>
        (if field_text_ok (pget (u "anchor_time") d) then [] else [label ++ u "anchor_time 无效"])
        ++ (if is_lit (pget (u "anchor_target") d) pack_digest then [] else [label ++ u "anchor_target 与包摘要不符（疑似换包重贴锚定）"])
        ++ match pget (u "evidence") d with
           | PyDict evidence =>
             let fields := field_problems required evidence (label ++ u "evidence 缺少字段：") (label ++ u "evidence 含未知字段：") in
             if negb (bool_decide (fields = [])) then fields
             else concat ((λ key, if field_text_ok (pget key evidence) then []
                                  else [label ++ u "evidence." ++ key ++ u " 无效（必须是非空且不超限的字符串）"]) <$> required)
                  ++ concat ((λ key, if str_test (λ s, (s ≠s []) && negb (startswith (u "https://") s)) (pget key evidence)
                                     then [label ++ u "evidence." ++ key ++ u " 必须是 https URL"] else [])
                               <$> filter (λ key, key ∈ _ANCHOR_HTTPS_FIELDS) required)
           | _ => [label ++ u "evidence 结构无效（必须是对象）"]
           end
      end
    | v => [label ++ u "类型不在封闭词表内：" ++ py_repr v]
    end
  | _ => [label ++ u "结构无效（必须是对象）"]
  end.
Definition validate_anchor_bundle (bundle pack_digest : pyval) : list pystr :=
  match bundle with
  | PyDict d =>
    when (negb (py_eq (pget (u "schema_version") d) (PyInt _ANCHORS_SCHEMA_VERSION))) "anchors.json schema_version 不受支持"
    ++ match pget (u "records") d with
       | PyList records =>
         if _MAX_ANCHOR_RECORDS <? length records then [u "anchors.json 记录数量超过安全上限"] else
         match pack_digest with
         | PyStr digest => if hex64 digest then concat (imap (λ i r, anchor_record_problems digest (S i) r) records)
                           else [u "锚定校验所需的包摘要无效"]
         | _ => [u "锚定校验所需的包摘要无效"]
         end
       | _ => [u "anchors.json records 结构无效（必须是数组）"]
       end
  | _ => [u "anchors.json 结构无效（必须是 JSON 对象）"]
  end.
End anchors.

(** ** What an accepted signature is *)
Lemma hex_value_small c a : hex_value c = Some a → (a < 16)%N.
Proof.
  unfold hex_value, is_digit, in_range. destruct ((48 <=? c)%N && (c <=? 57)%N) eqn:E1; [intros [= <-]; autorewrite with py in E1; lia|].
  destruct ((97 <=? c)%N && (c <=? 102)%N) eqn:E2; [intros [= <-]; autorewrite with py in E2; lia|].
  destruct ((65 <=? c)%N && (c <=? 70)%N) eqn:E3; [|discriminate]. intros [= <-]. autorewrite with py in E3. lia.
Qed.
Lemma fromhex_bytes s bs : fromhex s = Some bs → bytes_ok bs.
Proof.
  revert bs. assert (H : ∀ n s bs, length s ≤ n → fromhex s = Some bs → bytes_ok bs).
  { clear. intros n. induction n as [|n IH]; intros s bs Hn; (destruct s as [|c [|d rest]]; cbn in Hn; try lia); cbn [fromhex].
    - intros [= <-]. constructor.
    - intros [= <-]. constructor.
    - destruct (hex_space c); [intros [= <-]; constructor|discriminate].
    - destruct (hex_space c); [apply (IH (d :: rest)); cbn; lia|].
      destruct (hex_value c) as [a|] eqn:Ea; [|discriminate]. destruct (hex_value d) as [b|] eqn:Eb; [|discriminate].
      destruct (fromhex rest) as [bs'|] eqn:Er; [|discriminate]. intros [= <-].
      apply hex_value_small in Ea, Eb. constructor; [lia|]. apply (IH rest); [lia|exact Er]. }
  intros bs. by apply (H (length s)).
Qed.
Lemma when_nil b m : when b m = [] ↔ b = false.
Proof. by destruct b. Qed.

(** What [signature.json] must say, and sign. *)
Record signature_ok (manifest : dict) (signature manifest_file : node) (anchors : option node) (public_key : pystr) : Prop := mkSignatureOk {
  so_key : hex64 public_key = true;
  so_record : ∃ record manifest_bytes anchors_bytes key_bytes sig_bytes,
    load_json_value signature _MAX_SIGNATURE_JSON_BYTES = Ok (PyDict record) ∧
    missing_fields _SIGNATURE_FIELDS record = [] ∧ extra_fields _SIGNATURE_FIELDS record = [] ∧
    pget (u "algorithm") record = PyStr SIGNATURE_ALGORITHM ∧ pget (u "signed_object") record = PyStr MANIFEST_NAME ∧
    pget (u "public_key") record = PyStr public_key ∧ py_eq (pget (u "signed_digest") record) (pget (u "pack_digest") manifest) = true ∧
    read_bounded_bytes manifest_file _MAX_MANIFEST_JSON_BYTES = Ok manifest_bytes ∧
    match anchors with
    | Some n => pget (u "anchors_included") record = PyBool true ∧ ∃ bs, read_bounded_bytes n _MAX_ANCHORS_JSON_BYTES = Ok bs ∧ anchors_bytes = Some bs
    | None => pget (u "anchors_included") record = PyBool false ∧ anchors_bytes = None
    end ∧
    fromhex public_key = Some key_bytes ∧ _hex_bytes (pget (u "signature") record) 64 = Some sig_bytes ∧
    ∃ A R s, valid_signature [] key_bytes (signature_message manifest_bytes anchors_bytes) sig_bytes A R s
}.

Lemma signed_anchors_ok included anchors p c :
  signed_anchors included anchors = (p, c) →
  (p = [] ∧ ∃ o, c = inl o) → match anchors with
             | Some n => included = PyBool true ∧ ∃ bs, read_bounded_bytes n _MAX_ANCHORS_JSON_BYTES = Ok bs ∧ c = inl (Some bs)
             | None => included = PyBool false ∧ c = inl None
             end.
Proof.
  unfold signed_anchors. intros E [-> (o & ->)]. destruct included as [|[]| | | | | | |]; try discriminate.
  - destruct anchors as [n|]; [|discriminate]. destruct (read_bounded_bytes n _) as [bs|]; [|discriminate].
    injection E as <-. split; [done|]. by exists bs.
  - destruct anchors as [n|]; [discriminate|]. injection E as <-. done.
Qed.

(** An accepted signature is one over the bytes of the manifest, and of the
    anchors when the pack has any, by the holder of the key the caller trusts. *)
Lemma signature_accepted manifest signature manifest_file anchors public_key :
  _signature_problems manifest signature manifest_file anchors public_key = Ok [] →
  ∃ key, public_key = Some key ∧ signature_ok manifest signature manifest_file anchors key.
Proof.
  unfold _signature_problems. destruct public_key as [key|]; [|discriminate]. intros H. exists key. split; [done|].
  destruct (hex64 key) eqn:Hkey; [|discriminate]. cbn [negb] in H.
  destruct (load_json_value signature _) as [[| | | | | | |record|]|] eqn:Hload; try discriminate.
  destruct (bool_decide (field_problems _ _ _ _ = [])) eqn:Hf; [|apply Ok_inj in H; apply bool_decide_eq_false in Hf; done].
  apply bool_decide_eq_true in Hf. cbn [negb] in H. unfold field_problems in Hf. apply app_nil in Hf as [Hm He].
  destruct (pget (u "public_key") record) as [| | | |ek| | | |] eqn:Hek; try discriminate.
  destruct (read_bounded_bytes manifest_file _) as [mb|] eqn:Hmb; [|apply Ok_inj in H; by destruct (app_cons_not_nil _ _ _ (eq_sym H))].
  destruct (signed_anchors _ _) as [p3 [anchors_bytes|failure]] eqn:Ha.
  2: { apply Ok_inj in H. rewrite app_assoc in H. by destruct (app_cons_not_nil _ _ _ (eq_sym H)). }
  apply bind_ok in H as (kb & Hkb & H). destruct (_hex_bytes _ _) as [sb|] eqn:Hsb.
  2: { apply Ok_inj in H. by destruct (app_cons_not_nil _ _ _ (eq_sym H)). }
  match type of H with (if negb (bool_decide (?p = [])) then _ else _) = _ => destruct (bool_decide (p = [])) eqn:Hp end.
  2: { apply Ok_inj in H. apply bool_decide_eq_false in Hp. done. }
  apply bool_decide_eq_true in Hp. cbn [negb] in H. rewrite !app_nil, !when_nil, !negb_false_iff, !is_lit_iff in Hp.
  destruct Hp as [[[(_ & Halg & Hobj) Hkeys] (Hp3 & Hdig & _)] _].
  assert (ek = key) as ->.
  { destruct (hex64 ek); [|discriminate Hkeys]. cbn [negb] in Hkeys. rewrite when_nil in Hkeys.
    by case_bool_decide. }
  assert (Hk : fromhex key = Some kb).
  { revert Hkb. unfold bytes_fromhex. destruct (fromhex key) as [b|]; [|discriminate]. intros E. apply Ok_inj in E. by rewrite E. }
  rewrite Hkb in H. cbn [mbind result_bind] in H. apply Ok_inj in H. rewrite when_nil, negb_false_iff in H.
  assert (Hsig : bytes_ok sb).
  { revert Hsb. unfold _hex_bytes. destruct (pget (u "signature") record); try discriminate.
    destruct (_ && _); [|discriminate]. apply fromhex_bytes. }
  split; [exact Hkey|]. exists record, mb, anchors_bytes, kb, sb.
  apply (verify_core_iff _ _ _ _ (fromhex_bytes _ _ Hk) Hsig) in H.
  split; [done|]. destruct (bool_decide (missing_fields _ _ = [])) eqn:E1; [apply bool_decide_eq_true in E1|discriminate Hm].
  destruct (bool_decide (extra_fields _ _ = [])) eqn:E2; [apply bool_decide_eq_true in E2|discriminate He].
  do 7 (split; [done|]).
  pose proof (signed_anchors_ok _ _ _ _ Ha (conj Hp3 (ex_intro _ _ eq_refl))) as HA.
  destruct anchors as [n|].
  - destruct HA as (Hi & bs & Hb & E). split; [split; [exact Hi|exists bs; split; [exact Hb|congruence]]|]. exact (conj Hk (conj Hsb H)).
  - destruct HA as (Hi & E). split; [split; [exact Hi|congruence]|]. exact (conj Hk (conj Hsb H)).
Qed.
