(* ===== verification/Pack.v ===== *)
(** * Verification of an evidence pack ([src/src/icode/pack_verify.py])

    [verify_pack] on the files of a pack: the manifest and its digest, files that
    are not listed, the signature and the anchors, the identity of the ticket,
    the contract snapshot, the receipts, the event chain and its artifacts; and
    the exit code of [main].  The pack does not change while it is verified. *)

From S2P Require Import Prelude PyText PyVal Hashing Json JsonParse StrictJson Problems EventSchema Utf8.
From S2P Require Import AgentMirror TicketMirror BindingMirror ExecutionMirror EventChain Receipts Ed25519 PackTree PackSignature.

Definition EVENTS_REL : pystr := u "ticket/events.jsonl".
Definition _MAX_METADATA_JSON_BYTES : N := 8 * 1024 * 1024.
Definition _MAX_ARTIFACT_INDEX_JSON_BYTES : N := 8 * 1024 * 1024.
Definition _MAX_VERIFICATIONS_JSON_BYTES : N := 8 * 1024 * 1024.
Definition _MAX_CONTRACTS_JSON_BYTES : N := 8 * 1024 * 1024.
Definition _MAX_MANIFEST_FILE_ENTRIES : N := 50000.
Definition _MAX_ARTIFACT_INDEX_ENTRIES : N := 50000.
Definition _MAX_PACKAGE_FILE_BYTES : N := 256 * 1024 * 1024.
Definition _MAX_PACKAGE_HASH_READ_BYTES : N := 4 * 1024 * 1024 * 1024.
Definition _MAX_PACKAGE_ARTIFACT_BYTES : N := 256 * 1024 * 1024.

Definition numbered (prefix : string) (i : nat) (rest : string) : pystr := u prefix ++ u " 第 " ++ dec_nat i ++ u rest.

(** ** The listed files *)
(** An entry of the manifest that names a file and its digest. *)
Record file_entry := mkEntry { fe_path : pystr; fe_sha256 : pystr; fe_size : pyval }.

Fixpoint select_entries (index : nat) (seen : list pystr) (files : list pyval) : list pystr * list file_entry :=
  match files with
  | [] => ([], [])
  | v :: rest =>
    match v with
    | PyDict d =>
      match pget (u "path") d, pget (u "sha256") d with
      | PyStr path, PyStr sha256 =>
        if path ∈s seen then
          let '(ps, es) := select_entries (S index) seen rest in (numbered "清单 files" index " 项 path 重复" :: ps, es)
        else let '(ps, es) := select_entries (S index) (path :: seen) rest in (ps, mkEntry path sha256 (pget (u "size") d) :: es)
      | _, _ => let '(ps, es) := select_entries (S index) seen rest in (numbered "清单 files" index " 项缺少有效 path 或 sha256" :: ps, es)
      end
    | _ => let '(ps, es) := select_entries (S index) seen rest in (numbered "清单 files" index " 项结构无效（必须是对象）" :: ps, es)
    end
  end.
Definition manifest_entries (manifest : dict) : list pystr * list file_entry :=
  let '(p, files) := match pget (u "files") manifest with
                     | PyNone => ([], [])
                     | PyList l => if (_MAX_MANIFEST_FILE_ENTRIES <? N.of_nat (length l))%N then ([u "清单 files 条目数量超过安全上限"], []) else ([], l)
                     | _ => ([u "清单 files 结构无效（必须是数组）"], [])
                     end in
  let '(ps, es) := select_entries 1 [] files in
  (p ++ (match files with [] => [u "清单 files 为空"] | _ => [] end) ++ ps, es).

Definition control_json_limit (rel : pystr) : option N :=
  if rel =s u "ticket/metadata.json" then Some _MAX_METADATA_JSON_BYTES
  else if rel =s u "artifacts.json" then Some _MAX_ARTIFACT_INDEX_JSON_BYTES
  else if rel =s u "contracts.json" then Some _MAX_CONTRACTS_JSON_BYTES else None.
Definition over (size : N) (limit : option N) : bool := match limit with Some m => (m <? size)%N | None => false end.
Definition chain_limit (rel : pystr) : option N := if rel =s EVENTS_REL then Some _MAX_EVENT_CHAIN_TOTAL_BYTES else None.
Definition file_limit (rel : pystr) : N :=
  let l := _MAX_PACKAGE_FILE_BYTES in
  let l := match chain_limit rel with Some m => N.min l m | None => l end in
  match control_json_limit rel with Some m => N.min l m | None => l end.
Definition size_problem (rel : pystr) : pystr :=
  if rel =s EVENTS_REL then u "事件链超过总输入字节数上限"
  else match control_json_limit rel with Some _ => u "清单登记的控制JSON超过输入字节上限" | None => u "清单登记的文件超过单文件安全上限" end.

(** One listed file: its problems, the budget left, and whether that is spent. *)
Definition check_entry (pack : node) (e : file_entry) (budget : _HashReadBudget) : result (list pystr * _HashReadBudget * bool) :=
  let rel := fe_path e in
  match _package_member_path pack rel with
  | None => Ok ([u "清单文件项包内路径无效（必须是规范相对普通文件路径）"], budget, false)
  | Some (Some (NFile size content as target)) =>
    if (_MAX_PACKAGE_FILE_BYTES <? size)%N then Ok ([u "清单登记的文件超过单文件安全上限"], budget, false)
    else if over size (chain_limit rel) then Ok ([u "事件链超过总输入字节数上限"], budget, false)
    else if over size (control_json_limit rel) then Ok ([u "清单登记的控制JSON超过输入字节上限"], budget, false)
    else
      let '(r, budget') := sha256_file target (Some (file_limit rel)) (Some budget) in
      let budget := default budget budget' in
      match r with
      | Err FileSizeLimitExceeded => Ok ([size_problem rel], budget, false)
      | Err HashReadBudgetExceeded => Ok ([u "证据包累计摘要读取超过安全上限"], budget, true)
      | Err e => Err e
      | Ok actual =>
        Ok ((if actual =s fe_sha256 e then []
             else [u "文件内容与清单不符（疑似篡改）：" ++ rel ++ u " 清单=" ++ take 12 (fe_sha256 e) ++ u " 实际=" ++ take 12 actual])
            ++ match as_int (fe_size e) with
               | Some z => if (z =? Z.of_N size)%Z then [] else [u "文件大小与清单不符：" ++ rel]
               | None => []
               end, budget, false)
      end
  | Some _ => Ok ([u "清单登记的文件缺失：" ++ rel], budget, false)
  end.
Fixpoint check_entries (pack : node) (es : list file_entry) (budget : _HashReadBudget) : result (list pystr * _HashReadBudget * bool) :=
  match es with
  | [] => Ok ([], budget, false)
  | e :: rest =>
    r ← check_entry pack e budget;
    match r with
    | (ps, budget, true) => Ok (ps, budget, true)
    | (ps, budget, false) => r ← check_entries pack rest budget; let '(qs, budget, exceeded) := r in Ok (ps ++ qs, budget, exceeded)
    end
  end.

(** ** Files that are not listed *)
Definition exempt (listed : list pystr) (path : list pystr) : bool :=
  (default [] (last path) =s MANIFEST_NAME) || (join (u "/") path ∈s listed) || (join (u "/") path ∈s [SIGNATURE_NAME; ANCHORS_NAME]).
Definition entry_problems (listed : list pystr) (found : list pystr * entry_kind) : list pystr :=
  match found.2 with
  | KLink | KSpecial => [u "证据包包含不允许的链接或特殊文件：" ++ join (u "/") found.1]
  | KFile => if exempt listed found.1 then [] else [u "存在未登记的额外文件（清单未覆盖）：" ++ join (u "/") found.1]
  end.
Definition unlisted_problems (pack : node) (listed : list pystr) : list pystr :=
  let '(found, stop) := _walk_package_entries pack in
  concat (entry_problems listed <$> found)
  ++ match stop with
     | inl _ => []
     | inr PackageEntryLimitExceeded => [u "证据包目录条目数量超过安全上限"]
     | inr _ => [u "证据包目录无法完整枚举"]
     end.

(** ** What reading raises *)
(** [OSError], [ValueError] and its subclasses; with [TypeError] where the code
    converts the values read. *)
Definition caught (e : exn) : bool := match e with OSError | ValueError _ | JSONDecodeError _ _ => true | _ => false end.
Definition caught_value (e : exn) : bool := caught e || match e with TypeError _ => true | _ => false end.
Definition caught_receipt (e : exn) : bool := caught_value e || match e with OverflowError _ => true | _ => false end.

(** [except ...: problems.append(message)] *)
Definition handle {A B} (c : exn → bool) (r : result A) (bad : exn → B) (good : A → B) : result B :=
  match r with Ok a => Ok (good a) | Err e => if c e then Ok (bad e) else Err e end.

Definition member (pack : node) (rel : string) : option (option node) := _package_member_path pack (u rel).
Definition file_node (found : option node) : option node := match found with Some (NFile _ _ as n) => Some n | _ => None end.
(** A member that is a file. *)
Definition member_file (pack : node) (rel : pystr) : option node :=
  match _package_member_path pack rel with Some found => file_node found | None => None end.

Section pack.
Context `{FloatRepr} `{PyRepr}.
(** The text of an exception, and the characters a text reader delivers of bytes
    that are not UTF-8 before it gives up. *)
Context (exn_text : exn → pystr) (decoded_prefix : list N → pystr).

Definition entry_value (e : file_entry) : pyval := PyDict [(u "path", PyStr (fe_path e)); (u "sha256", PyStr (fe_sha256 e))].
Definition pack_digest (entries : list file_entry) : result pystr := sha256_text (PyList (entry_value <$> sort_by fe_path entries)).

Definition digest_problems (manifest : dict) (entries : list file_entry) : result (list pystr) :=
  let declared := pget (u "pack_digest") manifest in
  if py_truth declared then
    recomputed ← pack_digest entries;
    Ok (if is_lit declared recomputed then []
        else [u "包摘要不符（清单被改动过）：声明=" ++ take 12 (py_str declared) ++ u " 重算=" ++ take 12 recomputed])
  else Ok [u "清单缺少 pack_digest"].

(** ** The signature and the anchors *)
Definition seal_problems (pack manifest_file : node) (manifest : dict) (public_key : option pystr) (require_signature : bool)
  : result (list pystr) :=
  let anchors := member_file pack ANCHORS_NAME in
  match member_file pack SIGNATURE_NAME with
  | Some signature => _signature_problems manifest signature manifest_file anchors public_key
  | None =>
    let p := if require_signature then [u "缺少签名文件 signature.json（--require-signature 要求签名）"] else [] in
    match anchors with
    | None => Ok p
    | Some n =>
      q ← handle caught (load_json_value n _MAX_ANCHORS_JSON_BYTES)
            (λ e, [u "anchors.json 不可解析：" ++ exn_class n e])
            (λ v, validate_anchor_bundle v (pget (u "pack_digest") manifest));
      Ok (p ++ q)
    end
  end.

(** ** The ticket *)
Definition nonempty_str (v : pyval) : option pystr := match v with PyStr (c :: s) => Some (c :: s) | _ => None end.
Definition manifest_ticket (manifest : dict) : list pystr * option pystr :=
  match pget (u "ticket") manifest with
  | PyDict d => match nonempty_str (pget (u "ticket_id") d) with
                | Some id => ([], Some id)
                | None => ([u "清单 ticket.ticket_id 无效"], None)
                end
  | _ => ([u "清单 ticket 结构无效（必须是对象）"], None)
  end.

Definition no_expectations : expectations := mkExpect None None None None None None None None.
Definition event_mirrors (metadata : dict) : dict :=
  (λ p, (p.1, _metadata_event_mirror_records (PyDict metadata) p.1)) <$> _METADATA_EVENT_MIRROR_FIELDS.
Definition metadata_expectations (metadata : dict) (hash : pyval) : expectations :=
  mkExpect (nonempty_str (pget (u "ticket_id") metadata)) (Some (PyDict (event_mirrors metadata)))
    (Some (_metadata_agent_spawn_records (PyDict metadata))) (Some hash) None None None (Some (PyDict metadata)).
(** The problems, and what the event chain must agree with. *)
Definition read_metadata (pack : node) : result (list pystr * expectations) :=
  match member pack "ticket/metadata.json" with
  | None => Ok ([u "工单 metadata 包内路径无效（必须是普通文件）"], no_expectations)
  | Some found =>
    match file_node found with
    | None => Ok ([u "缺少工单 metadata：ticket/metadata.json"], no_expectations)
    | Some n =>
      match _load_json n _MAX_METADATA_JSON_BYTES with
      | Err e => if caught e then Ok ([u "工单 metadata 不可解析"], no_expectations) else Err e
      | Ok metadata =>
        ph ← handle caught_value (_metadata_content_hash metadata)
               (λ _, ([u "工单 metadata 无法计算 metadata_hash_after 摘要"], PyNone)) (λ h, ([], PyStr h));
        let ex := metadata_expectations metadata ph.2 in
        Ok (ph.1 ++ (match ex_ticket_id ex with Some _ => [] | None => [u "工单 metadata.ticket_id 无效"] end), ex)
      end
    end
  end.

(** ** The contract snapshot *)
Definition with_contracts (ex : expectations) (machine model receipt : option pyval) : expectations :=
  mkExpect (ex_ticket_id ex) (ex_event_mirrors ex) (ex_agent_spawns ex) (ex_metadata_hash ex) machine model receipt (ex_metadata ex).
(** [snapshot.get(key)] when it is not [None], normalised. *)
Definition normalized {A} (raw : pyval) (normalize : pyval → result A) (value : A → pyval) (message : string)
  : result (list pystr * option pyval) :=
  match raw with
  | PyNone => Ok ([], None)
  | _ => handle caught_value (normalize raw) (λ _, ([u message], None)) (λ a, ([], Some (value a)))
  end.
Definition read_contracts (pack : node) (ex : expectations) : result (list pystr * expectations) :=
  match member pack "contracts.json" with
  | None => Ok ([u "contracts.json 包内路径无效（必须是普通文件）"], ex)
  | Some found =>
    match file_node found with
    | None => Ok ([], ex)
    | Some n =>
      match _load_contract_snapshot n _MAX_CONTRACTS_JSON_BYTES with
      | Err e => if caught e then Ok ([u "contracts.json 不可解析或超过安全上限"], ex) else Err e
      | Ok snapshot =>
        m ← normalized (pget (u "state_machine") snapshot) _normalize_ticket_state_machine machine_value "contracts.json state_machine 结构无效";
        x ← normalized (pget (u "execution_model") snapshot) (λ v, _normalize_execution_model v true) model_value
              "contracts.json execution_model 结构无效";
        Ok (m.1 ++ x.1, with_contracts ex m.2 x.2 (dget (u "completion_receipt") snapshot))
      end
    end
  end.

Definition ticket_agreement (a b : option pystr) : list pystr :=
  match a, b with
  | Some x, Some y => if x =s y then [] else [u "清单与工单 metadata 的 ticket_id 不一致"]
  | _, _ => []
  end.

(** ** The receipts *)
Definition read_verifications (n : node) (ticket : option pystr) : result dict :=
  raw ← read_bounded_bytes n _MAX_VERIFICATIONS_JSON_BYTES; text ← decode_utf8 raw; load_verifications_json text ticket.
Definition verification_problems (pack : node) (ticket : option pystr) : result (list pystr) :=
  match member pack "verifications.json" with
  | None => Ok [u "verifications.json 包内路径无效（必须是普通文件）"]
  | Some found =>
    match file_node found with
    | None => Ok []
    | Some n => handle caught_receipt (read_verifications n ticket)
                  (λ _, [u "verifications.json 不可解析或工程回执语义无效"]) (λ _, [])
    end
  end.

(** ** The event chain and its artifacts *)
Definition node_event_file (n : node) : event_file :=
  match n with
  | NFile size (inl content) =>
    match utf8_decode content with
    | Some text => mkEventFile (inl size) None text None
    | None => mkEventFile (inl size) None (decoded_prefix content) (Some (u "UnicodeDecodeError"))
    end
  | NFile size (inr name) => mkEventFile (inl size) (Some name) [] None
  | _ => mkEventFile (inr (u "OSError")) None [] None
  end.

Definition artifact_facts : Type := list (pystr * (pystr * pystr)).
(** The snapshots of the index, each counted once. *)
Fixpoint snapshot_bytes (pack : node) (seen : list pystr) (total : N) (items : list pyval) : bool :=
  match items with
  | [] => false
  | PyDict d :: rest =>
    match pget (u "snapshot") d with
    | PyStr rel =>
      if rel ∈s seen then snapshot_bytes pack seen total rest else
      match member_file pack rel with
      | Some (NFile size _) =>
        let total := (total + size)%N in
        if (_MAX_PACKAGE_ARTIFACT_BYTES <? total)%N then true else snapshot_bytes pack (rel :: seen) total rest
      | _ => snapshot_bytes pack (rel :: seen) total rest
      end
    | _ => snapshot_bytes pack seen total rest
    end
  | _ :: rest => snapshot_bytes pack seen total rest
  end.

(** The digests of the snapshots.  [bs_over] when the budget is spent, which ends
    the check, [bs_incomplete] when a snapshot was too large. *)
Record bound_state := mkBound { bs_problems : list pystr; bs_digests : list pystr; bs_incomplete : bool; bs_budget : _HashReadBudget; bs_over : bool }.
Definition note_bound (ps : list pystr) (b : bound_state) : bound_state :=
  mkBound (bs_problems b ++ ps) (bs_digests b) (bs_incomplete b) (bs_budget b) (bs_over b).
Definition chain_hash_problems (facts : artifact_facts) (rel chain_hash actual : pystr) : list pystr :=
  match chain_hash with
  | [] => []
  | _ => (if actual =s chain_hash then []
          else [u "正文快照与事件链记录不符（疑似篡改）：" ++ rel ++ u " 链上=" ++ take 12 chain_hash ++ u " 实际=" ++ take 12 actual])
         ++ match dget chain_hash facts with
            | Some _ => []
            | None => [u "artifacts.json 引用了事件链上不存在的哈希：" ++ take 12 chain_hash]
            end
  end.
(** [inr]: the class of an [OSError]. *)
Definition bind_item (pack : node) (facts : artifact_facts) (index : nat) (item : pyval) (b : bound_state) : bound_state + pystr :=
  match item with
  | PyDict d =>
    match pget (u "snapshot") d with
    | PyStr rel =>
      match _package_member_path pack rel with
      | None => inl (note_bound [numbered "artifacts.json" index " 项快照包内路径无效"] b)
      | Some (Some (NFile _ _ as snapshot)) =>
        let '(r, budget') := sha256_file snapshot (Some _MAX_PACKAGE_FILE_BYTES) (Some (bs_budget b)) in
        let budget := default (bs_budget b) budget' in
        match r with
        | Err FileSizeLimitExceeded =>
          inl (mkBound (bs_problems b ++ [u "正文快照超过单文件安全上限"]) (bs_digests b) true budget (bs_over b))
        | Err HashReadBudgetExceeded =>
          inl (mkBound (bs_problems b ++ [u "证据包累计摘要读取超过安全上限"]) (bs_digests b) (bs_incomplete b) budget true)
        | Err e => inr (exn_class snapshot e)
        | Ok actual =>
          inl (mkBound (bs_problems b ++ chain_hash_problems facts rel (str_or [] (pget (u "chain_sha256") d)) actual)
                 (str_add actual (bs_digests b)) (bs_incomplete b) budget (bs_over b))
        end
      | Some _ => inl (note_bound [u "正文快照缺失：" ++ rel] b)
      end
    | _ => inl (note_bound [numbered "artifacts.json" index " 项快照包内路径无效"] b)
    end
  | _ => inl (note_bound [numbered "artifacts.json" index " 项结构无效（必须是对象）"] b)
  end.
Fixpoint bind_items (pack : node) (facts : artifact_facts) (index : nat) (items : list pyval) (b : bound_state) : bound_state + pystr :=
  match items with
  | [] => inl b
  | item :: rest =>
    match bind_item pack facts index item b with
    | inr name => inr name
    | inl b => if bs_over b then inl b else bind_items pack facts (S index) rest b
    end
  end.
Definition missing_snapshots (facts : artifact_facts) (bound : list pystr) : list pystr :=
  (λ digest, u "事件链记录的产物缺少正文快照（hash " ++ take 12 digest ++ u "，源路径 " ++ default [] (snd <$> dget digest facts) ++ u "）")
  <$> sorted_strs (filter (λ digest, digest ∉ bound) (dkeys facts)).

(** The problems; [inr] the class of an [OSError] that is not handled here. *)
Definition bind_artifacts (pack : node) (facts : artifact_facts) (items : list pyval) (budget : _HashReadBudget) : list pystr + pystr :=
  if snapshot_bytes pack [] 0 items then inl [u "产物快照累计字节超过安全上限"] else
  match bind_items pack facts 1 items (mkBound [] [] false budget false) with
  | inr name => inr name
  | inl b => inl (bs_problems b ++ if bs_over b || bs_incomplete b then [] else missing_snapshots facts (bs_digests b))
  end.
Definition artifact_items (index : dict) : list pystr * option (list pyval) :=
  match pget (u "artifacts") index with
  | PyNone => ([], Some [])
  | PyList l => if (_MAX_ARTIFACT_INDEX_ENTRIES <? N.of_nat (length l))%N
                then ([u "artifacts.json 的 artifacts 条目数量超过安全上限"], None) else ([], Some l)
  | _ => ([u "artifacts.json 的 artifacts 结构无效（必须是数组）"], Some [])
  end.
Definition _verify_artifact_binding (pack : node) (facts : artifact_facts) (budget : _HashReadBudget) : result (list pystr + pystr) :=
  match facts with
  | [] => Ok (inl [])
  | _ =>
    match member pack "artifacts.json" with
    | None => Ok (inl [u "artifacts.json 包内路径无效（必须是普通文件）"])
    | Some found =>
      match file_node found with
      | None => Ok (inl [u "事件链存在产物记录，但缺少 artifacts.json（正文对应表）"])
      | Some n =>
        handle caught (_load_json n _MAX_ARTIFACT_INDEX_JSON_BYTES) (λ e, inl [u "artifacts.json 不可解析：" ++ exn_text e])
          (λ index, match artifact_items index with
                    | (p, None) => inl p
                    | (p, Some items) => match bind_artifacts pack facts items budget with inl q => inl (p ++ q) | inr name => inr name end
                    end)
      end
    end
  end.

Definition chain_unreadable (name : pystr) : pystr := u "事件链或正文索引无法读取：" ++ name.
(** The verdict on the chain and its artifacts joins the problems. *)
Definition verify_chain (pack : node) (ex : expectations) (budget : option _HashReadBudget) (problems : _ProblemCollector)
  : result _ProblemCollector :=
  match _package_member_path pack EVENTS_REL with
  | None => Ok (append_problem (u "事件链包内路径无效（必须是普通文件）") problems)
  | Some found =>
    match file_node found with
    | None => Ok (append_problem (u "缺少事件链：" ++ EVENTS_REL) problems)
    | Some n =>
      match _verify_event_chain exn_text ex (node_event_file n) with
      | Err e => if caught e then Ok (append_problem (chain_unreadable (exn_class NSpecial e)) problems) else Err e
      | Ok (facts, report) =>
        let problems := extend_report report problems in
        match budget with
        | None => Ok problems
        | Some budget =>
          r ← _verify_artifact_binding pack facts budget;
          Ok (match r return _ProblemCollector with
              | inl ps => extend_report (render_collector (extend_list ps collector_new)) problems
              | inr name => append_problem (chain_unreadable name) problems
              end)
        end
      end
    end
  end.

(** ** The verdict *)
(** A report that is a plain list. *)
Definition plain_report (ps : list pystr) : _BoundedProblemReport := mkReport ps (length ps) (length ps) [].

Definition verify_manifest (pack manifest_file : node) (manifest : dict) (public_key : option pystr) (require_signature : bool)
  : result _BoundedProblemReport :=
  let '(p1, entries) := manifest_entries manifest in
  r ← check_entries pack entries (mkBudget _MAX_PACKAGE_HASH_READ_BYTES 0);
  let '(p2, budget, exceeded) := (r : list pystr * _HashReadBudget * bool) in
  p3 ← digest_problems manifest entries;
  let p4 := unlisted_problems pack (fe_path <$> entries) in
  p5 ← seal_problems pack manifest_file manifest public_key require_signature;
  let '(p6, manifest_ticket_id) := manifest_ticket manifest in
  md ← read_metadata pack;
  ct ← read_contracts pack md.2;
  let ticket := ex_ticket_id md.2 in
  p9 ← verification_problems pack ticket;
  let problems := extend_list (p1 ++ p2 ++ p3 ++ p4 ++ p5 ++ p6 ++ md.1 ++ ct.1 ++ ticket_agreement manifest_ticket_id ticket ++ p9) collector_new in
  problems ← verify_chain pack ct.2 (if exceeded then None else Some budget) problems;
  Ok (render_collector problems).

Definition verify_pack (pack : node) (public_key : option pystr) (require_signature : bool) : result _BoundedProblemReport :=
  match _package_member_path pack MANIFEST_NAME with
  | None => Ok (plain_report [u "清单包内路径无效（必须是普通文件）：" ++ MANIFEST_NAME])
  | Some found =>
    match file_node found with
    | None => Ok (plain_report [u "缺少清单文件：" ++ MANIFEST_NAME])
    | Some manifest_file =>
      match _load_json manifest_file _MAX_MANIFEST_JSON_BYTES with
      | Err e => if caught e then Ok (plain_report [u "清单文件不可解析：" ++ exn_text e]) else Err e
      | Ok manifest => verify_manifest pack manifest_file manifest public_key require_signature
      end
    end
  end.

(** ** The command line *)
Record options := mkOptions { op_pack : option pystr; op_public_key : option pystr; op_require_signature : bool }.
(** [None]: exit code 2. *)
Fixpoint parse_args (args : list pystr) (o : options) : option options :=
  match args with
  | [] => Some o
  | arg :: rest =>
    if arg =s u "--verify-signature" then parse_args rest o
    else if arg =s u "--require-signature" then parse_args rest (mkOptions (op_pack o) (op_public_key o) true)
    else if arg =s u "--public-key" then
      match rest with
      | [] => None
      | key :: rest => parse_args rest (mkOptions (op_pack o) (Some key) (op_require_signature o))
      end
    else if startswith (u "--public-key=") arg then
      parse_args rest (mkOptions (op_pack o) (Some (drop 13 arg)) (op_require_signature o))
    else if startswith (u "--") arg then None
    else match op_pack o with
         | None => parse_args rest (mkOptions (Some arg) (op_public_key o) (op_require_signature o))
         | Some _ => None
         end
  end.
(** The exit code; [directory] is what the file system has at a path. *)
Definition main (directory : pystr → option node) (args : list pystr) : result Z :=
  match parse_args args (mkOptions None None false) with
  | None => Ok 2%Z
  | Some o =>
    match op_pack o with
    | None => Ok 2%Z
    | Some pack_arg =>
      if match op_public_key o with Some key => negb (hex64 key) | None => false end then Ok 2%Z else
      match directory pack_arg with
      | Some (NDir _ _ _ as pack) =>
        report ← verify_pack pack (op_public_key o) (op_require_signature o);
        Ok (match rp_values report with [] => 0%Z | _ => 1%Z end)
      | _ => Ok 2%Z
      end
    end
  end.
End pack.

(** ** The listed files of an accepted pack *)
(** The manifest's entry [v] is [e]. *)
Definition entry_of (v : pyval) (e : file_entry) : Prop :=
  ∃ d, v = PyDict d ∧ pget (u "path") d = PyStr (fe_path e) ∧ pget (u "sha256") d = PyStr (fe_sha256 e) ∧ fe_size e = pget (u "size") d.
Lemma select_entries_ok i seen files es : select_entries i seen files = ([], es) →
  Forall2 entry_of files es ∧ NoDup (fe_path <$> es) ∧ ∀ e, e ∈ es → fe_path e ∉ seen.
Proof.
  revert i seen es. induction files as [|v rest IH]; intros i seen es; cbn [select_entries].
  { intros [= <-]. split; [constructor|]. split; [constructor|]. intros e Hin. by apply not_elem_of_nil in Hin. }
  destruct v as [| | | | | | |d|]; try (by destruct (select_entries (S i) seen rest)).
  destruct (pget (u "path") d) as [| | | |path| | | |] eqn:Hp; try (by destruct (select_entries (S i) seen rest)).
  destruct (pget (u "sha256") d) as [| | | |sha| | | |] eqn:Hh; try (by destruct (select_entries (S i) seen rest)).
  destruct (bool_decide (path ∈ seen)) eqn:Hs; [by destruct (select_entries (S i) seen rest)|]. apply bool_decide_eq_false in Hs.
  destruct (select_entries (S i) (path :: seen) rest) as [ps es'] eqn:E. intros [= -> <-]. destruct (IH _ _ _ E) as (F & N & S').
  split; [constructor; [by exists d|exact F]|]. split.
  - cbn [fmap list_fmap]. constructor; [|exact N]. intros (e & Hpe & He)%list_elem_of_fmap. apply (S' e He). rewrite <-Hpe. apply elem_of_cons. by left.
  - intros e [->|He]%elem_of_cons; [exact Hs|]. intros Hin. apply (S' e He), elem_of_cons. by right.
Qed.
Lemma manifest_entries_ok manifest es : manifest_entries manifest = ([], es) →
  ∃ files, pget (u "files") manifest = PyList files ∧ files ≠ [] ∧ Forall2 entry_of files es ∧ NoDup (fe_path <$> es).
Proof.
  unfold manifest_entries. set (pf := match pget (u "files") manifest with PyNone => _ | _ => _ end).
  assert (Hpf : pf.1 = [] → pf.2 ≠ [] → pget (u "files") manifest = PyList pf.2).
  { unfold pf. destruct (pget (u "files") manifest) as [| | | | |l| | |]; try done. by destruct (_ <? _)%N. }
  clearbody pf. destruct pf as [p files]. cbn [fst snd] in Hpf. destruct (select_entries 1 [] files) as [ps es'] eqn:E.
  intros H. injection H as Hnil <-. apply app_nil in Hnil as [-> [Hf ->]%app_nil]. destruct files as [|v rest] eqn:Ev; [discriminate|]. rewrite <-Ev in *.
  exists files. split; [apply Hpf; [done|by rewrite Ev]|]. split; [by rewrite Ev|]. by destruct (select_entries_ok _ _ _ _ E) as (F & N & _).
Qed.

(** The file an entry lists is there, with the digest and the size it says. *)
Definition intact (pack : node) (e : file_entry) : Prop :=
  ∃ size content, member_file pack (fe_path e) = Some (NFile size (inl content)) ∧ sha256_hex content = fe_sha256 e ∧
    ∀ z, as_int (fe_size e) = Some z → z = Z.of_N size.
Lemma check_entry_ok pack e b b' x : check_entry pack e b = Ok ([], b', x) → x = false ∧ intact pack e.
Proof.
  unfold check_entry, intact, member_file. destruct (_package_member_path pack (fe_path e)) as [[[size content| | |]|]|] eqn:Em; try discriminate.
  destruct (_ <? _)%N; [discriminate|]. destruct (over size (chain_limit _)); [discriminate|]. destruct (over size (control_json_limit _)); [discriminate|].
  destruct (sha256_file _ _ _) as [[actual|err] left'] eqn:Ef.
  2: { destruct err; try discriminate; intros H; apply Ok_inj in H; discriminate H. }
  destruct (sha256_file_ok _ _ _ _ _ Ef) as (size' & bytes & E & ->). injection E as <- ->.
  intros H. apply Ok_inj in H. injection H as Hnil _ <-. apply app_nil in Hnil as [Hh Hs]. split; [done|]. exists size, bytes. split; [done|]. split.
  - destruct (bool_decide _) eqn:B; [by apply bool_decide_eq_true in B|discriminate].
  - intros z Hz. rewrite Hz in Hs. destruct (Z.eqb_spec z (Z.of_N size)); [done|discriminate].
Qed.
Lemma check_entries_ok pack es b b' x : check_entries pack es b = Ok ([], b', x) → x = false ∧ Forall (intact pack) es.
Proof.
  revert b. induction es as [|e es IH]; intros b; cbn [check_entries]; [intros H; apply Ok_inj in H; injection H as _ <-; by split|].
  intros ([[ps b1] []] & He & H)%bind_ok.
  - apply Ok_inj in H. injection H as -> -> <-. by destruct (check_entry_ok _ _ _ _ _ He) as [H _].
  - apply bind_ok in H as ([[qs b2] x'] & Hes & H). apply Ok_inj in H. injection H as Hnil -> ->. apply app_nil in Hnil as [-> ->].
    destruct (check_entry_ok _ _ _ _ _ He) as [_ Hi]. destruct (IH _ Hes) as [-> Hf]. split; [done|]. by constructor.
Qed.

(** ** Nothing else is in an accepted pack *)
Lemma unlisted_ok pack listed : well_formed pack → leaf_kind pack = None → unlisted_problems pack listed = [] →
  ∀ parts k, leaf_at pack parts k → k = KFile ∧ exempt listed parts = true.
Proof.
  unfold unlisted_problems. destruct (_walk_package_entries pack) as [found stop] eqn:Ew. intros Hwf Hk [Hc Hs]%app_nil parts k Hleaf.
  destruct stop as [count|e]; [|by destruct e].
  assert (Hin : (parts, k) ∈ found) by (apply (entries_delivered pack Hwf [] 0 found count Hk Ew); by exists parts).
  assert (Hp : entry_problems listed (parts, k) = []).
  { apply concat_nil_Forall in Hc. apply (proj1 (Forall_forall _ _) Hc). by apply list_elem_of_fmap_2. }
  unfold entry_problems in Hp. cbn [fst snd] in Hp. destruct k; [discriminate| |discriminate]. split; [done|]. by destruct (exempt listed parts).
Qed.

(** ** The artifacts of an accepted pack *)
(** A file of the pack with this digest. *)
Definition has_content (pack : node) (digest : pystr) : Prop :=
  ∃ rel size content, member_file pack rel = Some (NFile size (inl content)) ∧ sha256_hex content = digest.
Section binding.
Context `{PyRepr} (pack : node) (facts : artifact_facts).
Record bound_ok (b : bound_state) : Prop := mkBoundOk {
  bo_stopped : bs_over b || bs_incomplete b = true → bs_problems b ≠ [];
  bo_digests : Forall (has_content pack) (bs_digests b)
}.
Lemma bind_item_ok index item b b' : bound_ok b → bind_item pack facts index item b = inl b' → bound_ok b'.
Proof.
  intros [Hst Hd]. assert (Hn : ∀ ps, bound_ok (note_bound ps b)).
  { intros ps. split; [|exact Hd]. cbn. intros Hs Hnil. apply app_nil in Hnil as [Hnil _]. by destruct (Hst Hs). }
  unfold bind_item. destruct item as [| | | | | | |d|]; try (intros [= <-]; apply Hn).
  destruct (pget (u "snapshot") d) as [| | | |rel| | | |]; try (intros [= <-]; apply Hn).
  destruct (_package_member_path pack rel) as [[[size content| | |]|]|] eqn:Em; try (intros [= <-]; apply Hn).
  destruct (sha256_file _ _ _) as [[actual|err] left'] eqn:Ef.
  - destruct (sha256_file_ok _ _ _ _ _ Ef) as (size' & bytes & E & ->). injection E as <- ->. intros [= <-]. split; cbn [bs_over bs_incomplete bs_problems bs_digests].
    + intros Hs Hnil. apply app_nil in Hnil as [Hnil _]. by destruct (Hst Hs).
    + apply Forall_forall. intros k [->|Hk]%elem_str_add; [|exact (proj1 (Forall_forall _ _) Hd k Hk)].
      exists rel, size, bytes. unfold member_file. by rewrite Em.
  - destruct err; try discriminate; intros [= <-]; (split; [|exact Hd]); cbn; intros _ Hnil; by apply app_nil in Hnil as [_ Hnil].
Qed.
Lemma bind_items_ok index items b b' : bound_ok b → bind_items pack facts index items b = inl b' → bound_ok b'.
Proof.
  revert index b. induction items as [|item rest IH]; intros index b Hb; cbn [bind_items]; [by intros [= <-]|].
  destruct (bind_item pack facts index item b) as [b1|] eqn:E; [|discriminate]. pose proof (bind_item_ok _ _ _ _ Hb E) as H1.
  destruct (bs_over b1); [by intros [= <-]|]. by apply IH.
Qed.
Lemma bind_artifacts_ok items budget : bind_artifacts pack facts items budget = inl [] → Forall (has_content pack) (dkeys facts).
Proof.
  unfold bind_artifacts. destruct (snapshot_bytes _ _ _ _); [discriminate|].
  destruct (bind_items _ _ _ _ _) as [b|] eqn:E; [|discriminate]. apply bind_items_ok in E as [Hst Hd]; [|split; [discriminate|constructor]].
  intros Hb0. injection Hb0 as Hnil. apply app_nil in Hnil as [Hnil Hm]. destruct (_ || _) eqn:Es; [by destruct (Hst eq_refl)|].
  unfold missing_snapshots in Hm. apply fmap_nil_inv in Hm. apply (proj1 (sorted_strs_nil _)) in Hm. apply Forall_forall. intros digest Hin.
  destruct (decide (digest ∈ bs_digests b)) as [Hb|Hb]; [exact (proj1 (Forall_forall _ _) Hd digest Hb)|].
  assert (Hx : digest ∈ filter (λ digest, digest ∉ bs_digests b) (dkeys facts)) by by apply list_elem_of_filter. rewrite Hm in Hx. by apply not_elem_of_nil in Hx.
Qed.
End binding.
Lemma artifact_binding_ok `{PyRepr} exn_text pack facts budget :
  _verify_artifact_binding exn_text pack facts budget = Ok (inl []) → Forall (has_content pack) (dkeys facts).
Proof.
  unfold _verify_artifact_binding. destruct facts as [|f rest]; [constructor|].
  destruct (member pack "artifacts.json") as [found|]; [|discriminate]. destruct (file_node found) as [n|]; [|discriminate].
  unfold handle. destruct (_load_json n _) as [index|e]; [|by destruct (caught e)].
  intros H'. apply Ok_inj in H'. destruct (artifact_items index) as [p [items|]] eqn:Ei.
  - destruct (bind_artifacts pack (f :: rest) items budget) as [q|] eqn:Eb; [|congruence]. injection H' as Hnil. apply app_nil in Hnil as [-> ->].
    by eapply bind_artifacts_ok.
  - exfalso. revert H' Ei. unfold artifact_items. intros E. injection E as ->. destruct (pget _ _); try discriminate. by destruct (_ <? _)%N.
Qed.

(** ** What an accepted pack is *)
Section verdict.
Context `{FloatRepr} `{PyRepr} (exn_text : exn → pystr) (decoded_prefix : list N → pystr).

Lemma render_quiet c : rp_values (render_collector c) = [] → pc_total c = 0.
Proof.
  cbn [render_collector rp_values]. intros [Hs [_ Ho]%app_nil]%app_nil. rewrite Hs in Ho. cbn [length] in Ho. rewrite Nat.sub_0_r in Ho.
  by destruct (pc_total c).
Qed.

Lemma digest_ok manifest entries : digest_problems manifest entries = Ok [] →
  ∃ d, pget (u "pack_digest") manifest = PyStr d ∧ pack_digest entries = Ok d.
Proof.
  unfold digest_problems. destruct (py_truth _); [|discriminate]. intros (d & Hd & E)%bind_ok. apply Ok_inj in E. exists d. split; [|exact Hd].
  destruct (is_lit (pget (u "pack_digest") manifest) d) eqn:El; [by apply is_lit_iff in El|discriminate].
Qed.

(** The signature of a pack that has one, or that none is required. *)
Definition sealed_pack (pack manifest_file : node) (manifest : dict) (public_key : option pystr) (require_signature : bool) : Prop :=
  match member_file pack SIGNATURE_NAME with
  | Some signature =>
    ∃ key, public_key = Some key ∧ signature_ok manifest signature manifest_file (member_file pack ANCHORS_NAME) key
  | None => require_signature = false
  end.
Lemma seal_ok pack manifest_file manifest public_key req :
  seal_problems pack manifest_file manifest public_key req = Ok [] → sealed_pack pack manifest_file manifest public_key req.
Proof.
  unfold seal_problems, sealed_pack. destruct (member_file pack SIGNATURE_NAME) as [s|]; [apply signature_accepted|].
  destruct req; [|done]. destruct (member_file pack ANCHORS_NAME); [|intros E; apply Ok_inj in E; discriminate].
  intros (q & _ & E)%bind_ok. apply Ok_inj in E. discriminate.
Qed.

(** The events of the pack satisfy the chain, and their artifacts are there. *)
Definition chain_and_artifacts (pack : node) (ex : expectations) (events : list dict) : Prop :=
  ∃ n, member_file pack EVENTS_REL = Some n ∧ file_events (node_event_file decoded_prefix n) events ∧ chain_ok ex events ∧
    Forall (has_content pack) (dkeys (foldl (λ f e, consume_facts e f) [] events)).
Lemma verify_chain_ok pack ex budget problems c :
  verify_chain exn_text decoded_prefix pack ex (Some budget) problems = Ok c → pc_total c = 0 →
  pc_total problems = 0 ∧ ∃ events, chain_and_artifacts pack ex events.
Proof.
  unfold verify_chain, chain_and_artifacts, member_file. destruct (_package_member_path pack EVENTS_REL) as [found|].
  2: { intros E. apply Ok_inj in E as <-. rewrite append_problem_total. discriminate. }
  destruct (file_node found) as [n|].
  2: { intros E. apply Ok_inj in E as <-. rewrite append_problem_total. discriminate. }
  destruct (_verify_event_chain _ _ _) as [[facts report]|e] eqn:Ev.
  2: { destruct (caught e); [|discriminate]. intros E. apply Ok_inj in E as <-. rewrite append_problem_total. discriminate. }
  intros (r & Hr & E)%bind_ok Hc. apply Ok_inj in E as <-. destruct r as [ps|name]; [|rewrite append_problem_total in Hc; discriminate].
  rewrite !extend_report_total in Hc. destruct (chain_rendered exn_text _ _ _ _ Ev) as (c1 & Hc1 & _ & ->).
  pose proof (render_collector_spec _ Hc1) as (Z1 & _ & T1). rewrite T1 in Hc.
  pose proof (render_collector_spec _ (extend_list_inv ps _ collector_new_inv)) as (_ & _ & T2). rewrite T2, extend_list_total in Hc.
  cbn [collector_new pc_total] in Hc. split; [lia|]. assert (ps = []) as -> by (apply length_zero_iff_nil; lia).
  destruct (chain_verdict exn_text _ _ _ _ Ev) as [Hok Hfacts].
  destruct (proj1 Hok) as (events & He & Hchain); [apply Z1; lia|]. exists events, n. split; [done|]. split; [exact He|]. split; [exact Hchain|].
  rewrite <-(Hfacts _ He). exact (artifact_binding_ok _ _ _ _ Hr).
Qed.
Lemma verify_chain_total_le pack ex budget problems c :
  verify_chain exn_text decoded_prefix pack ex budget problems = Ok c → pc_total c = 0 → pc_total problems = 0.
Proof.
  unfold verify_chain. destruct (_package_member_path pack EVENTS_REL) as [found|].
  2: { intros E. apply Ok_inj in E as <-. rewrite append_problem_total. discriminate. }
  destruct (file_node found) as [n|].
  2: { intros E. apply Ok_inj in E as <-. rewrite append_problem_total. discriminate. }
  destruct (_verify_event_chain _ _ _) as [[facts report]|e].
  2: { destruct (caught e); [|discriminate]. intros E. apply Ok_inj in E as <-. rewrite append_problem_total. discriminate. }
  destruct budget as [b|].
  - intros (r & _ & E)%bind_ok. apply Ok_inj in E as <-. destruct r; rewrite ?append_problem_total, ?extend_report_total; lia.
  - intros E. apply Ok_inj in E as <-. rewrite extend_report_total. lia.
Qed.

(** *** All of it *)
Record accepted_pack (pack : node) (public_key : option pystr) (require_signature : bool) (manifest_file : node) (manifest : dict)
  (entries : list file_entry) (ex : expectations) (events : list dict) : Prop := mkAccepted {
  ap_manifest : member_file pack MANIFEST_NAME = Some manifest_file ∧ _load_json manifest_file _MAX_MANIFEST_JSON_BYTES = Ok manifest;
  ap_entries : ∃ files, pget (u "files") manifest = PyList files ∧ files ≠ [] ∧ Forall2 entry_of files entries ∧ NoDup (fe_path <$> entries);
  ap_listed : manifest_entries manifest = ([], entries);
  ap_files : Forall (intact pack) entries;
  ap_digest : ∃ d, pget (u "pack_digest") manifest = PyStr d ∧ pack_digest entries = Ok d;
  ap_closed : ∀ parts k, leaf_at pack parts k → k = KFile ∧ exempt (fe_path <$> entries) parts = true;
  ap_signature : sealed_pack pack manifest_file manifest public_key require_signature;
  ap_ticket : ∃ ticket id, pget (u "ticket") manifest = PyDict ticket ∧ pget (u "ticket_id") ticket = PyStr id ∧ ex_ticket_id ex = Some id;
  ap_expectations : ∃ ex0, read_metadata pack = Ok ([], ex0) ∧ read_contracts pack ex0 = Ok ([], ex);
  ap_receipts : ∀ n, member_file pack (u "verifications.json") = Some n → ∃ d, read_verifications n (ex_ticket_id ex) = Ok d;
  ap_chain : chain_and_artifacts pack ex events
}.

Lemma contracts_ticket pack ex ps ex' : read_contracts pack ex = Ok (ps, ex') → ex_ticket_id ex' = ex_ticket_id ex.
Proof.
  unfold read_contracts. destruct (member pack "contracts.json") as [found|]; [|intros E; apply Ok_inj in E; by injection E as _ <-].
  destruct (file_node found) as [n|]; [|intros E; apply Ok_inj in E; by injection E as _ <-].
  destruct (_load_contract_snapshot n _) as [d|e]; [|destruct (caught e); [|discriminate]; intros E; apply Ok_inj in E; by injection E as _ <-].
  intros (m & _ & (x & _ & E)%bind_ok)%bind_ok. apply Ok_inj in E. by injection E as _ <-.
Qed.
Lemma metadata_ticket pack ex : read_metadata pack = Ok ([], ex) → ∃ id, ex_ticket_id ex = Some id.
Proof.
  unfold read_metadata. destruct (member pack "ticket/metadata.json") as [found|]; [|discriminate].
  destruct (file_node found) as [n|]; [|discriminate]. destruct (_load_json n _) as [d|e]; [|destruct (caught e); discriminate].
  intros (ph & _ & E)%bind_ok. apply Ok_inj in E. injection E as Hnil <-. apply app_nil in Hnil as [_ Hnil].
  cbn [ex_ticket_id metadata_expectations] in *. destruct (nonempty_str _) as [id|]; [by exists id|discriminate].
Qed.
Lemma nonempty_str_ok v s : nonempty_str v = Some s → v = PyStr s.
Proof. destruct v as [| | | |[|c t]| | | |]; try discriminate. by intros [= <-]. Qed.
Lemma tickets_agree manifest id ids b :
  manifest_ticket manifest = ([], ids) → b = Some id → ticket_agreement ids b = [] →
  ∃ ticket, pget (u "ticket") manifest = PyDict ticket ∧ pget (u "ticket_id") ticket = PyStr id.
Proof.
  unfold manifest_ticket. destruct (pget (u "ticket") manifest) as [| | | | | | |t|]; try discriminate.
  destruct (nonempty_str (pget (u "ticket_id") t)) as [x|] eqn:E; [|discriminate]. intros [= <-] -> Ha. exists t. split; [done|].
  apply nonempty_str_ok in E. cbn in Ha. by case_bool_decide; subst.
Qed.
Lemma verifications_ok pack ticket n :
  verification_problems pack ticket = Ok [] → member_file pack (u "verifications.json") = Some n → ∃ d, read_verifications n ticket = Ok d.
Proof.
  unfold verification_problems, member_file, member. destruct (_package_member_path _ _) as [found|]; [|discriminate].
  intros Hv E. rewrite E in Hv. unfold handle in Hv. destruct (read_verifications n ticket) as [d|e]; [by exists d|]. by destruct (caught_receipt e).
Qed.

Lemma pack_is_directory pack rel found : _package_member_path pack rel = Some found → leaf_kind pack = None.
Proof.
  unfold _package_member_path. destruct (member_parts rel) as [parts|] eqn:E; [|discriminate].
  apply member_parts_ok in E as (_ & Hne & _). destruct parts as [|p parts]; [done|]. by destruct pack.
Qed.

(** Every stage of an accepted pack is without a problem. *)
Record quiet_stages (pack manifest_file : node) (manifest : dict) (public_key : option pystr) (req : bool) (report : _BoundedProblemReport)
  (entries : list file_entry) (budget : _HashReadBudget) (ids : option pystr) (ex0 ex : expectations) : Prop := mkQuiet {
  qs_entries : manifest_entries manifest = ([], entries);
  qs_files : check_entries pack entries (mkBudget _MAX_PACKAGE_HASH_READ_BYTES 0) = Ok ([], budget, false);
  qs_digest : digest_problems manifest entries = Ok []; qs_listed : unlisted_problems pack (fe_path <$> entries) = [];
  qs_seal : seal_problems pack manifest_file manifest public_key req = Ok []; qs_ticket : manifest_ticket manifest = ([], ids);
  qs_metadata : read_metadata pack = Ok ([], ex0); qs_contracts : read_contracts pack ex0 = Ok ([], ex);
  qs_agreement : ticket_agreement ids (ex_ticket_id ex0) = []; qs_receipts : verification_problems pack (ex_ticket_id ex0) = Ok [];
  qs_chain : ∃ c, verify_chain exn_text decoded_prefix pack ex (Some budget) (extend_list [] collector_new) = Ok c ∧ pc_total c = 0 ∧ report = render_collector c
}.
Lemma verify_manifest_quiet pack manifest_file manifest public_key req report :
  verify_manifest exn_text decoded_prefix pack manifest_file manifest public_key req = Ok report → rp_values report = [] →
  ∃ entries budget ids ex0 ex, quiet_stages pack manifest_file manifest public_key req report entries budget ids ex0 ex.
Proof.
  unfold verify_manifest. destruct (manifest_entries manifest) as [p1 entries] eqn:E1.
  intros ([[p2 budget] exceeded] & E2 & Hv)%bind_ok Hr. apply bind_ok in Hv as (p3 & E3 & Hv). apply bind_ok in Hv as (p5 & E5 & Hv).
  destruct (manifest_ticket manifest) as [p6 ids] eqn:E6. apply bind_ok in Hv as ([p7 ex0] & E7 & Hv). apply bind_ok in Hv as ([p8 ex] & E8 & Hv).
  cbn [fst snd] in *. apply bind_ok in Hv as (p9 & E9 & Hv). apply bind_ok in Hv as (c & Hc & E). apply Ok_inj in E as <-. apply render_quiet in Hr.
  set (ps := p1 ++ _) in Hc.
  assert (Hps : ps = []).
  { apply verify_chain_total_le in Hc as Hz; [|exact Hr]. rewrite extend_list_total in Hz. by apply length_zero_iff_nil. }
  rewrite Hps in Hc. unfold ps in Hps. rewrite !app_nil in Hps. destruct Hps as (-> & -> & -> & H4 & -> & -> & -> & -> & Ha & ->).
  destruct (check_entries_ok _ _ _ _ _ E2) as [-> _]. exists entries, budget, ids, ex0, ex. split; try done. by exists c.
Qed.
Lemma verify_manifest_ok pack manifest_file manifest public_key req report :
  well_formed pack → member_file pack MANIFEST_NAME = Some manifest_file → _load_json manifest_file _MAX_MANIFEST_JSON_BYTES = Ok manifest →
  verify_manifest exn_text decoded_prefix pack manifest_file manifest public_key req = Ok report → rp_values report = [] →
  ∃ entries ex events, accepted_pack pack public_key req manifest_file manifest entries ex events.
Proof.
  intros Hwf Hm Hl Hv Hr. destruct (verify_manifest_quiet _ _ _ _ _ _ Hv Hr) as (entries & budget & ids & ex0 & ex & [E1 E2 E3 H4 E5 E6 E7 E8 Ha E9 (c & Hc & Hz & _)]).
  destruct (verify_chain_ok _ _ _ _ _ Hc Hz) as (_ & events & Hchain). exists entries, ex, events.
  pose proof (contracts_ticket _ _ _ _ E8) as Ht. destruct (metadata_ticket _ _ E7) as (id & Hid).
  assert (Hdir : leaf_kind pack = None).
  { unfold member_file in Hm. destruct (_package_member_path pack MANIFEST_NAME) as [f|] eqn:Ef; [|discriminate]. exact (pack_is_directory _ _ _ Ef). }
  split.
  - by split.
  - exact (manifest_entries_ok _ _ E1).
  - exact E1.
  - apply (check_entries_ok _ _ _ _ _ E2).
  - exact (digest_ok _ _ E3).
  - exact (unlisted_ok _ _ Hwf Hdir H4).
  - exact (seal_ok _ _ _ _ _ E5).
  - destruct (tickets_agree _ _ _ _ E6 Hid Ha) as (t & H1 & H2). exists t, id. rewrite Ht. done.
  - by exists ex0.
  - intros n. rewrite Ht. apply verifications_ok. exact E9.
  - exact Hchain.
Qed.

Lemma verify_pack_ok pack public_key req report :
  well_formed pack → verify_pack exn_text decoded_prefix pack public_key req = Ok report → rp_values report = [] →
  ∃ manifest_file manifest entries ex events, accepted_pack pack public_key req manifest_file manifest entries ex events.
Proof.
  intros Hwf. unfold verify_pack. destruct (_package_member_path pack MANIFEST_NAME) as [found|] eqn:Ef.
  2: { intros E. apply Ok_inj in E as <-. discriminate. }
  destruct (file_node found) as [n|] eqn:En; [|intros E; apply Ok_inj in E as <-; discriminate].
  destruct (_load_json n _) as [manifest|e] eqn:El; [|destruct (caught e); [|discriminate]; intros E; apply Ok_inj in E as <-; discriminate].
  intros Hv Hr. exists n, manifest. eapply verify_manifest_ok; [exact Hwf| |exact El|exact Hv|exact Hr]. unfold member_file. by rewrite Ef.
Qed.

(** ** The digest of a pack commits to its files *)
Definition member_content (pack : node) (rel : pystr) : option (list N) :=
  match member_file pack rel with Some (NFile _ (inl content)) => Some content | _ => None end.
Definition digest_value (entries : list file_entry) : pyval := PyList (entry_value <$> sort_by fe_path entries).
Lemma entry_value_canon e : canon canonical_opts (entry_value e) = entry_value e.
Proof. reflexivity. Qed.
Lemma entry_values_plain `{FloatRepr} es : json_plain (PyList (entry_value <$> es)) = true.
Proof. cbn [json_plain]. induction es as [|e es IH]; [done|]. cbn [fmap list_fmap forallb]. rewrite IH, andb_true_r. reflexivity. Qed.
Lemma entry_values_canon es : canon canonical_opts (PyList (entry_value <$> es)) = PyList (entry_value <$> es).
Proof.
  cbn [canon]. f_equal. induction es as [|e es IH]; [done|]. cbn [fmap list_fmap map]. by rewrite entry_value_canon, IH.
Qed.

(** The same digest: the same paths with the same hashes, or a collision. *)
Lemma pack_digest_inj entries entries' d :
  pack_digest entries = Ok d → pack_digest entries' = Ok d →
  (∀ e, e ∈ entries → ∃ e', e' ∈ entries' ∧ fe_path e' = fe_path e ∧ fe_sha256 e' = fe_sha256 e) ∨
  text_collision (digest_value entries) (digest_value entries').
Proof.
  unfold pack_digest. intros Hd Hd'. destruct (same_text_hash _ _ d Hd Hd') as [E|E]; [apply entry_values_plain..| |by right].
  left. rewrite !entry_values_canon in E. injection E as E. intros e He.
  assert (Hin : entry_value e ∈ entry_value <$> sort_by fe_path entries') by (rewrite <-E; apply list_elem_of_fmap_2; by apply elem_sort_by).
  apply list_elem_of_fmap in Hin as (e' & Hv & He'). exists e'. apply elem_sort_by in He'. split; [exact He'|].
  unfold entry_value in Hv. by injection Hv as -> ->.
Qed.

(** Two different files with one hash. *)
Definition content_collision (pack pack' : node) : Prop :=
  ∃ rel c c', member_content pack rel = Some c ∧ member_content pack' rel = Some c' ∧ c ≠ c' ∧ sha256_hex c = sha256_hex c'.
Lemma intact_content pack e : intact pack e → ∃ c, member_content pack (fe_path e) = Some c ∧ sha256_hex c = fe_sha256 e.
Proof. intros (size & c & Hm & Hh & _). exists c. unfold member_content. by rewrite Hm. Qed.
Lemma same_files pack pack' es es' :
  Forall (intact pack) es → Forall (intact pack') es' →
  (∀ e, e ∈ es → ∃ e', e' ∈ es' ∧ fe_path e' = fe_path e ∧ fe_sha256 e' = fe_sha256 e) →
  (∀ e, e ∈ es → ∃ c, member_content pack (fe_path e) = Some c ∧ member_content pack' (fe_path e) = Some c) ∨ content_collision pack pack'.
Proof.
  intros Hi Hi' Hsame. induction Hi as [|e es He _ IH]; [left; intros e He; by apply not_elem_of_nil in He|].
  destruct (intact_content _ _ He) as (c & Hc & Hs). destruct (Hsame e) as (e' & Hin & Hp & Hh); [apply elem_of_cons; by left|].
  destruct (intact_content _ _ (proj1 (Forall_forall _ _) Hi' e' Hin)) as (c' & Hc' & Hs'). rewrite Hp in Hc'.
  destruct (decide (c = c')) as [->|Hne]; [|right; exists (fe_path e), c, c'; split_and!; try done; congruence].
  destruct IH as [IH|IH]; [intros x Hx; apply Hsame, elem_of_cons; by right| |by right]. left. intros x [->|Hx]%elem_of_cons; [by exists c'|by apply IH].
Qed.

(** Files that the manifest need not list: the signature and the anchors of the
    pack, and a file named [manifest.json] in any directory. *)
Definition exempt_name (rel : pystr) : Prop :=
  last (split_on 47 rel) = Some MANIFEST_NAME ∨ rel ∈ [SIGNATURE_NAME; ANCHORS_NAME].
(** The files the digest in a manifest stands for: those it lists, and those it
    would have to list. *)
Definition covered (manifest : dict) (rel : pystr) : Prop :=
  rel ∈ fe_path <$> (manifest_entries manifest).2 ∨ ¬ exempt_name rel.
Lemma listed_content pack public_key req mf manifest entries ex events rel c :
  accepted_pack pack public_key req mf manifest entries ex events → member_content pack rel = Some c → ¬ exempt_name rel →
  ∃ e, e ∈ entries ∧ fe_path e = rel.
Proof.
  intros Hacc Hc Hne. unfold member_content, member_file in Hc. destruct (_package_member_path pack rel) as [found|] eqn:Em; [|discriminate].
  assert (Hf : ∃ size content, found = Some (NFile size content)).
  { destruct found as [[size content| | |]|]; try discriminate. by exists size, content. }
  destruct Hf as (size & content & ->). unfold _package_member_path in Em. destruct (member_parts rel) as [parts|] eqn:Ep; [|discriminate].
  assert (Hsplit : parts = split_on 47 rel) by (unfold member_parts in Ep; destruct (_ || _); congruence).
  apply member_parts_ok in Ep as [Hj _]. apply descend_at in Em.
  destruct (ap_closed _ _ _ _ _ _ _ _ Hacc parts KFile) as [_ Hx]; [by exists (NFile size content)|].
  unfold exempt in Hx. rewrite <-Hj in Hx. apply orb_true_iff in Hx as [[Hx|Hx]%orb_true_iff|Hx]; apply bool_decide_eq_true in Hx.
  - destruct Hne. left. rewrite <-Hsplit. destruct (last parts) as [p|]; [cbn in Hx; by rewrite Hx|]. vm_compute in Hx. discriminate Hx.
  - apply list_elem_of_fmap in Hx as (e & -> & He). by exists e.
  - destruct Hne. by right.
Qed.

(** The command line [args] asks for the verification of the directory [pack]. *)
Definition asks_for (directory : pystr → option node) (args : list pystr) (o : options) (pack : node) : Prop :=
  parse_args args (mkOptions None None false) = Some o ∧
  (∃ arg, op_pack o = Some arg ∧ directory arg = Some pack) ∧ (∀ key, op_public_key o = Some key → hex64 key = true).

(** C1: The verifier exits with 0 only on a pack that is what it says.  The
    manifest lists every regular file of the pack (the signature, the anchors and
    any file named manifest.json excepted) and nothing twice, every file listed is there with the
    SHA-256 listed, there is no link and no special file, the digest of the pack
    is that of the list, the ticket is the same everywhere, the event chain is
    intact and agrees with the metadata and the contracts, every artifact it
    records is in the pack, the receipts can be read, and the signature, when the
    pack has one, is one over the manifest and the anchors by the key given; a
    pack without a signature passes only when none is required. *)
Theorem exit_zero_accepts directory args :
  (∀ p n, directory p = Some n → well_formed n) → main exn_text decoded_prefix directory args = Ok 0%Z →
  ∃ o pack manifest_file manifest entries ex events, asks_for directory args o pack ∧
    accepted_pack pack (op_public_key o) (op_require_signature o) manifest_file manifest entries ex events.
Proof.
  intros Hwf. unfold main, asks_for. destruct (parse_args args _) as [o|] eqn:Eo; [|intros E; apply Ok_inj in E; discriminate].
  destruct (op_pack o) as [arg|] eqn:Ea; [|intros E; apply Ok_inj in E; discriminate].
  destruct (match op_public_key o with Some key => negb (hex64 key) | None => false end) eqn:Ek; [intros E; apply Ok_inj in E; discriminate|].
  destruct (directory arg) as [[|s l entries| |]|] eqn:Ed; try (intros E; apply Ok_inj in E; discriminate).
  intros (report & Hv & E)%bind_ok. apply Ok_inj in E. destruct (rp_values report) eqn:Er; [|discriminate].
  destruct (verify_pack_ok _ _ _ _ (Hwf _ _ Ed) Hv Er) as (mf & manifest & es & ex & events & Hacc).
  exists o, (NDir s l entries), mf, manifest, es, ex, events. split; [|exact Hacc]. split; [done|]. split; [by exists arg|].
  intros key Hkey. rewrite Hkey in Ek. by destruct (hex64 key).
Qed.

(** The manifest of a pack. *)
Definition loaded_manifest (pack : node) (manifest : dict) : Prop :=
  ∃ n, member_file pack MANIFEST_NAME = Some n ∧ _load_json n _MAX_MANIFEST_JSON_BYTES = Ok manifest.
Lemma accepted_manifest pack key req mf m es ex events m' :
  accepted_pack pack key req mf m es ex events → loaded_manifest pack m' → m' = m.
Proof. intros [[H1 H2] _ _ _ _ _ _ _ _ _ _] (n & H3 & H4). congruence. Qed.

(** C2: The digest of a pack commits to the files it covers.  Two packs that are
    accepted and whose manifests carry the same pack digest agree on every path
    that the manifest lists or that is not exempt from listing: a file is there
    in both or in neither, and with the same content, unless two of their files,
    or their two lists of files, differ and have the same SHA-256.  Exempt, when
    the manifest does not list them, are signature.json and anchors.json at the
    top and every file named manifest.json in any directory; on those the packs
    may differ. *)
Theorem pack_tamper_evident pack pack' key key' req req' report report' m m' :
  well_formed pack → well_formed pack' →
  verify_pack exn_text decoded_prefix pack key req = Ok report → rp_values report = [] →
  verify_pack exn_text decoded_prefix pack' key' req' = Ok report' → rp_values report' = [] →
  loaded_manifest pack m → loaded_manifest pack' m' → pget (u "pack_digest") m = pget (u "pack_digest") m' →
  (∀ rel, covered m rel → member_content pack rel = member_content pack' rel) ∨ content_collision pack pack' ∨
  text_collision (digest_value (manifest_entries m).2) (digest_value (manifest_entries m').2).
Proof.
  intros Hwf Hwf' Hv Hr Hv' Hr' Hm Hm' Hd.
  destruct (verify_pack_ok _ _ _ _ Hwf Hv Hr) as (mf & m1 & es & ex & events & A).
  destruct (verify_pack_ok _ _ _ _ Hwf' Hv' Hr') as (mf' & m1' & es' & ex' & events' & A').
  rewrite <-(accepted_manifest _ _ _ _ _ _ _ _ _ A Hm) in A. rewrite <-(accepted_manifest _ _ _ _ _ _ _ _ _ A' Hm') in A'.
  unfold covered. rewrite (ap_listed _ _ _ _ _ _ _ _ A), (ap_listed _ _ _ _ _ _ _ _ A'). cbn [snd].
  destruct (ap_digest _ _ _ _ _ _ _ _ A) as (d & Hd1 & Hp1). destruct (ap_digest _ _ _ _ _ _ _ _ A') as (d' & Hd2 & Hp2).
  assert (d' = d) as -> by congruence.
  destruct (pack_digest_inj _ _ _ Hp1 Hp2) as [S1|C]; [|by right; right].
  destruct (pack_digest_inj _ _ _ Hp2 Hp1) as [S2|C]; [|right; right].
  2: { destruct C as (t & t' & b & b' & H1 & H2 & H3 & H4 & H5 & H6 & H7). exists t', t, b', b. split_and!; done. }
  pose proof (ap_files _ _ _ _ _ _ _ _ A) as I1. pose proof (ap_files _ _ _ _ _ _ _ _ A') as I2.
  destruct (same_files _ _ _ _ I1 I2 S1) as [F1|C]; [|by right; left].
  left. intros rel [(e & -> & He)%list_elem_of_fmap|Hne].
  { by destruct (F1 e He) as (c & -> & ->). }
  destruct (member_content pack rel) as [c|] eqn:E1.
  - destruct (listed_content _ _ _ _ _ _ _ _ _ _ A E1 Hne) as (e & He & Hp). destruct (F1 e He) as (c' & E1' & E2). rewrite Hp in E1', E2. congruence.
  - destruct (member_content pack' rel) as [c|] eqn:E2; [|done].
    destruct (listed_content _ _ _ _ _ _ _ _ _ _ A' E2 Hne) as (e' & He' & Hp). destruct (S2 e' He') as (e & He & Hpe & _).
    destruct (F1 e He) as (c' & E1' & _). congruence.
Qed.
End verdict.

(** ** A pack of five files, and one with a file more *)
Module PackSample.
Import ChainSample.
Definition no_prefix (_ : list N) : pystr := [].
Definition json (v : pyval) : list N := match dumps canonical_opts v with Some t => utf8_bytes t | None => [] end.
Definition a_file (content : list N) : node := NFile (N.of_nat (length content)) (inl content).
Definition report_text : list N := u "all green".
Definition chain : list dict := Eval vm_compute in
  seal_all 0 GENESIS_HASH
    [TicketMirror.Sample.event "ticket_created" [(u "birth_kind", PyStr (u "plan"))];
     TicketMirror.Sample.event "artifact_written" [(u "path", PyStr (u "out/report.md")); (u "sha256", PyStr (sha256_hex report_text))]].
Definition events_file : list N := Eval vm_compute in concat ((λ e, json (PyDict e) ++ [10%N]) <$> chain).
Definition metadata_file : list N := Eval vm_compute in
  json (PyDict ((u "ticket_id", PyStr (u "T1")) :: TicketMirror.Sample.metadata)).
Definition index_file : list N := Eval vm_compute in
  json (PyDict [(u "artifacts", PyList [PyDict [(u "snapshot", PyStr (u "artifacts/1.md")); (u "chain_sha256", PyStr (sha256_hex report_text))]])]).
Definition listed : list (string * list N) := [
  ("artifacts.json", index_file); ("artifacts/1.md", report_text); ("ticket/events.jsonl", events_file); ("ticket/metadata.json", metadata_file)].
Definition entries : list file_entry := Eval vm_compute in
  (λ p, mkEntry (u p.1) (sha256_hex p.2) (PyInt (Z.of_nat (length p.2)))) <$> listed.
Definition manifest_text : list N := Eval vm_compute in
  json (PyDict [
    (u "files", PyList ((λ e, PyDict [(u "path", PyStr (fe_path e)); (u "sha256", PyStr (fe_sha256 e)); (u "size", fe_size e)]) <$> entries));
    (u "pack_digest", match pack_digest entries with Ok d => PyStr d | Err _ => PyNone end);
    (u "ticket", PyDict [(u "ticket_id", PyStr (u "T1"))])]).
Definition members : list (pystr * node) := [
  (u "manifest.json", a_file manifest_text); (u "artifacts.json", a_file index_file);
  (u "artifacts", NDir true true [(u "1.md", a_file report_text)]);
  (u "ticket", NDir true true [(u "metadata.json", a_file metadata_file); (u "events.jsonl", a_file events_file)])].
Definition sample : node := NDir true true members.
(** A second pack: below a directory of its own, a file that no manifest lists. *)
Definition smuggled : node := NDir true true ((u "notes", NDir true true [(u "manifest.json", a_file (u "anything"))]) :: members).
Definition directory (path : pystr) : option node := if path =s u "pack" then Some sample else None.
Definition quiet_report : _BoundedProblemReport := render_collector collector_new.

Lemma sample_accepted : verify_pack no_text no_prefix sample None false = Ok quiet_report.
Proof. vm_compute. reflexivity. Qed.
Lemma smuggled_accepted : verify_pack no_text no_prefix smuggled None false = Ok quiet_report.
Proof. vm_compute. reflexivity. Qed.
Lemma sample_formed : well_formed sample.
Proof. repeat split; apply (bool_decide_unpack _); vm_compute; exact I. Qed.
Lemma smuggled_formed : well_formed smuggled.
Proof. repeat split; apply (bool_decide_unpack _); vm_compute; exact I. Qed.
Definition manifest : dict := Eval vm_compute in
  match _load_json (a_file manifest_text) _MAX_MANIFEST_JSON_BYTES with Ok d => d | Err _ => [] end.
Lemma manifest_loaded : loaded_manifest sample manifest.
Proof. exists (a_file manifest_text). split; vm_compute; reflexivity. Qed.
Lemma smuggled_manifest_loaded : loaded_manifest smuggled manifest.
Proof. exists (a_file manifest_text). split; vm_compute; reflexivity. Qed.
End PackSample.
Import PackSample ChainSample.

Lemma exit_zero_accepts_witness :
  main no_text no_prefix directory [u "pack"; u "--verify-signature"] = Ok 0%Z ∧
  ∃ o pack manifest_file manifest entries ex events, asks_for directory [u "pack"; u "--verify-signature"] o pack ∧
    accepted_pack no_prefix pack (op_public_key o) (op_require_signature o) manifest_file manifest entries ex events.
Proof.
  assert (H : main no_text no_prefix directory [u "pack"; u "--verify-signature"] = Ok 0%Z).
  { change (main no_text no_prefix directory [u "pack"; u "--verify-signature"])
      with (report ← verify_pack no_text no_prefix sample None false; Ok (match rp_values report with [] => 0%Z | _ => 1%Z end)).
    by rewrite sample_accepted. }
  split; [exact H|]. apply (exit_zero_accepts no_text no_prefix directory _); [|exact H].
  intros p n. unfold directory. case_bool_decide; [|discriminate]. intros [= <-]. exact sample_formed.
Defined.

(** A nested [manifest.json] needs no entry. *)
Lemma pack_tamper_evident_witness :
  (∀ rel, covered manifest rel → member_content sample rel = member_content smuggled rel) ∨ content_collision sample smuggled ∨
  text_collision (digest_value (manifest_entries manifest).2) (digest_value (manifest_entries manifest).2).
Proof.
  exact (pack_tamper_evident no_text no_prefix sample smuggled None None false false quiet_report quiet_report manifest manifest
           sample_formed smuggled_formed sample_accepted eq_refl smuggled_accepted eq_refl manifest_loaded smuggled_manifest_loaded eq_refl).
Defined.
(** The second pack is accepted with a file that its manifest does not list. *)
Example smuggled_file :
  verify_pack no_text no_prefix smuggled None false = Ok quiet_report ∧
  member_content smuggled (u "notes/manifest.json") = Some (u "anything") ∧ u "notes/manifest.json" ∉ fe_path <$> entries.
Proof. split; [exact smuggled_accepted|]. split; [vm_compute; reflexivity|]. by apply (bool_decide_unpack _); vm_compute. Qed.

(** Failures that escape the verifier instead of being reported: a public key
    of the signature record that is no string, or no hexadecimal text, and a
    listed file that cannot be opened. *)
Definition signature_record (key : pyval) : node :=
  a_file (json (PyDict [
    (u "schema_version", PyInt 1); (u "algorithm", PyStr SIGNATURE_ALGORITHM); (u "public_key", key); (u "signature", PyStr []);
    (u "key_fingerprint", PyStr []); (u "signed_object", PyStr MANIFEST_NAME); (u "signed_digest", PyStr []);
    (u "anchors_included", PyBool false); (u "signed_at", PyStr (u "2026-01-02"))])).
Definition trusted_key : pystr := replicate 64 97%N.
Example odd_public_key :
  _signature_problems [] (signature_record (PyInt 5)) (a_file manifest_text) None (Some trusted_key)
    = Err (TypeError "expected string or bytes-like object") ∧
  _signature_problems [] (signature_record (PyStr (u "zz"))) (a_file manifest_text) None (Some trusted_key)
    = Err (ValueError "non-hexadecimal number found in fromhex() arg").
Proof. split; vm_compute; reflexivity. Qed.
Example unreadable_file :
  check_entry (NDir true true [(u "a", NFile 9 (inr (u "PermissionError")))]) (mkEntry (u "a") [] PyNone) (mkBudget 100 0) = Err OSError.
Proof. vm_compute. reflexivity. Qed.
