(* ===== verification/PackSigning.v ===== *)
(** * Signing a pack ([src/src/icode/pack_signing.py])

    Key files, and [sign_pack], which signs the bytes of the manifest and of the
    anchors and writes [signature.json].  On POSIX, where a line written ends
    with LF.  [signed_pack_verifies] composes it with the verifier of [Pack]. *)

From S2P Require Import Prelude PyText PyVal Hashing Utf8 Json JsonParse PrettyJson StrictJson Problems.
From S2P Require Import EventSchema EventChain Sha512 Ed25519 PackTree PackSignature Pack.

(** ** Failures

    A [SigningError] carries its message; other exceptions are those of
    [result]. *)
Definition signing (A : Type) : Type := result (pystr + A).
Definition and_then {A B} (m : signing A) (f : A → signing B) : signing B :=
  match m with Err e => Err e | Ok (inl message) => Ok (inl message) | Ok (inr a) => f a end.
Notation "'let*' x ':=' m 'in' k" := (and_then m (λ x, k)) (at level 200, x binder, m at level 100, k at level 200, only parsing).
Definition pass {A} (r : result A) : signing A := match r with Ok a => Ok (inr a) | Err e => Err e end.
Definition _fail {A} (message : pystr) : signing A := Ok (inl (u "pack-signing/" ++ message)).
(** [if bad: raise _fail(message)] *)
Definition fail_if (bad : bool) (message : string) : signing unit := if bad then _fail (u message) else Ok (inr ()).

Definition _MAX_MANIFEST_BYTES : N := 16 * 1024 * 1024.
Definition _MAX_ANCHORS_BYTES : N := 256 * 1024.
Definition _KEY_FILE_MODE : N := 384.

(** ** Key files *)
Definition public_key_hex (seed : list N) : result pystr := hex_of_bytes <$> ed25519_public_key seed.
Definition key_fingerprint (public_key : pystr) : result pystr := bs ← bytes_fromhex public_key; Ok (take 16 (sha256_hex bs)).

(** What reading delivers, or the class of its error; the permission bits, on
    POSIX. *)
Record key_file := mkKeyFile { kf_content : list N + pystr; kf_mode : option N }.
(** What [os.open] with [O_CREAT | O_EXCL] does. *)
Inductive open_outcome := Created | Exists | Failed.
Definition write_signing_key (posix : bool) (open : open_outcome) (seed : list N) : signing key_file :=
  let* _ := fail_if (negb (length seed =? 32)) "私钥种子必须是 32 字节" in
  match open with
  | Failed => Err OSError
  | Exists => _fail (u "私钥文件已存在，拒绝覆盖")
  | Created => Ok (inr (mkKeyFile (inl (hex_of_bytes seed ++ [10%N])) (if posix then Some _KEY_FILE_MODE else None)))
  end.

Definition read_signing_key (file : key_file) : signing (list N) :=
  match kf_content file with
  | inr name => _fail (u "私钥文件不可读：" ++ name)
  | inl bytes =>
    if negb (forallb is_ascii bytes) then _fail (u "私钥文件不可读：UnicodeDecodeError") else
    let text := strip bytes in
    let* _ := fail_if (negb (hex64 text)) "私钥文件必须是 64 位小写 hex 的 32 字节种子" in
    let* _ := fail_if (match kf_mode file with Some mode => negb (N.land mode 63 =? 0)%N | None => false end) "私钥文件权限过宽（要求 0600）" in
    pass (bytes_fromhex text)
  end.

(** ** Files of the pack

    [follow] is what a link at the top of the pack leads to. *)
Definition top_file (follow : pystr → option node) (pack : node) (name : pystr) : result (option node) :=
  match pack with
  | NDir true _ entries => Ok (file_node (match dget name entries with Some NLink => follow name | found => found end))
  | NDir false _ _ => Err OSError
  | _ => Ok None
  end.
Definition read_bytes (n : node) : list N + pystr := match n with NFile _ content => content | _ => inr (u "OSError") end.
(** [(pack / name).write_text(...)]; a file behind a link is not in the pack. *)
Definition put_file (writable : bool) (name : pystr) (content : list N) (pack : node) : result node :=
  match pack with
  | NDir s l entries =>
    if negb (writable && s) then Err OSError else
    match dget name entries with
    | Some (NDir _ _ _) => Err OSError
    | Some NLink | Some NSpecial => Ok pack
    | _ => Ok (NDir s l (dset name (NFile (N.of_nat (length content)) (inl content)) entries))
    end
  | _ => Err OSError
  end.

Section sign.
Context `{FloatRepr}.

(** [json.loads(manifest_bytes.decode("utf-8"))] *)
Definition parse_manifest (bytes : list N) : result pyval := text ← decode_utf8 bytes; loads plain_loads text.
Definition signature_record (public_hex signature_hex fingerprint digest : pystr) (included : bool) (now : pystr) : dict := [
  (u "schema_version", PyInt 1); (u "algorithm", PyStr (u "ed25519")); (u "public_key", PyStr public_hex);
  (u "signature", PyStr signature_hex); (u "key_fingerprint", PyStr fingerprint); (u "signed_object", PyStr (u "manifest.json"));
  (u "signed_digest", PyStr digest); (u "anchors_included", PyBool included); (u "signed_at", PyStr now)].
(** The digest of the manifest that is signed, with its bytes. *)
Definition read_manifest (follow : pystr → option node) (pack : node) : signing (list N * pystr) :=
  let* found := pass (top_file follow pack MANIFEST_NAME) in
  match found with
  | None => _fail (u "证据包缺少 manifest.json")
  | Some n =>
    match read_bytes n with
    | inr name => _fail (u "manifest.json 不可解析：" ++ name)
    | inl bytes =>
      match parse_manifest bytes with
      | Err e => if caught e then _fail (u "manifest.json 不可解析：" ++ exn_class n e) else Err e
      | Ok value =>
        let* _ := fail_if (_MAX_MANIFEST_BYTES <? N.of_nat (length bytes))%N "manifest.json 超过安全上限" in
        match value with
        | PyDict manifest =>
          match pget (u "pack_digest") manifest with
          | PyStr digest => let* _ := fail_if (negb (hex64 digest)) "manifest.json 缺少有效 pack_digest" in Ok (inr (bytes, digest))
          | _ => _fail (u "manifest.json 缺少有效 pack_digest")
          end
        | _ => Err (AttributeError "get")
        end
      end
    end
  end.
Definition read_anchors (follow : pystr → option node) (pack : node) : signing (option (list N)) :=
  let* found := pass (top_file follow pack ANCHORS_NAME) in
  match found with
  | None => Ok (inr None)
  | Some n =>
    match read_bytes n with
    | inr name => _fail (u "anchors.json 不可读：" ++ name)
    | inl bytes =>
      let* _ := fail_if (_MAX_ANCHORS_BYTES <? N.of_nat (length bytes))%N "anchors.json 超过安全上限" in Ok (inr (Some bytes))
    end
  end.

Definition sign_pack (follow : pystr → option node) (writable : bool) (now : pystr) (pack : node) (key : key_file) : signing (dict * node) :=
  let* manifest := read_manifest follow pack in
  let* anchors := read_anchors follow pack in
  let message := signature_message manifest.1 anchors in
  let* seed := read_signing_key key in
  let* public := pass (ed25519_public_key seed) in
  let public_hex := hex_of_bytes public in
  let* signature := pass (ed25519_sign seed message) in
  let* _ := fail_if (negb (ed25519_verify public message signature)) "签名后自校验失败（实现缺陷，拒绝发布）" in
  let* fingerprint := pass (key_fingerprint public_hex) in
  let record := signature_record public_hex (hex_of_bytes signature) fingerprint manifest.2 (match anchors with Some _ => true | None => false end) now in
  let* bytes := pass (json_file record) in
  let* pack := pass (put_file writable SIGNATURE_NAME bytes pack) in
  Ok (inr (record, pack)).
End sign.

(** ** Hexadecimal text *)
Lemma hex_value_char d : (d < 16)%N → hex_value (hex_char d) = Some d.
Proof.
  intros Hd. assert (H : forallb (λ d, bool_decide (hex_value (hex_char d) = Some d)) (N.of_nat <$> seq 0 16) = true) by (vm_compute; reflexivity).
  rewrite forallb_forall in H. apply (bool_decide_eq_true _), H. apply in_map_iff. exists (N.to_nat d). split; [lia|]. apply in_seq. lia.
Qed.
Lemma hex_space_char d : (d < 16)%N → hex_space (hex_char d) = false.
Proof.
  intros Hd. assert (H : forallb (λ d, negb (hex_space (hex_char d))) (N.of_nat <$> seq 0 16) = true) by (vm_compute; reflexivity).
  rewrite forallb_forall in H. apply negb_true_iff, H. apply in_map_iff. exists (N.to_nat d). split; [lia|]. apply in_seq. lia.
Qed.
Lemma fromhex_hex bs : bytes_ok bs → fromhex (hex_of_bytes bs) = Some bs.
Proof.
  induction 1 as [|b bs Hb _ IH]; [done|]. change (hex_of_bytes (b :: bs)) with (hex_char (N.land (N.shiftr b 4) 15) :: hex_char (N.land b 15) :: hex_of_bytes bs).
  assert (H1 : N.land b 15 = (b mod 16)%N) by (change 15%N with (N.ones 4); by rewrite N.land_ones).
  assert (H2 : N.land (N.shiftr b 4) 15 = (b / 16)%N).
  { change 15%N with (N.ones 4). rewrite N.land_ones, N.shiftr_div_pow2. change (2 ^ 4)%N with 16%N. apply N.mod_small. apply N.Div0.div_lt_upper_bound. lia. }
  rewrite H1, H2. assert (L1 : (b mod 16 < 16)%N) by (apply N.mod_lt; lia). assert (L2 : (b / 16 < 16)%N) by (apply N.Div0.div_lt_upper_bound; lia).
  cbn [fromhex]. rewrite hex_space_char, !hex_value_char, IH by done. do 2 f_equal. rewrite (N.div_mod b 16) at 3 by lia. lia.
Qed.
Lemma full_classes_repeat f n s : length s = n → Forall (λ c, f c = true) s → full_classes (repeat f n) s = true.
Proof.
  intros <- Hs. unfold full_classes. rewrite repeat_length, Nat.eqb_refl. cbn [andb].
  induction Hs as [|c s Hc _ IH]; [done|]. cbn. by rewrite Hc.
Qed.
Lemma hex64_hex bs : length bs = 32 → hex64 (hex_of_bytes bs) = true.
Proof. intros Hl. destruct (hex_of_bytes_spec bs) as [H1 H2]. apply full_classes_repeat; [lia|exact H2]. Qed.

(** The text of a line is the line without its end. *)
Lemma hex_lower_plain c : is_hex_lower c = true → is_ascii c = true ∧ is_space c = false ∧ is_surrogate c = false ∧ (32 <= c /\ c < 127 /\ c <> 34 /\ c <> 92)%N.
Proof.
  unfold is_hex_lower, is_digit, is_ascii, is_space, is_surrogate, in_range. intros Hc. autorewrite with py in *. lia.
Qed.
Lemma strip_line s : Forall (λ c, is_space c = false) s → strip (s ++ [10%N]) = s.
Proof.
  intros Hs. unfold strip, strip_by, rstrip_by. assert (Hl : lstrip_by is_space (s ++ [10%N]) = match s with [] => [] | _ => s ++ [10%N] end).
  { destruct Hs as [|c s Hc Hs]; [done|]. cbn. by rewrite Hc. }
  rewrite Hl. destruct s as [|c s]; [done|]. rewrite reverse_app. cbn [reverse app lstrip_by]. change (is_space 10) with true. cbn iota.
  change (reverse [10%N] ++ reverse (c :: s)) with (10%N :: reverse (c :: s)). cbn [lstrip_by]. change (is_space 10) with true. cbn iota.
  assert (Hr : lstrip_by is_space (reverse (c :: s)) = reverse (c :: s)).
  { apply Forall_reverse in Hs. destruct Hs as [|d t Hd _]; [done|]. cbn. by rewrite Hd. }
  by rewrite Hr, reverse_involutive.
Qed.

(** A key file that was written is read back. *)
Theorem signing_key_roundtrip posix seed file :
  bytes_ok seed → write_signing_key posix Created seed = Ok (inr file) → read_signing_key file = Ok (inr seed).
Proof.
  intros Hs. unfold write_signing_key, fail_if. destruct (Nat.eqb_spec (length seed) 32) as [Hl|]; [|discriminate]. cbn [negb and_then].
  intros E. apply Ok_inj in E. injection E as <-. unfold read_signing_key, fail_if, pass, bytes_fromhex. cbn [kf_content kf_mode].
  destruct (hex_of_bytes_spec seed) as [_ Hx].
  assert (Hascii : forallb is_ascii (hex_of_bytes seed ++ [10%N]) = true).
  { apply forallb_Forall, Forall_app. split; [|by repeat constructor]. eapply Forall_impl; [exact Hx|]. intros c Hc. by apply hex_lower_plain in Hc as (Hc & _). }
  rewrite Hascii, strip_line, (hex64_hex _ Hl).
  - rewrite (fromhex_hex _ Hs). by destruct posix.
  - eapply Forall_impl; [exact Hx|]. intros c Hc. by apply hex_lower_plain in Hc as (_ & Hc & _).
Qed.

(** ** The text of the record *)
Definition plain_char (c : N) : Prop := (32 ≤ c ∧ c < 127 ∧ c ≠ 34 ∧ c ≠ 92)%N.
Definition plain_text (s : pystr) : Prop := Forall plain_char s.
Lemma json_char_plain c : plain_char c → json_char false c = [c].
Proof.
  intros (H1 & H2 & H3 & H4). unfold json_char.
  repeat match goal with |- context [(c =? ?k)%N] => destruct (N.eqb_spec c k); [lia|] end.
  destruct (N.ltb_spec c 32); [lia|]. done.
Qed.
Lemma json_str_plain s : plain_text s → json_str false s = [34%N] ++ s ++ [34%N].
Proof.
  intros Hs. unfold json_str. do 2 f_equal. induction Hs as [|c s Hc _ IH]; [done|]. cbn [fmap list_fmap concat]. by rewrite (json_char_plain c Hc), IH.
Qed.
Lemma plain_hex s : Forall (λ c, is_hex_lower c = true) s → plain_text s.
Proof. intros H. eapply Forall_impl; [exact H|]. intros c Hc. by apply hex_lower_plain in Hc as (_ & _ & _ & Hc). Qed.
Lemma plain_ascii s : plain_text s → Forall (λ c, is_ascii c = true) s.
Proof. intros H. eapply Forall_impl; [exact H|]. intros c Hc. apply N.ltb_lt. unfold plain_char in Hc. lia. Qed.

Definition ascii (s : pystr) : Prop := Forall (λ c, is_ascii c = true) s.
(** The members of an object with plain names. *)
Lemma members_ascii sep ws : ascii sep → Forall (λ p, plain_text p.1 ∧ ascii p.2) ws → ascii (join sep (member_text [32%N] <$> ws)).
Proof.
  intros Hsep Hws. assert (Hm : ∀ p, plain_text p.1 ∧ ascii p.2 → ascii (member_text [32%N] p)).
  { intros p [Hk Hv]. unfold member_text. rewrite (json_str_plain _ Hk). repeat (apply Forall_app; split); [by repeat constructor|by apply plain_ascii|by repeat constructor..|exact Hv]. }
  induction Hws as [|p ws Hp Hws IH]; [constructor|]. rewrite fmap_cons. destruct ws as [|q ws]; [by apply Hm|].
  rewrite fmap_cons in *. rewrite join_cons2. apply Forall_app; split; [by apply Hm|]. apply Forall_app; split; [done|exact IH].
Qed.
Lemma members_length sep ws : Forall (λ p, plain_text p.1 ∧ ascii p.2) ws →
  length (join sep (member_text [32%N] <$> ws)) ≤ foldr (λ p n, length p.1 + length p.2 + (4 + length sep) + n) 0 ws.
Proof.
  assert (Hm : ∀ p, plain_text p.1 → length (member_text [32%N] p) = length p.1 + length p.2 + 4).
  { intros p Hk. unfold member_text. rewrite (json_str_plain _ Hk), !length_app. cbn [length]. lia. }
  induction 1 as [|p ws [Hp _] Hws IH]; [done|]. rewrite fmap_cons. cbn [foldr]. destruct ws as [|q ws].
  { cbn [fmap list_fmap join]. rewrite Hm by done. lia. }
  rewrite fmap_cons in *. rewrite join_cons2, !length_app, Hm by done. lia.
Qed.

(** ** Reading the record back *)
Lemma small_text_in_budget text : (N.of_nat (length text) ≤ _MAX_JSON_STRUCTURAL_TOKENS)%N → _check_json_structural_token_budget None text = Ok ().
Proof.
  intros Hlen. unfold _check_json_structural_token_budget.
  assert (H : ∀ l t, (ts_count t + N.of_nat (length l) ≤ _MAX_JSON_STRUCTURAL_TOKENS)%N → ∃ t', foldM_res (scan_char None) t l = Ok t').
  { clear. induction l as [|c l IH]; intros t Ht; [by exists t|]. cbn [length] in Ht.
    assert (Hs : ∃ t', scan_char None t c = Ok t' ∧ (ts_count t' ≤ ts_count t + 1)%N).
    { unfold scan_char, open_container. destruct (ts_string t).
      { eexists. split; [done|]. destruct (ts_escaped t), (c =? 92)%N, (c =? 34)%N; cbn; lia. }
      destruct (c =? 34)%N; [eexists; split; [done|]; cbn; lia|]. destruct (is_structural c); [|eexists; split; [done|]; lia].
      cbn [ts_count]. destruct (N.ltb_spec _MAX_JSON_STRUCTURAL_TOKENS (ts_count t + 1)); [lia|].
      destruct (c ∈s u "{["); [eexists; split; [done|]; cbn; lia|].
      destruct (c =s 125%N); [eexists; split; [done|]; cbn; lia|]. destruct (c =s 93%N); eexists; (split; [done|]); cbn; lia. }
    destruct Hs as (t' & Ht' & Hc). cbn [foldM_res]. rewrite Ht'. cbn. apply IH. lia. }
  destruct (H text (mkScan false false 0 [] 0)) as [t' ->]; [cbn; lia|]. done.
Qed.

Lemma ascii_utf8 s : ascii s → utf8_bytes s = s.
Proof.
  unfold utf8_bytes. induction 1 as [|c s Hc _ IH]; [done|]. cbn [fmap list_fmap concat]. rewrite IH. unfold utf8_char.
  unfold is_ascii in Hc. by rewrite Hc.
Qed.
Lemma ascii_code_points s : ascii s → Forall (λ c, is_code_point c = true) s.
Proof.
  intros Hs. eapply Forall_impl; [exact Hs|]. intros c Hc. unfold is_ascii in Hc. apply N.ltb_lt in Hc. unfold is_code_point.
  apply andb_true_iff. split; [apply N.ltb_lt; lia|]. unfold is_surrogate, in_range. autorewrite with py. lia.
Qed.
(** A file of ASCII text is read as that text. *)
Lemma load_ascii_text text limit : ascii text → (N.of_nat (length text) ≤ limit)%N →
  load_json_value (NFile (N.of_nat (length text)) (inl text)) limit = loads_json_value text.
Proof.
  intros Ha Hl. unfold load_json_value, read_bounded_bytes. rewrite bounded_loop_spec by lia. rewrite (proj2 (N.leb_le _ _)) by lia. cbn [app mbind result_bind].
  unfold decode_utf8. assert (E : utf8_decode text = Some text).
  { apply utf8_decode_iff. split; [by rewrite ascii_utf8|by apply ascii_code_points]. }
  by rewrite E.
Qed.

Lemma plain_literal s : forallb (λ c, (32 <=? c)%N && (c <? 127)%N && negb (c =? 34)%N && negb (c =? 92)%N) (u s) = true → plain_text (u s).
Proof. intros Hs. apply forallb_Forall in Hs. eapply Forall_impl; [exact Hs|]. intros c Hc. unfold plain_char. autorewrite with py in Hc. lia. Qed.

Section text.
Context `{FloatRepr} (public signature fingerprint digest now : pystr) (included : bool).
Context (Hpub : plain_text public) (Hsig : plain_text signature) (Hfp : plain_text fingerprint) (Hdig : plain_text digest) (Hnow : plain_text now).
Context (Lpub : length public = 64) (Lsig : length signature = 128) (Lfp : length fingerprint = 16) (Ldig : length digest = 64) (Lnow : length now ≤ 64).
Let record := signature_record public signature fingerprint digest included now.

Lemma quoted_ascii s : plain_text s → ascii (json_str false s) ∧ length (json_str false s) = 2 + length s.
Proof.
  intros Hs. rewrite (json_str_plain _ Hs). split; [|rewrite !length_app; cbn [length]; lia].
  repeat (apply Forall_app; split); [by repeat constructor|by apply plain_ascii|by repeat constructor].
Qed.

Ltac member t := apply Forall_cons_2; [split; [apply plain_literal; vm_compute; reflexivity|t]|].
Ltac literal := apply forallb_Forall; vm_compute; reflexivity.
Lemma record_text : ∃ w, dumps_indent 0 (PyDict record) = Some w ∧ ascii w ∧ length w ≤ 1000.
Proof.
  unfold record, signature_record. rewrite indent_PyDict. cbn [indent_items dumps_indent dumps jo_ascii plain_opts mbind option_bind].
  match goal with |- context [member_text [32%N] <$> ?l] => set (ws := l) end.
  assert (Hws : Forall (λ p, plain_text p.1 ∧ ascii p.2) ws).
  { unfold ws. member literal. member literal. member ltac:(by apply quoted_ascii). member ltac:(by apply quoted_ascii).
    member ltac:(by apply quoted_ascii). member literal. member ltac:(by apply quoted_ascii).
    member ltac:(destruct included; literal). member ltac:(by apply quoted_ascii). apply Forall_nil_2. }
  pose proof (members_length (44%N :: newline 1) ws Hws) as Hlen.
  assert (Hfold : foldr (λ p n, length p.1 + length p.2 + (4 + length (44%N :: newline 1)) + n) 0 ws ≤ 900).
  { unfold ws. cbn [foldr fst snd]. rewrite (proj2 (quoted_ascii _ Hpub)), (proj2 (quoted_ascii _ Hsig)), (proj2 (quoted_ascii _ Hfp)),
      (proj2 (quoted_ascii _ Hdig)), (proj2 (quoted_ascii _ Hnow)), Lpub, Lsig, Lfp, Ldig.
    assert (Hi : length (if included then u "true" else u "false") ≤ 5) by (destruct included; vm_compute; lia).
    revert Hi. generalize (length (if included then u "true" else u "false")) as k. intros k Hk. revert Lnow. generalize (length now) as m. intros m Hm.
    repeat match goal with |- context [length ?l] => let n := eval vm_compute in (length l) in change (length l) with n end. lia. }
  eexists. split; [reflexivity|]. split.
  - apply Forall_app; split; [literal|]. apply Forall_app; split; [literal|].
    apply Forall_app; split; [|literal]. apply members_ascii; [literal|exact Hws].
  - rewrite !length_app. change (length (u "{")) with 1. change (length (u "}")) with 1. change (length (newline 1)) with 3. change (length (newline 0)) with 1. lia.
Qed.

Lemma record_plain : json_plain (PyDict record) = true.
Proof. apply andb_true_iff. split; [|reflexivity]. apply bool_decide_eq_true. apply (bool_decide_unpack _). vm_compute. exact I. Qed.
Lemma record_strict : strict_value 0 (PyDict record).
Proof.
  assert (Ht : ∀ s, plain_text s → strict_value 1 (PyStr s)) by (intros s Hs; constructor; by apply clean_ascii, plain_ascii).
  constructor; [unfold _MAX_JSON_CONTAINER_DEPTH; lia|apply (bool_decide_unpack _); vm_compute; exact I| |].
  - repeat (apply Forall_cons_2; [vm_compute; reflexivity|]). apply Forall_nil_2.
  - unfold record, signature_record. repeat (apply Forall_cons_2; [cbn [snd]; try (by apply Ht); try constructor; vm_compute; reflexivity|]). apply Forall_nil_2.
Qed.

(** The file that is written, and what the verifier reads in it. *)
Lemma record_file : ∃ bytes, json_file record = Ok bytes ∧
  load_json_value (NFile (N.of_nat (length bytes)) (inl bytes)) _MAX_SIGNATURE_JSON_BYTES = Ok (PyDict record).
Proof.
  destruct record_text as (w & Hw & Ha & Hl). assert (Ha' : ascii (w ++ [10%N])) by (apply Forall_app; split; [done|literal]).
  exists (w ++ [10%N]). split.
  - unfold json_file. rewrite Hw. unfold encode_utf8, utf8_encodable. rewrite (clean_ascii _ Ha'). cbn [negb]. by rewrite ascii_utf8.
  - assert (Hlen : length (w ++ [10%N]) ≤ 1001) by (rewrite length_app; cbn [length]; lia).
    rewrite load_ascii_text; [|done|unfold _MAX_SIGNATURE_JSON_BYTES; lia]. unfold loads_json_value.
    rewrite small_text_in_budget by (unfold _MAX_JSON_STRUCTURAL_TOKENS; lia). cbn [mbind result_bind].
    pose proof (loads_indent strict_loads _ _ record_plain Hw) as Hload. rewrite Hload. cbn [mbind result_bind].
    unfold _reject_non_interoperable_values. by rewrite (proj2 (reject_value_strict _ 0 (loads_value _ _ _ Hload)) record_strict).
Qed.
End text.

(** ** The signature is accepted *)
(** The anchors that the signature covers. *)
Definition covers (anchors : option node) (covered : option (list N)) : Prop :=
  match anchors, covered with
  | Some n, Some bs => read_bounded_bytes n _MAX_ANCHORS_JSON_BYTES = Ok bs
  | None, None => True
  | _, _ => False
  end.
Definition time_text (now : pystr) : Prop := plain_text now ∧ 1 ≤ length now ≤ 64.

Lemma hex_text bs n : length bs = n → Forall (λ c, is_hex_lower c = true) (hex_of_bytes bs) ∧ length (hex_of_bytes bs) = 2 * n.
Proof. intros <-. destruct (hex_of_bytes_spec bs) as [H1 H2]. by split. Qed.
Lemma hex_bytes_hex bs n : bytes_ok bs → length bs = n → n ≠ 0 → _hex_bytes (PyStr (hex_of_bytes bs)) n = Some bs.
Proof.
  intros Hb Hl Hn. destruct (hex_text bs n Hl) as [Hx Hxl]. unfold _hex_bytes. rewrite Hxl.
  rewrite (proj2 (Nat.eqb_eq _ _)) by lia. rewrite (proj2 (Nat.eqb_neq (2 * n) 0)) by lia.
  rewrite (proj2 (forallb_Forall _ _) Hx). cbn [andb negb]. by apply fromhex_hex.
Qed.
Lemma full_classes_spec f n s : full_classes (repeat f n) s = true ↔ length s = n ∧ Forall (λ c, f c = true) s.
Proof.
  split; [|intros []; by apply full_classes_repeat]. unfold full_classes. rewrite repeat_length. intros [Hl Hx]%andb_true_iff.
  apply Nat.eqb_eq in Hl. split; [done|]. subst n. induction s as [|c s IH]; [constructor|]. cbn in Hx. apply andb_true_iff in Hx as [Hc Hx].
  constructor; [exact Hc|by apply IH].
Qed.

Lemma fingerprint_text (public : list N) : plain_text (take 16 (sha256_hex public)) ∧ length (take 16 (sha256_hex public)) = 16.
Proof.
  pose proof (sha256_hex_form public) as Hx. apply full_cls_spec in Hx as (Hl & _ & Hx). split; [|rewrite length_take; lia]. apply plain_hex, Forall_take. exact Hx.
Qed.

Section accepted.
Context `{FloatRepr} (manifest : dict) (manifest_file : node) (anchors : option node) (covered : option (list N)).
Context (manifest_bytes public signature : list N) (digest now : pystr).
Context (Hpub : bytes_ok public) (Lpub : length public = 32) (Hsig : bytes_ok signature) (Lsig : length signature = 64).
Context (Hdig : hex64 digest = true) (Hnow : time_text now).
Let public_hex := hex_of_bytes public.
Let fingerprint := take 16 (sha256_hex public).
Let record := signature_record public_hex (hex_of_bytes signature) fingerprint digest (match covered with Some _ => true | None => false end) now.
Context (bytes : list N) (Hfile : json_file record = Ok bytes).

Lemma file_reads : load_json_value (NFile (N.of_nat (length bytes)) (inl bytes)) _MAX_SIGNATURE_JSON_BYTES = Ok (PyDict record).
Proof.
  destruct (hex_text _ _ Lpub) as [X1 L1]. destruct (hex_text _ _ Lsig) as [X2 L2]. destruct (fingerprint_text public) as [X3 L3].
  apply full_classes_spec in Hdig as [L4 X4]. destruct Hnow as [X5 L5].
  destruct (record_file public_hex (hex_of_bytes signature) fingerprint digest now (match covered with Some _ => true | None => false end)) as (bs & Hbs & Hload);
    [by apply plain_hex..|exact X3|by apply plain_hex|exact X5|exact L1|exact L2|exact L3|exact L4|lia|].
  change (json_file record = Ok bs) in Hbs. rewrite Hfile in Hbs. apply Ok_inj in Hbs as <-. exact Hload.
Qed.

Lemma record_fields : field_problems _SIGNATURE_FIELDS record (u "签名记录缺少字段：") (u "签名记录含未知字段：") = [].
Proof. vm_compute. reflexivity. Qed.
Lemma record_get :
  pget (u "schema_version") record = PyInt 1 ∧ pget (u "algorithm") record = PyStr SIGNATURE_ALGORITHM ∧
  pget (u "signed_object") record = PyStr MANIFEST_NAME ∧ pget (u "public_key") record = PyStr public_hex ∧
  pget (u "anchors_included") record = PyBool (match covered with Some _ => true | None => false end) ∧
  pget (u "signed_digest") record = PyStr digest ∧ pget (u "signed_at") record = PyStr now ∧
  pget (u "key_fingerprint") record = PyStr fingerprint ∧ pget (u "signature") record = PyStr (hex_of_bytes signature).
Proof. repeat split; vm_compute; reflexivity. Qed.

(** The record that signing makes passes every check of the verifier. *)
Lemma own_signature_accepted :
  pget (u "pack_digest") manifest = PyStr digest → read_bounded_bytes manifest_file _MAX_MANIFEST_JSON_BYTES = Ok manifest_bytes →
  covers anchors covered → ed25519_verify public (signature_message manifest_bytes covered) signature = true →
  _signature_problems manifest (NFile (N.of_nat (length bytes)) (inl bytes)) manifest_file anchors (Some public_hex) = Ok [].
Proof.
  intros Hd Hm Hc Hv. pose proof (hex64_hex _ Lpub : hex64 public_hex = true) as Hkey. pose proof (fromhex_hex _ Hpub : fromhex public_hex = Some public) as Hhex.
  unfold _signature_problems. rewrite Hkey, file_reads. cbn [negb]. rewrite record_fields, bool_decide_eq_true_2 by done. cbn [negb]. cbv zeta.
  destruct record_get as (G1 & G2 & G3 & G4 & G5 & G6 & G7 & G8 & G9).
  rewrite G1, G2, G3, G4, G5, G6, G7, G8, G9, Hm, Hd. clear G1 G2 G3 G4 G5 G6 G7 G8 G9.
  assert (Hcov : signed_anchors (PyBool (match covered with Some _ => true | None => false end)) anchors = ([], inl covered)).
  { unfold covers in Hc. destruct anchors as [n|], covered as [bs|]; try done. cbn. by rewrite Hc. }
  rewrite Hcov, Hkey. unfold bytes_fromhex. rewrite Hhex. cbn [mbind result_bind negb].
  rewrite (hex_bytes_hex _ 64 Hsig Lsig) by done.
  assert (Hquiet : ∀ b m, b = false → when b m = []) by (intros ? ? ->; done).
  assert (Ht : (1 <=? length now) && (length now <=? 64) = true) by (destruct Hnow as [_ Hl]; apply andb_true_iff; rewrite !Nat.leb_le; lia).
  rewrite !Hquiet; cbn [app py_eq as_int is_lit str_test]; rewrite ?bool_decide_eq_true_2, ?Hv, ?Ht by done; try done.
Qed.
End accepted.

(** ** What signing a pack does *)
Lemma and_then_ok {A B} (m : signing A) (f : A → signing B) b : and_then m f = Ok (inr b) ↔ ∃ a, m = Ok (inr a) ∧ f a = Ok (inr b).
Proof.
  split; [|by intros (a & -> & Hf)]. destruct m as [[message|a]|e]; cbn [and_then]; [discriminate| |discriminate]. intros Hf. by exists a.
Qed.
Lemma pass_ok {A} (r : result A) a : pass r = Ok (inr a) → r = Ok a.
Proof. unfold pass. destruct r; intros E; [|discriminate]. apply Ok_inj in E. by injection E as ->. Qed.
Lemma fail_if_ok bad message x : fail_if bad message = Ok (inr x) → bad = false.
Proof. unfold fail_if, _fail. by destruct bad. Qed.

Section signed.
Context `{FloatRepr} (follow : pystr → option node) (writable : bool) (now : pystr) (pack : node) (key : key_file).
Record signed_manifest (n : node) (bytes : list N) (manifest : dict) (digest : pystr) : Prop := mkSignedManifest {
  sm_file : top_file follow pack MANIFEST_NAME = Ok (Some n); sm_bytes : read_bytes n = inl bytes; sm_text : parse_manifest bytes = Ok (PyDict manifest);
  sm_size : (N.of_nat (length bytes) ≤ _MAX_MANIFEST_BYTES)%N; sm_digest : pget (u "pack_digest") manifest = PyStr digest; sm_hex : hex64 digest = true
}.
Lemma read_manifest_ok bytes digest : read_manifest follow pack = Ok (inr (bytes, digest)) → ∃ n manifest, signed_manifest n bytes manifest digest.
Proof.
  unfold read_manifest. rewrite and_then_ok. intros (found & Hf%pass_ok & Hr). destruct found as [n|]; [|discriminate].
  destruct (read_bytes n) as [bs|] eqn:Eb; [|discriminate]. destruct (parse_manifest bs) as [v|e] eqn:Ep; [|destruct (caught e); discriminate].
  apply and_then_ok in Hr as (x & Hs%fail_if_ok & Hr). destruct v as [| | | | | | |manifest|]; try discriminate.
  destruct (pget (u "pack_digest") manifest) as [| | | |d| | | |] eqn:Ed; try discriminate. apply and_then_ok in Hr as (y & Hx%fail_if_ok & Hr).
  apply Ok_inj in Hr. injection Hr as -> ->. exists n, manifest. apply N.ltb_ge in Hs. apply negb_false_iff in Hx. exact (mkSignedManifest _ _ _ _ Hf Eb Ep Hs Ed Hx).
Qed.
Record signed_anchors_file (covered : option (list N)) : Prop := mkSignedAnchors {
  sa_file : match covered with
            | Some bs => ∃ n, top_file follow pack ANCHORS_NAME = Ok (Some n) ∧ read_bytes n = inl bs ∧ (N.of_nat (length bs) ≤ _MAX_ANCHORS_BYTES)%N
            | None => top_file follow pack ANCHORS_NAME = Ok None
            end
}.
Lemma read_anchors_ok covered : read_anchors follow pack = Ok (inr covered) → signed_anchors_file covered.
Proof.
  unfold read_anchors. rewrite and_then_ok. intros (found & Hf%pass_ok & Hr). destruct found as [n|].
  - destruct (read_bytes n) as [bs|] eqn:Eb; [|discriminate]. apply and_then_ok in Hr as (x & Hs%fail_if_ok & Hr). apply Ok_inj in Hr. injection Hr as <-.
    apply N.ltb_ge in Hs. split. by exists n.
  - apply Ok_inj in Hr. injection Hr as <-. by split.
Qed.

(** The record of a pack that was signed, and the pack with it. *)
Record signed_pack (record : dict) (pack' : node) (n : node) (manifest_bytes : list N) (manifest : dict) (digest : pystr) (covered : option (list N))
  (public signature bytes : list N) : Prop := mkSignedPack {
  sp_manifest : signed_manifest n manifest_bytes manifest digest; sp_anchors : signed_anchors_file covered;
  sp_public : bytes_ok public ∧ length public = 32; sp_signature : bytes_ok signature ∧ length signature = 64;
  sp_verifies : ed25519_verify public (signature_message manifest_bytes covered) signature = true;
  sp_record : record = signature_record (hex_of_bytes public) (hex_of_bytes signature) (take 16 (sha256_hex public)) digest
                         (match covered with Some _ => true | None => false end) now;
  sp_bytes : json_file record = Ok bytes; sp_pack : put_file writable SIGNATURE_NAME bytes pack = Ok pack'
}.
Lemma compressed_bytes p : bytes_ok (_ed_compress p) ∧ length (_ed_compress p) = 32.
Proof. destruct p as [[[x y] z] t]. unfold _ed_compress. split; [apply to_bytes_range|apply to_bytes_length]. Qed.
Lemma public_key_bytes seed public : ed25519_public_key seed = Ok public → bytes_ok public ∧ length public = 32.
Proof. unfold ed25519_public_key. intros (ap & _ & E)%bind_ok. apply Ok_inj in E as <-. apply compressed_bytes. Qed.
Lemma signature_bytes seed message signature : ed25519_sign seed message = Ok signature → bytes_ok signature ∧ length signature = 64.
Proof.
  unfold ed25519_sign. intros ([a prefix] & _ & E)%bind_ok. apply Ok_inj in E as <-.
  match goal with |- context [_ed_compress ?p ++ to_bytes_le 32 ?s] => destruct (compressed_bytes p) as [H1 H2]; pose proof (to_bytes_range 32 s); pose proof (to_bytes_length 32 s) end.
  split; [by apply Forall_app|rewrite length_app; lia].
Qed.
Lemma sign_pack_ok record pack' : sign_pack follow writable now pack key = Ok (inr (record, pack')) →
  ∃ n manifest_bytes manifest digest covered public signature bytes, signed_pack record pack' n manifest_bytes manifest digest covered public signature bytes.
Proof.
  unfold sign_pack. rewrite and_then_ok. intros ([mb digest] & Hm & Hr). apply read_manifest_ok in Hm as (n & manifest & Hm).
  apply and_then_ok in Hr as (covered & Ha%read_anchors_ok & Hr). cbn [fst snd] in Hr. cbv zeta in Hr.
  apply and_then_ok in Hr as (seed & _ & Hr). apply and_then_ok in Hr as (public & Hp%pass_ok & Hr).
  apply and_then_ok in Hr as (signature & Hs%pass_ok & Hr). apply and_then_ok in Hr as (x & Hv%fail_if_ok & Hr). apply negb_false_iff in Hv.
  apply and_then_ok in Hr as (fp & Hf%pass_ok & Hr). apply and_then_ok in Hr as (bytes & Hb%pass_ok & Hr). apply and_then_ok in Hr as (pk & Hk%pass_ok & Hr).
  pose proof (public_key_bytes _ _ Hp) as [P1 P2]. unfold key_fingerprint, bytes_fromhex in Hf. rewrite (fromhex_hex _ P1) in Hf. apply Ok_inj in Hf as <-.
  apply Ok_inj in Hr. injection Hr as <- <-. exists n, mb, manifest, digest, covered, public, signature, bytes.
  split; try done. exact (signature_bytes _ _ _ Hs).
Qed.
End signed.
