(* ===== verification/PackSigned.v ===== *)
(** * A signed pack is accepted ([src/src/icode/pack_signing.py], [src/src/icode/pack_verify.py])

    The composition of [sign_pack] with the verifier: a pack that verifies
    unsigned verifies, signed, with the public key of the signer. *)

From S2P Require Import Prelude PyText PyVal Hashing Utf8 Json JsonParse StrictJson PrettyJson Problems.
From S2P Require Import EventSchema EventChain Receipts Ed25519 PackTree PackSignature Pack PackSigning.

(** ** How the walk ends *)
Fixpoint entry_count (n : node) : N :=
  match n with
  | NDir _ _ entries => (N.of_nat (length entries) + foldr (λ e c, entry_count e.2 + c)%N 0 entries)%N
  | _ => 0%N
  end.
Fixpoint walkable (n : node) : Prop :=
  match n with
  | NDir s l entries => l = true ∧ (s = true ∨ entries = []) ∧ foldr (λ e P, walkable e.2 ∧ P) True entries
  | _ => True
  end.
Definition counts (l : list (pystr * node)) : N := foldr (λ e c, entry_count e.2 + c)%N 0%N l.
Lemma walkable_entries s l entries : walkable (NDir s l entries) ↔ l = true ∧ (s = true ∨ entries = []) ∧ Forall (λ e, walkable e.2) entries.
Proof.
  cbn [walkable]. split; intros (H1 & H2 & H3); (split; [exact H1|split; [exact H2|]]); clear H1 H2.
  - induction entries as [|e entries IH]; cbn in *; [constructor|]. destruct H3. constructor; [done|by apply IH].
  - induction H3 as [|e entries He _ IH]; cbn; [done|by split].
Qed.
Lemma counts_perm l l' : l ≡ₚ l' → counts l = counts l'.
Proof. unfold counts. induction 1; cbn; lia. Qed.
Lemma counts_snoc l e : counts (l ++ [e]) = (counts l + entry_count e.2)%N.
Proof. unfold counts. induction l as [|x l IH]; cbn; [lia|]. rewrite IH. lia. Qed.
Definition subdirectories (l : list (pystr * node)) : list (pystr * node) := filter (λ e, leaf_kind e.2 = None) l.
Lemma counts_subdirectories l : counts (subdirectories l) = counts l.
Proof.
  unfold counts, subdirectories. induction l as [|[k n] l IH]; [done|]. rewrite filter_cons. cbn [foldr fst snd]. case_decide as Hk; cbn [foldr fst snd]; rewrite IH; [done|].
  destruct n; done.
Qed.
Lemma walkable_subdirectories l : Forall (λ e, walkable e.2) (subdirectories l) ↔ Forall (λ e, walkable e.2) l.
Proof.
  unfold subdirectories. induction l as [|[k n] l IH]; [done|]. rewrite filter_cons, Forall_cons. case_decide as Hk; cbn [fst snd] in *; [by rewrite Forall_cons, IH|].
  rewrite IH. split; [|by intros []]. intros H. split; [|exact H]. by destruct n.
Qed.
Lemma sort_by_map {A B} (h : pystr * A → B) l : sort_by fst ((λ e, (e.1, h e)) <$> l) = (λ e, (e.1, h e)) <$> sort_by fst l.
Proof.
  assert (Hi : ∀ x l, sort_insert fst (x.1, h x) ((λ e, (e.1, h e)) <$> l) = (λ e, (e.1, h e)) <$> sort_insert fst x l).
  { intros x. clear l. induction l as [|y l IH]; [done|]. cbn [fmap list_fmap sort_insert fst]. destruct (str_compare x.1 y.1); [done..|]. cbn. by rewrite <-IH. }
  induction l as [|x l IH]; [done|]. unfold sort_by in *. cbn [fmap list_fmap foldr]. by rewrite <-Hi, <-IH.
Qed.
(** The sub-directories that are walked, as the directory has them. *)
Lemma walked_directories entries :
  omap (λ e, match e.2.1 with Some _ => None | None => Some (e.1, e.2.2) end) (sort_by fst (map (λ e, (e.1, (leaf_kind e.2, walk e.2))) entries))
  = (λ e, (e.1, walk e.2)) <$> subdirectories (sort_by fst entries).
Proof.
  change (map ?f entries) with (f <$> entries). rewrite (sort_by_map (λ e, (leaf_kind e.2, walk e.2))). unfold subdirectories.
  induction (sort_by fst entries) as [|[k n] l IH]; [done|]. rewrite fmap_cons, filter_cons. cbn [omap list_omap fst snd].
  case_decide as Hk; cbn [fst snd] in Hk; [rewrite Hk; cbn [fmap list_fmap fst snd]; by rewrite <-IH|]. destruct (leaf_kind n); [exact IH|done].
Qed.

Definition ends (n : node) : Prop := ∀ prefix c,
  (∀ found c', walk n prefix c = (found, inl c') → walkable n ∧ c' = (c + entry_count n)%N) ∧
  (walkable n → (c + entry_count n ≤ _MAX_PACKAGE_ENTRY_COUNT)%N → ∃ found, walk n prefix c = (found, inl (c + entry_count n)%N)).
Lemma walk_directories_end l prefix : Forall (λ e, ends e.2) l → ∀ c,
  (∀ found c', walk_directories ((λ e, (e.1, walk e.2)) <$> l) prefix c = (found, inl c') → Forall (λ e, walkable e.2) l ∧ c' = (c + counts l)%N) ∧
  (Forall (λ e, walkable e.2) l → (c + counts l ≤ _MAX_PACKAGE_ENTRY_COUNT)%N →
    ∃ found, walk_directories ((λ e, (e.1, walk e.2)) <$> l) prefix c = (found, inl (c + counts l)%N)).
Proof.
  intros Hl. induction Hl as [|[k n] l Hn _ IH]; intros c.
  - cbn. split; [intros found c' [= _ <-]; split; [constructor|lia]|]. intros _ _. exists []. by rewrite N.add_0_r.
  - cbn [fmap list_fmap walk_directories fst snd] in *. unfold counts. cbn [foldr fst snd]. change (foldr _ _ l) with (counts l).
    destruct (Hn (prefix ++ [k]) c) as [F B]. split.
    + intros found c'. destruct (walk n (prefix ++ [k]) c) as [found1 [c1|e]] eqn:Ew; [|discriminate]. destruct (F _ _ eq_refl) as (Hw & ->).
      destruct (walk_directories _ prefix _) as [more stop] eqn:Er. intros [= _ ->]. destruct (proj1 (IH _) _ _ Er) as [Hws ->]. split; [by constructor|lia].
    + intros Hw Hc. apply Forall_cons in Hw as [Hw Hws]. cbn [snd] in Hw. destruct (B Hw) as [found1 ->]; [lia|].
      destruct (proj2 (IH (c + entry_count n)%N) Hws) as [more ->]; [lia|]. exists (found1 ++ more). do 2 f_equal. lia.
Qed.
(** The walk comes to its end when every directory can be listed and searched
    and there are not too many entries. *)
Lemma walk_ends n : ends n.
Proof.
  induction n as [s0 c0| | |s l entries IH] using node_nested_ind; intros prefix c.
  1-3: split; [intros found c' [= _ <-]; split; [done|cbn; lia]|intros _ _; exists []; cbn; do 2 f_equal; lia].
  cbn [walk]. unfold directory_walk. rewrite walked_directories, length_map.
  change (entry_count (NDir s l entries)) with (N.of_nat (length entries) + counts entries)%N.
  assert (Hsub : Forall (λ e, ends e.2) (subdirectories (sort_by fst entries))).
  { apply Forall_forall. intros e [_ He]%list_elem_of_filter. apply elem_sort_by in He. exact (proj1 (Forall_forall _ _) IH e He). }
  destruct (walk_directories_end _ prefix Hsub (c + N.of_nat (length entries))%N) as [F B]. clear IH Hsub.
  assert (HW : Forall (λ e, walkable e.2) (subdirectories (sort_by fst entries)) ↔ Forall (λ e, walkable e.2) entries) by (rewrite walkable_subdirectories; by rewrite sort_by_perm).
  assert (HC : counts (subdirectories (sort_by fst entries)) = counts entries) by (rewrite counts_subdirectories; apply counts_perm, sort_by_perm).
  rewrite HC in F, B.
  destruct l; [|split; [intros; discriminate|by intros [? _]%walkable_entries]]. cbn [negb].
  destruct (N.ltb_spec _MAX_PACKAGE_ENTRY_COUNT (c + N.of_nat (length entries))); [split; [intros; discriminate|intros; lia]|].
  assert (Hs : negb s && negb (length entries =? 0) = false ↔ s = true ∨ entries = []).
  { destruct s; cbn [negb andb]; [split; auto|]. rewrite negb_false_iff, Nat.eqb_eq, length_zero_iff_nil. split; [auto|]. by intros [|]. }
  destruct (negb s && _); [split; [intros; discriminate|intros (_ & Hx & _)%walkable_entries; apply Hs in Hx; discriminate]|].
  pose proof (proj1 Hs eq_refl) as Hs'. split.
  - intros found c'. destruct (walk_directories _ _ _) as [below stop] eqn:Ew. intros [= _ ->]. destruct (F _ _ eq_refl) as [Hw%HW ->].
    split; [by apply walkable_entries|lia].
  - intros (_ & _ & Hw)%walkable_entries Hc. apply HW in Hw. destruct (B Hw) as [below ->]; [lia|]. eexists. do 2 f_equal. lia.
Qed.

(** ** A pack with an exempt file more *)
Section extended.
Context (l : bool) (entries : list (pystr * node)) (name : pystr) (added : node).
Context (Hname : name ∈ [SIGNATURE_NAME; ANCHORS_NAME]) (Hfresh : dget name entries = None) (Hleaf : leaf_kind added = Some KFile).
Let pack := NDir true l entries.
Let pack' := NDir true l (dset name added entries).

Lemma extended_formed : well_formed pack → well_formed pack'.
Proof.
  unfold pack, pack'. rewrite !well_formed_entries. intros [Hn Hw]. split; [by apply dset_NoDup|]. rewrite (dset_fresh _ _ _ Hfresh).
  apply Forall_app. split; [done|]. constructor; [|constructor]. cbn [snd]. by destruct added.
Qed.
Lemma extended_walk prefix found count : walk pack prefix 0%N = (found, inl count) → (count < _MAX_PACKAGE_ENTRY_COUNT)%N →
  ∃ found', walk pack' prefix 0%N = (found', inl (count + 1)%N).
Proof.
  intros Hw Hc. destruct (proj1 (walk_ends pack prefix 0%N) _ _ Hw) as [Hok ->].
  assert (E : entry_count pack' = (entry_count pack + 1)%N).
  { unfold pack, pack'. rewrite (dset_fresh _ _ _ Hfresh). cbn [entry_count]. change (foldr _ 0%N ?es) with (counts es). rewrite counts_snoc, length_app. cbn [length snd].
    assert (H0 : entry_count added = 0%N) by (by destruct added). rewrite H0. lia. }
  destruct (proj2 (walk_ends pack' prefix 0%N)) as [found' Hf']; [|rewrite E; lia|exists found'; rewrite Hf', E; do 2 f_equal; lia].
  apply walkable_entries in Hok as (H1 & H2 & H3). apply walkable_entries. split; [done|]. split; [by left|].
  rewrite (dset_fresh _ _ _ Hfresh). apply Forall_app. split; [done|]. constructor; [|constructor]. cbn [snd]. by destruct added.
Qed.
Lemma extended_leaf parts k : leaf_at pack' parts k → leaf_at pack parts k ∨ parts = [name] ∧ k = KFile.
Proof.
  unfold leaf_at, pack, pack'. intros (m & Hat & Hk). destruct parts as [|p parts].
  { cbn [at_path] in Hat. injection Hat as <-. discriminate. }
  cbn [at_path] in Hat. destruct (decide (p = name)) as [->|Hne].
  - rewrite dget_dset_eq in Hat. right. destruct parts as [|q parts]; [|by destruct added]. cbn [at_path] in Hat. injection Hat as <-.
    split; [done|congruence].
  - rewrite dget_dset_ne in Hat by done. left. by exists m.
Qed.
Lemma extended_listed listed found count : well_formed pack → _walk_package_entries pack = (found, inl count) → (count < _MAX_PACKAGE_ENTRY_COUNT)%N →
  unlisted_problems pack listed = [] → unlisted_problems pack' listed = [].
Proof.
  intros Hwf Hw Hc Hu. pose proof (unlisted_ok pack listed Hwf eq_refl Hu) as Hall.
  destruct (extended_walk _ _ _ Hw Hc) as (found' & Hw'). unfold unlisted_problems, _walk_package_entries. rewrite Hw', app_nil_r.
  apply concat_nil_Forall. apply Forall_forall. intros ps ([path k] & -> & Hin)%list_elem_of_fmap.
  apply (entries_delivered pack' (extended_formed Hwf) [] 0%N found' _ eq_refl Hw') in Hin as (parts & -> & Hleaf'). cbn [app].
  unfold entry_problems. cbn [fst snd]. apply extended_leaf in Hleaf' as [Hp|[-> ->]].
  - apply Hall in Hp as [-> ->]. done.
  - assert (Hx : exempt listed [name] = true); [|by rewrite Hx]. unfold exempt. rewrite orb_true_iff. right. apply bool_decide_eq_true. exact Hname.
Qed.

Lemma extended_found rel n : _package_member_path pack rel = Some (Some n) → _package_member_path pack' rel = Some (Some n).
Proof.
  unfold _package_member_path, pack, pack'. destruct (member_parts rel) as [parts|] eqn:E; [|done]. apply member_parts_ok in E as (_ & Hne & _).
  destruct parts as [|p parts]; [done|]. cbn [descend]. destruct (decide (p = name)) as [->|Hn]; [rewrite Hfresh; discriminate|]. rewrite dget_dset_ne by exact Hn. exact id.
Qed.
Lemma extended_member rel parts : member_parts rel = Some parts → (∀ rest, parts ≠ name :: rest) →
  _package_member_path pack' rel = _package_member_path pack rel.
Proof.
  intros E Hne. unfold _package_member_path, pack, pack'. rewrite E. apply member_parts_ok in E as (_ & Hnil & _).
  destruct parts as [|p parts]; [done|]. cbn [descend]. rewrite dget_dset_ne; [done|]. intros ->. by eapply Hne.
Qed.
Lemma name_parts : member_parts name = Some [name].
Proof. apply elem_of_cons in Hname as [->|Hn]; [vm_compute; reflexivity|]. apply list_elem_of_singleton in Hn as ->. vm_compute. reflexivity. Qed.
Lemma extended_added : member_file pack' name = Some added.
Proof.
  unfold member_file, _package_member_path. rewrite name_parts. unfold pack'. cbn [descend].
  rewrite dget_dset_eq. by destruct added.
Qed.

Lemma member_not_added rel : match member_parts rel with Some (p :: _) => p ≠s name | _ => false end = true →
  _package_member_path pack' rel = _package_member_path pack rel.
Proof.
  destruct (member_parts rel) as [[|p parts]|] eqn:E; [discriminate| |discriminate]. intros Hp. apply (extended_member rel _ E).
  intros rest [= -> ->]. by rewrite bool_decide_eq_true_2 in Hp.
Qed.
Lemma member_not_exempt rel : match member_parts rel with Some (p :: _) => negb (p ∈s [SIGNATURE_NAME; ANCHORS_NAME]) | _ => false end = true →
  _package_member_path pack' rel = _package_member_path pack rel.
Proof.
  intros Hp. apply member_not_added. destruct (member_parts rel) as [[|p parts]|]; [discriminate| |discriminate]. rewrite negb_true_iff, bool_decide_eq_false in Hp.
  rewrite bool_decide_eq_false_2; [done|]. by intros ->.
Qed.
(** Every stage but that of the signature finds what it found. *)
Lemma extended_entries es b : Forall (intact pack) es → check_entries pack' es b = check_entries pack es b.
Proof.
  intros Hes. revert b. induction Hes as [|e es (size & c & Hm & _) _ IH]; intros b; [done|]. cbn [check_entries].
  assert (E : check_entry pack' e b = check_entry pack e b).
  { unfold check_entry. unfold member_file in Hm. destruct (_package_member_path pack (fe_path e)) as [[n|]|] eqn:Ef; [|discriminate..].
    by rewrite (extended_found _ _ Ef). }
  rewrite E. destruct (check_entry pack e b) as [[[ps b'] []]|]; try done. cbn [mbind result_bind]. by rewrite IH.
Qed.
Section binding.
Context `{PyRepr} (facts : artifact_facts).
(** An item whose snapshot is a file. *)
Definition snapshot_found (item : pyval) : Prop :=
  ∃ d rel n, item = PyDict d ∧ pget (u "snapshot") d = PyStr rel ∧ _package_member_path pack rel = Some (Some n).
Lemma extended_bytes seen total items : Forall snapshot_found items → snapshot_bytes pack' seen total items = snapshot_bytes pack seen total items.
Proof.
  intros Hi. revert seen total. induction Hi as [|item items (d & rel & n & -> & Hs & Hf) _ IH]; intros seen total; [done|].
  cbn [snapshot_bytes]. rewrite Hs. destruct (rel ∈s seen); [apply IH|]. unfold member_file. rewrite (extended_found _ _ Hf), Hf.
  destruct (file_node (Some n)) as [[]|]; rewrite ?IH; done.
Qed.
Lemma bind_item_problems index item b b' : bind_item pack facts index item b = inl b' → bs_problems b' = [] →
  bs_problems b = [] ∧ snapshot_found item.
Proof.
  assert (Hn : ∀ m, bs_problems (note_bound [m] b) ≠ []) by (intros m Hx; by apply app_nil in Hx as [_ ?]).
  unfold bind_item. destruct item as [| | | | | | |d|]; try (intros [= <-] Hx; by apply Hn in Hx).
  destruct (pget (u "snapshot") d) as [| | | |rel| | | |] eqn:Es; try (intros [= <-] Hx; by apply Hn in Hx).
  destruct (_package_member_path pack rel) as [[n|]|] eqn:Em; [|intros [= <-] Hx; by apply Hn in Hx..].
  intros Hb Hnil. split; [|by exists d, rel, n]. destruct n; try (injection Hb as <-; by apply Hn in Hnil).
  destruct (sha256_file _ _ _) as [[actual|err] left']; [injection Hb as <-; by apply app_nil in Hnil as [? _]|].
  destruct err; try discriminate; injection Hb as <-; by apply app_nil in Hnil as [? _].
Qed.
Lemma extended_bind_items index items b b' : bind_items pack facts index items b = inl b' → bs_problems b' = [] → bs_over b' = false →
  bs_problems b = [] ∧ Forall snapshot_found items ∧ bind_items pack' facts index items b = inl b'.
Proof.
  revert index b. induction items as [|item items IH]; intros index b; cbn [bind_items]; [by intros [= <-]|].
  destruct (bind_item pack facts index item b) as [b1|] eqn:E; [|discriminate]. intros Hb Hnil Hov.
  assert (Hover : bs_over b1 = false) by (destruct (bs_over b1) eqn:Eo; [injection Hb as <-; congruence|done]). rewrite Hover in Hb.
  destruct (IH _ _ Hb Hnil Hov) as (H1 & H2 & H3). destruct (bind_item_problems _ _ _ _ E H1) as [H4 H5]. split; [done|]. split; [by constructor|].
  destruct H5 as (d & rel & n & -> & Hs & Hf). assert (E' : bind_item pack' facts index (PyDict d) b = inl b1).
  { unfold bind_item in *. rewrite Hs in *. rewrite Hf in E. by rewrite (extended_found _ _ Hf). }
  rewrite E', Hover. exact H3.
Qed.
Lemma extended_artifacts items budget : bind_artifacts pack facts items budget = inl [] → bind_artifacts pack' facts items budget = inl [].
Proof.
  unfold bind_artifacts. destruct (snapshot_bytes pack [] 0 items) eqn:Eb; [discriminate|].
  destruct (bind_items pack facts 1 items _) as [b|] eqn:E; [|discriminate]. intros Hb. injection Hb as Hnil. apply app_nil in Hnil as [Hnil Hm].
  apply bind_items_ok in E as Hok; [|split; [discriminate|constructor]].
  assert (Hov : bs_over b = false) by (destruct (bs_over b) eqn:Eo; [destruct (bo_stopped _ _ Hok); [by rewrite Eo|done]|done]).
  destruct (extended_bind_items _ _ _ _ E Hnil Hov) as (_ & Hf & ->). rewrite extended_bytes, Eb, Hnil by done. by rewrite Hm.
Qed.
Lemma extended_binding exn_text budget :
  _verify_artifact_binding exn_text pack facts budget = Ok (inl []) → _verify_artifact_binding exn_text pack' facts budget = Ok (inl []).
Proof.
  unfold _verify_artifact_binding. destruct facts as [|f rest] eqn:Ef; [done|]. rewrite <-Ef. unfold member.
  rewrite (member_not_exempt (u "artifacts.json")) by (vm_compute; reflexivity).
  destruct (_package_member_path pack (u "artifacts.json")) as [found|]; [|done]. destruct (file_node found) as [n|]; [|done].
  unfold handle. destruct (_load_json n _) as [index|e]; [|done]. intros Hb. apply Ok_inj in Hb. destruct (artifact_items index) as [p [items|]]; [|by rewrite Hb].
  destruct (bind_artifacts pack facts items budget) as [q|] eqn:Eb; [|discriminate]. injection Hb as Hnil. apply app_nil in Hnil as [-> ->].
  by rewrite (extended_artifacts _ _ Eb).
Qed.
End binding.

Section stages.
Context `{FloatRepr} `{PyRepr} (exn_text : exn → pystr) (decoded_prefix : list N → pystr).
Ltac same_member rel := rewrite (member_not_exempt rel) by (vm_compute; reflexivity).
Lemma extended_file rel : match member_parts rel with Some (p :: _) => p ≠s name | _ => false end = true → member_file pack' rel = member_file pack rel.
Proof. intros Hp. unfold member_file. by rewrite (member_not_added rel Hp). Qed.
Lemma extended_metadata : read_metadata pack' = read_metadata pack.
Proof. unfold read_metadata, member. by same_member (u "ticket/metadata.json"). Qed.
Lemma extended_contracts ex : read_contracts pack' ex = read_contracts pack ex.
Proof. unfold read_contracts, member. by same_member (u "contracts.json"). Qed.
Lemma extended_verifications ticket : verification_problems pack' ticket = verification_problems pack ticket.
Proof. unfold verification_problems, member. by same_member (u "verifications.json"). Qed.
Lemma extended_chain ex budget problems c :
  verify_chain exn_text decoded_prefix pack ex (Some budget) problems = Ok c → pc_total c = 0 →
  verify_chain exn_text decoded_prefix pack' ex (Some budget) problems = Ok c.
Proof.
  unfold verify_chain. same_member EVENTS_REL. destruct (_package_member_path pack EVENTS_REL) as [found|]; [|done].
  destruct (file_node found) as [n|]; [|done]. destruct (_verify_event_chain _ _ _) as [[facts report]|e]; [|done].
  intros (r & Hr & E)%bind_ok Hc. apply Ok_inj in E as <-. destruct r as [ps|class]; [|rewrite append_problem_total in Hc; discriminate].
  rewrite !extend_report_total in Hc.
  pose proof (render_collector_spec _ (extend_list_inv ps _ collector_new_inv)) as (_ & _ & T2). rewrite T2, extend_list_total in Hc.
  assert (ps = []) as -> by (apply length_zero_iff_nil; lia). by rewrite (extended_binding facts exn_text budget Hr).
Qed.

(** A pack that is accepted is accepted with the file, when the signature and the
    anchors are. *)
Lemma extended_verdict manifest_file manifest key req key' req' report found count :
  well_formed pack → _walk_package_entries pack = (found, inl count) → (count < _MAX_PACKAGE_ENTRY_COUNT)%N →
  seal_problems pack' manifest_file manifest key' req' = Ok [] →
  verify_manifest exn_text decoded_prefix pack manifest_file manifest key req = Ok report → rp_values report = [] →
  verify_manifest exn_text decoded_prefix pack' manifest_file manifest key' req' = Ok report.
Proof.
  intros Hwf Hwalk Hcount Hseal Hv Hr.
  destruct (verify_manifest_quiet _ _ _ _ _ _ _ _ Hv Hr) as (es & budget & ids & ex0 & ex & [E1 E2 E3 H4 E5 E6 E7 E8 Ha E9 (c & Hc & Hz & ->)]).
  unfold verify_manifest. rewrite E1, extended_entries by exact (proj2 (check_entries_ok _ _ _ _ _ E2)). rewrite E2. cbn [mbind result_bind]. rewrite E3. cbn [mbind result_bind].
  rewrite Hseal. cbn [mbind result_bind]. rewrite E6, extended_metadata, E7. cbn [mbind result_bind fst snd]. rewrite extended_contracts, E8.
  cbn [mbind result_bind fst snd]. rewrite extended_verifications, E9. cbn [mbind result_bind]. rewrite Ha, (extended_listed _ _ _ Hwf Hwalk Hcount H4).
  cbn [app]. by rewrite (extended_chain _ _ _ _ Hc Hz).
Qed.
Lemma extended_pack_verdict manifest_file manifest key req key' req' report found count :
  well_formed pack → _walk_package_entries pack = (found, inl count) → (count < _MAX_PACKAGE_ENTRY_COUNT)%N →
  member_file pack MANIFEST_NAME = Some manifest_file → _load_json manifest_file _MAX_MANIFEST_JSON_BYTES = Ok manifest →
  seal_problems pack' manifest_file manifest key' req' = Ok [] →
  verify_pack exn_text decoded_prefix pack key req = Ok report → rp_values report = [] →
  verify_pack exn_text decoded_prefix pack' key' req' = Ok report.
Proof.
  intros Hwf Hwalk Hcount Hm Hload Hseal Hv Hr. unfold verify_pack in *. same_member MANIFEST_NAME. unfold member_file in Hm.
  destruct (_package_member_path pack MANIFEST_NAME) as [fnd|]; [|discriminate]. rewrite Hm, Hload in *.
  by apply (extended_verdict manifest_file manifest key req key' req' report found count).
Qed.
End stages.
End extended.

(** ** Signing, then verifying *)
Section composition.
Context `{FloatRepr} `{PyRepr} (exn_text : exn → pystr) (decoded_prefix : list N → pystr).

Lemma strict_manifest n bytes manifest m :
  read_bytes n = inl bytes → parse_manifest bytes = Ok (PyDict manifest) → _load_json n _MAX_MANIFEST_JSON_BYTES = Ok m →
  manifest = m ∧ read_bounded_bytes n _MAX_MANIFEST_JSON_BYTES = Ok bytes.
Proof.
  intros Hb Hp (v & (raw & Hr & (text & Ht & Hv)%bind_ok)%bind_ok & Hd)%bind_ok.
  destruct (read_bounded_ok _ _ _ Hr) as (size & -> & _). cbn [read_bytes] in Hb. injection Hb as ->. split; [|exact Hr].
  unfold parse_manifest in Hp. rewrite Ht in Hp. cbn [mbind result_bind] in Hp.
  apply bind_ok in Hv as (_ & _ & (v' & Hl & (_ & _ & E)%bind_ok)%bind_ok). apply Ok_inj in E as ->. apply loads_lenient in Hl. rewrite Hp in Hl.
  apply Ok_inj in Hl as <-. by apply Ok_inj in Hd.
Qed.
(** Without links, what the signer sees at the top is what the verifier sees. *)
Lemma top_member follow l entries name :
  member_parts name = Some [name] → (∀ parts k, leaf_at (NDir true l entries) parts k → k = KFile) →
  top_file follow (NDir true l entries) name = Ok (member_file (NDir true l entries) name).
Proof.
  intros Hn Hleaf. unfold top_file, member_file, _package_member_path. rewrite Hn. cbn [descend]. destruct (dget name entries) as [m|] eqn:E; [|done].
  destruct m as [size c|s' l' es| |] eqn:Em; try done. exfalso. assert (Hk : KLink = KFile); [|discriminate].
  apply (Hleaf [name]). exists NLink. cbn [at_path]. by rewrite E.
Qed.
Lemma no_signature l entries : (∀ parts k, leaf_at (NDir true l entries) parts k → k = KFile) →
  member_file (NDir true l entries) SIGNATURE_NAME = None →
  dget SIGNATURE_NAME entries = None ∨ ∃ s' l' es, dget SIGNATURE_NAME entries = Some (NDir s' l' es).
Proof.
  intros Hleaf. unfold member_file, _package_member_path. change (member_parts SIGNATURE_NAME) with (Some [SIGNATURE_NAME]). cbn [descend].
  destruct (dget SIGNATURE_NAME entries) as [m|] eqn:E; [|by left]. intros Hm. right. destruct m as [size c|s' l' es| |]; [discriminate| | |].
  - by exists s', l', es.
  - assert (Hk : KLink = KFile); [|discriminate]. apply (Hleaf [SIGNATURE_NAME]). exists NLink. cbn [at_path]. by rewrite E.
  - assert (Hk : KSpecial = KFile); [|discriminate]. apply (Hleaf [SIGNATURE_NAME]). exists NSpecial. cbn [at_path]. by rewrite E.
Qed.

(** The files that [sign_pack] needs, and that it succeeds with them. *)
Record signable (follow : pystr → option node) (pack : node) (n : node) (bytes : list N) (manifest : dict) (digest : pystr) (covered : option (list N)) : Prop := mkSignable {
  sg_manifest : signed_manifest follow pack n bytes manifest digest; sg_anchors : read_anchors follow pack = Ok (inr covered)
}.
Lemma sign_pack_total follow now pack key n bytes manifest digest covered seed public :
  signable follow pack n bytes manifest digest covered → read_signing_key key = Ok (inr seed) → length seed = 32 →
  ed25519_public_key seed = Ok public → time_text now → (∀ content, ∃ pack', put_file true SIGNATURE_NAME content pack = Ok pack') →
  ∃ record pack', sign_pack follow true now pack key = Ok (inr (record, pack')) ∧ pget (u "public_key") record = PyStr (hex_of_bytes public).
Proof.
  intros [[Hn Hb Hp Hs Hd Hx] Ha] Hk Hl Hpub Hnow Hput. destruct (seed_signs seed (signature_message bytes covered) Hl) as (pub & signature & Hpub' & Hsig & _ & _ & Hver).
  assert (pub = public) as -> by congruence. pose proof (public_key_bytes _ _ Hpub) as [P1 P2]. pose proof (signature_bytes _ _ _ Hsig) as [S1 S2].
  assert (Hfile : ∃ bs, json_file (signature_record (hex_of_bytes public) (hex_of_bytes signature) (take 16 (sha256_hex public)) digest
                                     (match covered with Some _ => true | None => false end) now) = Ok bs).
  { destruct (hex_text _ _ P2) as [X1 L1], (hex_text _ _ S2) as [X2 L2], (fingerprint_text public) as [X3 L3], Hnow as [X5 L5].
    apply full_classes_spec in Hx as [L4 X4].
    destruct (record_file (hex_of_bytes public) (hex_of_bytes signature) (take 16 (sha256_hex public)) digest now (match covered with Some _ => true | None => false end))
      as (bs & Hbs & _); [by apply plain_hex..|exact X3|by apply plain_hex|exact X5|exact L1|exact L2|exact L3|exact L4|lia|]. by exists bs. }
  destruct Hfile as [file Hfile]. destruct (Hput file) as [pack' Hpack']. eexists _, pack'.
  unfold sign_pack, read_manifest. rewrite Hn. cbn [pass and_then]. rewrite Hb, Hp. unfold fail_if at 1. rewrite (proj2 (N.ltb_ge _ _)) by done.
  cbn [and_then]. rewrite Hd. unfold fail_if at 1. rewrite Hx. cbn [negb and_then fst snd]. rewrite Ha. cbn [and_then]. rewrite Hk. cbn [and_then].
  rewrite Hpub. cbn [pass and_then]. rewrite Hsig. cbn [pass and_then]. unfold fail_if at 1. rewrite Hver. cbn [negb and_then].
  unfold key_fingerprint, bytes_fromhex. rewrite (fromhex_hex _ P1). cbn [mbind result_bind pass and_then]. rewrite Hfile. cbn [pass and_then].
  rewrite Hpack'. cbn [pass and_then]. split; [reflexivity|done].
Qed.

(** A signed pack that was accepted unsigned is accepted. *)
Lemma signed_pack_accepted follow writable now pack key record pack' report found count :
  well_formed pack → verify_pack exn_text decoded_prefix pack None false = Ok report → rp_values report = [] →
  _walk_package_entries pack = (found, inl count) → (count < _MAX_PACKAGE_ENTRY_COUNT)%N → time_text now →
  sign_pack follow writable now pack key = Ok (inr (record, pack')) →
  ∃ public, pget (u "public_key") record = PyStr public ∧ verify_pack exn_text decoded_prefix pack' (Some public) true = Ok report.
Proof.
  intros Hwf Hv Hr Hwalk Hcount Hnow Hsign. destruct (verify_pack_ok _ _ _ _ _ _ Hwf Hv Hr) as (mf & m & es & ex & events & Hacc).
  apply sign_pack_ok in Hsign as (n & mb & manifest & digest & covered & public & signature & bytes & [[Hn Hnb Hp Hsize Hd Hx] [Ha] [P1 P2] [S1 S2] Hver -> Hb Hput]).
  assert (Hdir : ∃ l entries, pack = NDir true l entries).
  { unfold top_file in Hn. destruct pack as [|[] l entries| |]; try discriminate. by exists l, entries. }
  destruct Hdir as (l & entries & ->).
  assert (Hleaf : ∀ parts k, leaf_at (NDir true l entries) parts k → k = KFile) by (intros parts k Hk; apply (ap_closed _ _ _ _ _ _ _ _ _ Hacc parts k Hk)).
  pose proof (ap_signature _ _ _ _ _ _ _ _ _ Hacc) as Hseal. destruct (ap_manifest _ _ _ _ _ _ _ _ _ Hacc) as [Hmf Hload].
  rewrite (top_member follow l entries MANIFEST_NAME eq_refl Hleaf), Hmf in Hn. apply Ok_inj in Hn. injection Hn as ->.
  destruct (strict_manifest _ _ _ _ Hnb Hp Hload) as [-> Hread].
  assert (Hnone : member_file (NDir true l entries) SIGNATURE_NAME = None).
  { unfold sealed_pack in Hseal. destruct (member_file _ SIGNATURE_NAME); [|done]. by destruct Hseal as (k & ? & _). }
  destruct (no_signature l entries Hleaf Hnone) as [Hfresh|(s' & l' & es' & Hds)].
  2: { unfold put_file in Hput. rewrite Hds in Hput. by destruct (negb (writable && true)). }
  unfold put_file in Hput. rewrite Hfresh in Hput. destruct (negb (writable && true)); [discriminate|]. apply Ok_inj in Hput as <-.
  set (file := NFile (N.of_nat (length bytes)) (inl bytes)) in *.
  assert (Hcov : covers (member_file (NDir true l entries) ANCHORS_NAME) covered).
  { rewrite (top_member follow l entries ANCHORS_NAME eq_refl Hleaf) in Ha. unfold covers. destruct covered as [bs|].
    - destruct Ha as (an & Hn & Hnbs & Hs). apply Ok_inj in Hn. rewrite Hn. destruct an as [size [c|]| | |]; try discriminate. cbn [read_bytes] in Hnbs.
      injection Hnbs as ->. unfold read_bounded_bytes. rewrite bounded_loop_spec by lia. rewrite (proj2 (N.leb_le _ _)); [done|exact Hs].
    - apply Ok_inj in Ha. by rewrite Ha. }
  exists (hex_of_bytes public). split; [done|].
  pose proof (own_signature_accepted m n (member_file (NDir true l entries) ANCHORS_NAME) covered mb public signature digest now P1 P2 S1 S2 Hx Hnow bytes Hb Hd Hread Hcov Hver) as Hsig.
  assert (Hname : SIGNATURE_NAME ∈ [SIGNATURE_NAME; ANCHORS_NAME]) by (apply elem_of_cons; by left).
  refine (extended_pack_verdict l entries SIGNATURE_NAME file Hname Hfresh eq_refl exn_text decoded_prefix n m None false (Some (hex_of_bytes public)) true
           report found count Hwf Hwalk Hcount Hmf Hload _ Hv Hr).
  unfold seal_problems. rewrite (extended_added l entries SIGNATURE_NAME file Hname Hfresh eq_refl).
  rewrite (extended_file l entries SIGNATURE_NAME file ANCHORS_NAME) by (vm_compute; reflexivity). exact Hsig.
Qed.

Lemma digest_text v d : sha256_text v = Ok d → hex64 d = true.
Proof.
  unfold sha256_text. intros (raw & _ & (bs & _ & E)%bind_ok)%bind_ok. apply Ok_inj in E as <-. pose proof (sha256_hex_form bs) as Hx.
  apply full_cls_spec in Hx as (Hl & Hm & Hx). apply full_classes_repeat; [|exact Hx]. specialize (Hm 64 eq_refl). lia.
Qed.
(** An accepted pack has what signing needs. *)
Lemma accepted_signable follow l entries report :
  well_formed (NDir true l entries) → verify_pack exn_text decoded_prefix (NDir true l entries) None false = Ok report → rp_values report = [] →
  ∃ n bytes manifest digest covered, signable follow (NDir true l entries) n bytes manifest digest covered.
Proof.
  intros Hwf Hv Hr. destruct (verify_pack_ok _ _ _ _ _ _ Hwf Hv Hr) as (n & m & es & ex & events & Hacc).
  assert (Hleaf : ∀ parts k, leaf_at (NDir true l entries) parts k → k = KFile) by (intros parts k Hk; apply (ap_closed _ _ _ _ _ _ _ _ _ Hacc parts k Hk)).
  destruct (ap_manifest _ _ _ _ _ _ _ _ _ Hacc) as [Hmf Hload]. destruct (ap_digest _ _ _ _ _ _ _ _ _ Hacc) as (d & Hd & Hpd%digest_text).
  apply bind_ok in Hload as Hl. destruct Hl as (v & (raw & Hraw & (text & Ht & Hjson)%bind_ok)%bind_ok & Hdict).
  destruct (read_bounded_ok _ _ _ Hraw) as (size & -> & Hsize).
  assert (Hp : parse_manifest raw = Ok (PyDict m)).
  { unfold parse_manifest. rewrite Ht. cbn [mbind result_bind]. apply bind_ok in Hjson as (_ & _ & (v' & Hl & (_ & _ & E)%bind_ok)%bind_ok).
    apply Ok_inj in E as ->. apply loads_lenient in Hl. destruct v as [| | | | | | |d'|]; try discriminate. apply Ok_inj in Hdict as <-. exact Hl. }
  assert (Ha : ∃ covered, read_anchors follow (NDir true l entries) = Ok (inr covered)).
  { unfold read_anchors. rewrite (top_member follow l entries ANCHORS_NAME eq_refl Hleaf). cbn [pass and_then].
    destruct (member_file (NDir true l entries) ANCHORS_NAME) as [an|] eqn:Ea; [|by exists None].
    assert (Hab : ∃ bs, read_bounded_bytes an _MAX_ANCHORS_JSON_BYTES = Ok bs).
    { unfold verify_pack in Hv. pose proof Hmf as Hmf'. unfold member_file in Hmf'. destruct (_package_member_path _ MANIFEST_NAME) as [fnd|]; [|discriminate].
      rewrite Hmf', Hload in Hv. destruct (verify_manifest_quiet _ _ _ _ _ _ _ _ Hv Hr) as (? & ? & ? & ? & ? & Hq). pose proof (qs_seal _ _ _ _ _ _ _ _ _ _ _ _ _ Hq) as Hs.
      pose proof (ap_signature _ _ _ _ _ _ _ _ _ Hacc) as Hns. unfold sealed_pack in Hns. unfold seal_problems in Hs.
      destruct (member_file _ SIGNATURE_NAME); [by destruct Hns as (? & ? & _)|]. rewrite Ea in Hs. unfold load_json_value in Hs.
      destruct (read_bounded_bytes an _) as [bs|e]; [by exists bs|]. unfold handle in Hs. cbn [mbind result_bind] in Hs. by destruct (caught e). }
    destruct Hab as [bs Hbs]. destruct (read_bounded_ok _ _ _ Hbs) as (asize & -> & Hle). exists (Some bs). cbn [read_bytes].
    unfold fail_if. by rewrite (proj2 (N.ltb_ge _ _)) by exact Hle. }
  destruct Ha as [covered Ha]. exists (NFile size (inl raw)), raw, m, d, covered. split; [|exact Ha]. split; try done.
  by rewrite (top_member follow l entries MANIFEST_NAME eq_refl Hleaf), Hmf.
Qed.

(** Signing composes with verifying.  A pack that the verifier accepts
    unsigned, that has no entry called [signature.json] and room for one, is
    signed without failure with a key file that [write_signing_key] has made, and
    the verifier then accepts it, a signature required, with the public key of
    the signer, and with the same report. *)
Lemma signed_pack_verifies follow posix seed key public now pack report found count :
  bytes_ok seed → write_signing_key posix Created seed = Ok (inr key) → public_key_hex seed = Ok public → time_text now →
  well_formed pack → verify_pack exn_text decoded_prefix pack None false = Ok report → rp_values report = [] →
  _package_member_path pack SIGNATURE_NAME = Some None → _walk_package_entries pack = (found, inl count) → (count < _MAX_PACKAGE_ENTRY_COUNT)%N →
  ∃ record pack', sign_pack follow true now pack key = Ok (inr (record, pack')) ∧
    verify_pack exn_text decoded_prefix pack' (Some public) true = Ok report.
Proof.
  intros Hseed Hkey Hpub Hnow Hwf Hv Hr Hnone Hwalk Hcount. pose proof (signing_key_roundtrip _ _ _ Hseed Hkey) as Hread.
  assert (Hl : length seed = 32).
  { revert Hkey. unfold write_signing_key, fail_if. by destruct (Nat.eqb_spec (length seed) 32). }
  unfold public_key_hex in Hpub. destruct (ed25519_public_key seed) as [pub|] eqn:Ep; [|discriminate]. apply Ok_inj in Hpub as <-.
  unfold _package_member_path in Hnone. change (member_parts SIGNATURE_NAME) with (Some [SIGNATURE_NAME]) in Hnone. cbn [descend] in Hnone.
  destruct pack as [|[] l entries| |]; try discriminate. destruct (dget SIGNATURE_NAME entries) as [m|] eqn:Em; [by destruct m|].
  destruct (accepted_signable follow _ _ _ Hwf Hv Hr) as (n & bytes & manifest & digest & covered & Hsg).
  destruct (sign_pack_total follow now _ key _ _ _ _ _ seed pub Hsg Hread Hl Ep Hnow) as (record & pack' & Hs & Hp).
  { intros content. unfold put_file. rewrite Em. by eexists. }
  exists record, pack'. split; [exact Hs|].
  destruct (signed_pack_accepted _ _ _ _ _ _ _ _ _ _ Hwf Hv Hr Hwalk Hcount Hnow Hs) as (public & Hpk & Hver). rewrite Hp in Hpk. by injection Hpk as <-.
Qed.
End composition.
