(* ===== verification/PackAnchor.v ===== *)
(** * Anchors of a pack ([src/src/icode/pack_anchor.py])

    The builders of anchor records, [validate_records] and
    [attach_anchor_records], which writes [anchors.json] before the pack is
    signed; and the whole pipeline: anchor, sign, verify. *)

From S2P Require Import Prelude PyText PyVal Hashing Utf8 Json JsonParse PrettyJson StrictJson Problems.
From S2P Require Import EventSchema BindingMirror EventChain Ed25519 PackTree PackSignature Pack PackSigning PackSigned.

(** ** Building records

    An [AnchorError] carries its message. *)
Definition anchor_fail {A} (message : pystr) : signing A := Ok (inl (u "pack-anchor/" ++ message)).
Definition anchor_fail_if (bad : bool) (message : pystr) : signing unit := if bad then anchor_fail message else Ok (inr ()).

Definition _require_digest (pack_digest : pyval) : signing pystr :=
  match pack_digest with
  | PyStr d => if hex64 d then Ok (inr d) else anchor_fail (u "pack_digest 必须是 64 位小写 hex")
  | _ => anchor_fail (u "pack_digest 必须是 64 位小写 hex")
  end.
Definition _require_text (value : pyval) (label : string) : signing pystr :=
  match value with
  | PyStr s => if strip s =s [] then anchor_fail (u label ++ u " 必须是非空字符串") else Ok (inr s)
  | _ => anchor_fail (u label ++ u " 必须是非空字符串")
  end.
Definition record_of (type digest now : pystr) (evidence : dict) : dict :=
  [(u "type", PyStr type); (u "anchor_target", PyStr digest); (u "anchor_time", PyStr now); (u "evidence", PyDict evidence)].
(** [v.startswith(prefix)] *)
Definition py_startswith (prefix : pystr) (v : pyval) : result bool :=
  match v with PyStr s => Ok (startswith prefix s) | _ => Err (AttributeError "startswith") end.

Definition build_git_tag_record (now : pystr) (pack_digest repository tag : pyval) : signing dict :=
  let* digest := _require_digest pack_digest in
  let* repository := _require_text repository "repository" in
  let tag := if py_truth tag then tag else PyStr (u "anchor/" ++ take 16 digest) in
  let* named := pass (py_startswith (u "anchor/") tag) in
  let* _ := anchor_fail_if (negb named) (u "git-tag 锚定的 tag 必须以 anchor/ 前缀命名") in
  Ok (inr (record_of (u "git-tag") digest now [(u "tag", tag); (u "repository", PyStr repository)])).
Definition build_ci_run_record (now : pystr) (pack_digest run_url run_id conclusion : pyval) : signing dict :=
  let* digest := _require_digest pack_digest in
  let* url := _require_text run_url "run_url" in
  let* _ := anchor_fail_if (negb (startswith (u "https://") url)) (u "run_url 必须是 https URL") in
  let* id := _require_text run_id "run_id" in
  let* verdict := _require_text conclusion "conclusion" in
  Ok (inr (record_of (u "ci-run") digest now [(u "run_url", PyStr url); (u "run_id", PyStr id); (u "conclusion", PyStr verdict)])).
Definition build_rfc3161_record (now : pystr) (pack_digest file_fingerprint hash_algorithm : pyval) : signing dict :=
  let* digest := _require_digest pack_digest in
  let* fingerprint := _require_text file_fingerprint "file_fingerprint" in
  let* _ := anchor_fail_if (negb (full_cls is_hex_lower 1 None fingerprint) || (length fingerprint <? 16))
              (u "file_fingerprint 必须是至少 16 位的 hex 指纹") in
  let* algorithm := _require_text hash_algorithm "hash_algorithm" in
  Ok (inr (record_of (u "rfc3161-file") digest now [(u "file_fingerprint", PyStr fingerprint); (u "hash_algorithm", PyStr algorithm)])).
Definition build_transparency_log_record (now : pystr) (pack_digest log_id entry_url : pyval) : signing dict :=
  let* digest := _require_digest pack_digest in
  let* log := _require_text log_id "log_id" in
  let* url := _require_text entry_url "entry_url" in
  let* _ := anchor_fail_if (negb (startswith (u "https://") url)) (u "entry_url 必须是 https URL") in
  Ok (inr (record_of (u "transparency-log-entry") digest now [(u "log_id", PyStr log); (u "entry_url", PyStr url)])).

(** ** Writing [anchors.json] *)
Definition anchor_bundle (records : list pyval) : dict := [(u "schema_version", PyInt _ANCHORS_SCHEMA_VERSION); (u "records", PyList records)].
(** [path.exists()] at the top of the pack. *)
Definition top_exists (follow : pystr → option node) (pack : node) (name : pystr) : result bool :=
  match pack with
  | NDir true _ entries => Ok (match dget name entries with Some NLink => match follow name with Some _ => true | None => false end | Some _ => true | None => false end)
  | NDir false _ _ => Err OSError
  | _ => Ok false
  end.
Section attach.
Context `{FloatRepr} `{PyRepr}.
Definition validate_records (records : list pyval) (pack_digest : pyval) : list pystr := validate_anchor_bundle (PyDict (anchor_bundle records)) pack_digest.

Definition attach_anchor_records (follow : pystr → option node) (writable : bool) (pack : node) (records : list pyval) : signing node :=
  let* found := pass (top_file follow pack MANIFEST_NAME) in
  match found with
  | None => anchor_fail (u "证据包缺少 manifest.json")
  | Some n =>
    match read_bytes n with
    | inr name => anchor_fail (u "manifest.json 不可解析：" ++ name)
    | inl bytes =>
      match parse_manifest bytes with
      | Err e => if caught e then anchor_fail (u "manifest.json 不可解析：" ++ exn_class n e) else Err e
      | Ok (PyDict manifest) =>
        let* digest := _require_digest (pget (u "pack_digest") manifest) in
        let* there := pass (top_exists follow pack ANCHORS_NAME) in
        let* _ := anchor_fail_if there (u "anchors.json 已存在，拒绝覆盖（锚定意图不可改写）") in
        match validate_records records (PyStr digest) with
        | [] => let* bytes := pass (json_file (anchor_bundle records)) in pass (put_file writable ANCHORS_NAME bytes pack)
        | problems => anchor_fail (u "锚定记录校验失败：" ++ join (u "；") problems)
        end
      | Ok _ => Err (AttributeError "get")
      end
    end
  end.
End attach.

(** ** Records that are built are valid *)
(** What a caller may ask for. *)
Inductive anchor_request : Type :=
  | GitTag (repository tag : pyval)
  | CiRun (run_url run_id conclusion : pyval)
  | Rfc3161 (file_fingerprint hash_algorithm : pyval)
  | LogEntry (log_id entry_url : pyval).
Definition build_record (now : pystr) (digest : pyval) (r : anchor_request) : signing dict :=
  match r with
  | GitTag repository tag => build_git_tag_record now digest repository tag
  | CiRun run_url run_id conclusion => build_ci_run_record now digest run_url run_id conclusion
  | Rfc3161 fingerprint algorithm => build_rfc3161_record now digest fingerprint algorithm
  | LogEntry log_id entry_url => build_transparency_log_record now digest log_id entry_url
  end.
Fixpoint build_records (now : pystr) (digest : pyval) (rs : list anchor_request) : signing (list pyval) :=
  match rs with
  | [] => Ok (inr [])
  | r :: rs => let* d := build_record now digest r in let* ds := build_records now digest rs in Ok (inr (PyDict d :: ds))
  end.
Lemma require_text_ok v label s : _require_text v label = Ok (inr s) → v = PyStr s ∧ 1 ≤ length s.
Proof.
  unfold _require_text, anchor_fail. destruct v as [| | | |t| | | |]; try discriminate. destruct (bool_decide _) eqn:E; [discriminate|]. intros Hs.
  apply Ok_inj in Hs. injection Hs as <-. split; [done|]. destruct t; [discriminate|cbn; lia].
Qed.
Lemma require_digest_ok v d : _require_digest v = Ok (inr d) → v = PyStr d ∧ hex64 d = true.
Proof.
  unfold _require_digest, anchor_fail. destruct v as [| | | |t| | | |]; try discriminate. destruct (hex64 t) eqn:E; [|discriminate].
  intros Hs. apply Ok_inj in Hs. by injection Hs as <-.
Qed.
Lemma anchor_fail_if_ok bad message x : anchor_fail_if bad message = Ok (inr x) → bad = false.
Proof. unfold anchor_fail_if, anchor_fail. by destruct bad. Qed.

(** What a builder delivers: the fields that the type requires, with texts that
    are not empty, the URLs with their scheme. *)
Record built (digest now : pystr) (d : dict) (type : pystr) (kvs : list (pystr * pystr)) : Prop := mkBuilt {
  bt_record : d = record_of type digest now ((λ p, (p.1, PyStr p.2)) <$> kvs);
  bt_fields : dget type _ANCHOR_REQUIRED_EVIDENCE = Some kvs.*1;
  bt_texts : Forall (λ p, 1 ≤ length p.2) kvs;
  bt_https : Forall (λ p, p.1 ∈ _ANCHOR_HTTPS_FIELDS → startswith (u "https://") p.2 = true) kvs
}.
Lemma startswith_length p s : startswith p s = true → length p ≤ length s.
Proof.
  revert s. induction p as [|c p IH]; intros [|d s]; cbn; try done; try lia. destruct (c =? d)%N; [|done]. intros Hs. specialize (IH s Hs). lia.
Qed.
Ltac no_url := intros Hin; exfalso; revert Hin; apply (bool_decide_unpack _); vm_compute; exact I.
Ltac kv := repeat (apply Forall_cons_2; [cbn [fst snd]; first [assumption | intros _; assumption | no_url]|]); apply Forall_nil_2.
Lemma build_record_ok now digest r d : build_record now (PyStr digest) r = Ok (inr d) → ∃ type kvs, built digest now d type kvs.
Proof.
  destruct r as [repository tag|run_url run_id conclusion|fp alg|log_id entry_url]; cbn [build_record].
  - unfold build_git_tag_record. intros (dg & [E _]%require_digest_ok & Hr)%and_then_ok. injection E as <-.
    apply and_then_ok in Hr as (repo & [_ Hrl]%require_text_ok & Hr). cbv zeta in Hr. apply and_then_ok in Hr as (named & Hn%pass_ok & Hr).
    apply and_then_ok in Hr as (x & Hx%anchor_fail_if_ok & Hr). apply negb_false_iff in Hx. subst named. apply Ok_inj in Hr. injection Hr as <-.
    unfold py_startswith in Hn. destruct (if py_truth tag then tag else _) as [| | | |t| | | |]; try discriminate. apply Ok_inj in Hn.
    exists (u "git-tag"), [(u "tag", t); (u "repository", repo)]. pose proof (startswith_length _ _ Hn) as Htl. change (length (u "anchor/")) with 7 in Htl.
    assert (1 ≤ length t) by lia. split; [reflexivity|vm_compute; reflexivity|kv|kv].
  - unfold build_ci_run_record. intros (dg & [E _]%require_digest_ok & Hr)%and_then_ok. injection E as <-.
    apply and_then_ok in Hr as (url & [_ Hul]%require_text_ok & Hr). apply and_then_ok in Hr as (x & Hx%anchor_fail_if_ok & Hr). apply negb_false_iff in Hx.
    apply and_then_ok in Hr as (id & [_ Hil]%require_text_ok & Hr). apply and_then_ok in Hr as (c & [_ Hcl]%require_text_ok & Hr). apply Ok_inj in Hr. injection Hr as <-.
    exists (u "ci-run"), [(u "run_url", url); (u "run_id", id); (u "conclusion", c)]. split; [reflexivity|vm_compute; reflexivity|kv|kv].
  - unfold build_rfc3161_record. intros (dg & [E _]%require_digest_ok & Hr)%and_then_ok. injection E as <-.
    apply and_then_ok in Hr as (f & [_ Hfl]%require_text_ok & Hr). apply and_then_ok in Hr as (x & _ & Hr).
    apply and_then_ok in Hr as (a & [_ Hal]%require_text_ok & Hr). apply Ok_inj in Hr. injection Hr as <-.
    exists (u "rfc3161-file"), [(u "file_fingerprint", f); (u "hash_algorithm", a)]. split; [reflexivity|vm_compute; reflexivity|kv|kv].
  - unfold build_transparency_log_record. intros (dg & [E _]%require_digest_ok & Hr)%and_then_ok. injection E as <-.
    apply and_then_ok in Hr as (l & [_ Hll]%require_text_ok & Hr). apply and_then_ok in Hr as (url & [_ Hul]%require_text_ok & Hr).
    apply and_then_ok in Hr as (x & Hx%anchor_fail_if_ok & Hr). apply negb_false_iff in Hx. apply Ok_inj in Hr. injection Hr as <-.
    exists (u "transparency-log-entry"), [(u "log_id", l); (u "entry_url", url)]. split; [reflexivity|vm_compute; reflexivity|kv|kv].
Qed.
Lemma build_records_ok now digest rs ds : build_records now (PyStr digest) rs = Ok (inr ds) →
  Forall (λ v, ∃ d type kvs, v = PyDict d ∧ built digest now d type kvs) ds ∧ length ds = length rs.
Proof.
  revert ds. induction rs as [|r rs IH]; intros ds; cbn [build_records].
  { intros E. apply Ok_inj in E. injection E as <-. by split. }
  intros (d & Hd & Hr)%and_then_ok. apply and_then_ok in Hr as (ds' & Hds & Hr). apply Ok_inj in Hr. injection Hr as <-.
  destruct (IH _ Hds) as [H1 H2]. destruct (build_record_ok _ _ _ _ Hd) as (type & kvs & Hb). split; [|cbn; lia]. constructor; [by exists d, type, kvs|done].
Qed.

Lemma field_ok s : 1 ≤ length s → length s ≤ _ANCHOR_FIELD_VALUE_MAX_CHARS → field_text_ok (PyStr s) = true.
Proof. intros H1 H2. unfold field_text_ok. cbn [str_test]. apply andb_true_iff. by rewrite !Nat.leb_le. Qed.
Lemma https_ok s : startswith (u "https://") s = true → str_test (λ s, (s ≠s []) && negb (startswith (u "https://") s)) (PyStr s) = false.
Proof. intros Hs. cbn [str_test]. by rewrite Hs, andb_false_r. Qed.

(** The fields of the vocabulary. *)
Lemma vocabulary type fields : dget type _ANCHOR_REQUIRED_EVIDENCE = Some fields → NoDup fields ∧ points type ∧ Forall points fields.
Proof.
  intros Hd. apply dget_Some_elem in Hd.
  assert (H : Forall (λ p : pystr * list pystr, bool_decide (NoDup p.2) && forallb is_code_point p.1 && forallb (forallb is_code_point) p.2 = true) _ANCHOR_REQUIRED_EVIDENCE) by by_compute.
  apply (proj1 (Forall_forall _ _) H) in Hd. cbn [fst snd] in Hd. apply andb_true_iff in Hd as [[H1%bool_decide_eq_true H2]%andb_true_iff H3].
  split; [done|]. split; [by apply forallb_Forall|]. apply forallb_Forall in H3. eapply Forall_impl; [exact H3|]. intros k Hk. by apply forallb_Forall.
Qed.
Lemma filter_none {A} (P : A → Prop) `{∀ x, Decision (P x)} (l : list A) : (∀ x, x ∈ l → ¬ P x) → filter P l = [].
Proof.
  induction l as [|x l IH]; intros Hl; [done|]. rewrite filter_cons_False by (apply Hl, elem_of_cons; by left). apply IH. intros y Hy. apply Hl, elem_of_cons. by right.
Qed.
Lemma fields_exact known d missing extra : dkeys d = known → field_problems known d missing extra = [].
Proof.
  intros <-. unfold field_problems, missing_fields, extra_fields. rewrite !filter_none by (intros x Hx Hn; by destruct (Hn Hx)).
  rewrite (proj2 (sorted_strs_nil [])) by done. by rewrite bool_decide_eq_true_2.
Qed.
Definition texts (kvs : list (pystr * pystr)) : dict := (λ p, (p.1, PyStr p.2)) <$> kvs.
Lemma texts_keys kvs : dkeys (texts kvs) = kvs.*1.
Proof. unfold dkeys, texts. rewrite <-list_fmap_compose. apply list_fmap_ext. intros i [k v] _. reflexivity. Qed.
Lemma texts_get kvs k v : NoDup kvs.*1 → (k, v) ∈ kvs → pget k (texts kvs) = PyStr v.
Proof.
  intros Hn Hin. unfold pget. rewrite (elem_dget k (PyStr v)); [done|by rewrite texts_keys|]. apply list_elem_of_fmap. by exists (k, v).
Qed.

(** The texts of the evidence are not too long, which the builders do not ask,
    and are texts. *)
Definition recordable (kvs : list (pystr * pystr)) : Prop := Forall (λ p, length p.2 ≤ _ANCHOR_FIELD_VALUE_MAX_CHARS ∧ points p.2) kvs.
Definition anchor_time (now : pystr) : Prop := 1 ≤ length now ≤ _ANCHOR_FIELD_VALUE_MAX_CHARS ∧ points now.
Section valid.
Context `{PyRepr} (digest now : pystr) (Hnow : anchor_time now).
Lemma built_valid d type kvs i : built digest now d type kvs → recordable kvs → anchor_record_problems digest i (PyDict d) = [].
Proof.
  intros [-> Hf Ht Hh] Hr. destruct (vocabulary _ _ Hf) as (Hn & _ & _). unfold anchor_record_problems.
  rewrite (fields_exact _ANCHOR_RECORD_FIELDS) by reflexivity. rewrite bool_decide_eq_true_2 by done. cbn [negb]. unfold record_of.
  change (pget (u "type") _) with (PyStr type). cbv iota. rewrite Hf. change (pget (u "anchor_time") _) with (PyStr now). change (pget (u "anchor_target") _) with (PyStr digest).
  change (pget (u "evidence") _) with (PyDict (texts kvs)). cbv iota.
  assert (Htime : field_text_ok (PyStr now) = true) by (apply field_ok; apply Hnow). rewrite Htime. cbn [is_lit]. rewrite bool_decide_eq_true_2 by done. cbn [app].
  rewrite (fields_exact _ _ _ _ (texts_keys kvs)). rewrite bool_decide_eq_true_2 by done. cbn [negb].
  rewrite app_nil. split; apply concat_nil_Forall, Forall_fmap, Forall_forall; cbn [compose].
  - intros k ([k' v] & -> & Hin)%list_elem_of_fmap. cbn [fst]. rewrite (texts_get _ _ _ Hn Hin).
    pose proof (proj1 (Forall_forall _ _) Ht _ Hin) as H1. pose proof (proj1 (Forall_forall _ _) Hr _ Hin) as [H2 _]. by rewrite (field_ok v H1 H2).
  - intros k [Hk Hin]%list_elem_of_filter. apply list_elem_of_fmap in Hin as ([k' v] & -> & Hin). cbn [fst] in *. rewrite (texts_get _ _ _ Hn Hin).
    pose proof (proj1 (Forall_forall _ _) Hh _ Hin Hk) as H1. cbn [snd] in H1. by rewrite (https_ok v H1).
Qed.
Lemma records_valid (records : list pyval) : hex64 digest = true → length records ≤ _MAX_ANCHOR_RECORDS →
  Forall (λ v, ∃ d type kvs, v = PyDict d ∧ built digest now d type kvs ∧ recordable kvs) records → validate_records records (PyStr digest) = [].
Proof.
  intros Hd Hl Hr. unfold validate_records, validate_anchor_bundle, anchor_bundle.
  change (pget (u "schema_version") _) with (PyInt _ANCHORS_SCHEMA_VERSION). change (pget (u "records") _) with (PyList records). cbv iota.
  change (when _ _) with (@nil pystr). rewrite (proj2 (Nat.ltb_ge _ _)) by exact Hl. rewrite Hd. cbn [app].
  apply concat_nil_Forall. apply Forall_forall. intros ps Hin. apply list_elem_of_lookup in Hin as (i & Hi). rewrite list_lookup_imap in Hi.
  destruct (records !! i) as [v|] eqn:Ev; [|discriminate]. injection Hi as <-. apply list_elem_of_lookup_2 in Ev.
  destruct (proj1 (Forall_forall _ _) Hr v Ev) as (d & type & kvs & -> & Hb & Hk). by apply (built_valid d type kvs).
Qed.
End valid.

(** ** The file is what the verifier reads *)
Lemma utf8_length s : length s ≤ length (utf8_bytes s).
Proof.
  unfold utf8_bytes. induction s as [|c s IH]; [done|]. cbn [fmap list_fmap concat]. rewrite length_app. cbn [length].
  assert (1 ≤ length (utf8_char c)) by (unfold utf8_char; repeat case_match; cbn; lia). lia.
Qed.
(** A file written by [json_file] is read back under the limits. *)
Lemma json_file_reads `{FloatRepr} value bytes limit :
  json_plain (PyDict value) = true → unicode_value (PyDict value) = true → strict_value 0 (PyDict value) → json_file value = Ok bytes →
  (N.of_nat (length bytes) ≤ limit)%N → (limit ≤ _MAX_JSON_STRUCTURAL_TOKENS)%N →
  load_json_value (NFile (N.of_nat (length bytes)) (inl bytes)) limit = Ok (PyDict value).
Proof.
  intros Hp Hu Hs Hf Hl Hm. destruct (json_file_text _ Hp Hu) as (text & Ht & Hd & Hload). rewrite Ht in Hf. apply Ok_inj in Hf as <-.
  unfold load_json_value, read_bounded_bytes. rewrite bounded_loop_spec by lia. rewrite (proj2 (N.leb_le _ _)) by lia. cbn [app mbind result_bind].
  rewrite Hd. cbn [mbind result_bind]. unfold loads_json_value. pose proof (utf8_length text) as Hlen. rewrite small_text_in_budget by lia. cbn [mbind result_bind].
  rewrite Hload. cbn [mbind result_bind].
  unfold _reject_non_interoperable_values. by rewrite (proj2 (reject_value_strict _ 0 (loads_value _ _ _ (Hload strict_loads))) Hs).
Qed.

Lemma texts_plain `{FloatRepr} kvs : NoDup kvs.*1 → json_plain (PyDict (texts kvs)) = true.
Proof.
  intros Hn. cbn [json_plain]. rewrite texts_keys, bool_decide_eq_true_2 by done. cbn [andb]. apply forallb_Forall, Forall_fmap, Forall_forall. by intros.
Qed.
Lemma texts_unicode kvs : Forall points kvs.*1 → Forall (λ p, points p.2) kvs → unicode_value (PyDict (texts kvs)) = true.
Proof.
  intros Hk Hv. cbn [unicode_value]. apply forallb_Forall, Forall_fmap. apply Forall_fmap in Hk. induction Hv as [|[k v] kvs Hv _ IH]; [constructor|].
  apply Forall_cons in Hk as [Hk Hks]. constructor; [|by apply IH]. cbn. apply andb_true_iff. split; by apply forallb_Forall.
Qed.
Lemma texts_strict n kvs : n < _MAX_JSON_CONTAINER_DEPTH → NoDup kvs.*1 → Forall points kvs.*1 → Forall (λ p, points p.2) kvs → strict_value n (PyDict (texts kvs)).
Proof.
  intros Hd Hn Hk Hv. constructor; [done|by rewrite texts_keys|rewrite texts_keys; eapply Forall_impl; [exact Hk|]; intros k; apply points_clean|].
  apply Forall_fmap. eapply Forall_impl; [exact Hv|]. intros p Hp. constructor. by apply points_clean.
Qed.
(** A record that can be written. *)
Lemma built_writable `{FloatRepr} digest now d type kvs : points digest → points now → built digest now d type kvs → recordable kvs →
  json_plain (PyDict d) = true ∧ unicode_value (PyDict d) = true ∧ strict_value 2 (PyDict d).
Proof.
  intros Hd Hn [-> Hf _ _] Hr. destruct (vocabulary _ _ Hf) as (Hnd & Ht & Hk).
  assert (Hv : Forall (λ p, points p.2) kvs) by (eapply Forall_impl; [exact Hr|]; by intros p []). unfold record_of. change (_ <$> kvs) with (texts kvs). split_and!.
  - cbn [json_plain]. apply andb_true_iff. split; [by_compute|]. change (true && (true && (true && (json_plain (PyDict (texts kvs)) && true))) = true). by rewrite texts_plain.
  - change (true && (forallb is_code_point type) && (true && (forallb is_code_point digest) && (true && (forallb is_code_point now) && (true && unicode_value (PyDict (texts kvs)) && true))) = true).
    rewrite texts_unicode by done. by rewrite !(proj2 (forallb_Forall _ _)) by done.
  - constructor; [unfold _MAX_JSON_CONTAINER_DEPTH; lia|apply (bool_decide_unpack _); by_compute|repeat (apply Forall_cons_2; [vm_compute; reflexivity|]); apply Forall_nil_2|].
    repeat (apply Forall_cons_2; [cbn [snd]; try (constructor; by apply points_clean)|]); [|apply Forall_nil_2].
    apply texts_strict; try done. unfold _MAX_JSON_CONTAINER_DEPTH. lia.
Qed.
Lemma bundle_writable `{FloatRepr} digest now records : points digest → points now →
  Forall (λ v, ∃ d type kvs, v = PyDict d ∧ built digest now d type kvs ∧ recordable kvs) records →
  let b := PyDict (anchor_bundle records) in json_plain b = true ∧ unicode_value b = true ∧ strict_value 0 b.
Proof.
  intros Hd Hn Hr. assert (Hall : Forall (λ v, json_plain v = true ∧ unicode_value v = true ∧ strict_value 2 v) records).
  { eapply Forall_impl; [exact Hr|]. intros v (d & type & kvs & -> & Hb & Hk). exact (built_writable _ _ _ _ _ Hd Hn Hb Hk). }
  unfold anchor_bundle. cbv zeta. split_and!.
  - cbn [json_plain]. apply andb_true_iff. split; [by_compute|]. cbn [forallb snd json_plain]. rewrite andb_true_r. change (true && forallb json_plain records = true).
    cbn [andb]. apply forallb_Forall. eapply Forall_impl; [exact Hall|]. by intros v (? & _).
  - cbn [unicode_value forallb fst snd]. change (true && true && (true && forallb unicode_value records && true) = true). cbn [andb]. rewrite andb_true_r.
    apply forallb_Forall. eapply Forall_impl; [exact Hall|]. by intros v (_ & ? & _).
  - constructor; [unfold _MAX_JSON_CONTAINER_DEPTH; lia|apply (bool_decide_unpack _); by_compute|repeat (apply Forall_cons_2; [vm_compute; reflexivity|]); apply Forall_nil_2|].
    repeat (apply Forall_cons_2; [cbn [snd]; try constructor|]); [unfold _MAX_JSON_CONTAINER_DEPTH; lia| |apply Forall_nil_2].
    eapply Forall_impl; [exact Hall|]. by intros v (_ & _ & ?).
Qed.

(** ** Anchoring, then verifying, then signing *)
Section pipeline.
Context `{FloatRepr} `{PyRepr} (exn_text : exn → pystr) (decoded_prefix : list N → pystr).
(** The records of some requests, fit to be written. *)
Definition anchors_for (digest now : pystr) (records : list pyval) : Prop :=
  anchor_time now ∧ length records ≤ _MAX_ANCHOR_RECORDS ∧ Forall (λ v, ∃ d type kvs, v = PyDict d ∧ built digest now d type kvs ∧ recordable kvs) records.

(** An accepted, unsigned pack takes such anchors and is accepted with them. *)
Lemma anchored_pack_accepted follow l entries report found count n bytes manifest digest covered now records file :
  let pack := NDir true l entries in
  let pack' := NDir true l (dset ANCHORS_NAME (NFile (N.of_nat (length file)) (inl file)) entries) in
  well_formed pack → verify_pack exn_text decoded_prefix pack None false = Ok report → rp_values report = [] →
  _walk_package_entries pack = (found, inl count) → (count < _MAX_PACKAGE_ENTRY_COUNT)%N → dget ANCHORS_NAME entries = None →
  signable follow pack n bytes manifest digest covered → anchors_for digest now records →
  json_file (anchor_bundle records) = Ok file → (N.of_nat (length file) ≤ _MAX_ANCHORS_JSON_BYTES)%N →
  attach_anchor_records follow true pack records = Ok (inr pack') ∧ verify_pack exn_text decoded_prefix pack' None false = Ok report.
Proof.
  intros pack pack' Hwf Hv Hr Hwalk Hcount Hfresh [[Hn Hb Hp Hs Hd Hx] _] (Hnow & Hlen & Hrec) Hfile Hsize.
  assert (Hvalid : validate_records records (PyStr digest) = []) by (by apply (records_valid digest now Hnow records)).
  split.
  - unfold attach_anchor_records. rewrite Hn. cbn [pass and_then]. rewrite Hb, Hp, Hd. cbn [_require_digest]. rewrite Hx. cbn [and_then].
    unfold pack, top_exists. rewrite Hfresh. cbn [pass and_then]. cbn [anchor_fail_if and_then]. rewrite Hvalid, Hfile. cbn [pass and_then].
    unfold put_file. by rewrite Hfresh.
  - destruct (verify_pack_ok _ _ _ _ _ _ Hwf Hv Hr) as (mf & m & es & ex & events & Hacc). destruct (ap_manifest _ _ _ _ _ _ _ _ _ Hacc) as [Hmf Hload].
    assert (Hleaf : ∀ parts k, leaf_at pack parts k → k = KFile) by (intros parts k Hk; apply (ap_closed _ _ _ _ _ _ _ _ _ Hacc parts k Hk)).
    unfold pack in Hn. rewrite (top_member follow l entries MANIFEST_NAME eq_refl Hleaf) in Hn. fold pack in Hn. rewrite Hmf in Hn. apply Ok_inj in Hn. injection Hn as ->.
    destruct (strict_manifest _ _ _ _ Hb Hp Hload) as [-> _].
    assert (Hname : ANCHORS_NAME ∈ [SIGNATURE_NAME; ANCHORS_NAME]) by (apply elem_of_cons; right; by apply list_elem_of_singleton).
    refine (extended_pack_verdict l entries ANCHORS_NAME (NFile (N.of_nat (length file)) (inl file)) Hname Hfresh eq_refl exn_text decoded_prefix n m None false None false report found count
             Hwf Hwalk Hcount Hmf Hload _ Hv Hr).
    assert (Hnone : member_file pack SIGNATURE_NAME = None).
    { pose proof (ap_signature _ _ _ _ _ _ _ _ _ Hacc) as Hseal. unfold sealed_pack in Hseal. destruct (member_file pack SIGNATURE_NAME); [|done]. by destruct Hseal as (k & ? & _). }
    unfold seal_problems. rewrite (extended_file l entries ANCHORS_NAME (NFile (N.of_nat (length file)) (inl file)) SIGNATURE_NAME) by (vm_compute; reflexivity). fold pack. rewrite Hnone.
    rewrite (extended_added l entries ANCHORS_NAME (NFile (N.of_nat (length file)) (inl file)) Hname Hfresh eq_refl).
    assert (Hpd : points digest) by (apply full_classes_spec in Hx as [_ Hx]; apply points_ascii; eapply Forall_impl; [exact Hx|]; intros c Hc; by apply hex_lower_plain in Hc as (Hc & _)).
    destruct (bundle_writable digest now records Hpd (proj2 Hnow) Hrec) as (W1 & W2 & W3).
    rewrite (json_file_reads _ _ _ W1 W2 W3 Hfile Hsize) by (unfold _MAX_ANCHORS_JSON_BYTES, _MAX_JSON_STRUCTURAL_TOKENS; lia).
    cbn [handle mbind result_bind app]. rewrite Hd. f_equal. exact Hvalid.
Qed.

(** The texts of the evidence are texts, of at most 512 characters. *)
Definition short_evidence (record : pyval) : Prop :=
  ∀ d e, record = PyDict d → pget (u "evidence") d = PyDict e → Forall (λ p, ∀ s, p.2 = PyStr s → length s ≤ _ANCHOR_FIELD_VALUE_MAX_CHARS ∧ points s) e.
Lemma short_recordable digest now d type kvs : built digest now d type kvs → short_evidence (PyDict d) → recordable kvs.
Proof.
  intros [-> _ _ _] Hs. specialize (Hs _ (texts kvs) eq_refl eq_refl). unfold texts in Hs. apply Forall_fmap in Hs.
  eapply Forall_impl; [exact Hs|]. intros [k v] Hv. by apply (Hv v).
Qed.

(** C3: The whole way of a pack: anchors built for it are attached, the pack is
    signed, and what comes out is accepted.  For a pack that the verifier accepts
    unsigned, with room for both files, records that the builders made for its
    digest, with texts of at most 512 characters and a file within the limit,
    nothing fails, and the verifier, a signature required, accepts the result
    with the signer's public key and the same report. *)
Theorem anchored_signed_pack_verifies follow posix seed key public now pack report found count digest requests records file manifest_file manifest :
  bytes_ok seed → write_signing_key posix Created seed = Ok (inr key) → public_key_hex seed = Ok public → time_text now →
  well_formed pack → verify_pack exn_text decoded_prefix pack None false = Ok report → rp_values report = [] →
  _package_member_path pack SIGNATURE_NAME = Some None → _package_member_path pack ANCHORS_NAME = Some None →
  _walk_package_entries pack = (found, inl count) → (count + 1 < _MAX_PACKAGE_ENTRY_COUNT)%N →
  member_file pack MANIFEST_NAME = Some manifest_file → _load_json manifest_file _MAX_MANIFEST_JSON_BYTES = Ok manifest →
  pget (u "pack_digest") manifest = PyStr digest → build_records now (PyStr digest) requests = Ok (inr records) → Forall short_evidence records →
  length requests ≤ _MAX_ANCHOR_RECORDS → json_file (anchor_bundle records) = Ok file → (N.of_nat (length file) ≤ _MAX_ANCHORS_JSON_BYTES)%N →
  ∃ anchored record signed, attach_anchor_records follow true pack records = Ok (inr anchored) ∧
    sign_pack follow true now anchored key = Ok (inr (record, signed)) ∧ verify_pack exn_text decoded_prefix signed (Some public) true = Ok report.
Proof.
  intros Hseed Hkey Hpub Hnow Hwf Hv Hr Hsig Hanc Hwalk Hcount Hmf Hload Hd Hbuild Hshort Hlen Hfile Hsize.
  unfold _package_member_path in Hanc. change (member_parts ANCHORS_NAME) with (Some [ANCHORS_NAME]) in Hanc. cbn [descend] in Hanc.
  destruct pack as [|[] l entries| |]; try discriminate. destruct (dget ANCHORS_NAME entries) as [x|] eqn:Efresh; [by destruct x|]. clear Hanc.
  destruct (accepted_signable exn_text decoded_prefix follow _ _ _ Hwf Hv Hr) as (n & bytes & m & dg & covered & Hsg).
  assert (Hdg : dg = digest).
  { destruct (verify_pack_ok _ _ _ _ _ _ Hwf Hv Hr) as (mf & m' & es & ex & events & Hacc).
    assert (Hleaf : ∀ parts k, leaf_at (NDir true l entries) parts k → k = KFile) by (intros parts k Hk; apply (ap_closed _ _ _ _ _ _ _ _ _ Hacc parts k Hk)).
    destruct Hsg as [[Hn Hb Hp _ Hd' _] _]. rewrite (top_member follow l entries MANIFEST_NAME eq_refl Hleaf), Hmf in Hn. apply Ok_inj in Hn. injection Hn as ->.
    destruct (strict_manifest _ _ _ _ Hb Hp Hload) as [-> _]. congruence. }
  subst dg. destruct (build_records_ok _ _ _ _ Hbuild) as [Hbt Hll].
  assert (Hrec : Forall (λ v, ∃ d type kvs, v = PyDict d ∧ built digest now d type kvs ∧ recordable kvs) records).
  { apply Forall_forall. intros v Hin. destruct (proj1 (Forall_forall _ _) Hbt v Hin) as (d & type & kvs & -> & Hb). exists d, type, kvs. split; [done|]. split; [done|].
    exact (short_recordable _ _ _ _ _ Hb (proj1 (Forall_forall _ _) Hshort _ Hin)). }
  assert (Hfor : anchors_for digest now records).
  { destruct Hnow as [Hpt Hnl]. split; [|split; [lia|exact Hrec]]. split; [unfold _ANCHOR_FIELD_VALUE_MAX_CHARS; lia|by apply points_ascii, plain_ascii]. }
  assert (Hc1 : (count < _MAX_PACKAGE_ENTRY_COUNT)%N) by lia.
  destruct (anchored_pack_accepted follow l entries report found count n bytes m digest covered now records file Hwf Hv Hr Hwalk Hc1 Efresh Hsg Hfor Hfile Hsize) as [Hattach Hver].
  set (added := NFile (N.of_nat (length file)) (inl file)) in *.
  assert (Hname : ANCHORS_NAME ∈ [SIGNATURE_NAME; ANCHORS_NAME]) by (apply elem_of_cons; right; by apply list_elem_of_singleton).
  pose proof (extended_formed l entries ANCHORS_NAME added Efresh eq_refl Hwf) as Hwf'.
  destruct (extended_walk l entries ANCHORS_NAME added Efresh eq_refl [] found count Hwalk Hc1) as [found' Hwalk'].
  assert (Hsig' : _package_member_path (NDir true l (dset ANCHORS_NAME added entries)) SIGNATURE_NAME = Some None).
  { rewrite (member_not_added l entries ANCHORS_NAME added SIGNATURE_NAME) by (vm_compute; reflexivity). exact Hsig. }
  destruct (signed_pack_verifies exn_text decoded_prefix follow posix seed key public now _ report found' _ Hseed Hkey Hpub Hnow Hwf' Hver Hr Hsig' Hwalk' Hcount)
    as (record & signed & Hs & Hfinal).
  exists (NDir true l (dset ANCHORS_NAME added entries)), record, signed. split; [exact Hattach|]. split; [exact Hs|exact Hfinal].
Qed.
End pipeline.

(** ** The pack of the samples, anchored and signed *)
Import PackSample ChainSample.
Definition sample_seed : list N := repeat 7%N 32.
Definition sample_key : key_file := mkKeyFile (inl (hex_of_bytes sample_seed ++ [10%N])) (Some _KEY_FILE_MODE).
Definition sample_time : pystr := u "2026-01-02T03:04:05+00:00".
Definition sample_digest : pystr := Eval vm_compute in match pget (u "pack_digest") manifest with PyStr d => d | _ => [] end.
Definition sample_requests : list anchor_request := [GitTag (PyStr (u "ayukyo/icode")) PyNone; LogEntry (PyStr (u "rekor")) (PyStr (u "https://rekor.example/1"))].
Definition sample_records : list pyval := Eval vm_compute in
  match build_records sample_time (PyStr sample_digest) sample_requests with Ok (inr records) => records | _ => [] end.
Definition sample_anchors : list N := Eval vm_compute in match json_file (anchor_bundle sample_records) with Ok file => file | Err _ => [] end.
Lemma sample_evidence : Forall short_evidence sample_records.
Proof.
  unfold sample_records. repeat (apply Forall_cons_2); [| |apply Forall_nil_2]; intros d e [= <-]; unfold pget; vm_compute (dget _ _); cbn [default];
    intros [= <-]; repeat (apply Forall_cons_2); try apply Forall_nil_2; cbn [snd]; intros s [= <-]; (split; [vm_compute; lia|]); by_compute.
Qed.
Lemma anchored_signed_pack_verifies_witness :
  ∃ public anchored record signed, public_key_hex sample_seed = Ok public ∧
    attach_anchor_records (λ _, None) true sample sample_records = Ok (inr anchored) ∧
    sign_pack (λ _, None) true sample_time anchored sample_key = Ok (inr (record, signed)) ∧
    verify_pack no_text no_prefix signed (Some public) true = Ok quiet_report.
Proof.
  assert (Hp : ∃ public, public_key_hex sample_seed = Ok public) by (eexists; unfold public_key_hex, ed25519_public_key, _ed_secret_expand; reflexivity).
  destruct Hp as [public Hp]. exists public.
  destruct (anchored_signed_pack_verifies no_text no_prefix (λ _, None) true sample_seed sample_key public sample_time sample quiet_report
              (fst (_walk_package_entries sample)) 7%N sample_digest sample_requests sample_records sample_anchors (a_file manifest_text) manifest)
    as (anchored & record & signed & Ha & Hs & Hv).
  - apply Forall_forall. intros b Hb%list_elem_of_In%repeat_spec. subst b. reflexivity.
  - vm_compute. reflexivity.
  - exact Hp.
  - split; [|vm_compute; lia]. apply plain_literal. vm_compute. reflexivity.
  - exact sample_formed.
  - exact sample_accepted.
  - reflexivity.
  - vm_compute. reflexivity.
  - vm_compute. reflexivity.
  - vm_compute. reflexivity.
  - reflexivity.
  - vm_compute. reflexivity.
  - vm_compute. reflexivity.
  - vm_compute. reflexivity.
  - vm_compute. reflexivity.
  - exact sample_evidence.
  - vm_compute. lia.
  - vm_compute. reflexivity.
  - vm_compute. discriminate.
  - exists anchored, record, signed. split; [exact Hp|]. split; [exact Ha|]. split; [exact Hs|exact Hv].
Defined.

(** Records that the builders and [validate_records] accept can make a file that
    the signer, and the verifier, refuse for its size. *)
Definition long_request : anchor_request :=
  CiRun (PyStr (u "https://" ++ replicate 504 97%N)) (PyStr (replicate 512 97%N)) (PyStr (replicate 512 97%N)).
Definition refused_size : bool :=
  match build_records sample_time (PyStr sample_digest) (repeat long_request 160) with
  | Ok (inr records) =>
    match attach_anchor_records (λ _, None) true sample records with
    | Ok (inr anchored) =>
      match read_anchors (λ _, None) anchored, verify_pack no_text no_prefix anchored None false with
      | Ok (inl message), Ok report => (message =s u "pack-signing/anchors.json 超过安全上限") && negb (bool_decide (rp_values report = []))
      | _, _ => false
      end
    | _ => false
    end
  | _ => false
  end.
Example oversized_anchors : refused_size = true.
Proof. vm_compute. reflexivity. Qed.
